(* ===== verification/_CoqProject ===== *)
-Q . S2P
Prelude.v
Heap.v
PtrVector.v
IbTypes.v
SmState.v
SmInfo.v
Pkey.v
Rate.v
Mgrp.v
MgrpOk.v
MgrpOps.v
MgrpDrop.v
QMap.v
QMapRep.v
QMapIns.v
QMapDel.v
QMapList.v
QMapInv.v
QMapOk.v
QMapPut.v
QMapCut.v
QMapTwo.v
QMapDelta.v
QMapSpec.v
QMapEx.v
McMember.v
McMemberOk.v
McMemberThm.v
McMemberSpec.v
McMemberTrip.v
McMemberNew.v
McTree.v
McMemberEx.v
LidMgr.v
CString.v
NodeMap.v
DbFiles.v
DbPack.v
Switch.v
UcastMgr.v
McastTbl.v
McastTblSpec.v
McastMgr.v
McastTree.v
McastBranch.v
McastMgrOk.v
McastSweep.v
McastMinHop.v
RouteEx.v
Updn.v
UpdnSearch.v
UpdnRank.v
UpdnLegal.v
UpdnRoute.v
McastUpdn.v
UpdnEx.v
McastEx.v
Lash.v
LashCycle.v
LashRoute.v
LashCdg.v
LashPath.v
LashLane.v
LashCore.v
LashBalance.v
LashProc.v
LashEx.v
