(* ===== verification/Prelude.v ===== *)
(** * OpenSM: a verification development of the subnet manager's core

    OpenSM configures an InfiniBand subnet.  Several subnet managers (SMs) may run
    on one fabric; they elect a master with SMInfo MADs.  The master discovers the
    graph of nodes, gives every port a range of LIDs, computes for every switch the
    forwarding tables that lead to every LID, and keeps the choices that must
    survive a restart in a text database.  The development models these parts as
    functions and step relations on explicit states and proves what they promise
    each other: one master, LIDs that no two ports share, routes that arrive.

    ** The files

    - [Prelude.v]: total array reads, [qmap_items] (the order in which a [cl_qmap]
      is walked), machine integers ([u8], [u16], [u32]), the notation
      [s <| f := v |>] for the assignment of a field, and the monad of handlers: a
      state transformer that also lists its outputs.
    - [Heap.v]: complib/cl_heap.c.  The array as a list, every operation with the
      calls of the index callback as a log.
    - [PtrVector.v]: complib/cl_ptr_vector.c.  A write outside the array is the
      result [None]; the refinement maps a vector to a finite function.
    - [IbTypes.v]: byte order (cl_byteswap.h; the class [ByteOrder] is the host's)
      and the wire types of iba/ib_types.h that the rest uses.
    - [SmState.v]: opensm/osm_sm_state_mgr.c.  [osm_sm] is the SM object,
      [osm_sm_state_mgr_process] the transition function (a function per state),
      [polling_callback] the timer.
    - [SmInfo.v]: opensm/osm_sminfo_rcv.c, osm_req.c and osm_resp.c as far as it
      calls them, and the election and handover of opensm/osm_state_mgr.c.
      [sm_step] interleaves the timer, the sweep's signals and the MADs of one SM, cut
      where the code gives a lock back; [sm_edge] of [SmState.v] is the abstract machine.
    - [Pkey.v]: opensm/osm_pkey.c, the P_Key tables and the tests of partition
      membership.
    - [LidMgr.v]: opensm/osm_lid_mgr.c, from the validation of the database to the
      range of every port, written against the class [Guid2Lid] of a persistent
      map.
    - [CString.v], [DbFiles.v], [DbPack.v]: the C strings the database is made of,
      opensm/osm_db_files.c (a domain: table, dirty flag, file) and
      opensm/osm_db_pack.c (GUIDs, LID ranges, M_Keys and neighbours as strings).
      [DbPack.v] makes a domain an instance of [Guid2Lid] and runs the LID manager
      on it.
    - [Switch.v]: opensm/osm_switch.c.  The hop table, the forwarding tables and
      [osm_switch_recommend_path]; its loop body is [rp_step], the variables of the
      loop are the record [rp_state].
    - [UcastMgr.v]: opensm/osm_ucast_mgr.c.  Hop weights, lid matrices, forwarding
      tables, and [forward], which follows a packet through the tables.
    - [RouteEx.v]: a subnet of two switches for the theorems on min-hop routing.
    - [NodeMap.v]: [parse_node_map] of complib/cl_nodenamemap.c, the reader of the
      files of roots and identifiers.
    - [Updn.v]: opensm/osm_ucast_updn.c.  [updn_subn_rank] ranks the switches,
      [bfs_port] and [bfs_visit] are the loops of [updn_bfs_by_node],
      [updn_lid_matrices] is the engine's callback.  [UpdnSearch.v] proves what
      holds of every search (each least count came over a cable, and the search
      ends), [UpdnRank.v] the ranking, [UpdnLegal.v] the searches on a hierarchy,
      where no cable joins switches of one rank; [UpdnRoute.v] joins them with the
      forwarding tables of [UcastMgr.v], and [UpdnEx.v] has the examples.
    - [McastTbl.v]: opensm/osm_mcast_tbl.c, the table of port masks of a switch;
      [McastTblSpec.v] relates its operations to a set of ports per MLID.
    - [McastMgr.v]: opensm/osm_mcast_mgr.c with [osm_mtree_node_new] and
      [osm_switch_recommend_mcast_path].  [mcast_mgr_branch] builds the tree of an
      MLID, [mcast_mgr_set_mftables] the messages with the blocks.
    - [McastTree.v]: [flood] follows the copies of a multicast packet; the class
      [TreeTables] is what the manager needs of the hop tables: the first least-hop
      port to a switch is also the first one to every switch on the way.
      [McastBranch.v] (the recursion), [McastMgrOk.v] (members, root, the loop over
      the MLIDs) and [McastSweep.v] (the messages, the sweep) are proved against it.
      [McastMinHop.v] and [McastUpdn.v] are its instances, for the tables of
      [UcastMgr.v] and of Up/Down; [McastEx.v] has the examples.
    - [Lash.v]: opensm/osm_ucast_lash.c.  [lash_t] is the engine; a lane's channel
      dependency graph is the record [cdg], a store of vertices and the matrix that
      holds their addresses.  [lash_core] assigns the lanes, [lash_process] is the
      engine's callback.  [LashCycle.v] proves the search for circles exact,
      [LashRoute.v] the breadth-first routes shortest.  [LashCdg.v] relates a lane to
      its load ([spec]: how often channels are used and follow each other) and proves
      the walks that add, settle and take back a route; [LashPath.v] lists the
      channels of a route; [LashLane.v] joins them for one pair of switches on one
      lane.  [LashCore.v] is the assignment, [LashBalance.v] the balancing and the
      freedom from deadlocks, [LashProc.v] the engine on a subnet, from the cables to
      the forwarding tables, and [LashEx.v] has rings as examples.

    - [QMap.v]: complib/cl_map.c, the red-black trees of [cl_qmap_t] and
      [cl_fmap_t], on a memory of items [cl_mem] with links, list and key.
      [QMapRep.v] says what tree the links mean, with a place in it, and proves the
      rotation; [QMapIns.v] and [QMapDel.v] prove the two balancing loops, [QMapList.v]
      the ring of the items, [QMapInv.v] the searches, over any order of the keys (the
      class [KeyOrder]).  [QMapOk.v] has the invariant [map_at]; [QMapPut.v],
      [QMapCut.v], [QMapTwo.v] and [QMapDelta.v] prove inserting, removing, merging and
      comparing.  [QMapSpec.v] has the 64-bit keys, where a map refines a [gmap], and
      [QMapEx.v] a memory with four maps.
    - [Rate.v]: the rates of libopensm/osm_helper.c and iba/ib_types.h: the order of
      the codes, the rate of a link, the cap of osm_sa.c.
    - [Mgrp.v]: opensm/osm_multicast.c and osm_mcm_port.c.  Groups and members are
      objects at addresses in the store [mc_subn], so that reading a freed one has
      no result.  [MgrpOk.v] has the invariants and what keeps them, [MgrpOps.v] what
      each operation does, [MgrpDrop.v] the loop of osm_drop_mgr.c that takes a port
      out of its groups.
    - [McMember.v]: opensm/osm_sa_mcmember_record.c, from a request to the reply and
      the new state; [osm_mcmr_rcv_process] is the handler.  The class [FmapMatch]
      states what a search of the MGIDs with a coarser comparison finds, and [McTree.v]
      gives the instance that searches the trees of [QMap.v].  [McMemberOk.v] proves
      the three ways a request can end ([outcome]), from which [McMemberThm.v] (every
      request is handled), [McMemberSpec.v] (which requests are carried out, the table of
      members, who may change it, the MLIDs) and [McMemberTrip.v] (leaving undoes joining) follow.
      [McMemberNew.v] is about the MTU and rate of a new group, and [McMemberEx.v]
      has the flaws and a small subnet.

    ** How the parts interact

    [SmInfo] signals [SmState]; becoming master starts the sweep.  A sweep runs
    [LidMgr.lid_mgr_sweep], which reads and writes the database through [Guid2Lid];
    the LIDs index the hop tables of [Switch], which [UcastMgr.build_matrices] fills
    and [UcastMgr.ucast_mgr_build_lfts] turns into routes.  What one part needs of
    another is a predicate on its data: distinct LIDs ([lid_mgr_sweep_unique]) are a
    hypothesis of [routing_ok], prepared tables ([prepare_path_rebuild_ok]) are one
    of [matrix_start].  The multicast manager reads the hop tables of either engine
    through [TreeTables].  The handlers of MCMemberRecord change the groups through
    [Mgrp.v], ask the P_Key tests of [Pkey.v] and the rates of [Rate.v], and their
    [RerouteMlid] events are the requests the multicast manager serves.

    The other files use maps as finite maps and walk them by [qmap_items]; that this is
    what the trees of [QMap.v] do is [cl_qmap_insert_refines] and the theorems next to it.

    ** What is shown

    - Routing: the lid matrices are the shortest weighted distances; a packet that
      follows the tables never loops, whatever the routing options, and arrives
      when the links are healthy; the recommended port is on a least-hop path,
      healthy, and the least loaded of them.
    - Up/Down: ranks are distances from the roots; on a hierarchy, and without the option
      [--connect_roots], the hop counts are
      those of the shortest paths that go up and then down, the channels of the
      fabric do not wait for each other in a circle, and packets arrive wherever a
      legal path leads; for any ranks the engine returns and routes do not loop.
    - LASH: after a successful run on a connected subnet with cables in both directions every
      pair of switches has a shortest route and a lane, and on no lane do channels wait for
      each other in a circle, whatever [rand] gives to the balancing; the assignment
      always ends, and fails only when a pair fits no lane; packets reach their port
      along the route that was assigned, and the service level of a path is its lane.
    - Multicast: a table refines a set of ports per MLID, and the messages of a sweep
      make every switch forward as its table says; over the tables of either engine
      (least hops with healthy links, Up/Down on a hierarchy) the packets of every
      member reach each of the others exactly once and never loop.
    - Maps: on the links in memory, inserting, removing, looking up, walking, merging and
      comparing are the operations of finite maps, other memory stays as it is, and a
      search of [n] items takes at most [2 log2 (n + 1)] steps.
    - Membership: every MCMemberRecord request is handled to its end; it is carried out
      exactly when a condition on the request, the ports and the group holds
      ([granted]), goes without a reply exactly when it is a join or a query of a LID that
      is no port's, and is refused otherwise; the groups, boxes, lists and counters
      refine a table of join states by MGID and GID; members are
      changed by their own port, or by their partition after a proxy join; a group that
      is not well known has a counter of full members that is not zero, which may be more
      than it has; an MLID is shared by two
      groups only under the option that shares them; leaving undoes joining, lists and
      boxes included; a new group meets its request and, where the request fixes no
      exact value, what the port can carry.
    - LIDs: the sweep of a well-formed subnet, in which ports to be left as they are
      share no LIDs, gives no LID to two ports, unless it
      runs out of them; ranges are aligned to the LMC and persistent entries are
      kept; validating the database establishes the invariant.
    - Mastership: all SMs that know one fabric choose the same winner; every
      interleaving of an SM's threads is, step by step, a run of the abstract state machine
      on the signals that are processed, each with its cause; a Set of
      SMInfo changes the state only when it is authorised; a handover moves
      mastership; a silent master is replaced.
    - Database: what is stored is restored, and packing and unpacking are inverse.
    - Partitions: what the search for a common P_Key returns matches, and it finds one
      when there is one, unless a table has both memberships of a base and the keys
      leave the membership out: then the limited entry may hide the full one.
    - Component library: heap and vector keep their invariants and do what their
      headers promise.
    - Flaws of the code that a theorem exhibits: [cl_ptr_vector_set_overrun],
      [unreachable_master_polled_forever], [unhealthy_link_hides_path],
      [dup_lid_twice], [updn_credit_loop], [updn_multicast_loop],
      [minhop_multicast_loop], [lash_process_stale], [lash_leaves_dangling],
      [emptiest_stuck], [full_member_leaked], [moved_alias_freed],
      [gone_group_reply], [greater_rate_needs_port].

    ** Bounds and fuel

    - The sifting loops of the heap take the heap's size as fuel; the operations
      return [option], and the theorems show that it is never [None].
    - The scan for free LID ranges takes the highest LID as fuel: every step moves
      at least one LID on.
    - The search for a free P_Key entry takes one step per cell of every block.
    - The propagation of hop counts takes the code's own bound, the number of
      switches less one; [lid_matrices_shortest] shows that it is enough.
    - The search of Up/Down takes [bfs_fuel]: every visit but the first follows a
      hop count that went down, and a cell goes down at most 255 times; the ranking takes one step per switch.
    - [mcast_mgr_branch] takes 64 calls, the depth at which the code stops by itself;
      a block is sent in 16 passes ([stripe_fuel]), as there are 16 positions; [flood]
      is shown to end within 128 switches, twice the depth of a tree.
    - [forward] takes 256 hops: hop counts are bytes, and every hop lowers one; over
      LASH it takes one step per switch.
    - The search of LASH for shortest paths takes one step per switch, the walks over
      a route one per switch, [cycle_exists] one per vertex and two more
      ([cycle_fuel]); the theorems show that each is enough.  The loop of
      [balance_virtual_lanes] need not end for every [rand]; its fuel is an argument
      and the theorems hold for any.
    - The loops of a map take as fuel the number of items in memory, [map_fuel], which is
      more than the map has ([at_fuel]).
    - [drop_port_groups] takes one round per entry of the port's list;
      [reduce_fuel] is the number of rates; [build_new_mgid] makes its own 1000 tries.
      [full_members] is a counter of 32 bits: [room] and the length of [serve] keep it
      from wrapping.
    - Hop counts, LIDs and path counts wrap at their width where the code computes
      them, and the theorems show where they cannot wrap or assume that they do not.

    ** Assumptions

    The routing engine in use has no multicast trees of its own, and a block that is
    never sent is empty in the switch.  Allocations succeed, except where a failure is an argument (heap, vector, the
    SM record of a response).  The value of [random], the order of the ports, the
    entries of the hop weights file and the host's byte order are arguments.
    Handlers are atomic as the locks of the program make them.  Two give a lock back
    between a check and what follows from it, the polling callback and the handling of
    a Set(SMInfo): their functions run in one piece, and [sm_step] takes them in the parts
    [polling_decide], [set_request_check] and the processing of the signal, which are
    shown to make them up.  That the file of a domain is opened and renamed are arguments
    of [osm_db_store]; its writes, whose results the source does not use, succeed.

    ** Not modelled

    Threads, timers, sockets, logging, the console and the vendor layers are input
    and output.  Of multicast membership, allocation failures, the release of all
    groups at exit and the dump and reload of the SA database are left out.  The
    pools of items, and with them the maps [cl_map_t], are not modelled.  Of the rest, the parts still to come, in the order of the plan: path records of the SA (osm_sa_path_record.c); partitions (osm_prtn.c, osm_pkey_mgr.c); the VL15
    queue (osm_vl15intf.c); Down/Up
    routing (osm_ucast_dnup.c); discovery and the sweep of osm_state_mgr.c.  The mesh
    analysis of LASH (osm_mesh.c) and the large topology engines (fat tree, torus, DFSSSP, Nue)
    are left aside. *)

From stdpp Require Export base option list list_numbers gmap sets strings sorting.
From Stdlib Require Export ZArith Lia Bool.

Create HintDb heap.

(** ** Total array reads

    C reads an array cell at an index; [a !!! i] is stdpp's total lookup and
    yields the type's default value outside the array, so every theorem that
    reads a cell carries the bound that makes the read a legal one. *)

Lemma lookup_total_lt {A} `{Inhabited A} (l : list A) i :
  i < length l → l !! i = Some (l !!! i).
Proof. intros Hi. by apply list_lookup_lookup_total_lt. Qed.

Lemma lookup_total_insert_eq {A} `{Inhabited A} (l : list A) i x :
  i < length l → <[i:=x]> l !!! i = x.
Proof. intros Hi. by apply list_lookup_total_insert_eq. Qed.

Lemma lookup_total_insert_ne {A} `{Inhabited A} (l : list A) i j x :
  i ≠ j → <[i:=x]> l !!! j = l !!! j.
Proof. intros Hi. by apply list_lookup_total_insert_ne. Qed.

(** The cell at [j] after a write at [i]: the form [case_decide] works on. *)
Lemma lookup_total_insert {A} `{Inhabited A} (l : list A) i j x :
  i < length l → <[i:=x]> l !!! j = if decide (i = j) then x else l !!! j.
Proof.
  intros Hi. case_decide as E; subst;
    [by apply lookup_total_insert_eq | by apply lookup_total_insert_ne].
Qed.

Lemma lookup_total_take {A} `{Inhabited A} (l : list A) n i :
  i < n → take n l !!! i = l !!! i.
Proof. intros Hi. by rewrite !list_lookup_total_alt, lookup_take_lt. Qed.

Lemma insert_same_total {A} `{Inhabited A} (l : list A) i :
  <[i:=l !!! i]> l = l.
Proof.
  destruct (decide (i < length l)) as [Hi|Hi].
  - by apply list_insert_id, lookup_total_lt.
  - apply list_insert_ge. lia.
Qed.

(** Exchanging two cells of an array permutes it. *)
Lemma swap_Permutation {A} (l : list A) i j x y :
  l !! i = Some x → l !! j = Some y → <[i:=y]> (<[j:=x]> l) ≡ₚ l.
Proof.
  intros Hi Hj.
  destruct (decide (i = j)) as [->|Hne].
  { rewrite list_insert_insert_eq. assert (x = y) as -> by congruence.
    by rewrite list_insert_id. }
  assert (i < length l) by eauto using lookup_lt_Some.
  assert (j < length l) by eauto using lookup_lt_Some.
  (* both sides are the same cells outside [i] and [j] *)
  assert (HP : ∀ (k : list A) a b n, k !! n = Some a → b :: k ≡ₚ a :: <[n:=b]> k).
  { intros k a b n Hn. rewrite <-(take_drop_middle k n a Hn) at 1.
    rewrite insert_take_drop by eauto using lookup_lt_Some.
    rewrite <-!Permutation_middle. apply perm_swap. }
  apply (Permutation_cons_inv (a:=x)). etrans; [symmetry|symmetry].
  - apply (HP (<[j:=x]> l) x y i). by rewrite list_lookup_insert_ne.
  - by apply HP.
Qed.

(** The first element that passes a test: a [for] loop with [break]. *)
Fixpoint list_find_first {A} (f : A → bool) (l : list A) : option A :=
  match l with
  | [] => None
  | x :: l => if f x then Some x else list_find_first f l
  end.

Lemma filter_all {A} (P : A → Prop) `{∀ x, Decision (P x)} (l : list A) :
  (∀ x, x ∈ l → P x) → filter P l = l.
Proof.
  induction l as [|x l IH]; intros H1; [done|]. rewrite filter_cons_True by (apply H1; by left).
  f_equal. apply IH. intros y Hy. apply H1. by right.
Qed.

Lemma list_find_first_Some {A} (f : A → bool) l x :
  list_find_first f l = Some x → x ∈ l ∧ f x = true.
Proof.
  induction l as [|y l IH]; simpl; [done|]. destruct (f y) eqn:E.
  - intros [= ->]. split; [left|done].
  - intros H. destruct (IH H). split; [by right|done].
Qed.

Lemma list_find_first_None {A} (f : A → bool) l :
  list_find_first f l = None ↔ ∀ x, x ∈ l → f x = false.
Proof.
  induction l as [|y l IH]; simpl; [split; [intros _ x Hx; by apply not_elem_of_nil in Hx|done]|].
  destruct (f y) eqn:E.
  - split; [done|]. intros H. by rewrite (H y) in E by left.
  - rewrite IH. split.
    + intros H x [->|Hx]%elem_of_cons; auto.
    + intros H x Hx. apply H. by right.
Qed.

(** A loop whose body keeps a component of the state keeps it. *)
Lemma foldl_keeps {S A B} (proj : S → B) (f : S → A → S) l s :
  (∀ s x, proj (f s x) = proj s) → proj (foldl f s l) = proj s.
Proof. intros Hf. revert s. induction l as [|x l IH]; intros s; simpl; [done|]. by rewrite IH. Qed.

(** An invariant of the body is an invariant of the loop. *)
Lemma foldl_inv {S A} (P : S → Prop) (f : S → A → S) l s :
  (∀ s x, x ∈ l → P s → P (f s x)) → P s → P (foldl f s l).
Proof.
  revert s. induction l as [|x l IH]; intros s Hf Hs; simpl; [done|].
  apply IH; [|apply Hf; [left|done]]. intros s' y Hy. apply Hf. by right.
Qed.

(** The sum of a measure over a list. *)
Section SumOver.
Local Open Scope Z_scope.

Definition sum_over {A} (f : A → Z) (l : list A) : Z := foldr (λ e n, f e + n) 0 l.

Lemma sum_over_app {A} (f : A → Z) l1 l2 : sum_over f (l1 ++ l2) = sum_over f l1 + sum_over f l2.
Proof. induction l1 as [|x l1 IH]; simpl; [done|]. rewrite IH. lia. Qed.

Lemma sum_over_le {A} (f f' : A → Z) l :
  (∀ x, x ∈ l → f' x ≤ f x) → sum_over f' l ≤ sum_over f l.
Proof.
  induction l as [|x l IH]; intros H; simpl; [done|].
  pose proof (H x ltac:(left)). specialize (IH ltac:(intros y Hy; apply H; by right)). lia.
Qed.

(** A cell that goes down takes the sum with it. *)
Lemma sum_over_lt {A} (f f' : A → Z) l x :
  (∀ y, y ∈ l → f' y ≤ f y) → x ∈ l → f' x + 1 ≤ f x → sum_over f' l + 1 ≤ sum_over f l.
Proof.
  intros H Hx Hlt. induction l as [|y l IH]; [by apply not_elem_of_nil in Hx|]. simpl.
  pose proof (sum_over_le f f' l ltac:(intros z Hz; apply H; by right)).
  apply elem_of_cons in Hx as [<- | Hx]; [lia|].
  pose proof (H y ltac:(left)). specialize (IH ltac:(intros z Hz; apply H; by right) Hx). lia.
Qed.

Lemma sum_over_pos {A} (f : A → Z) l : (∀ x, x ∈ l → 0 ≤ f x) → 0 ≤ sum_over f l.
Proof.
  intros H. induction l as [|x l IH]; simpl; [done|].
  pose proof (H x ltac:(left)). specialize (IH ltac:(intros y Hy; apply H; by right)). lia.
Qed.

End SumOver.

(** ** Iteration over a [cl_qmap]

    [cl_qmap_head]/[cl_qmap_next] visit a map in increasing order of its
    64-bit keys. *)
Definition key_le {A} (x y : Z * A) : Prop := (x.1 ≤ y.1)%Z.

#[export] Instance key_le_dec {A} : RelDecision (key_le (A:=A)).
Proof. intros x y. unfold key_le. apply _. Defined.

Definition qmap_items {A} (m : gmap Z A) : list (Z * A) :=
  merge_sort key_le (map_to_list m).

Lemma elem_of_qmap_items {A} (m : gmap Z A) k v :
  (k, v) ∈ qmap_items m ↔ m !! k = Some v.
Proof.
  unfold qmap_items. rewrite merge_sort_Permutation. apply elem_of_map_to_list.
Qed.

Lemma qmap_items_sorted {A} (m : gmap Z A) : Sorted key_le (qmap_items m).
Proof.
  apply Sorted_merge_sort. intros x y. unfold key_le. lia.
Qed.

Lemma qmap_items_NoDup {A} (m : gmap Z A) : NoDup (qmap_items m).*1.
Proof. unfold qmap_items. rewrite merge_sort_Permutation. apply NoDup_fst_map_to_list. Qed.

(** The order is strict on the keys. *)
Definition key_lt {A} (x y : Z * A) : Prop := (x.1 < y.1)%Z.

Lemma qmap_items_lt_sorted {A} (m : gmap Z A) : StronglySorted key_lt (qmap_items m).
Proof.
  pose proof (qmap_items_NoDup m) as Hnd.
  assert (Hs : StronglySorted key_le (qmap_items m)).
  { apply Sorted_StronglySorted; [intros x y z; unfold key_le; lia|apply qmap_items_sorted]. }
  induction Hs as [|x l Hs IH Hx]; [constructor|].
  rewrite fmap_cons, NoDup_cons in Hnd. destruct Hnd as [Hnx Hnd].
  constructor; [by apply IH|]. rewrite Forall_forall in *. intros y Hy.
  specialize (Hx y Hy). unfold key_le, key_lt in *.
  assert (x.1 ≠ y.1); [|lia]. intros E. apply Hnx. rewrite E. by apply list_elem_of_fmap_2.
Qed.

(** Writing through a key that is there. *)
Lemma alter_as_insert {A} (m : gmap Z A) f k x : m !! k = Some x → alter f k m = <[k := f x]> m.
Proof.
  intros Hk. apply map_eq. intros k'. destruct (decide (k' = k)) as [-> | Hne].
  - by rewrite lookup_alter_eq, lookup_insert_eq, Hk.
  - by rewrite lookup_alter_ne, lookup_insert_ne.
Qed.

(** ** Machine integers

    An unsigned field of [w] bits is a [Z] in [0 .. 2^w-1]; a conversion to it
    reduces modulo [2^w]. *)
Definition u8 (z : Z) : Z := z `mod` 2 ^ 8.
Definition u16 (z : Z) : Z := z `mod` 2 ^ 16.
Definition u32 (z : Z) : Z := z `mod` 2 ^ 32.
Definition u64 (z : Z) : Z := z `mod` 2 ^ 64.

Lemma u8_small z : (0 ≤ z < 2 ^ 8)%Z → u8 z = z.
Proof. apply Z.mod_small. Qed.
Lemma u16_small z : (0 ≤ z < 2 ^ 16)%Z → u16 z = z.
Proof. apply Z.mod_small. Qed.
Lemma u32_small z : (0 ≤ z < 2 ^ 32)%Z → u32 z = z.
Proof. apply Z.mod_small. Qed.
Lemma u16_range z : (0 ≤ u16 z < 2 ^ 16)%Z.
Proof. by apply Z.mod_pos_bound. Qed.
Lemma u32_range z : (0 ≤ u32 z < 2 ^ 32)%Z.
Proof. by apply Z.mod_pos_bound. Qed.

(** Decides the comparisons of a goal whose outcome [lia] knows. *)
Ltac decide_cmps :=
  repeat match goal with
  | |- context [(?a <=? ?b)%Z] =>
      first [replace (a <=? b)%Z with true by lia | replace (a <=? b)%Z with false by lia]
  | |- context [(?a <? ?b)%Z] =>
      first [replace (a <? b)%Z with true by lia | replace (a <? b)%Z with false by lia]
  end.

(** ** Field assignment

    [s <| field := v |>] is the C assignment [s->field = v].  A record type
    declares its [Eta] instance, which rebuilds a value from its fields; the
    setter of a field is found from it by abstracting the projection. *)
Class Eta (R : Type) := eta : R → R.
Class Setter {R T : Type} (proj : R → T) := set_field : (T → T) → R → R.

Ltac solve_setter R proj :=
  let e := constr:(_ : Eta R) in
  let e := eval unfold eta in e in
  let e := eval hnf in e in
  match eval pattern proj in e with
  | ?setter _ =>
      let r := eval cbv beta in
        (λ (f : _ → _) (x : R), setter (λ y, f (proj y)) x) in
      exact r
  end.

#[export] Hint Extern 1 (@Setter ?R _ ?proj) => solve_setter R proj : typeclass_instances.

Declare Scope osm_scope.
Delimit Scope osm_scope with osm.
Notation "s <| f := v |>" := (set_field (proj:=f) (λ _, v) s)
  (at level 1, f at level 0, v at level 200, left associativity) : osm_scope.
Open Scope osm_scope.

(** ** Handlers as state transformers with outputs

    A handler of the program reads and writes the state of its component and
    does things to the outside (sends a MAD, starts a timer, wakes a thread).
    [Act S O A] is such a handler: from a state it gives a result, the new state
    and the outputs in order. *)
Definition Act (S O A : Type) : Type := S → A * S * list O.

Section Act.
Context {S O : Type}.

#[export] Instance act_ret : MRet (Act S O) := λ A a s, (a, s, []).

#[export] Instance act_bind : MBind (Act S O) := λ A B f m s,
  let '(a, s1, o1) := m s in
  let '(b, s2, o2) := f a s1 in
  (b, s2, o1 ++ o2).

Definition gets {A} (f : S → A) : Act S O A := λ s, (f s, s, []).
Definition modify (f : S → S) : Act S O unit := λ s, (tt, f s, []).
Definition emit (o : O) : Act S O unit := λ s, (tt, s, [o]).
Definition when (b : bool) (m : Act S O unit) : Act S O unit :=
  if b then m else mret tt.

(** The three parts of a run. *)
Definition result_of {A} (m : Act S O A) (s : S) : A := (m s).1.1.
Definition state_of {A} (m : Act S O A) (s : S) : S := (m s).1.2.
Definition outputs_of {A} (m : Act S O A) (s : S) : list O := (m s).2.

Lemma state_of_bind {A B} (m : Act S O A) (f : A → Act S O B) s :
  state_of (m ≫= f) s = state_of (f (result_of m s)) (state_of m s).
Proof.
  unfold state_of, result_of, mbind, act_bind.
  destruct (m s) as [[a s1] o1]; simpl. by destruct (f a s1) as [[b s2] o2].
Qed.

Lemma result_of_bind {A B} (m : Act S O A) (f : A → Act S O B) s :
  result_of (m ≫= f) s = result_of (f (result_of m s)) (state_of m s).
Proof.
  unfold state_of, result_of, mbind, act_bind.
  destruct (m s) as [[a s1] o1]; simpl. by destruct (f a s1) as [[b s2] o2].
Qed.

Lemma outputs_of_bind {A B} (m : Act S O A) (f : A → Act S O B) s :
  outputs_of (m ≫= f) s = outputs_of m s ++ outputs_of (f (result_of m s)) (state_of m s).
Proof.
  unfold state_of, result_of, outputs_of, mbind, act_bind.
  destruct (m s) as [[a s1] o1]; simpl. by destruct (f a s1) as [[b s2] o2].
Qed.

Lemma state_of_ret {A} (a : A) s : state_of (mret a) s = s.
Proof. done. Qed.
Lemma state_of_gets {A} (f : S → A) s : state_of (gets f) s = s.
Proof. done. Qed.
Lemma state_of_modify f s : state_of (modify f) s = f s.
Proof. done. Qed.
Lemma state_of_emit o s : state_of (emit o) s = s.
Proof. done. Qed.
Lemma result_of_ret {A} (a : A) s : result_of (mret a) s = a.
Proof. done. Qed.
Lemma result_of_gets {A} (f : S → A) s : result_of (gets f) s = f s.
Proof. done. Qed.
Lemma outputs_of_ret {A} (a : A) s : outputs_of (mret a) s = [].
Proof. done. Qed.
Lemma outputs_of_gets {A} (f : S → A) s : outputs_of (gets f) s = [].
Proof. done. Qed.
Lemma outputs_of_modify f s : outputs_of (modify f) s = [].
Proof. done. Qed.
Lemma outputs_of_emit o s : outputs_of (emit o) s = [o].
Proof. done. Qed.

(** A handler preserves a predicate when every run from a state that satisfies
    it ends in one that does. *)
Definition preserves {A} (P : S → Prop) (m : Act S O A) : Prop :=
  ∀ s, P s → P (state_of m s).

Lemma preserves_ret {A} P (a : A) : preserves P (mret a).
Proof. by intros s. Qed.

Lemma preserves_bind {A B} P (m : Act S O A) (f : A → Act S O B) :
  preserves P m → (∀ a, preserves P (f a)) → preserves P (m ≫= f).
Proof. intros Hm Hf s Hs. rewrite state_of_bind. by apply Hf, Hm. Qed.

Lemma preserves_gets {A} P (f : S → A) : preserves P (gets f).
Proof. by intros s. Qed.

Lemma preserves_emit P o : preserves P (emit o).
Proof. by intros s. Qed.

Lemma preserves_modify P f : (∀ s, P s → P (f s)) → preserves P (modify f).
Proof. intros H s. apply H. Qed.

Lemma preserves_when P b m : (b = true → preserves P m) → preserves P (when b m).
Proof. destruct b; [auto|intros _; by intros s]. Qed.

Lemma preserves_if {A} P (b : bool) (m1 m2 : Act S O A) :
  (b = true → preserves P m1) → (b = false → preserves P m2) →
  preserves P (if b then m1 else m2).
Proof. destruct b; auto. Qed.
End Act.

Create HintDb act.
Create Rewrite HintDb act.
#[export] Hint Rewrite @state_of_bind @state_of_ret @state_of_gets @state_of_modify
  @state_of_emit @result_of_bind @result_of_ret @result_of_gets @outputs_of_bind
  @outputs_of_ret @outputs_of_gets @outputs_of_modify @outputs_of_emit : act.
#[export] Hint Resolve preserves_ret preserves_bind preserves_gets preserves_emit
  preserves_modify preserves_when preserves_if : act.

(** Pushes [preserves] through a handler down to its writes; [t] knows what the
    called handlers preserve and is tried first. *)
Ltac preserves_with t :=
  repeat first
    [ progress intros
    | t
    | apply preserves_bind
    | apply preserves_ret
    | apply preserves_gets
    | apply preserves_emit
    | apply preserves_when
    | apply preserves_if
    | apply preserves_modify
    | match goal with |- preserves _ (match ?x with _ => _ end) => destruct x end ].

Tactic Notation "preserves_tac" := preserves_with fail.
Tactic Notation "preserves_tac" "using" tactic3(t) := preserves_with t.

(** Evaluates the parts of a handler's run, one primitive at a time. *)
Ltac act_simpl := autorewrite with act; simpl.

(** Runs a handler: opens the monad and its primitives. *)
Ltac run_act :=
  cbv [state_of result_of outputs_of mbind act_bind mret act_ret gets modify emit when
       set_field eta fst snd] in *.
