(* ===== verification/Heap.v ===== *)
(** * The d-ary heap of [complib/cl_heap.c]

    [cl_heap_t] keeps its elements in one array, element [i]'s children at
    [i*d+1 .. i*d+d]; every move of an element is reported to the user through
    [pfn_index_update].  The model keeps the array as a list, and the calls of
    [pfn_index_update] as a log of (context, index) pairs in call order.

    The operations return [option]: [None] is "the loop did not finish within
    its fuel", and the theorems show that it never happens.  [size_t] and the
    [int64_t] loop indices are natural numbers: the largest value the code
    computes is [size * d + d] with [d <= 255], which fits in 63 bits for every
    array that fits in memory. *)

From S2P Require Import Prelude.

Open Scope nat_scope.

Definition CL_UNINITIALIZED : Z := 1.
Definition CL_INITIALIZED : Z := 2.
Definition CL_DESTROYING : Z := 3.
Definition CL_DESTROYED : Z := 4.

Inductive cl_status :=
  | CL_SUCCESS | CL_INVALID_PARAMETER | CL_INSUFFICIENT_RESOURCES
  | CL_INSUFFICIENT_MEMORY.

(** ** Data *)

(** [struct _cl_heap_elem]; a context is a pointer, [0] is [NULL]. *)
Record cl_heap_elem := HeapElem { key : Z; context : Z }.

#[export] Instance cl_heap_elem_inhabited : Inhabited cl_heap_elem :=
  populate (HeapElem 0 0).

(** One call [pfn_index_update(context, index)]. *)
Abbreviation index_log := (list (Z * nat)).

(** [struct _cl_heap]; [element_array = None] is the [NULL] array, and
    [pfn_index_update] says whether a callback is installed. *)
Record cl_heap := CLHeap {
  state : Z;
  branching_factor : nat;
  element_array : option (list cl_heap_elem);
  size : nat;
  capacity : nat;
  pfn_index_update : bool;
  pfn_compare : option (Z → Z → Z)
}.

(** ** The default comparison *)

Definition compare_keys (key1 key2 : Z) : Z :=
  (if key1 <? key2 then -1 else if key1 >? key2 then 1 else 0)%Z.

(** What the heap needs of a comparison function: the sign of [cmp a b] is the
    opposite of the sign of [cmp b a], and [cmp a b <= 0] is transitive. *)
Class CompareLaws (cmp : Z → Z → Z) := {
  cmp_sign a b : (cmp a b < 0 ↔ 0 < cmp b a)%Z;
  cmp_trans a b c : (cmp a b ≤ 0 → cmp b c ≤ 0 → cmp a c ≤ 0)%Z
}.

#[export] Instance compare_keys_laws : CompareLaws compare_keys.
Proof.
  split; intros *; unfold compare_keys;
    repeat match goal with |- context [(if ?b then _ else _)] => destruct b eqn:? end; lia.
Qed.

(** ** Life cycle *)

Definition cl_is_state_valid (s : Z) : bool :=
  ((s =? CL_UNINITIALIZED) || (s =? CL_INITIALIZED)
   || (s =? CL_DESTROYING) || (s =? CL_DESTROYED))%Z.

Definition cl_is_heap_inited (h : cl_heap) : bool := (state h =? CL_INITIALIZED)%Z.

(** [memset] to zero, then the state. *)
Definition cl_heap_construct : cl_heap :=
  CLHeap CL_UNINITIALIZED 0 None 0 0 false None.

Definition cl_heap_destroy (h : cl_heap) : cl_heap := cl_heap_construct.

(** [alloc] is the outcome of [malloc]; [compare = None] selects
    [compare_keys].  The result is the status and the new contents of
    the heap object. *)
Definition cl_heap_init (h : cl_heap) (max_size d : nat) (index_update : bool)
    (compare : option (Z → Z → Z)) (alloc : bool) : cl_status * cl_heap :=
  let h := if cl_is_state_valid (state h) then h else cl_heap_construct in
  if (max_size <=? 0) || (d =? 0) || negb index_update
  then (CL_INVALID_PARAMETER, h)
  else
    let h := if cl_is_heap_inited h then cl_heap_destroy h else h in
    let cmp := match compare with Some c => c | None => compare_keys end in
    if alloc
    then (CL_SUCCESS,
          CLHeap CL_INITIALIZED d (Some (replicate max_size (HeapElem 0 0)))
            0 max_size index_update (Some cmp))
    else (CL_INSUFFICIENT_MEMORY,
          CLHeap (state h) d None 0 max_size index_update (Some cmp)).

(** [realloc] keeps the first [min(old, new)] cells; the cells from [size] on
    are zeroed. *)
Definition cl_heap_resize (h : cl_heap) (new_size : nat) (alloc : bool)
    : cl_status * cl_heap :=
  if (new_size <=? 0) || (new_size <? size h) then (CL_INVALID_PARAMETER, h)
  else if new_size =? capacity h then (CL_SUCCESS, h)
  else if alloc
  then (CL_SUCCESS,
        CLHeap (state h) (branching_factor h)
          (Some (take (size h) (default [] (element_array h))
                 ++ replicate (new_size - size h) (HeapElem 0 0)))
          (size h) new_size (pfn_index_update h) (pfn_compare h))
  else (CL_INSUFFICIENT_MEMORY, h).

(** ** Sifting *)

Section Sift.
Context (cmp : Z → Z → Z) (d : nat).

(** The [for] loop of [heap_down]: scans the children [child .. last-1] and
    keeps the one whose key compares lowest, the last of them on ties. *)
Fixpoint select_child (a : list cl_heap_elem) (child n swap_child : nat) : nat :=
  match n with
  | 0 => swap_child
  | S n =>
      select_child a (S child) n
        (if (cmp (key (a !!! child)) (key (a !!! swap_child)) <=? 0)%Z
         then child else swap_child)
  end.

(** The [while] loop of [heap_down]: the state is the array, [parent],
    [swapped] and the callback log. *)
Fixpoint heap_down_loop (fuel : nat) (tmp : cl_heap_elem) (sz : nat)
    (a : list cl_heap_elem) (parent : nat) (swapped : bool) (log : index_log)
    : option (list cl_heap_elem * nat * bool * index_log) :=
  match fuel with
  | 0 => None
  | S fuel =>
      if parent * d + 1 <? sz then
        let first_child := parent * d + 1 in
        let swap_child :=
          select_child a (first_child + 1)
            (Nat.min (first_child + d) sz - (first_child + 1)) first_child in
        if (cmp (key tmp) (key (a !!! swap_child)) >? 0)%Z then
          let a := <[parent := a !!! swap_child]> a in
          heap_down_loop fuel tmp sz a swap_child true
            (log ++ [(context (a !!! parent), parent)])
        else Some (a, parent, swapped, log)
      else Some (a, parent, swapped, log)
  end.

(** The final write-back both sifts share. *)
Definition sift_finish (tmp : cl_heap_elem)
    (r : list cl_heap_elem * nat * bool * index_log) : list cl_heap_elem * index_log :=
  let '(a, pos, swapped, log) := r in
  if (swapped : bool)
  then (<[pos := tmp]> a, log ++ [(context tmp, pos)])
  else (a, log).

Definition heap_down (a : list cl_heap_elem) (sz index : nat)
    : option (list cl_heap_elem * index_log) :=
  let tmp := a !!! index in
  r ← heap_down_loop (S sz) tmp sz a index false [];
  Some (sift_finish tmp r).

(** The [do]-[while] loop of [heap_up]; [pos] is the variable [parent] at the
    top of the body, which the body copies to [child], and [swap_child] is
    where [tmp] goes in the end. *)
Fixpoint heap_up_loop (fuel : nat) (tmp : cl_heap_elem)
    (a : list cl_heap_elem) (pos swap_child : nat) (swapped : bool) (log : index_log)
    : option (list cl_heap_elem * nat * bool * index_log) :=
  match fuel with
  | 0 => None
  | S fuel =>
      let child := pos in
      let parent := (child - 1) / d in
      if (cmp (key tmp) (key (a !!! parent)) <? 0)%Z then
        let a := <[child := a !!! parent]> a in
        let log := log ++ [(context (a !!! child), child)] in
        if 0 <? parent then heap_up_loop fuel tmp a parent parent true log
        else Some (a, parent, true, log)
      else Some (a, swap_child, swapped, log)
  end.

Definition heap_up (a : list cl_heap_elem) (index : nat)
    : option (list cl_heap_elem * index_log) :=
  if index =? 0 then Some (a, [])
  else
    let tmp := a !!! index in
    r ← heap_up_loop index tmp a index 0 false [];
    Some (sift_finish tmp r).
End Sift.

(** ** Operations *)

Definition cmp_of (h : cl_heap) : Z → Z → Z := default compare_keys (pfn_compare h).
Definition arr (h : cl_heap) : list cl_heap_elem := default [] (element_array h).

Definition with_array (h : cl_heap) (a : list cl_heap_elem) (n : nat) : cl_heap :=
  CLHeap (state h) (branching_factor h) (Some a) n (capacity h)
    (pfn_index_update h) (pfn_compare h).

Definition cl_heap_modify_key (h : cl_heap) (k : Z) (index : nat)
    : option (cl_status * cl_heap * index_log) :=
  if size h <=? index then Some (CL_INVALID_PARAMETER, h, [])
  else
    let old_key := key (arr h !!! index) in
    let a := <[index := HeapElem k (context (arr h !!! index))]> (arr h) in
    let compare_result := cmp_of h k old_key in
    '(a, log) ←
      (if (compare_result <? 0)%Z then heap_up (cmp_of h) (branching_factor h) a index
       else if (compare_result >? 0)%Z
       then heap_down (cmp_of h) (branching_factor h) a (size h) index
       else Some (a, []));
    Some (CL_SUCCESS, with_array h a (size h), log).

Definition cl_heap_insert (h : cl_heap) (k ctx : Z)
    : option (cl_status * cl_heap * index_log) :=
  if (ctx =? 0)%Z then Some (CL_INVALID_PARAMETER, h, [])
  else if size h =? capacity h then Some (CL_INSUFFICIENT_RESOURCES, h, [])
  else
    let a := <[size h := HeapElem k ctx]> (arr h) in
    '(a, log) ← heap_up (cmp_of h) (branching_factor h) a (size h);
    Some (CL_SUCCESS, with_array h a (size h + 1), (ctx, size h) :: log).

(** Returns the context of the removed element, [0] ([NULL]) when there is none. *)
Definition cl_heap_delete (h : cl_heap) (index : nat)
    : option (Z * cl_heap * index_log) :=
  if size h =? 0 then Some (0%Z, h, [])
  else if size h <=? index then Some (0%Z, h, [])
  else if size h =? 1
  then Some (context (arr h !!! 0), with_array h (arr h) 0, [])
  else
    let n := size h - 1 in
    let tmp := arr h !!! n in
    let a := <[n := arr h !!! index]> (arr h) in
    let log1 := [(context (a !!! n), n)] in
    let a := <[index := tmp]> a in
    let log1 := log1 ++ [(context (a !!! index), index)] in
    '(a, log2) ←
      (if index =? 0 then heap_down (cmp_of h) (branching_factor h) a n index
       else
         let parent := (index - 1) / branching_factor h in
         let compare_result := cmp_of h (key (a !!! parent)) (key (a !!! index)) in
         if (compare_result <? 0)%Z
         then heap_down (cmp_of h) (branching_factor h) a n index
         else if (compare_result >? 0)%Z
         then heap_up (cmp_of h) (branching_factor h) a index
         else Some (a, []));
    Some (context (a !!! n), with_array h a n, log1 ++ log2).

Definition cl_heap_extract_root (h : cl_heap) : option (Z * cl_heap * index_log) :=
  cl_heap_delete h 0.

Definition cl_is_stored_in_heap (h : cl_heap) (ctx : Z) (index : nat) : bool :=
  negb ((size h <=? index) || negb (context (arr h !!! index) =? ctx)%Z).

(** The two nested loops of [cl_verify_heap_property]. *)
Definition cl_verify_heap_property (h : cl_heap) : bool :=
  forallb (λ parent,
    let first_child := parent * branching_factor h + 1 in
    forallb (λ child,
      negb (cmp_of h (key (arr h !!! parent)) (key (arr h !!! child)) >? 0)%Z)
      (seq first_child (Nat.min (first_child + branching_factor h) (size h) - first_child)))
    (seq 0 (size h)).

(** ** What the theorems speak about *)

(** The index of the parent of cell [c]. *)
Definition heap_parent (d c : nat) : nat := (c - 1) / d.

(** The heap order on the first [n] cells. *)
Definition heap_ordered (cmp : Z → Z → Z) (d : nat) (a : list cl_heap_elem) (n : nat) : Prop :=
  ∀ c, 0 < c < n → (cmp (key (a !!! heap_parent d c)) (key (a !!! c)) ≤ 0)%Z.

(** The user's table of positions after the callbacks of a log. *)
Definition pos_after (log : index_log) (m : gmap Z nat) : gmap Z nat :=
  fold_left (λ m '(c, i), <[c := i]> m) log m.

(** The user's table is right about the first [n] cells. *)
Definition tracked (a : list cl_heap_elem) (n : nat) (m : gmap Z nat) : Prop :=
  ∀ i, i < n → m !! context (a !!! i) = Some i.

Definition contexts (a : list cl_heap_elem) (n : nat) : list Z := context <$> take n a.

(** [a'] holds in its first [n] cells the elements of [a], leaves the rest
    alone, and the callbacks of [log] keep the user's table right. *)
Record sift_ok (n : nat) (a a' : list cl_heap_elem) (log : index_log) : Prop := {
  sift_length : length a' = length a;
  sift_perm : take n a' ≡ₚ take n a;
  sift_drop : drop n a' = drop n a;
  sift_tracked m : NoDup (contexts a n) → tracked a n m → tracked a' n (pos_after log m)
}.

(** A well-formed heap object. *)
Record heap_wf (h : cl_heap) : Prop := {
  wf_inited : cl_is_heap_inited h = true;
  wf_branch : 0 < branching_factor h;
  wf_size : size h ≤ capacity h;
  wf_array : ∃ a, element_array h = Some a ∧ length a = capacity h;
  wf_compare : CompareLaws (cmp_of h);
  wf_order : heap_ordered (cmp_of h) (branching_factor h) (arr h) (size h)
}.

(** ** Moving the hole *)

(** The hole at [p] stands for the element in [tmp]; a move copies cell [q] to
    it, reports that to the user, and leaves the hole at [q]. *)
Inductive sifted (n : nat) :
    list cl_heap_elem → nat → list cl_heap_elem → nat → index_log → Prop :=
  | sifted_refl a p : sifted n a p a p []
  | sifted_move a p q a' p' log :
      p < n → q < n → q ≠ p →
      sifted n (<[p := a !!! q]> a) q a' p' log →
      sifted n a p a' p' ((context (a !!! q), p) :: log).

#[export] Hint Constructors sifted : heap.

Lemma sifted_bound n a p a' p' log : sifted n a p a' p' log → p < n → p' < n.
Proof. induction 1; auto. Qed.

Lemma sifted_length n a p a' p' log : sifted n a p a' p' log → length a' = length a.
Proof. induction 1 as [|?????? ??? _ IH]; [done|]. by rewrite IH, length_insert. Qed.

Lemma sifted_drop n a p a' p' log : sifted n a p a' p' log → drop n a' = drop n a.
Proof.
  induction 1 as [|?????? ??? _ IH]; [done|]. rewrite IH.
  by rewrite drop_insert_lt by lia.
Qed.

(** Filling the hole with [tmp] gives a permutation of the original. *)
Lemma swap_take n (a : list cl_heap_elem) p q tmp :
  n ≤ length a → p < n → q < n → q ≠ p →
  take n (<[q := tmp]> (<[p := a !!! q]> a)) ≡ₚ take n (<[p := tmp]> a).
Proof.
  intros Hn Hp Hq Hne. rewrite !take_insert_lt by lia.
  set (b := take n a).
  assert (length b = n) as Hb by (unfold b; rewrite length_take; lia).
  assert (b !!! q = a !!! q) as Hbq by (apply lookup_total_take; lia).
  rewrite <-Hbq.
  replace (<[p:=b !!! q]> b) with (<[p:=b !!! q]> (<[p:=tmp]> b))
    by apply list_insert_insert_eq.
  apply swap_Permutation.
  - rewrite list_lookup_insert_ne by done. apply lookup_total_lt. lia.
  - apply list_lookup_insert_eq. lia.
Qed.

Lemma sifted_perm n a p a' p' log tmp :
  sifted n a p a' p' log → n ≤ length a → p < n →
  take n (<[p' := tmp]> a') ≡ₚ take n (<[p := tmp]> a).
Proof.
  induction 1 as [|?????? ??? _ IH]; intros Hn Hp; [done|].
  rewrite IH by (rewrite ?length_insert; lia). by apply swap_take.
Qed.

Lemma contexts_inj (a : list cl_heap_elem) n i j :
  n ≤ length a → NoDup (contexts a n) → i < n → j < n →
  context (a !!! i) = context (a !!! j) → i = j.
Proof.
  intros Hn Hnd Hi Hj Heq.
  assert (HL : ∀ k, k < n → contexts a n !! k = Some (context (a !!! k))).
  { intros k Hk. unfold contexts. rewrite list_lookup_fmap, lookup_take_lt by done.
    by rewrite lookup_total_lt by lia. }
  eapply NoDup_lookup; [done| |]; rewrite HL by done; [done|congruence].
Qed.

Lemma contexts_perm (a a' : list cl_heap_elem) n :
  take n a' ≡ₚ take n a → NoDup (contexts a n) → NoDup (contexts a' n).
Proof. unfold contexts. by intros ->. Qed.

(** The callbacks keep the table right everywhere but at the hole. *)
Lemma sifted_tracked n a p a' p' log tmp :
  sifted n a p a' p' log → n ≤ length a → p < n →
  ∀ m, NoDup (contexts (<[p := tmp]> a) n) →
    (∀ i, i < n → i ≠ p → m !! context (<[p := tmp]> a !!! i) = Some i) →
    ∀ i, i < n → i ≠ p' → pos_after log m !! context (<[p' := tmp]> a' !!! i) = Some i.
Proof.
  induction 1 as [|a p q a' p' log Hp Hq Hne _ IH]; intros Hn Hp' m Hnd Hm; [done|].
  simpl. apply IH; rewrite ?length_insert; try lia.
  - eapply contexts_perm, Hnd. by apply swap_take.
  - intros i Hi Hiq. rewrite lookup_total_insert_ne by done.
    rewrite lookup_total_insert by lia. case_decide as E; [subst|].
    { by rewrite lookup_insert_eq. }
    rewrite lookup_insert_ne; [|intros Heq].
    { specialize (Hm i Hi). rewrite lookup_total_insert_ne in Hm by done. by apply Hm. }
    apply Hiq. apply (contexts_inj (<[p:=tmp]> a) n);
      [by rewrite length_insert|done|done|done|].
    by rewrite !lookup_total_insert_ne by done.
Qed.

Lemma pos_after_app l1 l2 m : pos_after (l1 ++ l2) m = pos_after l2 (pos_after l1 m).
Proof. apply fold_left_app. Qed.

(** Both ways [sift_finish] can end give a [sift_ok] array. *)
Lemma sift_finish_ok n a p a' p' (swapped : bool) log :
  sifted n a p a' p' log → n ≤ length a → p < n →
  (swapped = false → a' = a ∧ log = []) →
  (swapped = false → p' = p) →
  let r := sift_finish (a !!! p) (a', p', swapped, log) in
  sift_ok n a r.1 r.2 ∧ r.1 = <[p' := a !!! p]> a'.
Proof.
  intros Hs Hn Hp Hsame Hpos. simpl.
  pose proof (sifted_length _ _ _ _ _ _ Hs) as Hl.
  pose proof (sifted_bound _ _ _ _ _ _ Hs Hp) as Hp'.
  destruct swapped; simpl.
  - split; [|done]. split.
    + by rewrite length_insert.
    + rewrite (sifted_perm _ _ _ _ _ _ _ Hs) by done. by rewrite insert_same_total.
    + rewrite drop_insert_lt by lia. by eapply sifted_drop.
    + intros m Hnd Hm i Hi. rewrite pos_after_app. simpl.
      destruct (decide (i = p')) as [->|Hne].
      { rewrite lookup_total_insert_eq by lia. by rewrite lookup_insert_eq. }
      rewrite lookup_insert_ne.
      * eapply sifted_tracked; eauto; rewrite insert_same_total; auto.
      * intros Heq. apply Hne.
        apply (contexts_inj (<[p':=a !!! p]> a') n); [|  |done|done|].
        -- rewrite length_insert. lia.
        -- eapply contexts_perm, Hnd.
           rewrite (sifted_perm _ _ _ _ _ _ _ Hs) by done. by rewrite insert_same_total.
        -- by rewrite (lookup_total_insert_eq a') by lia.
  - destruct Hsame as [-> ->]; [done|]. rewrite Hpos by done.
    split; [|by rewrite insert_same_total]. by split.
Qed.

(** ** The sifts restore the order *)

Lemma heap_parent_spec d c p :
  0 < d → 0 < c → heap_parent d c = p ↔ p * d + 1 ≤ c < p * d + 1 + d.
Proof.
  intros Hd Hc. unfold heap_parent.
  pose proof (Nat.div_mod_eq (c - 1) d). pose proof (Nat.mod_upper_bound (c - 1) d).
  split; [intros <-; lia|]. intros Hp. symmetry.
  apply (Nat.div_unique _ _ _ (c - 1 - p * d)); lia.
Qed.

Lemma heap_parent_lt d c : 0 < d → 0 < c → heap_parent d c < c.
Proof.
  intros Hd Hc. pose proof (proj1 (heap_parent_spec d c _ Hd Hc) eq_refl). nia.
Qed.

#[export] Hint Resolve heap_parent_lt : heap.

Section SiftProofs.
Context (cmp : Z → Z → Z) (d : nat) {L : CompareLaws cmp} (Hd : 0 < d).

Abbreviation le x y := (cmp (key x) (key y) ≤ 0)%Z.
Abbreviation par c := (heap_parent d c).

Lemma cmp_flip a b : (0 < cmp a b → cmp b a ≤ 0)%Z.
Proof. pose proof (cmp_sign b a). lia. Qed.

Lemma cmp_refl a : (cmp a a ≤ 0)%Z.
Proof. pose proof (cmp_sign a a). lia. Qed.

Lemma cmp_total a b : (cmp a b ≤ 0 ∨ cmp b a ≤ 0)%Z.
Proof. pose proof (cmp_sign a b). lia. Qed.

Lemma select_child_spec a n : ∀ child s,
  let r := select_child cmp a child n s in
  (r = s ∨ child ≤ r < child + n) ∧ le (a !!! r) (a !!! s)
  ∧ (∀ c, child ≤ c < child + n → le (a !!! r) (a !!! c)).
Proof.
  induction n as [|n IH]; intros child s; simpl.
  { split_and!; [by left|apply cmp_refl|lia]. }
  destruct (Z.leb_spec (cmp (key (a !!! child)) (key (a !!! s))) 0) as [Hle|Hgt].
  - destruct (IH (S child) child) as (Hr & Hs & Hc). split_and!.
    + destruct Hr as [->|]; lia.
    + eauto using cmp_trans.
    + intros c ?. destruct (decide (c = child)) as [->|]; [done|apply Hc; lia].
  - destruct (IH (S child) s) as (Hr & Hs & Hc). split_and!.
    + destruct Hr as [->|]; lia.
    + done.
    + intros c ?. destruct (decide (c = child)) as [->|]; [|apply Hc; lia].
      eauto using cmp_trans, cmp_flip.
Qed.

(** What [heap_down] picks: a child of [p] with a smallest key. *)
Lemma select_child_children a n p :
  p * d + 1 < n →
  let s := select_child cmp a (p * d + 1 + 1)
             (Nat.min (p * d + 1 + d) n - (p * d + 1 + 1)) (p * d + 1) in
  0 < s < n ∧ par s = p ∧
  (∀ c, 0 < c < n → par c = p → le (a !!! s) (a !!! c)).
Proof.
  intros Hp s. subst s.
  destruct (select_child_spec a (Nat.min (p * d + 1 + d) n - (p * d + 1 + 1))
              (p * d + 1 + 1) (p * d + 1)) as (Hr & Hs & Hc).
  set (s := select_child _ _ _ _ _) in *.
  assert (0 < s < n ∧ par s = p) as [Hs1 Hs2].
  { split; [lia|]. apply heap_parent_spec; lia. }
  split_and!; try lia. intros c Hc1 Hc2.
  apply heap_parent_spec in Hc2; [|lia..].
  destruct (decide (c = p * d + 1)) as [->|]; [done|apply Hc; lia].
Qed.

(** The order everywhere but below the hole (going down), or everywhere but
    above it (going up); across the hole, the grandparent is below. *)
Definition across (b : list cl_heap_elem) (n p : nat) : Prop :=
  ∀ c, 0 < c < n → par c = p → 0 < p → le (b !!! par p) (b !!! c).
Definition down_inv (b : list cl_heap_elem) (n p : nat) : Prop :=
  (∀ c, 0 < c < n → par c ≠ p → le (b !!! par c) (b !!! c)) ∧ across b n p.
Definition up_inv (b : list cl_heap_elem) (n p : nat) : Prop :=
  (∀ c, 0 < c < n → c ≠ p → le (b !!! par c) (b !!! c)) ∧ across b n p.

Lemma down_step a n p s tmp :
  n ≤ length a → p < n → 0 < s < n → par s = p →
  (∀ c, 0 < c < n → par c = p → le (a !!! s) (a !!! c)) →
  (0 < cmp (key tmp) (key (a !!! s)))%Z →
  down_inv (<[p := tmp]> a) n p →
  down_inv (<[s := tmp]> (<[p := a !!! s]> a)) n s.
Proof.
  intros Hn Hp Hs Hps Hmin Hgt [Hord Hacr].
  assert (p < s) as Hlt by (subst p; apply heap_parent_lt; lia).
  assert (HR : ∀ i, <[s:=tmp]> (<[p:=a !!! s]> a) !!! i
    = if decide (s = i) then tmp else if decide (p = i) then a !!! s else a !!! i).
  { intros i. rewrite lookup_total_insert by (rewrite length_insert; lia).
    case_decide; [done|]. by rewrite lookup_total_insert by lia. }
  assert (HB : ∀ i, i ≠ p → <[p:=tmp]> a !!! i = a !!! i)
    by (intros; by apply lookup_total_insert_ne).
  split.
  - intros c Hc Hpc. rewrite !HR. assert (par c < c) by (apply heap_parent_lt; lia).
    destruct (decide (s = par c)); [congruence|].
    destruct (decide (s = c)) as [<-|].
    { rewrite decide_True by done. by apply cmp_flip. }
    destruct (decide (p = c)) as [<-|].
    { rewrite decide_False by lia. specialize (Hacr s). rewrite !HB in Hacr by lia.
      apply Hacr; auto; lia. }
    destruct (decide (p = par c)); [by apply Hmin|].
    specialize (Hord c). rewrite !HB in Hord by done. by apply Hord.
  - intros c Hc Hpc _. rewrite !HR. assert (s < c) by (subst s; apply heap_parent_lt; lia).
    rewrite (decide_False (P:=s = c)) by lia. rewrite (decide_False (P:=p = c)) by lia.
    rewrite (decide_False (P:=s = par s)) by lia. rewrite decide_True by done.
    specialize (Hord c). rewrite !HB in Hord by lia. rewrite Hpc in Hord.
    apply Hord; lia.
Qed.

Lemma down_stop b n p :
  (∀ c, 0 < c < n → par c = p → le (b !!! p) (b !!! c)) →
  down_inv b n p → heap_ordered cmp d b n.
Proof.
  intros Hp [Hord _] c Hc. destruct (decide (par c = p)) as [E|E]; [|by apply Hord].
  rewrite E. by apply Hp.
Qed.

Lemma heap_down_loop_spec fuel tmp n : ∀ a p sw log,
  n ≤ length a → p < n → n - p ≤ fuel → down_inv (<[p := tmp]> a) n p →
  ∃ a' p' sw' log',
    heap_down_loop cmp d fuel tmp n a p sw log = Some (a', p', sw', log ++ log')
    ∧ sifted n a p a' p' log' ∧ heap_ordered cmp d (<[p' := tmp]> a') n
    ∧ (sw' = false → sw = false ∧ a' = a ∧ p' = p ∧ log' = []).
Proof.
  induction fuel as [|fuel IH]; intros a p sw log Hn Hp Hf Hinv; [lia|].
  simpl. destruct (Nat.ltb_spec (p * d + 1) n) as [Hc|Hc].
  2: { exists a, p, sw, []. rewrite app_nil_r. split_and!; auto with heap.
       eapply down_stop, Hinv. intros c ? E.
       apply heap_parent_spec in E; lia. }
  destruct (select_child_children a n p Hc) as (Hs & Hps & Hmin).
  set (s := select_child _ _ _ _ _) in *.
  assert (p < s) as Hlt by (rewrite <-Hps; apply heap_parent_lt; lia).
  rewrite Z.gtb_ltb. destruct (Z.ltb_spec 0 (cmp (key tmp) (key (a !!! s)))) as [Hg|Hg].
  - destruct (IH (<[p := a !!! s]> a) s true
                (log ++ [(context (<[p:=a !!! s]> a !!! p), p)]))
      as (a' & p' & sw' & log' & -> & Hsf & Hho & Hsw).
    + by rewrite length_insert.
    + lia.
    + lia.
    + by apply down_step.
    + rewrite <-app_assoc. simpl. do 4 eexists. split; [done|]. split_and!; [|done|].
      * rewrite lookup_total_insert_eq by lia. apply sifted_move; auto with lia.
      * intros E. by destruct (Hsw E).
  - exists a, p, sw, []. rewrite app_nil_r. split_and!; auto with heap.
    eapply down_stop, Hinv. intros c ? E. rewrite lookup_total_insert_eq by lia.
    rewrite lookup_total_insert_ne; [|rewrite <-E; apply Nat.lt_neq, heap_parent_lt; lia].
    eapply cmp_trans; [done|]. by apply Hmin.
Qed.

Lemma heap_down_spec a n p :
  n ≤ length a → p < n → down_inv a n p →
  ∃ a' log, heap_down cmp d a n p = Some (a', log)
    ∧ sift_ok n a a' log ∧ heap_ordered cmp d a' n.
Proof.
  intros Hn Hp Hinv. unfold heap_down.
  destruct (heap_down_loop_spec (S n) (a !!! p) n a p false [])
    as (a' & p' & sw & log & -> & Hs & Ho & Hsw); try lia.
  { by rewrite insert_same_total. }
  destruct (sift_finish_ok n a p a' p' sw log) as [Hok Heq]; auto.
  { intros E. destruct (Hsw E) as (?&->&?&->); done. }
  { intros E. by destruct (Hsw E) as (?&?&->&?). }
  simpl app in *. cbn [mbind option_bind].
  destruct (sift_finish _ _) as [a'' log'']. simpl in *. subst a''. eauto.
Qed.
Lemma up_step a n p tmp :
  n ≤ length a → 0 < p < n → let q := par p in
  (cmp (key tmp) (key (a !!! q)) < 0)%Z →
  up_inv (<[p := tmp]> a) n p →
  up_inv (<[q := tmp]> (<[p := a !!! q]> a)) n q.
Proof.
  intros Hn Hp q Hlt [Hord Hacr].
  assert (q < p) as Hqp by (apply heap_parent_lt; lia).
  assert (HR : ∀ i, <[q:=tmp]> (<[p:=a !!! q]> a) !!! i
    = if decide (q = i) then tmp else if decide (p = i) then a !!! q else a !!! i).
  { intros i. rewrite lookup_total_insert by (rewrite length_insert; lia).
    case_decide; [done|]. by rewrite lookup_total_insert by lia. }
  assert (HB : ∀ i, i ≠ p → <[p:=tmp]> a !!! i = a !!! i)
    by (intros; by apply lookup_total_insert_ne).
  assert (HQ : ∀ c, 0 < c < n → par c = q → c ≠ p → le (a !!! q) (a !!! c)).
  { intros c Hc E Hne. specialize (Hord c Hc Hne). rewrite E in Hord.
    by rewrite !HB in Hord by lia. }
  split.
  - intros c Hc Hcq. rewrite !HR. rewrite (decide_False (P:=q = c)) by done.
    destruct (decide (q = par c)) as [E|E].
    { destruct (decide (p = c)) as [<-|]; [lia|].
      eapply cmp_trans; [|by apply HQ]. lia. }
    rewrite (decide_False (P:=p = c)) by (intros <-; by apply E).
    destruct (decide (p = par c)) as [E2|E2].
    { assert (par c < c) by (apply heap_parent_lt; lia).
      specialize (Hacr c Hc (eq_sym E2)). fold q in Hacr. rewrite !HB in Hacr by lia.
      apply Hacr; lia. }
    assert (c ≠ p) by (intros ->; by apply E).
    specialize (Hord c Hc). rewrite !HB in Hord by congruence. by apply Hord.
  - intros c Hc E Hq0. rewrite !HR.
    assert (par q < q) by (apply heap_parent_lt; lia).
    assert (par c < c) by (apply heap_parent_lt; lia).
    rewrite (decide_False (P:=q = par q)) by lia.
    rewrite (decide_False (P:=p = par q)) by lia.
    rewrite (decide_False (P:=q = c)) by lia.
    assert (le (a !!! par q) (a !!! q)) as Hle.
    { specialize (Hord q). rewrite !HB in Hord by lia. apply Hord; lia. }
    destruct (decide (p = c)); [done|]. eapply cmp_trans; [done|]. by apply HQ.
Qed.

Lemma up_stop b n p :
  (0 < p → le (b !!! par p) (b !!! p)) → up_inv b n p → heap_ordered cmp d b n.
Proof.
  intros Hp [Hord _] c Hc. destruct (decide (c = p)) as [->|]; [apply Hp; lia|by apply Hord].
Qed.

Lemma heap_up_loop_spec fuel tmp n : ∀ a p sc sw log,
  n ≤ length a → 0 < p < n → p ≤ fuel → up_inv (<[p := tmp]> a) n p →
  (sw = true → sc = p) →
  ∃ a' p' (sw' : bool) log',
    heap_up_loop cmp d fuel tmp a p sc sw log
      = Some (a', if sw' then p' else sc, sw', log ++ log')
    ∧ sifted n a p a' p' log' ∧ heap_ordered cmp d (<[p' := tmp]> a') n
    ∧ (sw' = false → sw = false ∧ a' = a ∧ p' = p ∧ log' = []).
Proof.
  induction fuel as [|fuel IH]; intros a p sc sw log Hn Hp Hf Hinv Hsc; [lia|].
  simpl. change ((p - 1) / d) with (par p).
  assert (par p < p) as Hpp by (apply heap_parent_lt; lia).
  destruct (Z.ltb_spec (cmp (key tmp) (key (a !!! par p))) 0) as [Hlt|Hge].
  - assert (up_inv (<[par p := tmp]> (<[p := a !!! par p]> a)) n (par p)) as Hst
      by (apply up_step; auto).
    rewrite (lookup_total_insert_eq a p) by lia.
    destruct (Nat.ltb_spec 0 (par p)) as [Hq|Hq].
    + destruct (IH (<[p := a !!! par p]> a) (par p) (par p) true
                  (log ++ [(context (a !!! par p), p)]))
        as (a' & p' & sw' & log' & -> & Hsf & Hho & Hsw);
        rewrite ?length_insert; auto; try lia.
      rewrite <-app_assoc. simpl. exists a', p', sw'. eexists. split.
      { destruct sw'; [done|]. by destruct (Hsw eq_refl). }
      split_and!; [|done|].
      * apply sifted_move; auto with lia.
      * intros E. by destruct (Hsw E).
    + exists (<[p := a !!! par p]> a), (par p), true. eexists. split; [done|].
      split_and!; [|eapply up_stop, Hst; lia|done].
      apply sifted_move; auto with lia. apply sifted_refl.
  - exists a, p, sw, []. rewrite app_nil_r. split.
    { by destruct sw; [rewrite Hsc|]. }
    split_and!; auto with heap.
    eapply up_stop, Hinv. intros _. rewrite lookup_total_insert_eq by lia.
    rewrite lookup_total_insert_ne by lia.
    pose proof (cmp_sign (key (a !!! par p)) (key tmp)).
    pose proof (cmp_sign (key tmp) (key (a !!! par p))). lia.
Qed.

Lemma heap_up_spec a n p :
  n ≤ length a → p < n → up_inv a n p →
  ∃ a' log, heap_up cmp d a p = Some (a', log)
    ∧ sift_ok n a a' log ∧ heap_ordered cmp d a' n.
Proof.
  intros Hn Hp Hinv. unfold heap_up. destruct (Nat.eqb_spec p 0) as [->|Hp0].
  { exists a, []. split_and!; [done| |eapply up_stop, Hinv; lia]. by split. }
  destruct (heap_up_loop_spec p (a !!! p) n a p 0 false [])
    as (a' & p' & sw & log & -> & Hs & Ho & Hsw); try lia.
  { by rewrite insert_same_total. }
  destruct (sift_finish_ok n a p a' p' sw log) as [Hok Heq]; auto.
  { intros E. destruct (Hsw E) as (?&->&?&->); done. }
  { intros E. by destruct (Hsw E) as (?&?&->&?). }
  simpl app in *. cbn [mbind option_bind].
  destruct sw; simpl in *; [eauto|]. destruct (Hsw eq_refl) as (_&->&->&->).
  rewrite insert_same_total in Ho. eauto.
Qed.

(** Where the order holds at every cell, both invariants hold at any hole
    whose element may have changed in the right direction. *)
Lemma ordered_down_inv a n p e :
  n ≤ length a → p < n → heap_ordered cmp d a n →
  (0 < p → le (a !!! par p) e) → down_inv (<[p := e]> a) n p.
Proof.
  intros Hn Hp Ho He. split.
  - intros c Hc Hpc. assert (par c < c) by (apply heap_parent_lt; lia).
    rewrite (lookup_total_insert_ne _ _ (par c)) by done.
    rewrite lookup_total_insert by lia. case_decide; [subst; apply He; lia|by apply Ho].
  - intros c Hc Hpc Hp0. assert (par p < p) by (apply heap_parent_lt; lia).
    assert (par c < c) by (apply heap_parent_lt; lia).
    rewrite !lookup_total_insert_ne by lia.
    eapply cmp_trans; [apply Ho; lia|]. rewrite <-Hpc. by apply Ho.
Qed.

Lemma ordered_up_inv a n p e :
  n ≤ length a → p < n → heap_ordered cmp d a n →
  (∀ c, 0 < c < n → par c = p → le e (a !!! c)) → up_inv (<[p := e]> a) n p.
Proof.
  intros Hn Hp Ho He. split.
  - intros c Hc Hcp. assert (par c < c) by (apply heap_parent_lt; lia).
    rewrite (lookup_total_insert_ne _ _ c) by done.
    rewrite lookup_total_insert by lia. case_decide; [by apply He|by apply Ho].
  - intros c Hc Hpc Hp0. assert (par p < p) by (apply heap_parent_lt; lia).
    assert (par c < c) by (apply heap_parent_lt; lia).
    rewrite !lookup_total_insert_ne by lia.
    eapply cmp_trans; [apply Ho; lia|]. rewrite <-Hpc. by apply Ho.
Qed.

Lemma ordered_root a n i :
  heap_ordered cmp d a n → i < n → le (a !!! 0%nat) (a !!! i).
Proof.
  intros Ho. induction i as [i IH] using lt_wf_ind. intros Hi.
  destruct (decide (i = 0)) as [->|]; [apply cmp_refl|].
  assert (par i < i) by (apply heap_parent_lt; lia).
  eapply cmp_trans; [apply (IH (par i)); lia|apply Ho; lia].
Qed.
Lemma ordered_agree a b n :
  (∀ i, i < n → b !!! i = a !!! i) → heap_ordered cmp d a n → heap_ordered cmp d b n.
Proof.
  intros Hab Ho c Hc. assert (par c < c) by (apply heap_parent_lt; lia).
  rewrite !Hab by lia. by apply Ho.
Qed.

Lemma sift_ok_refl n a : sift_ok n a a [].
Proof. by split. Qed.

(** Replacing the element of cell [p] by [e] and sifting according to how [e]
    compares with what was there: [cl_heap_modify_key]. *)
Lemma resift_modify a n p e :
  n ≤ length a → p < n → heap_ordered cmp d a n →
  let b := <[p := e]> a in
  let r := cmp (key e) (key (a !!! p)) in
  ∃ a' log,
    (if (r <? 0)%Z then heap_up cmp d b p
     else if (r >? 0)%Z then heap_down cmp d b n p else Some (b, [])) = Some (a', log)
    ∧ sift_ok n b a' log ∧ heap_ordered cmp d a' n.
Proof.
  intros Hn Hp Ho b r.
  assert (length b = length a) as Hlb by apply length_insert.
  assert ((r ≤ 0)%Z → up_inv b n p) as Hup.
  { intros Hr. apply ordered_up_inv; auto. intros c Hc Hpc.
    eapply cmp_trans; [exact Hr|]. rewrite <-Hpc. by apply Ho. }
  assert ((0 ≤ r)%Z → 0 < p → le (a !!! par p) e) as Hdn.
  { intros Hr Hp0. eapply cmp_trans; [apply Ho; lia|].
    pose proof (cmp_sign (key (a !!! p)) (key e)).
    pose proof (cmp_sign (key e) (key (a !!! p))). subst r. lia. }
  rewrite Z.gtb_ltb. destruct (Z.ltb_spec r 0) as [Hr|Hr].
  { apply heap_up_spec; [lia|done|apply Hup; lia]. }
  destruct (Z.ltb_spec 0 r).
  { apply heap_down_spec; [lia|done|]. by apply ordered_down_inv; auto. }
  exists b, []. split_and!; [done|apply sift_ok_refl|].
  apply (up_stop b n p); [|apply Hup; lia]. intros Hp0.
  assert (par p < p) by (apply heap_parent_lt; lia).
  unfold b. rewrite lookup_total_insert_eq, lookup_total_insert_ne by lia. auto.
Qed.

(** Filling cell [p] with [e], which compares in any way with what was there,
    and sifting according to the parent: [cl_heap_delete]. *)
Lemma resift_delete a n p e :
  n ≤ length a → p < n → heap_ordered cmp d a n →
  let b := <[p := e]> a in
  let r := cmp (key (b !!! par p)) (key (b !!! p)) in
  ∃ a' log,
    (if p =? 0 then heap_down cmp d b n p
     else if (r <? 0)%Z then heap_down cmp d b n p
     else if (r >? 0)%Z then heap_up cmp d b p else Some (b, [])) = Some (a', log)
    ∧ sift_ok n b a' log ∧ heap_ordered cmp d a' n.
Proof.
  intros Hn Hp Ho b r.
  assert (length b = length a) as Hlb by apply length_insert.
  destruct (Nat.eqb_spec p 0) as [->|Hp0].
  { apply heap_down_spec; [lia|done|]. apply ordered_down_inv; auto. lia. }
  assert (par p < p) as Hpp by (apply heap_parent_lt; lia).
  assert (r = cmp (key (a !!! par p)) (key e)) as Hr.
  { unfold r, b. by rewrite lookup_total_insert_eq, lookup_total_insert_ne by lia. }
  assert ((0 ≤ r)%Z → up_inv b n p) as Hup.
  { intros Hr0. apply ordered_up_inv; auto. intros c Hc Hpc.
    eapply cmp_trans; [|rewrite <-Hpc; by apply Ho].
    eapply cmp_trans; [|rewrite Hpc; apply Ho; lia].
    pose proof (cmp_sign (key (a !!! par p)) (key e)).
    pose proof (cmp_sign (key e) (key (a !!! par p))). lia. }
  rewrite Z.gtb_ltb. destruct (Z.ltb_spec r 0) as [Hr0|Hr0].
  { apply heap_down_spec; [lia|done|]. apply ordered_down_inv; auto. lia. }
  destruct (Z.ltb_spec 0 r).
  { apply heap_up_spec; [lia|done|by apply Hup]. }
  exists b, []. split_and!; [done|apply sift_ok_refl|].
  apply (up_stop b n p); [|by apply Hup]. intros _. fold r. lia.
Qed.

(** A sift at the first cell outside the heap does nothing. *)
Lemma heap_down_outside a n : heap_down cmp d a n n = Some (a, []).
Proof.
  unfold heap_down. simpl. destruct (Nat.ltb_spec (n * d + 1) n); [nia|done].
Qed.

(** The two together: cell [p] and the last cell are exchanged and the new
    element of [p] is sifted within the first [n] cells. *)
Lemma exchange_sift a n p :
  n < length a → p ≤ n → heap_ordered cmp d a (S n) →
  let b := <[p := a !!! n]> (<[n := a !!! p]> a) in
  let r := cmp (key (b !!! par p)) (key (b !!! p)) in
  ∃ a' log,
    (if p =? 0 then heap_down cmp d b n p
     else if (r <? 0)%Z then heap_down cmp d b n p
     else if (r >? 0)%Z then heap_up cmp d b p else Some (b, [])) = Some (a', log)
    ∧ sift_ok n b a' log ∧ heap_ordered cmp d a' n.
Proof.
  intros Hn Hp Ho. set (a1 := <[n := a !!! p]> a). simpl.
  assert (length a1 = length a) as Hl1 by apply length_insert.
  assert (heap_ordered cmp d a1 n) as Ho1.
  { apply (ordered_agree a); [|intros c ?; apply Ho; lia].
    intros i ?. apply lookup_total_insert_ne. lia. }
  destruct (decide (p = n)) as [->|]; [|by apply resift_delete; [lia|lia|]].
  set (b := <[n := a !!! n]> a1).
  assert (b = a) as Hb.
  { unfold b, a1. by rewrite list_insert_insert_eq, insert_same_total. }
  rewrite Hb. rewrite heap_down_outside.
  assert (heap_ordered cmp d a n) by (intros c ?; apply Ho; lia).
  destruct (Nat.eqb_spec n 0); [eauto using sift_ok_refl|].
  rewrite Z.gtb_ltb. destruct (Z.ltb_spec (cmp (key (a !!! par n)) (key (a !!! n))) 0);
    [eauto using sift_ok_refl|].
  destruct (Z.ltb_spec 0 (cmp (key (a !!! par n)) (key (a !!! n)))); [|eauto using sift_ok_refl].
  exfalso. specialize (Ho n). lia.
Qed.

End SiftProofs.

(** ** The operations *)

Section Operations.
Context (h : cl_heap) (Hwf : heap_wf h).

Local Abbreviation cmp := (cmp_of h).
Local Abbreviation d := (branching_factor h).

#[local] Instance cmp_laws : CompareLaws cmp.
Proof. exact (wf_compare h Hwf). Qed.

Lemma wf_arr_length : length (arr h) = capacity h.
Proof. destruct (wf_array h Hwf) as (a & E & Hl). unfold arr. by rewrite E. Qed.

Lemma with_array_wf a n :
  length a = capacity h → n ≤ capacity h → heap_ordered cmp d a n →
  heap_wf (with_array h a n).
Proof.
  intros Hl Hn Ho. destruct Hwf. split; auto. by exists a.
Qed.
End Operations.



Lemma tracked_insert_same a n m i e :
  i < length a → context e = context (a !!! i) → tracked a n m → tracked (<[i:=e]> a) n m.
Proof.
  intros Hi He Hm j Hj. rewrite lookup_total_insert by done.
  case_decide; [subst; rewrite He|]; by apply Hm.
Qed.

Lemma contexts_insert_same a n i e :
  i < length a → context e = context (a !!! i) → contexts (<[i:=e]> a) n = contexts a n.
Proof.
  intros Hi He. unfold contexts. rewrite !fmap_take, list_fmap_insert.
  rewrite list_insert_id; [done|].
  by rewrite list_lookup_fmap, (lookup_total_lt a i), He.
Qed.

Lemma contexts_cons a n e l :
  e :: l ≡ₚ take n a → NoDup (contexts a n) →
  (context e ∉ (context <$> l)) ∧ NoDup (context <$> l).
Proof.
  intros HP Hnd. unfold contexts in Hnd. rewrite <-HP in Hnd. by apply NoDup_cons in Hnd.
Qed.

(** The cells of the heap after [cl_heap_delete] has exchanged the deleted
    element with the last one. *)
Lemma delete_perm (a : list cl_heap_elem) n p :
  n < length a → p ≤ n →
  let b := <[p := a !!! n]> (<[n := a !!! p]> a) in
  (a !!! p) :: take n b ≡ₚ take (S n) a ∧ (p < n → take n b = <[p := a !!! n]> (take n a))
  ∧ b !!! n = a !!! p.
Proof.
  intros Hn Hp b.
  assert (Hb : b !!! n = a !!! p).
  { unfold b. rewrite lookup_total_insert by (rewrite length_insert; lia).
    case_decide; [by subst|]. by apply lookup_total_insert_eq. }
  assert (HSn : ∀ (k : list cl_heap_elem), length k = length a →
            take (S n) k ≡ₚ (k !!! n) :: take n k).
  { intros k Hk. rewrite (take_S_r k n (k !!! n)) by (apply lookup_total_lt; lia).
    by rewrite Permutation_app_comm. }
  split_and!; [|intros Hpn|done].
  - rewrite <-Hb, <-HSn by (unfold b; by rewrite !length_insert).
    unfold b. rewrite !take_insert_lt by lia.
    apply swap_Permutation; rewrite lookup_take_lt by lia; apply lookup_total_lt; lia.
  - unfold b. rewrite take_insert_lt, take_insert_ge by lia. done.
Qed.

Lemma delete_tracked (a : list cl_heap_elem) n p m :
  n < length a → p ≤ n → NoDup (contexts a (S n)) → tracked a (S n) m →
  let b := <[p := a !!! n]> (<[n := a !!! p]> a) in
  tracked b n (<[context (a !!! n) := p]> (<[context (a !!! p) := n]> m)).
Proof.
  intros Hn Hp Hnd Hm b i Hi.
  assert (HI : ∀ j, j ≤ n → i ≠ j → context (a !!! i) ≠ context (a !!! j)).
  { intros j Hj Hne E. apply Hne. by apply (contexts_inj a (S n)); try lia. }
  unfold b. rewrite lookup_total_insert by (rewrite length_insert; lia).
  case_decide as E; [subst; by rewrite lookup_insert_eq|].
  rewrite lookup_total_insert_ne by lia.
  rewrite !lookup_insert_ne by (symmetry; apply HI; lia). apply Hm. lia.
Qed.

(** ** Properties *)

(** [cl_heap_delete] of any cell of a well-formed heap returns that cell's
    context; the remaining heap is well-formed, holds exactly the other
    elements, and the callbacks keep the users' stored positions right. *)
Theorem cl_heap_delete_ok h index :
  heap_wf h → index < size h →
  ∃ h' log,
    cl_heap_delete h index = Some (context (arr h !!! index), h', log)
    ∧ heap_wf h' ∧ S (size h') = size h
    ∧ arr h !!! index :: take (size h') (arr h') ≡ₚ take (size h) (arr h)
    ∧ (∀ m, NoDup (contexts (arr h) (size h)) → tracked (arr h) (size h) m →
            tracked (arr h') (size h') (pos_after log m)).
Proof.
  intros Hwf Hi. pose proof (wf_arr_length h Hwf) as Hl.
  pose proof (wf_size h Hwf) as Hs. pose proof (wf_branch h Hwf) as Hd.
  pose proof (wf_order h Hwf) as Ho. pose proof (wf_compare h Hwf) as HL.
  unfold cl_heap_delete.
  destruct (Nat.eqb_spec (size h) 0) as [?|_]; [lia|].
  rewrite (proj2 (Nat.leb_gt _ _) Hi).
  destruct (Nat.eqb_spec (size h) 1) as [E1|E1].
  { assert (index = 0) as -> by lia. eexists _, []. split; [done|].
    split_and!; simpl; [|lia| |intros m _ _ i; lia].
    - apply with_array_wf; auto; [lia|]. intros c; lia.
    - rewrite E1. destruct (arr h); simpl in *; [lia|done]. }
  set (n := size h - 1). set (e := arr h !!! n).
  destruct (delete_perm (arr h) n index) as (HP & _ & Hbn); [lia|lia|].
  destruct (exchange_sift (cmp_of h) (branching_factor h) Hd (arr h) n index)
    as (a' & log & Heq & Hok & Ho'); [lia|lia| |].
  { intros c ?. apply Ho. lia. }
  fold e in HP, Hbn, Heq, Hok. set (b := <[index := e]> _) in *.
  unfold heap_parent in Heq. rewrite Heq. simpl.
  pose proof (sift_length _ _ _ _ Hok) as Hla.
  assert (length b = capacity h) as Hlb by (unfold b; by rewrite !length_insert).
  assert (a' !!! n = arr h !!! index) as Ha'n.
  { rewrite <-Hbn. rewrite !list_lookup_total_alt.
    rewrite <-(Nat.add_0_r n), <-!lookup_drop. by rewrite (sift_drop _ _ _ _ Hok). }
  rewrite Ha'n. eexists _, _. split; [reflexivity|].
  split_and!; simpl.
  - apply with_array_wf; auto; lia.
  - lia.
  - rewrite (sift_perm _ _ _ _ Hok), HP. by replace (S n) with (size h) by lia.
  - intros m Hnd Hm. apply (sift_tracked _ _ _ _ Hok).
    + replace (size h) with (S n) in Hnd by lia.
      by destruct (contexts_cons _ _ _ _ HP Hnd).
    + replace (size h) with (S n) in Hnd, Hm by lia.
      assert (n < length (arr h) ∧ index ≤ n) as [Hn1 Hn2] by lia.
      pose proof (delete_tracked _ n index m Hn1 Hn2 Hnd Hm) as Ht.
      fold e in Ht. fold b in Ht. simpl.
      replace (<[n:=arr h !!! index]> (arr h) !!! n) with (arr h !!! index)
        by (symmetry; by apply lookup_total_insert_eq).
      replace (b !!! index) with e; [done|].
      symmetry. apply lookup_total_insert_eq. rewrite length_insert. lia.
Qed.

(** [cl_heap_insert] of a non-[NULL] context into a heap with room
    succeeds: the heap is well-formed, holds the old elements and the new one,
    and the callbacks give every element of it its right position. *)
Theorem cl_heap_insert_ok h k ctx :
  heap_wf h → ctx ≠ 0%Z → size h < capacity h →
  ∃ h' log,
    cl_heap_insert h k ctx = Some (CL_SUCCESS, h', log)
    ∧ heap_wf h' ∧ size h' = S (size h)
    ∧ take (size h') (arr h') ≡ₚ HeapElem k ctx :: take (size h) (arr h)
    ∧ (∀ m, NoDup (ctx :: contexts (arr h) (size h)) → tracked (arr h) (size h) m →
            tracked (arr h') (size h') (pos_after log m)).
Proof.
  intros Hwf Hctx Hroom. pose proof (wf_arr_length h Hwf) as Hl.
  pose proof (wf_branch h Hwf) as Hd. pose proof (wf_order h Hwf) as Ho.
  pose proof (wf_compare h Hwf) as HL.
  unfold cl_heap_insert. rewrite (proj2 (Z.eqb_neq _ _) Hctx).
  rewrite (proj2 (Nat.eqb_neq _ _)) by lia.
  set (n := size h) in *. set (e := HeapElem k ctx). set (a := <[n := e]> (arr h)).
  assert (length a = capacity h) as Hla by (unfold a; by rewrite length_insert).
  assert (take (S n) a ≡ₚ e :: take n (arr h)) as HP.
  { rewrite (take_S_r a n e) by (unfold a; apply list_lookup_insert_eq; lia).
    unfold a. rewrite take_insert_ge by done. by rewrite Permutation_app_comm. }
  destruct (heap_up_spec (cmp_of h) (branching_factor h) Hd a (S n) n)
    as (a' & log & -> & Hok & Ho'); [lia|lia| |].
  { split.
    - intros c Hc Hne. assert (heap_parent (branching_factor h) c < c)
        by (apply heap_parent_lt; lia).
      unfold a. rewrite !lookup_total_insert_ne by lia. apply Ho. lia.
    - intros c Hc Hp Hn0. assert (heap_parent (branching_factor h) c < c)
        by (apply heap_parent_lt; lia). lia. }
  simpl. eexists _, _. split; [reflexivity|].
  pose proof (sift_length _ _ _ _ Hok) as Hla'. rewrite Nat.add_1_r. split_and!; simpl; try lia.
  - apply with_array_wf; auto; lia.
  - by rewrite (sift_perm _ _ _ _ Hok), HP.
  - intros m Hnd Hm. apply (sift_tracked _ _ _ _ Hok).
    { unfold contexts. by rewrite HP. }
    intros i Hi. unfold a. rewrite lookup_total_insert by lia.
    case_decide; [subst; by rewrite lookup_insert_eq|].
    apply NoDup_cons in Hnd as [Hnin _]. rewrite lookup_insert_ne; [apply Hm; lia|].
    intros E. apply Hnin. rewrite E. unfold contexts. apply list_elem_of_fmap.
    exists (arr h !!! i). split; [done|]. apply list_elem_of_lookup. exists i.
    rewrite lookup_take_lt by lia. apply lookup_total_lt. lia.
Qed.

(** [cl_heap_modify_key] of a cell of a well-formed heap succeeds: the heap
    is well-formed again, holds the same elements but for the new key, and the
    callbacks keep the users' stored positions right. *)
Theorem cl_heap_modify_key_ok h k index :
  heap_wf h → index < size h →
  ∃ h' log,
    cl_heap_modify_key h k index = Some (CL_SUCCESS, h', log)
    ∧ heap_wf h' ∧ size h' = size h
    ∧ take (size h) (arr h') ≡ₚ
        <[index := HeapElem k (context (arr h !!! index))]> (take (size h) (arr h))
    ∧ (∀ m, NoDup (contexts (arr h) (size h)) → tracked (arr h) (size h) m →
            tracked (arr h') (size h') (pos_after log m)).
Proof.
  intros Hwf Hi. pose proof (wf_arr_length h Hwf) as Hl.
  pose proof (wf_size h Hwf) as Hs. pose proof (wf_branch h Hwf) as Hd.
  pose proof (wf_order h Hwf) as Ho. pose proof (wf_compare h Hwf) as HL.
  unfold cl_heap_modify_key. rewrite (proj2 (Nat.leb_gt _ _) Hi).
  set (e := HeapElem k (context (arr h !!! index))).
  change (cmp_of h k) with (cmp_of h (key e)).
  destruct (resift_modify (cmp_of h) (branching_factor h) Hd (arr h) (size h) index e)
    as (a' & log & -> & Hok & Ho'); [lia|done|done|].
  simpl. eexists _, log. split; [done|].
  pose proof (sift_length _ _ _ _ Hok) as Hla. rewrite length_insert in Hla.
  assert (index < length (arr h)) as Hil by lia. split_and!; auto.
  - apply with_array_wf; auto. lia.
  - simpl. rewrite (sift_perm _ _ _ _ Hok). by rewrite take_insert_lt.
  - intros m Hnd Hm. apply (sift_tracked _ _ _ _ Hok).
    + by rewrite contexts_insert_same.
    + by apply tracked_insert_same.
Qed.

(** [cl_heap_extract_root] on a non-empty heap returns the context of an
    element whose key compares lowest of all the heap's keys. *)
Theorem cl_heap_extract_root_min h :
  heap_wf h → 0 < size h →
  ∃ e h' log,
    cl_heap_extract_root h = Some (context e, h', log)
    ∧ e :: take (size h') (arr h') ≡ₚ take (size h) (arr h)
    ∧ (∀ e', e' ∈ take (size h') (arr h') → (cmp_of h (key e) (key e') ≤ 0)%Z).
Proof.
  intros Hwf Hn. destruct (cl_heap_delete_ok h 0 Hwf Hn) as (h' & log & E & _ & _ & HP & _).
  exists (arr h !!! 0), h', log. split_and!; [done|done|].
  intros e' He'. assert (e' ∈ take (size h) (arr h)) as Hin by (rewrite <-HP; by right).
  apply list_elem_of_lookup in Hin as [i Hi].
  apply lookup_take_Some in Hi as [Hi Hlt].
  pose proof (wf_compare h Hwf). pose proof (wf_branch h Hwf).
  apply list_lookup_total_correct in Hi as <-.
  apply (ordered_root _ (branching_factor h)) with (n := size h); auto.
  apply (wf_order h Hwf).
Qed.

(** [cl_verify_heap_property] answers exactly whether the array is
    heap-ordered. *)
Theorem cl_verify_heap_property_iff h :
  0 < branching_factor h →
  cl_verify_heap_property h = true
  ↔ heap_ordered (cmp_of h) (branching_factor h) (arr h) (size h).
Proof.
  intros Hd. unfold cl_verify_heap_property. rewrite forallb_forall.
  setoid_rewrite forallb_forall. setoid_rewrite in_seq.
  setoid_rewrite negb_true_iff. setoid_rewrite Z.gtb_ltb. setoid_rewrite Z.ltb_ge.
  split.
  - intros H c Hc. pose proof (heap_parent_lt _ c Hd ltac:(lia)).
    pose proof (proj1 (heap_parent_spec _ c _ Hd ltac:(lia)) eq_refl).
    apply H; lia.
  - intros H p Hp c Hc.
    assert (heap_parent (branching_factor h) c = p) as <- by (apply heap_parent_spec; lia).
    apply H. lia.
Qed.

Lemma cl_heap_init_wf h max_size d cmp :
  0 < max_size → 0 < d → CompareLaws (default compare_keys cmp) →
  ∃ h', cl_heap_init h max_size d true cmp true = (CL_SUCCESS, h') ∧ heap_wf h'
    ∧ size h' = 0 ∧ capacity h' = max_size.
Proof.
  intros Hm Hd HL. unfold cl_heap_init.
  rewrite (proj2 (Nat.leb_gt _ _) Hm), (proj2 (Nat.eqb_neq _ _)) by lia. simpl.
  eexists. split; [done|]. split_and!; [|done|done]. split; simpl; auto; [lia| |].
  - eexists. split; [done|]. by rewrite length_replicate.
  - intros c; lia.
Qed.

(** ** A concrete heap *)

Definition sample : cl_heap :=
  CLHeap CL_INITIALIZED 2
    (Some [HeapElem 1 11; HeapElem 4 12; HeapElem 2 13; HeapElem 7 14; HeapElem 0 0])
    4 5 true (Some compare_keys).

Lemma sample_wf : heap_wf sample.
Proof.
  split; try (simpl; lia); [done|by eexists|exact compare_keys_laws|].
  by apply cl_verify_heap_property_iff; [simpl; lia|].
Defined.

Lemma cl_heap_delete_ok_witness :
  ∃ h' log, cl_heap_delete sample 1 = Some (12%Z, h', log) ∧ S (size h') = 4
    ∧ cl_verify_heap_property h' = true.
Proof.
  destruct (cl_heap_delete_ok sample 1 sample_wf ltac:(simpl; lia))
    as (h' & log & E & W & S & _). exists h', log. split_and!; [exact E|exact S|].
  injection E as <- <-. reflexivity.
Defined.

Lemma cl_heap_insert_ok_witness :
  ∃ h' log, cl_heap_insert sample 0 15 = Some (CL_SUCCESS, h', log) ∧ size h' = 5
    ∧ tracked (arr h') (size h') (pos_after log {[11%Z := 0; 12%Z := 1; 13%Z := 2; 14%Z := 3]}).
Proof.
  destruct (cl_heap_insert_ok sample 0 15 sample_wf ltac:(lia) ltac:(simpl; lia))
    as (h' & log & E & W & S & _ & HT). exists h', log. split_and!; [exact E|exact S|].
  apply HT.
  - apply (bool_decide_unpack _). vm_compute. exact I.
  - intros i Hi. simpl in Hi. do 4 (destruct i as [|i]; [reflexivity|]). lia.
Defined.

Lemma cl_heap_modify_key_ok_witness :
  ∃ h' log, cl_heap_modify_key sample 0 3 = Some (CL_SUCCESS, h', log) ∧ heap_wf h'.
Proof.
  destruct (cl_heap_modify_key_ok sample 0 3 sample_wf ltac:(simpl; lia))
    as (h' & log & E & W & _). by exists h', log.
Defined.

Lemma cl_heap_extract_root_min_witness :
  ∃ e h' log, cl_heap_extract_root sample = Some (context e, h', log) ∧ context e = 11%Z.
Proof.
  destruct (cl_heap_extract_root_min sample sample_wf ltac:(simpl; lia))
    as (e & h' & log & E & _). exists e, h', log. split; [exact E|].
  by injection E as <- _ _.
Defined.

Lemma cl_verify_heap_property_iff_witness :
  0 < branching_factor sample
  ∧ heap_ordered (cmp_of sample) (branching_factor sample) (arr sample) (size sample).
Proof.
  split; [simpl; lia|]. apply (cl_verify_heap_property_iff sample); [simpl; lia|].
  reflexivity.
Defined.
