(* ===== verification/PtrVector.v ===== *)
(** * The pointer vector of the component library: [complib/cl_ptr_vector.c]

    A vector is its size, capacity, growth step and array of cells; [None] is the
    null pointer.  The operations are the ones of the file on an initialised
    vector; where the C code writes a cell of the array, the model checks that the
    cell exists, and [None] as a whole result is a write outside the array.
    Whether a [malloc] succeeds is an argument. *)

From S2P Require Import Prelude.

Inductive cl_status := CL_SUCCESS | CL_INSUFFICIENT_MEMORY | CL_INVALID_PARAMETER.

#[export] Instance cl_status_eq_dec : EqDecision cl_status.
Proof. solve_decision. Defined.

Record cl_ptr_vector (A : Type) := PtrVec {
  vec_size : nat;
  vec_grow_size : nat;
  vec_capacity : nat;
  p_ptr_array : list (option A)
}.
Arguments PtrVec {A} _ _ _ _.
Arguments vec_size {A} _.
Arguments vec_grow_size {A} _.
Arguments vec_capacity {A} _.
Arguments p_ptr_array {A} _.

Section PtrVector.
Context {A : Type}.
Implicit Types v : cl_ptr_vector A.
Implicit Types x : option A.

(** ** Operations *)

Definition cl_ptr_vector_at v (index : nat) : cl_status * option A :=
  if vec_size v <=? index then (CL_INVALID_PARAMETER, None)
  else (CL_SUCCESS, p_ptr_array v !!! index).

Definition cl_ptr_vector_set_capacity v (new_capacity : nat) (alloc : bool)
    : cl_status * cl_ptr_vector A :=
  if new_capacity <=? vec_capacity v then (CL_SUCCESS, v)
  else if negb alloc then (CL_INSUFFICIENT_MEMORY, v)
  else (CL_SUCCESS, PtrVec (vec_size v) (vec_grow_size v) new_capacity
          (take (vec_capacity v) (p_ptr_array v)
           ++ replicate (new_capacity - vec_capacity v) None)).

Definition with_size v (size : nat) : cl_ptr_vector A :=
  PtrVec size (vec_grow_size v) (vec_capacity v) (p_ptr_array v).

(** The capacity for a size: rounded up to the growth step. *)
Definition grown_capacity (grow size : nat) : nat :=
  if negb (size mod grow =? 0) then size + (grow - size mod grow) else size.

Definition cl_ptr_vector_set_size v (size : nat) (alloc : bool)
    : cl_status * cl_ptr_vector A :=
  if size =? vec_size v then (CL_SUCCESS, v)
  else if vec_capacity v <=? size then
    if vec_grow_size v =? 0 then (CL_INSUFFICIENT_MEMORY, v)
    else match cl_ptr_vector_set_capacity v (grown_capacity (vec_grow_size v) size) alloc with
    | (CL_SUCCESS, v') => (CL_SUCCESS, with_size v' size)
    | (status, v') => (status, v')
    end
  else (CL_SUCCESS, with_size v size).

Definition cl_ptr_vector_set_min_size v (min_size : nat) (alloc : bool)
    : cl_status * cl_ptr_vector A :=
  if vec_size v <? min_size then cl_ptr_vector_set_size v min_size alloc else (CL_SUCCESS, v).

Definition cl_ptr_vector_init (min_size grow_size : nat) (alloc : bool)
    : cl_status * cl_ptr_vector A :=
  let v := PtrVec 0 grow_size 0 [] in
  if min_size =? 0 then (CL_SUCCESS, v) else cl_ptr_vector_set_size v min_size alloc.

(** [p_ptr_array[index] = x] *)
Definition write_cell v (index : nat) x : option (cl_ptr_vector A) :=
  if index <? length (p_ptr_array v)
  then Some (PtrVec (vec_size v) (vec_grow_size v) (vec_capacity v)
               (<[index := x]> (p_ptr_array v)))
  else None.

Definition cl_ptr_vector_set v (index : nat) x (alloc : bool)
    : option (cl_status * cl_ptr_vector A) :=
  let '(status, v') :=
    if vec_size v <=? index then cl_ptr_vector_set_size v (index + 1) alloc
    else (CL_SUCCESS, v) in
  if bool_decide (status ≠ CL_SUCCESS) && (vec_size v' <? index) then Some (status, v')
  else v'' ← write_cell v' index x; Some (CL_SUCCESS, v'').

(** Appends; the index is the last one of the vector after the call. *)
Definition cl_ptr_vector_insert v x (alloc : bool)
    : option (cl_status * cl_ptr_vector A * option nat) :=
  '(status, v') ← cl_ptr_vector_set v (vec_size v) x alloc;
  Some (status, v', if bool_decide (status = CL_SUCCESS) then Some (vec_size v' - 1) else None).

(** The loop [for (src = index; src < size; src++)] of the removal. *)
Fixpoint shift_down (arr : list (option A)) (src n : nat) : list (option A) :=
  match n with
  | 0 => arr
  | S n => shift_down (<[src := arr !!! (src + 1)]> arr) (src + 1) n
  end.

Definition cl_ptr_vector_remove v (index : nat) : option A * cl_ptr_vector A :=
  let element := p_ptr_array v !!! index in
  let size := vec_size v - 1 in
  let arr := if index <? size then shift_down (p_ptr_array v) index (size - index)
             else p_ptr_array v in
  (element, PtrVec size (vec_grow_size v) (vec_capacity v) (<[size := None]> arr)).

(** The calls [cl_ptr_vector_apply_func] makes, in order. *)
Definition cl_ptr_vector_apply_func v : list (nat * option A) :=
  (λ i, (i, p_ptr_array v !!! i)) <$> seq 0 (vec_size v).

Fixpoint find_up (arr : list (option A)) (f : nat → option A → bool) (i n : nat) : nat :=
  match n with
  | 0 => i
  | S n => if f i (arr !!! i) then i else find_up arr f (i + 1) n
  end.

Definition cl_ptr_vector_find_from_start v (f : nat → option A → bool) : nat :=
  find_up (p_ptr_array v) f 0 (vec_size v).

Fixpoint find_down (arr : list (option A)) (f : nat → option A → bool) (size i : nat) : nat :=
  match i with
  | 0 => size
  | S i => if f i (arr !!! i) then i else find_down arr f size i
  end.

Definition cl_ptr_vector_find_from_end v (f : nat → option A → bool) : nat :=
  find_down (p_ptr_array v) f (vec_size v) (vec_size v).

(** ** The vector as a list *)

Definition vec_list v : list (option A) := take (vec_size v) (p_ptr_array v).

(** What [cl_ptr_vector_set] promises: the list grows with null pointers. *)
Definition vec_set (l : list (option A)) (index : nat) x : list (option A) :=
  <[index := x]> (l ++ replicate (index + 1 - length l) None).

(** The array has [capacity] cells, and those past the size are null.  (A call
    that shrinks the vector keeps the old pointers in its unused cells.) *)
Record vec_wf v : Prop := {
  wf_length : length (p_ptr_array v) = vec_capacity v;
  wf_size : vec_size v ≤ vec_capacity v;
  wf_clean : p_ptr_array v = vec_list v ++ replicate (vec_capacity v - vec_size v) None
}.

Lemma vec_list_length v : vec_wf v → length (vec_list v) = vec_size v.
Proof. intros [H1 H2 _]. unfold vec_list. rewrite length_take. lia. Qed.

Lemma grown_capacity_ge grow size : 0 < grow → size ≤ grown_capacity grow size.
Proof. intros Hg. unfold grown_capacity. case_match; lia. Qed.

(** Growing a clean vector appends null pointers. *)
Lemma set_size_grows v size alloc :
  vec_wf v → vec_size v ≤ size →
  match cl_ptr_vector_set_size v size alloc with
  | (CL_SUCCESS, v') =>
      vec_wf v' ∧ vec_size v' = size ∧ vec_grow_size v' = vec_grow_size v
      ∧ vec_list v' = vec_list v ++ replicate (size - vec_size v) None
  | (_, v') =>
      v' = v ∧ vec_capacity v ≤ size ∧ vec_size v ≠ size
      ∧ (vec_grow_size v = 0 ∨ alloc = false)
  end.
Proof.
  intros Hwf Hle. pose proof Hwf as [H1 H2 H3]. unfold cl_ptr_vector_set_size.
  destruct (Nat.eqb_spec size (vec_size v)) as [->|Hne].
  { split_and!; try done. by rewrite Nat.sub_diag, app_nil_r. }
  assert (Hpad : ∀ c, vec_capacity v ≤ c → size ≤ c →
    let v' := PtrVec size (vec_grow_size v) c
                (p_ptr_array v ++ replicate (c - vec_capacity v) None) in
    vec_wf v' ∧ vec_list v' = vec_list v ++ replicate (size - vec_size v) None).
  { intros c Hc Hs. simpl.
    assert (Harr : p_ptr_array v ++ replicate (c - vec_capacity v) None
      = (vec_list v ++ replicate (size - vec_size v) None) ++ replicate (c - size) None).
    { rewrite H3, <-!app_assoc, <-!replicate_add. do 2 f_equal. lia. }
    assert (Hlen : length (vec_list v ++ replicate (size - vec_size v) None) = size).
    { rewrite length_app, length_replicate, vec_list_length by done. lia. }
    assert (Hl : vec_list (PtrVec size (vec_grow_size v) c
                (p_ptr_array v ++ replicate (c - vec_capacity v) None))
      = vec_list v ++ replicate (size - vec_size v) None).
    { unfold vec_list at 1. simpl. rewrite Harr. rewrite <-Hlen at 1. apply take_app_length. }
    split; [|done]. split; simpl; [rewrite length_app, length_replicate; lia|lia|].
    by rewrite Hl. }
  destruct (Nat.leb_spec (vec_capacity v) size) as [Hcap|Hcap].
  - destruct (Nat.eqb_spec (vec_grow_size v) 0) as [Hg|Hg]; [split_and!; auto|].
    pose proof (grown_capacity_ge (vec_grow_size v) size ltac:(lia)) as Hgc.
    unfold cl_ptr_vector_set_capacity.
    destruct (Nat.leb_spec (grown_capacity (vec_grow_size v) size) (vec_capacity v)) as [Hc|Hc].
    + unfold with_size. destruct (Hpad (vec_capacity v)) as [Hw Hl]; [lia|lia|].
      rewrite Nat.sub_diag, app_nil_r in Hw, Hl. by split_and!.
    + destruct alloc; simpl; [|split_and!; auto].
      unfold with_size. simpl. rewrite take_ge by lia.
      destruct (Hpad (grown_capacity (vec_grow_size v) size)) as [Hw Hl]; [lia|lia|].
      by split_and!.
  - unfold with_size. destruct (Hpad (vec_capacity v)) as [Hw Hl]; [lia|lia|].
    rewrite Nat.sub_diag, app_nil_r in Hw, Hl. by split_and!.
Qed.

Lemma write_cell_wf v index x :
  vec_wf v → index < vec_size v →
  ∃ v', write_cell v index x = Some v' ∧ vec_wf v' ∧ vec_size v' = vec_size v
    ∧ vec_list v' = <[index := x]> (vec_list v).
Proof.
  intros Hwf Hi. pose proof Hwf as [H1 H2 H3]. unfold write_cell.
  destruct (Nat.ltb_spec index (length (p_ptr_array v))); [|lia].
  eexists. split; [done|].
  assert (Hl : vec_list (PtrVec (vec_size v) (vec_grow_size v) (vec_capacity v)
      (<[index := x]> (p_ptr_array v))) = <[index := x]> (vec_list v)).
  { unfold vec_list. simpl. by rewrite take_insert_lt. }
  split_and!; [|done|done]. split; simpl; [by rewrite length_insert|done|].
  rewrite Hl. rewrite H3 at 1. rewrite insert_app_l by (by rewrite vec_list_length).
  done.
Qed.

(** [cl_ptr_vector_set] implements the list specification: with memory and
    a growth step, it stores the pointer at any index, the vector grows to hold
    the index, the cells in between are null, every other cell keeps its
    pointer, and the representation invariant is kept. *)
Theorem cl_ptr_vector_set_refines v index x :
  vec_wf v → 0 < vec_grow_size v →
  ∃ v', cl_ptr_vector_set v index x true = Some (CL_SUCCESS, v')
    ∧ vec_wf v' ∧ vec_list v' = vec_set (vec_list v) index x.
Proof.
  intros Hwf Hg. unfold cl_ptr_vector_set, vec_set.
  rewrite vec_list_length by done. destruct (Nat.leb_spec (vec_size v) index) as [Hle|Hlt].
  - pose proof (set_size_grows v (index + 1) true Hwf ltac:(lia)) as Hs.
    destruct (cl_ptr_vector_set_size v (index + 1) true) as [st v'].
    assert (st = CL_SUCCESS) as ->.
    { destruct st; [done| |]; destruct Hs as (_ & _ & _ & [?|?]); by try lia. }
    destruct Hs as (Hwf' & Hsize & _ & Hl).
    destruct (write_cell_wf v' index x Hwf') as (v'' & Hw & Hwf'' & _ & Hl''); [lia|].
    exists v''. rewrite Hw. rewrite Hl'', Hl. by split_and!.
  - destruct (write_cell_wf v index x Hwf Hlt) as (v' & Hw & Hwf' & _ & Hl').
    exists v'. rewrite Hw, Hl'. replace (index + 1 - vec_size v) with 0 by lia.
    by rewrite app_nil_r.
Qed.

(** When [cl_ptr_vector_set] writes outside its array: exactly when the
    vector is full, the index is its size, and it cannot grow, because its growth
    step is 0 or the allocation fails.  The check for failure compares the size
    with the index by [<] where the index is not covered by [<=]. *)
Theorem cl_ptr_vector_set_overrun v index x alloc :
  vec_wf v →
  cl_ptr_vector_set v index x alloc = None
  ↔ index = vec_size v ∧ vec_size v = vec_capacity v ∧ (vec_grow_size v = 0 ∨ alloc = false).
Proof.
  intros Hwf. pose proof Hwf as [H1 H2 _]. unfold cl_ptr_vector_set.
  destruct (Nat.leb_spec (vec_size v) index) as [Hle|Hlt].
  2:{ destruct (write_cell_wf v index x Hwf Hlt) as (v' & -> & _). split; [done|lia]. }
  pose proof (set_size_grows v (index + 1) alloc Hwf ltac:(lia)) as Hs.
  destruct (cl_ptr_vector_set_size v (index + 1) alloc) as [st v'] eqn:E.
  destruct (decide (st = CL_SUCCESS)) as [->|Hst].
  - destruct Hs as (Hwf' & Hsize & _ & _). simpl.
    destruct (write_cell_wf v' index x Hwf') as (v'' & -> & _); [lia|]. simpl.
    split; [done|]. intros (-> & Hc & Hno). exfalso. revert E.
    unfold cl_ptr_vector_set_size.
    destruct (Nat.eqb_spec (vec_size v + 1) (vec_size v)); [lia|].
    destruct (Nat.leb_spec (vec_capacity v) (vec_size v + 1)); [|lia].
    destruct (Nat.eqb_spec (vec_grow_size v) 0); [done|].
    destruct Hno as [?|Halloc]; [done|subst alloc]. unfold cl_ptr_vector_set_capacity.
    pose proof (grown_capacity_ge (vec_grow_size v) (vec_size v + 1) ltac:(lia)).
    by destruct (Nat.leb_spec (grown_capacity (vec_grow_size v) (vec_size v + 1))
      (vec_capacity v)); [lia|].
  - assert (v' = v ∧ vec_capacity v ≤ index + 1
      ∧ (vec_grow_size v = 0 ∨ alloc = false)) as (-> & Hc & Hno).
    { destruct st; [done|..]; destruct Hs as (-> & ? & _ & ?); by split_and!. }
    rewrite bool_decide_true by done. simpl. unfold write_cell.
    destruct (Nat.ltb_spec (vec_size v) index), (Nat.ltb_spec index (length (p_ptr_array v)));
      simpl; split; try done; try lia.
    intros _. split_and!; [lia|lia|done].
Qed.

(** *** Removal *)

Lemma shift_down_spec arr src n :
  src + n < length arr →
  shift_down arr src n = take src arr ++ take n (drop (src + 1) arr) ++ drop (src + n) arr.
Proof.
  revert arr src. induction n as [|n IH]; intros arr src Hlt; simpl.
  { by rewrite Nat.add_0_r, take_drop. }
  rewrite IH by (rewrite length_insert; lia).
  rewrite (drop_insert_lt _ (src + 1 + 1)), (drop_insert_lt _ (src + 1 + n)) by lia.
  replace (src + 1 + n) with (src + S n) by lia.
  rewrite (drop_S arr (arr !!! (src + 1)) (src + 1)) by (apply lookup_total_lt; lia).
  replace (S (src + 1)) with (src + 1 + 1) by lia.
  rewrite firstn_cons. rewrite !(Nat.add_1_r src).
  rewrite (take_S_r _ src (arr !!! (S src))) by (apply list_lookup_insert_eq; lia).
  by rewrite take_insert_ge, <-app_assoc by lia.
Qed.

(** [cl_ptr_vector_remove] of an index inside the vector returns its
    pointer, removes exactly that cell from the list, and keeps the invariant. *)
Theorem cl_ptr_vector_remove_ok v index :
  vec_wf v → index < vec_size v →
  let r := cl_ptr_vector_remove v index in
  vec_list v !! index = Some r.1
  ∧ vec_list r.2 = delete index (vec_list v)
  ∧ vec_wf r.2.
Proof.
  intros Hwf Hi. pose proof Hwf as [H1 H2 H3]. pose proof (vec_list_length v Hwf) as Hlen.
  simpl. split.
  { unfold vec_list. rewrite lookup_take_lt by lia. apply lookup_total_lt. lia. }
  assert (Harr : ∀ m, m = vec_size v - 1 →
    (if index <? m then shift_down (p_ptr_array v) index (m - index) else p_ptr_array v)
    = delete index (vec_list v)
      ++ (p_ptr_array v !!! m) :: replicate (vec_capacity v - vec_size v) None).
  { intros m ->.
    transitivity (shift_down (p_ptr_array v) index (vec_size v - 1 - index)).
    { destruct (Nat.ltb_spec index (vec_size v - 1)); [done|].
      by replace (vec_size v - 1 - index) with 0 by lia. }
    rewrite shift_down_spec by lia.
    replace (index + (vec_size v - 1 - index)) with (vec_size v - 1) by lia.
    rewrite delete_take_drop, <-app_assoc. f_equal; [|f_equal].
    - rewrite H3, take_app_le by lia. done.
    - rewrite H3, drop_app_le, take_app_le, take_ge by (rewrite ?length_drop; lia).
      f_equal. lia.
    - rewrite (drop_S _ (p_ptr_array v !!! (vec_size v - 1))) by (apply lookup_total_lt; lia).
      f_equal. rewrite H3. replace (S (vec_size v - 1)) with (length (vec_list v)) by lia.
      apply drop_app_length. }
  assert (Hdel : length (delete index (vec_list v)) = vec_size v - 1).
  { rewrite length_delete; [lia|]. apply lookup_lt_is_Some_2. lia. }
  rewrite Harr by done. clear Harr.
  rewrite !insert_app_r_alt by lia. rewrite !Hdel, !Nat.sub_diag. simpl.
  assert (Hl : vec_list (PtrVec (vec_size v - 1) (vec_grow_size v) (vec_capacity v)
      (delete index (vec_list v) ++ None :: replicate (vec_capacity v - vec_size v) None))
    = delete index (vec_list v)).
  { unfold vec_list at 1. simpl. rewrite <-Hdel at 1. apply take_app_length. }
  split; [done|]. split; simpl; [|lia|].
  - rewrite length_app, length_cons, length_replicate. lia.
  - rewrite Hl. do 1 f_equal.
    replace (vec_capacity v - (vec_size v - 1)) with (S (vec_capacity v - vec_size v)) by lia.
    done.
Qed.

(** *** Searches *)

Lemma find_up_spec arr f i n :
  let r := find_up arr f i n in
  i ≤ r ≤ i + n ∧ (∀ j, i ≤ j < r → f j (arr !!! j) = false)
  ∧ (r < i + n → f r (arr !!! r) = true).
Proof.
  revert i. induction n as [|n IH]; intros i; simpl.
  { split_and!; [lia..|]. intros; lia. }
  destruct (f i (arr !!! i)) eqn:E.
  { split_and!; [lia|lia| |done]. intros; lia. }
  destruct (IH (i + 1)) as (H1 & H2 & H3). split_and!; [lia|lia| |].
  - intros j Hj. destruct (decide (j = i)) as [->|]; [done|]. apply H2. lia.
  - intros Hr. apply H3. lia.
Qed.

Lemma find_down_spec arr f size i :
  i ≤ size →
  let r := find_down arr f size i in
  (r = size ∨ r < i) ∧ (∀ j, (r = size ∨ r < j) → j < i → f j (arr !!! j) = false)
  ∧ (r < i → f r (arr !!! r) = true).
Proof.
  induction i as [|i IH]; intros Hi; simpl.
  { split_and!; [by left|lia..]. }
  destruct (f i (arr !!! i)) eqn:E.
  { split_and!; [lia| |done]. intros j [?|?] ?; lia. }
  destruct (IH ltac:(lia)) as (H1 & H2 & H3). split_and!; [lia| |].
  - intros j Hj Hlt. destruct (decide (j = i)) as [->|]; [done|]. apply H2; [done|lia].
  - intros Hr. apply H3. lia.
Qed.

(** [cl_ptr_vector_find_from_start] and [cl_ptr_vector_find_from_end] give the
    first and the last index whose callback succeeds, or the size. *)
Theorem cl_ptr_vector_find_spec v f :
  let cb i := f i (p_ptr_array v !!! i) in
  let first := cl_ptr_vector_find_from_start v f in
  let last := cl_ptr_vector_find_from_end v f in
  (first = vec_size v ∨ first < vec_size v ∧ cb first = true)
  ∧ (∀ j, j < first → cb j = false)
  ∧ (last = vec_size v ∨ last < vec_size v ∧ cb last = true)
  ∧ (∀ j, last = vec_size v ∨ last < j → j < vec_size v → cb j = false).
Proof.
  simpl. unfold cl_ptr_vector_find_from_start, cl_ptr_vector_find_from_end.
  destruct (find_up_spec (p_ptr_array v) f 0 (vec_size v)) as (H1 & H2 & H3).
  destruct (find_down_spec (p_ptr_array v) f (vec_size v) (vec_size v) ltac:(lia))
    as (H4 & H5 & H6).
  split_and!; [|intros j Hj; apply H2; lia| |done].
  - destruct (decide (find_up (p_ptr_array v) f 0 (vec_size v) = vec_size v)); [by left|].
    right. split; [lia|]. apply H3. lia.
  - destruct H4 as [|H4]; [by left|]. right. auto.
Qed.

(** The list specification read cell by cell. *)
Lemma vec_set_lookup_eq (l : list (option A)) i x : vec_set l i x !! i = Some x.
Proof.
  unfold vec_set. apply list_lookup_insert_eq. rewrite length_app, length_replicate. lia.
Qed.

Lemma vec_set_lookup_ne (l : list (option A)) i j x :
  i ≠ j → mjoin (vec_set l i x !! j) = mjoin (l !! j).
Proof.
  intros Hne. unfold vec_set. rewrite list_lookup_insert_ne by done.
  destruct (decide (j < length l)) as [Hj|Hj]; [by rewrite lookup_app_l|].
  rewrite lookup_app_r by lia. rewrite (lookup_ge_None_2 l) by lia.
  destruct (replicate _ _ !! _) as [y|] eqn:E; [|done].
  by apply lookup_replicate in E as [-> _].
Qed.

Lemma vec_set_length (l : list (option A)) i x :
  length (vec_set l i x) = length l `max` (i + 1).
Proof. unfold vec_set. rewrite length_insert, length_app, length_replicate. lia. Qed.
End PtrVector.

(** ** Witnesses *)

(** A full vector of four cells that grows by four, and one that cannot grow. *)
Definition demo_vec : cl_ptr_vector Z :=
  PtrVec 4 4 4 [Some 10%Z; None; Some 12%Z; Some 13%Z].
Definition demo_fixed : cl_ptr_vector Z := PtrVec 1 0 1 [Some 10%Z].

Lemma demo_vec_wf : vec_wf demo_vec.
Proof. split; [reflexivity|simpl; lia|reflexivity]. Qed.

Lemma demo_fixed_wf : vec_wf demo_fixed.
Proof. split; [reflexivity|simpl; lia|reflexivity]. Qed.

Lemma cl_ptr_vector_set_refines_witness :
  ∃ v', cl_ptr_vector_set demo_vec 6 (Some 16%Z) true = Some (CL_SUCCESS, v')
    ∧ vec_list v' = [Some 10%Z; None; Some 12%Z; Some 13%Z; None; None; Some 16%Z].
Proof.
  destruct (cl_ptr_vector_set_refines demo_vec 6 (Some 16%Z) demo_vec_wf) as (v' & H1 & _ & H2).
  - simpl. lia.
  - exists v'. split; [exact H1|exact H2].
Defined.

Lemma cl_ptr_vector_set_overrun_witness :
  cl_ptr_vector_set demo_fixed 1 (Some 11%Z) true = None.
Proof.
  apply (cl_ptr_vector_set_overrun demo_fixed 1 (Some 11%Z) true demo_fixed_wf).
  split; [reflexivity|]. split; [reflexivity|]. left. reflexivity.
Defined.

Lemma cl_ptr_vector_remove_ok_witness :
  vec_list (cl_ptr_vector_remove demo_vec 0).2 = [None; Some 12%Z; Some 13%Z].
Proof.
  destruct (cl_ptr_vector_remove_ok demo_vec 0 demo_vec_wf) as (_ & H & _); [simpl; lia|].
  exact H.
Defined.
