(* ===== verification/IbTypes.v ===== *)
(** * Byte order and the wire types of [include/iba/ib_types.h]

    Network-order fields ([ib_net16_t], [ib_net64_t], ...) are kept as the code
    keeps them: as the integer the host sees.  Which integer that is depends on
    the host, so every definition that converts takes a [ByteOrder] instance,
    and the theorems hold for both. *)

From S2P Require Import Prelude.

Open Scope Z_scope.

(** The values of [ib_api_status_t] the code returns. *)
Inductive ib_api_status := IB_SUCCESS | IB_INSUFFICIENT_RESOURCES | IB_INVALID_PARAMETER
  | IB_ERROR.

#[export] Instance ib_api_status_eq_dec : EqDecision ib_api_status.
Proof. solve_decision. Defined.

(** [CPU_LE] of [include/complib/cl_byteswap.h]. *)
Class ByteOrder := cpu_le : bool.

Section ByteSwap.
Context {BO : ByteOrder}.

(** [CL_NTOH16], [CL_NTOH32], [CL_NTOH64]; [cl_hton*] are the same macros. *)
Definition cl_ntoh16 (x : Z) : Z :=
  if cpu_le
  then Z.lor (Z.shiftl (Z.land x 0x00FF) 8) (Z.shiftr (Z.land x 0xFF00) 8)
  else x.

Definition cl_ntoh32 (x : Z) : Z :=
  if cpu_le
  then Z.lor (Z.shiftl (Z.land x 0x000000FF) 24)
       (Z.lor (Z.shiftl (Z.land x 0x0000FF00) 8)
       (Z.lor (Z.shiftr (Z.land x 0x00FF0000) 8)
              (Z.shiftr (Z.land x 0xFF000000) 24)))
  else x.

Definition cl_ntoh64 (x : Z) : Z :=
  if cpu_le
  then Z.lor (Z.shiftl (Z.land x 0x00000000000000FF) 56)
       (Z.lor (Z.shiftl (Z.land x 0x000000000000FF00) 40)
       (Z.lor (Z.shiftl (Z.land x 0x0000000000FF0000) 24)
       (Z.lor (Z.shiftl (Z.land x 0x00000000FF000000) 8)
       (Z.lor (Z.shiftr (Z.land x 0x000000FF00000000) 8)
       (Z.lor (Z.shiftr (Z.land x 0x0000FF0000000000) 24)
       (Z.lor (Z.shiftr (Z.land x 0x00FF000000000000) 40)
              (Z.shiftr (Z.land x 0xFF00000000000000) 56)))))))
  else x.

Definition cl_hton16 : Z → Z := cl_ntoh16.
Definition cl_hton32 : Z → Z := cl_ntoh32.
Definition cl_hton64 : Z → Z := cl_ntoh64.

(** *** Bits of a swapped word *)

(** The byte at bit position [p] of [x], moved to bit position [q]. *)
Definition byte_move (x p q : Z) : Z :=
  if q <? p then Z.shiftr (Z.land x (Z.shiftl 255 p)) (p - q)
  else Z.shiftl (Z.land x (Z.shiftl 255 p)) (q - p).

Lemma byte_move_testbit x p q i :
  0 ≤ p → 0 ≤ q → 0 ≤ i →
  Z.testbit (byte_move x p q) i
  = (q <=? i) && (i <? q + 8) && Z.testbit x (i - q + p).
Proof.
  intros Hp Hq Hi. unfold byte_move.
  assert (H255 : ∀ j, Z.testbit 255 j = (0 <=? j) && (j <? 8)).
  { intros j. destruct (Z.ltb_spec j 0) as [Hj|Hj].
    { rewrite Z.testbit_neg_r by done. destruct (Z.leb_spec 0 j); [lia|done]. }
    change 255 with (Z.ones 8). rewrite Z.testbit_ones by lia. done. }
  destruct (Z.ltb_spec q p).
  - rewrite Z.shiftr_spec, Z.land_spec, Z.shiftl_spec by lia.
    rewrite H255. replace (i + (p - q)) with (i - q + p) by lia.
    rewrite andb_comm. f_equal. lia.
  - destruct (Z.ltb_spec (i - (q - p)) 0) as [Hn|Hn].
    { rewrite Z.shiftl_spec by lia. rewrite Z.testbit_neg_r by lia.
      destruct (Z.leb_spec q i); [lia|done]. }
    rewrite Z.shiftl_spec, Z.land_spec, Z.shiftl_spec by lia.
    rewrite H255. replace (i - (q - p)) with (i - q + p) by lia.
    rewrite andb_comm. f_equal. lia.
Qed.

Lemma Zbounds_incl x a b : 0 ≤ x < a → a ≤ b → 0 ≤ x < b.
Proof. lia. Qed.

Lemma cl_ntoh16_testbit x k r :
  cpu_le = true → 0 ≤ k < 2 → 0 ≤ r < 8 →
  Z.testbit (cl_ntoh16 x) (8 * k + r) = Z.testbit x (8 * (1 - k) + r).
Proof.
  intros LE Hk Hr. unfold cl_ntoh16. rewrite LE.
  change (Z.testbit (Z.lor (byte_move x 0 8) (byte_move x 8 0)) (8 * k + r)
          = Z.testbit x (8 * (1 - k) + r)).
  rewrite !Z.lor_spec, !byte_move_testbit by lia.
  assert (k = 0 ∨ k = 1) as [-> | ->] by lia; decide_cmps; simpl;
    rewrite ?orb_false_r; f_equal; lia.
Qed.

Lemma cl_ntoh64_testbit x k r :
  cpu_le = true → 0 ≤ k < 8 → 0 ≤ r < 8 →
  Z.testbit (cl_ntoh64 x) (8 * k + r) = Z.testbit x (8 * (7 - k) + r).
Proof.
  intros LE Hk Hr. unfold cl_ntoh64. rewrite LE.
  change (Z.testbit (Z.lor (byte_move x 0 56) (Z.lor (byte_move x 8 48)
    (Z.lor (byte_move x 16 40) (Z.lor (byte_move x 24 32) (Z.lor (byte_move x 32 24)
    (Z.lor (byte_move x 40 16) (Z.lor (byte_move x 48 8) (byte_move x 56 0)))))))) (8 * k + r)
    = Z.testbit x (8 * (7 - k) + r)).
  rewrite !Z.lor_spec, !byte_move_testbit by lia.
  assert (k = 0 ∨ k = 1 ∨ k = 2 ∨ k = 3 ∨ k = 4 ∨ k = 5 ∨ k = 6 ∨ k = 7) as Hc by lia.
  destruct_or! Hc; subst k; decide_cmps; simpl; rewrite ?orb_false_r; f_equal; lia.
Qed.

(** *** Swapping is an involution on words *)

Lemma testbit_above n x i : 0 ≤ x < 2 ^ n → n ≤ i → Z.testbit x i = false.
Proof.
  intros Hx Hi. destruct (decide (n < 0)) as [Hn|Hn].
  { rewrite Z.pow_neg_r in Hx by done. lia. }
  apply (Z.testbit_false x i); [lia|]. rewrite Z.div_small; [done|].
  split; [lia|]. eapply Z.lt_le_trans; [apply Hx|]. apply Z.pow_le_mono_r; lia.
Qed.

Lemma ntoh_range n x :
  0 ≤ n → (∀ i, n ≤ i → Z.testbit x i = false) → 0 ≤ x → 0 ≤ x < 2 ^ n.
Proof.
  intros Hn Hb Hx. split; [done|].
  assert (x = Z.land x (Z.ones n)) as ->.
  { apply Z.bits_inj'. intros i Hi. rewrite Z.land_spec.
    destruct (decide (n ≤ i)) as [H|H]; [by rewrite Hb|].
    rewrite Z.testbit_ones_nonneg by lia. destruct (Z.ltb_spec i n); [by rewrite andb_true_r|lia]. }
  rewrite Z.land_ones by done. apply Z.mod_pos_bound. lia.
Qed.

Lemma bits_eq n x y :
  0 ≤ x < 2 ^ n → 0 ≤ y < 2 ^ n →
  (∀ i, 0 ≤ i < n → Z.testbit x i = Z.testbit y i) → x = y.
Proof.
  intros Hx Hy Hb. apply Z.bits_inj'. intros i Hi.
  destruct (decide (n ≤ i)); [by rewrite !(testbit_above n)|apply Hb; lia].
Qed.

Lemma byte_index n i : 0 ≤ i < 8 * n → ∃ k r, i = 8 * k + r ∧ 0 ≤ k < n ∧ 0 ≤ r < 8.
Proof. intros Hi. exists (i / 8), (i mod 8). split_and!; Z.to_euclidean_division_equations; lia. Qed.

Lemma byte_move_range x p q : 0 ≤ p → 0 ≤ q → 0 ≤ byte_move x p q < 2 ^ (q + 8).
Proof.
  intros Hp Hq. apply ntoh_range; [lia| |].
  - intros i Hi. rewrite byte_move_testbit by lia. decide_cmps. by rewrite andb_false_r.
  - unfold byte_move. case_match; [apply Z.shiftr_nonneg|apply Z.shiftl_nonneg];
      apply Z.land_nonneg; right; apply Z.shiftl_nonneg; lia.
Qed.

Lemma lor_range n x y : 0 ≤ x < 2 ^ n → 0 ≤ y < 2 ^ n → 0 ≤ Z.lor x y < 2 ^ n.
Proof.
  intros Hx Hy. destruct (decide (n < 0)) as [Hn|Hn].
  { rewrite Z.pow_neg_r in * by done. lia. }
  apply ntoh_range; [lia| |apply Z.lor_nonneg; lia].
  intros i Hi. rewrite Z.lor_spec, !(testbit_above n) by done. done.
Qed.

Lemma cl_ntoh16_range x : 0 ≤ x < 2 ^ 16 → 0 ≤ cl_ntoh16 x < 2 ^ 16.
Proof.
  intros Hx. unfold cl_ntoh16. destruct cpu_le; [|done].
  apply (lor_range 16 (byte_move x 0 8) (byte_move x 8 0));
    (eapply Zbounds_incl; [apply byte_move_range; lia|lia]).
Qed.

Lemma cl_ntoh64_range x : 0 ≤ x < 2 ^ 64 → 0 ≤ cl_ntoh64 x < 2 ^ 64.
Proof.
  intros Hx. unfold cl_ntoh64. destruct cpu_le; [|done].
  assert (HB : ∀ p q, 0 ≤ p → 0 ≤ q ≤ 56 → 0 ≤ byte_move x p q < 2 ^ 64).
  { intros p q Hp Hq. eapply Zbounds_incl; [apply byte_move_range; lia|].
    apply Z.pow_le_mono_r; lia. }
  repeat apply lor_range;
    [apply (HB 0 56)|apply (HB 8 48)|apply (HB 16 40)|apply (HB 24 32)
    |apply (HB 32 24)|apply (HB 40 16)|apply (HB 48 8)|apply (HB 56 0)]; lia.
Qed.

Lemma cl_ntoh16_involutive x : 0 ≤ x < 2 ^ 16 → cl_ntoh16 (cl_ntoh16 x) = x.
Proof.
  intros Hx. destruct cpu_le as [] eqn:LE; [|unfold cl_ntoh16; by rewrite LE].
  apply (bits_eq 16); auto using cl_ntoh16_range. intros i Hi.
  destruct (byte_index 2 i Hi) as (k & r & -> & Hk & Hr).
  rewrite !cl_ntoh16_testbit by (done || lia). f_equal. lia.
Qed.

Lemma cl_ntoh64_involutive x : 0 ≤ x < 2 ^ 64 → cl_ntoh64 (cl_ntoh64 x) = x.
Proof.
  intros Hx. destruct cpu_le as [] eqn:LE; [|unfold cl_ntoh64; by rewrite LE].
  apply (bits_eq 64); auto using cl_ntoh64_range. intros i Hi.
  destruct (byte_index 8 i Hi) as (k & r & -> & Hk & Hr).
  rewrite !cl_ntoh64_testbit by (done || lia). f_equal. lia.
Qed.

Lemma cl_ntoh64_inj x y :
  0 ≤ x < 2 ^ 64 → 0 ≤ y < 2 ^ 64 → cl_ntoh64 x = cl_ntoh64 y → x = y.
Proof.
  intros Hx Hy E. rewrite <-(cl_ntoh64_involutive x), <-(cl_ntoh64_involutive y) by done.
  by rewrite E.
Qed.

(** ** SMInfo ([ib_sm_info_t]) *)

Definition IB_SMINFO_STATE_NOTACTIVE : Z := 0.
Definition IB_SMINFO_STATE_DISCOVERING : Z := 1.
Definition IB_SMINFO_STATE_STANDBY : Z := 2.
Definition IB_SMINFO_STATE_MASTER : Z := 3.

Definition IB_SMINFO_ATTR_MOD_HANDOVER : Z := cl_hton32 0x000001.
Definition IB_SMINFO_ATTR_MOD_ACKNOWLEDGE : Z := cl_hton32 0x000002.
Definition IB_SMINFO_ATTR_MOD_DISABLE : Z := cl_hton32 0x000003.
Definition IB_SMINFO_ATTR_MOD_STANDBY : Z := cl_hton32 0x000004.
Definition IB_SMINFO_ATTR_MOD_DISCOVER : Z := cl_hton32 0x000005.

Record ib_sm_info := SmInfo {
  smi_guid : Z;       (* ib_net64_t guid *)
  smi_sm_key : Z;     (* ib_net64_t sm_key *)
  smi_act_count : Z;  (* ib_net32_t act_count *)
  smi_pri_state : Z   (* uint8_t pri_state *)
}.

Definition ib_sminfo_get_priority (smi : ib_sm_info) : Z :=
  Z.shiftr (Z.land (smi_pri_state smi) 0xF0) 4.

Definition ib_sminfo_get_state (smi : ib_sm_info) : Z :=
  Z.land (smi_pri_state smi) 0x0F.

(** ** SMP ([ib_smp_t]): the fields the SMInfo handlers read *)

Definition IB_MAD_METHOD_RESP_MASK : Z := 0x80.
Definition IB_MAD_METHOD_GET : Z := 0x01.
Definition IB_MAD_METHOD_SET : Z := 0x02.
Definition IB_MAD_METHOD_GET_RESP : Z := 0x81.
Definition IB_MAD_METHOD_TRAP : Z := 0x05.
Definition IB_MAD_METHOD_TRAP_REPRESS : Z := 0x07.
Definition IB_SMP_STATUS_MASK : Z := cl_hton16 0x7FFF.
Definition IB_SMP_DIRECTION : Z := cl_hton16 0x8000.
Definition IB_MCLASS_SUBN_DIR : Z := 0x81.

Record ib_smp := Smp {
  smp_mgmt_class : Z;  (* uint8_t mgmt_class *)
  smp_method : Z;    (* uint8_t method *)
  smp_status : Z;    (* ib_net16_t status *)
  smp_attr_mod : Z;  (* ib_net32_t attr_mod *)
  smp_m_key : Z;     (* ib_net64_t m_key *)
  smp_payload : ib_sm_info
}.

Definition ib_smp_get_status (smp : ib_smp) : Z :=
  Z.land (smp_status smp) IB_SMP_STATUS_MASK.

(** Through [ib_mad_is_response]: the response bit, or a trap repress. *)
Definition ib_smp_is_response (smp : ib_smp) : bool :=
  negb (Z.land (smp_method smp) IB_MAD_METHOD_RESP_MASK =? 0)
  || (smp_method smp =? IB_MAD_METHOD_TRAP_REPRESS).

(** ** P_Keys *)

Definition IB_PKEY_BASE_MASK : Z := cl_hton16 0x7FFF.
Definition IB_PKEY_TYPE_MASK : Z := cl_hton16 0x8000.

Definition ib_pkey_get_base (pkey : Z) : Z := Z.land pkey IB_PKEY_BASE_MASK.

Definition ib_pkey_is_full_member (pkey : Z) : bool :=
  Z.land pkey IB_PKEY_TYPE_MASK =? IB_PKEY_TYPE_MASK.

Definition ib_pkey_is_invalid (pkey : Z) : bool := ib_pkey_get_base pkey =? 0.
End ByteSwap.
