(* ===== verification/SmState.v ===== *)
(** * The SM state machine of [opensm/osm_sm_state_mgr.c]

    Every entry point of the file is a handler on the SM object: [osm_sm_t] and
    the fields of [osm_subn_t] the state machine writes.  What a handler does to
    the outside is its list of outputs: a state report, a MAD handed to
    [osm_vl15_post], the polling timer, a wake-up of the sweeper.  The two locks
    only make each handler atomic with respect to the others, which is how the
    step relation at the end of [SmInfo.v] uses them. *)

From S2P Require Import Prelude IbTypes.

Open Scope Z_scope.

(** ** Data *)

(** The state the handlers read and write: fields of [osm_sm_t]
    ([retry_number], [polling_sm_guid], [master_sm_guid], [master_sm_found]) and
    of [osm_subn_t] (the others). *)
Record osm_sm := OsmSm {
  sm_state : Z;
  retry_number : Z;
  polling_sm_guid : Z;
  master_sm_guid : Z;
  master_sm_found : bool;
  sm_base_lid : Z;
  master_sm_base_lid : Z;
  first_time_master_sweep : bool;
  force_first_time_master_sweep : bool;
  coming_out_of_standby : bool;
  ignore_existing_lfts : bool;
  force_heavy_sweep : bool;
  sm_guid_tbl : gmap Z ib_sm_info
}.

#[export] Instance osm_sm_eta : Eta osm_sm := λ s,
  OsmSm (sm_state s) (retry_number s) (polling_sm_guid s) (master_sm_guid s)
    (master_sm_found s) (sm_base_lid s) (master_sm_base_lid s)
    (first_time_master_sweep s) (force_first_time_master_sweep s)
    (coming_out_of_standby s) (ignore_existing_lfts s) (force_heavy_sweep s)
    (sm_guid_tbl s).

(** A port of [port_guid_tbl]: its GUID and, when [p_physp] is set, the M_Key
    and [mkey_lmc] of its PortInfo. *)
Record osm_port := OsmPort { port_guid : Z; port_physp : option (Z * Z) }.

(** What the handlers read and never write: options, the port table, the exit
    flag, the count of sent MADs and whether the MAD pool has a MAD left. *)
Record sm_env := SmEnv {
  sm_port_guid : Z;
  opt_sminfo_polling_timeout : Z;
  opt_polling_retry_number : Z;
  opt_sm_priority : Z;
  opt_sm_key : Z;
  opt_sm_inactive : bool;
  port_guid_tbl : gmap Z osm_port;
  osm_exit_flag : bool;
  qp0_mads_sent : Z;
  mad_pool_available : bool;
  opt_m_key_lookup : bool;
  opt_m_key : Z
}.

(** The MADs these files post, with the fields the code fills in. *)
Inductive sm_mad :=
  | MadGetSMInfo (port_guid m_key : Z)         (* osm_req_get, SM_INFO *)
  | MadSetSMInfo (port_guid attr_mod m_key : Z) (smi : ib_sm_info)  (* osm_req_set, SM_INFO *)
  | MadResponse (smp : ib_smp)                 (* osm_resp_send *)
  | MadTrap144 (master_guid change_flgs : Z).  (* osm_send_trap144 *)

Inductive sm_output :=
  | OutReport (state : Z)       (* osm_report_sm_state *)
  | OutPost (m : sm_mad)        (* osm_vl15_post *)
  | OutTimer (timeout : Z)      (* cl_timer_start(&sm->polling_timer) *)
  | OutSweep                    (* osm_sm_signal(sm, OSM_SIGNAL_SWEEP) *)
  | OutSubnetUp.                (* cl_event_signal(&sm->subnet_up_event) *)

(** [osm_sm_signal_t] *)
Inductive osm_sm_signal :=
  | OSM_SM_SIGNAL_NONE
  | OSM_SM_SIGNAL_DISCOVERY_COMPLETED
  | OSM_SM_SIGNAL_POLLING_TIMEOUT
  | OSM_SM_SIGNAL_DISCOVER
  | OSM_SM_SIGNAL_DISABLE
  | OSM_SM_SIGNAL_HANDOVER
  | OSM_SM_SIGNAL_HANDOVER_SENT
  | OSM_SM_SIGNAL_ACKNOWLEDGE
  | OSM_SM_SIGNAL_STANDBY
  | OSM_SM_SIGNAL_MASTER_OR_HIGHER_SM_DETECTED
  | OSM_SM_SIGNAL_WAIT_FOR_HANDOVER.

#[export] Instance osm_sm_signal_eq_dec : EqDecision osm_sm_signal.
Proof. solve_decision. Defined.

Abbreviation Sm := (Act osm_sm sm_output).

Section StateMachine.
Context {BO : ByteOrder} (env : sm_env).

(** ** Sending *)

Definition osm_get_port_by_guid (guid : Z) : option osm_port := port_guid_tbl env !! guid.

(** The M_Key of a request whose caller gives one ([find_mkey] is false). *)
Definition req_m_key (m_key : Z) : Z :=
  if opt_m_key_lookup env then m_key else opt_m_key env.

(** [osm_req_get] for the SMInfo attribute with the caller's M_Key: nothing is
    sent, with success, when the program is exiting; it fails when the pool is
    empty. *)
Definition osm_req_get (guid m_key : Z) : Sm ib_api_status :=
  if osm_exit_flag env then mret IB_SUCCESS
  else if negb (mad_pool_available env) then mret IB_INSUFFICIENT_RESOURCES
  else emit (OutPost (MadGetSMInfo guid (req_m_key m_key)));; mret IB_SUCCESS.

(** Returns whether a request was sent. *)
Definition sm_state_mgr_send_master_sm_info_req (state : Z) : Sm bool :=
  guid ← gets (if state =? IB_SMINFO_STATE_STANDBY then master_sm_guid else polling_sm_guid);
  if guid =? sm_port_guid env then mret false
  else match osm_get_port_by_guid guid with
  | None => mret false
  | Some p_port =>
      status ← osm_req_get guid (default 0 (fst <$> port_physp p_port));
      mret (bool_decide (status = IB_SUCCESS))
  end.

Definition osm_report_sm_state : Sm unit :=
  st ← gets sm_state; emit (OutReport st).

Definition set_state (st : Z) : Sm unit :=
  modify (λ s, s <| sm_state := st |>);; osm_report_sm_state.

Definition sm_state_mgr_start_polling : Sm unit :=
  modify (λ s, s <| retry_number := 0 |>);;
  st ← gets sm_state;
  sm_state_mgr_send_master_sm_info_req st;;
  emit (OutTimer (opt_sminfo_polling_timeout env)).

Definition osm_sm_state_mgr_signal_master_is_alive : Sm unit :=
  modify (λ s, s <| retry_number := 0 |>).

(** ** The transition function *)

(** [sm_state_mgr_signal_error] logs; the status is the caller's. *)
Definition signal_error : Sm ib_api_status := mret IB_INVALID_PARAMETER.

Definition process_discovering (signal : osm_sm_signal) : Sm ib_api_status :=
  match signal with
  | OSM_SM_SIGNAL_DISCOVERY_COMPLETED =>
      set_state IB_SMINFO_STATE_MASTER;;
      modify (λ s, s <| first_time_master_sweep := true |>
                     <| master_sm_base_lid := sm_base_lid s |>);;
      mret IB_SUCCESS
  | OSM_SM_SIGNAL_MASTER_OR_HIGHER_SM_DETECTED =>
      set_state IB_SMINFO_STATE_STANDBY;;
      modify (λ s, s <| ignore_existing_lfts := false |>);;
      sm_state_mgr_start_polling;;
      mret IB_SUCCESS
  | OSM_SM_SIGNAL_HANDOVER => emit OutSweep;; mret IB_SUCCESS
  | _ => signal_error
  end.

Definition process_standby (signal : osm_sm_signal) : Sm ib_api_status :=
  match signal with
  | OSM_SM_SIGNAL_POLLING_TIMEOUT | OSM_SM_SIGNAL_DISCOVER =>
      set_state IB_SMINFO_STATE_DISCOVERING;;
      modify (λ s, s <| coming_out_of_standby := true |>);;
      emit OutSweep;; mret IB_SUCCESS
  | OSM_SM_SIGNAL_DISABLE => set_state IB_SMINFO_STATE_NOTACTIVE;; mret IB_SUCCESS
  | OSM_SM_SIGNAL_HANDOVER =>
      modify (λ s, s <| master_sm_base_lid := sm_base_lid s |>
                     <| force_first_time_master_sweep := true |>);;
      set_state IB_SMINFO_STATE_MASTER;;
      emit OutSweep;; mret IB_SUCCESS
  | OSM_SM_SIGNAL_ACKNOWLEDGE => mret IB_SUCCESS
  | _ => signal_error
  end.

Definition process_notactive (signal : osm_sm_signal) : Sm ib_api_status :=
  match signal with
  | OSM_SM_SIGNAL_STANDBY =>
      set_state IB_SMINFO_STATE_STANDBY;;
      sm_state_mgr_start_polling;; mret IB_SUCCESS
  | _ => signal_error
  end.

Definition process_master (signal : osm_sm_signal) : Sm ib_api_status :=
  match signal with
  | OSM_SM_SIGNAL_POLLING_TIMEOUT | OSM_SM_SIGNAL_HANDOVER =>
      modify (λ s, s <| polling_sm_guid := 0 |>
                     <| force_first_time_master_sweep := true |>);;
      emit OutSweep;; mret IB_SUCCESS
  | OSM_SM_SIGNAL_HANDOVER_SENT =>
      set_state IB_SMINFO_STATE_STANDBY;;
      sm_state_mgr_start_polling;; mret IB_SUCCESS
  | OSM_SM_SIGNAL_WAIT_FOR_HANDOVER =>
      sm_state_mgr_start_polling;; mret IB_SUCCESS
  | OSM_SM_SIGNAL_DISCOVER =>
      set_state IB_SMINFO_STATE_DISCOVERING;; mret IB_SUCCESS
  | _ => signal_error
  end.

(** An unknown state only logs: the status stays [IB_SUCCESS]. *)
Definition process_in (st : Z) (signal : osm_sm_signal) : Sm ib_api_status :=
  if st =? IB_SMINFO_STATE_DISCOVERING then process_discovering signal
  else if st =? IB_SMINFO_STATE_STANDBY then process_standby signal
  else if st =? IB_SMINFO_STATE_NOTACTIVE then process_notactive signal
  else if st =? IB_SMINFO_STATE_MASTER then process_master signal
  else mret IB_SUCCESS.

Definition osm_sm_state_mgr_process (signal : osm_sm_signal) : Sm ib_api_status :=
  st ← gets sm_state; process_in st signal.

Definition legal_signal (st : Z) (signal : osm_sm_signal) : bool :=
  if st =? IB_SMINFO_STATE_DISCOVERING then
    match signal with
    | OSM_SM_SIGNAL_DISCOVERY_COMPLETED
    | OSM_SM_SIGNAL_MASTER_OR_HIGHER_SM_DETECTED
    | OSM_SM_SIGNAL_HANDOVER => true
    | _ => false
    end
  else if st =? IB_SMINFO_STATE_STANDBY then
    match signal with
    | OSM_SM_SIGNAL_POLLING_TIMEOUT | OSM_SM_SIGNAL_DISCOVER | OSM_SM_SIGNAL_DISABLE
    | OSM_SM_SIGNAL_HANDOVER | OSM_SM_SIGNAL_ACKNOWLEDGE => true
    | _ => false
    end
  else if st =? IB_SMINFO_STATE_NOTACTIVE then
    match signal with OSM_SM_SIGNAL_STANDBY => true | _ => false end
  else if st =? IB_SMINFO_STATE_MASTER then
    match signal with
    | OSM_SM_SIGNAL_HANDOVER | OSM_SM_SIGNAL_HANDOVER_SENT => true
    | _ => false
    end
  else false.

Definition osm_sm_state_mgr_check_legality (signal : osm_sm_signal) : Sm ib_api_status :=
  st ← gets sm_state;
  mret (if legal_signal st signal then IB_SUCCESS else IB_INVALID_PARAMETER).

(** ** The polling timer's callback

    The callback reads the state under the state lock, releases it, and goes on
    with the value it read: [polling_callback st] is what it does after the
    read, so that a transition of another thread can be placed in between. *)
Definition polling_callback (st : Z) : Sm unit :=
  guid ← gets polling_sm_guid;
  if negb ((st =? IB_SMINFO_STATE_MASTER) && negb (guid =? 0)
           || (st =? IB_SMINFO_STATE_STANDBY))
  then mret tt
  else if (st =? IB_SMINFO_STATE_STANDBY) && osm_exit_flag env
  then emit OutSubnetUp
  else
    n ← gets retry_number;
    if opt_polling_retry_number env <? n
    then osm_sm_state_mgr_process OSM_SM_SIGNAL_POLLING_TIMEOUT;; mret tt
    else
      sent ← sm_state_mgr_send_master_sm_info_req st;
      when sent (modify (λ s, s <| retry_number := u32 (retry_number s + 1) |>));;
      emit (OutTimer (opt_sminfo_polling_timeout env)).

Definition osm_sm_state_mgr_polling_callback : Sm unit :=
  st ← gets sm_state; polling_callback st.

(** The initial state [osm_sm_init] gives. *)
Definition initial_sm_state : Z :=
  if opt_sm_inactive env then IB_SMINFO_STATE_NOTACTIVE else IB_SMINFO_STATE_DISCOVERING.

(** ** Theorems *)

Definition known_state (st : Z) : Prop :=
  st = IB_SMINFO_STATE_NOTACTIVE ∨ st = IB_SMINFO_STATE_DISCOVERING
  ∨ st = IB_SMINFO_STATE_STANDBY ∨ st = IB_SMINFO_STATE_MASTER.

(** Signals the SM only sends to itself in MASTER: [check_legality], which is
    asked about signals a remote SM requests, refuses them. *)
Definition master_internal (st : Z) (signal : osm_sm_signal) : bool :=
  (st =? IB_SMINFO_STATE_MASTER) &&
  match signal with
  | OSM_SM_SIGNAL_POLLING_TIMEOUT | OSM_SM_SIGNAL_WAIT_FOR_HANDOVER
  | OSM_SM_SIGNAL_DISCOVER => true
  | _ => false
  end.

(** Splits on the four states of [sm_state s] and evaluates the dispatch. *)
Ltac split_state H :=
  destruct H as [H|[H|[H|H]]].

Lemma process_unfold signal s :
  osm_sm_state_mgr_process signal s = process_in (sm_state s) signal s.
Proof.
  unfold osm_sm_state_mgr_process. run_act.
  by destruct (process_in (sm_state s) signal s) as [[??]?].
Qed.

Lemma process_parts signal s :
  result_of (osm_sm_state_mgr_process signal) s
    = result_of (process_in (sm_state s) signal) s
  ∧ state_of (osm_sm_state_mgr_process signal) s
    = state_of (process_in (sm_state s) signal) s
  ∧ outputs_of (osm_sm_state_mgr_process signal) s
    = outputs_of (process_in (sm_state s) signal) s.
Proof. unfold result_of, state_of, outputs_of. by rewrite process_unfold. Qed.

(** A handler that never changes a component of the state keeps its value. *)
Lemma preserves_field {A B} (m : Sm A) (f : osm_sm → B) s :
  (∀ b, preserves (λ s, f s = b) m) → f (state_of m s) = f s.
Proof. intros H. by apply H. Qed.

Lemma preserves_send {P} st : preserves P (sm_state_mgr_send_master_sm_info_req st).
Proof.
  unfold sm_state_mgr_send_master_sm_info_req, osm_req_get. preserves_tac.
Qed.

Lemma preserves_start_polling (P : osm_sm → Prop) :
  (∀ s, P s → P (s <| retry_number := 0 |>)) → preserves P sm_state_mgr_start_polling.
Proof.
  intros H. unfold sm_state_mgr_start_polling. preserves_tac; auto using preserves_send.
Qed.

Lemma process_accepted signal s :
  known_state (sm_state s) →
  legal_signal (sm_state s) signal || master_internal (sm_state s) signal = true →
  result_of (osm_sm_state_mgr_process signal) s = IB_SUCCESS.
Proof.
  intros Hk. rewrite (proj1 (process_parts _ _)).
  split_state Hk; rewrite Hk; destruct signal; try done; intros _;
    unfold process_in; simpl; by act_simpl.
Qed.

Lemma process_refused signal s :
  known_state (sm_state s) →
  legal_signal (sm_state s) signal || master_internal (sm_state s) signal = false →
  osm_sm_state_mgr_process signal s = (IB_INVALID_PARAMETER, s, []).
Proof.
  intros Hk. rewrite process_unfold.
  split_state Hk; rewrite Hk; by destruct signal.
Qed.

Lemma check_legality_success signal s :
  result_of (osm_sm_state_mgr_check_legality signal) s = IB_SUCCESS
  ↔ legal_signal (sm_state s) signal = true.
Proof. unfold osm_sm_state_mgr_check_legality. run_act. by case_match. Qed.

(** C32. In a known state, [osm_sm_state_mgr_process] accepts, that is, answers with
    [IB_SUCCESS], every signal that [osm_sm_state_mgr_check_legality] declares legal and
    the three a MASTER sends to itself; any other signal is refused with [IB_INVALID_PARAMETER],
    changes nothing and sends nothing. *)
Theorem process_accepts_legal signal s :
  known_state (sm_state s) →
  (result_of (osm_sm_state_mgr_check_legality signal) s = IB_SUCCESS
   ∨ master_internal (sm_state s) signal = true →
   result_of (osm_sm_state_mgr_process signal) s = IB_SUCCESS)
  ∧ (result_of (osm_sm_state_mgr_check_legality signal) s ≠ IB_SUCCESS →
     master_internal (sm_state s) signal = false →
     osm_sm_state_mgr_process signal s = (IB_INVALID_PARAMETER, s, [])).
Proof.
  intros Hk. rewrite check_legality_success. split.
  - intros H. apply process_accepted; [done|]. by apply orb_true_iff.
  - intros H1 H2. apply process_refused; [done|]. rewrite H2, orb_false_r.
    by apply not_true_is_false.
Qed.

(** *** The abstract state machine (IBA 14.4) *)

Inductive sm_edge : Z → osm_sm_signal → Z → Prop :=
  | edge_discovered :
      sm_edge IB_SMINFO_STATE_DISCOVERING OSM_SM_SIGNAL_DISCOVERY_COMPLETED
        IB_SMINFO_STATE_MASTER
  | edge_found_higher :
      sm_edge IB_SMINFO_STATE_DISCOVERING OSM_SM_SIGNAL_MASTER_OR_HIGHER_SM_DETECTED
        IB_SMINFO_STATE_STANDBY
  | edge_timeout :
      sm_edge IB_SMINFO_STATE_STANDBY OSM_SM_SIGNAL_POLLING_TIMEOUT
        IB_SMINFO_STATE_DISCOVERING
  | edge_rediscover :
      sm_edge IB_SMINFO_STATE_STANDBY OSM_SM_SIGNAL_DISCOVER IB_SMINFO_STATE_DISCOVERING
  | edge_disable :
      sm_edge IB_SMINFO_STATE_STANDBY OSM_SM_SIGNAL_DISABLE IB_SMINFO_STATE_NOTACTIVE
  | edge_handover :
      sm_edge IB_SMINFO_STATE_STANDBY OSM_SM_SIGNAL_HANDOVER IB_SMINFO_STATE_MASTER
  | edge_standby :
      sm_edge IB_SMINFO_STATE_NOTACTIVE OSM_SM_SIGNAL_STANDBY IB_SMINFO_STATE_STANDBY
  | edge_handover_sent :
      sm_edge IB_SMINFO_STATE_MASTER OSM_SM_SIGNAL_HANDOVER_SENT IB_SMINFO_STATE_STANDBY
  | edge_master_discover :
      sm_edge IB_SMINFO_STATE_MASTER OSM_SM_SIGNAL_DISCOVER IB_SMINFO_STATE_DISCOVERING.

#[local] Hint Constructors sm_edge : core.

Lemma start_polling_state s :
  sm_state (state_of sm_state_mgr_start_polling s) = sm_state s.
Proof.
  apply (preserves_field _ sm_state). intros b. by apply preserves_start_polling.
Qed.

(** One signal moves the state along an edge of the abstract machine or leaves
    it where it is. *)
Lemma process_edge signal s :
  known_state (sm_state s) →
  let st' := sm_state (state_of (osm_sm_state_mgr_process signal) s) in
  st' = sm_state s ∨ sm_edge (sm_state s) signal st'.
Proof.
  intros Hk. simpl. rewrite (proj1 (proj2 (process_parts _ _))).
  split_state Hk; rewrite Hk; destruct signal; try (by left);
    try (right; constructor).
  all: unfold process_in; simpl; act_simpl; rewrite ?start_polling_state.
  all: try (by left); right; constructor.
Qed.

(** *** Polling *)

(** The callback in STANDBY, before the retry limit, with a request that can be
    sent. *)
Lemma polling_callback_sends s p :
  sm_state s = IB_SMINFO_STATE_STANDBY →
  osm_exit_flag env = false → mad_pool_available env = true →
  master_sm_guid s ≠ sm_port_guid env →
  port_guid_tbl env !! master_sm_guid s = Some p →
  retry_number s ≤ opt_polling_retry_number env →
  state_of osm_sm_state_mgr_polling_callback s
    = s <| retry_number := u32 (retry_number s + 1) |>
  ∧ outputs_of osm_sm_state_mgr_polling_callback s
    = [OutPost (MadGetSMInfo (master_sm_guid s) (req_m_key (default 0 (fst <$> port_physp p))));
       OutTimer (opt_sminfo_polling_timeout env)].
Proof.
  intros Hst Hex Hpool Hself Hport Hr.
  unfold osm_sm_state_mgr_polling_callback, polling_callback,
    sm_state_mgr_send_master_sm_info_req, osm_get_port_by_guid, osm_req_get.
  act_simpl. rewrite Hst, Hex. simpl. act_simpl.
  rewrite (proj2 (Z.ltb_ge _ _)) by done. act_simpl.
  rewrite (proj2 (Z.eqb_neq _ _)) by done. rewrite Hport, Hpool. simpl.
  by act_simpl.
Qed.

(** The callback in STANDBY past the limit: back to DISCOVERING. *)
Lemma polling_callback_expires s :
  sm_state s = IB_SMINFO_STATE_STANDBY → osm_exit_flag env = false →
  opt_polling_retry_number env < retry_number s →
  state_of osm_sm_state_mgr_polling_callback s
    = s <| sm_state := IB_SMINFO_STATE_DISCOVERING |> <| coming_out_of_standby := true |>
  ∧ outputs_of osm_sm_state_mgr_polling_callback s
    = [OutReport IB_SMINFO_STATE_DISCOVERING; OutSweep].
Proof.
  intros Hst Hex Hr. unfold osm_sm_state_mgr_polling_callback, polling_callback.
  act_simpl. rewrite Hst, Hex. simpl. act_simpl.
  rewrite (proj2 (Z.ltb_lt _ _)) by done. act_simpl.
  destruct (process_parts OSM_SM_SIGNAL_POLLING_TIMEOUT s) as (_ & -> & ->).
  rewrite Hst. done.
Qed.

(** The state after [n] ticks of the timer with no answer in between. *)
Definition ticks (n : nat) (s : osm_sm) : osm_sm :=
  Nat.iter n (state_of osm_sm_state_mgr_polling_callback) s.

(** C34. A STANDBY SM whose master does not answer: each of the first
    [polling_retry_number + 1] ticks of the timer sends one more SMInfo query and counts
    it; the tick after them sends none, moves the SM to DISCOVERING and wakes the
    sweeper.  Of the queries of the ticks alone there is thus one more than the number
    of failing polls that the file of options documents. *)
Theorem silent_master_is_replaced s p :
  sm_state s = IB_SMINFO_STATE_STANDBY → retry_number s = 0 →
  osm_exit_flag env = false → mad_pool_available env = true →
  master_sm_guid s ≠ sm_port_guid env →
  port_guid_tbl env !! master_sm_guid s = Some p →
  0 ≤ opt_polling_retry_number env < 2 ^ 32 - 1 →
  let N := Z.to_nat (opt_polling_retry_number env + 1) in
  (∀ k, (k ≤ N)%nat → ticks k s = s <| retry_number := Z.of_nat k |>)
  ∧ (∀ k, (k < N)%nat →
       outputs_of osm_sm_state_mgr_polling_callback (ticks k s)
       = [OutPost (MadGetSMInfo (master_sm_guid s) (req_m_key (default 0 (fst <$> port_physp p))));
          OutTimer (opt_sminfo_polling_timeout env)])
  ∧ sm_state (ticks (S N) s) = IB_SMINFO_STATE_DISCOVERING
  ∧ coming_out_of_standby (ticks (S N) s) = true
  ∧ outputs_of osm_sm_state_mgr_polling_callback (ticks N s)
    = [OutReport IB_SMINFO_STATE_DISCOVERING; OutSweep].
Proof.
  intros Hst H0 Hex Hpool Hself Hport HN N.
  assert (Hk : ∀ k, (k ≤ N)%nat → ticks k s = s <| retry_number := Z.of_nat k |>).
  { induction k as [|k IH]; intros Hle.
    { destruct s; simpl in *. by subst. }
    simpl. fold (ticks k s). rewrite IH by lia.
    destruct (polling_callback_sends (s <| retry_number := Z.of_nat k |>) p)
      as [-> _]; try done; simpl; [lia|].
    unfold set_field; simpl. f_equal. rewrite u32_small by lia. lia. }
  split; [done|]. split.
  { intros k Hlt. rewrite Hk by lia.
    by destruct (polling_callback_sends (s <| retry_number := Z.of_nat k |>) p)
      as [_ ->]; try done; simpl; lia. }
  simpl. fold (ticks N s). rewrite Hk by lia.
  destruct (polling_callback_expires (s <| retry_number := Z.of_nat N |>))
    as [-> ->]; [done|done|simpl; lia|].
  done.
Qed.

(** A STANDBY SM that cannot send the query (its master's port is not in the
    port table, or is its own port) is never driven out of STANDBY by the timer,
    whatever the number of ticks: the retry counter only counts queries sent. *)
Theorem unreachable_master_polled_forever s n :
  sm_state s = IB_SMINFO_STATE_STANDBY → osm_exit_flag env = false →
  master_sm_guid s = sm_port_guid env ∨ port_guid_tbl env !! master_sm_guid s = None →
  retry_number s ≤ opt_polling_retry_number env →
  ticks n s = s.
Proof.
  intros Hst Hex Hun Hr. induction n as [|n IH]; [done|].
  simpl. fold (ticks n s). rewrite IH.
  unfold osm_sm_state_mgr_polling_callback, polling_callback,
    sm_state_mgr_send_master_sm_info_req, osm_get_port_by_guid.
  act_simpl. rewrite Hst, Hex. simpl. act_simpl.
  rewrite (proj2 (Z.ltb_ge _ _)) by done. act_simpl.
  destruct Hun as [-> | ->]; [by rewrite Z.eqb_refl|]. by case_match.
Qed.
End StateMachine.

(** ** Witnesses *)

(** A STANDBY SM on port 7 that polls the master on port 9; port 8 has left. *)
Definition demo_env : sm_env :=
  SmEnv 7 10000 4 5 0 false {[ 7 := OsmPort 7 (Some (0, 0)); 9 := OsmPort 9 (Some (3, 0)) ]}
    false 0 true true 0.

Definition demo_sm (st guid : Z) : osm_sm :=
  OsmSm st 0 0 guid false 1 2 false false false false false ∅.

Lemma process_accepts_legal_witness :
  known_state (sm_state (demo_sm IB_SMINFO_STATE_STANDBY 9))
  ∧ result_of (osm_sm_state_mgr_process demo_env OSM_SM_SIGNAL_HANDOVER)
      (demo_sm IB_SMINFO_STATE_STANDBY 9) = IB_SUCCESS
  ∧ osm_sm_state_mgr_process demo_env OSM_SM_SIGNAL_STANDBY
      (demo_sm IB_SMINFO_STATE_STANDBY 9)
    = (IB_INVALID_PARAMETER, demo_sm IB_SMINFO_STATE_STANDBY 9, []).
Proof.
  assert (Hk : known_state (sm_state (demo_sm IB_SMINFO_STATE_STANDBY 9))).
  { right; right; left; reflexivity. }
  split; [exact Hk|]. split.
  - apply (process_accepts_legal demo_env OSM_SM_SIGNAL_HANDOVER _ Hk). left. reflexivity.
  - apply (process_accepts_legal demo_env OSM_SM_SIGNAL_STANDBY _ Hk).
    + vm_compute. discriminate.
    + reflexivity.
Defined.

Lemma silent_master_is_replaced_witness :
  sm_state (ticks demo_env 6 (demo_sm IB_SMINFO_STATE_STANDBY 9))
  = IB_SMINFO_STATE_DISCOVERING.
Proof.
  apply (silent_master_is_replaced demo_env (demo_sm IB_SMINFO_STATE_STANDBY 9)
           (OsmPort 9 (Some (3, 0))));
    first [reflexivity | vm_compute; discriminate | vm_compute; split; congruence].
Defined.

Lemma unreachable_master_polled_forever_witness :
  ticks demo_env 1000 (demo_sm IB_SMINFO_STATE_STANDBY 8)
  = demo_sm IB_SMINFO_STATE_STANDBY 8.
Proof.
  apply (unreachable_master_polled_forever demo_env (demo_sm IB_SMINFO_STATE_STANDBY 8) 1000);
    [reflexivity|reflexivity|right; reflexivity|vm_compute; discriminate].
Defined.
