(* ===== verification/SmInfo.v ===== *)
(** * SMInfo: [opensm/osm_sminfo_rcv.c], and the choice of the highest SM in
      [opensm/osm_state_mgr.c]

    The handlers of SMInfo MADs, over the SM object of [SmState.v], and the
    step relation of one SM: its timer, the signals its own threads send it, and
    the SMInfo MADs it receives. *)

From S2P Require Import Prelude IbTypes SmState.

Open Scope Z_scope.

(** The received MAD wrapper: the SMP and the SMInfo context the request left. *)
Record osm_madw := Madw {
  madw_smp : ib_smp;
  ctx_port_guid : Z;
  ctx_set_method : bool;
  ctx_light_sweep : bool
}.

Definition TRAP_144_MASK_SM_PRIORITY_CHANGE {BO : ByteOrder} : Z := cl_hton16 0x0008.

Section SmInfo.
Context {BO : ByteOrder} (env : sm_env).

(** [osm_sm_is_greater_than] of [include/opensm/osm_sm.h]: higher priority, or
    the same and a lower GUID. *)
Definition osm_sm_is_greater_than (l_priority l_guid r_priority r_guid : Z) : bool :=
  (r_priority <? l_priority)
  || ((l_priority =? r_priority) && (cl_ntoh64 l_guid <? cl_ntoh64 r_guid)).

Definition smi_rcv_remote_sm_is_higher (smi : ib_sm_info) : bool :=
  osm_sm_is_greater_than (ib_sminfo_get_priority smi) (smi_guid smi)
    (opt_sm_priority env) (sm_port_guid env).

(** ** Sending *)

(** [osm_resp_send] with [resp_make_resp_smp]. *)
Definition resp_make_resp_smp (src : ib_smp) (status : Z) (payload : ib_sm_info) : ib_smp :=
  let direction st :=
    if smp_mgmt_class src =? IB_MCLASS_SUBN_DIR then Z.lor st IB_SMP_DIRECTION else st in
  if (smp_method src =? IB_MAD_METHOD_GET) || (smp_method src =? IB_MAD_METHOD_SET)
  then Smp (smp_mgmt_class src) IB_MAD_METHOD_GET_RESP (direction status)
         (smp_attr_mod src) (smp_m_key src) payload
  else if smp_method src =? IB_MAD_METHOD_TRAP
  then Smp (smp_mgmt_class src) IB_MAD_METHOD_TRAP_REPRESS (direction 0)
         (smp_attr_mod src) (smp_m_key src) payload
  else src.

Definition osm_resp_send (req : ib_smp) (mad_status : Z) (payload : ib_sm_info)
    : Sm ib_api_status :=
  if osm_exit_flag env then mret IB_SUCCESS
  else if negb (mad_pool_available env) then mret IB_INSUFFICIENT_RESOURCES
  else emit (OutPost (MadResponse (resp_make_resp_smp req mad_status payload)));;
       mret IB_SUCCESS.

(** [osm_send_trap144] with a non-zero change mask. *)
Definition osm_send_trap144 (change_flgs : Z) : Sm unit :=
  match osm_get_port_by_guid env (sm_port_guid env) with
  | None => mret tt
  | Some _ =>
      guid ← gets master_sm_guid;
      match osm_get_port_by_guid env guid with
      | None => mret tt
      | Some _ =>
          when (mad_pool_available env) (emit (OutPost (MadTrap144 guid change_flgs)))
      end
  end.

(** The SMInfo of this SM, as the handlers fill it in. *)
Definition own_sm_info (st : Z) (fill_sm_key : bool) : ib_sm_info :=
  SmInfo (sm_port_guid env) (if fill_sm_key then opt_sm_key env else 0)
    (cl_hton32 (qp0_mads_sent env))
    (u8 (Z.lor st (Z.shiftl (opt_sm_priority env) 4))).

(** ** Requests *)

Definition smi_rcv_process_get_request (m : osm_madw) (fill_sm_key : bool) : Sm unit :=
  st ← gets sm_state;
  osm_resp_send (madw_smp m) 0 (own_sm_info st fill_sm_key);;
  mret tt.

Definition smi_rcv_check_set_req_legality (smp : ib_smp) : ib_api_status :=
  let smi := smp_payload smp in
  let attr_mod := smp_attr_mod smp in
  if attr_mod =? IB_SMINFO_ATTR_MOD_ACKNOWLEDGE then
    if ib_sminfo_get_state smi =? IB_SMINFO_STATE_STANDBY
    then IB_SUCCESS else IB_INVALID_PARAMETER
  else if (attr_mod =? IB_SMINFO_ATTR_MOD_HANDOVER)
       || (attr_mod =? IB_SMINFO_ATTR_MOD_DISABLE)
       || (attr_mod =? IB_SMINFO_ATTR_MOD_STANDBY)
       || (attr_mod =? IB_SMINFO_ATTR_MOD_DISCOVER) then
    if ib_sminfo_get_state smi =? IB_SMINFO_STATE_MASTER
    then IB_SUCCESS else IB_INVALID_PARAMETER
  else IB_INVALID_PARAMETER.

(** The [switch] from attribute modifier to signal. *)
Definition set_req_signal (attr_mod : Z) : option osm_sm_signal :=
  if attr_mod =? IB_SMINFO_ATTR_MOD_HANDOVER then Some OSM_SM_SIGNAL_HANDOVER
  else if attr_mod =? IB_SMINFO_ATTR_MOD_ACKNOWLEDGE then Some OSM_SM_SIGNAL_ACKNOWLEDGE
  else if attr_mod =? IB_SMINFO_ATTR_MOD_DISABLE then Some OSM_SM_SIGNAL_DISABLE
  else if attr_mod =? IB_SMINFO_ATTR_MOD_STANDBY then Some OSM_SM_SIGNAL_STANDBY
  else if attr_mod =? IB_SMINFO_ATTR_MOD_DISCOVER then Some OSM_SM_SIGNAL_DISCOVER
  else None.

Definition smi_rcv_process_set_request (m : osm_madw) : Sm unit :=
  let smp := madw_smp m in
  let smi := smp_payload smp in
  if negb (smp_method smp =? IB_MAD_METHOD_SET) then mret tt
  else
    st ← gets sm_state;
    let payload := own_sm_info st true in
    if bool_decide (smi_rcv_check_set_req_legality smp ≠ IB_SUCCESS)
    then osm_resp_send smp 7 payload;; mret tt
    else match set_req_signal (smp_attr_mod smp) with
    | None => mret tt
    | Some sm_signal =>
        status ← osm_sm_state_mgr_check_legality sm_signal;
        if bool_decide (status ≠ IB_SUCCESS)
        then osm_resp_send smp 7 payload;; mret tt
        else
          osm_resp_send smp 0 payload;;
          when (smp_attr_mod smp =? IB_SMINFO_ATTR_MOD_STANDBY)
            (modify (λ s, s <| master_sm_guid := smi_guid smi |>));;
          osm_sm_state_mgr_process env sm_signal;;
          mret tt
    end.

(** ** Responses *)

Definition smi_rcv_process_get_sm (smi : ib_sm_info) (light_sweep : bool) : Sm unit :=
  let rstate := ib_sminfo_get_state smi in
  let higher := smi_rcv_remote_sm_is_higher smi in
  let found_master :=
    modify (λ s, s <| master_sm_found := true |> <| master_sm_guid := smi_guid smi |>) in
  st ← gets sm_state;
  if st =? IB_SMINFO_STATE_NOTACTIVE then mret tt
  else if st =? IB_SMINFO_STATE_DISCOVERING then
    if rstate =? IB_SMINFO_STATE_NOTACTIVE then mret tt
    else if rstate =? IB_SMINFO_STATE_MASTER then found_master
    else if (rstate =? IB_SMINFO_STATE_DISCOVERING) || (rstate =? IB_SMINFO_STATE_STANDBY)
    then when higher found_master
    else mret tt
  else if st =? IB_SMINFO_STATE_STANDBY then
    if rstate =? IB_SMINFO_STATE_MASTER then
      osm_sm_state_mgr_signal_master_is_alive;;
      when (negb higher) (osm_send_trap144 TRAP_144_MASK_SM_PRIORITY_CHANGE)
    else if rstate =? IB_SMINFO_STATE_STANDBY then
      guid ← gets master_sm_guid;
      when (guid =? smi_guid smi) (when higher osm_sm_state_mgr_signal_master_is_alive)
    else mret tt
  else if st =? IB_SMINFO_STATE_MASTER then
    if rstate =? IB_SMINFO_STATE_MASTER then
      polling ← gets polling_sm_guid;
      if negb (polling =? 0) then
        (if higher then modify (λ s, s <| force_heavy_sweep := true |>)
         else
           modify (λ s, s <| master_sm_guid := polling_sm_guid s |>);;
           osm_send_trap144 TRAP_144_MASK_SM_PRIORITY_CHANGE);;
        osm_sm_state_mgr_signal_master_is_alive
      else when light_sweep (modify (λ s, s <| force_heavy_sweep := true |>))
    else if rstate =? IB_SMINFO_STATE_STANDBY then
      when (light_sweep && higher) (modify (λ s, s <| force_heavy_sweep := true |>))
    else mret tt
  else mret tt.

(** [alloc] is the outcome of the [malloc] of a new remote SM object. *)
Definition smi_rcv_process_get_response (m : osm_madw) (alloc : bool) : Sm unit :=
  let smp := madw_smp m in
  let smi := smp_payload smp in
  if negb (smp_method smp =? IB_MAD_METHOD_GET_RESP) then mret tt
  else if negb (opt_sm_key env =? 0) && negb (smi_sm_key smi =? opt_sm_key env) then mret tt
  else match osm_get_port_by_guid env (smi_guid smi) with
  | None => mret tt
  | Some p_port =>
      if negb (port_guid p_port =? smi_guid smi) then mret tt
      else if smi_guid smi =? sm_port_guid env then mret tt
      else
        tbl ← gets sm_guid_tbl;
        if bool_decide (tbl !! smi_guid smi = None) && negb alloc then mret tt
        else
          modify (λ s, s <| sm_guid_tbl := <[smi_guid smi := smi]> (sm_guid_tbl s) |>);;
          smi_rcv_process_get_sm smi (ctx_light_sweep m)
  end.

(** [smi_rcv_process_set_response] only checks the response and logs. *)
Definition smi_rcv_process_set_response (m : osm_madw) : Sm unit := mret tt.

Definition ib_port_info_get_mpb (mkey_lmc : Z) : Z := Z.shiftr (Z.land mkey_lmc 0xC0) 6.

Definition osm_sminfo_rcv_process (m : osm_madw) (alloc : bool) : Sm unit :=
  let smp := madw_smp m in
  if negb (ib_smp_get_status smp =? 0) then mret tt
  else if ib_smp_is_response smp then
    if negb (ctx_port_guid m =? smi_guid (smp_payload smp)) then mret tt
    else if negb (ctx_set_method m) then smi_rcv_process_get_response m alloc
    else smi_rcv_process_set_response m
  else match osm_get_port_by_guid env (sm_port_guid env) with
  | None => mret tt
  | Some p_port =>
      match port_physp p_port with
      | None => mret tt
      | Some (my_mkey, mkey_lmc) =>
          let mpb := if my_mkey =? 0 then 0 else ib_port_info_get_mpb mkey_lmc in
          let mismatch := negb (my_mkey =? 0) && negb (my_mkey =? smp_m_key smp) in
          if smp_method smp =? IB_MAD_METHOD_GET then
            if mismatch && (1 <? mpb) then mret tt
            else if mismatch && (mpb =? 1) then smi_rcv_process_get_request m false
            else smi_rcv_process_get_request m true
          else
            if mismatch then mret tt
            else smi_rcv_process_set_request m
      end
  end.

(** ** The choice of a master ([opensm/osm_state_mgr.c]) *)

(** The first remote SM, in the order of the table, that says it is MASTER. *)
Definition state_mgr_exists_other_master_sm (s : osm_sm) : option ib_sm_info :=
  snd <$> list_find_first
    (λ e, ib_sminfo_get_state e.2 =? IB_SMINFO_STATE_MASTER) (qmap_items (sm_guid_tbl s)).

(** The loop of [state_mgr_get_highest_sm]: [p_highest_sm], with the priority
    and GUID to beat. *)
Fixpoint highest_loop (l : list (Z * ib_sm_info)) (p_highest_sm : option ib_sm_info)
    (priority guid : Z) : option ib_sm_info :=
  match l with
  | [] => p_highest_sm
  | (_, smi) :: l =>
      if ib_sminfo_get_state smi =? IB_SMINFO_STATE_NOTACTIVE
      then highest_loop l p_highest_sm priority guid
      else if osm_sm_is_greater_than (ib_sminfo_get_priority smi) (smi_guid smi) priority guid
      then highest_loop l (Some smi) (ib_sminfo_get_priority smi) (smi_guid smi)
      else highest_loop l p_highest_sm priority guid
  end.

Definition state_mgr_get_highest_sm (s : osm_sm) : option ib_sm_info :=
  highest_loop (qmap_items (sm_guid_tbl s)) None (opt_sm_priority env) (sm_port_guid env).

(** [osm_req_set] fails when the program is exiting or the pool is empty. *)
Definition state_mgr_send_handover (smi : ib_sm_info) : Sm unit :=
  match osm_get_port_by_guid env (smi_guid smi) with
  | None => mret tt
  | Some p_port =>
      modify (λ s, s <| master_sm_guid := port_guid p_port |>);;
      st ← gets sm_state;
      when (negb (osm_exit_flag env) && mad_pool_available env)
        (emit (OutPost (MadSetSMInfo (port_guid p_port) IB_SMINFO_ATTR_MOD_HANDOVER
                          (req_m_key env (default 0 (fst <$> port_physp p_port))) (own_sm_info st true))))
  end.

(** ** The order on SMs *)

Lemma osm_sm_is_greater_than_true p g p' g' :
  osm_sm_is_greater_than p g p' g' = true ↔ p' < p ∨ (p = p' ∧ cl_ntoh64 g < cl_ntoh64 g').
Proof. unfold osm_sm_is_greater_than. lia. Qed.

Lemma osm_sm_is_greater_than_false p g p' g' :
  osm_sm_is_greater_than p g p' g' = false
  ↔ p < p' ∨ (p = p' ∧ cl_ntoh64 g' ≤ cl_ntoh64 g).
Proof. unfold osm_sm_is_greater_than. lia. Qed.

Definition sm_above (x y : ib_sm_info) : bool :=
  osm_sm_is_greater_than (ib_sminfo_get_priority x) (smi_guid x)
    (ib_sminfo_get_priority y) (smi_guid y).

Definition sm_active (x : ib_sm_info) : Prop :=
  ib_sminfo_get_state x ≠ IB_SMINFO_STATE_NOTACTIVE.

(** What the loop leaves: the candidate it started with when no active SM of the
    list beats it, or the greatest active one. *)
Lemma highest_loop_spec l p prio guid :
  (highest_loop l p prio guid = p
   ∧ ∀ k x, (k, x) ∈ l → sm_active x →
       osm_sm_is_greater_than (ib_sminfo_get_priority x) (smi_guid x) prio guid = false)
  ∨ (∃ k x, (k, x) ∈ l ∧ sm_active x ∧ highest_loop l p prio guid = Some x
     ∧ osm_sm_is_greater_than (ib_sminfo_get_priority x) (smi_guid x) prio guid = true
     ∧ ∀ k' y, (k', y) ∈ l → sm_active y → sm_above y x = false).
Proof.
  revert p prio guid. induction l as [|[k x] l IH]; intros p prio guid; simpl.
  { left. split; [done|]. intros k x Hx. by apply not_elem_of_nil in Hx. }
  assert (Hcons : ∀ k' y (P : Prop), (k', y) ∈ (k, x) :: l →
            (y = x → P) → ((k', y) ∈ l → P) → P).
  { intros k' y P [[= -> ->]|Hy]%elem_of_cons; auto. }
  destruct (Z.eqb_spec (ib_sminfo_get_state x) IB_SMINFO_STATE_NOTACTIVE) as [Hna|Hact].
  - destruct (IH p prio guid) as [[H1 H2]|(k0 & x0 & Hin & Ha & H1 & H2 & H3)].
    + left. split; [done|]. intros k' y Hy Hay. eapply Hcons; [done|by intros ->|eauto].
    + right. exists k0, x0. split_and!; try done; [by right|].
      intros k' y Hy Hay. eapply Hcons; [done|by intros ->|eauto].
  - case_match eqn:Eg.
    + right. destruct (IH (Some x) (ib_sminfo_get_priority x) (smi_guid x))
        as [[H1 H2]|(k0 & x0 & Hin & Ha & H1 & H2 & H3)].
      * exists k, x. split_and!; try done; [by left|].
        intros k' y Hy Hay. eapply Hcons; [done|intros ->|eauto].
        apply osm_sm_is_greater_than_false. lia.
      * exists k0, x0. split_and!; try done; [by right| |].
        { apply osm_sm_is_greater_than_true in H2, Eg. apply osm_sm_is_greater_than_true. lia. }
        intros k' y Hy Hay. eapply Hcons; [done|intros ->|eauto].
        apply osm_sm_is_greater_than_true in H2. apply osm_sm_is_greater_than_false. lia.
    + destruct (IH p prio guid) as [[H1 H2]|(k0 & x0 & Hin & Ha & H1 & H2 & H3)].
      * left. split; [done|]. intros k' y Hy Hay. eapply Hcons; [done|by intros ->|eauto].
      * right. exists k0, x0. split_and!; try done; [by right|].
        intros k' y Hy Hay. eapply Hcons; [done|intros ->|eauto].
        apply osm_sm_is_greater_than_true in H2. apply osm_sm_is_greater_than_false in Eg.
        apply osm_sm_is_greater_than_false. lia.
Qed.

(** *** The fields of the SMInfo this SM sends *)

Lemma pri_state_bits st prio i :
  0 ≤ st < 16 → 0 ≤ prio < 16 → 0 ≤ i < 8 →
  Z.testbit (u8 (Z.lor st (Z.shiftl prio 4))) i
  = if i <? 4 then Z.testbit st i else Z.testbit prio (i - 4).
Proof.
  intros Hs Hp Hi. unfold u8. rewrite Z.mod_pow2_bits_low by lia.
  rewrite Z.lor_spec, Z.shiftl_spec by lia. destruct (Z.ltb_spec i 4).
  - rewrite (Z.testbit_neg_r prio) by lia. by rewrite orb_false_r.
  - rewrite (testbit_above 4 st) by lia. done.
Qed.

Lemma own_sm_info_state st b :
  0 ≤ st < 16 → 0 ≤ opt_sm_priority env < 16 →
  ib_sminfo_get_state (own_sm_info st b) = st.
Proof.
  intros Hs Hp. unfold ib_sminfo_get_state; simpl. change 0x0F with (Z.ones 4).
  apply (bits_eq 4); [|lia|].
  { rewrite Z.land_ones by lia. by apply Z.mod_pos_bound. }
  intros i Hi. rewrite Z.land_spec, pri_state_bits by lia.
  rewrite Z.testbit_ones_nonneg by lia. decide_cmps. apply andb_true_r.
Qed.

Lemma own_sm_info_priority st b :
  0 ≤ st < 16 → 0 ≤ opt_sm_priority env < 16 →
  ib_sminfo_get_priority (own_sm_info st b) = opt_sm_priority env.
Proof.
  intros Hs Hp. unfold ib_sminfo_get_priority; simpl.
  apply Z.bits_inj'. intros i Hi. rewrite Z.shiftr_spec, Z.land_spec by lia.
  change 0xF0 with (Z.shiftl (Z.ones 4) 4). rewrite Z.shiftl_spec by lia.
  replace (i + 4 - 4) with i by lia. destruct (decide (i < 4)) as [Hlt|Hge].
  - rewrite pri_state_bits by lia. rewrite Z.testbit_ones_nonneg by lia. decide_cmps.
    replace (i + 4 - 4) with i by lia. apply andb_true_r.
  - rewrite Z.testbit_ones_nonneg, (testbit_above 4 (opt_sm_priority env)) by lia.
    decide_cmps. apply andb_false_r.
Qed.

(** ** Which MADs move the state machine *)

Lemma attr_mods_distinct :
  NoDup [IB_SMINFO_ATTR_MOD_HANDOVER; IB_SMINFO_ATTR_MOD_ACKNOWLEDGE;
         IB_SMINFO_ATTR_MOD_DISABLE; IB_SMINFO_ATTR_MOD_STANDBY; IB_SMINFO_ATTR_MOD_DISCOVER].
Proof.
  apply (bool_decide_unpack _).
  unfold IB_SMINFO_ATTR_MOD_HANDOVER, IB_SMINFO_ATTR_MOD_ACKNOWLEDGE,
    IB_SMINFO_ATTR_MOD_DISABLE, IB_SMINFO_ATTR_MOD_STANDBY, IB_SMINFO_ATTR_MOD_DISCOVER,
    cl_hton32, cl_ntoh32, cpu_le.
  case BO; by vm_compute.
Qed.

(** Any predicate on the state is kept by the code that only sends. *)
Lemma preserves_resp_send P smp st payload : preserves P (osm_resp_send smp st payload).
Proof. unfold osm_resp_send. preserves_tac. Qed.

Lemma preserves_trap144 P flg : preserves P (osm_send_trap144 flg).
Proof. unfold osm_send_trap144. preserves_tac. Qed.

Lemma preserves_get_request P m b : preserves P (smi_rcv_process_get_request m b).
Proof. unfold smi_rcv_process_get_request. preserves_tac; apply preserves_resp_send. Qed.

(** The fields a response handler writes: every predicate that does not look at
    them is kept. *)
Lemma preserves_get_response (P : osm_sm → Prop) m alloc :
  (∀ s v, P s → P (s <| master_sm_found := v |>)) →
  (∀ s v, P s → P (s <| master_sm_guid := v |>)) →
  (∀ s v, P s → P (s <| retry_number := v |>)) →
  (∀ s v, P s → P (s <| force_heavy_sweep := v |>)) →
  (∀ s v, P s → P (s <| sm_guid_tbl := v |>)) →
  preserves P (smi_rcv_process_get_response m alloc).
Proof.
  intros H1 H2 H3 H4 H5.
  unfold smi_rcv_process_get_response, smi_rcv_process_get_sm,
    osm_sm_state_mgr_signal_master_is_alive.
  preserves_tac; auto using preserves_trap144.
Qed.

(** One Set request is either refused, with the state as it was, or it is from
    a MASTER (or an acknowledge), legal, and carried out. *)
Lemma set_request_state m s :
  sm_state (state_of (smi_rcv_process_set_request m) s) = sm_state s
  ∨ ∃ sig s',
      smp_method (madw_smp m) = IB_MAD_METHOD_SET
      ∧ smi_rcv_check_set_req_legality (madw_smp m) = IB_SUCCESS
      ∧ set_req_signal (smp_attr_mod (madw_smp m)) = Some sig
      ∧ legal_signal (sm_state s) sig = true
      ∧ sm_state s' = sm_state s
      ∧ sm_state (state_of (smi_rcv_process_set_request m) s)
        = sm_state (state_of (osm_sm_state_mgr_process env sig) s').
Proof.
  assert (Hresp : ∀ st pl s1, state_of (osm_resp_send (madw_smp m) st pl) s1 = s1).
  { intros st pl s1. by apply (preserves_resp_send (λ x, x = s1)). }
  unfold smi_rcv_process_set_request.
  destruct (Z.eqb_spec (smp_method (madw_smp m)) IB_MAD_METHOD_SET) as [Hm|]; simpl; [|by left].
  act_simpl. case_bool_decide as Hl; [left; act_simpl; by rewrite Hresp|].
  destruct (set_req_signal _) as [sig|] eqn:Hsig; [|by left].
  unfold osm_sm_state_mgr_check_legality. act_simpl.
  destruct (legal_signal (sm_state s) sig) eqn:Hleg; simpl;
    [|left; act_simpl; by rewrite Hresp].
  right. act_simpl. rewrite Hresp.
  set (s1 := state_of (when _ _) s). exists sig, s1. split_and!; try done.
  subst s1. unfold when. by case_match.
Qed.

(** The state a legal request gives for its signal. *)
Lemma legality_state smp sig :
  smi_rcv_check_set_req_legality smp = IB_SUCCESS → set_req_signal (smp_attr_mod smp) = Some sig →
  ib_sminfo_get_state (smp_payload smp)
  = (if bool_decide (sig = OSM_SM_SIGNAL_ACKNOWLEDGE) then IB_SMINFO_STATE_STANDBY else IB_SMINFO_STATE_MASTER).
Proof.
  unfold smi_rcv_check_set_req_legality, set_req_signal. pose proof attr_mods_distinct as Hnd.
  rewrite !NoDup_cons, !not_elem_of_cons in Hnd. destruct Hnd as ((Hha & _) & (Had & Has & Hac & _) & _).
  destruct (Z.eqb_spec (smp_attr_mod smp) IB_SMINFO_ATTR_MOD_ACKNOWLEDGE) as [E|Hne].
  - rewrite (proj2 (Z.eqb_neq _ IB_SMINFO_ATTR_MOD_HANDOVER)) by congruence.
    destruct (Z.eqb_spec (ib_sminfo_get_state (smp_payload smp)) IB_SMINFO_STATE_STANDBY) as [Hs|]; [|done].
    by intros _ [= <-].
  - intros Hl Hsig. assert (ib_sminfo_get_state (smp_payload smp) = IB_SMINFO_STATE_MASTER) as ->.
    { revert Hl. destruct (_ || _); [|done].
      by destruct (Z.eqb_spec (ib_sminfo_get_state (smp_payload smp)) IB_SMINFO_STATE_MASTER). }
    revert Hsig. by repeat case_match; intros [= <-].
Qed.

Lemma sminfo_change_authorised m alloc s :
  let smp := madw_smp m in
  let st' := sm_state (state_of (osm_sminfo_rcv_process m alloc) s) in
  known_state (sm_state s) → st' ≠ sm_state s →
  ib_smp_get_status smp = 0 ∧ ib_smp_is_response smp = false
  ∧ smp_method smp = IB_MAD_METHOD_SET
  ∧ ib_sminfo_get_state (smp_payload smp) = IB_SMINFO_STATE_MASTER
  ∧ (∃ p mkey lmc, osm_get_port_by_guid env (sm_port_guid env) = Some p
       ∧ port_physp p = Some (mkey, lmc) ∧ (mkey = 0 ∨ mkey = smp_m_key smp))
  ∧ ∃ sig, set_req_signal (smp_attr_mod smp) = Some sig
       ∧ legal_signal (sm_state s) sig = true ∧ sm_edge (sm_state s) sig st'.
Proof.
  simpl. intros Hk.
  assert (Hget : ∀ b, sm_state (state_of (smi_rcv_process_get_request m b) s) = sm_state s).
  { intros b. apply (preserves_field _ sm_state). intros v. apply preserves_get_request. }
  unfold osm_sminfo_rcv_process.
  destruct (Z.eqb_spec (ib_smp_get_status (madw_smp m)) 0) as [H0|]; simpl; [|done].
  destruct (ib_smp_is_response (madw_smp m)) eqn:Hresp.
  { case_match; [done|]. case_match; [|done].
    rewrite (preserves_field _ sm_state); [done|]. intros v. by apply preserves_get_response. }
  destruct (osm_get_port_by_guid env (sm_port_guid env)) as [p|] eqn:Hp; [|done].
  destruct (port_physp p) as [[mkey lmc]|] eqn:Hph; [|done].
  case_match.
  { intros []. by repeat case_match; rewrite ?Hget. }
  destruct (negb (mkey =? 0) && negb (mkey =? smp_m_key (madw_smp m))) eqn:Hmk; [done|].
  intros Hne. destruct (set_request_state m s) as [|(sig & s' & Hmeth & Hchk & Hsig & Hleg & Hs' & Hst)];
    [done|].
  split_and!; try done.
  2:{ exists p, mkey, lmc. split_and!; [done..|lia]. }
  2:{ exists sig. split_and!; [done..|]. rewrite Hst in *. rewrite <-Hs' in Hk |- *.
      destruct (process_edge env sig s' Hk) as [E|]; [|done]. by rewrite E, Hs' in Hne. }
  revert Hchk. unfold smi_rcv_check_set_req_legality.
  destruct (Z.eqb_spec (smp_attr_mod (madw_smp m)) IB_SMINFO_ATTR_MOD_ACKNOWLEDGE) as [Hack|_].
  2:{ case_match; [|done]. case_match; [|done]. by intros _; apply Z.eqb_eq. }
  (* an acknowledge leaves the state as it is *)
  exfalso. apply Hne. rewrite Hst.
  assert (sig = OSM_SM_SIGNAL_ACKNOWLEDGE) as ->.
  { revert Hsig. unfold set_req_signal. rewrite Hack, Z.eqb_refl.
    pose proof attr_mods_distinct as Hnd. apply NoDup_cons in Hnd as [Hnd _].
    rewrite (proj2 (Z.eqb_neq _ _)); [by intros [= <-]|].
    intros E. apply Hnd. rewrite E. left. }
  rewrite <-Hs' in Hk |- *.
  destruct (process_edge env OSM_SM_SIGNAL_ACKNOWLEDGE s' Hk) as [E|E]; [done|].
  inversion E.
Qed.

Lemma sminfo_change_edge m alloc s :
  known_state (sm_state s) →
  sm_state (state_of (osm_sminfo_rcv_process m alloc) s) ≠ sm_state s →
  ∃ sig, set_req_signal (smp_attr_mod (madw_smp m)) = Some sig
    ∧ legal_signal (sm_state s) sig = true
    ∧ sm_edge (sm_state s) sig (sm_state (state_of (osm_sminfo_rcv_process m alloc) s)).
Proof. intros Hk Hne. apply (sminfo_change_authorised m alloc s Hk Hne). Qed.

(** C30. Only an authorised request moves the state machine of an SM.  If the
    handling of a received SMInfo MAD changes [sm_state], the MAD is a Set with
    status 0, the SM's own port is known and its M_Key is 0 or the one of the
    MAD, the sender says it is MASTER, the attribute modifier stands for a signal
    that is legal in the SM's state, and the change is that signal's edge of the
    abstract machine.  No response and no Get changes the state. *)
Theorem sminfo_state_change_authorised m alloc s :
  let smp := madw_smp m in
  let st' := sm_state (state_of (osm_sminfo_rcv_process m alloc) s) in
  known_state (sm_state s) → st' ≠ sm_state s →
  ib_smp_get_status smp = 0 ∧ ib_smp_is_response smp = false
  ∧ smp_method smp = IB_MAD_METHOD_SET
  ∧ ib_sminfo_get_state (smp_payload smp) = IB_SMINFO_STATE_MASTER
  ∧ (∃ p mkey lmc, osm_get_port_by_guid env (sm_port_guid env) = Some p
       ∧ port_physp p = Some (mkey, lmc) ∧ (mkey = 0 ∨ mkey = smp_m_key smp))
  ∧ ∃ sig, set_req_signal (smp_attr_mod smp) = Some sig
       ∧ legal_signal (sm_state s) sig = true ∧ sm_edge (sm_state s) sig st'.
Proof. exact (sminfo_change_authorised m alloc s). Qed.

(** ** One SM among its threads

    The handlers that give a lock back before they act on what they read under it are
    cut there: what the timer's callback and a Set request do up to that point, and the
    signal they then process. *)

(** The timer's callback up to the decision that the master is dead. *)
Definition polling_decide (st : Z) : Sm bool :=
  guid ← gets polling_sm_guid;
  if negb ((st =? IB_SMINFO_STATE_MASTER) && negb (guid =? 0)
           || (st =? IB_SMINFO_STATE_STANDBY))
  then mret false
  else if (st =? IB_SMINFO_STATE_STANDBY) && osm_exit_flag env
  then emit OutSubnetUp;; mret false
  else
    n ← gets retry_number;
    if opt_polling_retry_number env <? n then mret true
    else
      sent ← sm_state_mgr_send_master_sm_info_req env st;
      when sent (modify (λ s, s <| retry_number := u32 (retry_number s + 1) |>));;
      emit (OutTimer (opt_sminfo_polling_timeout env));;
      mret false.

(** A Set request up to the check of the signal: the SMInfo of the reply and the signal
    when both checks pass. *)
Definition set_request_check (m : osm_madw) : Sm (option (ib_sm_info * osm_sm_signal)) :=
  let smp := madw_smp m in
  if negb (smp_method smp =? IB_MAD_METHOD_SET) then mret None
  else
    st ← gets sm_state;
    let payload := own_sm_info st true in
    if bool_decide (smi_rcv_check_set_req_legality smp ≠ IB_SUCCESS)
    then osm_resp_send smp 7 payload;; mret None
    else match set_req_signal (smp_attr_mod smp) with
    | None => mret None
    | Some sm_signal =>
        status ← osm_sm_state_mgr_check_legality sm_signal;
        if bool_decide (status ≠ IB_SUCCESS)
        then osm_resp_send smp 7 payload;; mret None
        else mret (Some (payload, sm_signal))
    end.

(** The rest of it. *)
Definition set_request_act (m : osm_madw) (payload : ib_sm_info) (sm_signal : osm_sm_signal) : Sm unit :=
  let smp := madw_smp m in
  osm_resp_send smp 0 payload;;
  when (smp_attr_mod smp =? IB_SMINFO_ATTR_MOD_STANDBY)
    (modify (λ s, s <| master_sm_guid := smi_guid (smp_payload smp) |>));;
  osm_sm_state_mgr_process env sm_signal;;
  mret tt.

(** The Set requests among the MADs whose M_Key is right. *)
Definition set_request_arrives (m : osm_madw) : bool :=
  let smp := madw_smp m in
  (ib_smp_get_status smp =? 0) && negb (ib_smp_is_response smp) &&
  negb (smp_method smp =? IB_MAD_METHOD_GET) &&
  match p ← osm_get_port_by_guid env (sm_port_guid env); port_physp p with
  | None => false
  | Some (my_mkey, _) => (my_mkey =? 0) || (my_mkey =? smp_m_key smp)
  end.

(** A received MAD, up to the signal it asks for. *)
Definition sminfo_receive (m : osm_madw) (alloc : bool) : Sm (option (ib_sm_info * osm_sm_signal)) :=
  if set_request_arrives m then set_request_check m
  else osm_sminfo_rcv_process m alloc;; mret None.

(** The parts make up the handlers. *)
Lemma polling_callback_split st s :
  polling_callback env st s
  = (dead ← polling_decide st;
     when dead (osm_sm_state_mgr_process env OSM_SM_SIGNAL_POLLING_TIMEOUT;; mret tt)) s.
Proof.
  unfold polling_callback, polling_decide. run_act.
  destruct (negb _); [done|]. destruct (_ && _); [done|]. destruct (_ <? _).
  - by destruct (osm_sm_state_mgr_process env _ s) as [[? ?] ?].
  - destruct (sm_state_mgr_send_master_sm_info_req env st s) as [[[] s1] o]; cbn; by rewrite ?app_nil_r.
Qed.

Lemma set_request_split m s :
  smi_rcv_process_set_request m s
  = (r ← set_request_check m;
     match r with
     | Some (payload, sig) => set_request_act m payload sig
     | None => mret tt
     end) s.
Proof.
  unfold smi_rcv_process_set_request, set_request_check, set_request_act, osm_sm_state_mgr_check_legality. run_act.
  destruct (negb _); [done|]. case_bool_decide.
  { destruct (osm_resp_send _ _ _ s) as [[? ?] ?]. cbn. by rewrite !app_nil_r. }
  destruct (set_req_signal _) as [sig|]; [|done]. case_bool_decide; cbn.
  { destruct (osm_resp_send _ _ _ s) as [[? ?] ?]. cbn. by rewrite !app_nil_r. }
  destruct (osm_resp_send _ _ _ s) as [[? s1] ?]. destruct (_ =? IB_SMINFO_ATTR_MOD_STANDBY);
    by destruct (osm_sm_state_mgr_process env sig _) as [[? ?] ?].
Qed.

Lemma sminfo_receive_split m alloc s :
  osm_sminfo_rcv_process m alloc s
  = (r ← sminfo_receive m alloc;
     match r with
     | Some (payload, sig) => set_request_act m payload sig
     | None => mret tt
     end) s.
Proof.
  unfold sminfo_receive. destruct (set_request_arrives m) eqn:E.
  - rewrite <- set_request_split. unfold set_request_arrives in E. unfold osm_sminfo_rcv_process.
    destruct (_ =? 0); [|done]. destruct (ib_smp_is_response _); [done|]. destruct (_ =? IB_MAD_METHOD_GET); [done|].
    cbn [negb andb] in *. destruct (osm_get_port_by_guid _ _) as [p|]; [|done]. cbn [mbind option_bind] in E.
    destruct (port_physp p) as [[mkey lmc]|]; [|done].
    assert (negb (mkey =? 0) && negb (mkey =? smp_m_key (madw_smp m)) = false) as ->; [|done].
    by rewrite <- negb_orb, E.
  - unfold mbind, act_bind, mret, act_ret. destruct (osm_sminfo_rcv_process m alloc s) as [[[] s1] o].
    by rewrite !app_nil_r.
Qed.

(** *** The steps

    Where a signal comes from: the sweep, the timer's callback, with the state and the
    retry number it read, or a Set request. *)
Inductive sm_source := FromSweep | FromTimer (st retries : Z) | FromSet (m : osm_madw).

(** The signals [do_sweep] of [opensm/osm_state_mgr.c] sends. *)
Definition sweep_signal (sig : osm_sm_signal) : bool :=
  match sig with
  | OSM_SM_SIGNAL_DISCOVER | OSM_SM_SIGNAL_MASTER_OR_HIGHER_SM_DETECTED
  | OSM_SM_SIGNAL_HANDOVER_SENT | OSM_SM_SIGNAL_WAIT_FOR_HANDOVER
  | OSM_SM_SIGNAL_POLLING_TIMEOUT | OSM_SM_SIGNAL_DISCOVERY_COMPLETED => true
  | _ => false
  end.

(** The SM object, the state the timer's callback read before it gave the lock back, and
    the signals that were decided on and not yet processed. *)
Record sm_conf := SmConf {
  conf_sm : osm_sm;
  conf_timer : option Z;
  conf_pending : list (sm_source * osm_sm_signal)
}.

(** The threads of the program, from lock to lock.  A step that processes a signal is
    labelled with it and where it came from; in between any other thread may run.
    [step_other] has the writes of [master_sm_guid] before a STANDBY signal too. *)
Inductive sm_step : sm_conf → option (sm_source * osm_sm_signal) → sm_conf → Prop :=
  | step_sweep sig s t p :
      sweep_signal sig = true →
      sm_step (SmConf s t p) (Some (FromSweep, sig))
        (SmConf (state_of (osm_sm_state_mgr_process env sig) s) t p)
  | step_timer_read s p :
      sm_step (SmConf s None p) None (SmConf s (Some (sm_state s)) p)
  | step_timer_run st s p :
      sm_step (SmConf s (Some st) p) None
        (SmConf (state_of (polling_decide st) s) None
           (if result_of (polling_decide st) s
            then (FromTimer st (retry_number s), OSM_SM_SIGNAL_POLLING_TIMEOUT) :: p else p))
  | step_receive m alloc s t p :
      sm_step (SmConf s t p) None
        (SmConf (state_of (sminfo_receive m alloc) s) t
           (match result_of (sminfo_receive m alloc) s with
            | Some (_, sig) => (FromSet m, sig) :: p
            | None => p
            end))
  | step_process src sig s t p p' :
      p ≡ₚ (src, sig) :: p' →
      sm_step (SmConf s t p) (Some (src, sig))
        (SmConf (state_of (osm_sm_state_mgr_process env sig) s) t p')
  | step_handover smi s t p :
      sm_step (SmConf s t p) None (SmConf (state_of (state_mgr_send_handover smi) s) t p)
  | step_lid lid s t p :  (* lid_mgr_process_our_sm_node *)
      sm_step (SmConf s t p) None
        (SmConf (s <| master_sm_base_lid := lid |> <| sm_base_lid := lid |>) t p)
  | step_other s s' t p : (* what the rest of the program writes *)
      sm_state s' = sm_state s → sm_base_lid s' = sm_base_lid s →
      master_sm_base_lid s' = master_sm_base_lid s →
      sm_step (SmConf s t p) None (SmConf s' t p).

(** A run, with the signals processed in it. *)
Inductive sm_run : sm_conf → list (sm_source * osm_sm_signal) → sm_conf → Prop :=
  | run_refl c : sm_run c [] c
  | run_step c c1 c2 l tr :
      sm_step c l c1 → sm_run c1 tr c2 → sm_run c (option_list l ++ tr) c2.

(** After [osm_sm_init]: no state entered, no LID assigned. *)
Definition sm_initial (c : sm_conf) : Prop :=
  sm_state (conf_sm c) = initial_sm_state env ∧ conf_timer c = None ∧ conf_pending c = []
  ∧ sm_base_lid (conf_sm c) = 0 ∧ master_sm_base_lid (conf_sm c) = 0.

(** What may cause a signal. *)
Definition cause_ok (e : sm_source * osm_sm_signal) : Prop :=
  match e.1 with
  | FromSweep => sweep_signal e.2 = true
  | FromTimer st retries =>
      e.2 = OSM_SM_SIGNAL_POLLING_TIMEOUT ∧ opt_polling_retry_number env < retries ∧
      (st = IB_SMINFO_STATE_MASTER ∨ st = IB_SMINFO_STATE_STANDBY)
  | FromSet m =>
      let smp := madw_smp m in
      ib_smp_get_status smp = 0 ∧ smp_method smp = IB_MAD_METHOD_SET ∧
      set_req_signal (smp_attr_mod smp) = Some e.2 ∧
      ib_sminfo_get_state (smp_payload smp)
        = (if bool_decide (e.2 = OSM_SM_SIGNAL_ACKNOWLEDGE)
           then IB_SMINFO_STATE_STANDBY else IB_SMINFO_STATE_MASTER) ∧
      ∃ p mkey lmc, osm_get_port_by_guid env (sm_port_guid env) = Some p ∧
        port_physp p = Some (mkey, lmc) ∧ (mkey = 0 ∨ mkey = smp_m_key smp)
  end.

Definition sm_inv (s : osm_sm) : Prop :=
  known_state (sm_state s)
  ∧ (sm_state s = IB_SMINFO_STATE_MASTER → master_sm_base_lid s = sm_base_lid s).

Lemma initial_inv c : sm_initial c → sm_inv (conf_sm c).
Proof.
  intros (H1 & _ & _ & H3 & H4). split; [|by rewrite H3, H4].
  rewrite H1. unfold initial_sm_state, known_state. case_match; auto.
Qed.

Lemma start_polling_lids s :
  master_sm_base_lid (state_of (sm_state_mgr_start_polling env) s) = master_sm_base_lid s
  ∧ sm_base_lid (state_of (sm_state_mgr_start_polling env) s) = sm_base_lid s.
Proof.
  split.
  - apply (preserves_field _ master_sm_base_lid). intros b. by apply preserves_start_polling.
  - apply (preserves_field _ sm_base_lid). intros b. by apply preserves_start_polling.
Qed.

Lemma process_inv sig : preserves sm_inv (osm_sm_state_mgr_process env sig).
Proof.
  intros s [Hk Hl]. unfold sm_inv. rewrite (proj1 (proj2 (process_parts _ _ _))).
  destruct (start_polling_lids s) as [E1 E2].
  destruct Hk as [Hk|[Hk|[Hk|Hk]]]; rewrite Hk in *; destruct sig; unfold process_in; simpl; act_simpl;
    unfold known_state; rewrite ?start_polling_state, ?Hk;
    try change (state_of signal_error s) with s; rewrite ?Hk, ?E1, ?E2;
    (split; [by auto|first [done | intros _; by apply Hl]]).
Qed.

(** What comes before a signal is processed keeps the state and the LIDs. *)
Definition same_state_lids (s0 s : osm_sm) : Prop :=
  sm_state s = sm_state s0 ∧ sm_base_lid s = sm_base_lid s0 ∧
  master_sm_base_lid s = master_sm_base_lid s0.

Lemma same_state_lids_inv s0 s : same_state_lids s0 s → sm_inv s0 → sm_inv s.
Proof. unfold sm_inv. by intros (-> & -> & ->). Qed.

Lemma decide_same st s0 : preserves (same_state_lids s0) (polling_decide st).
Proof. unfold polling_decide. preserves_tac using apply preserves_send; auto. Qed.

Lemma receive_same m alloc s0 : preserves (same_state_lids s0) (sminfo_receive m alloc).
Proof.
  unfold sminfo_receive. destruct (set_request_arrives m) eqn:E.
  - unfold set_request_check, osm_sm_state_mgr_check_legality.
    preserves_tac using apply preserves_resp_send; auto.
  - unfold osm_sminfo_rcv_process. unfold set_request_arrives in E.
    destruct (_ =? 0); cbn [negb andb] in *; [|preserves_tac].
    destruct (ib_smp_is_response _); cbn [negb andb] in *.
    { unfold smi_rcv_process_set_response. preserves_tac using apply preserves_get_response; auto. }
    destruct (osm_get_port_by_guid _ _) as [p|]; [|preserves_tac]. cbn [mbind option_bind] in E.
    destruct (port_physp p) as [[mkey lmc]|]; [|preserves_tac].
    destruct (_ =? IB_MAD_METHOD_GET); cbn [negb andb] in *.
    { preserves_tac using apply preserves_get_request; auto. }
    rewrite <- negb_orb, E. cbn [negb]. preserves_tac.
Qed.

Lemma handover_preserves (P : osm_sm → Prop) smi :
  (∀ s v, P s → P (s <| master_sm_guid := v |>)) → preserves P (state_mgr_send_handover smi).
Proof. intros H. unfold state_mgr_send_handover. preserves_tac; auto. Qed.

(** *** The abstract machine *)

(** A signal takes the edge it has in the state, and is ignored when it has none. *)
Definition abs_step (st : Z) (sig : osm_sm_signal) (st' : Z) : Prop :=
  sm_edge st sig st' ∨ (st' = st ∧ ∀ st'', ¬ sm_edge st sig st'').

Inductive abs_run : Z → list osm_sm_signal → Z → Prop :=
  | abs_refl st : abs_run st [] st
  | abs_cons st sig st1 sigs st2 :
      abs_step st sig st1 → abs_run st1 sigs st2 → abs_run st (sig :: sigs) st2.

Lemma process_abs sig s :
  known_state (sm_state s) →
  abs_step (sm_state s) sig (sm_state (state_of (osm_sm_state_mgr_process env sig) s)).
Proof.
  intros Hk. rewrite (proj1 (proj2 (process_parts _ _ _))). unfold abs_step.
  destruct Hk as [Hk|[Hk|[Hk|Hk]]]; rewrite Hk; destruct sig;
    unfold process_in; simpl; act_simpl; rewrite ?start_polling_state;
    first [left; constructor | right; split; [exact Hk|intros st'' H; inversion H]].
Qed.

(** One step: the label's signal in the abstract machine, or nothing. *)
Lemma sm_step_simulates c l c' :
  sm_step c l c' → sm_inv (conf_sm c) →
  sm_inv (conf_sm c') ∧
  match l with
  | Some (_, sig) => abs_step (sm_state (conf_sm c)) sig (sm_state (conf_sm c'))
  | None => sm_state (conf_sm c') = sm_state (conf_sm c)
  end.
Proof.
  intros Hs Hi. pose proof (proj1 Hi) as Hk.
  destruct Hs as [sig s t p _|s p|st s p|m alloc s t p|src sig s t p p' _|smi s t p|lid s t p|s s' t p H1 H2 H3];
    cbn [conf_sm] in *.
  - split; [by apply process_inv|by apply process_abs].
  - done.
  - pose proof (decide_same st s s ltac:(done)) as H. split; [by eapply same_state_lids_inv|apply H].
  - pose proof (receive_same m alloc s s ltac:(done)) as H. split; [by eapply same_state_lids_inv|apply H].
  - split; [by apply process_inv|by apply process_abs].
  - pose proof (handover_preserves (same_state_lids s) smi ltac:(done) s ltac:(done)) as H.
    split; [by eapply same_state_lids_inv|apply H].
  - split; [|done]. split; [apply Hi|done].
  - split; [|done]. by eapply same_state_lids_inv.
Qed.

(** *** The causes *)

Lemma decide_cause st s :
  result_of (polling_decide st) s = true →
  cause_ok (FromTimer st (retry_number s), OSM_SM_SIGNAL_POLLING_TIMEOUT).
Proof.
  unfold polling_decide, cause_ok. act_simpl.
  destruct (((st =? IB_SMINFO_STATE_MASTER) && _) || (st =? IB_SMINFO_STATE_STANDBY)) eqn:Est; cbn [negb]; [|done].
  destruct ((st =? IB_SMINFO_STATE_STANDBY) && osm_exit_flag env); act_simpl; [done|].
  destruct (Z.ltb_spec (opt_polling_retry_number env) (retry_number s)) as [Hr|]; act_simpl; [|done].
  intros _. split_and!; [done|done|]. apply orb_true_iff in Est as [H|H]; [left|right; lia].
  apply andb_true_iff in H as [H _]. lia.
Qed.

Lemma receive_cause m alloc s payload sig :
  result_of (sminfo_receive m alloc) s = Some (payload, sig) → cause_ok (FromSet m, sig).
Proof.
  unfold sminfo_receive. destruct (set_request_arrives m) eqn:E; [|by act_simpl].
  unfold set_request_arrives in E. rewrite !andb_true_iff in E. destruct E as [[[E1 E2] E3] E4].
  destruct (osm_get_port_by_guid _ _) as [p|] eqn:Hp; [|done]. cbn [mbind option_bind] in E4.
  destruct (port_physp p) as [[mkey lmc]|] eqn:Hph; [|done].
  unfold set_request_check. destruct (Z.eqb_spec (smp_method (madw_smp m)) IB_MAD_METHOD_SET) as [Hm|]; [|done].
  cbn [negb]. act_simpl. case_bool_decide as Hl; act_simpl; [done|].
  destruct (set_req_signal _) as [sig0|] eqn:Hsig; [|done].
  unfold osm_sm_state_mgr_check_legality. act_simpl. case_bool_decide; act_simpl; [done|]. intros [= _ <-].
  unfold cause_ok. cbn [fst snd]. split_and!; [lia|done|done| |exists p, mkey, lmc; split_and!; [done|done|]].
  2:{ apply orb_true_iff in E4 as [H4|H4]; [left|right]; lia. }
  by rewrite (legality_state _ _ Hl Hsig).
Qed.

Lemma sm_step_causes c l c' :
  sm_step c l c' → Forall cause_ok (conf_pending c) →
  Forall cause_ok (conf_pending c') ∧ Forall cause_ok (option_list l).
Proof.
  intros Hs Hp. destruct Hs as [sig s t p Hsig|s p|st s p|m alloc s t p|src sig s t p p' Hpp|smi s t p|lid s t p|s s' t p];
    cbn [conf_pending option_list] in *; try done.
  - split; [done|]. by repeat constructor.
  - split; [|done]. destruct (result_of (polling_decide st) s) eqn:E; [|done].
    constructor; [by apply decide_cause|done].
  - split; [|done]. destruct (result_of (sminfo_receive m alloc) s) as [[payload sig]|] eqn:E; [|done].
    constructor; [by eapply receive_cause|done].
  - rewrite Hpp in Hp. apply Forall_cons in Hp as [H1 H2]. split; [done|by repeat constructor].
Qed.

Lemma sm_run_abs c tr c' :
  sm_run c tr c' → sm_inv (conf_sm c) → Forall cause_ok (conf_pending c) →
  sm_inv (conf_sm c') ∧ Forall cause_ok tr ∧
  abs_run (sm_state (conf_sm c)) tr.*2 (sm_state (conf_sm c')).
Proof.
  induction 1 as [c|c c1 c2 l tr Hs _ IH]; intros Hi Hp; [split_and!; [done|constructor|constructor]|].
  destruct (sm_step_simulates _ _ _ Hs Hi) as [Hi1 Hl]. destruct (sm_step_causes _ _ _ Hs Hp) as [Hp1 Hc].
  destruct (IH Hi1 Hp1) as (H1 & H2 & H3). split; [done|]. split; [by apply Forall_app|].
  destruct l as [[src sig]|]; cbn; [by eapply abs_cons|by rewrite <- Hl].
Qed.

(** C27. Refinement: the SM, with its timer, its sweep and the SMInfo MADs it receives run in
    any order from lock to lock, is the state machine of IBA 14.4.  Of the signals
    processed in a run, in that order, each takes the edge it has in the current state
    or, having none, leaves it, and nothing else moves [sm_state], also when the state
    has changed since a signal was checked or the timer's callback read it.  And each
    signal has a cause: the sweep sent it, the master left more polls than the limit
    unanswered, or a Set(SMInfo) asked for it, with the M_Key of the port, from an SM
    that says it is MASTER (STANDBY for an acknowledge). *)
Theorem sm_refines_abstract c0 tr c :
  sm_initial c0 → sm_run c0 tr c →
  abs_run (initial_sm_state env) tr.*2 (sm_state (conf_sm c)) ∧ Forall cause_ok tr.
Proof.
  intros H0 Hr. pose proof (initial_inv _ H0) as Hi. destruct H0 as (E & _ & Hp & _). rewrite <- E.
  destruct (sm_run_abs _ _ _ Hr Hi) as (_ & H1 & H2); [by rewrite Hp|done].
Qed.

(** In every state that any interleaving of the timer, the SM's own
    signals, received SMInfo MADs, the LID manager and the other writers can
    reach, the SM is in one of the four states of the specification, and a
    MASTER advertises its own LID as the master's. *)
Theorem reachable_master_lid c0 tr c :
  sm_initial c0 → sm_run c0 tr c →
  known_state (sm_state (conf_sm c))
  ∧ (sm_state (conf_sm c) = IB_SMINFO_STATE_MASTER →
     master_sm_base_lid (conf_sm c) = sm_base_lid (conf_sm c)).
Proof.
  intros H0 Hr. pose proof (initial_inv _ H0) as Hi. destruct H0 as (_ & _ & Hp & _).
  change (sm_inv (conf_sm c)). by apply (sm_run_abs _ _ _ Hr Hi); rewrite Hp.
Qed.

(** ** Receiving a handover *)

Lemma process_handover_standby s :
  sm_state s = IB_SMINFO_STATE_STANDBY →
  osm_sm_state_mgr_process env OSM_SM_SIGNAL_HANDOVER s
  = (IB_SUCCESS,
     s <| master_sm_base_lid := sm_base_lid s |> <| force_first_time_master_sweep := true |>
       <| sm_state := IB_SMINFO_STATE_MASTER |>,
     [OutReport IB_SMINFO_STATE_MASTER; OutSweep]).
Proof. intros Hst. by rewrite process_unfold, Hst. Qed.

Lemma receive_handover m s p mkey lmc :
  sm_state s = IB_SMINFO_STATE_STANDBY →
  osm_get_port_by_guid env (sm_port_guid env) = Some p → port_physp p = Some (mkey, lmc) →
  smp_status (madw_smp m) = 0 → smp_method (madw_smp m) = IB_MAD_METHOD_SET →
  smp_attr_mod (madw_smp m) = IB_SMINFO_ATTR_MOD_HANDOVER → smp_m_key (madw_smp m) = mkey →
  ib_sminfo_get_state (smp_payload (madw_smp m)) = IB_SMINFO_STATE_MASTER →
  let run := osm_sminfo_rcv_process m true in
  sm_state (state_of run s) = IB_SMINFO_STATE_MASTER
  ∧ master_sm_base_lid (state_of run s) = sm_base_lid s
  ∧ force_first_time_master_sweep (state_of run s) = true
  ∧ OutSweep ∈ outputs_of run s.
Proof.
  intros Hst Hp Hph Hz Hmeth Hattr Hkey Hms. simpl.
  pose proof attr_mods_distinct as Hnd.
  apply NoDup_cons in Hnd as [Hnd _]. rewrite !not_elem_of_cons in Hnd.
  destruct Hnd as (Hack & _ & Hstb & _).
  unfold osm_sminfo_rcv_process, ib_smp_get_status, ib_smp_is_response.
  rewrite Hz, Hmeth, Hp, Hph. simpl. rewrite Hkey, Z.eqb_refl, andb_false_r.
  unfold smi_rcv_process_set_request, smi_rcv_check_set_req_legality, set_req_signal.
  rewrite Hmeth, Hattr, Hms, (proj2 (Z.eqb_neq _ _) Hack), !Z.eqb_refl. simpl.
  rewrite ?(proj2 (Z.eqb_neq _ _) Hstb).
  unfold osm_sm_state_mgr_check_legality. act_simpl. rewrite Hst. simpl.
  unfold osm_resp_send.
  destruct (osm_exit_flag env), (mad_pool_available env); act_simpl;
    unfold state_of, outputs_of; rewrite process_handover_standby by done; set_solver.
Qed.

(** ** Responses *)

(** The conditions under which the code uses an SMInfo response. *)
Definition response_accepted (m : osm_madw) (alloc : bool) (s : osm_sm) : bool :=
  let smi := smp_payload (madw_smp m) in
  (ib_smp_get_status (madw_smp m) =? 0) && (ctx_port_guid m =? smi_guid smi)
  && negb (ctx_set_method m) && (smp_method (madw_smp m) =? IB_MAD_METHOD_GET_RESP)
  && ((opt_sm_key env =? 0) || (smi_sm_key smi =? opt_sm_key env))
  && bool_decide (port_guid <$> osm_get_port_by_guid env (smi_guid smi) = Some (smi_guid smi))
  && negb (smi_guid smi =? sm_port_guid env)
  && (bool_decide (is_Some (sm_guid_tbl s !! smi_guid smi)) || alloc).

(** A remote SM that a discovering SM gives way to. *)
Definition gives_way_to (smi : ib_sm_info) : bool :=
  (ib_sminfo_get_state smi =? IB_SMINFO_STATE_MASTER)
  || (((ib_sminfo_get_state smi =? IB_SMINFO_STATE_DISCOVERING)
       || (ib_sminfo_get_state smi =? IB_SMINFO_STATE_STANDBY))
      && smi_rcv_remote_sm_is_higher smi).

Lemma get_sm_tbl smi light s :
  sm_guid_tbl (state_of (smi_rcv_process_get_sm smi light) s) = sm_guid_tbl s.
Proof.
  apply (preserves_field _ sm_guid_tbl). intros b.
  unfold smi_rcv_process_get_sm, osm_sm_state_mgr_signal_master_is_alive.
  preserves_tac using apply preserves_trap144; done.
Qed.

Lemma get_sm_discovering smi light s :
  sm_state s = IB_SMINFO_STATE_DISCOVERING →
  smi_rcv_process_get_sm smi light s
  = (tt, (if gives_way_to smi
          then s <| master_sm_found := true |> <| master_sm_guid := smi_guid smi |>
          else s), []).
Proof.
  intros Hst. unfold smi_rcv_process_get_sm, gives_way_to.
  cbv [mbind act_bind gets]. rewrite Hst. simpl.
  destruct (Z.eqb_spec (ib_sminfo_get_state smi) IB_SMINFO_STATE_NOTACTIVE) as [->|]; [done|].
  repeat (case_match; simpl); done.
Qed.

(** An SMInfo response is either dropped without a trace or recorded.  A
    failed check (status, port GUID of the request, SM_Key, a port the subnet
    does not know, our own GUID, no memory) leaves the state as it was and sends
    nothing; an accepted response puts the remote SM's SMInfo in [sm_guid_tbl],
    and while we discover it marks a master exactly when the remote SM is MASTER
    or is a higher SM in DISCOVERING or STANDBY. *)
Theorem response_recorded m alloc s :
  let smi := smp_payload (madw_smp m) in
  let run := osm_sminfo_rcv_process m alloc s in
  let s' := state_of (osm_sminfo_rcv_process m alloc) s in
  ib_smp_is_response (madw_smp m) = true →
  (response_accepted m alloc s = false → run = (tt, s, []))
  ∧ (response_accepted m alloc s = true →
     sm_guid_tbl s' = <[smi_guid smi := smi]> (sm_guid_tbl s)
     ∧ (sm_state s = IB_SMINFO_STATE_DISCOVERING →
        master_sm_found s' = master_sm_found s || gives_way_to smi
        ∧ (gives_way_to smi = true → master_sm_guid s' = smi_guid smi))).
Proof.
  simpl. intros Hresp. set (smi := smp_payload (madw_smp m)).
  assert (Hrun : osm_sminfo_rcv_process m alloc s =
    if response_accepted m alloc s
    then smi_rcv_process_get_sm smi (ctx_light_sweep m)
           (s <| sm_guid_tbl := <[smi_guid smi := smi]> (sm_guid_tbl s) |>)
    else (tt, s, [])).
  { unfold osm_sminfo_rcv_process, response_accepted, smi_rcv_process_get_response,
      smi_rcv_process_set_response. rewrite Hresp. fold smi.
    destruct (ib_smp_get_status _ =? 0); [simpl|done].
    destruct (ctx_port_guid m =? smi_guid smi); [simpl|done].
    destruct (ctx_set_method m); [done|simpl].
    destruct (smp_method _ =? IB_MAD_METHOD_GET_RESP); [simpl|done].
    destruct (opt_sm_key env =? 0); simpl.
    2: destruct (smi_sm_key smi =? opt_sm_key env); [simpl|done].
    all: destruct (osm_get_port_by_guid env (smi_guid smi)) as [p|]; simpl; [|done].
    all: destruct (Z.eqb_spec (port_guid p) (smi_guid smi)) as [->|Hpg]; simpl;
      [rewrite bool_decide_true by done|rewrite bool_decide_false by congruence; done].
    all: destruct (smi_guid smi =? sm_port_guid env); [done|simpl].
    all: cbv [mbind act_bind gets modify]; destruct (sm_guid_tbl s !! smi_guid smi) eqn:Et; simpl;
      [|destruct alloc; simpl; [|done]];
      by destruct (smi_rcv_process_get_sm _ _ _) as [[[] ?] ?]. }
  split; intros Hacc; rewrite Hacc in Hrun; [done|].
  unfold state_of. rewrite Hrun. fold (state_of (smi_rcv_process_get_sm smi (ctx_light_sweep m))
    (s <| sm_guid_tbl := <[smi_guid smi := smi]> (sm_guid_tbl s) |>)).
  split; [by rewrite get_sm_tbl|]. intros Hst. unfold state_of.
  rewrite get_sm_discovering by done. simpl.
  case_match; simpl; [by rewrite orb_true_r|by rewrite orb_false_r].
Qed.
End SmInfo.

(** ** The election *)

Section Election.
Context {BO : ByteOrder}.

(** A fabric: the SMInfo of each of its SMs under its GUID, a 64-bit number, all
    of them active. *)
Definition fabric_ok (fabric : gmap Z ib_sm_info) : Prop :=
  map_Forall (λ g smi, smi_guid smi = g ∧ 0 ≤ g < 2 ^ 64 ∧ sm_active smi) fabric.

(** The SM [g] of the fabric knows its own rank and the SMInfo of the others. *)
Definition knows_fabric (fabric : gmap Z ib_sm_info) (g : Z) (env : sm_env) (s : osm_sm) : Prop :=
  sm_port_guid env = g
  ∧ (∃ smi, fabric !! g = Some smi ∧ opt_sm_priority env = ib_sminfo_get_priority smi)
  ∧ sm_guid_tbl s = delete g fabric.

Lemma sm_above_total fabric g g' x y :
  fabric_ok fabric → fabric !! g = Some x → fabric !! g' = Some y → g ≠ g' →
  sm_above x y = true ∨ sm_above y x = true.
Proof.
  intros Hok Hx Hy Hne. destruct (Hok g x Hx) as (<- & Hgx & _), (Hok g' y Hy) as (<- & Hgy & _).
  unfold sm_above. rewrite !osm_sm_is_greater_than_true.
  assert (cl_ntoh64 (smi_guid x) ≠ cl_ntoh64 (smi_guid y)) by by intros E%cl_ntoh64_inj.
  lia.
Qed.

(** Some SM of a fabric is above all the others. *)
Lemma fabric_winner fabric :
  fabric_ok fabric → fabric ≠ ∅ →
  ∃ w x, fabric !! w = Some x ∧ ∀ g y, fabric !! g = Some y → sm_above y x = false.
Proof.
  intros Hok Hne. destruct (map_choose fabric Hne) as (g0 & x0 & H0).
  destruct (highest_loop_spec (qmap_items fabric) None
    (ib_sminfo_get_priority x0) (smi_guid x0)) as [[_ H]|(w & x & Hin & _ & _ & _ & H)].
  - exists g0, x0. split; [done|]. intros g y Hy. apply (H g y);
      [by apply elem_of_qmap_items|apply (Hok g y Hy)].
  - exists w, x. split; [by apply elem_of_qmap_items|]. intros g y Hy. apply (H g y);
      [by apply elem_of_qmap_items|apply (Hok g y Hy)].
Qed.

(** C25. The SMs of a fabric agree on their master.  When each of them knows the
    SMInfo of the others, exactly one, [w], finds no SM above itself in
    [state_mgr_get_highest_sm], and every other SM finds [w]. *)
Theorem election_agrees fabric :
  fabric_ok fabric → fabric ≠ ∅ →
  ∃ w smiw, fabric !! w = Some smiw
  ∧ ∀ g env s, knows_fabric fabric g env s →
    state_mgr_get_highest_sm env s = if decide (g = w) then None else Some smiw.
Proof.
  intros Hok Hne. destruct (fabric_winner fabric Hok Hne) as (w & smiw & Hw & Htop).
  exists w, smiw. split; [done|]. intros g env s (Hg & (smi & Hsmi & Hprio) & Htbl).
  unfold state_mgr_get_highest_sm. rewrite Htbl, Hprio, Hg.
  destruct (Hok g smi Hsmi) as (Hself & _ & _).
  assert (Hitem : ∀ k y, (k, y) ∈ qmap_items (delete g fabric) ↔ k ≠ g ∧ fabric !! k = Some y).
  { intros k y. rewrite elem_of_qmap_items, lookup_delete_Some. naive_solver. }
  destruct (highest_loop_spec (qmap_items (delete g fabric)) None
    (ib_sminfo_get_priority smi) g) as [[-> H]|(k & x & Hin & Ha & -> & Habove & H)].
  - case_decide as Hgw; [done|]. exfalso.
    destruct (sm_above_total fabric g w smi smiw Hok Hsmi Hw Hgw) as [E|E].
    + by rewrite (Htop g smi) in E.
    + unfold sm_above in E. rewrite Hself, (H w) in E; [done| |apply (Hok w smiw Hw)].
      by apply Hitem.
  - apply Hitem in Hin as [Hkg Hx]. case_decide as Hgw.
    + subst w. replace smiw with smi in * by congruence.
      specialize (Htop k x Hx). unfold sm_above in Htop. by rewrite Hself, Habove in Htop.
    + destruct (decide (k = w)) as [->|Hkw]; [congruence|].
      destruct (sm_above_total fabric k w x smiw Hok Hx Hw Hkw) as [E|E].
      * by rewrite (Htop k x) in E.
      * rewrite (H w) in E; [done| |apply (Hok w smiw Hw)]. by apply Hitem.
Qed.

(** *** Handing mastership over *)

(** The SMP of a request, as [ib_smp_init_new] sets it up. *)
Definition request_smp (mad : sm_mad) : option ib_smp :=
  match mad with
  | MadSetSMInfo _ attr_mod m_key smi =>
      Some (Smp IB_MCLASS_SUBN_DIR IB_MAD_METHOD_SET 0 attr_mod m_key smi)
  | _ => None
  end.

(** Mastership moves from one SM to the other.  A MASTER that hands over to
    a STANDBY SM whose M_Key it knows sends one Set(SMInfo); that SM, on
    receiving it, becomes MASTER on its own LID, starts a first-time master sweep
    and wakes its sweeper; the sender, on [HANDOVER_SENT], becomes STANDBY and
    polls the new master's GUID. *)
Theorem handover_transfers enva sa envb sb smib pa pb mkeya mkeyb lmca lmcb ctx :
  sm_state sa = IB_SMINFO_STATE_MASTER → sm_state sb = IB_SMINFO_STATE_STANDBY →
  0 ≤ opt_sm_priority enva < 16 →
  osm_exit_flag enva = false → mad_pool_available enva = true →
  osm_get_port_by_guid enva (smi_guid smib) = Some pa → port_physp pa = Some (mkeya, lmca) →
  osm_get_port_by_guid envb (sm_port_guid envb) = Some pb → port_physp pb = Some (mkeyb, lmcb) →
  req_m_key enva mkeya = mkeyb →
  ∃ mad smp,
    outputs_of (state_mgr_send_handover enva smib) sa = [OutPost mad]
    ∧ request_smp mad = Some smp
    ∧ (let run := osm_sminfo_rcv_process envb (ctx smp) true in
       madw_smp (ctx smp) = smp →
       sm_state (state_of run sb) = IB_SMINFO_STATE_MASTER
       ∧ master_sm_base_lid (state_of run sb) = sm_base_lid sb
       ∧ force_first_time_master_sweep (state_of run sb) = true
       ∧ OutSweep ∈ outputs_of run sb)
    ∧ (let run := osm_sm_state_mgr_process enva OSM_SM_SIGNAL_HANDOVER_SENT in
       let sa' := state_of (state_mgr_send_handover enva smib) sa in
       sm_state (state_of run sa') = IB_SMINFO_STATE_STANDBY
       ∧ master_sm_guid (state_of run sa') = port_guid pa).
Proof.
  intros Hsa Hsb Hprio Hex Hpool Hpa Hpha Hpb Hphb Hkey.
  exists (MadSetSMInfo (port_guid pa) IB_SMINFO_ATTR_MOD_HANDOVER mkeyb
            (own_sm_info enva IB_SMINFO_STATE_MASTER true)).
  eexists. split_and!.
  - unfold state_mgr_send_handover. rewrite Hpa, Hpha, Hex, Hpool. simpl.
    rewrite Hkey. act_simpl. by rewrite Hsa.
  - done.
  - simpl. set (m := ctx _). intros Hm. by apply (receive_handover envb m sb pb mkeyb lmcb);
      rewrite ?Hm; auto; apply own_sm_info_state.
  - simpl. set (sa' := state_of _ sa).
    assert (sm_state sa' = IB_SMINFO_STATE_MASTER ∧ master_sm_guid sa' = port_guid pa) as [H1 H2].
    { subst sa'. unfold state_mgr_send_handover. rewrite Hpa, Hex, Hpool. by act_simpl. }
    rewrite (proj1 (proj2 (process_parts _ _ _))), H1. unfold process_in. simpl. act_simpl.
    rewrite start_polling_state. split; [done|].
    by rewrite (preserves_field _ master_sm_guid) by (intros; by apply preserves_start_polling).
Qed.
End Election.

(** ** Witnesses *)

(** The SMs 7 (priority 5, STANDBY) and 9 (priority 5, MASTER), little endian. *)
#[local] Instance demo_bo : ByteOrder := true.
Definition demo_smi7 : ib_sm_info := SmInfo 7 0 0 0x52.
Definition demo_smi9 : ib_sm_info := SmInfo 9 0 0 0x53.
Definition demo_fabric : gmap Z ib_sm_info := {[ 7 := demo_smi7; 9 := demo_smi9 ]}.

Definition demo_env9 : sm_env :=
  SmEnv 9 10000 4 5 0 false (port_guid_tbl demo_env) false 0 true true 0.

Definition demo_madw (smp : ib_smp) : osm_madw := Madw smp 9 false false.

(** Set(SMInfo) HANDOVER from 9. *)
Definition demo_handover : osm_madw :=
  demo_madw (Smp IB_MCLASS_SUBN_DIR IB_MAD_METHOD_SET 0 IB_SMINFO_ATTR_MOD_HANDOVER 0 demo_smi9).

Lemma demo_standby_known : known_state (sm_state (demo_sm IB_SMINFO_STATE_STANDBY 9)).
Proof. right; right; left; reflexivity. Defined.

Lemma demo_fabric_ok : fabric_ok demo_fabric.
Proof.
  apply map_Forall_insert_2; [|apply map_Forall_singleton]; (split; [reflexivity|]);
    (split; [lia|vm_compute; discriminate]).
Qed.

Lemma election_agrees_witness :
  ∃ w smiw, demo_fabric !! w = Some smiw
  ∧ ∀ g env s, knows_fabric demo_fabric g env s →
    state_mgr_get_highest_sm env s = if decide (g = w) then None else Some smiw.
Proof.
  apply (election_agrees demo_fabric); [exact demo_fabric_ok|vm_compute; discriminate].
Defined.

Lemma sminfo_state_change_authorised_witness :
  ∃ sig, set_req_signal IB_SMINFO_ATTR_MOD_HANDOVER = Some sig
    ∧ sm_edge IB_SMINFO_STATE_STANDBY sig IB_SMINFO_STATE_MASTER.
Proof.
  destruct (sminfo_state_change_authorised demo_env demo_handover true
    (demo_sm IB_SMINFO_STATE_STANDBY 9)) as (_ & _ & _ & _ & _ & sig & H1 & _ & H2).
  - exact demo_standby_known.
  - vm_compute. discriminate.
  - exists sig. split; [exact H1|exact H2].
Defined.

Definition demo_conf0 : sm_conf := SmConf (OsmSm 1 0 0 0 false 0 0 false false false false false ∅) None [].
Definition demo_trace : list (sm_source * osm_sm_signal) := [(FromSweep, OSM_SM_SIGNAL_DISCOVERY_COMPLETED)].
Definition demo_conf1 : sm_conf :=
  SmConf (state_of (osm_sm_state_mgr_process demo_env OSM_SM_SIGNAL_DISCOVERY_COMPLETED)
    (conf_sm demo_conf0)) None [].

Lemma demo_initial : sm_initial demo_env demo_conf0.
Proof. split_and!; reflexivity. Qed.

Lemma demo_run : sm_run demo_env demo_conf0 demo_trace demo_conf1.
Proof.
  change demo_trace with (option_list (Some (FromSweep, OSM_SM_SIGNAL_DISCOVERY_COMPLETED)) ++ []).
  eapply run_step; [by apply step_sweep|apply run_refl].
Qed.

Lemma reachable_master_lid_witness :
  sm_state (conf_sm demo_conf1) = IB_SMINFO_STATE_MASTER
  ∧ master_sm_base_lid (conf_sm demo_conf1) = sm_base_lid (conf_sm demo_conf1).
Proof.
  split; [reflexivity|].
  apply (reachable_master_lid demo_env demo_conf0 demo_trace demo_conf1 demo_initial demo_run). reflexivity.
Defined.

Lemma sm_refines_abstract_witness :
  abs_run IB_SMINFO_STATE_DISCOVERING demo_trace.*2 (sm_state (conf_sm demo_conf1))
  ∧ Forall (cause_ok demo_env) demo_trace.
Proof. exact (sm_refines_abstract demo_env demo_conf0 demo_trace demo_conf1 demo_initial demo_run). Defined.

(** 7, a STANDBY, is told to take over, then its timer's signal comes too late. *)
Definition demo_late : sm_conf :=
  SmConf (demo_sm IB_SMINFO_STATE_STANDBY 9) None
    [(FromTimer IB_SMINFO_STATE_STANDBY 5, OSM_SM_SIGNAL_POLLING_TIMEOUT)].

Lemma demo_late_run : ∃ c,
  sm_run demo_env demo_late [(FromSet demo_handover, OSM_SM_SIGNAL_HANDOVER);
    (FromTimer IB_SMINFO_STATE_STANDBY 5, OSM_SM_SIGNAL_POLLING_TIMEOUT)] c ∧
  sm_state (conf_sm c) = IB_SMINFO_STATE_MASTER ∧ conf_pending c = [].
Proof.
  eexists. split.
  - eapply (run_step _ _ _ _ None); [apply (step_receive _ demo_handover true)|].
    eapply (run_step _ _ _ _ (Some (FromSet demo_handover, OSM_SM_SIGNAL_HANDOVER)));
      [apply (step_process _ _ _ _ _ _ (conf_pending demo_late)); vm_compute; reflexivity|].
    eapply (run_step _ _ _ _ (Some _) []); [by apply (step_process _ _ _ _ _ _ [])|apply run_refl].
  - split; vm_compute; reflexivity.
Qed.

(** A Get response of 9, received while 7 discovers. *)
Definition demo_response : osm_madw :=
  demo_madw (Smp IB_MCLASS_SUBN_DIR IB_MAD_METHOD_GET_RESP 0 0 0 demo_smi9).

Lemma response_recorded_witness :
  sm_guid_tbl (state_of (osm_sminfo_rcv_process demo_env demo_response true)
    (demo_sm IB_SMINFO_STATE_DISCOVERING 0)) = <[9 := demo_smi9]> ∅.
Proof.
  apply (response_recorded demo_env demo_response true (demo_sm IB_SMINFO_STATE_DISCOVERING 0));
    vm_compute; reflexivity.
Defined.

Lemma handover_transfers_witness :
  ∃ mad smp,
    outputs_of (state_mgr_send_handover demo_env9 demo_smi7) (demo_sm IB_SMINFO_STATE_MASTER 9)
      = [OutPost mad]
    ∧ request_smp mad = Some smp
    ∧ sm_state (state_of (osm_sminfo_rcv_process demo_env (demo_madw smp) true)
        (demo_sm IB_SMINFO_STATE_STANDBY 9)) = IB_SMINFO_STATE_MASTER.
Proof.
  destruct (handover_transfers demo_env9 (demo_sm IB_SMINFO_STATE_MASTER 9) demo_env
    (demo_sm IB_SMINFO_STATE_STANDBY 9) demo_smi7 (OsmPort 7 (Some (0, 0)))
    (OsmPort 7 (Some (0, 0))) 0 0 0 0 demo_madw) as (mad & smp & H1 & H2 & H3 & _);
    try reflexivity.
  { vm_compute. split; congruence. }
  exists mad, smp. split; [exact H1|]. split; [exact H2|]. apply H3. reflexivity.
Defined.
