(* ===== verification/Pkey.v ===== *)
(** * P_Key tables: [opensm/osm_pkey.c]

    A table keeps the blocks read from the port, the blocks the SM will write, the
    map [keys] that indexes the first, and the map [accum_pkeys] of the indexes
    P_Keys were given.  The values of [keys] are pointers into the blocks; the
    model keeps them as the position they point to and reads the block when the
    code dereferences, so a block that changes is seen through the map. *)

From S2P Require Import Prelude IbTypes PtrVector.

Open Scope Z_scope.

(** ** Maps of [complib/cl_map.c] *)

(** [cl_map_insert] of a key that is present keeps the old object. *)
Definition cl_map_insert {A} (m : gmap Z A) (key : Z) (x : A) : gmap Z A :=
  match m !! key with Some _ => m | None => <[key := x]> m end.

(** ** Data *)

Definition IB_NUM_PKEY_ELEMENTS_IN_BLOCK : nat := 32.

(** A block of 32 entries; a position in the table. *)
Definition ib_pkey_table := list Z.
Definition pkey_pos := (nat * nat)%type.

Record osm_pkey_tbl := PkeyTbl {
  accum_pkeys : gmap Z Z;   (* P_Key to index + 1 *)
  blocks : list (option ib_pkey_table);
  new_blocks : list (option ib_pkey_table);
  keys : gmap Z pkey_pos;
  last_pkey_idx : Z;
  used_blocks : Z;
  max_blocks : Z;
  rcv_blocks_cnt : Z;
  indx0_pkey : Z
}.

#[export] Instance osm_pkey_tbl_eta : Eta osm_pkey_tbl := λ t,
  PkeyTbl (accum_pkeys t) (blocks t) (new_blocks t) (keys t) (last_pkey_idx t)
    (used_blocks t) (max_blocks t) (rcv_blocks_cnt t) (indx0_pkey t).

Record osm_physp := Physp { physp_id : Z; physp_pkeys : osm_pkey_tbl }.

Inductive pkey_status := PKEY_SUCCESS | PKEY_ERROR.

Definition zero_block : ib_pkey_table := replicate IB_NUM_PKEY_ELEMENTS_IN_BLOCK 0.

Section Pkey.
Context {BO : ByteOrder}.

(** ** The table *)

Definition osm_pkey_tbl_init (t : osm_pkey_tbl) : osm_pkey_tbl :=
  PkeyTbl ∅ [] [] ∅ 0 0 0 0 0.

(** A null pointer past the end of a vector of blocks. *)
Definition block_get (v : list (option ib_pkey_table)) (block : nat) : option ib_pkey_table :=
  mjoin (v !! block).
Definition osm_pkey_tbl_block_get (t : osm_pkey_tbl) := block_get (blocks t).
Definition osm_pkey_tbl_new_block_get (t : osm_pkey_tbl) := block_get (new_blocks t).

(** The entry a pointer of [keys] points to. *)
Definition pkey_at (t : osm_pkey_tbl) (p : pkey_pos) : option Z :=
  blk ← osm_pkey_tbl_block_get t p.1; blk !! p.2.

Definition osm_pkey_tbl_init_new_blocks (t : osm_pkey_tbl) : osm_pkey_tbl :=
  t <| new_blocks := fmap (M:=list) (fmap (λ _, zero_block)) (new_blocks t) |>.

(** The key of an entry in [keys]. *)
Definition pkey_key (allow_both_pkeys : bool) (pkey : Z) : Z :=
  if allow_both_pkeys then pkey else ib_pkey_get_base pkey.

(** The body of the inner loop over the entries of a block. *)
Definition keys_add (t : osm_pkey_tbl) (allow_both_pkeys : bool)
    (m : gmap Z pkey_pos) (p : pkey_pos) (pkey : Z) : gmap Z pkey_pos :=
  if ib_pkey_is_invalid pkey then m
  else
    let pkey_base := pkey_key allow_both_pkeys pkey in
    match m !! pkey_base ≫= pkey_at t with
    | None => cl_map_insert m pkey_base p
    | Some prev =>
        if negb allow_both_pkeys && (cl_ntoh16 prev <? cl_ntoh16 pkey)
        then cl_map_insert m pkey_base p else m
    end.

(** The entries of the table in the order of the two loops. *)
Definition block_entries (b : nat) (blk : option ib_pkey_table) : list (pkey_pos * Z) :=
  match blk with
  | None => []
  | Some blk => imap (λ i pkey, ((b, i), pkey)) blk
  end.

Definition tbl_entries (v : list (option ib_pkey_table)) : list (pkey_pos * Z) :=
  mjoin (imap block_entries v).

Definition refresh_keys (t : osm_pkey_tbl) (allow_both_pkeys : bool) : gmap Z pkey_pos :=
  foldl (λ m e, keys_add t allow_both_pkeys m e.1 e.2) ∅ (tbl_entries (blocks t)).

Definition osm_pkey_tbl_set (t : osm_pkey_tbl) (block : nat) (p_tbl : ib_pkey_table)
    (allow_both_pkeys alloc : bool) : pkey_status * osm_pkey_tbl :=
  if bool_decide (osm_pkey_tbl_block_get t block = None) && negb alloc then (PKEY_ERROR, t)
  else
    let t := t <| blocks := vec_set (blocks t) block (Some p_tbl) |> in
    (PKEY_SUCCESS, t <| keys := refresh_keys t allow_both_pkeys |>).

(** ** Accumulated P_Keys *)

Definition osm_pkey_tbl_set_accum_pkeys (t : osm_pkey_tbl) (pkey pkey_idx : Z) : osm_pkey_tbl :=
  let t := if last_pkey_idx t <=? pkey_idx
           then t <| last_pkey_idx := u16 (pkey_idx + 1) |> else t in
  let accum := match accum_pkeys t !! pkey with
               | Some _ => delete pkey (accum_pkeys t)
               | None => accum_pkeys t
               end in
  t <| accum_pkeys := cl_map_insert accum pkey (pkey_idx + 1) |>.

Definition osm_pkey_find_last_accum_pkey_index (t : osm_pkey_tbl) : osm_pkey_tbl :=
  t <| last_pkey_idx :=
    foldl (λ last e, if last <? u16 e.2 then u16 e.2 else last) 0
      (qmap_items (accum_pkeys t)) |>.

(** ** The blocks the SM will write *)

Definition osm_pkey_tbl_set_new_entry (t : osm_pkey_tbl) (block_idx pkey_idx : nat)
    (pkey : Z) (alloc : bool) : pkey_status * osm_pkey_tbl :=
  match osm_pkey_tbl_new_block_get t block_idx, alloc with
  | None, false => (PKEY_ERROR, t)
  | blk, _ =>
      let blk := default zero_block blk in
      let t := t <| new_blocks :=
                 vec_set (new_blocks t) block_idx (Some (<[pkey_idx := pkey]> blk)) |> in
      (PKEY_SUCCESS,
        if used_blocks t <=? Z.of_nat block_idx
        then t <| used_blocks := u16 (Z.of_nat block_idx + 1) |> else t)
  end.

(** The [while] loop of the search; each round moves on by one entry. *)
Fixpoint find_next_free (t : osm_pkey_tbl) (fuel : nat) (b i : nat) : bool * nat * nat :=
  match fuel with
  | O => (false, b, i)
  | S fuel =>
      if max_blocks t <=? Z.of_nat b then (false, b, i)
      else
        let '(b, i) := if (IB_NUM_PKEY_ELEMENTS_IN_BLOCK - 1 <? i)%nat
                       then (b + 1, 0)%nat else (b, i) in
        if max_blocks t <=? Z.of_nat b then (false, b, i)
        else
          match osm_pkey_tbl_new_block_get t b with
          | None => (true, b, i)
          | Some blk =>
              if ib_pkey_is_invalid (blk !!! i) then (true, b, i)
              else find_next_free t fuel b (i + 1)
          end
  end.

(** Enough rounds for every entry from the start to the last block. *)
Definition osm_pkey_find_next_free_entry (t : osm_pkey_tbl) (b i : nat) : bool * nat * nat :=
  find_next_free t (S (Z.to_nat (max_blocks t) * IB_NUM_PKEY_ELEMENTS_IN_BLOCK)) b i.

(** ** Membership *)

Definition match_pkey (pkey1 pkey2 : Z) : bool :=
  if negb (ib_pkey_is_full_member pkey1 || ib_pkey_is_full_member pkey2) then false
  else ib_pkey_get_base pkey1 =? ib_pkey_get_base pkey2.

(** [cl_map_get] on [keys], dereferenced. *)
Definition keys_get (t : osm_pkey_tbl) (key : Z) : option Z := keys t !! key ≫= pkey_at t.

Definition osm_physp_share_this_pkey (p1 p2 : osm_physp) (pkey : Z) (allow_both_pkeys : bool)
    : bool :=
  let full_pkey := Z.lor pkey IB_PKEY_TYPE_MASK in
  let limited_pkey := Z.land pkey (Z.lnot IB_PKEY_TYPE_MASK) in
  let get t :=
    if allow_both_pkeys then
      match keys_get t full_pkey with
      | Some k => Some k
      | None => keys_get t limited_pkey
      end
    else keys_get t (ib_pkey_get_base pkey) in
  match get (physp_pkeys p1), get (physp_pkeys p2) with
  | Some pkey1, Some pkey2 => match_pkey pkey1 pkey2
  | _, _ => false
  end.

(** What an iterator over [keys] shows: key and dereferenced object. *)
Definition key_items (t : osm_pkey_tbl) : list (Z * Z) :=
  omap (λ e, pkey ← pkey_at t e.2; Some (e.1, pkey)) (qmap_items (keys t)).

(** The [while] loops over two maps: [skip1] and [skip2] are the [continue]s of
    the second and third loop, [kf] the value compared to advance. *)
Section CommonLoop.
Context (skip1 skip2 : Z → bool) (kf : Z → Z).

Fixpoint common_loop (l1 : list (Z * Z)) : list (Z * Z) → option Z :=
  fix inner (l2 : list (Z * Z)) : option Z :=
    match l1, l2 with
    | (k1, pkey1) :: l1', (k2, pkey2) :: l2' =>
        if skip1 pkey1 then common_loop l1' l2
        else if skip2 pkey2 then inner l2'
        else if match_pkey pkey1 pkey2 then Some pkey1
        else if kf k2 =? kf k1 then common_loop l1' l2'
        else if kf k2 <? kf k1 then inner l2'
        else common_loop l1' l2
    | _, _ => None
    end.
End CommonLoop.

Definition is_limited (pkey : Z) : bool := negb (ib_pkey_is_full_member pkey).

Definition osm_physp_find_common_pkey (p1 p2 : osm_physp) (allow_both_pkeys : bool) : Z :=
  let l1 := key_items (physp_pkeys p1) in
  let l2 := key_items (physp_pkeys p2) in
  match common_loop (λ _, false) (λ _, false) id l1 l2 with
  | Some pkey => pkey
  | None =>
      if negb allow_both_pkeys then 0
      else match common_loop is_limited ib_pkey_is_full_member ib_pkey_get_base l1 l2 with
      | Some pkey => pkey
      | None =>
          default 0 (common_loop ib_pkey_is_full_member is_limited ib_pkey_get_base l1 l2)
      end
  end.

Definition osm_physp_share_pkey (p1 p2 : osm_physp) (allow_both_pkeys : bool) : bool :=
  if physp_id p1 =? physp_id p2 then true
  else if bool_decide (keys (physp_pkeys p1) = ∅) || bool_decide (keys (physp_pkeys p2) = ∅)
  then true
  else negb (ib_pkey_is_invalid (osm_physp_find_common_pkey p1 p2 allow_both_pkeys)).

(** A port is its physical port, when it has one. *)
Definition osm_port_share_pkey (port1 port2 : option (option osm_physp))
    (allow_both_pkeys : bool) : bool :=
  match mjoin port1, mjoin port2 with
  | Some p1, Some p2 => osm_physp_share_pkey p1 p2 allow_both_pkeys
  | _, _ => false
  end.

Definition osm_physp_has_pkey (pkey : Z) (p : osm_physp) : bool :=
  if ib_pkey_is_invalid pkey then true
  else bool_decide (is_Some (keys (physp_pkeys p) !! ib_pkey_get_base pkey)).

Definition osm_pkey_tbl_set_indx0_pkey (pkey : Z) (full : bool) (t : osm_pkey_tbl)
    : osm_pkey_tbl :=
  t <| indx0_pkey := if full then Z.lor pkey (cl_hton16 0x8000) else pkey |>.

(** ** P_Keys as numbers

    The membership bit is one bit of the 16, whichever the byte order puts it. *)

Definition pkey_ok (pkey : Z) : Prop := 0 ≤ pkey < 2 ^ 16.

Lemma pkey_type_bit :
  ∃ tb, 0 ≤ tb < 16 ∧ IB_PKEY_TYPE_MASK = 2 ^ tb
    ∧ IB_PKEY_BASE_MASK = Z.ldiff (Z.ones 16) (2 ^ tb).
Proof.
  unfold IB_PKEY_TYPE_MASK, IB_PKEY_BASE_MASK, cl_hton16, cl_ntoh16, cpu_le.
  case BO; [exists 7|exists 15]; by vm_compute.
Qed.

Lemma pkey_membership pkey :
  pkey_ok pkey →
  ∃ w, 0 < w ∧ IB_PKEY_TYPE_MASK = w
    ∧ (if ib_pkey_is_full_member pkey
       then pkey = ib_pkey_get_base pkey + w else pkey = ib_pkey_get_base pkey).
Proof.
  intros Hp. destruct pkey_type_bit as (tb & Htb & Ht & Hb).
  exists (2 ^ tb). split; [lia|]. split; [done|].
  assert (Hbase : ib_pkey_get_base pkey = Z.ldiff pkey (2 ^ tb)).
  { unfold ib_pkey_get_base. rewrite Hb. apply Z.bits_inj'. intros i Hi.
    rewrite Z.land_spec, !Z.ldiff_spec, Z.testbit_ones_nonneg by lia.
    destruct (Z.ltb_spec i 16); [done|].
    by rewrite (testbit_above 16 pkey) by (done || lia). }
  assert (Hfull : ib_pkey_is_full_member pkey = Z.testbit pkey tb).
  { unfold ib_pkey_is_full_member. rewrite Ht.
    destruct (Z.testbit pkey tb) eqn:E.
    - apply Z.eqb_eq, Z.bits_inj'. intros i Hi. rewrite Z.land_spec, Z.pow2_bits_eqb by lia.
      destruct (Z.eqb_spec tb i) as [<-|]; [by rewrite E|by rewrite andb_false_r].
    - apply Z.eqb_neq. intros H. apply (f_equal (λ z, Z.testbit z tb)) in H.
      by rewrite Z.land_spec, E, Z.pow2_bits_true in H by lia. }
  rewrite Hfull, Hbase. destruct (Z.testbit pkey tb) eqn:E.
  - rewrite <-Z.sub_nocarry_ldiff; [lia|]. apply Z.bits_inj'. intros i Hi.
    rewrite Z.ldiff_spec, Z.bits_0, Z.pow2_bits_eqb by lia.
    destruct (Z.eqb_spec tb i) as [<-|]; [by rewrite E|done].
  - apply Z.bits_inj'. intros i Hi. rewrite Z.ldiff_spec, Z.pow2_bits_eqb by lia.
    destruct (Z.eqb_spec tb i) as [<-|]; [by rewrite E|by rewrite andb_true_r].
Qed.

(** The full and the limited member of a base, as [osm_physp_share_this_pkey]
    makes them. *)
Lemma pkey_split pkey :
  pkey_ok pkey →
  let full := Z.lor pkey IB_PKEY_TYPE_MASK in
  let limited := Z.land pkey (Z.lnot IB_PKEY_TYPE_MASK) in
  (pkey_ok full ∧ ib_pkey_get_base full = ib_pkey_get_base pkey
   ∧ ib_pkey_is_full_member full = true)
  ∧ (pkey_ok limited ∧ ib_pkey_get_base limited = ib_pkey_get_base pkey
     ∧ ib_pkey_is_full_member limited = false).
Proof.
  intros Hp. simpl. destruct pkey_type_bit as (tb & Htb & Ht & Hb).
  unfold ib_pkey_get_base, ib_pkey_is_full_member, pkey_ok. rewrite Ht, Hb.
  assert (Hpow : 0 ≤ 2 ^ tb < 2 ^ 16) by (split; [lia|apply Z.pow_lt_mono_r; lia]).
  assert (Hlim : Z.land (Z.land pkey (Z.lnot (2 ^ tb))) (2 ^ tb) = 0).
  { rewrite <-Z.land_assoc, (Z.land_comm (Z.lnot _)), Z.land_lnot_diag. apply Z.land_0_r. }
  split; (split; [|split]).
  - by apply lor_range.
  - apply Z.bits_inj'. intros i Hi. rewrite !Z.land_spec, Z.lor_spec, Z.ldiff_spec.
    destruct (Z.testbit (2 ^ tb) i), (Z.testbit pkey i), (Z.testbit (Z.ones 16) i); done.
  - apply Z.eqb_eq. rewrite Z.land_lor_distr_l, Z.land_diag.
    apply Z.bits_inj'. intros i Hi. rewrite Z.lor_spec, Z.land_spec.
    by destruct (Z.testbit (2 ^ tb) i), (Z.testbit pkey i).
  - apply ntoh_range; [lia| |apply Z.land_nonneg; left; apply Hp].
    intros i Hi. rewrite Z.land_spec, (testbit_above 16 pkey) by done. done.
  - apply Z.bits_inj'. intros i Hi. rewrite !Z.land_spec, Z.ldiff_spec, Z.lnot_spec by done.
    destruct (Z.testbit (2 ^ tb) i), (Z.testbit pkey i), (Z.testbit (Z.ones 16) i); done.
  - apply Z.eqb_neq. rewrite Hlim. lia.
Qed.

(** A P_Key is its base and its membership. *)
Lemma pkey_eq x y :
  pkey_ok x → pkey_ok y → ib_pkey_get_base x = ib_pkey_get_base y →
  ib_pkey_is_full_member x = ib_pkey_is_full_member y → x = y.
Proof.
  intros Hx Hy Hb Hf. destruct (pkey_membership x Hx) as (w & _ & Hw & H1).
  destruct (pkey_membership y Hy) as (w' & _ & Hw' & H2). rewrite Hf in H1.
  case_match; congruence.
Qed.

(** Among P_Keys of one membership the bases are in the order of the P_Keys. *)
Lemma pkey_base_lt x y :
  pkey_ok x → pkey_ok y → ib_pkey_is_full_member x = ib_pkey_is_full_member y →
  x < y → ib_pkey_get_base x < ib_pkey_get_base y.
Proof.
  intros Hx Hy Hf Hlt. destruct (pkey_membership x Hx) as (w & _ & Hw & H1).
  destruct (pkey_membership y Hy) as (w' & _ & Hw' & H2). rewrite Hf in H1.
  assert (w = w') by congruence. case_match; lia.
Qed.

Lemma match_pkey_true x y :
  match_pkey x y = true
  ↔ ib_pkey_get_base x = ib_pkey_get_base y
    ∧ (ib_pkey_is_full_member x = true ∨ ib_pkey_is_full_member y = true).
Proof.
  unfold match_pkey. rewrite <-Z.eqb_eq.
  destruct (ib_pkey_is_full_member x), (ib_pkey_is_full_member y); simpl; split;
    solve [done | auto | intros [_ [?|?]]; done | intros [? _]; done].
Qed.

(** ** The index of a table *)

Lemma elem_of_tbl_entries t p pkey :
  (p, pkey) ∈ tbl_entries (blocks t) ↔ pkey_at t p = Some pkey.
Proof.
  unfold tbl_entries, pkey_at, osm_pkey_tbl_block_get, block_get. rewrite list_elem_of_join.
  destruct p as [b i]. simpl. split.
  - intros (l & Hin & (b' & blk & -> & Hb)%elem_of_lookup_imap).
    destruct blk as [blk|]; simpl in Hin; [|by apply not_elem_of_nil in Hin].
    apply elem_of_lookup_imap in Hin as (i' & x & [= -> -> ->] & Hi). by rewrite Hb.
  - destruct (blocks t !! b) as [[blk|]|] eqn:Hb; simpl; [|done..]. intros Hi.
    exists (block_entries b (Some blk)). split.
    + apply elem_of_lookup_imap. by exists i, pkey.
    + apply elem_of_lookup_imap. by exists b, (Some blk).
Qed.

(** The first entry of a table that [keys] can hold under a key. *)
Definition first_entry (allow_both_pkeys : bool) (k : Z) (es : list (pkey_pos * Z))
    : option pkey_pos :=
  fst <$> list_find_first
    (λ e, negb (ib_pkey_is_invalid e.2) && (pkey_key allow_both_pkeys e.2 =? k)) es.

Lemma keys_add_lookup t allow m p pkey k :
  keys_add t allow m p pkey !! k =
  match m !! k with
  | Some q => Some q
  | None => if negb (ib_pkey_is_invalid pkey) && (pkey_key allow pkey =? k)
            then Some p else None
  end.
Proof.
  unfold keys_add. destruct (ib_pkey_is_invalid pkey); simpl; [by case_match|].
  assert (Hins : ∀ m' : gmap Z pkey_pos, m' = cl_map_insert m (pkey_key allow pkey) p ∨
            (is_Some (m !! pkey_key allow pkey) ∧ m' = m) →
            m' !! k = match m !! k with Some q => Some q
                      | None => if pkey_key allow pkey =? k then Some p else None end).
  { unfold cl_map_insert. intros m' [->|[[q Hq] ->]].
    - destruct (Z.eqb_spec (pkey_key allow pkey) k) as [->|Hne].
      + destruct (m !! k) eqn:E; [done|apply lookup_insert_eq].
      + destruct (m !! pkey_key allow pkey); [by case_match|].
        rewrite lookup_insert_ne by done. by case_match.
    - destruct (m !! k) eqn:E; [done|].
      destruct (Z.eqb_spec (pkey_key allow pkey) k); [by subst; rewrite Hq in E|done]. }
  apply Hins. destruct (m !! pkey_key allow pkey) as [q|] eqn:E; [|by left].
  change (Some q ≫= pkey_at t) with (pkey_at t q).
  destruct (pkey_at t q) as [prev|]; [|by left].
  destruct (negb allow && (cl_ntoh16 prev <? cl_ntoh16 pkey)); [by left|].
  right. split; [by eexists|done].
Qed.

Lemma refresh_keys_lookup t allow k :
  refresh_keys t allow !! k = first_entry allow k (tbl_entries (blocks t)).
Proof.
  unfold refresh_keys, first_entry.
  assert (H : ∀ es m, foldl (λ m e, keys_add t allow m e.1 e.2) m es !! k =
    match m !! k with
    | Some q => Some q
    | None => fst <$> list_find_first
        (λ e, negb (ib_pkey_is_invalid e.2) && (pkey_key allow e.2 =? k)) es
    end).
  { intros es. induction es as [|[p pkey] es IH]; intros m; simpl; [by case_match|].
    rewrite IH, keys_add_lookup. destruct (m !! k); [done|]. by destruct (ib_pkey_is_invalid pkey), (pkey_key allow pkey =? k). }
  rewrite H. by rewrite lookup_empty.
Qed.

(** [keys] is the index of the blocks. *)
Definition keys_ok (allow_both_pkeys : bool) (t : osm_pkey_tbl) : Prop :=
  ∀ k, keys t !! k = first_entry allow_both_pkeys k (tbl_entries (blocks t)).

Lemma osm_pkey_tbl_set_keys_ok t block p_tbl allow :
  keys_ok allow (osm_pkey_tbl_set t block p_tbl allow true).2.
Proof.
  unfold osm_pkey_tbl_set. rewrite andb_false_r. intros k.
  exact (refresh_keys_lookup (t <| blocks := vec_set (blocks t) block (Some p_tbl) |>) allow k).
Qed.

(** C38. [osm_pkey_tbl_set] stores the block and rebuilds the index of the whole
    table: under each key it then points to the first valid entry, in table
    order, that has this key; every other block is as it was.  The first one stays also
    when it is a limited and a later one a full membership of the same base: the
    precedence of the full membership, which the comment in the function asks for, is
    not what the index has.  Without memory for a new block nothing changes. *)
Theorem osm_pkey_tbl_set_indexes t block p_tbl allow alloc :
  let r := osm_pkey_tbl_set t block p_tbl allow alloc in
  match r.1 with
  | PKEY_ERROR => alloc = false ∧ osm_pkey_tbl_block_get t block = None ∧ r.2 = t
  | PKEY_SUCCESS =>
      osm_pkey_tbl_block_get r.2 block = Some p_tbl
      ∧ (∀ b, b ≠ block → osm_pkey_tbl_block_get r.2 b = osm_pkey_tbl_block_get t b)
      ∧ keys_ok allow r.2 ∧ new_blocks r.2 = new_blocks t
  end.
Proof.
  simpl. unfold osm_pkey_tbl_set.
  destruct (bool_decide (osm_pkey_tbl_block_get t block = None) && negb alloc) eqn:E; simpl.
  { apply andb_true_iff in E as [E%bool_decide_eq_true E2%negb_true_iff]. done. }
  split_and!; [| |intros k; exact (refresh_keys_lookup
    (t <| blocks := vec_set (blocks t) block (Some p_tbl) |>) allow k)|done];
    unfold osm_pkey_tbl_block_get, block_get; simpl.
  - by rewrite vec_set_lookup_eq.
  - intros b Hb. by rewrite vec_set_lookup_ne.
Qed.

(** The valid P_Keys of a table, and those its index points to. *)
Definition has_pkey (t : osm_pkey_tbl) (pkey : Z) : Prop :=
  ∃ p, pkey_at t p = Some pkey ∧ ib_pkey_is_invalid pkey = false.

(** No base occurs in the table with both memberships. *)
Definition unmixed (t : osm_pkey_tbl) : Prop :=
  ∀ x y, has_pkey t x → has_pkey t y → ib_pkey_get_base x = ib_pkey_get_base y → x = y.

Definition tbl_ok (t : osm_pkey_tbl) : Prop := ∀ pkey, has_pkey t pkey → pkey_ok pkey.

Lemma first_entry_Some t allow k p :
  first_entry allow k (tbl_entries (blocks t)) = Some p →
  ∃ pkey, pkey_at t p = Some pkey ∧ ib_pkey_is_invalid pkey = false ∧ pkey_key allow pkey = k.
Proof.
  unfold first_entry. destruct (list_find_first _ _) as [[q pkey]|] eqn:E; [|done].
  intros [= <-]. apply list_find_first_Some in E as [Hin Hv]. simpl in *.
  apply elem_of_tbl_entries in Hin. exists pkey.
  apply andb_true_iff in Hv as [Hv%negb_true_iff Hk%Z.eqb_eq]. done.
Qed.

Lemma tbl_ok_entries t : Forall (λ e, pkey_ok e.2) (tbl_entries (blocks t)) → tbl_ok t.
Proof.
  rewrite Forall_forall. intros H pkey (p & Hp & _). apply (H (p, pkey)).
  by apply elem_of_tbl_entries.
Qed.

(** What a lookup by key finds. *)
Lemma keys_get_Some t allow k pkey :
  keys_ok allow t → keys_get t k = Some pkey → has_pkey t pkey ∧ pkey_key allow pkey = k.
Proof.
  unfold keys_get. intros Hok. rewrite Hok.
  destruct (first_entry _ _ _) as [p|] eqn:E; [|done]. simpl.
  apply first_entry_Some in E as (x & Hx & Hv & Hk). intros Hp. rewrite Hp in Hx.
  injection Hx as ->. split; [by exists p|done].
Qed.

Lemma keys_get_None t allow k :
  keys_ok allow t → keys_get t k = None →
  ∀ pkey, has_pkey t pkey → pkey_key allow pkey ≠ k.
Proof.
  unfold keys_get. intros Hok. rewrite Hok.
  destruct (first_entry _ _ _) as [p|] eqn:E; simpl.
  { apply first_entry_Some in E as (x & -> & _). done. }
  intros _ pkey (p & Hp & Hv) Hk. unfold first_entry in E. apply fmap_None in E.
  rewrite list_find_first_None in E.
  specialize (E (p, pkey)). simpl in E. rewrite Hv, Hk, Z.eqb_refl in E. simpl in E.
  discriminate E. by apply elem_of_tbl_entries.
Qed.

(** When every valid P_Key of the table is found under its key. *)
Definition searchable (allow_both_pkeys : bool) (t : osm_pkey_tbl) : Prop :=
  allow_both_pkeys = true ∨ unmixed t.

Lemma keys_get_complete t allow pkey :
  keys_ok allow t → searchable allow t → has_pkey t pkey →
  keys_get t (pkey_key allow pkey) = Some pkey.
Proof.
  intros Hok Hs Hp. destruct (keys_get t (pkey_key allow pkey)) as [x|] eqn:E.
  - apply (keys_get_Some t allow) in E as [Hx Hk]; [|done]. f_equal.
    destruct Hs as [->|Hu]; [done|]. apply Hu; [done|done|].
    destruct allow; simpl in Hk; congruence.
  - exfalso. by apply (keys_get_None t allow _ Hok E pkey).
Qed.

(** ** The search for a common P_Key *)

Lemma elem_of_key_items t k pkey : (k, pkey) ∈ key_items t ↔ keys_get t k = Some pkey.
Proof.
  unfold key_items, keys_get. rewrite list_elem_of_omap. split.
  - intros ([k' p] & Hin%elem_of_qmap_items & H). simpl in H.
    destruct (pkey_at t p) as [x|] eqn:E; simpl in H; [|done]. injection H as -> ->.
    by rewrite Hin.
  - destruct (keys t !! k) as [p|] eqn:E; [|done]. simpl. intros Hp.
    exists (k, p). split; [by apply elem_of_qmap_items|]. simpl. by rewrite Hp.
Qed.

Lemma key_items_sorted t : StronglySorted key_lt (key_items t).
Proof.
  unfold key_items. induction (qmap_items_lt_sorted (keys t)) as [|[k p] l Hs IH Hx];
    simpl; [constructor|].
  destruct (pkey_at t p) as [x|]; simpl; [|done]. constructor; [done|].
  rewrite Forall_forall in Hx. apply Forall_forall. intros [k' y] ([k2 p2] & Hin & H)%list_elem_of_omap. simpl in H.
  destruct (pkey_at t p2); simpl in H; [|done]. injection H as -> _. apply (Hx _ Hin).
Qed.

(** One round of the loop. *)
Lemma common_loop_cons s1 s2 kf k1 p1 l1 k2 p2 l2 :
  common_loop s1 s2 kf ((k1, p1) :: l1) ((k2, p2) :: l2) =
  if s1 p1 then common_loop s1 s2 kf l1 ((k2, p2) :: l2)
  else if s2 p2 then common_loop s1 s2 kf ((k1, p1) :: l1) l2
  else if match_pkey p1 p2 then Some p1
  else if kf k2 =? kf k1 then common_loop s1 s2 kf l1 l2
  else if kf k2 <? kf k1 then common_loop s1 s2 kf ((k1, p1) :: l1) l2
  else common_loop s1 s2 kf l1 ((k2, p2) :: l2).
Proof. reflexivity. Qed.

Lemma common_loop_sound s1 s2 kf l1 l2 x :
  common_loop s1 s2 kf l1 l2 = Some x →
  ∃ k1 k2 y, (k1, x) ∈ l1 ∧ (k2, y) ∈ l2 ∧ match_pkey x y = true.
Proof.
  revert l2. induction l1 as [|[k1 p1] l1 IH1]; intros l2; [by destruct l2|].
  assert (Hl1 : ∀ l2', common_loop s1 s2 kf l1 l2' = Some x → (∀ e, e ∈ l2' → e ∈ l2) →
    ∃ k1' k2 y, (k1', x) ∈ (k1, p1) :: l1 ∧ (k2, y) ∈ l2 ∧ match_pkey x y = true).
  { intros l2' H Hsub. destruct (IH1 l2' H) as (a & b & y & Ha & Hb & Hm).
    exists a, b, y. split_and!; [by right|by apply Hsub|done]. }
  induction l2 as [|[k2 p2] l2 IH2]; [done|].
  assert (Hl2 : common_loop s1 s2 kf ((k1, p1) :: l1) l2 = Some x →
    ∃ k1' k2' y, (k1', x) ∈ (k1, p1) :: l1 ∧ (k2', y) ∈ (k2, p2) :: l2 ∧ match_pkey x y = true).
  { intros H. destruct IH2 as (a & b & y & Ha & Hb & Hm); [|done|].
    - intros l2' H' Hsub. destruct (IH1 l2' H') as (a & b & y & Ha & Hb & Hm).
      exists a, b, y. split_and!; [by right|by apply Hsub|done].
    - exists a, b, y. split_and!; [done|by right|done]. }
  rewrite common_loop_cons. destruct (s1 p1); [by intros H; apply (Hl1 _ H)|].
  destruct (s2 p2); [done|].
  destruct (match_pkey p1 p2) eqn:Em.
  { intros [= ->]. exists k1, k2, p2. split_and!; [left|left|done]. }
  destruct (kf k2 =? kf k1); [intros H; apply (Hl1 _ H); by right|].
  destruct (kf k2 <? kf k1); [done|]. by intros H; apply (Hl1 _ H).
Qed.

(** [kf] follows the order of the keys on the elements a loop does not skip. *)
Definition kf_mono (skip : Z → bool) (kf : Z → Z) (l : list (Z * Z)) : Prop :=
  ∀ e e', e ∈ l → e' ∈ l → skip e.2 = false → skip e'.2 = false →
    e.1 < e'.1 → kf e.1 < kf e'.1.

Lemma kf_mono_tail skip kf e l : kf_mono skip kf (e :: l) → kf_mono skip kf l.
Proof. intros H a b Ha Hb. apply H; by right. Qed.

Lemma common_loop_complete s1 s2 kf l1 l2 k1 x k2 y :
  StronglySorted key_lt l1 → StronglySorted key_lt l2 →
  kf_mono s1 kf l1 → kf_mono s2 kf l2 →
  common_loop s1 s2 kf l1 l2 = None →
  (k1, x) ∈ l1 → (k2, y) ∈ l2 → s1 x = false → s2 y = false → kf k1 = kf k2 →
  match_pkey x y = false.
Proof.
  intros Hs1 Hs2 Hm1 Hm2 Hn Hx Hy Hsx Hsy Hk. revert l2 Hs2 Hm2 Hn Hy.
  induction Hs1 as [|[a p1] l1 Hs1 IH1 Ha]; [by apply not_elem_of_nil in Hx|].
  intros l2 Hs2. rewrite Forall_forall in Ha.
  specialize (IH1 (kf_mono_tail _ _ _ _ Hm1)).
  induction Hs2 as [|[b p2] l2 Hs2 IH2 Hb]; intros Hm2 Hn Hy;
    [by apply not_elem_of_nil in Hy|].
  rewrite Forall_forall in Hb. specialize (IH2 (kf_mono_tail _ _ _ _ Hm2)).
  (* the head of one list is below the rest of the list *)
  assert (Hlt1 : ∀ e, e ∈ l1 → s1 p1 = false → s1 e.2 = false → kf a < kf e.1).
  { intros e He H1 H2. apply (Hm1 (a, p1) e); [by left|by right|done|done|by apply (Ha e)]. }
  assert (Hlt2 : ∀ e, e ∈ l2 → s2 p2 = false → s2 e.2 = false → kf b < kf e.1).
  { intros e He H1 H2. apply (Hm2 (b, p2) e); [by left|by right|done|done|by apply (Hb e)]. }
  rewrite common_loop_cons in Hn. apply elem_of_cons in Hx as Hx'. apply elem_of_cons in Hy as Hy'.
  destruct (s1 p1) eqn:E1.
  { destruct Hx' as [[= -> ->]|Hx']; [congruence|]. apply (IH1 Hx' ((b, p2) :: l2)); try done.
    constructor; [done|by rewrite Forall_forall]. }
  destruct (s2 p2) eqn:E2.
  { destruct Hy' as [[= -> ->]|Hy']; [congruence|]. by apply IH2. }
  destruct (match_pkey p1 p2) eqn:Em; [done|].
  destruct (Z.eqb_spec (kf b) (kf a)) as [Eab|Eab].
  { destruct Hx' as [[= -> ->]|Hx'], Hy' as [[= -> ->]|Hy']; [done|..].
    - specialize (Hlt2 _ Hy' eq_refl Hsy). simpl in Hlt2. lia.
    - specialize (Hlt1 _ Hx' eq_refl Hsx). simpl in Hlt1. lia.
    - apply (IH1 Hx' l2); try done. by apply kf_mono_tail in Hm2. }
  destruct (Z.ltb_spec (kf b) (kf a)) as [Lab|Lab].
  - destruct Hy' as [[= -> ->]|Hy']; [|by apply IH2].
    destruct Hx' as [[= -> ->]|Hx']; [lia|].
    specialize (Hlt1 _ Hx' eq_refl Hsx). simpl in Hlt1. lia.
  - destruct Hx' as [[= -> ->]|Hx'].
    + destruct Hy' as [[= -> ->]|Hy']; [lia|].
      specialize (Hlt2 _ Hy' eq_refl Hsy). simpl in Hlt2. lia.
    + apply (IH1 Hx' ((b, p2) :: l2)); try done. constructor; [done|by rewrite Forall_forall].
Qed.

Lemma key_items_has t allow k pkey :
  keys_ok allow t → (k, pkey) ∈ key_items t → has_pkey t pkey ∧ pkey_key allow pkey = k.
Proof. intros Hok H%elem_of_key_items. by apply (keys_get_Some t allow). Qed.

Lemma key_items_mono t skip f :
  keys_ok true t → tbl_ok t →
  (∀ x, skip x = false → ib_pkey_is_full_member x = f) →
  kf_mono skip ib_pkey_get_base (key_items t).
Proof.
  intros Hok Ht Hskip [k x] [k' y] Hx Hy Hsx Hsy Hlt. simpl in *.
  destruct (key_items_has t true k x Hok Hx) as [Hpx Hkx].
  destruct (key_items_has t true k' y Hok Hy) as [Hpy Hky].
  unfold pkey_key in *. subst k k'.
  apply pkey_base_lt; [by apply Ht|by apply Ht| |done]. by rewrite (Hskip x), (Hskip y).
Qed.

Lemma has_pkey_nonzero t pkey : has_pkey t pkey → pkey ≠ 0.
Proof. intros (p & _ & Hv) ->. done. Qed.

Lemma common_sound t1 t2 allow s1 s2 kf x :
  keys_ok allow t1 → keys_ok allow t2 →
  common_loop s1 s2 kf (key_items t1) (key_items t2) = Some x →
  has_pkey t1 x ∧ ∃ y, has_pkey t2 y ∧ match_pkey x y = true.
Proof.
  intros Hok1 Hok2 H. apply common_loop_sound in H as (k1 & k2 & y & H1 & H2 & Hm).
  split; [by apply (key_items_has t1 allow k1)|].
  exists y. split; [by apply (key_items_has t2 allow k2)|done].
Qed.

(** A pair that one of the loops must find when the others do not. *)
Lemma common_complete t1 t2 s1 s2 f1 f2 x y :
  keys_ok true t1 → keys_ok true t2 → tbl_ok t1 → tbl_ok t2 →
  (∀ z, s1 z = false ↔ ib_pkey_is_full_member z = f1) →
  (∀ z, s2 z = false ↔ ib_pkey_is_full_member z = f2) →
  common_loop s1 s2 ib_pkey_get_base (key_items t1) (key_items t2) = None →
  has_pkey t1 x → has_pkey t2 y →
  ib_pkey_is_full_member x = f1 → ib_pkey_is_full_member y = f2 →
  ib_pkey_get_base x = ib_pkey_get_base y → match_pkey x y = false.
Proof.
  intros Hok1 Hok2 Ht1 Ht2 Hs1 Hs2 Hn Hx Hy Hfx Hfy Hb.
  apply (common_loop_complete s1 s2 ib_pkey_get_base (key_items t1) (key_items t2) x x y y);
    auto using key_items_sorted.
  - apply (key_items_mono t1 s1 f1); [done|done|]. intros z. by rewrite Hs1.
  - apply (key_items_mono t2 s2 f2); [done|done|]. intros z. by rewrite Hs2.
  - apply elem_of_key_items, (keys_get_complete t1 true); [done|by left|done].
  - apply elem_of_key_items, (keys_get_complete t2 true); [done|by left|done].
  - by rewrite Hs1.
  - by rewrite Hs2.
Qed.

(** C37. [osm_physp_find_common_pkey] is a sound and complete search.  A P_Key it
    returns is in the first port's table and matches (same base, at least one
    full member) a P_Key of the second; and when both tables are searchable by
    key, that is, both memberships are allowed or no base is in a table with both, it
    returns one whenever any pair of entries matches, although its three
    loops each walk the two sorted maps only once.  In a table with both memberships of
    a base the limited entry may hide the full one and a match be missed. *)
Theorem find_common_pkey_correct p1 p2 allow :
  let t1 := physp_pkeys p1 in
  let t2 := physp_pkeys p2 in
  let r := osm_physp_find_common_pkey p1 p2 allow in
  keys_ok allow t1 → keys_ok allow t2 → tbl_ok t1 → tbl_ok t2 →
  (r ≠ 0 → has_pkey t1 r ∧ ∃ y, has_pkey t2 y ∧ match_pkey r y = true)
  ∧ (searchable allow t1 → searchable allow t2 →
     ∀ x y, has_pkey t1 x → has_pkey t2 y → match_pkey x y = true → r ≠ 0).
Proof.
  simpl. set (t1 := physp_pkeys p1). set (t2 := physp_pkeys p2).
  intros Hok1 Hok2 Ht1 Ht2. unfold osm_physp_find_common_pkey. fold t1 t2.
  destruct (common_loop (λ _, false) _ _ _ _) as [r|] eqn:E1.
  { destruct (common_sound _ _ _ _ _ _ _ Hok1 Hok2 E1) as [Hr Hy].
    split; [done|]. intros _ _ x y _ _ _. by eapply has_pkey_nonzero. }
  assert (H1 : ∀ x y, searchable allow t1 → searchable allow t2 →
    has_pkey t1 x → has_pkey t2 y → pkey_key allow x = pkey_key allow y →
    match_pkey x y = true → False).
  { intros x y Hs1 Hs2 Hx Hy Hk Hm.
    rewrite (common_loop_complete _ _ _ _ _ (pkey_key allow x) x (pkey_key allow y) y
      (key_items_sorted t1) (key_items_sorted t2)
      (λ _ _ _ _ _ _ H, H) (λ _ _ _ _ _ _ H, H) E1) in Hm; [done|..]; try done;
      by apply elem_of_key_items, keys_get_complete. }
  destruct allow; simpl; [|split; [done|intros Hs1 Hs2 x y Hx Hy Hm; exfalso;
    apply (H1 x y); try done; by apply match_pkey_true in Hm as [? _]]].
  destruct (common_loop is_limited _ _ _ _) as [r|] eqn:E2.
  { destruct (common_sound _ _ _ _ _ _ _ Hok1 Hok2 E2) as [Hr Hy].
    split; [done|]. intros _ _ x y _ _ _. by eapply has_pkey_nonzero. }
  destruct (common_loop ib_pkey_is_full_member _ _ _ _) as [r|] eqn:E3; simpl.
  { destruct (common_sound _ _ _ _ _ _ _ Hok1 Hok2 E3) as [Hr Hy].
    split; [done|]. intros _ _ x y _ _ _. by eapply has_pkey_nonzero. }
  split; [done|]. intros Hs1 Hs2 x y Hx Hy Hm. exfalso.
  pose proof (proj1 (match_pkey_true x y) Hm) as [Hb Hf].
  assert (Hlim : ∀ z, is_limited z = false ↔ ib_pkey_is_full_member z = true)
    by (intros z; apply negb_false_iff).
  destruct (ib_pkey_is_full_member x) eqn:Fx, (ib_pkey_is_full_member y) eqn:Fy.
  - apply (H1 x y); try done. simpl. apply pkey_eq; [by apply Ht1|by apply Ht2|done|congruence].
  - rewrite (common_complete t1 t2 is_limited ib_pkey_is_full_member true false x y) in Hm;
      done.
  - rewrite (common_complete t1 t2 ib_pkey_is_full_member is_limited false true x y) in Hm;
      done.
  - by destruct Hf.
Qed.

(** *** Sharing a given P_Key *)

(** The lookup of [osm_physp_share_this_pkey] finds a P_Key of the base exactly
    when the table has one, and a full member if it has one. *)
Lemma share_lookup t allow pkey :
  keys_ok allow t → tbl_ok t → searchable allow t → pkey_ok pkey →
  let get := if allow then
      match keys_get t (Z.lor pkey IB_PKEY_TYPE_MASK) with
      | Some k => Some k
      | None => keys_get t (Z.land pkey (Z.lnot IB_PKEY_TYPE_MASK))
      end
    else keys_get t (ib_pkey_get_base pkey) in
  match get with
  | Some x => has_pkey t x ∧ ib_pkey_get_base x = ib_pkey_get_base pkey
      ∧ ∀ y, has_pkey t y → ib_pkey_get_base y = ib_pkey_get_base pkey →
          ib_pkey_is_full_member y = true → ib_pkey_is_full_member x = true
  | None => ∀ y, has_pkey t y → ib_pkey_get_base y ≠ ib_pkey_get_base pkey
  end.
Proof.
  intros Hok Ht Hs Hp. simpl. destruct allow.
  2:{ destruct Hs as [?|Hu]; [done|].
      destruct (keys_get t (ib_pkey_get_base pkey)) as [x|] eqn:E.
      - apply (keys_get_Some t false) in E as [Hx Hk]; [|done]. simpl in Hk.
        split_and!; [done|done|]. intros y Hy Hb. by rewrite (Hu x y) by congruence.
      - apply (keys_get_None t false _ Hok E). }
  destruct (pkey_split pkey Hp) as ((Hf1 & Hf2 & Hf3) & (Hl1 & Hl2 & Hl3)).
  (* a P_Key of this base is one of the two keys *)
  assert (Hsplit : ∀ y, has_pkey t y → ib_pkey_get_base y = ib_pkey_get_base pkey →
    y = if ib_pkey_is_full_member y then Z.lor pkey IB_PKEY_TYPE_MASK
        else Z.land pkey (Z.lnot IB_PKEY_TYPE_MASK)).
  { intros y Hy Hb. destruct (ib_pkey_is_full_member y) eqn:Ey;
      (apply pkey_eq; [by apply Ht|done|congruence|congruence]). }
  destruct (keys_get t (Z.lor pkey IB_PKEY_TYPE_MASK)) as [x|] eqn:E1.
  { apply (keys_get_Some t true) in E1 as [Hx Hk]; [|done]. simpl in Hk. by subst x. }
  pose proof (keys_get_None t true _ Hok E1) as N1. simpl in N1.
  destruct (keys_get t (Z.land pkey (Z.lnot IB_PKEY_TYPE_MASK))) as [x|] eqn:E2.
  - apply (keys_get_Some t true) in E2 as [Hx Hk]; [|done]. simpl in Hk. subst x.
    split_and!; [done|done|]. intros y Hy Hb Hf. destruct (N1 y Hy).
    specialize (Hsplit y Hy Hb). by rewrite Hf in Hsplit.
  - pose proof (keys_get_None t true _ Hok E2) as N2. simpl in N2.
    intros y Hy Hb. specialize (Hsplit y Hy Hb). case_match; [by destruct (N1 y)|by destruct (N2 y)].
Qed.

(** [osm_physp_share_this_pkey] answers whether the two ports have P_Keys of
    the given base that match, for tables searchable by key. *)
Theorem share_this_pkey_iff p1 p2 pkey allow :
  let t1 := physp_pkeys p1 in
  let t2 := physp_pkeys p2 in
  keys_ok allow t1 → keys_ok allow t2 → tbl_ok t1 → tbl_ok t2 →
  searchable allow t1 → searchable allow t2 → pkey_ok pkey →
  osm_physp_share_this_pkey p1 p2 pkey allow = true
  ↔ ∃ x y, has_pkey t1 x ∧ has_pkey t2 y ∧ ib_pkey_get_base x = ib_pkey_get_base pkey
      ∧ match_pkey x y = true.
Proof.
  simpl. set (t1 := physp_pkeys p1). set (t2 := physp_pkeys p2).
  intros Hok1 Hok2 Ht1 Ht2 Hs1 Hs2 Hp. unfold osm_physp_share_this_pkey. fold t1 t2.
  pose proof (share_lookup t1 allow pkey Hok1 Ht1 Hs1 Hp) as H1.
  pose proof (share_lookup t2 allow pkey Hok2 Ht2 Hs2 Hp) as H2. simpl in H1, H2.
  destruct (if allow then _ else _) as [a|] in H1 |- *.
  2:{ split; [done|]. intros (x & _ & Hx & _ & Hb & _). by destruct (H1 x). }
  destruct (if allow then _ else _) as [b|] in H2 |- *.
  2:{ split; [done|]. intros (x & y & _ & Hy & Hb & [Hm _]%match_pkey_true).
      destruct (H2 y); congruence. }
  destruct H1 as (Ha & Hab & Haf), H2 as (Hb & Hbb & Hbf).
  split; [intros Hm; by exists a, b|].
  intros (x & y & Hx & Hy & Hxb & [Hxy Hf]%match_pkey_true).
  apply match_pkey_true. split; [congruence|]. destruct Hf as [Hf|Hf].
  - left. by apply (Haf x).
  - right. apply (Hbf y); congruence.
Qed.

(** ** The search for a free entry *)

(** An entry of the new blocks the SM may fill: its block does not exist yet, or
    the entry holds no P_Key. *)
Definition entry_free (t : osm_pkey_tbl) (b i : nat) : Prop :=
  match osm_pkey_tbl_new_block_get t b with
  | None => True
  | Some blk => ib_pkey_is_invalid (blk !!! i) = true
  end.

(** The number of an entry in table order; an index past the block starts the
    next one. *)
Definition entry_pos (b i : nat) : nat := b * 32 + i.
Definition start_pos (b i : nat) : nat := if (31 <? i)%nat then (b + 1) * 32 else b * 32 + i.

Lemma entry_pos_inj b i b' i' :
  (i < 32 → i' < 32 → entry_pos b i = entry_pos b' i' → b = b' ∧ i = i')%nat.
Proof. unfold entry_pos. lia. Qed.

Lemma find_next_free_spec t fuel b i :
  (Z.to_nat (max_blocks t) * 32 - start_pos b i < fuel)%nat →
  let '(r, b', i') := find_next_free t fuel b i in
  if r then
    Z.of_nat b' < max_blocks t ∧ (i' < 32)%nat ∧ entry_free t b' i'
    ∧ (start_pos b i ≤ entry_pos b' i')%nat
    ∧ ∀ b'' i'', (i'' < 32)%nat → (start_pos b i ≤ entry_pos b'' i'' < entry_pos b' i')%nat →
        ¬ entry_free t b'' i''
  else
    ∀ b'' i'', Z.of_nat b'' < max_blocks t → (i'' < 32)%nat →
      (start_pos b i ≤ entry_pos b'' i'')%nat → ¬ entry_free t b'' i''.
Proof.
  revert b i. induction fuel as [|fuel IH]; intros b i Hf; [lia|].
  cbn [find_next_free]. destruct (Z.leb_spec (max_blocks t) (Z.of_nat b)) as [Hb|Hb].
  { intros b'' i'' H1 H2 H3. revert H3. unfold start_pos, entry_pos. case_match; lia. }
  (* the entry the round looks at *)
  set (bi := if (_ <? i)%nat then _ else _).
  assert (Hbi : (bi.2 < 32 ∧ start_pos b i = entry_pos bi.1 bi.2)%nat).
  { subst bi. unfold start_pos, entry_pos, IB_NUM_PKEY_ELEMENTS_IN_BLOCK. simpl.
    destruct (Nat.ltb_spec 31 i); simpl; lia. }
  destruct bi as [b1 i1]. simpl in Hbi. destruct Hbi as [Hi1 Hpos]. rewrite Hpos in *.
  destruct (Z.leb_spec (max_blocks t) (Z.of_nat b1)) as [Hb1|Hb1].
  { intros b'' i'' H1 H2 H3. revert H3. unfold entry_pos. lia. }
  assert (Hfree : entry_free t b1 i1 →
    Z.of_nat b1 < max_blocks t ∧ (i1 < 32)%nat ∧ entry_free t b1 i1
    ∧ (entry_pos b1 i1 ≤ entry_pos b1 i1)%nat
    ∧ ∀ b'' i'', (i'' < 32)%nat → (entry_pos b1 i1 ≤ entry_pos b'' i'' < entry_pos b1 i1)%nat →
        ¬ entry_free t b'' i'').
  { intros H. split_and!; [done|done|done|lia|]. intros; lia. }
  destruct (osm_pkey_tbl_new_block_get t b1) as [blk|] eqn:Eblk.
  2:{ apply Hfree. unfold entry_free. by rewrite Eblk. }
  destruct (ib_pkey_is_invalid (blk !!! i1)) eqn:Ev.
  { apply Hfree. unfold entry_free. by rewrite Eblk. }
  assert (Hnext : start_pos b1 (i1 + 1) = S (entry_pos b1 i1)).
  { unfold start_pos, entry_pos. destruct (Nat.ltb_spec 31 (i1 + 1)); lia. }
  assert (Hnot : ¬ entry_free t b1 i1) by (unfold entry_free; rewrite Eblk, Ev; done).
  specialize (IH b1 (i1 + 1)%nat). rewrite Hnext in IH.
  destruct (find_next_free t fuel b1 (i1 + 1)) as [[r b'] i'].
  assert (Hmax : (entry_pos b1 i1 < Z.to_nat (max_blocks t) * 32)%nat)
    by (unfold entry_pos; lia).
  specialize (IH ltac:(lia)).
  assert (Hhere : ∀ b'' i'', (i'' < 32)%nat → (entry_pos b1 i1 ≤ entry_pos b'' i'')%nat →
    entry_free t b'' i'' → (S (entry_pos b1 i1) ≤ entry_pos b'' i'')%nat).
  { intros b'' i'' Hi'' Hle Hfr. destruct (decide (entry_pos b'' i'' = entry_pos b1 i1)) as [E|];
      [|lia]. apply entry_pos_inj in E as [-> ->]; done. }
  destruct r.
  - destruct IH as (H1 & H2 & H3 & H4 & H5). split_and!; [done|done|done|lia|].
    intros b'' i'' Hi'' [Hle Hlt] Hfr. apply (H5 b'' i''); [done|split; [by apply Hhere|done]|done].
  - intros b'' i'' Hb'' Hi'' Hle Hfr. apply (IH b'' i''); try done. by apply Hhere.
Qed.

(** [osm_pkey_find_next_free_entry] gives the first free entry, in table
    order, at or after the start it is given, and answers FALSE exactly when no
    entry of the table's blocks from there on is free. *)
Theorem find_next_free_entry_first t b i :
  let '(r, b', i') := osm_pkey_find_next_free_entry t b i in
  if r then
    Z.of_nat b' < max_blocks t ∧ (i' < 32)%nat ∧ entry_free t b' i'
    ∧ (start_pos b i ≤ entry_pos b' i')%nat
    ∧ ∀ b'' i'', (i'' < 32)%nat → (start_pos b i ≤ entry_pos b'' i'' < entry_pos b' i')%nat →
        ¬ entry_free t b'' i''
  else
    ∀ b'' i'', Z.of_nat b'' < max_blocks t → (i'' < 32)%nat →
      (start_pos b i ≤ entry_pos b'' i'')%nat → ¬ entry_free t b'' i''.
Proof.
  apply find_next_free_spec. unfold IB_NUM_PKEY_ELEMENTS_IN_BLOCK. lia.
Qed.

(** ** Accumulated indexes *)

Definition accum_ok (t : osm_pkey_tbl) : Prop :=
  ∀ pkey v, accum_pkeys t !! pkey = Some v → 0 < v < 2 ^ 16 ∧ v ≤ last_pkey_idx t.

(** Storing an index: it is found (biased by one), the others stay, and
    [last_pkey_idx] bounds them all. *)
Lemma set_accum_pkeys_ok t pkey idx :
  accum_ok t → 0 ≤ idx < 2 ^ 16 - 1 →
  let t' := osm_pkey_tbl_set_accum_pkeys t pkey idx in
  accum_ok t' ∧ accum_pkeys t' = <[pkey := idx + 1]> (accum_pkeys t).
Proof.
  intros Hok Hidx. simpl.
  assert (Hacc : accum_pkeys (osm_pkey_tbl_set_accum_pkeys t pkey idx)
    = <[pkey := idx + 1]> (accum_pkeys t)).
  { unfold osm_pkey_tbl_set_accum_pkeys, cl_map_insert.
    assert (E : accum_pkeys (if last_pkey_idx t <=? idx
              then t <| last_pkey_idx := u16 (idx + 1) |> else t) = accum_pkeys t) by by case_match.
    simpl. rewrite E. destruct (accum_pkeys t !! pkey) eqn:El; simpl.
    - by rewrite lookup_delete_eq, insert_delete_eq.
    - by rewrite El. }
  split; [|done]. intros k v. rewrite Hacc.
  assert (Hlast : last_pkey_idx (osm_pkey_tbl_set_accum_pkeys t pkey idx)
    = last_pkey_idx t `max` (idx + 1)).
  { unfold osm_pkey_tbl_set_accum_pkeys. simpl.
    destruct (Z.leb_spec (last_pkey_idx t) idx); simpl; [rewrite u16_small|]; lia. }
  rewrite Hlast. intros [[<- <-]|[_ Hv]]%lookup_insert_Some; [lia|].
  destruct (Hok k v Hv). lia.
Qed.

(** ** Two ways membership is lost *)

(** A table with the limited and then the full member of base 1; the port that
    holds both shares no P_Key with a limited member of base 1, although the code
    says that the full member takes precedence: the insertion meant to replace
    the limited one leaves it in the map. *)
Definition mixed_tbl : osm_pkey_tbl :=
  (osm_pkey_tbl_set (osm_pkey_tbl_init (PkeyTbl ∅ [] [] ∅ 0 0 0 0 0)) 0
     [cl_hton16 0x0001; cl_hton16 0x8001] false true).2.

Definition limited_tbl : osm_pkey_tbl :=
  (osm_pkey_tbl_set (osm_pkey_tbl_init (PkeyTbl ∅ [] [] ∅ 0 0 0 0 0)) 0
     [cl_hton16 0x0001] false true).2.

(** A table with the full member of base 1 only, keyed by the whole P_Key. *)
Definition full_tbl : osm_pkey_tbl :=
  (osm_pkey_tbl_set (osm_pkey_tbl_init (PkeyTbl ∅ [] [] ∅ 0 0 0 0 0)) 0
     [cl_hton16 0x8001] true true).2.
End Pkey.

Lemma full_member_not_preferred (BO : ByteOrder) :
  has_pkey mixed_tbl (cl_hton16 0x8001) ∧ has_pkey limited_tbl (cl_hton16 0x0001)
  ∧ match_pkey (cl_hton16 0x8001) (cl_hton16 0x0001) = true
  ∧ osm_physp_share_this_pkey (Physp 1 mixed_tbl) (Physp 2 limited_tbl) (cl_hton16 1) false
    = false
  ∧ osm_physp_share_pkey (Physp 1 mixed_tbl) (Physp 2 limited_tbl) false = false.
Proof.
  split; [exists (0, 1)%nat|split; [exists (0, 0)%nat|]]; case BO; by vm_compute.
Qed.

(** With both memberships allowed, a port whose table has the full member only is
    reported not to have that P_Key. *)
Lemma has_pkey_misses_full_member (BO : ByteOrder) :
  has_pkey full_tbl (cl_hton16 0x8001)
  ∧ osm_physp_has_pkey (cl_hton16 0x8001) (Physp 1 full_tbl) = false.
Proof. split; [exists (0, 0)%nat|]; case BO; by vm_compute. Qed.

(** ** Witnesses *)

#[local] Instance demo_bo : ByteOrder := false.

(** Two ports: 0x8001, 0x0002 and 0x0001, 0x8002; big endian, both memberships
    allowed. *)
Definition demo_tbl1 : osm_pkey_tbl :=
  (osm_pkey_tbl_set (PkeyTbl ∅ [] [Some [0x8001; 0]] ∅ 0 0 1 0 0) 0 [0x8001; 0x0002] true true).2.
Definition demo_tbl2 : osm_pkey_tbl :=
  (osm_pkey_tbl_set (PkeyTbl ∅ [] [] ∅ 0 0 0 0 0) 0 [0; 0x0001; 0x8002] true true).2.

Lemma demo_tbl_ok1 : tbl_ok demo_tbl1.
Proof. apply tbl_ok_entries. repeat constructor; vm_compute; congruence. Qed.

Lemma demo_tbl_ok2 : tbl_ok demo_tbl2.
Proof. apply tbl_ok_entries. repeat constructor; vm_compute; congruence. Qed.

Lemma find_common_pkey_correct_witness :
  osm_physp_find_common_pkey (Physp 1 demo_tbl1) (Physp 2 demo_tbl2) true ≠ 0.
Proof.
  destruct (find_common_pkey_correct (Physp 1 demo_tbl1) (Physp 2 demo_tbl2) true) as [_ H].
  - apply osm_pkey_tbl_set_keys_ok.
  - apply osm_pkey_tbl_set_keys_ok.
  - exact demo_tbl_ok1.
  - exact demo_tbl_ok2.
  - apply (H (or_introl eq_refl) (or_introl eq_refl) 0x8001 0x0001).
    + exists (0, 0)%nat. split; reflexivity.
    + exists (0, 1)%nat. split; reflexivity.
    + reflexivity.
Defined.

Lemma share_this_pkey_iff_witness :
  osm_physp_share_this_pkey (Physp 1 demo_tbl1) (Physp 2 demo_tbl2) 0x0002 true = true.
Proof.
  apply (share_this_pkey_iff (Physp 1 demo_tbl1) (Physp 2 demo_tbl2) 0x0002 true).
  - apply osm_pkey_tbl_set_keys_ok.
  - apply osm_pkey_tbl_set_keys_ok.
  - exact demo_tbl_ok1.
  - exact demo_tbl_ok2.
  - left. reflexivity.
  - left. reflexivity.
  - split; [lia|reflexivity].
  - exists 0x0002, 0x8002. split; [exists (0, 1)%nat; split; reflexivity|].
    split; [exists (0, 2)%nat; split; reflexivity|]. split; reflexivity.
Defined.
