(* ===== verification/Rate.v ===== *)
(** * Rates: the rate codes of [include/iba/ib_types.h] and [libopensm/osm_helper.c]

    A rate is a code of the specification; the codes are not in the order of the
    speeds, so every comparison goes through [ordered_rates].  The file has the
    comparison, the neighbours of a rate, the cap of [osm_sa_limit_rate] and the rate
    of a link from its PortInfo. *)

From S2P Require Import Prelude IbTypes.

Open Scope Z_scope.

(** ** Codes *)

Definition IB_MIN_RATE : Z := 2.
Definition IB_MAX_RATE : Z := 24.

Definition ordered_rates : list Z :=
  [0; 0; 1; 3; 6; 2; 5; 9; 10; 13; 14; 4; 12; 16; 17; 7; 15; 18; 19; 8; 11; 20; 21; 22; 23].

(** [ordered_rates[rate]]; an element past the end is never read. *)
Definition ordered (rate : Z) : Z := ordered_rates !!! Z.to_nat rate.

Definition ib_rate_is_valid (rate : Z) : bool :=
  negb ((rate <? IB_MIN_RATE) || (IB_MAX_RATE <? rate)).

Definition ib_path_compare_rates (rate1 rate2 : Z) : Z :=
  let orate1 := if rate1 <=? IB_MAX_RATE then ordered rate1 else 0 in
  let orate2 := if rate2 <=? IB_MAX_RATE then ordered rate2 else 0 in
  if orate1 <? orate2 then -1 else if orate1 =? orate2 then 0 else 1.

(** The codes the loop of [find_ordered_rate] goes through. *)
Definition rate_codes : list Z := seqZ IB_MIN_RATE (IB_MAX_RATE - IB_MIN_RATE + 1).

Definition find_ordered_rate (rate : Z) : Z :=
  default 0 (list_find_first (λ i, ordered i =? rate) rate_codes).

Definition ib_path_rate_get_prev (rate : Z) : Z :=
  if rate <=? IB_MIN_RATE then 0
  else if IB_MAX_RATE <? rate then 0
  else find_ordered_rate (ordered rate - 1).

Definition ib_path_rate_get_next (rate : Z) : Z :=
  if rate <? IB_MIN_RATE then 0
  else if IB_MAX_RATE <=? rate then 0
  else find_ordered_rate (ordered rate + 1).

(** The [while] loop of [ib_path_get_reduced_rate]; a round takes the next slower
    rate, so that one round per code is enough ([reduce_loop_stops]). *)
Fixpoint reduce_loop (fuel : nat) (limit i : Z) : option Z :=
  match fuel with
  | O => None
  | S fuel =>
      if (IB_MIN_RATE <? i) && ((ordered limit <? ordered i) || (limit <? i))
      then reduce_loop fuel limit (ib_path_rate_get_prev i)
      else Some i
  end.

Definition reduce_fuel : nat := 25.

Definition ib_path_get_reduced_rate (rate limit : Z) : option Z :=
  i ← reduce_loop reduce_fuel limit (ib_path_rate_get_prev rate);
  Some (if i =? 0 then IB_MIN_RATE else i).

Definition SA_RATE_MAX_ENUM : Z := 63.

Definition osm_sa_limit_rate (max_rate_enum rate : Z) : option Z :=
  if max_rate_enum <? rate then ib_path_get_reduced_rate rate max_rate_enum else Some rate.

(** ** The rate of a link *)

(** The fields of a PortInfo that give the rate and the MTU. *)
Record ib_port_info := PortInfo {
  mtu_smsl : Z;
  link_width_active : Z;
  link_speed : Z;
  link_speed_ext : Z;
  capability_mask : Z
}.

Definition ib_port_info_get_neighbor_mtu (pi : ib_port_info) : Z :=
  Z.shiftr (Z.land (mtu_smsl pi) 0xF0) 4.
Definition ib_port_info_get_link_speed_active (pi : ib_port_info) : Z :=
  Z.shiftr (Z.land (link_speed pi) 0xF0) 4.
Definition ib_port_info_get_link_speed_ext_active (pi : ib_port_info) : Z :=
  Z.shiftr (Z.land (link_speed_ext pi) 0xF0) 4.

(** A [switch] over the active width: the rates of 1X, 4X, 8X, 12X and 2X links, and
    1X for any other value. *)
Definition by_width (w r1 r4 r8 r12 r2 : Z) : Z :=
  match w with 1 => r1 | 2 => r4 | 4 => r8 | 8 => r12 | 16 => r2 | _ => r1 end.

(** The [switch] over the extended speed; 0 when there is none. *)
Definition ext_rate (speed w : Z) : Z :=
  match speed with
  | 1 => by_width w 11 12 13 14 19
  | 2 => by_width w 15 16 17 18 20
  | 4 => by_width w 20 17 21 22 16
  | 8 => by_width w 16 21 23 24 17
  | _ => 0
  end.

Definition ib_port_info_compute_rate (pi : ib_port_info) (extended : bool) : Z :=
  let w := link_width_active pi in
  let rate := if extended then ext_rate (ib_port_info_get_link_speed_ext_active pi) w else 0 in
  if negb (rate =? 0) then rate
  else match ib_port_info_get_link_speed_active pi with
       | 1 => by_width w 2 3 6 4 5
       | 2 => by_width w 5 6 7 8 3
       | 4 => by_width w 3 7 9 10 6
       | _ => 2
       end.

(** ** Codes and speeds *)

(** The speed of a code in hundredths of a Gbps, an encoding of 64 bits in 66 taken
    for its worth in the older encoding of 8 bits in 10, as the comments beside
    [ordered_rates] have it. *)
Definition rate_speed (rate : Z) : Z :=
  match rate with
  | 2 => 250 | 3 => 1000 | 4 => 3000 | 5 => 500 | 6 => 2000 | 7 => 4000 | 8 => 6000
  | 9 => 8000 | 10 => 12000 | 11 => 1700 | 12 => 6800 | 13 => 13600 | 14 => 20400
  | 15 => 3125 | 16 => 12500 | 17 => 25000 | 18 => 37500 | 19 => 3500 | 20 => 6250
  | 21 => 50000 | 22 => 75000 | 23 => 100000 | 24 => 150000 | _ => 0
  end.

Definition rate_ok (rate : Z) : Prop := IB_MIN_RATE ≤ rate ≤ IB_MAX_RATE.

Lemma rate_codes_ok rate : rate ∈ rate_codes ↔ rate_ok rate.
Proof. unfold rate_codes, rate_ok, IB_MIN_RATE, IB_MAX_RATE. rewrite elem_of_seqZ. lia. Qed.

Lemma ib_rate_is_valid_iff rate : ib_rate_is_valid rate = true ↔ rate_ok rate.
Proof. unfold ib_rate_is_valid, rate_ok. rewrite negb_true_iff, orb_false_iff. lia. Qed.

(** A statement about every code is settled by trying the 23 of them. *)
Lemma all_rates (f : Z → bool) :
  forallb f rate_codes = true → ∀ rate, rate_ok rate → f rate = true.
Proof.
  intros H rate Hr. rewrite forallb_forall in H. apply H.
  rewrite <- list_elem_of_In. by apply rate_codes_ok.
Qed.

Lemma all_rates2 (f : Z → Z → bool) :
  forallb (λ x, forallb (f x) rate_codes) rate_codes = true →
  ∀ x y, rate_ok x → rate_ok y → f x y = true.
Proof.
  intros H x y Hx Hy. apply (all_rates (f x)); [|done].
  by apply (all_rates (λ x, forallb (f x) rate_codes)).
Qed.

Lemma all_rates3 (f : Z → Z → Z → bool) :
  forallb (λ x, forallb (λ y, forallb (f x y) rate_codes) rate_codes) rate_codes = true →
  ∀ x y z, rate_ok x → rate_ok y → rate_ok z → f x y z = true.
Proof.
  intros H x y z Hx Hy Hz. apply (all_rates (f x y)); [|done].
  by apply (all_rates2 (λ x y, forallb (f x y) rate_codes)).
Qed.

(** The comparison, as the sign of a difference of speeds. *)
Lemma compare_rates_speed x y :
  rate_ok x → rate_ok y →
  ib_path_compare_rates x y = Z.sgn (rate_speed x - rate_speed y).
Proof.
  intros Hx Hy. apply Z.eqb_eq.
  refine (all_rates2 (λ x y, ib_path_compare_rates x y =? _) _ x y Hx Hy).
  by vm_compute.
Qed.

Lemma rate_speed_inj x y : rate_ok x → rate_ok y → rate_speed x = rate_speed y → x = y.
Proof.
  intros Hx Hy Heq. apply Z.eqb_eq in Heq. revert Heq.
  enough (negb (rate_speed x =? rate_speed y) || (x =? y) = true) as H.
  { apply orb_true_iff in H as [H|H]; [|lia]. apply negb_true_iff in H. congruence. }
  refine (all_rates2 (λ x y, negb (rate_speed x =? rate_speed y) || (x =? y)) _ x y Hx Hy).
  by vm_compute.
Qed.

(** [y] is the fastest rate slower than [x]. *)
Definition next_slower (x y : Z) : Prop :=
  rate_ok y ∧ rate_speed y < rate_speed x ∧
  ∀ z, rate_ok z → rate_speed z < rate_speed x → rate_speed z ≤ rate_speed y.

Definition next_slower_b (x y : Z) : bool :=
  ib_rate_is_valid y && (rate_speed y <? rate_speed x) &&
  forallb (λ z, negb (rate_speed z <? rate_speed x) || (rate_speed z <=? rate_speed y)) rate_codes.

Lemma next_slower_dec x y : next_slower_b x y = true → next_slower x y.
Proof.
  unfold next_slower_b. rewrite !andb_true_iff, ib_rate_is_valid_iff.
  intros [[H1 H2] H3]. split_and!; [done|lia|]. intros z Hz Hlt.
  pose proof (all_rates _ H3 z Hz) as H. cbv beta in H. lia.
Qed.

Lemma rate_get_prev_slower rate :
  rate_ok rate → rate ≠ IB_MIN_RATE → next_slower rate (ib_path_rate_get_prev rate).
Proof.
  intros Hr Hne. apply next_slower_dec.
  enough ((rate =? IB_MIN_RATE) || next_slower_b rate (ib_path_rate_get_prev rate) = true) as H.
  { apply orb_true_iff in H as [H|H]; [lia|done]. }
  refine (all_rates (λ r, (r =? IB_MIN_RATE) || next_slower_b r (ib_path_rate_get_prev r)) _ rate Hr).
  by vm_compute.
Qed.

Lemma rate_get_next_faster rate :
  rate_ok rate → rate ≠ IB_MAX_RATE → next_slower (ib_path_rate_get_next rate) rate.
Proof.
  intros Hr Hne. apply next_slower_dec.
  enough ((rate =? IB_MAX_RATE) || next_slower_b (ib_path_rate_get_next rate) rate = true) as H.
  { apply orb_true_iff in H as [H|H]; [lia|done]. }
  refine (all_rates (λ r, (r =? IB_MAX_RATE) || next_slower_b (ib_path_rate_get_next r) r) _ rate Hr).
  by vm_compute.
Qed.

(** What [ib_path_get_reduced_rate] looks for: a rate within the cap, by code and by
    speed, and slower than the rate it is given; the fastest of them. *)
Definition reduced_ok (rate limit z : Z) : Prop :=
  z ≤ limit ∧ rate_speed z ≤ rate_speed limit ∧ rate_speed z < rate_speed rate.

Definition reduced_b (rate limit z : Z) : bool :=
  (z <=? limit) && (rate_speed z <=? rate_speed limit) && (rate_speed z <? rate_speed rate).

Lemma reduced_b_ok rate limit z : reduced_b rate limit z = true ↔ reduced_ok rate limit z.
Proof. unfold reduced_b, reduced_ok. rewrite !andb_true_iff. lia. Qed.

Definition reduced_check (rate limit : Z) : bool :=
  (rate =? IB_MIN_RATE) ||
  match ib_path_get_reduced_rate rate limit with
  | Some r => ib_rate_is_valid r && reduced_b rate limit r &&
      forallb (λ z, negb (reduced_b rate limit z) || (rate_speed z <=? rate_speed r)) rate_codes
  | None => false
  end.

Lemma get_reduced_rate_best rate limit :
  rate_ok rate → rate_ok limit → rate ≠ IB_MIN_RATE →
  ∃ r, ib_path_get_reduced_rate rate limit = Some r ∧ rate_ok r ∧ reduced_ok rate limit r ∧
    ∀ z, rate_ok z → reduced_ok rate limit z → rate_speed z ≤ rate_speed r.
Proof.
  intros Hr Hl Hne.
  assert (reduced_check rate limit = true) as H.
  { refine (all_rates2 reduced_check _ rate limit Hr Hl). by vm_compute. }
  unfold reduced_check in H. apply orb_true_iff in H as [H|H]; [lia|].
  destruct (ib_path_get_reduced_rate rate limit) as [r|]; [|done].
  rewrite !andb_true_iff, ib_rate_is_valid_iff, reduced_b_ok in H. destruct H as [[H1 H2] H3].
  exists r. split_and!; try done. intros z Hz Hzl.
  pose proof (all_rates _ H3 z Hz) as H. cbv beta in H.
  apply reduced_b_ok in Hzl. rewrite Hzl in H. simpl in H. lia.
Qed.

(** The cap leaves a rate within it as it is and gives no rate for one above it that
    is not slower. *)
Lemma limit_rate_ok max_rate_enum rate :
  rate_ok rate → rate_ok max_rate_enum →
  ∃ r, osm_sa_limit_rate max_rate_enum rate = Some r ∧ rate_ok r ∧ r ≤ max_rate_enum ∧
    rate_speed r ≤ rate_speed rate.
Proof.
  intros Hr Hm. unfold osm_sa_limit_rate. destruct (Z.ltb_spec max_rate_enum rate) as [Hlt|Hle].
  - destruct (get_reduced_rate_best rate max_rate_enum) as (r & Hr1 & Hr2 & (Hr3 & _ & Hr4) & _);
      [done|done|unfold rate_ok in *; lia|]. exists r. split_and!; auto; lia.
  - exists rate. split_and!; auto; lia.
Qed.

(** ** The rate of a link is a rate *)

Lemma by_width_cases (P : Z → Prop) w r1 r4 r8 r12 r2 :
  P r1 → P r4 → P r8 → P r12 → P r2 → P (by_width w r1 r4 r8 r12 r2).
Proof. intros. unfold by_width. repeat case_match; done. Qed.

Lemma ext_rate_ok speed w : ext_rate speed w = 0 ∨ rate_ok (ext_rate speed w).
Proof.
  unfold ext_rate. repeat case_match; try (by left); right;
    apply by_width_cases; unfold rate_ok, IB_MIN_RATE, IB_MAX_RATE; lia.
Qed.

Lemma compute_rate_ok pi extended : rate_ok (ib_port_info_compute_rate pi extended).
Proof.
  unfold ib_port_info_compute_rate.
  set (r := if extended then _ else 0).
  destruct (Z.eqb_spec r 0) as [E|E]; simpl.
  - repeat case_match; try (apply by_width_cases);
      unfold rate_ok, IB_MIN_RATE, IB_MAX_RATE; lia.
  - subst r. destruct extended; [|done].
    destruct (ext_rate_ok (ib_port_info_get_link_speed_ext_active pi) (link_width_active pi)); done.
Qed.

(** Lanes of a width, and the speed of a lane, in tenths of a Gbps. *)
Definition width_lanes (w : Z) : Z :=
  match w with 1 => 1 | 2 => 4 | 4 => 8 | 8 => 12 | 16 => 2 | _ => 0 end.
Definition ext_lane_gbps (speed : Z) : Z :=
  match speed with 1 => 140 | 2 => 250 | 4 => 500 | 8 => 1000 | _ => 0 end.
Definition lane_gbps (speed : Z) : Z :=
  match speed with 1 => 25 | 2 => 50 | 4 => 100 | _ => 0 end.

(** The nominal speed that names a code. *)
Definition rate_gbps (rate : Z) : Z :=
  match rate with
  | 2 => 25 | 3 => 100 | 4 => 300 | 5 => 50 | 6 => 200 | 7 => 400 | 8 => 600 | 9 => 800
  | 10 => 1200 | 11 => 140 | 12 => 560 | 13 => 1120 | 14 => 1680 | 15 => 250 | 16 => 1000
  | 17 => 2000 | 18 => 3000 | 19 => 280 | 20 => 500 | 21 => 4000 | 22 => 6000 | 23 => 8000
  | 24 => 12000 | _ => 0
  end.

(** The speed of a lane of the port: an extended speed when the port has one. *)
Definition port_lane_gbps (pi : ib_port_info) (extended : bool) : Z :=
  let ext := ext_lane_gbps (ib_port_info_get_link_speed_ext_active pi) in
  if extended && negb (ext =? 0) then ext
  else lane_gbps (ib_port_info_get_link_speed_active pi).

Lemma by_width_lanes w l r1 r4 r8 r12 r2 :
  rate_gbps r1 = 1 * l → rate_gbps r4 = 4 * l → rate_gbps r8 = 8 * l →
  rate_gbps r12 = 12 * l → rate_gbps r2 = 2 * l → width_lanes w ≠ 0 →
  rate_gbps (by_width w r1 r4 r8 r12 r2) = width_lanes w * l.
Proof. intros ????? Hw. unfold by_width, width_lanes in *. repeat case_match; congruence. Qed.

Lemma ext_rate_lanes speed w :
  width_lanes w ≠ 0 →
  (ext_rate speed w = 0 ∧ ext_lane_gbps speed = 0) ∨
  (ext_rate speed w ≠ 0 ∧ ext_lane_gbps speed ≠ 0 ∧
   rate_gbps (ext_rate speed w) = width_lanes w * ext_lane_gbps speed).
Proof.
  intros Hw. unfold ext_rate, ext_lane_gbps.
  repeat case_match; try (left; split; reflexivity); right;
    (split_and!; [apply by_width_cases; lia|lia|by apply by_width_lanes]).
Qed.

(** C39. The rate of a link is always one of the codes; for the widths and lane speeds
    the specification names it is the code of the link's speed, lanes times lane
    speed, the extended speed before the older one. *)
Theorem compute_rate_link pi extended :
  rate_ok (ib_port_info_compute_rate pi extended) ∧
  (width_lanes (link_width_active pi) ≠ 0 → port_lane_gbps pi extended ≠ 0 →
   rate_gbps (ib_port_info_compute_rate pi extended)
   = width_lanes (link_width_active pi) * port_lane_gbps pi extended).
Proof.
  split; [apply compute_rate_ok|]. intros Hw Hl.
  unfold ib_port_info_compute_rate, port_lane_gbps in *.
  set (w := link_width_active pi) in *.
  set (e := ib_port_info_get_link_speed_ext_active pi) in *.
  set (s := ib_port_info_get_link_speed_active pi) in *. clearbody w e s.
  assert (Hlegacy : lane_gbps s ≠ 0 → rate_gbps (match s with
    | 1 => by_width w 2 3 6 4 5 | 2 => by_width w 5 6 7 8 3 | 4 => by_width w 3 7 9 10 6
    | _ => 2 end) = width_lanes w * lane_gbps s).
  { unfold lane_gbps. intros Hs. repeat case_match; try congruence; by apply by_width_lanes. }
  destruct extended; simpl in *; [|by apply Hlegacy].
  destruct (ext_rate_lanes e w Hw) as [[E1 E2]|(E1 & E2 & E3)].
  - rewrite E1, E2 in *. simpl in *. by apply Hlegacy.
  - apply Z.eqb_neq in E1, E2. rewrite E1, E2. simpl. apply E3.
Qed.

Lemma compute_rate_link_witness :
  let pi := PortInfo 0x40 2 0x40 0x20 0 in
  width_lanes (link_width_active pi) ≠ 0 ∧ port_lane_gbps pi true ≠ 0 ∧
  rate_gbps (ib_port_info_compute_rate pi true) = 1000.
Proof.
  set (pi := PortInfo 0x40 2 0x40 0x20 0).
  assert (H1 : width_lanes (link_width_active pi) ≠ 0) by (vm_compute; discriminate).
  assert (H2 : port_lane_gbps pi true ≠ 0) by (vm_compute; discriminate).
  split; [exact H1|]. split; [exact H2|].
  rewrite (proj2 (compute_rate_link pi true) H1 H2). reflexivity.
Defined.

(** The order of the codes is the order of the speeds: comparing two rates gives
    the sign of the difference of their speeds, and the rates beside a rate are the
    fastest slower one and the slowest faster one. *)
Theorem rates_ordered_by_speed x y :
  rate_ok x → rate_ok y →
  ib_path_compare_rates x y = Z.sgn (rate_speed x - rate_speed y) ∧
  (x ≠ IB_MIN_RATE → next_slower x (ib_path_rate_get_prev x)) ∧
  (x ≠ IB_MAX_RATE → next_slower (ib_path_rate_get_next x) x).
Proof.
  intros Hx Hy. split_and!.
  - by apply compare_rates_speed.
  - by apply rate_get_prev_slower.
  - by apply rate_get_next_faster.
Qed.

Lemma rates_ordered_by_speed_witness :
  ib_path_compare_rates 4 15 = -1 ∧ ib_path_rate_get_prev 4 = 6.
Proof.
  assert (H4 : rate_ok 4) by (unfold rate_ok, IB_MIN_RATE, IB_MAX_RATE; lia).
  assert (H15 : rate_ok 15) by (unfold rate_ok, IB_MIN_RATE, IB_MAX_RATE; lia).
  destruct (rates_ordered_by_speed 4 15 H4 H15) as [-> _]. split; reflexivity.
Defined.

(** ** The cap ends *)

Lemma find_ordered_rate_cases r : find_ordered_rate r = 0 ∨ rate_ok (find_ordered_rate r).
Proof.
  unfold find_ordered_rate. destruct (list_find_first _ rate_codes) as [i|] eqn:E; [|by left].
  right. apply list_find_first_Some in E. simpl. apply rate_codes_ok. tauto.
Qed.

Lemma get_prev_cases r : ib_path_rate_get_prev r = 0 ∨ rate_ok (ib_path_rate_get_prev r).
Proof. unfold ib_path_rate_get_prev. repeat case_match; auto using find_ordered_rate_cases. Qed.

Lemma ordered_prev r :
  rate_ok r → r ≠ IB_MIN_RATE →
  rate_ok (ib_path_rate_get_prev r) ∧ ordered (ib_path_rate_get_prev r) = ordered r - 1.
Proof.
  intros Hr Hne. split; [by apply rate_get_prev_slower|].
  enough ((r =? IB_MIN_RATE) || (ordered (ib_path_rate_get_prev r) =? ordered r - 1) = true) as H.
  { apply orb_true_iff in H as [H|H]; lia. }
  refine (all_rates (λ r, (r =? IB_MIN_RATE) || (ordered (ib_path_rate_get_prev r) =? ordered r - 1)) _ r Hr).
  by vm_compute.
Qed.

Lemma ordered_range r : rate_ok r → 1 ≤ ordered r ≤ 23.
Proof.
  intros Hr. enough ((1 <=? ordered r) && (ordered r <=? 23) = true) by lia.
  refine (all_rates (λ r, (1 <=? ordered r) && (ordered r <=? 23)) _ r Hr). by vm_compute.
Qed.

Lemma reduce_loop_stops fuel limit i :
  i = 0 ∨ (rate_ok i ∧ ordered i < Z.of_nat fuel) → (0 < fuel)%nat →
  is_Some (reduce_loop fuel limit i).
Proof.
  revert i. induction fuel as [|fuel IH]; intros i Hi Hf; [lia|]. cbn [reduce_loop].
  destruct ((IB_MIN_RATE <? i) && _) eqn:E; [|by eexists].
  apply andb_true_iff in E as [E _]. unfold IB_MIN_RATE in E. destruct Hi as [->|[Hok Hlt]]; [done|].
  destruct (ordered_prev i Hok) as [H1 H2]; [unfold IB_MIN_RATE; lia|].
  pose proof (ordered_range _ H1). apply IH; [right; split; [done|lia]|lia].
Qed.

Lemma limit_rate_some max_rate_enum rate : is_Some (osm_sa_limit_rate max_rate_enum rate).
Proof.
  unfold osm_sa_limit_rate, ib_path_get_reduced_rate. case_match; [|by eexists].
  destruct (reduce_loop_stops reduce_fuel max_rate_enum (ib_path_rate_get_prev rate)) as [i ->].
  - destruct (get_prev_cases rate) as [E|E]; [by left|right]. split; [done|].
    pose proof (ordered_range _ E). unfold reduce_fuel. lia.
  - unfold reduce_fuel. lia.
  - by eexists.
Qed.
