(* ===== verification/Mgrp.v ===== *)
(** * Multicast groups: [opensm/osm_multicast.c] and [opensm/osm_mcm_port.c]

    A group keeps two tables of members: the ports ([mcm_port_tbl], by port GUID) and
    the GIDs that joined ([mcm_alias_port_tbl], by alias GUID), each of which points to
    the entry of its port.  Groups that share a multicast LID hang in a box, and a port
    has a list of its entries in all groups.

    Groups and port entries are objects with an address: the tables and lists hold
    addresses, [free] takes the object out of its store, and an operation that reads
    an object that is not there has no result.  The [osm_port_t] objects are told
    apart by their GUIDs.  Allocations succeed. *)

From S2P Require Import Prelude IbTypes.

Open Scope Z_scope.

(** ** Data *)

Definition IB_LID_MCAST_START_HO : Z := 0xC000.
Definition IB_LID_MCAST_END_HO : Z := 0xFFFE.
Definition IB_JOIN_STATE_FULL : Z := 1.
Definition IB_JOIN_STATE_SEND_ONLY_FULL : Z := 8.
Definition SM_MGID_CREATED_TRAP : Z := 66.
Definition SM_MGID_DESTROYED_TRAP : Z := 67.

(** The two halves of a GID, as [unicast] has them; multicast GIDs are the 16 bytes. *)
Record ib_gid := Gid { prefix : Z; interface_id : Z }.

Record ib_member_rec := MemberRec {
  mr_mgid : list Z;
  mr_port_gid : ib_gid;
  mr_qkey : Z;
  mr_mlid : Z;
  mr_mtu : Z;
  mr_tclass : Z;
  mr_pkey : Z;
  mr_rate : Z;
  mr_pkt_life : Z;
  mr_sl_flow_hop : Z;
  mr_scope_state : Z;
  mr_proxy_join : bool
}.

#[export] Instance ib_member_rec_eta : Eta ib_member_rec := λ r,
  MemberRec (mr_mgid r) (mr_port_gid r) (mr_qkey r) (mr_mlid r) (mr_mtu r) (mr_tclass r)
    (mr_pkey r) (mr_rate r) (mr_pkt_life r) (mr_sl_flow_hop r) (mr_scope_state r)
    (mr_proxy_join r).

(** [port] is the GUID of the port, [mgrp] the address of the group. *)
Record osm_mcm_port := McmPort { mp_port : Z; mp_mgrp : Z }.

Record osm_mcm_alias_guid := McmAlias {
  alias_guid : Z;
  p_base_mcm_port : Z;
  ma_port_gid : ib_gid;
  ma_scope_state : Z;
  ma_proxy_join : bool
}.

#[export] Instance osm_mcm_alias_guid_eta : Eta osm_mcm_alias_guid := λ a,
  McmAlias (alias_guid a) (p_base_mcm_port a) (ma_port_gid a) (ma_scope_state a)
    (ma_proxy_join a).

Record osm_mgrp := Mgrp {
  mg_mlid : Z;
  mcm_port_tbl : gmap Z Z;
  mcm_alias_port_tbl : gmap Z osm_mcm_alias_guid;
  mcmember_rec : ib_member_rec;
  well_known : bool;
  full_members : Z
}.

#[export] Instance osm_mgrp_eta : Eta osm_mgrp := λ g,
  Mgrp (mg_mlid g) (mcm_port_tbl g) (mcm_alias_port_tbl g) (mcmember_rec g) (well_known g)
    (full_members g).

Record mgrp_box := MBox { mb_mlid : Z; mb_mgrp_list : list Z }.

#[export] Instance mgrp_box_eta : Eta mgrp_box := λ b, MBox (mb_mlid b) (mb_mgrp_list b).

(** What the operations do outside the groups: ask for the tree of an MLID to be built
    again ([osm_sm_reroute_mlid]), report a notice about a group. *)
Inductive mc_event := RerouteMlid (mlid : Z) | Notice (trap_num : Z) (mgid : list Z).

(** The part of the subnet the groups live in; [mboxes] by the offset of the MLID,
    a NULL element being absent, [mcm_list] by the GUID of the port. *)
Record mc_subn := McSubn {
  mgrps : gmap Z osm_mgrp;
  mcm_ports : gmap Z osm_mcm_port;
  next_addr : Z;
  mgrp_mgid_tbl : gmap (list Z) Z;
  mboxes : gmap Z mgrp_box;
  mcm_list : gmap Z (list Z);
  sa_dirty : bool;
  uniq_count : Z;
  mc_events : list mc_event
}.

#[export] Instance mc_subn_eta : Eta mc_subn := λ s,
  McSubn (mgrps s) (mcm_ports s) (next_addr s) (mgrp_mgid_tbl s) (mboxes s) (mcm_list s)
    (sa_dirty s) (uniq_count s) (mc_events s).

Definition mc_emit (e : mc_event) (s : mc_subn) : mc_subn :=
  s <| mc_events := mc_events s ++ [e] |>.

Definition put_mgrp (g : Z) (m : osm_mgrp) (s : mc_subn) : mc_subn :=
  s <| mgrps := <[g := m]> (mgrps s) |>.

Definition mcm_list_of (s : mc_subn) (port : Z) : list Z := default [] (mcm_list s !! port).

(** [cl_qmap_remove_item] of an item that must be in the map. *)
Definition qmap_remove_item (m : gmap Z Z) (key item : Z) : option (gmap Z Z) :=
  if bool_decide (m !! key = Some item) then Some (delete key m) else None.

(** ** Scope and join state *)

Definition scope_of (scope_state : Z) : Z := Z.land (Z.shiftr scope_state 4) 0x0f.
Definition state_bits (scope_state : Z) : Z := Z.land scope_state 0x0f.

(** [ib_member_get_scope_state]: the scope and the join state. *)
Definition ib_member_get_scope_state (scope_state : Z) : Z * Z :=
  (scope_of scope_state, state_bits scope_state).

Definition ib_member_set_scope_state (scope state : Z) : Z :=
  Z.lor (u8 (Z.shiftl scope 4)) state.

Definition full_join_state : Z := Z.lor IB_JOIN_STATE_FULL IB_JOIN_STATE_SEND_ONLY_FULL.

(** [x & y] as a condition. *)
Definition bits_set (x y : Z) : bool := negb (Z.land x y =? 0).

Definition is_full (join_state : Z) : bool := bits_set join_state full_join_state.

Section Mgrp.
Context {BO : ByteOrder}.

(** ** Boxes *)

Definition mgrp_box_new (mlid : Z) : mgrp_box := MBox mlid [].

(** The index of an MLID in [mboxes]; outside the array there is no element to read. *)
Definition mbox_index (mlid_ho : Z) : option Z :=
  if (IB_LID_MCAST_START_HO <=? mlid_ho) && (mlid_ho <=? IB_LID_MCAST_END_HO)
  then Some (mlid_ho - IB_LID_MCAST_START_HO) else None.

Definition osm_get_mbox_by_mlid (s : mc_subn) (mlid : Z) : option (option mgrp_box) :=
  i ← mbox_index (cl_ntoh16 mlid); Some (mboxes s !! i).

Definition osm_get_mgrp_by_mgid (s : mc_subn) (mgid : list Z) : option Z :=
  mgrp_mgid_tbl s !! mgid.

(** ** Making and dropping a group *)

Definition osm_mgrp_new (s : mc_subn) (mlid : Z) (mcmr : ib_member_rec) : option (Z * mc_subn) :=
  let g := next_addr s in
  let s := put_mgrp g (Mgrp mlid ∅ ∅ mcmr false 0) (s <| next_addr := g + 1 |>) in
  mbox ← osm_get_mbox_by_mlid s mlid;
  let mbox := default (mgrp_box_new (cl_ntoh16 mlid)) mbox in
  let mbox := mbox <| mb_mgrp_list := mb_mgrp_list mbox ++ [g] |> in
  i ← mbox_index (mb_mlid mbox);
  let s := s <| mboxes := <[i := mbox]> (mboxes s) |> in
  let tbl := match mgrp_mgid_tbl s !! mr_mgid mcmr with
             | Some _ => mgrp_mgid_tbl s
             | None => <[mr_mgid mcmr := g]> (mgrp_mgid_tbl s)
             end in
  Some (g, s <| mgrp_mgid_tbl := tbl |> <| sa_dirty := true |>).

(** The second loop of [osm_mgrp_cleanup] takes the entries in the order of the map. *)
Definition cleanup_port (s : option mc_subn) (e : Z * Z) : option mc_subn :=
  s ← s;
  mp ← mcm_ports s !! e.2;
  Some (s <| mcm_list := <[mp_port mp := filter (.≠ e.2) (mcm_list_of s (mp_port mp))]> (mcm_list s) |>
          <| mcm_ports := delete e.2 (mcm_ports s) |>).

Definition osm_mgrp_cleanup (s : mc_subn) (g : Z) : option mc_subn :=
  mgrp ← mgrps s !! g;
  if negb (full_members mgrp =? 0) then Some s
  else
    s ← foldl cleanup_port (Some s) (qmap_items (mcm_port_tbl mgrp));
    let s := put_mgrp g (mgrp <| mcm_alias_port_tbl := ∅ |> <| mcm_port_tbl := ∅ |>) s in
    if well_known mgrp then Some s
    else
      let s := s <| mgrp_mgid_tbl := delete (mr_mgid (mcmember_rec mgrp)) (mgrp_mgid_tbl s) |> in
      mbox ← mjoin (osm_get_mbox_by_mlid s (mg_mlid mgrp));
      let mbox := mbox <| mb_mgrp_list := filter (.≠ g) (mb_mgrp_list mbox) |> in
      i ← mbox_index (cl_ntoh16 (mg_mlid mgrp));
      let boxes := if bool_decide (mb_mgrp_list mbox = [])
                   then delete i (mboxes s) else <[i := mbox]> (mboxes s) in
      Some (s <| mboxes := boxes |> <| mgrps := delete g (mgrps s) |> <| sa_dirty := true |>).

Definition mgrp_send_notice (mgrp : osm_mgrp) (num : Z) (s : mc_subn) : mc_subn :=
  mc_emit (Notice num (mr_mgid (mcmember_rec mgrp))) s.

(** ** Members *)

(** The loop of [is_qmap_empty_for_port], which follows every entry to its port until
    one is the port. *)
Fixpoint no_alias_of_port (ports : gmap Z osm_mcm_port) (l : list (Z * osm_mcm_alias_guid))
    (port : Z) : option bool :=
  match l with
  | [] => Some true
  | (_, al) :: l =>
      mp ← ports !! p_base_mcm_port al;
      if mp_port mp =? port then Some false else no_alias_of_port ports l port
  end.

Definition is_qmap_empty_for_port (s : mc_subn) (tbl : gmap Z osm_mcm_alias_guid) (port : Z)
    : option bool := no_alias_of_port (mcm_ports s) (qmap_items tbl) port.

Definition is_qmap_empty_for_mcm_port (tbl : gmap Z osm_mcm_alias_guid) (mcm_port : Z) : bool :=
  forallb (λ e, negb (p_base_mcm_port e.2 =? mcm_port)) (qmap_items tbl).

Definition osm_mcm_alias_guid_new (base : Z) (mcmr : ib_member_rec) (proxy : bool)
    : osm_mcm_alias_guid :=
  McmAlias (interface_id (mr_port_gid mcmr)) base (mr_port_gid mcmr) (mr_scope_state mcmr) proxy.

(** [insert_alias_guid]: the entry found in place of the new one, the table, and the
    new entry, which is gone when another was found. *)
Definition insert_alias_guid (tbl : gmap Z osm_mcm_alias_guid) (al : osm_mcm_alias_guid)
    : option osm_mcm_alias_guid * gmap Z osm_mcm_alias_guid * option osm_mcm_alias_guid :=
  match tbl !! alias_guid al with
  | Some old => (Some old, tbl, None)
  | None => (None, <[alias_guid al := al]> tbl, Some al)
  end.

(** The join state added to an entry that is there; the whole byte of the request
    goes in. *)
Definition join_alias (old : osm_mcm_alias_guid) (join_state : Z) : osm_mcm_alias_guid :=
  let '(prev_scope, prev_join_state) := ib_member_get_scope_state (ma_scope_state old) in
  old <| ma_scope_state := ib_member_set_scope_state prev_scope (Z.lor prev_join_state join_state) |>.

(** The full members after a join, and whether the group has its first. *)
Definition count_join (n prev_join_state join_state : Z) : Z * bool :=
  if is_full join_state && negb (is_full prev_join_state)
  then (u32 (n + 1), u32 (n + 1) =? 1) else (n, false).

Definition osm_mgrp_add_port (s : mc_subn) (g port : Z) (mcmr : ib_member_rec) (proxy : bool)
    : option (Z * ib_member_rec * mc_subn) :=
  mgrp ← mgrps s !! g;
  let join_state := mr_scope_state mcmr in
  let new_port := next_addr s in
  let s := s <| mcm_ports := <[new_port := McmPort port g]> (mcm_ports s) |>
             <| next_addr := new_port + 1 |> in
  let al := osm_mcm_alias_guid_new new_port mcmr proxy in
  '(mcm_port, al, tbl, ptbl, prev_join_state, s) ←
    match mcm_port_tbl mgrp !! port with
    | Some prev_item =>
        let s := s <| mcm_ports := delete new_port (mcm_ports s) |> in
        let al := al <| p_base_mcm_port := prev_item |> in
        let '(check, tbl, al) := insert_alias_guid (mcm_alias_port_tbl mgrp) al in
        match check with
        | Some old =>
            let al := join_alias old join_state in
            Some (prev_item, al, <[alias_guid al := al]> tbl, mcm_port_tbl mgrp,
                  state_bits (ma_scope_state old), s)
        | None => al ← al; Some (prev_item, al, tbl, mcm_port_tbl mgrp, 0, s)
        end
    | None =>
        let '(_, tbl, al) := insert_alias_guid (mcm_alias_port_tbl mgrp) al in
        let s := s <| mcm_list := <[port := mcm_list_of s port ++ [new_port]]> (mcm_list s) |> in
        al ← al;
        Some (new_port, al, tbl, <[port := new_port]> (mcm_port_tbl mgrp), 0,
              mc_emit (RerouteMlid (mg_mlid mgrp)) s)
    end;
  let mcmr := mcmr <| mr_scope_state := ma_scope_state al |> in
  let '(n, first) := count_join (full_members mgrp) prev_join_state join_state in
  let mgrp := Mgrp (mg_mlid mgrp) ptbl tbl (mcmember_rec mgrp) (well_known mgrp) n in
  let s := put_mgrp g mgrp s in
  let s := if first then mgrp_send_notice mgrp SM_MGID_CREATED_TRAP s else s in
  Some (mcm_port, mcmr, s <| sa_dirty := true |>).

(** The join state of a member that is left when [join_state] leaves it. *)
Definition leave_state (port_join_state join_state : Z) : Z :=
  Z.land port_join_state (Z.lnot join_state).

(** Whether the member stays with the state it is left with. *)
Definition keeps_member (n port_join_state new_join_state : Z) : bool :=
  bits_set new_join_state IB_JOIN_STATE_FULL ||
  (negb (new_join_state =? 0) && (Z.land port_join_state IB_JOIN_STATE_FULL <? n)).

(** The [else] branch of [osm_mgrp_remove_port]: the entry goes, and with the last
    entry of its port the port. *)
Definition remove_alias (s : mc_subn) (g : Z) (mgrp : osm_mgrp) (al : osm_mcm_alias_guid)
    : option mc_subn :=
  let tbl := delete (alias_guid al) (mcm_alias_port_tbl mgrp) in
  let base := p_base_mcm_port al in
  let s := put_mgrp g (mgrp <| mcm_alias_port_tbl := tbl |>) s in
  mp ← mcm_ports s !! base;
  last ← is_qmap_empty_for_port s tbl (mp_port mp);
  if (last : bool) then
    ptbl ← qmap_remove_item (mcm_port_tbl mgrp) (mp_port mp) base;
    let s := put_mgrp g (mgrp <| mcm_alias_port_tbl := tbl |> <| mcm_port_tbl := ptbl |>) s in
    let s := s <| mcm_list :=
                 <[mp_port mp := filter (.≠ base) (mcm_list_of s (mp_port mp))]> (mcm_list s) |> in
    let s := if is_qmap_empty_for_mcm_port tbl base
             then s <| mcm_ports := delete base (mcm_ports s) |> else s in
    Some (mc_emit (RerouteMlid (mg_mlid mgrp)) s)
  else Some s.

(** The last part of [osm_mgrp_remove_port]: a full member less, and the group goes
    with the last one. *)
Definition count_leave (s : mc_subn) (g port_join_state new_join_state : Z)
    : option (bool * mc_subn) :=
  if is_full port_join_state && negb (is_full new_join_state) then
    mgrp ← mgrps s !! g;
    let n := u32 (full_members mgrp - 1) in
    let s := put_mgrp g (mgrp <| full_members := n |>) s in
    if n =? 0 then
      s ← osm_mgrp_cleanup (mgrp_send_notice mgrp SM_MGID_DESTROYED_TRAP s) g;
      Some (true, s)
    else Some (false, s)
  else Some (false, s).

(** The entry is given by its key in the group's table. *)
Definition osm_mgrp_remove_port (s : mc_subn) (g guid : Z) (mcmr : ib_member_rec)
    : option (bool * ib_member_rec * mc_subn) :=
  mgrp ← mgrps s !! g;
  al ← mcm_alias_port_tbl mgrp !! guid;
  let join_state := Z.land (mr_scope_state mcmr) 0xf in
  let port_join_state := Z.land (ma_scope_state al) 0x0F in
  let new_join_state := leave_state port_join_state join_state in
  '(mcmr, s) ←
    (if keeps_member (full_members mgrp) port_join_state new_join_state then
       let al := al <| ma_scope_state :=
                   Z.lor new_join_state (Z.land (ma_scope_state al) 0xf0) |> in
       let tbl := <[alias_guid al := al]> (mcm_alias_port_tbl mgrp) in
       Some (mcmr <| mr_scope_state := ma_scope_state al |>,
             put_mgrp g (mgrp <| mcm_alias_port_tbl := tbl |>) s)
     else
       let mcmr := mcmr <| mr_scope_state := Z.land (ma_scope_state al) 0xf0 |> in
       s ← remove_alias s g mgrp al;
       Some (mcmr, s));
  '(mgrp_deleted, s) ← count_leave s g port_join_state new_join_state;
  Some (mgrp_deleted : bool, mcmr, s <| sa_dirty := true |>).

(** A record of which only the join state is set. *)
Definition no_rec : ib_member_rec := MemberRec [] (Gid 0 0) 0 0 0 0 0 0 0 0 0xf false.

(** The loop of [osm_mgrp_delete_port] over the keys of the entries: the next one is
    taken before the entry is removed. *)
Fixpoint delete_port_loop (s : mc_subn) (g port : Z) (keys : list Z) : option mc_subn :=
  match keys with
  | [] => Some s
  | k :: keys =>
      al ← (mgrp ← mgrps s !! g; mcm_alias_port_tbl mgrp !! k);
      mp ← mcm_ports s !! p_base_mcm_port al;
      if mp_port mp =? port then
        '(deleted, _, s) ← osm_mgrp_remove_port s g k no_rec;
        if (deleted : bool) then Some s else delete_port_loop s g port keys
      else delete_port_loop s g port keys
  end.

Definition osm_mgrp_delete_port (s : mc_subn) (g port : Z) : option mc_subn :=
  mgrp ← mgrps s !! g;
  delete_port_loop s g port (qmap_items (mcm_alias_port_tbl mgrp)).*1.

Definition osm_mgrp_get_mcm_port (mgrp : osm_mgrp) (port_guid : Z) : option Z :=
  mcm_port_tbl mgrp !! port_guid.
Definition osm_mgrp_get_mcm_alias_guid (mgrp : osm_mgrp) (guid : Z) : option osm_mcm_alias_guid :=
  mcm_alias_port_tbl mgrp !! guid.

(** The [while] loop of [drop_mgr_remove_port] that takes a port out of its groups; a
    round drops the port from the group of the first entry of its list. *)
Fixpoint drop_port_groups (fuel : nat) (s : mc_subn) (port : Z) : option mc_subn :=
  match mcm_list_of s port, fuel with
  | [], _ => Some s
  | _, O => None
  | a :: _, S fuel =>
      mp ← mcm_ports s !! a;
      s ← osm_mgrp_delete_port s (mp_mgrp mp) port;
      drop_port_groups fuel s port
  end.
End Mgrp.
