(* ===== verification/MgrpOk.v ===== *)
(** * The members of the groups: what [Mgrp.v] keeps true

    [members_wf] says that the tables, the objects and the lists of the ports agree:
    every address in a table is an object, every object is in the table of its group
    and in the list of its port, and every port of a group has a member.  [tables_wf]
    says the same of the groups, the table by MGID and the boxes by MLID.  [full_wf]
    bounds the members with a full join state by the counter of the group. *)

From S2P Require Import Prelude IbTypes Mgrp.

Open Scope Z_scope.

(** ** Join states *)

Lemma full_bits x : is_full x = Z.testbit x 0 || Z.testbit x 3.
Proof.
  unfold is_full, bits_set. change full_join_state with 9.
  destruct (Z.eqb_spec (Z.land x 9) 0) as [E|E]; cbn [negb].
  - assert (∀ i, Z.testbit (Z.land x 9) i = false) as H by (intros i; rewrite E; apply Z.bits_0).
    pose proof (H 0) as H0. pose proof (H 3) as H3. rewrite Z.land_spec in H0, H3.
    rewrite andb_true_r in H0, H3. by rewrite H0, H3.
  - destruct (Z.testbit x 0) eqn:B0; [done|]. destruct (Z.testbit x 3) eqn:B3; [done|].
    exfalso. apply E. apply Z.bits_inj'. intros i Hi. rewrite Z.bits_0, Z.land_spec.
    destruct (decide (i = 0)) as [->|]; [by rewrite B0|].
    destruct (decide (i = 3)) as [->|]; [by rewrite B3|].
    destruct (decide (i = 1)) as [->|]; [by rewrite andb_false_r|].
    destruct (decide (i = 2)) as [->|]; [by rewrite andb_false_r|].
    rewrite (testbit_above 4 9 i) by lia. apply andb_false_r.
Qed.

Lemma full_state_bits x : is_full (state_bits x) = is_full x.
Proof. rewrite !full_bits. unfold state_bits. by rewrite !Z.land_spec, !andb_true_r. Qed.

Lemma full_lor x y : is_full (Z.lor x y) = is_full x || is_full y.
Proof.
  rewrite !full_bits, !Z.lor_spec.
  destruct (Z.testbit x 0), (Z.testbit y 0), (Z.testbit x 3), (Z.testbit y 3); done.
Qed.

Lemma full_scope x : is_full (u8 (Z.shiftl x 4)) = false.
Proof.
  rewrite full_bits. unfold u8.
  rewrite <- Z.land_ones, !Z.land_spec by lia. rewrite !Z.shiftl_spec_low by lia. done.
Qed.

Lemma full_scope_bits x : is_full (Z.land x 0xf0) = false.
Proof. rewrite full_bits, !Z.land_spec. by rewrite !andb_false_r. Qed.

Lemma full_leave x y : is_full (leave_state x y) = true → is_full x = true.
Proof.
  unfold leave_state. rewrite !full_bits, !Z.land_spec.
  destruct (Z.testbit x 0), (Z.testbit x 3); done.
Qed.

(** ** Counting the full members *)

Definition ma_full (al : osm_mcm_alias_guid) : bool := is_full (ma_scope_state al).

Definition fulls (tbl : gmap Z osm_mcm_alias_guid) : Z :=
  Z.of_nat (size (filter (λ e, ma_full e.2 = true) tbl)).

Lemma full_join old join_state :
  ma_full (join_alias old join_state) = ma_full old || is_full join_state.
Proof.
  unfold ma_full, join_alias, ib_member_get_scope_state, ib_member_set_scope_state.
  cbn [ma_scope_state set_field]. rewrite !full_lor, full_scope, full_state_bits. done.
Qed.

Lemma fulls_nonneg tbl : 0 ≤ fulls tbl.
Proof. unfold fulls. lia. Qed.

Lemma fulls_empty : fulls ∅ = 0.
Proof. unfold fulls. by rewrite map_filter_empty, map_size_empty. Qed.

Lemma fulls_insert tbl k al :
  tbl !! k = None → fulls (<[k:=al]> tbl) = fulls tbl + Z.b2z (ma_full al).
Proof.
  intros Hk. unfold fulls. destruct (ma_full al) eqn:E.
  - rewrite map_filter_insert_True by done. rewrite map_size_insert_None; [simpl; lia|].
    rewrite map_lookup_filter, Hk. done.
  - rewrite map_filter_insert_False by (simpl; congruence). rewrite delete_id by done. simpl. lia.
Qed.

Lemma fulls_delete tbl k al :
  tbl !! k = Some al → fulls (delete k tbl) = fulls tbl - Z.b2z (ma_full al).
Proof.
  intros Hk. rewrite <- (insert_delete_id tbl k al Hk) at 2.
  rewrite fulls_insert by apply lookup_delete_eq. lia.
Qed.

Lemma fulls_update tbl k al al' :
  tbl !! k = Some al →
  fulls (<[k:=al']> tbl) = fulls tbl - Z.b2z (ma_full al) + Z.b2z (ma_full al').
Proof.
  intros Hk. rewrite <- insert_delete_eq, fulls_insert by apply lookup_delete_eq.
  rewrite (fulls_delete _ _ _ Hk). lia.
Qed.

Lemma fulls_zero tbl k al : fulls tbl = 0 → tbl !! k = Some al → ma_full al = false.
Proof.
  intros H0 Hk. pose proof (fulls_delete _ _ _ Hk) as H. pose proof (fulls_nonneg (delete k tbl)).
  destruct (ma_full al); [simpl in H; lia|done].
Qed.

Definition full_wf (m : osm_mgrp) : Prop :=
  fulls (mcm_alias_port_tbl m) ≤ full_members m < 2 ^ 32.

(** ** Tables, objects and lists *)

Definition list_of (L : gmap Z (list Z)) (p : Z) : list Z := default [] (L !! p).

Record members_wf (G : gmap Z osm_mgrp) (P : gmap Z osm_mcm_port) (L : gmap Z (list Z))
    (next : Z) : Prop := {
  wf_next_g : ∀ g m, G !! g = Some m → g < next;
  wf_next_p : ∀ a mp, P !! a = Some mp → a < next;
  wf_obj : ∀ a mp, P !! a = Some mp →
    ∃ m, G !! mp_mgrp mp = Some m ∧ mcm_port_tbl m !! mp_port mp = Some a;
  wf_port : ∀ g m p a, G !! g = Some m → mcm_port_tbl m !! p = Some a →
    P !! a = Some (McmPort p g);
  wf_alias : ∀ g m k al, G !! g = Some m → mcm_alias_port_tbl m !! k = Some al →
    alias_guid al = k ∧ ∃ p, mcm_port_tbl m !! p = Some (p_base_mcm_port al);
  wf_used : ∀ g m p a, G !! g = Some m → mcm_port_tbl m !! p = Some a →
    ∃ k al, mcm_alias_port_tbl m !! k = Some al ∧ p_base_mcm_port al = a;
  wf_list_nodup : ∀ p, NoDup (list_of L p);
  wf_list : ∀ p a, a ∈ list_of L p ↔ ∃ g, P !! a = Some (McmPort p g)
}.

Lemma list_of_insert L p l q :
  list_of (<[p:=l]> L) q = if decide (q = p) then l else list_of L q.
Proof.
  unfold list_of. destruct (decide (q = p)) as [->|Hne];
    [by rewrite lookup_insert_eq|by rewrite lookup_insert_ne].
Qed.

(** Addresses that were never used are free to skip. *)
Lemma members_wf_next G P L n : members_wf G P L n → members_wf G P L (n + 1).
Proof.
  intros W. destruct W. constructor; try done.
  - intros g m H. pose proof (wf_next_g0 _ _ H). lia.
  - intros a mp H. pose proof (wf_next_p0 _ _ H). lia.
Qed.

(** Two ports of a group have different objects. *)
Lemma wf_port_inj G P L n g m p q a :
  members_wf G P L n → G !! g = Some m → mcm_port_tbl m !! p = Some a →
  mcm_port_tbl m !! q = Some a → p = q.
Proof.
  intros W Hg Hp Hq. pose proof (wf_port _ _ _ _ W _ _ _ _ Hg Hp) as H1.
  pose proof (wf_port _ _ _ _ W _ _ _ _ Hg Hq) as H2. congruence.
Qed.

(** A change of the members of one group that leaves its ports. *)
Lemma members_set_aliases G P L n g m tbl m' :
  members_wf G P L n → G !! g = Some m →
  mcm_port_tbl m' = mcm_port_tbl m → mcm_alias_port_tbl m' = tbl →
  (∀ k al, tbl !! k = Some al → alias_guid al = k ∧
     ∃ p, mcm_port_tbl m !! p = Some (p_base_mcm_port al)) →
  (∀ p a, mcm_port_tbl m !! p = Some a → ∃ k al, tbl !! k = Some al ∧ p_base_mcm_port al = a) →
  members_wf (<[g:=m']> G) P L n.
Proof.
  intros W Hg Ep Et Ha Hu. constructor.
  - intros g' m1. rewrite lookup_insert_Some. intros [[<- <-]|[_ H]];
      [apply (wf_next_g _ _ _ _ W _ _ Hg)|apply (wf_next_g _ _ _ _ W _ _ H)].
  - apply (wf_next_p _ _ _ _ W).
  - intros a mp Hmp. destruct (wf_obj _ _ _ _ W _ _ Hmp) as (m1 & H1 & H2).
    destruct (decide (mp_mgrp mp = g)) as [E|E].
    + exists m'. rewrite E, lookup_insert_eq. split; [done|]. rewrite Ep. congruence.
    + exists m1. by rewrite lookup_insert_ne.
  - intros g' m1 p a. rewrite lookup_insert_Some. intros [[<- <-]|[_ H]].
    + rewrite Ep. intros Hp. apply (wf_port _ _ _ _ W _ _ _ _ Hg Hp).
    + intros Hp. apply (wf_port _ _ _ _ W _ _ _ _ H Hp).
  - intros g' m1 k al. rewrite lookup_insert_Some. intros [[<- <-]|[_ H]].
    + rewrite Ep, Et. apply Ha.
    + intros Hk. apply (wf_alias _ _ _ _ W _ _ _ _ H Hk).
  - intros g' m1 p a. rewrite lookup_insert_Some. intros [[<- <-]|[_ H]].
    + rewrite Ep, Et. apply Hu.
    + intros Hk. apply (wf_used _ _ _ _ W _ _ _ _ H Hk).
  - apply (wf_list_nodup _ _ _ _ W).
  - apply (wf_list _ _ _ _ W).
Qed.

(** A member added to a port of the group, or changed in place. *)
Lemma members_insert_alias G P L n g m k al m' :
  members_wf G P L n → G !! g = Some m → alias_guid al = k →
  (∃ p, mcm_port_tbl m !! p = Some (p_base_mcm_port al)) →
  (∀ old, mcm_alias_port_tbl m !! k = Some old → p_base_mcm_port al = p_base_mcm_port old) →
  mcm_port_tbl m' = mcm_port_tbl m →
  mcm_alias_port_tbl m' = <[k := al]> (mcm_alias_port_tbl m) →
  members_wf (<[g:=m']> G) P L n.
Proof.
  intros W Hg Hk Hp Hold Ep Et. eapply members_set_aliases; eauto.
  - intros k' al'. rewrite lookup_insert_Some. intros [[<- <-]|[_ H]]; [done|].
    by eapply wf_alias.
  - intros p a Ha. destruct (wf_used _ _ _ _ W _ _ _ _ Hg Ha) as (k' & al' & H1 & H2).
    destruct (decide (k' = k)) as [->|Hne].
    + exists k, al. rewrite lookup_insert_eq. split; [done|]. rewrite (Hold _ H1). done.
    + exists k', al'. by rewrite lookup_insert_ne.
Qed.

(** A member taken out of a port that keeps another. *)
Lemma members_delete_alias G P L n g m k al m' :
  members_wf G P L n → G !! g = Some m → mcm_alias_port_tbl m !! k = Some al →
  (∃ k' al', delete k (mcm_alias_port_tbl m) !! k' = Some al' ∧
     p_base_mcm_port al' = p_base_mcm_port al) →
  mcm_port_tbl m' = mcm_port_tbl m →
  mcm_alias_port_tbl m' = delete k (mcm_alias_port_tbl m) →
  members_wf (<[g:=m']> G) P L n.
Proof.
  intros W Hg Hk (k1 & al1 & H1 & E1) Ep Et. eapply members_set_aliases; eauto.
  - intros k' al'. rewrite lookup_delete_Some. intros [_ H]. by eapply wf_alias.
  - intros p a Ha. destruct (wf_used _ _ _ _ W _ _ _ _ Hg Ha) as (k' & al' & H2 & H3).
    destruct (decide (k' = k)) as [->|Hne].
    + exists k1, al1. split; [done|]. congruence.
    + exists k', al'. by rewrite lookup_delete_ne.
Qed.

(** A port that comes with its first member. *)
Lemma members_add_port G P L n g m p k al m' :
  members_wf G P L n → G !! g = Some m →
  mcm_port_tbl m !! p = None → mcm_alias_port_tbl m !! k = None →
  alias_guid al = k → p_base_mcm_port al = n →
  mcm_port_tbl m' = <[p := n]> (mcm_port_tbl m) →
  mcm_alias_port_tbl m' = <[k := al]> (mcm_alias_port_tbl m) →
  members_wf (<[g:=m']> G) (<[n := McmPort p g]> P) (<[p := list_of L p ++ [n]]> L) (n + 1).
Proof.
  intros W Hg Hp Hk Ek Eb Ep Et.
  assert (Hn : P !! n = None).
  { destruct (P !! n) as [mp|] eqn:E; [|done]. pose proof (wf_next_p _ _ _ _ W _ _ E). lia. }
  assert (Hold : ∀ g' m1 q a, G !! g' = Some m1 → mcm_port_tbl m1 !! q = Some a → a ≠ n).
  { intros g' m1 q a H1 H2 ->. pose proof (wf_port _ _ _ _ W _ _ _ _ H1 H2). congruence. }
  constructor.
  - intros g' m1. rewrite lookup_insert_Some. intros [[<- <-]|[_ H]].
    + pose proof (wf_next_g _ _ _ _ W _ _ Hg). lia.
    + pose proof (wf_next_g _ _ _ _ W _ _ H). lia.
  - intros a mp. rewrite lookup_insert_Some. intros [[<- <-]|[_ H]]; [lia|].
    pose proof (wf_next_p _ _ _ _ W _ _ H). lia.
  - intros a mp. rewrite lookup_insert_Some. intros [[<- <-]|[Hne H]].
    + exists m'. simpl. by rewrite lookup_insert_eq, Ep, lookup_insert_eq.
    + destruct (wf_obj _ _ _ _ W _ _ H) as (m1 & H1 & H2).
      destruct (decide (mp_mgrp mp = g)) as [E|E].
      * exists m'. rewrite E, lookup_insert_eq, Ep. split; [done|].
        assert (m1 = m) as -> by congruence. rewrite lookup_insert_ne by congruence. done.
      * exists m1. by rewrite lookup_insert_ne.
  - intros g' m1 q a. rewrite lookup_insert_Some. intros [[<- <-]|[Hne H]].
    + rewrite Ep, lookup_insert_Some. intros [[<- <-]|[_ Hq]]; [apply lookup_insert_eq|].
      rewrite lookup_insert_ne by (intros <-; eapply Hold; eauto). by eapply wf_port.
    + intros Hq. rewrite lookup_insert_ne by (intros <-; eapply Hold; eauto). by eapply wf_port.
  - intros g' m1 k' al'. rewrite lookup_insert_Some. intros [[<- <-]|[_ H]]; [|by eapply wf_alias].
    rewrite Ep, Et, lookup_insert_Some. intros [[<- <-]|[_ Hk']].
    + split; [done|]. exists p. by rewrite lookup_insert_eq, Eb.
    + destruct (wf_alias _ _ _ _ W _ _ _ _ Hg Hk') as (H1 & q & H2). split; [done|].
      exists q. rewrite lookup_insert_ne by congruence. done.
  - intros g' m1 q a. rewrite lookup_insert_Some. intros [[<- <-]|[_ H]]; [|by eapply wf_used].
    rewrite Ep, Et, lookup_insert_Some. intros [[<- <-]|[_ Hq]].
    + exists k, al. by rewrite lookup_insert_eq.
    + destruct (wf_used _ _ _ _ W _ _ _ _ Hg Hq) as (k' & al' & H1 & H2).
      exists k', al'. rewrite lookup_insert_ne by congruence. done.
  - intros q. rewrite list_of_insert. destruct (decide (q = p)) as [->|]; [|apply W].
    apply NoDup_app. split_and!; [apply W| |apply NoDup_singleton].
    intros x Hx ->%list_elem_of_singleton. apply (wf_list _ _ _ _ W) in Hx as [g' Hx]. congruence.
  - intros q a. rewrite list_of_insert. destruct (decide (q = p)) as [->|Hq].
    + rewrite elem_of_app, list_elem_of_singleton, (wf_list _ _ _ _ W). split.
      * intros [[g' H]| ->]; [|exists g; apply lookup_insert_eq].
        exists g'. rewrite lookup_insert_ne by congruence. done.
      * intros [g' H]. apply lookup_insert_Some in H as [[<- _]|[_ H]]; [by right|left; by exists g'].
    + rewrite (wf_list _ _ _ _ W). split; intros [g' H]; exists g'.
      * rewrite lookup_insert_ne by congruence. done.
      * apply lookup_insert_Some in H as [[<- [= -> ->]]|[_ H]]; done.
Qed.

(** A port that goes with its last member. *)
Lemma members_remove_port G P L n g m p k al m' :
  members_wf G P L n → G !! g = Some m →
  mcm_alias_port_tbl m !! k = Some al → mcm_port_tbl m !! p = Some (p_base_mcm_port al) →
  (∀ k' al', delete k (mcm_alias_port_tbl m) !! k' = Some al' →
     p_base_mcm_port al' ≠ p_base_mcm_port al) →
  mcm_port_tbl m' = delete p (mcm_port_tbl m) →
  mcm_alias_port_tbl m' = delete k (mcm_alias_port_tbl m) →
  members_wf (<[g:=m']> G) (delete (p_base_mcm_port al) P)
    (<[p := filter (.≠ p_base_mcm_port al) (list_of L p)]> L) n.
Proof.
  intros W Hg Hk Hp Hlast Ep Et. set (b := p_base_mcm_port al) in *.
  pose proof (wf_port _ _ _ _ W _ _ _ _ Hg Hp) as Hb.
  constructor.
  - intros g' m1. rewrite lookup_insert_Some. intros [[<- <-]|[_ H]].
    + apply (wf_next_g _ _ _ _ W _ _ Hg).
    + apply (wf_next_g _ _ _ _ W _ _ H).
  - intros a mp. rewrite lookup_delete_Some. intros [_ H]. by eapply wf_next_p.
  - intros a mp. rewrite lookup_delete_Some. intros [Hne H].
    destruct (wf_obj _ _ _ _ W _ _ H) as (m1 & H1 & H2).
    destruct (decide (mp_mgrp mp = g)) as [E|E].
    + exists m'. rewrite E, lookup_insert_eq, Ep. split; [done|].
      assert (m1 = m) as -> by congruence. rewrite lookup_delete_ne; [done|congruence].
    + exists m1. by rewrite lookup_insert_ne.
  - intros g' m1 q a. rewrite lookup_insert_Some. intros [[<- <-]|[Hne H]].
    + rewrite Ep, lookup_delete_Some. intros [Hqp Hq].
      pose proof (wf_port _ _ _ _ W _ _ _ _ Hg Hq) as H1.
      rewrite lookup_delete_ne; [done|]. congruence.
    + intros Hq. pose proof (wf_port _ _ _ _ W _ _ _ _ H Hq) as H1.
      rewrite lookup_delete_ne; [done|]. congruence.
  - intros g' m1 k' al'. rewrite lookup_insert_Some. intros [[<- <-]|[_ H]]; [|by eapply wf_alias].
    rewrite Ep, Et. intros Hk'. pose proof (Hlast _ _ Hk') as Hne.
    apply lookup_delete_Some in Hk' as [_ Hk'].
    destruct (wf_alias _ _ _ _ W _ _ _ _ Hg Hk') as (H1 & q & H2). split; [done|].
    exists q. rewrite lookup_delete_ne; [done|congruence].
  - intros g' m1 q a. rewrite lookup_insert_Some. intros [[<- <-]|[_ H]]; [|by eapply wf_used].
    rewrite Ep, Et, lookup_delete_Some. intros [Hqp Hq].
    destruct (wf_used _ _ _ _ W _ _ _ _ Hg Hq) as (k' & al' & H1 & H2).
    exists k', al'. split; [|done]. rewrite lookup_delete_ne; [done|]. intros <-.
    rewrite Hk in H1. injection H1 as <-. apply Hqp.
    apply (wf_port_inj _ _ _ _ _ _ _ _ b W Hg Hp). by rewrite Hq, <- H2.
  - intros q. rewrite list_of_insert. case_decide; [apply NoDup_filter|]; apply W.
  - intros q a. rewrite list_of_insert. destruct (decide (q = p)) as [->|Hq].
    + rewrite list_elem_of_filter, (wf_list _ _ _ _ W). split.
      * intros [Hne [g' H]]. exists g'. by rewrite lookup_delete_ne.
      * intros [g' H]. apply lookup_delete_Some in H as [Hne H]. split; [done|by exists g'].
    + rewrite (wf_list _ _ _ _ W). split; intros [g' H]; exists g'.
      * rewrite lookup_delete_ne; [done|congruence].
      * by apply lookup_delete_Some in H as [_ H].
Qed.

(** A group that loses all its members, whether it stays or goes. *)
Lemma members_drop_group G P L n g m G' P' L' :
  members_wf G P L n → G !! g = Some m →
  (∀ g' m', g' ≠ g → G' !! g' = Some m' ↔ G !! g' = Some m') →
  (∀ m', G' !! g = Some m' → mcm_port_tbl m' = ∅ ∧ mcm_alias_port_tbl m' = ∅) →
  (∀ a mp, P' !! a = Some mp ↔ P !! a = Some mp ∧ mp_mgrp mp ≠ g) →
  (∀ q, NoDup (list_of L' q)) →
  (∀ q a, a ∈ list_of L' q ↔ ∃ g', P' !! a = Some (McmPort q g')) →
  members_wf G' P' L' n.
Proof.
  intros W Hg HG HGg HP HLn HL.
  assert (Hother : ∀ g' m1 x y, G' !! g' = Some m1 →
    mcm_port_tbl m1 !! x = Some y → g' ≠ g).
  { intros g' m1 x y H Hx ->. destruct (HGg _ H) as [E _]. rewrite E in Hx. done. }
  assert (Hothera : ∀ g' m1 x y, G' !! g' = Some m1 →
    mcm_alias_port_tbl m1 !! x = Some y → g' ≠ g).
  { intros g' m1 x y H Hx ->. destruct (HGg _ H) as [_ E]. rewrite E in Hx. done. }
  constructor; [..|done|done].
  - intros g' m1 H. destruct (decide (g' = g)) as [->|Hne].
    + apply (wf_next_g _ _ _ _ W _ _ Hg).
    + apply HG in H; [|done]. apply (wf_next_g _ _ _ _ W _ _ H).
  - intros a mp H. apply HP in H as [H _]. by eapply wf_next_p.
  - intros a mp H. apply HP in H as [H Hne].
    destruct (wf_obj _ _ _ _ W _ _ H) as (m1 & H1 & H2). exists m1. split; [|done]. by apply HG.
  - intros g' m1 q a H Hq. pose proof (Hother _ _ _ _ H Hq) as Hne. apply HG in H; [|done].
    apply HP. split; [by eapply wf_port|done].
  - intros g' m1 k al H Hk. pose proof (Hothera _ _ _ _ H Hk) as Hne. apply HG in H; [|done].
    by eapply wf_alias.
  - intros g' m1 q a H Hq. pose proof (Hother _ _ _ _ H Hq) as Hne. apply HG in H; [|done].
    by eapply wf_used.
Qed.

(** A group that comes without members. *)
Lemma members_new_group G P L n m :
  members_wf G P L n → mcm_port_tbl m = ∅ → mcm_alias_port_tbl m = ∅ →
  members_wf (<[n := m]> G) P L (n + 1).
Proof.
  intros W Ep Et.
  assert (Hn : ∀ m1, G !! n = Some m1 → False).
  { intros m1 H. pose proof (wf_next_g _ _ _ _ W _ _ H). lia. }
  constructor.
  - intros g' m1. rewrite lookup_insert_Some. intros [[<- <-]|[_ H]]; [lia|].
    pose proof (wf_next_g _ _ _ _ W _ _ H). lia.
  - intros a mp H. pose proof (wf_next_p _ _ _ _ W _ _ H). lia.
  - intros a mp H. destruct (wf_obj _ _ _ _ W _ _ H) as (m1 & H1 & H2).
    exists m1. rewrite lookup_insert_ne; [done|]. intros E. rewrite <- E in H1. eauto.
  - intros g' m1 q a. rewrite lookup_insert_Some. intros [[<- <-]|[_ H]]; [by rewrite Ep|].
    by eapply wf_port.
  - intros g' m1 k al. rewrite lookup_insert_Some. intros [[<- <-]|[_ H]]; [by rewrite Et|].
    by eapply wf_alias.
  - intros g' m1 q a. rewrite lookup_insert_Some. intros [[<- <-]|[_ H]]; [by rewrite Ep|].
    by eapply wf_used.
  - apply W.
  - apply W.
Qed.

(** ** Groups, MGIDs and boxes *)

(** The MLID and MGID of a group never change. *)
Definition mgrp_id (m : osm_mgrp) : Z * list Z := (mg_mlid m, mr_mgid (mcmember_rec m)).

Section Tables.
Context {BO : ByteOrder}.

(** The index of the box of a group. *)
Definition box_index (id : Z * list Z) : option Z := mbox_index (cl_ntoh16 id.1).

Record tables_wf (I : gmap Z (Z * list Z)) (T : gmap (list Z) Z) (B : gmap Z mgrp_box) : Prop := {
  wf_mgid : ∀ x g, T !! x = Some g ↔ ∃ id, I !! g = Some id ∧ id.2 = x;
  wf_box_of : ∀ g id, I !! g = Some id →
    ∃ i b, box_index id = Some i ∧ B !! i = Some b ∧ g ∈ mb_mgrp_list b;
  wf_box : ∀ i b, B !! i = Some b →
    mbox_index (mb_mlid b) = Some i ∧ mb_mgrp_list b ≠ [] ∧ NoDup (mb_mgrp_list b) ∧
    ∀ g, g ∈ mb_mgrp_list b → ∃ id, I !! g = Some id ∧ box_index id = Some i
}.

Lemma mbox_index_Some x i :
  mbox_index x = Some i ↔ IB_LID_MCAST_START_HO ≤ x ≤ IB_LID_MCAST_END_HO ∧ i = x - IB_LID_MCAST_START_HO.
Proof.
  unfold mbox_index. destruct ((IB_LID_MCAST_START_HO <=? x) && (x <=? IB_LID_MCAST_END_HO)) eqn:E.
  - apply andb_true_iff in E. split; [intros [= <-]|intros [_ ->]; done]. split; lia.
  - apply andb_false_iff in E. split; [done|]. intros [H _]. lia.
Qed.

(** A new group hung in the box of its MLID. *)
Lemma tables_new_group I T B g mlid mgid i :
  tables_wf I T B → I !! g = None → T !! mgid = None →
  mbox_index (cl_ntoh16 mlid) = Some i →
  let b := default (mgrp_box_new (cl_ntoh16 mlid)) (B !! i) in
  mbox_index (mb_mlid b) = Some i ∧
  tables_wf (<[g := (mlid, mgid)]> I) (<[mgid := g]> T)
    (<[i := b <| mb_mgrp_list := mb_mgrp_list b ++ [g] |>]> B).
Proof.
  intros W Hg Hmgid Hi b.
  assert (Hb : mbox_index (mb_mlid b) = Some i ∧ NoDup (mb_mgrp_list b) ∧
    ∀ g', g' ∈ mb_mgrp_list b → ∃ id, I !! g' = Some id ∧ box_index id = Some i).
  { subst b. destruct (B !! i) as [b|] eqn:E; simpl.
    - destruct (wf_box _ _ _ W _ _ E) as (H1 & _ & H2 & H3). done.
    - split_and!; [done|constructor|]. intros g' H. by apply not_elem_of_nil in H. }
  destruct Hb as (Hb1 & Hb2 & Hb3). split; [done|]. constructor.
  - intros x g'. rewrite lookup_insert_Some. split.
    + intros [[<- <-]|[Hne H]].
      * exists (mlid, mgid). by rewrite lookup_insert_eq.
      * apply (wf_mgid _ _ _ W) in H as (id & H1 & H2). exists id. split; [|done].
        rewrite lookup_insert_ne; congruence.
    + intros (id & H & <-). apply lookup_insert_Some in H as [[<- <-]|[Hne H]]; [by left|].
      right. assert (T !! id.2 = Some g') as HT by (apply (wf_mgid _ _ _ W); by exists id).
      split; [congruence|done].
  - intros g' id. rewrite lookup_insert_Some. intros [[<- <-]|[Hne H]].
    + exists i, (b <| mb_mgrp_list := mb_mgrp_list b ++ [g] |>). rewrite lookup_insert_eq.
      split_and!; [done|done|]. cbn. apply elem_of_app. right. by apply list_elem_of_singleton.
    + destruct (wf_box_of _ _ _ W _ _ H) as (j & b' & H1 & H2 & H3).
      destruct (decide (j = i)) as [->|Hj].
      * exists i, (b <| mb_mgrp_list := mb_mgrp_list b ++ [g] |>). rewrite lookup_insert_eq.
        split_and!; [done|done|]. cbn. apply elem_of_app. left. subst b. by rewrite H2.
      * exists j, b'. by rewrite lookup_insert_ne.
  - intros j b'. rewrite lookup_insert_Some. intros [[<- <-]|[Hne H]]; cbn.
    + split_and!; [done|by destruct (mb_mgrp_list b)| |].
      * apply NoDup_app. split_and!; [done| |apply NoDup_singleton].
        intros x Hx ->%list_elem_of_singleton. destruct (Hb3 _ Hx) as (id & H1 & _). congruence.
      * intros x [Hx| ->%list_elem_of_singleton]%elem_of_app.
        { destruct (Hb3 _ Hx) as (id & H1 & H2). exists id. rewrite lookup_insert_ne; [done|congruence]. }
        exists (mlid, mgid). by rewrite lookup_insert_eq.
    + destruct (wf_box _ _ _ W _ _ H) as (H1 & H2 & H3 & H4). split_and!; try done.
      intros x Hx. destruct (H4 _ Hx) as (id & H5 & H6). exists id.
      rewrite lookup_insert_ne; [done|congruence].
Qed.

(** A group taken out of its box, and the box with its last group. *)
Lemma tables_delete_group I T B g mlid mgid i b :
  tables_wf I T B → I !! g = Some (mlid, mgid) → mbox_index (cl_ntoh16 mlid) = Some i →
  B !! i = Some b →
  let b' := b <| mb_mgrp_list := filter (.≠ g) (mb_mgrp_list b) |> in
  tables_wf (delete g I) (delete mgid T)
    (if bool_decide (mb_mgrp_list b' = []) then delete i B else <[i := b']> B).
Proof.
  intros W Hg Hi Hb b'. destruct (wf_box _ _ _ W _ _ Hb) as (Hb1 & Hb2 & Hb3 & Hb4).
  assert (Hlook : ∀ j c, (if bool_decide (mb_mgrp_list b' = []) then delete i B else <[i := b']> B)
    !! j = Some c ↔ (j = i ∧ c = b' ∧ mb_mgrp_list b' ≠ []) ∨ (j ≠ i ∧ B !! j = Some c)).
  { intros j c. case_bool_decide as E.
    - rewrite lookup_delete_Some. naive_solver.
    - rewrite lookup_insert_Some. naive_solver. }
  constructor.
  - intros x g'. rewrite lookup_delete_Some, (wf_mgid _ _ _ W). split.
    + intros [Hne (id & H1 & H2)]. exists id. split; [|done]. rewrite lookup_delete_ne; [done|].
      intros <-. rewrite Hg in H1. by injection H1 as <-.
    + intros (id & H1 & H2). apply lookup_delete_Some in H1 as [Hne H1].
      split; [|by exists id]. intros <-.
      assert (T !! id.2 = Some g') by (apply (wf_mgid _ _ _ W); by exists id).
      assert (T !! mgid = Some g) by (apply (wf_mgid _ _ _ W); by exists (mlid, mgid)). congruence.
  - intros g' id H. apply lookup_delete_Some in H as [Hne H].
    destruct (wf_box_of _ _ _ W _ _ H) as (j & c & H1 & H2 & H3).
    destruct (decide (j = i)) as [->|Hj].
    + assert (Hin : g' ∈ mb_mgrp_list b').
      { cbn. apply list_elem_of_filter. split; [congruence|]. congruence. }
      exists i, b'. split_and!; [done| |done]. apply Hlook. left. split_and!; [done|done|].
      intros E. rewrite E in Hin. by apply not_elem_of_nil in Hin.
    + exists j, c. split_and!; [done| |done]. apply Hlook. by right.
  - intros j c [(-> & -> & Hne)|[Hne H]]%Hlook; cbn.
    + split_and!; [done|done|by apply NoDup_filter|].
      intros x [Hx1 Hx2]%list_elem_of_filter. destruct (Hb4 _ Hx2) as (id & H1 & H2).
      exists id. rewrite lookup_delete_ne; done.
    + destruct (wf_box _ _ _ W _ _ H) as (H1 & H2 & H3 & H4). split_and!; try done.
      intros x Hx. destruct (H4 _ Hx) as (id & H5 & H6). exists id. split; [|done].
      rewrite lookup_delete_ne; [done|]. intros <-.
      rewrite Hg in H5. injection H5 as <-. unfold box_index in H6. simpl in H6. congruence.
Qed.
End Tables.
