(* ===== verification/MgrpOps.v ===== *)
(** * The operations on groups: what each does, and that [Mgrp.v] stays sound

    [mc_wf] puts the three invariants of [MgrpOk.v] together for a state.  Every
    operation on a state that satisfies it has a result, that is, reads no object that
    was freed, and gives a state that satisfies it; the lemmas also say what becomes
    of the groups. *)

From S2P Require Import Prelude IbTypes Mgrp MgrpOk.

Open Scope Z_scope.

Section Ops.
Context {BO : ByteOrder}.
Implicit Types s : mc_subn.
Implicit Types m : osm_mgrp.

Record mc_wf s : Prop := {
  mc_members : members_wf (mgrps s) (mcm_ports s) (mcm_list s) (next_addr s);
  mc_tables : tables_wf (mgrp_id <$> mgrps s) (mgrp_mgid_tbl s) (mboxes s);
  mc_full : ∀ g m, mgrps s !! g = Some m → full_wf m
}.

(** Every group has a counter of full members that is not zero, or is one that stays
    without. *)
Definition settled s : Prop :=
  ∀ g m, mgrps s !! g = Some m → well_known m = true ∨ full_members m ≠ 0.

Lemma mgrp_id_insert (G : gmap Z osm_mgrp) g m m' :
  G !! g = Some m → mgrp_id m' = mgrp_id m → mgrp_id <$> <[g := m']> G = mgrp_id <$> G.
Proof.
  intros Hg E. rewrite fmap_insert, E. apply insert_id. by rewrite lookup_fmap, Hg.
Qed.

Lemma full_wf_insert (G : gmap Z osm_mgrp) g m' :
  (∀ g m, G !! g = Some m → full_wf m) → full_wf m' →
  ∀ g0 m, <[g := m']> G !! g0 = Some m → full_wf m.
Proof. intros H Hm g0 m. rewrite lookup_insert_Some. intros [[_ <-]|[_ H1]]; eauto. Qed.

(** ** Emptying and dropping a group *)

(** What the loop over the ports of a group does to the objects and the lists. *)
Lemma cleanup_ports s g (l : list (Z * Z)) :
  NoDup l.*2 →
  (∀ p a, (p, a) ∈ l → mcm_ports s !! a = Some (McmPort p g)) →
  (∀ p a q, (p, a) ∈ l → a ∈ list_of (mcm_list s) q → q = p) →
  ∃ P L, foldl cleanup_port (Some s) l = Some (s <| mcm_list := L |> <| mcm_ports := P |>) ∧
    (∀ a mp, P !! a = Some mp ↔ mcm_ports s !! a = Some mp ∧ a ∉ l.*2) ∧
    (∀ q a, a ∈ list_of L q ↔ a ∈ list_of (mcm_list s) q ∧ a ∉ l.*2) ∧
    ((∀ q, NoDup (list_of (mcm_list s) q)) → ∀ q, NoDup (list_of L q)).
Proof.
  revert s. induction l as [|[p a] l IH]; intros s Hnd Hl Hq.
  { exists (mcm_ports s), (mcm_list s). split_and!; [by destruct s|..];
      intros; rewrite ?fmap_nil, ?elem_of_nil; naive_solver. }
  rewrite fmap_cons in Hnd. apply NoDup_cons in Hnd as [Ha Hnd]. simpl in Ha.
  set (s1 := s <| mcm_list := <[p := filter (.≠ a) (mcm_list_of s p)]> (mcm_list s) |>
               <| mcm_ports := delete a (mcm_ports s) |>).
  assert (Hs1 : cleanup_port (Some s) (p, a) = Some s1).
  { unfold cleanup_port. cbn [mbind option_bind snd].
    rewrite (Hl p a) by (by left). done. }
  assert (Hin : ∀ p' a', (p', a') ∈ l → a' ≠ a).
  { intros p' a' H ->. apply Ha. apply list_elem_of_fmap. by exists (p', a). }
  assert (Hlist : ∀ q x, x ∈ list_of (mcm_list s1) q ↔ x ∈ list_of (mcm_list s) q ∧ x ≠ a).
  { intros q x. cbn. rewrite list_of_insert. destruct (decide (q = p)) as [->|Hne].
    - rewrite list_elem_of_filter. change (mcm_list_of s p) with (list_of (mcm_list s) p). tauto.
    - split; [|tauto]. intros H. split; [done|]. intros ->. apply Hne. eapply Hq; [by left|done]. }
  destruct (IH s1) as (P & L & H1 & H2 & H3 & H4); [done|..].
  { intros p' a' H. cbn. rewrite lookup_delete_ne by (intros <-; by eapply Hin).
    apply Hl. by right. }
  { intros p' a' q H Hq'. apply Hlist in Hq' as [Hq' _]. eapply Hq; [by right|done]. }
  exists P, L. split_and!.
  - cbn [foldl]. rewrite Hs1. exact H1.
  - intros a' mp. rewrite H2, fmap_cons, not_elem_of_cons. cbn. rewrite lookup_delete_Some. naive_solver.
  - intros q x. rewrite H3, Hlist, fmap_cons, not_elem_of_cons. cbn. tauto.
  - intros Hnds. apply H4. intros q. cbn. rewrite list_of_insert.
    case_decide; [apply NoDup_filter|]; apply Hnds.
Qed.

Definition emptied m : osm_mgrp := m <| mcm_alias_port_tbl := ∅ |> <| mcm_port_tbl := ∅ |>.

Lemma emptied_full m : full_wf m → full_wf (emptied m).
Proof. unfold full_wf. cbn. rewrite fulls_empty. pose proof (fulls_nonneg (mcm_alias_port_tbl m)). lia. Qed.

Lemma mgrp_cleanup_keeps s g m :
  mgrps s !! g = Some m → full_members m ≠ 0 → osm_mgrp_cleanup s g = Some s.
Proof.
  intros Hg Hn. unfold osm_mgrp_cleanup. rewrite Hg. cbn [mbind option_bind].
  apply Z.eqb_neq in Hn. by rewrite Hn.
Qed.

(** The ports of a group that is emptied are out of every table and list. *)
Lemma cleanup_members s g m :
  mc_wf s → mgrps s !! g = Some m →
  ∃ P L, foldl cleanup_port (Some s) (qmap_items (mcm_port_tbl m))
      = Some (s <| mcm_list := L |> <| mcm_ports := P |>) ∧
    ∀ G', (∀ g' m', g' ≠ g → G' !! g' = Some m' ↔ mgrps s !! g' = Some m') →
      (∀ m', G' !! g = Some m' → mcm_port_tbl m' = ∅ ∧ mcm_alias_port_tbl m' = ∅) →
      members_wf G' P L (next_addr s).
Proof.
  intros [W _ _] Hg. set (l := qmap_items (mcm_port_tbl m)).
  assert (Hl : ∀ p a, (p, a) ∈ l ↔ mcm_port_tbl m !! p = Some a).
  { intros p a. apply elem_of_qmap_items. }
  assert (Hl2 : ∀ a, a ∈ l.*2 ↔ ∃ p, mcm_ports s !! a = Some (McmPort p g)).
  { intros a. rewrite list_elem_of_fmap. split.
    - intros ([p a'] & -> & H). apply Hl in H. exists p. by eapply wf_port.
    - intros [p H]. destruct (wf_obj _ _ _ _ W _ _ H) as (m1 & H1 & H2). simpl in *.
      exists (p, a). split; [done|]. apply Hl. congruence. }
  destruct (cleanup_ports s g l) as (P & L & H1 & H2 & H3 & H4).
  - apply (NoDup_fmap_2_strong snd); [|apply (NoDup_fmap_1 fst), qmap_items_NoDup].
    intros [p a] [q b] Hp Hq [= <-]. apply Hl in Hp, Hq.
    by rewrite (wf_port_inj _ _ _ _ _ _ _ _ _ W Hg Hp Hq).
  - intros p a H. apply Hl in H. by eapply wf_port.
  - intros p a q H Hq. apply Hl in H. pose proof (wf_port _ _ _ _ W _ _ _ _ Hg H) as H5.
    apply (wf_list _ _ _ _ W) in Hq as [g' Hq]. congruence.
  - exists P, L. split; [done|]. intros G' HG HGg.
    assert (Hout : ∀ a mp, mcm_ports s !! a = Some mp → a ∉ l.*2 ↔ mp_mgrp mp ≠ g).
    { intros a [p g'] H. rewrite Hl2. simpl. split.
      - intros Hno ->. apply Hno. by exists p.
      - intros Hne [q Hq]. congruence. }
    eapply members_drop_group; [exact W|exact Hg|exact HG|exact HGg| | |].
    + intros a mp. rewrite H2. split; intros [H5 H6]; (split; [done|]); by eapply (Hout _ _ H5).
    + apply H4. apply W.
    + intros q a. rewrite H3. rewrite (wf_list _ _ _ _ W). split.
      * intros [[g' H5] H6]. exists g'. by apply H2.
      * intros [g' H5]. apply H2 in H5 as [H5 H6]. split; [by exists g'|done].
Qed.

Lemma cleanup_ok s g m :
  mc_wf s → mgrps s !! g = Some m → full_members m = 0 →
  ∃ s', osm_mgrp_cleanup s g = Some s' ∧ mc_wf s' ∧ next_addr s' = next_addr s ∧
    uniq_count s' = uniq_count s ∧ mc_events s' = mc_events s ∧
    mgrps s' = (if well_known m then <[g := emptied m]> (mgrps s) else delete g (mgrps s)).
Proof.
  intros W Hg H0. pose proof (cleanup_members s g m W Hg) as (P & L & Hfold & Hmem).
  destruct W as [Wm Wt Wf].
  unfold osm_mgrp_cleanup. rewrite Hg. cbn [mbind option_bind]. rewrite H0. cbn [Z.eqb negb].
  rewrite Hfold. cbn [mbind option_bind].
  destruct (well_known m) eqn:Ewk.
  - eexists. split_and!; [reflexivity| |done..]. constructor; cbn.
    + apply Hmem.
      * intros g' m' Hne. by rewrite lookup_insert_ne.
      * intros m' H. rewrite lookup_insert_eq in H. by injection H as <-.
    + by rewrite (mgrp_id_insert _ g m).
    + apply full_wf_insert; [done|]. by apply emptied_full, (Wf g).
  - assert (Hid : (mgrp_id <$> mgrps s) !! g = Some (mgrp_id m)) by (by rewrite lookup_fmap, Hg).
    destruct (wf_box_of _ _ _ Wt _ _ Hid) as (i & b & Hi & Hb & _).
    unfold box_index in Hi. cbn in Hi.
    unfold osm_get_mbox_by_mlid. cbn [mbind option_bind]. rewrite Hi. cbn. rewrite Hb. cbn.
    eexists. split_and!; [reflexivity| |done..|].
    + constructor; cbn.
      * apply Hmem.
        -- intros g' m' Hne. rewrite lookup_delete_ne by done. by rewrite lookup_insert_ne.
        -- intros m' H. by rewrite lookup_delete_eq in H.
      * rewrite fmap_delete, (mgrp_id_insert _ g m) by done.
        by apply (tables_delete_group _ _ _ g (mg_mlid m) _ i b Wt).
      * intros g0 m0. rewrite lookup_delete_Some. intros [Hne H].
        rewrite lookup_insert_ne in H by done. by eapply Wf.
    + cbn. by rewrite delete_insert_eq.
Qed.

(** ** Making a group *)

(** The state with the new group hung in the box [i]. *)
Definition new_group_state s (mlid : Z) (mcmr : ib_member_rec) (i : Z) : mc_subn :=
  let b := default (mgrp_box_new (cl_ntoh16 mlid)) (mboxes s !! i) in
  McSubn (<[next_addr s := Mgrp mlid ∅ ∅ mcmr false 0]> (mgrps s)) (mcm_ports s)
    (next_addr s + 1) (<[mr_mgid mcmr := next_addr s]> (mgrp_mgid_tbl s))
    (<[i := b <| mb_mgrp_list := mb_mgrp_list b ++ [next_addr s] |>]> (mboxes s))
    (mcm_list s) true (uniq_count s) (mc_events s).

Lemma mc_wf_fresh s : mc_wf s → mgrps s !! next_addr s = None.
Proof.
  intros W. destruct (mgrps s !! next_addr s) as [m|] eqn:E; [|done].
  pose proof (wf_next_g _ _ _ _ (mc_members _ W) _ _ E). lia.
Qed.

Lemma mgrp_new_ok s mlid mcmr i :
  mc_wf s → mgrp_mgid_tbl s !! mr_mgid mcmr = None → mbox_index (cl_ntoh16 mlid) = Some i →
  osm_mgrp_new s mlid mcmr = Some (next_addr s, new_group_state s mlid mcmr i) ∧
  mc_wf (new_group_state s mlid mcmr i).
Proof.
  intros W Hmgid Hi. pose proof (mc_wf_fresh _ W) as Hg. destruct W as [Wm Wt Wf].
  destruct (tables_new_group _ _ _ (next_addr s) mlid (mr_mgid mcmr) i Wt) as [Hb Ht];
    [by rewrite lookup_fmap, Hg|done|done|].
  split.
  - unfold osm_mgrp_new, osm_get_mbox_by_mlid. cbn [mbind option_bind]. rewrite Hi.
    cbn [mbind option_bind]. cbn -[mbox_index]. rewrite Hb. rewrite Hmgid. done.
  - constructor; cbn.
    + by apply members_new_group.
    + rewrite fmap_insert. exact Ht.
    + apply full_wf_insert; [done|]. unfold full_wf. cbn. rewrite fulls_empty. lia.
Qed.

(** Two states with the same groups and members. *)
Definition same_groups s s' : Prop :=
  mgrps s' = mgrps s ∧ mcm_ports s' = mcm_ports s ∧ mgrp_mgid_tbl s' = mgrp_mgid_tbl s ∧
  mboxes s' = mboxes s ∧ mcm_list s' = mcm_list s.

Lemma cleanup_new s mlid mcmr i mcmr' :
  mc_wf s → mgrp_mgid_tbl s !! mr_mgid mcmr = None → mbox_index (cl_ntoh16 mlid) = Some i →
  mr_mgid mcmr' = mr_mgid mcmr →
  let s1 := put_mgrp (next_addr s) (Mgrp mlid ∅ ∅ mcmr' false 0) (new_group_state s mlid mcmr i) in
  ∃ s', osm_mgrp_cleanup s1 (next_addr s) = Some s' ∧ same_groups s s'.
Proof.
  intros W Hmgid Hi Emgid s1. pose proof (mc_wf_fresh _ W) as Hg.
  unfold osm_mgrp_cleanup. cbn [s1 mgrps put_mgrp set_field new_group_state].
  rewrite lookup_insert_eq. cbn [mbind option_bind full_members Z.eqb negb mcm_port_tbl].
  assert (qmap_items (∅ : gmap Z Z) = []) as -> by reflexivity.
  cbn [foldl mbind option_bind well_known mg_mlid]. unfold osm_get_mbox_by_mlid.
  cbn [mbind option_bind]. rewrite Hi. cbn -[filter]. rewrite lookup_insert_eq. cbn -[filter].
  eexists. split; [reflexivity|]. unfold same_groups. cbn -[filter].
  set (b := default (mgrp_box_new (cl_ntoh16 mlid)) (mboxes s !! i)).
  assert (Hl : filter (.≠ next_addr s) (mb_mgrp_list b ++ [next_addr s]) = mb_mgrp_list b).
  { rewrite filter_app, filter_cons_False, filter_nil, app_nil_r by (intros H; by apply H).
    apply filter_all. intros x Hx ->. subst b.
    destruct (mboxes s !! i) as [b|] eqn:Eb; [|by apply not_elem_of_nil in Hx]. simpl in Hx.
    destruct (wf_box _ _ _ (mc_tables _ W) _ _ Eb) as (_ & _ & _ & H).
    destruct (H _ Hx) as (id & H1 & _). rewrite lookup_fmap, Hg in H1. done. }
  rewrite Hl. split_and!; try done.
  - rewrite !insert_insert_eq. by apply delete_insert_id.
  - rewrite Emgid. by apply delete_insert_id.
  - subst b. destruct (mboxes s !! i) as [[x l]|] eqn:Eb; cbn.
    + destruct (wf_box _ _ _ (mc_tables _ W) _ _ Eb) as (_ & Hne & _). simpl in Hne.
      rewrite bool_decide_false by done. rewrite insert_insert_eq. by apply insert_id.
    + by apply delete_insert_id.
Qed.

(** ** A member joins *)

Lemma count_join_eq n prev join_state :
  0 ≤ n → n + 1 < 2 ^ 32 →
  count_join n prev join_state =
    (n + Z.b2z (is_full join_state && negb (is_full prev)),
     is_full join_state && negb (is_full prev) && (n =? 0)).
Proof.
  intros Hn Hlt. unfold count_join. destruct (is_full join_state && negb (is_full prev)); simpl.
  - rewrite u32_small by lia. f_equal. lia.
  - f_equal. lia.
Qed.

(** The member a join leaves in the table: the one that was there with the join state
    added, or a new one. *)
Definition joined m (a : Z) (mcmr : ib_member_rec) (proxy : bool) : osm_mcm_alias_guid :=
  match mcm_alias_port_tbl m !! interface_id (mr_port_gid mcmr) with
  | Some old => join_alias old (mr_scope_state mcmr)
  | None => osm_mcm_alias_guid_new a mcmr proxy
  end.

(** Whether a join makes the group's full members one more. *)
Definition newly_full m (mcmr : ib_member_rec) : bool :=
  is_full (mr_scope_state mcmr) &&
  negb (match mcm_alias_port_tbl m !! interface_id (mr_port_gid mcmr) with
        | Some old => ma_full old
        | None => false
        end).

(** The group after the join of a port whose entry is [a]. *)
Definition join_mgrp m (port a : Z) (mcmr : ib_member_rec) (proxy : bool) : osm_mgrp :=
  Mgrp (mg_mlid m) (<[port := a]> (mcm_port_tbl m))
    (<[interface_id (mr_port_gid mcmr) := joined m a mcmr proxy]> (mcm_alias_port_tbl m))
    (mcmember_rec m) (well_known m) (full_members m + Z.b2z (newly_full m mcmr)).

(** The member with the GID of the request, if there is one, is a member of the port. *)
Definition alias_at m (guid port : Z) : Prop :=
  ∀ old, mcm_alias_port_tbl m !! guid = Some old →
    mcm_port_tbl m !! port = Some (p_base_mcm_port old).

Definition join_events m (port : Z) (mcmr : ib_member_rec) : list mc_event :=
  (match mcm_port_tbl m !! port with None => [RerouteMlid (mg_mlid m)] | Some _ => [] end) ++
  (if newly_full m mcmr && (full_members m =? 0)
   then [Notice SM_MGID_CREATED_TRAP (mr_mgid (mcmember_rec m))] else []).

Lemma join_full m port a mcmr proxy :
  full_wf m → full_members m + 1 < 2 ^ 32 → full_wf (join_mgrp m port a mcmr proxy).
Proof.
  unfold full_wf, join_mgrp. cbn. intros H Hlt.
  assert (fulls (<[interface_id (mr_port_gid mcmr) := joined m a mcmr proxy]> (mcm_alias_port_tbl m))
    = fulls (mcm_alias_port_tbl m) + Z.b2z (newly_full m mcmr)) as ->.
  { unfold joined, newly_full.
    destruct (mcm_alias_port_tbl m !! interface_id (mr_port_gid mcmr)) as [old|] eqn:E.
    - rewrite (fulls_update _ _ old) by done. rewrite full_join.
      destruct (ma_full old), (is_full (mr_scope_state mcmr)); simpl; lia.
    - rewrite fulls_insert by done. unfold ma_full. cbn. rewrite andb_true_r. done. }
  destruct (newly_full m mcmr); simpl; lia.
Qed.

Lemma newly_full_prev m mcmr old :
  mcm_alias_port_tbl m !! interface_id (mr_port_gid mcmr) = Some old →
  is_full (mr_scope_state mcmr) && negb (is_full (state_bits (ma_scope_state old)))
  = newly_full m mcmr.
Proof. intros E. unfold newly_full. by rewrite E, full_state_bits. Qed.

Lemma newly_full_new m mcmr :
  mcm_alias_port_tbl m !! interface_id (mr_port_gid mcmr) = None →
  is_full (mr_scope_state mcmr) && negb (is_full 0) = newly_full m mcmr.
Proof. intros E. unfold newly_full. by rewrite E. Qed.

Definition join_addr s m (port : Z) : Z := default (next_addr s) (mcm_port_tbl m !! port).

(** The state after a join: the objects, the lists and the events. *)
Definition join_state_of s (g port : Z) m (mcmr : ib_member_rec) (proxy : bool) : mc_subn :=
  let a := join_addr s m port in
  McSubn (<[g := join_mgrp m port a mcmr proxy]> (mgrps s))
    (match mcm_port_tbl m !! port with
     | Some _ => mcm_ports s | None => <[a := McmPort port g]> (mcm_ports s) end)
    (next_addr s + 1) (mgrp_mgid_tbl s) (mboxes s)
    (match mcm_port_tbl m !! port with
     | Some _ => mcm_list s | None => <[port := mcm_list_of s port ++ [a]]> (mcm_list s) end)
    true (uniq_count s) (mc_events s ++ join_events m port mcmr).

Lemma join_finish s g m0 (first : bool) ev :
  mc_events s = ev →
  (let s := put_mgrp g m0 s in
   let s := if first then mgrp_send_notice m0 SM_MGID_CREATED_TRAP s else s in
   s <| sa_dirty := true |>) =
  McSubn (<[g := m0]> (mgrps s)) (mcm_ports s) (next_addr s) (mgrp_mgid_tbl s) (mboxes s)
    (mcm_list s) true (uniq_count s)
    (ev ++ if first then [Notice SM_MGID_CREATED_TRAP (mr_mgid (mcmember_rec m0))] else []).
Proof. intros <-. destruct first; cbn; [done|]. by rewrite app_nil_r. Qed.

Lemma add_port_eq s g m port mcmr proxy :
  mc_wf s → mgrps s !! g = Some m → alias_at m (interface_id (mr_port_gid mcmr)) port →
  full_members m + 1 < 2 ^ 32 →
  let a := join_addr s m port in
  osm_mgrp_add_port s g port mcmr proxy
  = Some (a, mcmr <| mr_scope_state := ma_scope_state (joined m a mcmr proxy) |>,
          join_state_of s g port m mcmr proxy).
Proof.
  intros W Hg Hat Hlt a. destruct W as [Wm _ Wf].
  pose proof (Wf _ _ Hg) as Hfull. unfold full_wf in Hfull.
  pose proof (fulls_nonneg (mcm_alias_port_tbl m)) as Hnn.
  assert (Hnew : mcm_ports s !! next_addr s = None).
  { destruct (mcm_ports s !! next_addr s) as [mp|] eqn:E; [|done].
    pose proof (wf_next_p _ _ _ _ Wm _ _ E). lia. }
  unfold osm_mgrp_add_port. rewrite Hg. cbn [mbind option_bind].
  unfold join_state_of, join_events, join_mgrp. subst a. unfold join_addr, insert_alias_guid.
  destruct (mcm_port_tbl m !! port) as [prev|] eqn:Eport; cbn [default].
  - cbn -[count_join join_alias delete insert u32]. rewrite delete_insert_id by done.
    rewrite (insert_id (mcm_port_tbl m)) by done.
    destruct (mcm_alias_port_tbl m !! interface_id (mr_port_gid mcmr)) as [old|] eqn:Eal.
    + destruct (wf_alias _ _ _ _ Wm _ _ _ _ Hg Eal) as [Hkey _].
      cbn -[count_join join_alias delete insert u32].
      rewrite count_join_eq by lia. rewrite (newly_full_prev _ _ _ Eal).
      unfold joined. rewrite Eal.
      assert (alias_guid (join_alias old (mr_scope_state mcmr)) = alias_guid old) as -> by done.
      rewrite Hkey. rewrite (join_finish _ _ _ _ (mc_events s)) by done. done.
    + cbn -[count_join join_alias delete insert u32].
      rewrite count_join_eq by lia. rewrite (newly_full_new _ _ Eal).
      unfold joined. rewrite Eal.
      rewrite (join_finish _ _ _ _ (mc_events s)) by done. done.
  - destruct (mcm_alias_port_tbl m !! interface_id (mr_port_gid mcmr)) as [old|] eqn:Eal.
    { specialize (Hat _ Eal). congruence. }
    cbn -[count_join join_alias delete insert u32]. rewrite Eal.
    cbn -[count_join join_alias delete insert u32].
    rewrite count_join_eq by lia. rewrite (newly_full_new _ _ Eal).
    unfold joined. rewrite Eal.
    rewrite (join_finish _ _ _ _ (mc_events s ++ [RerouteMlid (mg_mlid m)])) by done.
    cbn -[insert]. rewrite <- app_assoc. done.
Qed.

Lemma add_port_wf s g m port mcmr proxy :
  mc_wf s → mgrps s !! g = Some m → alias_at m (interface_id (mr_port_gid mcmr)) port →
  full_members m + 1 < 2 ^ 32 → mc_wf (join_state_of s g port m mcmr proxy).
Proof.
  intros [Wm Wt Wf] Hg Hat Hlt. constructor; cbn.
  - unfold join_addr. destruct (mcm_port_tbl m !! port) as [prev|] eqn:Eport; cbn [default].
    + assert (Wm' : members_wf (<[g := join_mgrp m port prev mcmr proxy]> (mgrps s)) (mcm_ports s)
        (mcm_list s) (next_addr s)).
      { eapply (members_insert_alias _ _ _ _ g m (interface_id (mr_port_gid mcmr))
          (joined m prev mcmr proxy)); [done|done|..].
        - unfold joined. destruct (mcm_alias_port_tbl m !! _) as [old|] eqn:Eal; [|done].
          by destruct (wf_alias _ _ _ _ Wm _ _ _ _ Hg Eal).
        - unfold joined. destruct (mcm_alias_port_tbl m !! _) as [old|] eqn:Eal; [|by exists port].
          by destruct (wf_alias _ _ _ _ Wm _ _ _ _ Hg Eal).
        - intros old Eal. unfold joined. by rewrite Eal.
        - cbn. by apply insert_id.
        - done. }
      by apply members_wf_next.
    + destruct (mcm_alias_port_tbl m !! interface_id (mr_port_gid mcmr)) as [old|] eqn:Eal.
      { specialize (Hat _ Eal). congruence. }
      apply (members_add_port _ _ _ _ g m port (interface_id (mr_port_gid mcmr))
          (joined m (next_addr s) mcmr proxy)); try done; unfold joined; by rewrite Eal.
  - by rewrite (mgrp_id_insert _ g m).
  - apply full_wf_insert; [done|]. apply join_full; [by eapply Wf|done].
Qed.

(** ** A member leaves *)

(** Some member of the table is a member of the entry [a]. *)
Definition has_base (tbl : gmap Z osm_mcm_alias_guid) (a : Z) : bool :=
  existsb (λ e, p_base_mcm_port e.2 =? a) (qmap_items tbl).

Lemma has_base_true tbl a :
  has_base tbl a = true ↔ ∃ k al, tbl !! k = Some al ∧ p_base_mcm_port al = a.
Proof.
  unfold has_base. rewrite existsb_exists. split.
  - intros ([k al] & Hin & E). apply list_elem_of_In, elem_of_qmap_items in Hin.
    exists k, al. split; [done|]. simpl in E. lia.
  - intros (k & al & Hk & E). exists (k, al). rewrite <- list_elem_of_In, elem_of_qmap_items.
    split; [done|]. simpl. lia.
Qed.

Lemma empty_for_mcm_port tbl a : is_qmap_empty_for_mcm_port tbl a = negb (has_base tbl a).
Proof.
  unfold is_qmap_empty_for_mcm_port, has_base. induction (qmap_items tbl) as [|e l IH]; [done|].
  simpl. rewrite IH. by destruct (p_base_mcm_port e.2 =? a).
Qed.

Lemma empty_for_port s g m p a tbl :
  members_wf (mgrps s) (mcm_ports s) (mcm_list s) (next_addr s) →
  mgrps s !! g = Some m → mcm_port_tbl m !! p = Some a →
  tbl ⊆ mcm_alias_port_tbl m →
  is_qmap_empty_for_port s tbl p = Some (negb (has_base tbl a)).
Proof.
  intros W Hg Hp Hsub. unfold is_qmap_empty_for_port, has_base.
  assert (Hall : ∀ e, e ∈ qmap_items tbl → ∃ q, mcm_port_tbl m !! q = Some (p_base_mcm_port e.2)).
  { intros [k al] Hin. apply elem_of_qmap_items in Hin.
    pose proof (lookup_weaken _ _ _ _ Hin Hsub) as Hk.
    destruct (wf_alias _ _ _ _ W _ _ _ _ Hg Hk) as [_ [q Hq]]. by exists q. }
  induction (qmap_items tbl) as [|[k al] l IH]; [done|]. simpl.
  destruct (Hall (k, al)) as [q Hq]; [by left|]. simpl in Hq.
  rewrite (wf_port _ _ _ _ W _ _ _ _ Hg Hq). simpl.
  destruct (Z.eqb_spec q p) as [->|Hne].
  - assert (p_base_mcm_port al = a) as -> by congruence. by rewrite Z.eqb_refl.
  - rewrite (proj2 (Z.eqb_neq _ _)).
    + simpl. apply IH. intros e He. apply Hall. by right.
    + intros E. apply Hne. rewrite E in Hq. by apply (wf_port_inj _ _ _ _ _ _ _ _ _ W Hg Hq).
Qed.

(** The ports without the entry [a]. *)
Definition drop_entry (ptbl : gmap Z Z) (a : Z) : gmap Z Z := filter (λ e, e.2 ≠ a) ptbl.

Lemma drop_entry_delete G P L n g m p a :
  members_wf G P L n → G !! g = Some m → mcm_port_tbl m !! p = Some a →
  delete p (mcm_port_tbl m) = drop_entry (mcm_port_tbl m) a.
Proof.
  intros W Hg Hp. apply map_eq. intros q. unfold drop_entry. apply option_eq. intros b.
  rewrite lookup_delete_Some, map_lookup_filter_Some. simpl. split.
  - intros [Hne Hq]. split; [done|]. intros ->. apply Hne.
    by apply (wf_port_inj _ _ _ _ _ _ _ _ _ W Hg Hp).
  - intros [Hq Hne]. split; [congruence|done].
Qed.

(** The group without the member [k]. *)
Definition without m (k : Z) (al : osm_mcm_alias_guid) : osm_mgrp :=
  let tbl := delete k (mcm_alias_port_tbl m) in
  m <| mcm_alias_port_tbl := tbl |>
    <| mcm_port_tbl := if has_base tbl (p_base_mcm_port al) then mcm_port_tbl m
                       else drop_entry (mcm_port_tbl m) (p_base_mcm_port al) |>.

Lemma fulls_delete_le tbl k : fulls (delete k tbl) ≤ fulls tbl.
Proof.
  destruct (tbl !! k) as [al|] eqn:E; [|by rewrite delete_id].
  rewrite (fulls_delete _ _ _ E). destruct (ma_full al); simpl; lia.
Qed.

Lemma remove_alias_ok s g m k al :
  mc_wf s → mgrps s !! g = Some m → mcm_alias_port_tbl m !! k = Some al →
  ∃ s', remove_alias s g m al = Some s' ∧ mc_wf s' ∧
    mgrps s' = <[g := without m k al]> (mgrps s) ∧ next_addr s' = next_addr s ∧
    uniq_count s' = uniq_count s ∧
    mc_events s' = mc_events s ++
      (if has_base (delete k (mcm_alias_port_tbl m)) (p_base_mcm_port al)
       then [] else [RerouteMlid (mg_mlid m)]).
Proof.
  intros [Wm Wt Wf] Hg Hk.
  destruct (wf_alias _ _ _ _ Wm _ _ _ _ Hg Hk) as [Ekey [p Hp]].
  set (tbl := delete k (mcm_alias_port_tbl m)). set (a := p_base_mcm_port al) in *.
  assert (Hfull : full_wf (without m k al)).
  { pose proof (Wf _ _ Hg) as H. unfold full_wf in *. cbn.
    pose proof (fulls_delete_le (mcm_alias_port_tbl m) k). lia. }
  assert (Hempty : is_qmap_empty_for_port (put_mgrp g (m <| mcm_alias_port_tbl := tbl |>) s) tbl p
    = Some (negb (has_base tbl a))).
  { transitivity (is_qmap_empty_for_port s tbl p); [done|].
    apply (empty_for_port s g m); try done. apply delete_subseteq. }
  unfold remove_alias. rewrite Ekey. fold tbl a. cbn zeta.
  change (mcm_ports (put_mgrp g (m <| mcm_alias_port_tbl := tbl |>) s)) with (mcm_ports s).
  rewrite (wf_port _ _ _ _ Wm _ _ _ _ Hg Hp). cbn [mbind option_bind mp_port].
  rewrite Hempty. cbn [mbind option_bind]. unfold without. fold tbl a.
  destruct (has_base tbl a) eqn:Ebase; cbn [negb].
  - eexists. split_and!; [reflexivity| |done|done|done|by rewrite app_nil_r].
    apply has_base_true in Ebase as (k' & al' & Hk' & Eb).
    constructor; cbn.
    + eapply (members_delete_alias _ _ _ _ g m k al); try done. by exists k', al'.
    + by rewrite (mgrp_id_insert _ g m).
    + apply full_wf_insert; [done|]. unfold without in Hfull. fold tbl a in Hfull.
      unfold full_wf in *. cbn in *. exact Hfull.
  - unfold qmap_remove_item. rewrite bool_decide_true by done. cbn [mbind option_bind].
    rewrite (drop_entry_delete _ _ _ _ g m p a Wm Hg Hp).
    rewrite empty_for_mcm_port, Ebase. cbn [negb].
    eexists. split_and!; [reflexivity| | |done|done|done].
    + constructor; cbn; rewrite ?insert_insert_eq.
      * apply (members_remove_port _ _ _ _ g m p k al); try done.
        -- intros k' al' Hk' E.
           assert (has_base tbl a = true) by (apply has_base_true; by exists k', al'). congruence.
        -- cbn. symmetry. by eapply drop_entry_delete.
      * by rewrite (mgrp_id_insert _ g m).
      * apply full_wf_insert; [done|]. unfold without in Hfull. fold tbl a in Hfull.
        unfold full_wf in *. cbn in *. exact Hfull.
    + cbn. by rewrite insert_insert_eq.
Qed.

(** The join states of the member [al] before and after [join_state] leaves, and whether
    the group loses a full member by it. *)
Definition left_bits (al : osm_mcm_alias_guid) (join_state : Z) : Z :=
  leave_state (state_bits (ma_scope_state al)) (state_bits join_state).
Definition loses_full (al : osm_mcm_alias_guid) (join_state : Z) : bool :=
  is_full (state_bits (ma_scope_state al)) && negb (is_full (left_bits al join_state)).

(** The entry with the join state it is left with. *)
Definition left_alias (al : osm_mcm_alias_guid) (join_state : Z) : osm_mcm_alias_guid :=
  al <| ma_scope_state := Z.lor (left_bits al join_state) (Z.land (ma_scope_state al) 0xf0) |>.

Definition stays m (al : osm_mcm_alias_guid) (join_state : Z) : bool :=
  keeps_member (full_members m) (state_bits (ma_scope_state al)) (left_bits al join_state).

(** The group after a member left, full members not counted. *)
Definition left_members m (k : Z) (al : osm_mcm_alias_guid) (join_state : Z) : osm_mgrp :=
  if stays m al join_state
  then m <| mcm_alias_port_tbl := <[k := left_alias al join_state]> (mcm_alias_port_tbl m) |>
  else without m k al.

Definition left_mgrp m (k : Z) (al : osm_mcm_alias_guid) (join_state : Z) : osm_mgrp :=
  (left_members m k al join_state)
    <| full_members := full_members m - Z.b2z (loses_full al join_state) |>.

(** The groups after [g] became [m], or went for want of full members. *)
Definition after_leave (G : gmap Z osm_mgrp) (g : Z) m (gone : bool) : gmap Z osm_mgrp :=
  if gone then if well_known m then <[g := emptied m]> G else delete g G
  else <[g := m]> G.

Lemma left_members_fields m k al js :
  mg_mlid (left_members m k al js) = mg_mlid m ∧
  mcmember_rec (left_members m k al js) = mcmember_rec m ∧
  well_known (left_members m k al js) = well_known m ∧
  full_members (left_members m k al js) = full_members m.
Proof. unfold left_members. by destruct (stays m al js). Qed.

Lemma left_alias_full al js : ma_full (left_alias al js) = is_full (left_bits al js).
Proof. unfold ma_full, left_alias. cbn. by rewrite full_lor, full_scope_bits, orb_false_r. Qed.

(** The count of full members falls with the counter at least. *)
Lemma left_fulls m k al js :
  mcm_alias_port_tbl m !! k = Some al →
  fulls (mcm_alias_port_tbl (left_members m k al js))
  ≤ fulls (mcm_alias_port_tbl m) - Z.b2z (loses_full al js).
Proof.
  intros Hk. unfold left_members, loses_full. rewrite full_state_bits.
  change (is_full (ma_scope_state al)) with (ma_full al).
  destruct (stays m al js); cbn [mcm_alias_port_tbl set_field without].
  - rewrite (fulls_update _ _ _ _ Hk), left_alias_full.
    destruct (is_full (left_bits al js)) eqn:E; [|destruct (ma_full al); simpl; lia].
    apply full_leave in E. rewrite full_state_bits in E. unfold ma_full. rewrite E. simpl. lia.
  - rewrite (fulls_delete _ _ _ Hk). destruct (ma_full al), (is_full (left_bits al js)); simpl; lia.
Qed.

(** Leaving with the entry kept or removed. *)
Lemma leave_members_ok s g m k al js (mcmr : ib_member_rec) :
  mc_wf s → mgrps s !! g = Some m → mcm_alias_port_tbl m !! k = Some al →
  ∃ s', (if stays m al js
     then Some (mcmr <| mr_scope_state := ma_scope_state (left_alias al js) |>,
            put_mgrp g (m <| mcm_alias_port_tbl := <[alias_guid al := left_alias al js]> (mcm_alias_port_tbl m) |>) s)
     else s ← remove_alias s g m al;
          Some (mcmr <| mr_scope_state := Z.land (ma_scope_state al) 0xf0 |>, s))
    = Some (mcmr <| mr_scope_state := if stays m al js then ma_scope_state (left_alias al js)
                                     else Z.land (ma_scope_state al) 0xf0 |>, s') ∧
    mc_wf s' ∧ mgrps s' = <[g := left_members m k al js]> (mgrps s) ∧
    next_addr s' = next_addr s ∧ uniq_count s' = uniq_count s.
Proof.
  intros W Hg Hk. pose proof (left_fulls m k al js Hk) as Hle.
  unfold left_members in *. destruct (stays m al js) eqn:Est.
  - eexists. split_and!; [reflexivity| |..]; cycle 1.
    { cbn. destruct (wf_alias _ _ _ _ (mc_members _ W) _ _ _ _ Hg Hk) as [-> _]. done. }
    { done. } { done. }
    destruct W as [Wm Wt Wf]. destruct (wf_alias _ _ _ _ Wm _ _ _ _ Hg Hk) as [Ekey Hp].
    constructor; cbn.
    + apply (members_insert_alias _ _ _ _ g m (alias_guid al) (left_alias al js)); try done.
      rewrite Ekey. intros old Hold. rewrite Hk in Hold. by injection Hold as <-.
    + by rewrite (mgrp_id_insert _ g m).
    + apply full_wf_insert; [done|]. pose proof (Wf _ _ Hg) as H. unfold full_wf in *.
      cbn in *. rewrite Ekey. destruct (loses_full al js); simpl in Hle; lia.
  - destruct (remove_alias_ok s g m k al W Hg Hk) as (s' & H1 & H2 & H3 & H4 & H5 & _).
    exists s'. rewrite H1. cbn [mbind option_bind]. split_and!; done.
Qed.

(** Counting a full member less. *)
Definition uncounted m (lost : bool) : osm_mgrp :=
  m <| full_members := full_members m - Z.b2z lost |>.

Lemma uncount_wf s g m lost ev :
  mc_wf s → mgrps s !! g = Some m →
  fulls (mcm_alias_port_tbl m) ≤ full_members m - Z.b2z lost →
  mc_wf ((put_mgrp g (uncounted m lost) s) <| mc_events := ev |>).
Proof.
  intros [Wm Wt Wf] Hg Hle. constructor; cbn.
  - apply (members_set_aliases _ _ _ _ g m (mcm_alias_port_tbl m)); try done.
    + intros k' al'. by apply (wf_alias _ _ _ _ Wm g).
    + intros p a. by apply (wf_used _ _ _ _ Wm g).
  - by rewrite (mgrp_id_insert _ g m).
  - apply full_wf_insert; [done|]. pose proof (Wf _ _ Hg) as H. unfold full_wf in *. cbn.
    destruct lost; simpl in *; lia.
Qed.

Lemma count_leave_ok s g m pj nj :
  mc_wf s → mgrps s !! g = Some m →
  let lost := is_full pj && negb (is_full nj) in
  fulls (mcm_alias_port_tbl m) ≤ full_members m - Z.b2z lost →
  let gone := lost && (full_members m =? 1) in
  ∃ s', count_leave s g pj nj = Some (gone, s') ∧ mc_wf s' ∧
    mgrps s' = after_leave (mgrps s) g (uncounted m lost) gone ∧
    next_addr s' = next_addr s ∧ uniq_count s' = uniq_count s.
Proof.
  intros W Hg lost Hle gone. pose proof (uncount_wf s g m lost) as Hw.
  pose proof (fulls_nonneg (mcm_alias_port_tbl m)) as Hnn.
  pose proof (mc_full _ W _ _ Hg) as Hf. unfold full_wf in Hf.
  unfold count_leave. fold lost. subst gone. unfold after_leave.
  destruct lost; cbn [andb Z.b2z] in *.
  - rewrite Hg. cbn [mbind option_bind]. rewrite u32_small by lia.
    change (m <| full_members := full_members m - 1 |>) with (uncounted m true).
    destruct (Z.eqb_spec (full_members m) 1) as [E1|E1].
    + rewrite (proj2 (Z.eqb_eq (full_members m - 1) 0)) by lia.
      set (s2 := mgrp_send_notice m SM_MGID_DESTROYED_TRAP (put_mgrp g (uncounted m true) s)).
      destruct (cleanup_ok s2 g (uncounted m true)) as (s' & C1 & C2 & C3 & C4 & _ & C6).
      { by apply Hw. } { cbn. apply lookup_insert_eq. } { cbn. lia. }
      rewrite C1. cbn [mbind option_bind]. exists s'. split_and!; try done.
      rewrite C6. cbn. by rewrite insert_insert_eq, delete_insert_eq.
    + rewrite (proj2 (Z.eqb_neq (full_members m - 1) 0)) by lia.
      eexists. split_and!; [reflexivity| |done..].
      destruct (Hw (mc_events s) W Hg Hle). by constructor.
  - exists s. split_and!; try done. cbn. rewrite insert_id; [done|]. rewrite Hg. f_equal.
    unfold uncounted. destruct m. cbn. by rewrite Z.sub_0_r.
Qed.

Lemma remove_port_ok s g m k al mcmr :
  mc_wf s → mgrps s !! g = Some m → mcm_alias_port_tbl m !! k = Some al →
  let js := mr_scope_state mcmr in
  let gone := loses_full al js && (full_members m =? 1) in
  ∃ s', osm_mgrp_remove_port s g k mcmr
    = Some (gone, mcmr <| mr_scope_state :=
        if stays m al js then ma_scope_state (left_alias al js)
        else Z.land (ma_scope_state al) 0xf0 |>, s') ∧
    mc_wf s' ∧ mgrps s' = after_leave (mgrps s) g (left_mgrp m k al js) gone ∧
    next_addr s' = next_addr s ∧ uniq_count s' = uniq_count s.
Proof.
  intros W Hg Hk js gone.
  destruct (leave_members_ok s g m k al js mcmr W Hg Hk) as (s1 & H1 & W1 & H2 & H3 & H4).
  assert (Hg1 : mgrps s1 !! g = Some (left_members m k al js)).
  { rewrite H2. apply lookup_insert_eq. }
  pose proof (left_fulls m k al js Hk) as Hle.
  destruct (left_members_fields m k al js) as (F1 & F2 & F3 & F4).
  unfold osm_mgrp_remove_port. rewrite Hg. cbn [mbind option_bind]. rewrite Hk.
  cbn [mbind option_bind].
  change (Z.land (ma_scope_state al) 0x0F) with (state_bits (ma_scope_state al)).
  change (Z.land (mr_scope_state mcmr) 0xf) with (state_bits js).
  change (leave_state (state_bits (ma_scope_state al)) (state_bits js)) with (left_bits al js).
  change (keeps_member (full_members m) (state_bits (ma_scope_state al)) (left_bits al js))
    with (stays m al js).
  cbn zeta. unfold left_alias in H1. cbn [ma_scope_state set_field alias_guid] in H1.
  cbn [ma_scope_state set_field alias_guid]. rewrite H1.
  cbn [mbind option_bind].
  destruct (count_leave_ok s1 g (left_members m k al js) (state_bits (ma_scope_state al))
    (left_bits al js)) as (s' & C1 & C2 & C3 & C4 & C5).
  { done. } { done. }
  { fold (loses_full al js). pose proof (mc_full _ W _ _ Hg) as Hf. unfold full_wf in Hf.
    rewrite F4. lia. }
  fold (loses_full al js) in C1, C3. rewrite F4 in C1, C3. fold gone in C1, C3.
  rewrite C1. cbn [mbind option_bind]. eexists. split_and!; [reflexivity| |..].
  - destruct C2. by constructor.
  - cbn. rewrite C3, H2. unfold left_mgrp, uncounted, after_leave. rewrite F4.
    rewrite insert_insert_eq, delete_insert_eq, insert_insert_eq. done.
  - cbn. by rewrite C4.
  - cbn. by rewrite C5.
Qed.
End Ops.
