(* ===== verification/MgrpDrop.v ===== *)
(** * A port leaves its groups: [osm_mgrp_delete_port] and the loop of [drop_mgr_remove_port]

    Leaving with every bit of the join state always removes the entry, so the loop over
    the members of a port empties the port, or the group goes first; the loop over the
    groups of a port ends because every round takes the port out of one. *)

From S2P Require Import Prelude IbTypes Mgrp MgrpOk MgrpOps.

Open Scope Z_scope.

Section Drop.
Context {BO : ByteOrder}.
Implicit Types s : mc_subn.
Implicit Types m : osm_mgrp.

Lemma left_bits_all al : left_bits al 0xf = 0.
Proof.
  unfold left_bits, leave_state, state_bits. apply Z.bits_inj'. intros i Hi.
  rewrite !Z.land_spec, Z.lnot_spec, Z.land_spec, Z.bits_0 by done.
  destruct (Z.testbit 15 i); simpl; [by rewrite andb_false_r|by rewrite andb_false_r].
Qed.

Lemma stays_all m al : stays m al 0xf = false.
Proof. unfold stays, keeps_member. by rewrite left_bits_all. Qed.

Lemma left_members_all m k al : left_members m k al 0xf = without m k al.
Proof. unfold left_members. by rewrite stays_all. Qed.

(** A leave keeps every group with a full member or well known. *)
Lemma leave_settled s s' g m m' lost :
  mc_wf s → settled s → mgrps s !! g = Some m → well_known m' = well_known m →
  full_members m' = full_members m - Z.b2z lost →
  mgrps s' = after_leave (mgrps s) g m' (lost && (full_members m =? 1)) → settled s'.
Proof.
  intros W Hs Hg Ew Ef Em g0 m0. rewrite Em. unfold after_leave.
  destruct (lost && (full_members m =? 1)) eqn:E.
  - rewrite Ew. destruct (well_known m) eqn:Ewk.
    + rewrite lookup_insert_Some. intros [[<- <-]|[_ H]]; [left; cbn; congruence|by eapply Hs].
    + rewrite lookup_delete_Some. intros [_ H]. by eapply Hs.
  - rewrite lookup_insert_Some. intros [[<- <-]|[_ H]]; [|by eapply Hs].
    rewrite Ew, Ef. destruct (Hs _ _ Hg) as [H|H]; [by left|right].
    apply andb_false_iff in E as [->|E]; [simpl; lia|]. destruct lost; simpl; lia.
Qed.

(** The members of the group that are not the port's. *)
Definition others_kept m m' (port : Z) : Prop :=
  ∀ k al, mcm_alias_port_tbl m' !! k = Some al ↔
    mcm_alias_port_tbl m !! k = Some al ∧ mcm_port_tbl m !! port ≠ Some (p_base_mcm_port al).

(** A group that lost members, as the table of groups goes from one state to another. *)
Definition shrunk m m' : Prop :=
  mcm_port_tbl m' ⊆ mcm_port_tbl m ∧ mcm_alias_port_tbl m' ⊆ mcm_alias_port_tbl m ∧
  full_members m' ≤ full_members m ∧ mgrp_id m' = mgrp_id m.

Lemma shrunk_refl m : shrunk m m.
Proof. done. Qed.

Lemma shrunk_trans m1 m2 m3 : shrunk m1 m2 → shrunk m2 m3 → shrunk m1 m3.
Proof.
  intros (A1 & A2 & A3 & A4) (B1 & B2 & B3 & B4).
  split_and!; [by etransitivity|by etransitivity|lia|congruence].
Qed.

(** What a delete leaves of a group: emptied for want of full members, or without the
    members of the port. *)
Definition port_deleted m m' (port : Z) : Prop :=
  mcm_port_tbl m' !! port = None ∧ shrunk m m' ∧
  ((mcm_alias_port_tbl m' = ∅ ∧ full_members m' = 0) ∨ others_kept m m' port).

Lemma without_ports m k al : mcm_port_tbl (without m k al) ⊆ mcm_port_tbl m.
Proof. cbn. case_match; [done|]. apply map_filter_subseteq. Qed.

Lemma without_shrunk m k al lost :
  shrunk m ((without m k al) <| full_members := full_members m - Z.b2z lost |>).
Proof.
  split_and!; [apply (without_ports m k al)|apply delete_subseteq|cbn; destruct lost; simpl; lia|done].
Qed.

Lemma emptied_shrunk m m' : shrunk m m' → shrunk m (emptied m').
Proof. intros (_ & _ & H1 & H2). split_and!; [apply map_empty_subseteq|apply map_empty_subseteq|done|done]. Qed.

Lemma without_port_still G P L n g m k al port :
  members_wf G P L n → G !! g = Some m → mcm_alias_port_tbl m !! k = Some al →
  mcm_port_tbl m !! port = Some (p_base_mcm_port al) →
  ∀ k' al', delete k (mcm_alias_port_tbl m) !! k' = Some al' →
    p_base_mcm_port al' = p_base_mcm_port al →
    mcm_port_tbl (without m k al) !! port = Some (p_base_mcm_port al).
Proof.
  intros W Hg Hal Hp k' al' Hk' E. cbn.
  replace (has_base (delete k (mcm_alias_port_tbl m)) (p_base_mcm_port al)) with true; [done|].
  symmetry. apply has_base_true. by exists k', al'.
Qed.

(** Members taken out one by one. *)
Lemma without_others G P L n g m k al port m' fm :
  members_wf G P L n → G !! g = Some m → mcm_alias_port_tbl m !! k = Some al →
  mcm_port_tbl m !! port = Some (p_base_mcm_port al) →
  others_kept ((without m k al) <| full_members := fm |>) m' port → others_kept m m' port.
Proof.
  intros W Hg Hal Hp Ho k' al'. rewrite (Ho k' al').
  cbn [mcm_alias_port_tbl mcm_port_tbl set_field].
  change (mcm_alias_port_tbl (without m k al)) with (delete k (mcm_alias_port_tbl m)).
  pose proof (without_port_still _ _ _ _ g m k al port W Hg Hal Hp k' al') as Hst.
 split.
  - intros [Hk' Hne]. pose proof Hk' as [_ Hk'']%lookup_delete_Some. split; [done|].
    rewrite Hp. intros [= E]. apply Hne. rewrite (Hst Hk' (eq_sym E)). by f_equal.
  - intros [Hk' Hne]. split; [|intros H; apply Hne; by apply (lookup_weaken _ _ _ _ H (without_ports m k al))].
    apply lookup_delete_Some. split; [|done]. intros <-. by simplify_eq.
Qed.

Lemma delete_loop_ok g port keys : ∀ s m,
  mc_wf s → mgrps s !! g = Some m → NoDup keys →
  (∀ k, k ∈ keys → is_Some (mcm_alias_port_tbl m !! k)) →
  (∀ k al, mcm_alias_port_tbl m !! k = Some al →
     mcm_port_tbl m !! port = Some (p_base_mcm_port al) → k ∈ keys) →
  ∃ s', delete_port_loop s g port keys = Some s' ∧ mc_wf s' ∧ (settled s → settled s') ∧
    next_addr s' = next_addr s ∧ uniq_count s' = uniq_count s ∧
    (∀ m', mgrps s' !! g = Some m' → port_deleted m m' port) ∧
    ∀ g', g' ≠ g → mgrps s' !! g' = mgrps s !! g'.
Proof.
  induction keys as [|k keys IH]; intros s m W Hg Hnd Hin Hall.
  - exists s. split_and!; try done. intros m' Hm'. rewrite Hg in Hm'. injection Hm' as <-.
    assert (Hno : mcm_port_tbl m !! port = None).
    { destruct (mcm_port_tbl m !! port) as [a|] eqn:E; [|done].
      destruct (wf_used _ _ _ _ (mc_members _ W) _ _ _ _ Hg E) as (k & al & H1 & H2).
      exfalso. apply (not_elem_of_nil k). apply (Hall k al); [done|congruence]. }
    split_and!; [done|done|]. right. intros k al. rewrite Hno. naive_solver.
  - apply NoDup_cons in Hnd as [Hk Hnd]. destruct (Hin k) as [al Hal]; [by left|].
    destruct (wf_alias _ _ _ _ (mc_members _ W) _ _ _ _ Hg Hal) as [Ekey [p Hp]].
    pose proof (wf_port _ _ _ _ (mc_members _ W) _ _ _ _ Hg Hp) as Hmp.
    cbn [delete_port_loop]. rewrite Hg. cbn [mbind option_bind]. rewrite Hal.
    cbn [mbind option_bind]. rewrite Hmp. cbn [mbind option_bind mp_port].
    destruct (Z.eqb_spec p port) as [->|Hne].
    + destruct (remove_port_ok s g m k al no_rec W Hg Hal) as (s1 & R1 & W1 & R2 & R3 & R4).
      change (mr_scope_state no_rec) with 0xf in *.
      rewrite R1. cbn [mbind option_bind].
      assert (Hset : settled s → settled s1).
      { intros Hs. eapply (leave_settled s s1 g m (left_mgrp m k al 15)); [done..| | |exact R2].
        - unfold left_mgrp. by rewrite left_members_all.
        - unfold left_mgrp. by rewrite left_members_all. }
      unfold after_leave, left_mgrp in R2. rewrite left_members_all in R2.
      destruct (loses_full al 15 && (full_members m =? 1)) eqn:Egone.
      * exists s1. cbn in R2. split_and!; try done.
        -- intros m'. rewrite R2. destruct (well_known m); [|by rewrite lookup_delete_eq].
           rewrite lookup_insert_eq. intros [= <-]. split_and!; [done|apply emptied_shrunk, without_shrunk|]. left. cbn. split; [done|].
           apply andb_true_iff in Egone as [-> E]. simpl. lia.
        -- intros g' Hg'. rewrite R2.
           destruct (well_known m); by rewrite ?lookup_insert_ne, ?lookup_delete_ne.
      * set (m1 := (without m k al) <| full_members := full_members m - Z.b2z (loses_full al 15) |>) in R2.
        assert (Hg1 : mgrps s1 !! g = Some m1) by (rewrite R2; apply lookup_insert_eq).
        destruct (IH s1 m1) as (s' & D1 & D2 & D3 & D4 & D5 & D6 & D7); [done|done|done|..].
        { intros k' Hk'. cbn. rewrite lookup_delete_ne by (intros ->; done). apply Hin. by right. }
        { intros k' al' Hk' Hp'. cbn in Hk'. apply lookup_delete_Some in Hk' as [Hne Hk'].
          assert (k' ∈ k :: keys) as [E|E]%elem_of_cons; [|by subst|done].
          apply (Hall k' al' Hk').
          eapply lookup_weaken; [exact Hp'|apply without_ports]. }
        exists s'. split_and!; [done|done|auto|congruence|congruence| |].
        -- intros m' Hm'. destruct (D6 _ Hm') as (Hp' & Hsub & Hrest). split_and!;
             [done|by eapply shrunk_trans; [apply without_shrunk|exact Hsub]|].
           destruct Hrest as [He|Ho]; [by left|right].
           exact (without_others _ _ _ _ g m k al port m' _ (mc_members _ W) Hg Hal Hp Ho).
        -- intros g' Hg'. rewrite D7, R2 by done. by rewrite lookup_insert_ne.
    + apply IH; [done|done|done| |].
      * intros k' Hk'. apply Hin. by right.
      * intros k' al' Hk' Hp'. assert (k' ∈ k :: keys) as [->|E]%elem_of_cons; [by eapply Hall| |done].
        exfalso. apply Hne. rewrite Hal in Hk'. injection Hk' as <-.
        by apply (wf_port_inj _ _ _ _ _ _ _ _ _ (mc_members _ W) Hg Hp).
Qed.

Lemma delete_port_ok s g m port :
  mc_wf s → mgrps s !! g = Some m →
  ∃ s', osm_mgrp_delete_port s g port = Some s' ∧ mc_wf s' ∧ (settled s → settled s') ∧
    next_addr s' = next_addr s ∧ uniq_count s' = uniq_count s ∧
    (∀ m', mgrps s' !! g = Some m' → port_deleted m m' port) ∧
    ∀ g', g' ≠ g → mgrps s' !! g' = mgrps s !! g'.
Proof.
  intros W Hg. unfold osm_mgrp_delete_port. rewrite Hg. cbn [mbind option_bind].
  assert (Hkeys : ∀ k, k ∈ (qmap_items (mcm_alias_port_tbl m)).*1 ↔ is_Some (mcm_alias_port_tbl m !! k)).
  { intros k. rewrite list_elem_of_fmap. split.
    - intros ([k' al] & -> & H). apply elem_of_qmap_items in H. by exists al.
    - intros [al H]. exists (k, al). split; [done|]. by apply elem_of_qmap_items. }
  apply (delete_loop_ok g port _ s m W Hg).
  - apply qmap_items_NoDup.
  - intros k. by apply Hkeys.
  - intros k al H _. apply Hkeys. by exists al.
Qed.

(** The list of the port is shorter by the groups it left. *)
Lemma delete_port_list s s' g m port a :
  mc_wf s → mc_wf s' → mgrps s !! g = Some m → mcm_port_tbl m !! port = Some a →
  (∀ m', mgrps s' !! g = Some m' → port_deleted m m' port) →
  (∀ g', g' ≠ g → mgrps s' !! g' = mgrps s !! g') →
  (length (mcm_list_of s' port) < length (mcm_list_of s port))%nat.
Proof.
  intros W W' Hg Ha Hdel Hkeep.
  pose proof (mc_members _ W) as Wm. pose proof (mc_members _ W') as Wm'.
  assert (Hsub : ∀ x, x ∈ mcm_list_of s' port → x ∈ mcm_list_of s port ∧ x ≠ a).
  { intros x Hx. apply (wf_list _ _ _ _ Wm') in Hx as [g' Hx].
    destruct (wf_obj _ _ _ _ Wm' _ _ Hx) as (m' & H1 & H2). simpl in *.
    assert (Hne : g' ≠ g).
    { intros ->. destruct (Hdel _ H1) as [H3 _]. congruence. }
    rewrite Hkeep in H1 by done. pose proof (wf_port _ _ _ _ Wm _ _ _ _ H1 H2) as H3. split.
    - apply (wf_list _ _ _ _ Wm). by exists g'.
    - intros ->. pose proof (wf_port _ _ _ _ Wm _ _ _ _ Hg Ha). congruence. }
  assert (Hain : a ∈ mcm_list_of s port).
  { apply (wf_list _ _ _ _ Wm). exists g. by eapply wf_port. }
  assert (a :: mcm_list_of s' port ⊆+ mcm_list_of s port) as H.
  { apply NoDup_submseteq.
    - apply NoDup_cons. split; [|apply (wf_list_nodup _ _ _ _ Wm')]. intros Hx. by apply Hsub in Hx as [_ ?].
    - intros x [->|Hx]%elem_of_cons; [done|by apply Hsub]. }
  apply submseteq_length in H. simpl in H. lia.
Qed.

Lemma no_entries s port :
  mc_wf s → mcm_list_of s port = [] →
  ∀ g m, mgrps s !! g = Some m → mcm_port_tbl m !! port = None.
Proof.
  intros W E g m Hg. destruct (mcm_port_tbl m !! port) as [a|] eqn:Ha; [|done]. exfalso.
  apply (not_elem_of_nil a). rewrite <- E. apply (wf_list _ _ _ _ (mc_members _ W)).
  exists g. by eapply wf_port; [apply W|..].
Qed.

Lemma drop_port_groups_ok port fuel s :
  mc_wf s → settled s → (length (mcm_list_of s port) ≤ fuel)%nat →
  ∃ s', drop_port_groups fuel s port = Some s' ∧ mc_wf s' ∧ settled s' ∧
    mcm_list_of s' port = [] ∧
    ∀ g m', mgrps s' !! g = Some m' → ∃ m, mgrps s !! g = Some m ∧ shrunk m m'.
Proof.
  revert s. induction fuel as [|fuel IH]; intros s W Hs Hlen.
  - destruct (mcm_list_of s port) as [|a l] eqn:E; [|simpl in Hlen; lia].
    exists s. simpl. rewrite E. split_and!; try done. intros g m Hg. by exists m.
  - simpl. destruct (mcm_list_of s port) as [|a l] eqn:E.
    { exists s. split_and!; try done. intros g m Hg. by exists m. }
    assert (Ha : a ∈ mcm_list_of s port) by (rewrite E; by left).
    apply (wf_list _ _ _ _ (mc_members _ W)) in Ha as [g Ha]. rewrite Ha. cbn [mbind option_bind mp_mgrp].
    destruct (wf_obj _ _ _ _ (mc_members _ W) _ _ Ha) as (m & Hg & Hp). simpl in Hg, Hp.
    destruct (delete_port_ok s g m port W Hg) as (s1 & D1 & D2 & D3 & _ & _ & D6 & D7).
    rewrite D1. cbn [mbind option_bind].
    destruct (IH s1) as (s' & I1 & I2 & I3 & I4 & I5); [done|auto|..].
    { pose proof (delete_port_list s s1 g m port a W D2 Hg Hp D6 D7) as H. rewrite E in H.
      simpl in H, Hlen. lia. }
    exists s'. split_and!; try done. intros g' m' Hm'. destruct (I5 _ _ Hm') as (m1 & H1 & H2).
    destruct (decide (g' = g)) as [->|Hne]; [|rewrite D7 in H1 by done; by exists m1].
    destruct (D6 _ H1) as (_ & H3 & _). exists m. split; [done|]. by eapply shrunk_trans.
Qed.

(** C19. Taking a port out of all its groups always ends without reading a freed object:
    as many rounds as the port has entries are enough; then the port has no entry in
    any group and an empty list, the state is sound, and every group still has a full
    member or is well known. *)
Theorem drop_port_groups_ends s port fuel :
  mc_wf s → settled s → (length (mcm_list_of s port) ≤ fuel)%nat →
  ∃ s', drop_port_groups fuel s port = Some s' ∧ mc_wf s' ∧ settled s' ∧
    mcm_list_of s' port = [] ∧ ∀ g m, mgrps s' !! g = Some m → mcm_port_tbl m !! port = None.
Proof.
  intros W Hs Hlen. destruct (drop_port_groups_ok port fuel s W Hs Hlen) as (s' & H1 & H2 & H3 & H4 & _).
  exists s'. split_and!; try done. by apply no_entries.
Qed.
End Drop.
