(* ===== verification/QMap.v ===== *)
(** * Balanced maps: [complib/cl_map.c]

    The file has the code of the red-black trees twice, for keys of 64 bits
    ([cl_qmap_t]) and for keys that a function compares ([cl_fmap_t]); the two differ
    only in the comparison, which is the argument [cmp] of [Section Map] here.  Where
    the code has a branch for the left side and a mirror image of it for the right
    one, the side is an argument.

    Memory is three maps over the addresses of items: the links of the tree, the
    links of the list the item is in by its [pool_item], and the key.  An access to
    an address that is not there has no result.  The loops take as fuel the number of
    items in memory. *)

From S2P Require Import Prelude.

Open Scope Z_scope.

(** ** Data *)

Inductive cl_map_color_t := CL_MAP_RED | CL_MAP_BLACK.
#[export] Instance cl_map_color_eq_dec : EqDecision cl_map_color_t.
Proof. solve_decision. Defined.

Record cl_map_links := Links {
  p_left : Z;
  p_right : Z;
  p_up : Z;
  color : cl_map_color_t
}.
#[export] Instance cl_map_links_eta : Eta cl_map_links := λ l,
  Links (p_left l) (p_right l) (p_up l) (color l).

Record cl_list_item := ListItem { p_next : Z; p_prev : Z }.
#[export] Instance cl_list_item_eta : Eta cl_list_item := λ l, ListItem (p_next l) (p_prev l).

(** The items in memory. *)
Record cl_mem (K : Type) := Mem {
  mem_links : gmap Z cl_map_links;
  mem_list : gmap Z cl_list_item;
  mem_key : gmap Z K
}.
Arguments Mem {K} _ _ _.
Arguments mem_links {K} _.
Arguments mem_list {K} _.
Arguments mem_key {K} _.
#[export] Instance cl_mem_eta K : Eta (cl_mem K) := λ M, Mem (mem_links M) (mem_list M) (mem_key M).

(** A map: the addresses of its two sentinels and the number of its items. *)
Record cl_qmap := QMap { q_root : Z; q_nil : Z; q_count : Z }.
#[export] Instance cl_qmap_eta : Eta cl_qmap := λ q, QMap (q_root q) (q_nil q) (q_count q).

(** *** Sides *)

Inductive side := Lft | Rgt.
#[export] Instance side_eq_dec : EqDecision side.
Proof. solve_decision. Defined.

Definition opp (d : side) : side := match d with Lft => Rgt | Rgt => Lft end.
Definition child (d : side) (l : cl_map_links) : Z :=
  match d with Lft => p_left l | Rgt => p_right l end.
Definition with_child (d : side) (v : Z) (l : cl_map_links) : cl_map_links :=
  match d with Lft => l <| p_left := v |> | Rgt => l <| p_right := v |> end.

(** ** Links *)

Definition upd {A} (a : Z) (f : A → A) (m : gmap Z A) : option (gmap Z A) :=
  x ← m !! a; Some (<[a := f x]> m).

Definition set_up (a v : Z) := upd a (λ l : cl_map_links, l <| p_up := v |>).
Definition set_color (a : Z) (c : cl_map_color_t) := upd a (λ l : cl_map_links, l <| color := c |>).
Definition set_child (d : side) (a v : Z) := upd a (with_child d v).

Implicit Types ls : gmap Z cl_map_links.

Definition __cl_map_is_left_child ls (p_item : Z) : option bool :=
  it ← ls !! p_item; u ← ls !! p_up it; Some (p_left u =? p_item).

(** The side of its parent an item is on. *)
Definition side_of ls (p_item : Z) : option side :=
  b ← __cl_map_is_left_child ls p_item; Some (if (b : bool) then Lft else Rgt).

(** [*__cl_map_get_parent_ptr_to_item(p_item) = v]. *)
Definition set_parent_ptr (p_item v : Z) ls : option (gmap Z cl_map_links) :=
  it ← ls !! p_item; d ← side_of ls p_item; set_child d (p_up it) v ls.

(** [__cl_map_rot_left] for [Lft], [__cl_map_rot_right] for [Rgt]. *)
Definition __cl_map_rot (d : side) (nil p_item : Z) ls : option (gmap Z cl_map_links) :=
  it ← ls !! p_item;
  let c := child (opp d) it in
  ls ← set_parent_ptr p_item c ls;
  ls ← set_up c (p_up it) ls;
  cit ← ls !! c;
  let b := child d cit in
  ls ← set_child (opp d) p_item b ls;
  ls ← (if b =? nil then Some ls else set_up b p_item ls);
  ls ← set_child d c p_item ls;
  set_up p_item c ls.

(** The links of the parent of an item. *)
Definition up_links ls (p_item : Z) : option cl_map_links :=
  it ← ls !! p_item; ls !! p_up it.

(** ** Balancing *)

(** The loop of [__cl_map_ins_bal]; [d] is the side the parent is on. *)
Fixpoint __cl_map_ins_bal (fuel : nat) (nil p_item : Z) ls : option (gmap Z cl_map_links) :=
  match fuel with
  | O => None
  | S fuel =>
      it ← ls !! p_item;
      let up := p_up it in
      u ← ls !! up;
      if decide (color u = CL_MAP_RED) then
        d ← side_of ls up;
        let grand := p_up u in
        g ← ls !! grand;
        let p_grand_uncle := child (opp d) g in
        gu ← ls !! p_grand_uncle;
        if decide (color gu = CL_MAP_RED) then
          ls ← set_color p_grand_uncle CL_MAP_BLACK ls;
          ls ← set_color up CL_MAP_BLACK ls;
          ls ← set_color grand CL_MAP_RED ls;
          __cl_map_ins_bal fuel nil grand ls
        else
          d' ← side_of ls p_item;
          '(p_item, ls) ← (if decide (d' = d) then Some (p_item, ls)
                           else ls ← __cl_map_rot d nil up ls; Some (up, ls));
          it ← ls !! p_item;
          ls ← set_color (p_up it) CL_MAP_BLACK ls;
          u ← ls !! p_up it;
          ls ← set_color (p_up u) CL_MAP_RED ls;
          ls ← __cl_map_rot (opp d) nil (p_up u) ls;
          __cl_map_ins_bal fuel nil p_item ls
      else Some ls
  end.

(** The loop of [__cl_map_del_bal] and the assignment after it; [d] is the side
    [p_item] is on. *)
Fixpoint __cl_map_del_bal (fuel : nat) (root nil p_item : Z) ls : option (gmap Z cl_map_links) :=
  match fuel with
  | O => None
  | S fuel =>
      it ← ls !! p_item;
      let up := p_up it in
      if bool_decide (color it = CL_MAP_RED) || (up =? root) then set_color p_item CL_MAP_BLACK ls
      else
        d ← side_of ls p_item;
        u ← ls !! up;
        let p_uncle := child (opp d) u in
        un ← ls !! p_uncle;
        '(p_uncle, ls) ←
          (if decide (color un = CL_MAP_RED) then
             ls ← set_color p_uncle CL_MAP_BLACK ls;
             ls ← set_color up CL_MAP_RED ls;
             ls ← __cl_map_rot d nil up ls;
             u ← up_links ls p_item;
             Some (child (opp d) u, ls)
           else Some (p_uncle, ls));
        un ← ls !! p_uncle;
        far ← ls !! child (opp d) un;
        near ← ls !! child d un;
        if negb (bool_decide (color far = CL_MAP_RED)) && negb (bool_decide (color near = CL_MAP_RED)) then
          ls ← set_color p_uncle CL_MAP_RED ls;
          it ← ls !! p_item;
          __cl_map_del_bal fuel root nil (p_up it) ls
        else
          '(p_uncle, ls) ←
            (if decide (color far = CL_MAP_RED) then Some (p_uncle, ls)
             else
               ls ← set_color (child d un) CL_MAP_BLACK ls;
               ls ← set_color p_uncle CL_MAP_RED ls;
               ls ← __cl_map_rot (opp d) nil p_uncle ls;
               u ← up_links ls p_item;
               Some (child (opp d) u, ls));
          it ← ls !! p_item;
          u ← ls !! p_up it;
          ls ← set_color p_uncle (color u) ls;
          ls ← set_color (p_up it) CL_MAP_BLACK ls;
          un ← ls !! p_uncle;
          ls ← set_color (child (opp d) un) CL_MAP_BLACK ls;
          ls ← __cl_map_rot d nil (p_up it) ls;
          set_color p_item CL_MAP_BLACK ls
  end.

(** ** The list of items ([complib/cl_qlist.h]) *)

Implicit Types li : gmap Z cl_list_item.

(** A new item in front of another. *)
Definition __cl_primitive_insert (p_list_item p_new_item : Z) li : option (gmap Z cl_list_item) :=
  it ← li !! p_list_item;
  li ← upd p_new_item (λ _, ListItem p_list_item (p_prev it)) li;
  li ← upd p_list_item (λ l, l <| p_prev := p_new_item |>) li;
  new ← li !! p_new_item;
  upd (p_prev new) (λ l, l <| p_next := p_new_item |>) li.

Definition __cl_primitive_remove (p_list_item : Z) li : option (gmap Z cl_list_item) :=
  it ← li !! p_list_item;
  li ← upd (p_next it) (λ l, l <| p_prev := p_prev it |>) li;
  it ← li !! p_list_item;
  upd (p_prev it) (λ l, l <| p_next := p_next it |>) li.

(** ** Maps *)

Section Map.
Context {K : Type} (cmp : K → K → Z).
Implicit Types M : cl_mem K.
Implicit Types q : cl_qmap.

Definition map_fuel M : nat := S (size (mem_links M)).

Definition set_links M ls : cl_mem K := M <| mem_links := ls |>.
Definition set_list M li : cl_mem K := M <| mem_list := li |>.

Definition __cl_fmap_root M q : option Z := r ← mem_links M !! q_root q; Some (p_left r).
Definition cl_fmap_head M q : option Z := n ← mem_list M !! q_nil q; Some (p_next n).
Definition cl_fmap_next M (p_item : Z) : option Z := n ← mem_list M !! p_item; Some (p_next n).

Definition cl_fmap_remove_all M q : option (cl_mem K * cl_qmap) :=
  ls ← set_child Lft (q_root q) (q_nil q) (mem_links M);
  li ← upd (q_nil q) (λ _, ListItem (q_nil q) (q_nil q)) (mem_list M);
  Some (set_list (set_links M ls) li, q <| q_count := 0 |>).

(** The two sentinels come into being; [memset] leaves null list links. *)
Definition cl_fmap_init M (root nil : Z) : option (cl_mem K * cl_qmap) :=
  let ls := <[nil := Links nil nil nil CL_MAP_BLACK]>
              (<[root := Links nil nil root CL_MAP_BLACK]> (mem_links M)) in
  let li := <[nil := ListItem 0 0]> (<[root := ListItem 0 0]> (mem_list M)) in
  cl_fmap_remove_all (set_list (set_links M ls) li) (QMap root nil 0).

(** *** Searching *)

(** The loop of [cl_qmap_get] and [cl_fmap_match]; [f] compares the key sought with an
    item's. *)
Fixpoint match_loop (fuel : nat) M (nil : Z) (f : K → Z) (p_item : Z) : option Z :=
  match fuel with
  | O => None
  | S fuel =>
      if p_item =? nil then Some p_item
      else
        k ← mem_key M !! p_item;
        l ← mem_links M !! p_item;
        if f k =? 0 then Some p_item
        else match_loop fuel M nil f (if f k <? 0 then p_left l else p_right l)
  end.

Definition cl_fmap_match M q (f : K → Z) : option Z :=
  r ← __cl_fmap_root M q; match_loop (map_fuel M) M (q_nil q) f r.
Definition cl_fmap_get M q (key : K) : option Z := cl_fmap_match M q (cmp key).

Fixpoint get_next_loop (fuel : nat) M (nil : Z) (key : K) (p_item p_item_found : Z) : option Z :=
  match fuel with
  | O => None
  | S fuel =>
      if p_item =? nil then Some p_item_found
      else
        k ← mem_key M !! p_item;
        l ← mem_links M !! p_item;
        if cmp key k <? 0 then get_next_loop fuel M nil key (p_left l) p_item
        else get_next_loop fuel M nil key (p_right l) p_item_found
  end.

Definition cl_fmap_get_next M q (key : K) : option Z :=
  r ← __cl_fmap_root M q; get_next_loop (map_fuel M) M (q_nil q) key r (q_nil q).

(** The items [cl_qmap_apply_func] calls its function with. *)
Fixpoint apply_loop (fuel : nat) M (nil : Z) (p_item : Z) : option (list Z) :=
  match fuel with
  | O => None
  | S fuel =>
      if p_item =? nil then Some []
      else
        next ← cl_fmap_next M p_item;
        items ← apply_loop fuel M nil next;
        Some (p_item :: items)
  end.

Definition cl_fmap_apply_func M q : option (list Z) :=
  h ← cl_fmap_head M q; apply_loop (map_fuel M) M (q_nil q) h.

(** *** Inserting *)

(** The item with the key, or where it is to be inserted and the last comparison. *)
Fixpoint locate (fuel : nat) M (nil : Z) (key : K) (p_insert_at c p_comp_item : Z)
    : option (Z + Z * Z) :=
  match fuel with
  | O => None
  | S fuel =>
      if p_comp_item =? nil then Some (inr (p_insert_at, c))
      else
        k ← mem_key M !! p_comp_item;
        l ← mem_links M !! p_comp_item;
        let c := cmp key k in
        if c =? 0 then Some (inl p_comp_item)
        else locate fuel M nil key p_comp_item c (if c <? 0 then p_left l else p_right l)
  end.

(** The new item below [p_insert_at]. *)
Definition attach M q (p_insert_at c p_item : Z) : option (cl_mem K) :=
  if p_insert_at =? q_root q then
    ls ← set_child Lft p_insert_at p_item (mem_links M);
    li ← __cl_primitive_insert (q_nil q) p_item (mem_list M);
    Some (set_list (set_links M ls) li)
  else if c <? 0 then
    ls ← set_child Lft p_insert_at p_item (mem_links M);
    li ← __cl_primitive_insert p_insert_at p_item (mem_list M);
    Some (set_list (set_links M ls) li)
  else
    ls ← set_child Rgt p_insert_at p_item (mem_links M);
    next ← cl_fmap_next M p_insert_at;
    li ← __cl_primitive_insert next p_item (mem_list M);
    Some (set_list (set_links M ls) li).

(** The item in the map with the key, memory and the map. *)
Definition cl_fmap_insert M q (key : K) (p_item : Z) : option (Z * cl_mem K * cl_qmap) :=
  let nil := q_nil q in
  ls ← upd p_item (λ l, Links nil nil (p_up l) CL_MAP_RED) (mem_links M);
  let M := (set_links M ls) <| mem_key := <[p_item := key]> (mem_key M) |> in
  root ← __cl_fmap_root M q;
  at_ ← locate (map_fuel M) M nil key (q_root q) 0 root;
  match at_ with
  | inl found => Some (found, M, q)
  | inr (p_insert_at, c) =>
      M ← attach M q p_insert_at c p_item;
      let q := q <| q_count := q_count q + 1 |> in
      ls ← set_up p_item p_insert_at (mem_links M);
      ls ← __cl_map_ins_bal (map_fuel M) nil p_item ls;
      root ← __cl_fmap_root (set_links M ls) q;
      ls ← set_color root CL_MAP_BLACK ls;
      Some (p_item, set_links M ls, q)
  end.

(** *** Removing *)

(** The substitute [p_del_item] in the place of [p_item]. *)
Definition exchange (p_item p_del_item : Z) ls : option (gmap Z cl_map_links) :=
  it ← ls !! p_item;
  ls ← upd p_del_item (λ l, Links (p_left it) (p_right it) (p_up it) (color l)) ls;
  ls ← set_parent_ptr p_item p_del_item ls;
  it ← ls !! p_item;
  ls ← set_up (p_right it) p_del_item ls;
  it ← ls !! p_item;
  ls ← set_up (p_left it) p_del_item ls;
  it ← ls !! p_item;
  set_color p_del_item (color it) ls.

Definition cl_fmap_remove_item M q (p_item : Z) : option (cl_mem K * cl_qmap) :=
  let nil := q_nil q in
  if p_item =? nil then Some (M, q)
  else
    it ← mem_links M !! p_item;
    p_del_item ← (if (p_right it =? nil) || (p_left it =? nil) then Some p_item
                  else cl_fmap_next M p_item);
    li ← __cl_primitive_remove p_item (mem_list M);
    let q := q <| q_count := q_count q - 1 |> in
    let ls := mem_links M in
    del ← ls !! p_del_item;
    let p_child := if negb (p_left del =? nil) then p_left del else p_right del in
    ls ← set_up p_child (p_up del) ls;
    ls ← set_parent_ptr p_del_item p_child ls;
    del ← ls !! p_del_item;
    ls ← (if decide (color del = CL_MAP_RED) then Some ls
          else __cl_map_del_bal (map_fuel M) (q_root q) nil p_child ls);
    ls ← (if p_del_item =? p_item then Some ls else exchange p_item p_del_item ls);
    Some (set_list (set_links M ls) li, q).

(** The item, which is the end of the map if there is none with the key. *)
Definition cl_fmap_remove M q (key : K) : option (Z * cl_mem K * cl_qmap) :=
  p_item ← cl_fmap_get M q key;
  '(M, q) ← cl_fmap_remove_item M q p_item;
  Some (p_item, M, q).

(** *** Two maps *)

(** An item goes from one map to the other. *)
Definition move_item M (from to : cl_qmap) (p_item : Z)
    : option (Z * cl_mem K * cl_qmap * cl_qmap) :=
  '(M, from) ← cl_fmap_remove_item M from p_item;
  key ← mem_key M !! p_item;
  '(got, M, to) ← cl_fmap_insert M to key p_item;
  Some (got, M, from, to).

Fixpoint merge_loop (fuel : nat) M (dest src : cl_qmap) (p_item : Z)
    : option (cl_mem K * cl_qmap * cl_qmap) :=
  match fuel with
  | O => None
  | S fuel =>
      if p_item =? q_nil src then Some (M, dest, src)
      else
        p_next ← cl_fmap_next M p_item;
        '(p_item2, M, src, dest) ← move_item M src dest p_item;
        '(M, src) ←
          (if p_item2 =? p_item then Some (M, src)
           else
             key ← mem_key M !! p_item;
             '(_, M, src) ← cl_fmap_insert M src key p_item;
             Some (M, src));
        merge_loop fuel M dest src p_next
  end.

Definition cl_fmap_merge M (dest src : cl_qmap) : option (cl_mem K * cl_qmap * cl_qmap) :=
  h ← cl_fmap_head M src; merge_loop (map_fuel M) M dest src h.

(** [__cl_qmap_delta_move]: the item goes, and the next one of its map is given. *)
Definition delta_move M (dest src : cl_qmap) (p_item : Z)
    : option (Z * cl_mem K * cl_qmap * cl_qmap) :=
  p_next ← cl_fmap_next M p_item;
  '(_, M, src, dest) ← move_item M src dest p_item;
  Some (p_next, M, dest, src).

(** The four maps of [cl_qmap_delta]. *)
Record delta_maps := DeltaMaps { d_map1 : cl_qmap; d_map2 : cl_qmap; d_new : cl_qmap; d_old : cl_qmap }.

(** The items that are left in one map go to another. *)
Fixpoint rest_loop (fuel : nat) M (dest src : cl_qmap) (p_item : Z)
    : option (cl_mem K * cl_qmap * cl_qmap) :=
  match fuel with
  | O => None
  | S fuel =>
      if p_item =? q_nil src then Some (M, dest, src)
      else
        '(p_next, M, dest, src) ← delta_move M dest src p_item;
        rest_loop fuel M dest src p_next
  end.

Fixpoint delta_loop (fuel : nat) M (D : delta_maps) (p_item1 p_item2 : Z)
    : option (cl_mem K * delta_maps) :=
  match fuel with
  | O => None
  | S fuel =>
      if (p_item1 =? q_nil (d_map1 D)) || (p_item2 =? q_nil (d_map2 D)) then
        '(M, new, map2) ← rest_loop fuel M (d_new D) (d_map2 D) p_item2;
        '(M, old, map1) ← rest_loop fuel M (d_old D) (d_map1 D) p_item1;
        Some (M, DeltaMaps map1 map2 new old)
      else
        key1 ← mem_key M !! p_item1;
        key2 ← mem_key M !! p_item2;
        if cmp key1 key2 <? 0 then
          '(p_item1, M, old, map1) ← delta_move M (d_old D) (d_map1 D) p_item1;
          delta_loop fuel M (DeltaMaps map1 (d_map2 D) (d_new D) old) p_item1 p_item2
        else if 0 <? cmp key1 key2 then
          '(p_item2, M, new, map2) ← delta_move M (d_new D) (d_map2 D) p_item2;
          delta_loop fuel M (DeltaMaps (d_map1 D) map2 new (d_old D)) p_item1 p_item2
        else
          p_item1 ← cl_fmap_next M p_item1;
          p_item2 ← cl_fmap_next M p_item2;
          delta_loop fuel M D p_item1 p_item2
  end.

Definition cl_fmap_delta M (map1 map2 new old : cl_qmap) : option (cl_mem K * delta_maps) :=
  p_item1 ← cl_fmap_head M map1;
  p_item2 ← cl_fmap_head M map2;
  delta_loop (map_fuel M + map_fuel M) M (DeltaMaps map1 map2 new old) p_item1 p_item2.
End Map.
