(* ===== verification/QMapRep.v ===== *)
(** * Balanced maps: the tree in the links

    A [tree] is what the links of a map's items mean; a [zip] is the way from the root
    to one of its subtrees.  [rep] says that the links hold a tree with such a place in
    it, so that following a link is a step of the zipper and leaves [rep] as it is.
    A rotation, a change of colour and a change of the parent's link are each shown to
    give the [rep] one expects. *)

From S2P Require Import Prelude QMap.

Open Scope Z_scope.

Inductive tree := E | T (c : cl_map_color_t) (l : tree) (a : Z) (r : tree).

(** A tree whose subtree on the side [d] is [x]. *)
Definition mk (d : side) c x a y : tree := match d with Lft => T c x a y | Rgt => T c y a x end.

(** A node on the way: the side the way goes, and the other subtree. *)
Record frame := Frame { f_side : side; f_color : cl_map_color_t; f_item : Z; f_sib : tree }.

Fixpoint plug (z : list frame) (t : tree) : tree :=
  match z with
  | [] => t
  | Frame d c a s :: z => plug z (mk d c t a s)
  end.

(** The items of a tree in their order, those before and after a place in it, and those
    outside the subtree there. *)
Fixpoint inorder (t : tree) : list Z :=
  match t with E => [] | T _ l a r => inorder l ++ a :: inorder r end.

Fixpoint before (z : list frame) : list Z :=
  match z with
  | [] => []
  | Frame Lft _ _ _ :: z => before z
  | Frame Rgt _ a s :: z => before z ++ inorder s ++ [a]
  end.

Fixpoint after (z : list frame) : list Z :=
  match z with
  | [] => []
  | Frame Lft _ a s :: z => a :: inorder s ++ after z
  | Frame Rgt _ _ _ :: z => after z
  end.

Fixpoint rest (z : list frame) : list Z :=
  match z with [] => [] | Frame _ _ a s :: z => a :: inorder s ++ rest z end.

Lemma inorder_plug z t : inorder (plug z t) = before z ++ inorder t ++ after z.
Proof.
  revert t. induction z as [|[[] c a s] z IH]; intros t; simpl; rewrite ?app_nil_r; [done|..];
    rewrite IH; simpl; by rewrite <- ?app_assoc.
Qed.

Lemma inorder_mk d c x a y : inorder (mk d c x a y) ≡ₚ a :: inorder x ++ inorder y.
Proof. destruct d; simpl; [by rewrite <- Permutation_middle|]. rewrite <- Permutation_middle. by rewrite Permutation_app_comm. Qed.

Lemma rest_perm z : rest z ≡ₚ before z ++ after z.
Proof.
  induction z as [|[[] c a s] z IH]; simpl; [done|..]; rewrite IH.
  - rewrite <- Permutation_middle. f_equiv. rewrite !app_assoc. f_equiv. apply Permutation_app_comm.
  - rewrite <- !app_assoc. simpl. rewrite <- Permutation_middle. rewrite <- Permutation_middle.
    f_equiv. rewrite !app_assoc. f_equiv. apply Permutation_app_comm.
Qed.

Lemma inorder_plug_perm z t : inorder (plug z t) ≡ₚ inorder t ++ rest z.
Proof.
  rewrite inorder_plug, rest_perm. rewrite !app_assoc. f_equiv. apply Permutation_app_comm.
Qed.

Definition tree_color (t : tree) : cl_map_color_t :=
  match t with E => CL_MAP_BLACK | T c _ _ _ => c end.

Lemma mk_T d c x a y : ∃ l r, mk d c x a y = T c l a r.
Proof. destruct d; by eexists _, _. Qed.

Lemma T_mk d c l a r : ∃ x y, T c l a r = mk d c x a y.
Proof. destruct d; [by exists l, r|by exists r, l]. Qed.

(** ** The links of a tree *)

Definition links_of (d : side) (x y u : Z) (c : cl_map_color_t) : cl_map_links :=
  match d with Lft => Links x y u c | Rgt => Links y x u c end.

Lemma links_of_child d x y u c : child d (links_of d x y u c) = x ∧ child (opp d) (links_of d x y u c) = y.
Proof. by destruct d. Qed.
Lemma links_of_up d x y u c : p_up (links_of d x y u c) = u.
Proof. by destruct d. Qed.
Lemma links_of_color d x y u c : color (links_of d x y u c) = c.
Proof. by destruct d. Qed.
Lemma links_of_set_up d x y u c v : (links_of d x y u c) <| p_up := v |> = links_of d x y v c.
Proof. by destruct d. Qed.
Lemma links_of_set_color d x y u c c' : (links_of d x y u c) <| color := c' |> = links_of d x y u c'.
Proof. by destruct d. Qed.
Lemma links_of_set_child d x y u c v : with_child d v (links_of d x y u c) = links_of d v y u c.
Proof. by destruct d. Qed.
Lemma links_of_set_opp d x y u c v : with_child (opp d) v (links_of d x y u c) = links_of d x v u c.
Proof. by destruct d. Qed.
Lemma links_of_opp d x y u c : links_of (opp d) x y u c = links_of d y x u c.
Proof. by destruct d. Qed.
Lemma mk_opp d c x a y : mk (opp d) c x a y = mk d c y a x.
Proof. by destruct d. Qed.
Lemma opp_opp d : opp (opp d) = d.
Proof. by destruct d. Qed.

(** A map has the sentinels [root] and [nil] and the items [S], in links that outside
    the map are those of [ls0]. *)
Section Defs.
Variables (root nil : Z) (S : list Z) (ls0 : gmap Z cl_map_links).
Implicit Types ls : gmap Z cl_map_links.

(** The pointer to a tree. *)
Definition ptr (t : tree) : Z := match t with E => nil | T _ _ a _ => a end.
Definition up_of (z : list frame) : Z := match z with [] => root | Frame _ _ a _ :: _ => a end.

Fixpoint tree_at ls (u : Z) (t : tree) : Prop :=
  match t with
  | E => True
  | T c l a r => ls !! a = Some (Links (ptr l) (ptr r) u c) ∧ tree_at ls a l ∧ tree_at ls a r
  end.

Fixpoint ctx_at ls (z : list frame) (p : Z) : Prop :=
  match z with
  | [] => ls !! root = Some (Links p nil root CL_MAP_BLACK)
  | Frame d c a s :: z =>
      ls !! a = Some (links_of d p (ptr s) (up_of z) c) ∧ tree_at ls a s ∧ ctx_at ls z a
  end.

Record rep ls (t : tree) (z : list frame) : Prop := {
  rep_items : inorder t ++ rest z ≡ₚ S;
  rep_tree : tree_at ls (up_of z) t;
  rep_ctx : ctx_at ls z (ptr t);
  rep_frame : ∀ x, x ≠ root → x ∉ S → ls !! x = ls0 !! x
}.

(** The sentinels are no items, and the links of [nil] do not change, except where an
    item is removed. *)
Class EnvOk (nil_links : cl_map_links) : Prop := {
  items_fresh : NoDup (root :: nil :: S);
  nil_at : ls0 !! nil = Some nil_links;
  nil_black : color nil_links = CL_MAP_BLACK
}.

(** The links of the place itself; those of nil say what was stored there last. *)
Definition place_ok ls (t : tree) (z : list frame) : Prop :=
  ∃ l, ls !! ptr t = Some l ∧ p_up l = up_of z ∧ color l = tree_color t.

(** Which side a place is on; its brother is another item. *)
Definition brother_ne (t : tree) (z : list frame) : Prop :=
  match z with [] => True | Frame _ _ _ s :: _ => ptr t ≠ ptr s end.
End Defs.

Definition side_at (z : list frame) : side := match z with [] => Lft | Frame d _ _ _ :: _ => d end.

Section Rep.
Context {root nil : Z} {S : list Z} {ls0 : gmap Z cl_map_links} {nil_links : cl_map_links}.
Context {OK : EnvOk root nil S ls0 nil_links}.
Implicit Types ls : gmap Z cl_map_links.

Local Lemma env_fresh : NoDup (root :: nil :: S).
Proof. exact (items_fresh _ _ _ _). Qed.

Lemma ptr_mk d c x a y : ptr nil (mk d c x a y) = a.
Proof. by destruct d. Qed.

Lemma tree_at_mk ls u d c x a y :
  tree_at nil ls u (mk d c x a y) ↔
  ls !! a = Some (links_of d (ptr nil x) (ptr nil y) u c) ∧ tree_at nil ls a x ∧ tree_at nil ls a y.
Proof. destruct d; simpl; naive_solver. Qed.

Lemma tree_at_ext ls ls' u t :
  (∀ a, a ∈ inorder t → ls' !! a = ls !! a) → tree_at nil ls u t → tree_at nil ls' u t.
Proof.
  clear OK. revert u. induction t as [|c l IHl a r IHr]; simpl; intros u H; [done|].
  intros (H1 & H2 & H3). rewrite H by set_solver. split_and!; [done|apply IHl|apply IHr]; set_solver.
Qed.

Lemma ctx_at_ext ls ls' z p :
  (∀ a, a = root ∨ a ∈ rest z → ls' !! a = ls !! a) → ctx_at root nil ls z p → ctx_at root nil ls' z p.
Proof.
  clear OK. revert p. induction z as [|[d c a s] z IH]; simpl; intros p H; [by rewrite H by auto|].
  intros (H1 & H2 & H3). rewrite H by set_solver. split_and!; [done| |].
  - eapply tree_at_ext; [|exact H2]. set_solver.
  - apply IH; [|done]. set_solver.
Qed.

(** Moving the place. *)
Lemma items_up t d c a s z :
  inorder t ++ rest (Frame d c a s :: z) ≡ₚ inorder (mk d c t a s) ++ rest z.
Proof. rewrite inorder_mk. simpl. rewrite <- app_assoc. symmetry. apply Permutation_middle. Qed.

Lemma rep_up ls t d c a s z : rep root nil S ls0 ls t (Frame d c a s :: z) ↔ rep root nil S ls0 ls (mk d c t a s) z.
Proof.
  split; intros [H1 H2 H3 H4]; split; rewrite ?ptr_mk in *; rewrite ?tree_at_mk in *;
    rewrite ?items_up in *; simpl in *; tauto.
Qed.

Lemma rep_plug ls t z : rep root nil S ls0 ls t z ↔ rep root nil S ls0 ls (plug z t) [].
Proof. revert t. induction z as [|[d c a s] z IH]; intros t; simpl; [done|]. by rewrite rep_up. Qed.

(** ** Freshness *)

Lemma rep_fresh ls t z : rep root nil S ls0 ls t z →
  root ≠ nil ∧ root ∉ inorder t ∧ root ∉ rest z ∧ nil ∉ inorder t ∧ nil ∉ rest z ∧
  NoDup (inorder t) ∧ NoDup (rest z) ∧ ∀ a, a ∈ inorder t → a ∉ rest z.
Proof.
  intros [H _ _ _]. pose proof env_fresh as F. rewrite <- H, !NoDup_cons, NoDup_app in F.
  set_solver.
Qed.

Lemma rep_nil ls t z : rep root nil S ls0 ls t z → ls !! nil = Some nil_links.
Proof. intros [_ _ _ H]. rewrite H, (nil_at _ _ _ _); [done|..]; pose proof env_fresh as F; rewrite !NoDup_cons in F; set_solver. Qed.

Lemma ptr_in t : t ≠ E → ptr nil t ∈ inorder t.
Proof. destruct t; simpl; [done|set_solver]. Qed.

Lemma ptr_nil ls t z : rep root nil S ls0 ls t z → ptr nil t = nil ↔ t = E.
Proof.
  intros H. split; [|by intros ->]. destruct t as [|c l a r]; [done|]. simpl. intros ->.
  apply rep_fresh in H. set_solver.
Qed.

Lemma up_of_in z : up_of root z = root ∨ up_of root z ∈ rest z.
Proof. destruct z as [|[d c a s] z]; simpl; set_solver. Qed.

Lemma place_T ls c l a r z : rep root nil S ls0 ls (T c l a r) z → place_ok root nil ls (T c l a r) z.
Proof. intros [_ (H & _) _ _]. by eexists. Qed.

Lemma place_mk ls d c x a y z : rep root nil S ls0 ls (mk d c x a y) z → place_ok root nil ls (mk d c x a y) z.
Proof. destruct d; apply place_T. Qed.

Lemma mk_ne d c x a y : mk d c x a y ≠ E.
Proof. by destruct d. Qed.

Lemma place_E ls z : rep root nil S ls0 ls E z → p_up nil_links = up_of root z → place_ok root nil ls E z.
Proof. intros H1 H2. exists nil_links. simpl. rewrite (rep_nil _ _ _ H1). split_and!; [done..|].
  exact (nil_black _ _ _ _). Qed.

(** ** The link of the parent *)

Lemma upd_Some {A} (a : Z) (f : A → A) m x : m !! a = Some x → upd a f m = Some (<[a := f x]> m).
Proof. intros H. unfold upd. by rewrite H. Qed.

Lemma set_up_Some a v ls l : ls !! a = Some l → set_up a v ls = Some (<[a := l <| p_up := v |>]> ls).
Proof. apply upd_Some. Qed.
Lemma set_child_Some d a v ls l : ls !! a = Some l → set_child d a v ls = Some (<[a := with_child d v l]> ls).
Proof. apply upd_Some. Qed.
Lemma set_color_Some a c ls l : ls !! a = Some l → set_color a c ls = Some (<[a := l <| color := c |>]> ls).
Proof. apply upd_Some. Qed.

Lemma brother_ne_rep ls t z : rep root nil S ls0 ls t z → t ≠ E → brother_ne nil t z.
Proof.
  intros H Ht. destruct z as [|[d c a s] z]; simpl; [done|]. apply ptr_in in Ht.
  pose proof (rep_fresh _ _ _ H) as F. simpl in F. intros E'. rewrite E' in Ht.
  destruct s as [|c' l b r]; simpl in *; set_solver.
Qed.

Lemma side_of_ctx ls z a l : ctx_at root nil ls z a → ls !! a = Some l → p_up l = up_of root z →
  match z with [] => True | Frame _ _ _ s :: _ => a ≠ ptr nil s end → side_of ls a = Some (side_at z).
Proof.
  clear OK. intros H H1 H2 Hb. unfold side_of, __cl_map_is_left_child. rewrite H1.
  cbn [mbind option_bind]. rewrite H2. destruct z as [|[d c b s] z]; simpl in *.
  - rewrite H. simpl. by rewrite Z.eqb_refl.
  - destruct H as (-> & _). simpl. destruct d; simpl.
    + by rewrite Z.eqb_refl.
    + by rewrite (proj2 (Z.eqb_neq _ _)) by congruence.
Qed.

Lemma side_of_ok ls t z : rep root nil S ls0 ls t z → place_ok root nil ls t z → brother_ne nil t z →
  side_of ls (ptr nil t) = Some (side_at z).
Proof. intros [_ _ H _] (l & H1 & H2 & _) Hb. by eapply side_of_ctx. Qed.

(** The parent's link is set to [v]: the parent alone changes. *)
Lemma set_child_ctx ls z p v : ctx_at root nil ls z p → NoDup (root :: rest z) →
  ∃ l, set_child (side_at z) (up_of root z) v ls = Some (<[up_of root z := l]> ls) ∧
    ctx_at root nil (<[up_of root z := l]> ls) z v.
Proof.
  clear OK. intros H F. apply NoDup_cons in F as [F1 F]. destruct z as [|[d c a s] z]; simpl in *.
  - eexists. unfold set_child. rewrite (upd_Some _ _ _ _ H). split; [done|]. by rewrite lookup_insert_eq.
  - destruct H as (Ha & Hs & Hz). eexists. rewrite (set_child_Some _ _ _ _ _ Ha).
    split; [done|]. rewrite links_of_set_child, lookup_insert_eq. apply NoDup_cons in F as [F _]. split_and!; [done| |].
    + eapply tree_at_ext; [|exact Hs]. intros x Hx. rewrite lookup_insert_ne; [done|set_solver].
    + eapply ctx_at_ext; [|exact Hz]. intros x Hx. rewrite lookup_insert_ne; [done|set_solver].
Qed.

Lemma rep_rest_fresh ls t z : rep root nil S ls0 ls t z → NoDup (root :: rest z).
Proof. intros H. apply rep_fresh in H. apply NoDup_cons. tauto. Qed.

Lemma set_child_ok ls t z v : rep root nil S ls0 ls t z →
  ∃ l, set_child (side_at z) (up_of root z) v ls = Some (<[up_of root z := l]> ls) ∧
    ctx_at root nil (<[up_of root z := l]> ls) z v.
Proof. intros H. eapply set_child_ctx; [apply H|by eapply rep_rest_fresh]. Qed.

Lemma set_parent_ptr_ctx ls z a l v : ctx_at root nil ls z a → NoDup (root :: rest z) →
  ls !! a = Some l → p_up l = up_of root z →
  match z with [] => True | Frame _ _ _ s :: _ => a ≠ ptr nil s end →
  ∃ l', set_parent_ptr a v ls = Some (<[up_of root z := l']> ls) ∧
    ctx_at root nil (<[up_of root z := l']> ls) z v.
Proof.
  clear OK. intros H F H1 H2 Hb. unfold set_parent_ptr. rewrite H1, (side_of_ctx _ _ _ _ H H1 H2 Hb).
  cbn [mbind option_bind]. rewrite H2. by eapply set_child_ctx.
Qed.

Lemma set_parent_ptr_ok ls t z v : rep root nil S ls0 ls t z → place_ok root nil ls t z → brother_ne nil t z →
  ∃ l, set_parent_ptr (ptr nil t) v ls = Some (<[up_of root z := l]> ls) ∧ ctx_at root nil (<[up_of root z := l]> ls) z v.
Proof.
  intros H (l & H1 & H2 & _) Hb. eapply set_parent_ptr_ctx; [apply H|by eapply rep_rest_fresh|done..].
Qed.

(** Writing to an item keeps the links outside. *)
Lemma rep_frame_insert ls t z a l : rep root nil S ls0 ls t z → a = root ∨ a ∈ inorder t ∨ a ∈ rest z →
  ∀ x, x ≠ root → x ∉ S → <[a := l]> ls !! x = ls0 !! x.
Proof.
  intros [H1 _ _ H2] Ha x Hx Hs. rewrite <- H1 in Hs. rewrite lookup_insert_ne; [|set_solver].
  apply H2; [done|by rewrite <- H1].
Qed.

Lemma set_color_ok ls c l a r z c' : rep root nil S ls0 ls (T c l a r) z →
  ∃ ls', set_color a c' ls = Some ls' ∧ rep root nil S ls0 ls' (T c' l a r) z.
Proof.
  intros H. pose proof (rep_fresh _ _ _ H) as F. pose proof H as [H1 (Ha & Hl & Hr) H3 H4].
  rewrite (set_color_Some _ _ _ _ Ha). eexists. split; [done|].
  simpl in F. rewrite NoDup_app, NoDup_cons in F. split.
  - done.
  - simpl. rewrite lookup_insert_eq. split_and!; [done| |];
      (eapply tree_at_ext; [|done]; intros x Hx; rewrite lookup_insert_ne; [done|set_solver]).
  - eapply ctx_at_ext; [|exact H3]. intros x Hx. rewrite lookup_insert_ne; [done|set_solver].
  - eapply rep_frame_insert; [exact H|set_solver].
Qed.

(** ** Rotations *)

(** The parent of a subtree changes unless it is [nil]. *)
Lemma reparent_ok ls u t v : tree_at nil ls u t → NoDup (inorder t) → nil ∉ inorder t →
  ∃ ls', (if ptr nil t =? nil then Some ls else set_up (ptr nil t) v ls) = Some ls' ∧ tree_at nil ls' v t ∧
    ∀ x, x ∉ inorder t → ls' !! x = ls !! x.
Proof.
  intros H Hnd Hnil. destruct t as [|c l a r]; simpl in *.
  - exists ls. by rewrite Z.eqb_refl.
  - rewrite (proj2 (Z.eqb_neq _ _)) by set_solver. destruct H as (Ha & Hl & Hr).
    rewrite (set_up_Some _ _ _ _ Ha). eexists. split; [done|].
    rewrite NoDup_app, NoDup_cons in Hnd. split.
    + rewrite lookup_insert_eq. split_and!; [done| |];
        (eapply tree_at_ext; [|done]; intros x Hx; rewrite lookup_insert_ne; [done|set_solver]).
    + intros x Hx. rewrite lookup_insert_ne; [done|set_solver].
Qed.

Ltac tree_step :=
  eapply tree_at_ext; [|done]; intros; rewrite ?lookup_insert_ne by set_solver; done.

Lemma rot_ok ls d cp x p cc y c w z :
  rep root nil S ls0 ls (mk d cp x p (mk d cc y c w)) z →
  ∃ ls', __cl_map_rot d nil p ls = Some ls' ∧ rep root nil S ls0 ls' (mk d cc (mk d cp x p y) c w) z.
Proof.
  intros H. set (t := mk d cp x p (mk d cc y c w)) in *.
  assert (Hperm : inorder t ≡ₚ p :: c :: inorder x ++ inorder y ++ inorder w).
  { unfold t. rewrite !inorder_mk. by rewrite <- Permutation_middle. }
  pose proof (rep_fresh _ _ _ H) as (F1 & F2 & F3 & F4 & F5 & F6 & F7 & F8).
  rewrite Hperm in F2, F4, F6. setoid_rewrite Hperm in F8.
  rewrite !NoDup_cons, !NoDup_app in F6.
  pose proof H as [H1 H2 H3 H4]. unfold t in H2. rewrite !tree_at_mk, ptr_mk in H2.
  destruct H2 as (Hp & Hx & Hc & Hy & Hw).
  destruct (set_parent_ptr_ok _ _ _ c H) as (l & E1 & Hz);
    [by apply place_mk|apply (brother_ne_rep _ _ _ H), mk_ne|].
  unfold t in E1. rewrite ptr_mk in E1. unfold __cl_map_rot. rewrite Hp. cbn [mbind option_bind].
  destruct (links_of_child d (ptr nil x) c (up_of root z) cp) as [_ ->]. rewrite E1.
  cbn [mbind option_bind]. rewrite links_of_up. set (up := up_of root z) in *.
  assert (Hup : up ≠ p ∧ up ≠ c ∧ up ∉ inorder x ∧ up ∉ inorder y ∧ up ∉ inorder w).
  { destruct (up_of_in z) as [Hu|Hu]; fold up in Hu; [rewrite Hu; set_solver|].
    split_and!; intros ?; eapply F8; try exact Hu; set_solver. }
  set (ls1 := <[up := l]> ls) in *.
  assert (L1 : ∀ v, v ≠ up → ls1 !! v = ls !! v) by (intros v Hv; unfold ls1; by rewrite lookup_insert_ne).
  assert (Hc1 : ls1 !! c = Some (links_of d (ptr nil y) (ptr nil w) p cc)) by (rewrite L1; [done|set_solver]).
  rewrite (set_up_Some _ _ _ _ Hc1). cbn [mbind option_bind]. rewrite links_of_set_up.
  rewrite lookup_insert_eq. cbn [mbind option_bind]. rewrite (proj1 (links_of_child _ _ _ _ _)).
  set (ls2 := <[c := _]> ls1).
  assert (Hp2 : ls2 !! p = Some (links_of d (ptr nil x) c up cp)).
  { unfold ls2. rewrite lookup_insert_ne, L1; [done|set_solver..]. }
  rewrite (set_child_Some _ _ _ _ _ Hp2). cbn [mbind option_bind]. rewrite links_of_set_opp.
  set (ls3 := <[p := _]> ls2).
  assert (L3 : ∀ v, v ≠ p → v ≠ c → v ≠ up → ls3 !! v = ls !! v).
  { intros v Hv1 Hv2 Hv3. unfold ls3, ls2. rewrite !lookup_insert_ne by done. by apply L1. }
  destruct (reparent_ok ls3 c y p) as (ls4 & E4 & Hy4 & L4); [|tauto|set_solver|].
  { eapply tree_at_ext; [|exact Hy]. intros v Hv. apply L3; set_solver. }
  rewrite E4. cbn [mbind option_bind].
  assert (Hc4 : ls4 !! c = Some (links_of d (ptr nil y) (ptr nil w) up cc)).
  { rewrite L4 by set_solver. unfold ls3, ls2. rewrite lookup_insert_ne by set_solver. apply lookup_insert_eq. }
  rewrite (set_child_Some _ _ _ _ _ Hc4). cbn [mbind option_bind]. rewrite links_of_set_child.
  set (ls5 := <[c := _]> ls4).
  assert (Hp5 : ls5 !! p = Some (links_of d (ptr nil x) (ptr nil y) up cp)).
  { unfold ls5. rewrite lookup_insert_ne, L4 by set_solver. apply lookup_insert_eq. }
  rewrite (set_up_Some _ _ _ _ Hp5). rewrite links_of_set_up. eexists. split; [done|].
  set (ls6 := <[p := _]> ls5).
  assert (L6 : ∀ v, v ≠ p → v ≠ c → ls6 !! v = ls4 !! v).
  { intros v Hv1 Hv2. unfold ls6, ls5. by rewrite !lookup_insert_ne by done. }
  assert (L6' : ∀ v, v ≠ p → v ≠ c → v ∉ inorder y → ls6 !! v = ls1 !! v).
  { intros v Hv1 Hv2 Hv3. rewrite L6, L4 by done. unfold ls3, ls2. by rewrite !lookup_insert_ne by done. }
  split.
  - rewrite <- H1. f_equiv. rewrite Hperm, !inorder_mk. simpl. rewrite <- !app_assoc. apply Permutation_swap.
  - rewrite !tree_at_mk, ptr_mk. fold up. split_and!.
    + unfold ls6, ls5. rewrite lookup_insert_ne by set_solver. apply lookup_insert_eq.
    + apply lookup_insert_eq.
    + eapply tree_at_ext; [|exact Hx]. intros v Hv. rewrite L6' by set_solver. apply L1. set_solver.
    + eapply tree_at_ext; [|exact Hy4]. intros v Hv. apply L6; set_solver.
    + eapply tree_at_ext; [|exact Hw]. intros v Hv. rewrite L6' by set_solver. apply L1. set_solver.
  - rewrite ptr_mk. eapply ctx_at_ext; [|exact Hz]. intros v Hv. apply L6'; [set_solver..|].
    intros Hvy. destruct Hv as [->|Hv]; [set_solver|]. eapply F8; [|exact Hv]. set_solver.
  - intros v Hv1 Hv2. rewrite <- H1, Hperm in Hv2. rewrite L6' by set_solver. rewrite L1.
    + apply H4; [done|]. by rewrite <- H1, Hperm.
    + destruct (up_of_in z) as [Hu|Hu]; fold up in Hu; set_solver.
Qed.

(** ** Reading links *)

Lemma rep_at ls d c x a y z : rep root nil S ls0 ls (mk d c x a y) z →
  ls !! a = Some (links_of d (ptr nil x) (ptr nil y) (up_of root z) c).
Proof. intros [_ H _ _]. rewrite tree_at_mk in H. tauto. Qed.

Lemma rep_parent ls t d c a s z : rep root nil S ls0 ls t (Frame d c a s :: z) →
  ls !! a = Some (links_of d (ptr nil t) (ptr nil s) (up_of root z) c).
Proof. intros [_ _ H _]. simpl in H. tauto. Qed.

(** The links of any subtree have its colour. *)
Lemma rep_links ls t z : rep root nil S ls0 ls t z →
  ∃ l, ls !! ptr nil t = Some l ∧ color l = tree_color t.
Proof.
  intros H. destruct t as [|c l a r].
  - exists nil_links. split; [by eapply rep_nil|exact (nil_black _ _ _ _)].
  - destruct (place_T _ _ _ _ _ _ H) as (li & H1 & _ & H2). by exists li.
Qed.

(** The other subtree as the place. *)
Lemma rep_across ls t d c a s z : rep root nil S ls0 ls t (Frame d c a s :: z) ↔
  rep root nil S ls0 ls s (Frame (opp d) c a t :: z).
Proof. by rewrite !rep_up, mk_opp. Qed.

Lemma set_color_mk ls d c x a y z c' : rep root nil S ls0 ls (mk d c x a y) z →
  ∃ ls', set_color a c' ls = Some ls' ∧ rep root nil S ls0 ls' (mk d c' x a y) z.
Proof. destruct d; apply set_color_ok. Qed.

Lemma side_of_mk ls d c x a y z : rep root nil S ls0 ls (mk d c x a y) z → side_of ls a = Some (side_at z).
Proof.
  intros H. rewrite <- (ptr_mk d c x a y). apply side_of_ok; [done|by apply place_mk|].
  by apply (brother_ne_rep _ _ _ H), mk_ne.
Qed.

(** One way of the equivalences above. *)
Lemma rep_pop ls t d c a s z : rep root nil S ls0 ls t (Frame d c a s :: z) →
  rep root nil S ls0 ls (mk d c t a s) z.
Proof. apply rep_up. Qed.
Lemma rep_push ls t d c a s z : rep root nil S ls0 ls (mk d c t a s) z →
  rep root nil S ls0 ls t (Frame d c a s :: z).
Proof. apply rep_up. Qed.
Lemma rep_to_brother ls t d c a s z : rep root nil S ls0 ls t (Frame d c a s :: z) →
  rep root nil S ls0 ls s (Frame (opp d) c a t :: z).
Proof. apply rep_across. Qed.
Lemma rep_from_brother ls t d c a s z : rep root nil S ls0 ls s (Frame (opp d) c a t :: z) →
  rep root nil S ls0 ls t (Frame d c a s :: z).
Proof. apply rep_across. Qed.
Lemma rep_whole ls t z : rep root nil S ls0 ls t z → rep root nil S ls0 ls (plug z t) [].
Proof. apply rep_plug. Qed.
End Rep.
