(* ===== verification/QMapIns.v ===== *)
(** * Balanced maps: balancing after an insertion

    [rb c n t] says that [t] is a red-black tree of colour [c] and black height [n],
    [rbz c n z] that a place takes such a tree.  The loop starts at a red item whose
    parent may be red too, and ends with a red-black tree of the same items in the
    same order. *)

From S2P Require Import Prelude QMap QMapRep.

Open Scope Z_scope.

Abbreviation RED := CL_MAP_RED (only parsing).
Abbreviation BLACK := CL_MAP_BLACK (only parsing).

(** ** Red-black trees *)

Inductive rb : cl_map_color_t → nat → tree → Prop :=
  | rb_E : rb BLACK 0 E
  | rb_R l a r n : rb BLACK n l → rb BLACK n r → rb RED n (T RED l a r)
  | rb_B cl cr l a r n : rb cl n l → rb cr n r → rb BLACK (S n) (T BLACK l a r).

Inductive rbz : cl_map_color_t → nat → list frame → Prop :=
  | rbz_nil n : rbz BLACK n []
  | rbz_R d a s n z : rb BLACK n s → rbz RED n z → rbz BLACK n (Frame d RED a s :: z)
  | rbz_B c c' d a s n z : rb c' n s → rbz BLACK (S n) z → rbz c n (Frame d BLACK a s :: z).

#[export] Hint Constructors rb rbz : core.

Lemma rb_mk_R d x a y n : rb BLACK n x → rb BLACK n y → rb RED n (mk d RED x a y).
Proof. destruct d; simpl; auto. Qed.
Lemma rb_mk_B d c c' x a y n : rb c n x → rb c' n y → rb BLACK (S n) (mk d BLACK x a y).
Proof. destruct d; simpl; eauto. Qed.
#[export] Hint Resolve rb_mk_R rb_mk_B : core.

Lemma rb_color c n t : rb c n t → tree_color t = c.
Proof. by destruct 1. Qed.

Lemma rb_mk_inv d c c' x a y n : rb c n (mk d c' x a y) →
  c = c' ∧ match c with
    | CL_MAP_RED => rb BLACK n x ∧ rb BLACK n y
    | CL_MAP_BLACK => ∃ m cx cy, n = S m ∧ rb cx m x ∧ rb cy m y
    end.
Proof. destruct d; simpl; intros H; inversion H; subst; split_and!; eauto 8. Qed.

Lemma rb_plug c n z t : rbz c n z → rb c n t → ∃ m, rb BLACK m (plug z t).
Proof. intros H. revert t. induction H; intros t Ht; simpl; eauto. Qed.

Lemma rb_unplug m z t : rb BLACK m (plug z t) → ∃ c n, rb c n t ∧ rbz c n z.
Proof.
  revert t. induction z as [|[d c a s] z IH]; intros t H; simpl in *; [by eauto|].
  destruct (IH _ H) as (c' & n & H1 & H2). apply rb_mk_inv in H1 as [-> H1]. destruct c.
  - destruct H1. eauto.
  - destruct H1 as (n' & cx & cy & -> & H3 & H4). eauto.
Qed.

Lemma inorder_mk_eq d c c' x x' a y y' :
  inorder x = inorder x' → inorder y = inorder y' → inorder (mk d c x a y) = inorder (mk d c' x' a y').
Proof. destruct d; simpl; congruence. Qed.

Lemma inorder_rot d c1 c2 c3 c4 x p y c w :
  inorder (mk d c1 x p (mk d c2 y c w)) = inorder (mk d c3 (mk d c4 x p y) c w).
Proof. destruct d; simpl; by rewrite <- app_assoc. Qed.

Lemma inorder_up d c1 c2 c3 c4 t p s g s2 :
  inorder (mk d c1 (mk d c2 t p s) g s2) = inorder (mk d c3 t p (mk d c4 s g s2)).
Proof. destruct d; simpl; by rewrite <- app_assoc. Qed.

Lemma inorder_plug_eq z t t' : inorder t = inorder t' → inorder (plug z t) = inorder (plug z t').
Proof. intros H. by rewrite !inorder_plug, H. Qed.

Section Ins.
Context {root nil : Z} {S : list Z} {ls0 : gmap Z cl_map_links} {nil_links : cl_map_links}.
Context {OK : EnvOk root nil S ls0 nil_links}.
Implicit Types ls : gmap Z cl_map_links.
Local Notation rep := (rep root nil S ls0).

(** The loop stops below a black parent. *)
Lemma ins_bal_stop fuel ls c l a r z : rep ls (T c l a r) z →
  match z with Frame _ CL_MAP_RED _ _ :: _ => False | _ => True end →
  __cl_map_ins_bal (Datatypes.S fuel) nil a ls = Some ls.
Proof.
  intros H Hz. cbn [__cl_map_ins_bal]. destruct (place_T _ _ _ _ _ _ H) as (it & H1 & H2 & _).
  simpl in H1. rewrite H1. cbn [mbind option_bind]. rewrite H2. pose proof H as [_ _ H3 _].
  destruct z as [|[d [] p s] z]; simpl in *; [by rewrite H3|done|].
  destruct H3 as (-> & _). cbn [mbind option_bind]. by rewrite links_of_color.
Qed.

(** The last rotation, when the item and its parent are on one side. *)
Lemma ins_bal_straight ls d l a r p s g s2 z :
  rep ls (T RED l a r) (Frame d RED p s :: Frame d BLACK g s2 :: z) →
  ∃ ls',
    (∀ X (k : gmap Z cl_map_links → option X),
     (it ← ls !! a;
      ls ← set_color (p_up it) BLACK ls;
      u ← ls !! p_up it;
      ls ← set_color (p_up u) RED ls;
      ls ← __cl_map_rot (opp d) nil (p_up u) ls;
      k ls) = k ls') ∧
    rep ls' (mk d BLACK (T RED l a r) p (mk d RED s g s2)) z.
Proof.
  intros H. pose proof (rep_at _ Lft _ _ _ _ _ H) as Ha. simpl in Ha.
  apply rep_pop in H. destruct (set_color_mk _ _ _ _ _ _ _ BLACK H) as (ls1 & E1 & H1).
  pose proof (rep_at _ _ _ _ _ _ _ H1) as Hp. simpl in Hp.
  apply rep_pop in H1. destruct (set_color_mk _ _ _ _ _ _ _ RED H1) as (ls2 & E2 & H2).
  replace (mk d RED (mk d BLACK (T RED l a r) p s) g s2)
    with (mk (opp d) RED s2 g (mk (opp d) BLACK s p (T RED l a r))) in H2 by by rewrite !mk_opp.
  destruct (rot_ok _ _ _ _ _ _ _ _ _ _ H2) as (ls3 & E3 & H3). exists ls3.
  split; [|by rewrite !mk_opp in H3]. intros X k. rewrite Ha. cbn [mbind option_bind p_up]. rewrite E1.
  cbn [mbind option_bind]. rewrite Hp. cbn [mbind option_bind]. rewrite links_of_up, E2.
  cbn [mbind option_bind]. by rewrite E3.
Qed.

(** After it the loop stops. *)
Lemma ins_bal_straight_end fuel ls d l a r p s g s2 z n :
  rep ls (mk d BLACK (T RED l a r) p (mk d RED s g s2)) z →
  rb RED n (T RED l a r) → rb BLACK n s → rb BLACK n s2 → rbz BLACK (Datatypes.S n) z →
  ∃ ls' t', __cl_map_ins_bal (Datatypes.S fuel) nil a ls = Some ls' ∧ rep ls' t' [] ∧
    inorder t' = inorder (plug z (mk d BLACK (T RED l a r) p (mk d RED s g s2))) ∧ ∃ c m, rb c m t'.
Proof.
  intros H Ht Hs Hs2 Hz. exists ls, (plug z (mk d BLACK (T RED l a r) p (mk d RED s g s2))).
  split_and!; [|by apply rep_whole|done|].
  - apply (ins_bal_stop _ _ RED l a r (Frame d BLACK p (mk d RED s g s2) :: z)); [by apply rep_push|done].
  - destruct (rb_plug _ _ _ (mk d BLACK (T RED l a r) p (mk d RED s g s2)) Hz) as [m Hm];
      [eapply rb_mk_B; [exact Ht|by apply rb_mk_R]|by eexists _, _].
Qed.

(** The balancing keeps the items in their order. *)
Lemma ins_bal_ok fuel : ∀ ls l a r z n,
  rep ls (T RED l a r) z → rb RED n (T RED l a r) → rbz BLACK n z → (length z < fuel)%nat →
  ∃ ls' t', __cl_map_ins_bal fuel nil a ls = Some ls' ∧ rep ls' t' [] ∧
    inorder t' = inorder (plug z (T RED l a r)) ∧ ∃ c m, rb c m t'.
Proof.
  induction fuel as [|fuel IH]; intros ls l a r z n H Ht Hz Hlen; [lia|].
  destruct z as [|[d [] p s] z].
  - exists ls, (T RED l a r). split_and!; [by eapply ins_bal_stop|done|done|by eauto].
  - (* a red parent has a black one *)
    inversion Hz as [|? ? ? ? ? Hs Hz'|]; subst. inversion Hz' as [| |? c2 d2 g s2 ? z2 Hs2 Hz2]; subst.
    clear Hz Hz'. simpl in Hlen.
    cbn [__cl_map_ins_bal]. destruct (place_T _ _ _ _ _ _ H) as (it & Hit & Hup & _). simpl in Hit, Hup.
    rewrite Hit. cbn [mbind option_bind]. rewrite Hup, (rep_parent _ _ _ _ _ _ _ H). cbn [mbind option_bind]. clear it Hit Hup.
    rewrite links_of_color, links_of_up, decide_True by done. cbn [up_of].
    pose proof (rep_pop _ _ _ _ _ _ _ H) as Hp. rewrite (side_of_mk _ _ _ _ _ _ _ Hp), (rep_parent _ _ _ _ _ _ _ Hp).
    cbn [mbind option_bind side_at]. rewrite (proj2 (links_of_child _ _ _ _ _)).
    pose proof (rep_to_brother _ _ _ _ _ _ _ Hp) as Hu.
    destruct (rep_links _ _ _ Hu) as (gu & -> & Egu). cbn [mbind option_bind]. rewrite Egu.
    rewrite (rb_color _ _ _ Hs2). destruct c2.
    + (* a red uncle: the grandparent becomes the red item *)
      rewrite decide_True by done. destruct s2 as [|cu lu u ru]; inversion Hs2; subst. simpl ptr.
      destruct (set_color_ok _ _ _ _ _ _ BLACK Hu) as (ls1 & -> & H1). cbn [mbind option_bind].
      apply rep_from_brother in H1.
      destruct (set_color_mk _ _ _ _ _ _ _ BLACK H1) as (ls2 & -> & H2). cbn [mbind option_bind].
      apply rep_pop in H2. destruct (set_color_mk _ _ _ _ _ _ _ RED H2) as (ls3 & -> & H3).
      cbn [mbind option_bind].
      set (x := mk d BLACK (T RED l a r) p s) in *. set (y := T BLACK lu u ru) in *.
      destruct (mk_T d2 RED x g y) as (l' & r' & Eg). rewrite Eg in H3.
      destruct (IH ls3 l' g r' z2 (Datatypes.S n)) as (ls' & t' & E1 & E2 & E3 & E4); [done| |done|lia|].
      { rewrite <- Eg. apply rb_mk_R; unfold x, y; eauto. }
      exists ls', t'. split_and!; [done|done| |done]. rewrite E3, <- Eg. simpl.
      apply inorder_plug_eq. unfold x, y. by apply inorder_mk_eq; [apply inorder_mk_eq|].
    + (* a black one: one rotation or two, and the tree is balanced *)
      rewrite decide_False by done. simpl length in Hlen. destruct fuel as [|fuel]; [lia|].
      rewrite (side_of_mk _ Lft _ _ _ _ _ H). cbn [mbind option_bind side_at].
      destruct (decide (d = d2)) as [->|Hd]; cbn [mbind option_bind].
      * destruct (ins_bal_straight _ _ _ _ _ _ _ _ _ _ H) as (ls3 & E3 & H3). rewrite E3.
        destruct (ins_bal_straight_end fuel _ _ _ _ _ _ _ _ _ _ n H3) as (ls' & t' & X1 & X2 & X3 & X4); [done..|].
        exists ls', t'. split_and!; [done|done| |done]. rewrite X3. simpl. apply inorder_plug_eq.
        symmetry. apply inorder_up.
      * assert (d = opp d2) as -> by (destruct d, d2; done).
        destruct (T_mk d2 RED l a r) as (y & w & Et). rewrite Et, mk_opp in Hp.
        destruct (rot_ok _ _ _ _ _ _ _ _ _ _ Hp) as (ls2 & -> & H2). cbn [mbind option_bind].
        apply rep_push in H2. rewrite Et in Ht. apply rb_mk_inv in Ht as [_ [Hy Hw]].
        destruct (mk_T d2 RED s p y) as (l' & r' & Es).
        assert (Ht' : rb RED n (T RED l' p r')) by (rewrite <- Es; by apply rb_mk_R).
        rewrite Es in H2. destruct (ins_bal_straight _ _ _ _ _ _ _ _ _ _ H2) as (ls3 & E3 & H3). rewrite E3.
        destruct (ins_bal_straight_end fuel _ _ _ _ _ _ _ _ _ _ n H3) as (ls' & t' & X1 & X2 & X3 & X4); [done..|].
        exists ls', t'. split_and!; [done|done| |done]. rewrite X3. simpl. apply inorder_plug_eq.
        rewrite Et, <- Es, mk_opp, <- (inorder_up _ BLACK RED). apply inorder_mk_eq; [|done]. symmetry. apply inorder_rot.
  - exists ls, (plug (Frame d BLACK p s :: z) (T RED l a r)).
    split_and!; [by eapply ins_bal_stop|by apply rep_whole|done|].
    inversion Hz as [| |? ? ? ? ? ? ? Hs Hz']; subst.
    destruct (rb_plug _ _ _ (mk d BLACK (T RED l a r) p s) Hz') as [m Hm]; [by eapply rb_mk_B|].
    by eexists _, _.
Qed.
End Ins.
