(* ===== verification/QMapDel.v ===== *)
(** * Balanced maps: balancing after a removal

    The loop stands at a subtree that is black and one too low for its place, or red,
    and then it is made black.  It ends with a red-black tree of the same items in the
    same order. *)

From S2P Require Import Prelude QMap QMapRep QMapIns.

Open Scope Z_scope.

(** ** Red-black trees *)

Definition blacken (t : tree) : tree := match t with E => E | T _ l a r => T BLACK l a r end.

Lemma blacken_mk d c x a y : blacken (mk d c x a y) = mk d BLACK x a y.
Proof. by destruct d. Qed.

Lemma blacken_inorder t : inorder (blacken t) = inorder t.
Proof. by destruct t. Qed.

Lemma rb_blacken c n t : rb c n t → ∃ m, rb BLACK m (blacken t).
Proof. destruct 1; simpl; eauto. Qed.

Lemma rbz_black c n z : rbz c n z → rbz BLACK n z.
Proof. destruct 1; eauto. Qed.

Lemma rb_high c n t : rb c (S n) t → t ≠ E.
Proof. by inversion 1. Qed.

(** A tree in the place of a higher one, if not a red one to be made black. *)
Definition low (n : nat) (t : tree) : Prop :=
  match tree_color t with CL_MAP_RED => rb BLACK (S n) (blacken t) | CL_MAP_BLACK => rb BLACK n t end.

Lemma low_red n d t p s : rb BLACK (S n) (mk d BLACK t p s) → low n (mk d RED t p s).
Proof. by destruct d. Qed.
Lemma low_black n d t p s : rb BLACK n (mk d BLACK t p s) → low n (mk d BLACK t p s).
Proof. by destruct d. Qed.

(** The brother of a low tree. *)
Lemma rbz_frame_inv n d c p s z : rbz BLACK n (Frame d c p s :: z) →
  match c with
  | CL_MAP_RED => rb BLACK n s ∧ rbz RED n z
  | CL_MAP_BLACK => ∃ c', rb c' n s ∧ rbz BLACK (S n) z
  end.
Proof. inversion 1; subst; eauto. Qed.

Section Del.
Context {root nil : Z} {S : list Z} {ls0 : gmap Z cl_map_links} {nil_links : cl_map_links}.
Context {OK : EnvOk root nil S ls0 nil_links}.
Implicit Types ls : gmap Z cl_map_links.
Local Notation rep := (rep root nil S ls0).
Local Notation Suc := Datatypes.S.

(** The parent of an empty place is what was stored in [nil]. *)
Definition nil_up (t : tree) (u : Z) : Prop := t = E → p_up nil_links = u.

Lemma place_nil_up ls t z : rep ls t z → nil_up t (up_of root z) → place_ok root nil ls t z.
Proof.
  intros H Hn. destruct t as [|c l a r]; [apply (place_E (S := S) (ls0 := ls0)); auto|].
  by apply (place_T (S := S) (ls0 := ls0)).
Qed.

Lemma place_links ls t z : rep ls t z → nil_up t (up_of root z) →
  ∃ l, ls !! ptr nil t = Some l ∧ p_up l = up_of root z ∧ color l = tree_color t.
Proof. apply place_nil_up. Qed.

Lemma set_black_id ls t z : rep ls t z → tree_color t = BLACK → set_color (ptr nil t) BLACK ls = Some ls.
Proof.
  intros H Ht. destruct (rep_links _ _ _ H) as (l & Hl & Hc). rewrite (set_color_Some _ _ _ _ Hl).
  f_equal. apply insert_id. rewrite Hl. f_equal. rewrite Ht in Hc. destruct l. simpl in *. by subst.
Qed.

Lemma set_blacken ls t z : rep ls t z → ∃ ls', set_color (ptr nil t) BLACK ls = Some ls' ∧ rep ls' (blacken t) z.
Proof.
  intros H. destruct t as [|c l a r]; [exists ls; split; [by apply (set_black_id _ _ _ H)|done]|].
  exact (set_color_ok _ _ _ _ _ _ BLACK H).
Qed.

(** ** The last rotation *)

(** The far nephew is red. *)
Lemma del_far ls t d c p near u far z :
  rep ls t (Frame d c p (mk d BLACK near u far) :: z) → nil_up t p → tree_color t = BLACK →
  ∃ ls',
    (it ← ls !! ptr nil t;
     u' ← ls !! p_up it;
     ls ← set_color u (color u') ls;
     ls ← set_color (p_up it) BLACK ls;
     un ← ls !! u;
     ls ← set_color (child (opp d) un) BLACK ls;
     ls ← __cl_map_rot d nil (p_up it) ls;
     set_color (ptr nil t) BLACK ls) = Some ls' ∧
    rep ls' (mk d c (mk d BLACK t p near) u (blacken far)) z.
Proof.
  intros H Hn Ht. destruct (place_links _ _ _ H Hn) as (it & Hit & Hup & _). rewrite Hit.
  cbn [mbind option_bind]. rewrite Hup. cbn [up_of]. rewrite (rep_parent _ _ _ _ _ _ _ H).
  cbn [mbind option_bind]. rewrite links_of_color. clear it Hit Hup.
  apply rep_to_brother in H. destruct (set_color_mk _ _ _ _ _ _ _ c H) as (ls1 & -> & H1).
  cbn [mbind option_bind]. apply rep_pop in H1. destruct (set_color_mk _ _ _ _ _ _ _ BLACK H1) as (ls2 & -> & H2).
  cbn [mbind option_bind]. apply rep_push in H2. rewrite (rep_at _ _ _ _ _ _ _ H2). cbn [mbind option_bind].
  rewrite (proj2 (links_of_child _ _ _ _ _)). rewrite <- mk_opp in H2. apply rep_push in H2.
  destruct (set_blacken _ _ _ H2) as (ls3 & -> & H3). cbn [mbind option_bind].
  apply rep_pop in H3. rewrite mk_opp in H3. apply rep_from_brother, rep_pop in H3.
  destruct (rot_ok _ _ _ _ _ _ _ _ _ _ H3) as (ls4 & -> & H4). cbn [mbind option_bind].
  exists ls4. split; [|done]. do 2 apply rep_push in H4. by apply (set_black_id _ _ _ H4).
Qed.

(** The far nephew is black and the near one red: a rotation makes the far one red. *)
Lemma del_near ls t d c p y v w u far z :
  rep ls t (Frame d c p (mk d BLACK (mk d RED y v w) u far) :: z) → nil_up t p →
  ∃ ls',
    (ls ← set_color v BLACK ls;
     ls ← set_color u RED ls;
     ls ← __cl_map_rot (opp d) nil u ls;
     u ← up_links ls (ptr nil t);
     Some (child (opp d) u, ls)) = Some (v, ls') ∧
    rep ls' t (Frame d c p (mk d BLACK y v (mk d RED w u far)) :: z).
Proof.
  intros H Hn. apply rep_to_brother, rep_push in H.
  destruct (set_color_mk _ _ _ _ _ _ _ BLACK H) as (ls1 & -> & H1). cbn [mbind option_bind].
  apply rep_pop in H1. destruct (set_color_mk _ _ _ _ _ _ _ RED H1) as (ls2 & -> & H2).
  cbn [mbind option_bind].
  replace (mk d RED (mk d BLACK y v w) u far)
    with (mk (opp d) RED far u (mk (opp d) BLACK w v y)) in H2 by by rewrite !mk_opp.
  destruct (rot_ok _ _ _ _ _ _ _ _ _ _ H2) as (ls3 & -> & H3). cbn [mbind option_bind].
  rewrite !mk_opp in H3. apply rep_from_brother in H3. exists ls3. split; [|done].
  destruct (place_links _ _ _ H3 Hn) as (it & Hit & Hup & _). unfold up_links. rewrite Hit.
  cbn [mbind option_bind]. rewrite Hup. cbn [up_of]. rewrite (rep_parent _ _ _ _ _ _ _ H3).
  cbn [mbind option_bind]. by rewrite (proj2 (links_of_child _ _ _ _ _)), ptr_mk.
Qed.

(** The brother is red: a rotation gives a black one. *)
Lemma del_red ls t d p y u w z :
  rep ls t (Frame d BLACK p (mk d RED y u w) :: z) → nil_up t p →
  ∃ ls',
    (ls ← set_color u BLACK ls;
     ls ← set_color p RED ls;
     ls ← __cl_map_rot d nil p ls;
     u ← up_links ls (ptr nil t);
     Some (child (opp d) u, ls)) = Some (ptr nil y, ls') ∧
    rep ls' t (Frame d RED p y :: Frame d BLACK u w :: z).
Proof.
  intros H Hn. apply rep_to_brother in H.
  destruct (set_color_mk _ _ _ _ _ _ _ BLACK H) as (ls1 & -> & H1). cbn [mbind option_bind].
  apply rep_from_brother, rep_pop in H1. destruct (set_color_mk _ _ _ _ _ _ _ RED H1) as (ls2 & -> & H2).
  cbn [mbind option_bind]. destruct (rot_ok _ _ _ _ _ _ _ _ _ _ H2) as (ls3 & -> & H3).
  cbn [mbind option_bind]. do 2 apply rep_push in H3. exists ls3. split; [|done].
  destruct (place_links _ _ _ H3 Hn) as (it & Hit & Hup & _). unfold up_links. rewrite Hit.
  cbn [mbind option_bind]. rewrite Hup. cbn [up_of]. rewrite (rep_parent _ _ _ _ _ _ _ H3).
  cbn [mbind option_bind]. by rewrite (proj2 (links_of_child _ _ _ _ _)).
Qed.

(** ** The loop *)

(** The rest of a round once the brother [u] is black; [k] goes on from the parent. *)
Definition del_black (k : Z → gmap Z cl_map_links → option (gmap Z cl_map_links)) (d : side)
    (p_item p_uncle : Z) ls : option (gmap Z cl_map_links) :=
  un ← ls !! p_uncle;
  far ← ls !! child (opp d) un;
  near ← ls !! child d un;
  if negb (bool_decide (color far = RED)) && negb (bool_decide (color near = RED)) then
    ls ← set_color p_uncle RED ls;
    it ← ls !! p_item;
    k (p_up it) ls
  else
    '(p_uncle, ls) ←
      (if decide (color far = RED) then Some (p_uncle, ls)
       else
         ls ← set_color (child d un) BLACK ls;
         ls ← set_color p_uncle RED ls;
         ls ← __cl_map_rot (opp d) nil p_uncle ls;
         u ← up_links ls p_item;
         Some (child (opp d) u, ls));
    it ← ls !! p_item;
    u ← ls !! p_up it;
    ls ← set_color p_uncle (color u) ls;
    ls ← set_color (p_up it) BLACK ls;
    un ← ls !! p_uncle;
    ls ← set_color (child (opp d) un) BLACK ls;
    ls ← __cl_map_rot d nil (p_up it) ls;
    set_color p_item BLACK ls.

Lemma del_bal_step fuel p_item ls :
  __cl_map_del_bal (Suc fuel) root nil p_item ls =
  (it ← ls !! p_item;
   let up := p_up it in
   if bool_decide (color it = RED) || (up =? root) then set_color p_item BLACK ls
   else
     d ← side_of ls p_item;
     u ← ls !! up;
     un ← ls !! child (opp d) u;
     '(p_uncle, ls) ←
       (if decide (color un = RED) then
          ls ← set_color (child (opp d) u) BLACK ls;
          ls ← set_color up RED ls;
          ls ← __cl_map_rot d nil up ls;
          u ← up_links ls p_item;
          Some (child (opp d) u, ls)
        else Some (child (opp d) u, ls));
     del_black (__cl_map_del_bal fuel root nil) d p_item p_uncle ls).
Proof. reflexivity. Qed.

(** What the balancing is to give. *)
Definition balanced (t : tree) (z : list frame) (r : option (gmap Z cl_map_links)) : Prop :=
  ∃ ls' t', r = Some ls' ∧ rep ls' t' [] ∧ inorder t' = inorder (plug z t) ∧ ∃ m, rb BLACK m t'.

Lemma balanced_plug t z c n t' z' ls :
  rep ls t' z' → rb c n t' → rbz c n z' → inorder (plug z' t') = inorder (plug z t) →
  balanced t z (Some ls).
Proof.
  intros H Ht Hz Hin. exists ls, (plug z' t'). split_and!; [done|by apply rep_whole|done|by eapply rb_plug].
Qed.

(** The tree after the last rotation. *)
Lemma del_far_ok ls t d c p near u far z cn n :
  rep ls t (Frame d c p (mk d BLACK near u far) :: z) → nil_up t p → rb BLACK n t →
  rb cn n near → rb RED n far → rbz BLACK (Suc n) (Frame d c p (mk d BLACK near u far) :: z) →
  balanced t (Frame d c p (mk d BLACK near u far) :: z)
    (it ← ls !! ptr nil t;
     u' ← ls !! p_up it;
     ls ← set_color u (color u') ls;
     ls ← set_color (p_up it) BLACK ls;
     un ← ls !! u;
     ls ← set_color (child (opp d) un) BLACK ls;
     ls ← __cl_map_rot d nil (p_up it) ls;
     set_color (ptr nil t) BLACK ls).
Proof.
  intros H Hn Ht Hnear Hfar Hz. destruct (del_far _ _ _ _ _ _ _ _ _ H Hn (rb_color _ _ _ Ht)) as (ls' & -> & H').
  assert (Hfar' : rb BLACK (Suc n) (blacken far)) by (inversion Hfar; subst; simpl; eauto).
  assert (Hin : inorder (plug z (mk d c (mk d BLACK t p near) u (blacken far))) =
    inorder (plug (Frame d c p (mk d BLACK near u far) :: z) t)).
  { simpl. apply inorder_plug_eq. rewrite (inorder_mk_eq d c c _ (mk d BLACK t p near) u _ far);
      [|done|apply blacken_inorder]. apply inorder_up. }
  apply rbz_frame_inv in Hz. destruct c.
  - destruct Hz as [_ Hz]. eapply balanced_plug; [exact H'| |exact Hz|done]. eauto.
  - destruct Hz as (_ & _ & Hz). eapply balanced_plug; [exact H'| |exact Hz|done]. eauto.
Qed.

Lemma del_black_ok k ls t d c p s z n :
  rep ls t (Frame d c p s :: z) → nil_up t p → rb BLACK n t → rb BLACK (Suc n) s →
  rbz BLACK (Suc n) (Frame d c p s :: z) →
  (∀ ls' t' m, rep ls' t' z → ptr nil t' = p → t' ≠ E → tree_color t' = c → low m t' → rbz BLACK (Suc m) z →
     inorder t' = inorder (mk d c t p s) → balanced t' z (k p ls')) →
  balanced t (Frame d c p s :: z) (del_black k d (ptr nil t) (ptr nil s) ls).
Proof.
  intros H Hn Ht Hs Hz Hk. pose proof (rb_color _ _ _ Ht) as Htc.
  assert (∃ near u far cn cf, s = mk d BLACK near u far ∧ rb cn n near ∧ rb cf n far)
    as (near & u & far & cn & cf & -> & Hnear & Hfar).
  { inversion Hs; subst. destruct d; eauto 10. }
  clear Hs. pose proof (rep_to_brother _ _ _ _ _ _ _ H) as Hb. unfold del_black. rewrite ptr_mk.
  rewrite (rep_at _ _ _ _ _ _ _ Hb). cbn [mbind option_bind].
  destruct (links_of_child d (ptr nil near) (ptr nil far) (up_of root (Frame (opp d) c p t :: z)) BLACK) as [-> ->].
  destruct (rep_links _ _ _ (rep_push _ _ _ _ _ _ _ Hb)) as (nl & Enl & Cnl).
  pose proof Hb as Hb'. rewrite <- mk_opp in Hb'.
  destruct (rep_links _ _ _ (rep_push _ _ _ _ _ _ _ Hb')) as (fl & Efl & Cfl). clear Hb'.
  rewrite Efl. cbn [mbind option_bind]. rewrite Enl. cbn [mbind option_bind]. rewrite Cnl, Cfl.
  rewrite (rb_color _ _ _ Hnear), (rb_color _ _ _ Hfar). destruct cf.
  - (* the far one is red *)
    rewrite (bool_decide_eq_true_2 (RED = RED)) by done. cbn [negb andb].
    rewrite decide_True by done. cbn [mbind option_bind]. by eapply del_far_ok.
  - rewrite (bool_decide_eq_false_2 (BLACK = RED)) by done. cbn [negb andb]. destruct cn.
    + rewrite (bool_decide_eq_true_2 (RED = RED)) by done. cbn [negb]. rewrite decide_False by done.
      assert (∃ y v w, near = mk d RED y v w ∧ rb BLACK n y ∧ rb BLACK n w) as (y & v & w & -> & Hy & Hw).
      { inversion Hnear; subst. destruct d; eauto 8. }
      rewrite ptr_mk. destruct (del_near _ _ _ _ _ _ _ _ _ _ _ H Hn) as (ls1 & -> & H1).
      cbn [mbind option_bind].
      destruct (del_far_ok ls1 t d c p y v (mk d RED w u far) z BLACK n) as (ls' & t' & X1 & X2 & X3 & X4);
        [done..|by apply rb_mk_R| |].
      { apply rbz_frame_inv in Hz. destruct c.
        - destruct Hz as [_ Hz]. constructor; [|done]. eauto.
        - destruct Hz as (? & _ & Hz). econstructor; [|done]. eauto. }
      exists ls', t'. split_and!; [done|done| |done]. rewrite X3. simpl. apply inorder_plug_eq.
      apply inorder_mk_eq; [done|]. symmetry. apply inorder_up.
    + (* both black: the brother becomes red *)
      rewrite (bool_decide_eq_false_2 (BLACK = RED)) by done. cbn [negb].
      destruct (set_color_mk _ _ _ _ _ _ _ RED Hb) as (ls1 & -> & H1). cbn [mbind option_bind].
      apply rep_from_brother in H1. destruct (place_links _ _ _ H1 Hn) as (it & -> & Hup & _).
      cbn [mbind option_bind]. rewrite Hup. cbn [up_of]. apply rep_pop in H1.
      assert (Hm : ∃ m, low m (mk d c t p (mk d RED near u far)) ∧ rbz BLACK (Suc m) z).
      { apply rbz_frame_inv in Hz. destruct c.
        - destruct Hz as [_ Hz]. exists n. split; [|by eapply rbz_black]. apply low_red. eauto.
        - destruct Hz as (? & _ & Hz). exists (Suc n). split; [|done]. apply low_black. eauto. }
      destruct Hm as (m & Hlow & Hz').
      destruct (Hk ls1 _ m H1) as (ls' & t' & X1 & X2 & X3 & X4); [apply ptr_mk|apply mk_ne|by destruct d|done|done| |].
      { apply inorder_mk_eq; [done|]. by apply inorder_mk_eq. }
      exists ls', t'. split_and!; [done|done| |done]. rewrite X3. simpl. apply inorder_plug_eq.
      apply inorder_mk_eq; [done|]. by apply inorder_mk_eq.
Qed.

Lemma balanced_eq t z t' z' r : inorder (plug z t) = inorder (plug z' t') → balanced t z r → balanced t' z' r.
Proof. intros E (ls' & t1 & H1 & H2 & H3 & H4). exists ls', t1. by rewrite <- E. Qed.

Lemma up_of_root ls t z : rep ls t z → (up_of root z =? root) = bool_decide (z = []).
Proof.
  intros H. destruct z as [|[d c a s] z]; simpl; [by rewrite Z.eqb_refl|].
  apply Z.eqb_neq. apply rep_fresh in H. set_solver.
Qed.

Lemma del_bal_ok fuel : ∀ ls t z n,
  rep ls t z → nil_up t (up_of root z) → low n t → rbz BLACK (Suc n) z →
  (length z < fuel)%nat ∨ (tree_color t = RED ∧ (0 < fuel)%nat) →
  balanced t z (__cl_map_del_bal fuel root nil (ptr nil t) ls).
Proof.
  induction fuel as [|fuel IH]; intros ls t z n H Hn Ht Hz Hlen; [lia|].
  rewrite del_bal_step. destruct (place_links _ _ _ H Hn) as (it & Hit & Hup & Hc). rewrite Hit.
  cbn [mbind option_bind]. cbv zeta. rewrite Hup, (up_of_root _ _ _ H), Hc. clear it Hit Hup Hc.
  destruct (bool_decide (tree_color t = RED) || bool_decide (z = [])) eqn:Estop.
  - (* made black, and done *)
    destruct (set_blacken _ _ _ H) as (ls1 & -> & H1).
    assert (Hb : ∃ m, rb BLACK m (plug z (blacken t))).
    { apply orb_true_iff in Estop as [Er%bool_decide_eq_true|Ez%bool_decide_eq_true].
      - unfold low in Ht. rewrite Er in Ht. by eapply rb_plug.
      - subst z. simpl. unfold low in Ht. destruct (tree_color t); [by eexists|by eapply rb_blacken]. }
    exists ls1, (plug z (blacken t)). split_and!; [done|by apply rep_whole| |done].
    apply inorder_plug_eq, blacken_inorder.
  - apply orb_false_iff in Estop as [Er Ez]. apply bool_decide_eq_false in Er, Ez.
    assert (Hbl : tree_color t = BLACK) by (destruct (tree_color t); done). clear Er.
    unfold low in Ht. rewrite Hbl in Ht. destruct Hlen as [Hlen|[? _]]; [|congruence].
    destruct z as [|[d c p s] z]; [done|]. clear Ez. simpl in Hlen, Hn.
    assert (Hs : s ≠ E).
    { apply rbz_frame_inv in Hz. destruct c.
      - destruct Hz as [Hs _]. by eapply rb_high.
      - destruct Hz as (? & Hs & _). by eapply rb_high. }
    rewrite (side_of_ok _ _ _ H); [|by apply place_nil_up|].
    2:{ simpl. intros E'. apply (brother_ne_rep _ _ _ (rep_to_brother _ _ _ _ _ _ _ H) Hs). by rewrite E'. }
    cbn [mbind option_bind side_at up_of]. rewrite (rep_parent _ _ _ _ _ _ _ H). cbn [mbind option_bind].
    rewrite (proj2 (links_of_child _ _ _ _ _)).
    destruct (rep_links _ _ _ (rep_to_brother _ _ _ _ _ _ _ H)) as (un & Hun & Cun). rewrite Hun.
    cbn [mbind option_bind]. rewrite Cun. clear un Hun Cun.
    destruct (tree_color s) eqn:Es.
    + (* a red brother below a black parent *)
      assert (c = BLACK) as -> .
      { apply rbz_frame_inv in Hz. destruct c; [|done]. destruct Hz as [Hs' _]. apply rb_color in Hs'. congruence. }
      apply rbz_frame_inv in Hz as (c' & Hs' & Hz). pose proof (rb_color _ _ _ Hs') as Ec. rewrite Es in Ec. subst c'.
      assert (∃ y u w, s = mk d RED y u w ∧ rb BLACK (Suc n) y ∧ rb BLACK (Suc n) w) as (y & u & w & -> & Hy & Hw).
      { inversion Hs'; subst. destruct d; eauto 8. }
      rewrite decide_True, ptr_mk by done. destruct (del_red _ _ _ _ _ _ _ _ H Hn) as (ls1 & -> & H1).
      cbn [mbind option_bind].
      apply (balanced_eq t (Frame d RED p y :: Frame d BLACK u w :: z)).
      { simpl. apply inorder_plug_eq. apply inorder_up. }
      eapply del_black_ok; [exact H1|done|done|done| |].
      { constructor; [done|]. by econstructor. }
      intros ls' t' m R1 R2 R3 R4 R5 R6 R7. rewrite <- R2. apply (IH _ _ _ m); [done|by intros ?|done|done|]. right. split; [done|lia].
    + rewrite decide_False by done. cbn [mbind option_bind].
      assert (Hs' : rb BLACK (Suc n) s).
      { pose proof Hz as Hz'. apply rbz_frame_inv in Hz'. destruct c.
        - tauto.
        - destruct Hz' as (c' & Hs' & _). pose proof (rb_color _ _ _ Hs') as Ec. rewrite Es in Ec. by subst c'. }
      eapply del_black_ok; [exact H|done|done|done|done|].
      intros ls' t' m R1 R2 R3 R4 R5 R6 R7. rewrite <- R2. apply (IH _ _ _ m); [done|by intros ?|done|done|]. left. lia.
Qed.
End Del.
