(* ===== verification/QMapList.v ===== *)
(** * Balanced maps: the list of the items

    The items of a map are in a ring through [nil], in the order of their keys.  Here
    are the rings, and the order of the keys. *)

From S2P Require Import Prelude QMap.

Open Scope Z_scope.

(** ** Rings *)

Implicit Types li : gmap Z cl_list_item.

Definition nxt li (a : Z) : option Z := p_next <$> li !! a.
Definition prv li (a : Z) : option Z := p_prev <$> li !! a.

Definition edge li (a b : Z) : Prop := nxt li a = Some b ∧ prv li b = Some a.

Fixpoint linked li (a : Z) (l : list Z) : Prop :=
  match l with [] => True | b :: l => edge li a b ∧ linked li b l end.

Definition ring li (nil : Z) (l : list Z) : Prop := linked li nil (l ++ [nil]).

Definition last_from (a : Z) (l : list Z) : Z := default a (last l).

Lemma last_from_cons a b l : last_from a (b :: l) = last_from b l.
Proof. unfold last_from. rewrite last_cons. by destruct (last l). Qed.

Lemma last_from_in a l : last_from a l ∈ a :: l.
Proof.
  unfold last_from. destruct (last l) as [x|] eqn:E; simpl; [|left].
  right. rewrite last_lookup in E. by eapply list_elem_of_lookup_2.
Qed.

Lemma linked_app li a l1 l2 : linked li a (l1 ++ l2) ↔ linked li a l1 ∧ linked li (last_from a l1) l2.
Proof.
  revert a. induction l1 as [|b l1 IH]; intros a; simpl; [tauto|].
  rewrite IH, last_from_cons. tauto.
Qed.

Lemma linked_ext li li' a l : NoDup (a :: l) →
  (∀ x, x ∈ a :: l → x ≠ last_from a l → nxt li' x = nxt li x) →
  (∀ x, x ∈ l → prv li' x = prv li x) → linked li a l → linked li' a l.
Proof.
  revert a. induction l as [|b l IH]; intros a Hnd Hn Hp; simpl; [done|].
  intros [[E1 E2] H]. rewrite last_from_cons in Hn. apply NoDup_cons in Hnd as [Ha Hnd]. split; [split|].
  - rewrite Hn; [done|left|]. intros ->. apply Ha, last_from_in.
  - rewrite Hp; [done|left].
  - apply IH; [done| |set_solver|done]. intros x Hx. apply Hn. by right.
Qed.

Lemma nxt_insert li a b l : nxt (<[a := l]> li) b = if decide (b = a) then Some (p_next l) else nxt li b.
Proof.
  unfold nxt. destruct (decide (b = a)) as [->|]; [by rewrite lookup_insert_eq|by rewrite lookup_insert_ne].
Qed.
Lemma prv_insert li a b l : prv (<[a := l]> li) b = if decide (b = a) then Some (p_prev l) else prv li b.
Proof.
  unfold prv. destruct (decide (b = a)) as [->|]; [by rewrite lookup_insert_eq|by rewrite lookup_insert_ne].
Qed.

Lemma nxt_Some li a b : nxt li a = Some b → ∃ it, li !! a = Some it ∧ p_next it = b.
Proof. unfold nxt. destruct (li !! a) as [it|]; [|done]. intros [= <-]. by exists it. Qed.
Lemma prv_Some li a b : prv li a = Some b → ∃ it, li !! a = Some it ∧ p_prev it = b.
Proof. unfold prv. destruct (li !! a) as [it|]; [|done]. intros [= <-]. by exists it. Qed.

(** The two ends of a gap in a ring. *)
Definition head_or (nil : Z) (l : list Z) : Z := default nil (head l).

Lemma ring_split li nil l1 l2 : ring li nil (l1 ++ l2) ↔
  linked li nil l1 ∧ edge li (last_from nil l1) (head_or nil l2) ∧
  linked li (head_or nil l2) (tail (l2 ++ [nil])).
Proof.
  unfold ring. rewrite <- app_assoc, linked_app. destruct l2 as [|y l2]; simpl; tauto.
Qed.

Lemma head_or_in nil l : head_or nil l ∈ nil :: l.
Proof. destruct l; set_solver. Qed.

(** What is linked before and after a gap stays linked when only the gap's own links
    change. *)
Lemma gap_ext li li' nil l1 l2 : NoDup (nil :: l1 ++ l2) →
  (∀ v, v ∈ nil :: l1 ++ l2 → v ≠ last_from nil l1 → nxt li' v = nxt li v) →
  (∀ v, v ∈ nil :: l1 ++ l2 → v ≠ head_or nil l2 → prv li' v = prv li v) →
  linked li nil l1 ∧ linked li (head_or nil l2) (tail (l2 ++ [nil])) →
  linked li' nil l1 ∧ linked li' (head_or nil l2) (tail (l2 ++ [nil])).
Proof.
  intros Hnd Hn Hp [H1 H2]. pose proof (last_from_in nil l1) as Hlast. pose proof (head_or_in nil l2) as Hhead.
  rewrite NoDup_cons, NoDup_app in Hnd. destruct Hnd as (Hnil & Hnd1 & Hdis & Hnd2). split.
  - eapply linked_ext; [apply NoDup_cons; set_solver| | |done].
    + intros x Hx. apply Hn. set_solver.
    + intros x Hx. apply Hp; [set_solver|]. intros ->.
      apply elem_of_cons in Hhead as [E|E]; [rewrite E in Hx; set_solver|exact (Hdis _ Hx E)].
  - destruct l2 as [|y l2]; [done|]. change (head_or nil (y :: l2)) with y in *. simpl in *. apply NoDup_cons in Hnd2 as [Hy Hnd2].
    assert (last_from y (l2 ++ [nil]) = nil) as Hl by (unfold last_from; by rewrite last_snoc).
    eapply linked_ext; [| | |exact H2].
    + apply NoDup_cons. split; [set_solver|]. apply NoDup_app. split_and!; [done|set_solver|apply NoDup_singleton].
    + intros x Hx Hne. rewrite Hl in Hne. apply Hn; set_solver.
    + intros x Hx. apply Hp; set_solver.
Qed.

(** *** Inserting and removing *)

Lemma primitive_insert_ok li a y x : edge li a y → x ≠ a → x ≠ y → is_Some (li !! x) →
  ∃ li', __cl_primitive_insert y x li = Some li' ∧ edge li' a x ∧ edge li' x y ∧
    (∀ v, v ≠ a → v ≠ x → nxt li' v = nxt li v) ∧ (∀ v, v ≠ y → v ≠ x → prv li' v = prv li v) ∧
    ∀ v, v ≠ a → v ≠ x → v ≠ y → li' !! v = li !! v.
Proof.
  intros [Ha Hy] Hxa Hxy [ix Hx]. apply nxt_Some in Ha as (ia & Ha & Ea). apply prv_Some in Hy as (iy & Hy & Ey).
  unfold __cl_primitive_insert. rewrite Hy. cbn [mbind option_bind]. unfold upd at 3. rewrite Hx.
  cbn [mbind option_bind]. set (li1 := <[x := _]> li). unfold upd at 2.
  assert (li1 !! y = Some iy) as -> by (unfold li1; by rewrite lookup_insert_ne).
  cbn [mbind option_bind]. set (li2 := <[y := _]> li1).
  assert (li2 !! x = Some (ListItem y (p_prev iy))) as ->.
  { unfold li2, li1. by rewrite lookup_insert_ne, lookup_insert_eq. }
  cbn [mbind option_bind p_prev]. unfold upd. rewrite Ey.
  assert (∃ ia', li2 !! a = Some ia' ∧ (a ≠ y → ia' = ia) ∧ (a = y → p_prev ia' = x)) as (ia' & -> & Hia & Hia2).
  { destruct (decide (a = y)) as [->|Hne].
    - unfold li2. rewrite lookup_insert_eq. by eexists.
    - exists ia. unfold li2, li1. by rewrite !lookup_insert_ne by done. }
  eexists. split; [done|]. unfold edge. unfold li2, li1. split_and!; intros;
    rewrite ?nxt_insert, ?prv_insert; repeat case_decide; simpl; subst; try done; try (by rewrite Hia2);
    try (by rewrite lookup_insert_ne, !lookup_insert_ne).
  - unfold nxt. by rewrite Hy.
  - unfold prv. by rewrite Hia, Ha.
Qed.

Lemma primitive_remove_ok li a x y : edge li a x → edge li x y → x ≠ a → x ≠ y →
  ∃ li', __cl_primitive_remove x li = Some li' ∧ edge li' a y ∧
    (∀ v, v ≠ a → nxt li' v = nxt li v) ∧ (∀ v, v ≠ y → prv li' v = prv li v) ∧
    (∀ v, v ≠ a → v ≠ y → li' !! v = li !! v).
Proof.
  intros [Ha Hx] [Hx' Hy] Hxa Hxy. apply nxt_Some in Ha as (ia & Ha & Ea).
  apply nxt_Some in Hx' as (ix & Hix & Ex). apply prv_Some in Hx as (ix' & Hix' & Ex').
  assert (ix' = ix) as -> by congruence. apply prv_Some in Hy as (iy & Hy & Ey).
  unfold __cl_primitive_remove. rewrite Hix. cbn [mbind option_bind]. rewrite Ex, Ex'. unfold upd at 2. rewrite Hy.
  cbn [mbind option_bind]. set (li1 := <[y := _]> li).
  assert (li1 !! x = Some ix) as -> by (unfold li1; by rewrite lookup_insert_ne).
  cbn [mbind option_bind]. rewrite Ex, Ex'. unfold upd.
  assert (∃ ia', li1 !! a = Some ia' ∧ (a ≠ y → ia' = ia) ∧ (a = y → p_prev ia' = a)) as (ia' & -> & Hia & Hia2).
  { destruct (decide (a = y)) as [->|Hne].
    - unfold li1. rewrite lookup_insert_eq. by eexists.
    - exists ia. unfold li1. by rewrite !lookup_insert_ne by done. }
  eexists. split; [done|]. unfold edge. unfold li1. split_and!; intros;
    rewrite ?nxt_insert, ?prv_insert; repeat case_decide; simpl; subst; try done; try (by rewrite Hia2);
    try (by rewrite !lookup_insert_ne).
  - unfold nxt. by rewrite Hy.
  - unfold prv. by rewrite Hia, Ha.
Qed.

(** A new item in a gap of a ring. *)
Lemma ring_insert li nil l1 l2 x : ring li nil (l1 ++ l2) → NoDup (nil :: l1 ++ l2) → x ∉ nil :: l1 ++ l2 →
  is_Some (li !! x) →
  ∃ li', __cl_primitive_insert (head_or nil l2) x li = Some li' ∧ ring li' nil (l1 ++ x :: l2) ∧
    ∀ v, v ∉ nil :: l1 ++ x :: l2 → li' !! v = li !! v.
Proof.
  intros H Hnd Hx Hd. apply ring_split in H as (H1 & He & H2).
  pose proof (last_from_in nil l1) as Hlast. pose proof (head_or_in nil l2) as Hhead.
  destruct (primitive_insert_ok _ _ _ x He) as (li' & -> & E1 & E2 & Hn & Hp & Ho); [set_solver..|done|].
  exists li'. split; [done|]. split.
  - apply ring_split. destruct (gap_ext li li' nil l1 l2) as [G1 G2]; [done| | |done|].
    + intros v Hv ?. apply Hn; [done|set_solver].
    + intros v Hv ?. apply Hp; [done|set_solver].
    + split_and!; [done|done|]. simpl. destruct l2; simpl in *; tauto.
  - intros v Hv. apply Ho; set_solver.
Qed.

Lemma ring_remove li nil l1 l2 x : ring li nil (l1 ++ x :: l2) → NoDup (nil :: l1 ++ x :: l2) →
  ∃ li', __cl_primitive_remove x li = Some li' ∧ ring li' nil (l1 ++ l2) ∧
    ∀ v, v ∉ nil :: l1 ++ l2 → li' !! v = li !! v.
Proof.
  intros H Hnd. apply ring_split in H as (H1 & E1 & H2).
  change (head_or nil (x :: l2)) with x in *. simpl in H2.
  assert (edge li x (head_or nil l2) ∧ linked li (head_or nil l2) (tail (l2 ++ [nil]))) as [E2 H3]
    by (destruct l2; simpl in *; tauto).
  pose proof (last_from_in nil l1) as Hlast. pose proof (head_or_in nil l2) as Hhead.
  assert (NoDup (x :: nil :: l1 ++ l2)) as Hnd'.
  { assert (x :: nil :: l1 ++ l2 ≡ₚ nil :: l1 ++ x :: l2) as -> by (by rewrite perm_swap, Permutation_middle). done. }
  apply NoDup_cons in Hnd' as [Hx Hnd'].
  destruct (primitive_remove_ok _ _ _ _ E1 E2) as (li' & -> & E3 & Hn & Hp & Ho); [set_solver..|].
  exists li'. split; [done|]. split.
  - apply ring_split. destruct (gap_ext li li' nil l1 l2) as [G1 G2]; [done| | |done|done].
    + intros v Hv ?. by apply Hn.
    + intros v Hv ?. by apply Hp.
  - intros v Hv. apply Ho; set_solver.
Qed.

Lemma ring_ext li li' nil l : (∀ v, v ∈ nil :: l → li' !! v = li !! v) → NoDup (nil :: l) →
  ring li nil l → ring li' nil l.
Proof.
  intros H Hnd Hr. apply (ring_split _ _ [] l) in Hr as (_ & E & H2). apply (ring_split _ _ [] l).
  pose proof (head_or_in nil l). split_and!; [done| |].
  - destruct E as [E1 E2]. unfold edge, nxt, prv in *. rewrite !H by set_solver. done.
  - apply (gap_ext li li' nil [] l); [done|..]; [intros v Hv _; unfold nxt, prv; by rewrite H..|done].
Qed.

(** The item after one of the ring. *)
Lemma ring_next li nil l1 x l2 : ring li nil (l1 ++ x :: l2) → nxt li x = Some (head_or nil l2).
Proof.
  rewrite (cons_middle x l1 l2), app_assoc. intros (_ & [H _] & _)%ring_split.
  revert H. unfold last_from. by rewrite last_snoc.
Qed.
