(* ===== verification/QMapInv.v ===== *)
(** * Balanced maps: what a map holds

    [map_at M q I] says that memory holds, at the map [q], the items [I] in the order of
    their keys: a red-black tree, the ring of the items, their keys and their number.
    The searches and the walk of a map give what its items say. *)

From S2P Require Import Prelude QMap QMapRep QMapIns QMapList.

Open Scope Z_scope.

(** The keys that are [ok] are ordered by [cmp], as a three-way comparison. *)
Class KeyOrder {K : Type} (ok : K → Prop) (cmp : K → K → Z) : Prop := {
  cmp_eq k k' : ok k → ok k' → cmp k k' = 0 ↔ k = k';
  cmp_opp k k' : ok k → ok k' → cmp k k' < 0 ↔ 0 < cmp k' k;
  cmp_trans k1 k2 k3 : ok k1 → ok k2 → ok k3 → cmp k1 k2 < 0 → cmp k2 k3 < 0 → cmp k1 k3 < 0
}.

(** ** Items with their keys *)

Section Items.
Context {K : Type} (cmp : K → K → Z).
Implicit Types I : list (K * Z).

(** The items below, at and above a key, in the order of a list. *)
Definition below (key : K) I : list (K * Z) := filter (λ e, 0 < cmp key e.1) I.
Definition same (key : K) I : list (K * Z) := filter (λ e, cmp key e.1 = 0) I.
Definition above (key : K) I : list (K * Z) := filter (λ e, cmp key e.1 < 0) I.

(** What looking up, inserting and removing mean. *)
Definition find_key (key : K) I : option Z := snd <$> head (same key I).
Definition next_key (key : K) I : option Z := snd <$> head (above key I).
Definition put (key : K) (a : Z) I : list (K * Z) := below key I ++ (key, a) :: above key I.
Definition cut (a : Z) I : list (K * Z) := filter (λ e, e.2 ≠ a) I.

Definition ascending I : Prop := StronglySorted (λ x y, cmp x.1 y.1 < 0) I.
End Items.

Section Order.
Context {K : Type} {ok : K → Prop} {cmp : K → K → Z} {Ord : KeyOrder ok cmp}.
Implicit Types I : list (K * Z).

Lemma key_refl k : ok k → cmp k k = 0.
Proof. intros H. by apply (cmp_eq (ok := ok)). Qed.

Lemma cmp_cases k k' : ok k → ok k' →
  cmp k k' < 0 ∧ 0 < cmp k' k ∨ k = k' ∧ cmp k k' = 0 ∨ 0 < cmp k k' ∧ cmp k' k < 0.
Proof.
  intros H H'. pose proof (cmp_eq (ok := ok) k k' H H'). pose proof (cmp_opp (ok := ok) k k' H H').
  pose proof (cmp_opp (ok := ok) k' k H' H). destruct (Ztrichotomy (cmp k k') 0) as [|[|]]; [left|right; left|right; right]; split; tauto || lia || naive_solver.
Qed.

Lemma filter_Forall_not {A} (P : A → Prop) `{∀ x, Decision (P x)} l : Forall (λ x, ¬ P x) l → filter P l = [].
Proof. induction 1; [done|]. by rewrite filter_cons_False. Qed.
Lemma filter_Forall {A} (P : A → Prop) `{∀ x, Decision (P x)} l : Forall P l → filter P l = l.
Proof. rewrite Forall_forall. apply filter_all. Qed.

(** A sorted list is what is below a key, at it and above it. *)
Lemma ascending_split key I : ok key → Forall (λ e, ok e.1) I → ascending cmp I →
  I = below cmp key I ++ same cmp key I ++ above cmp key I.
Proof.
  intros Hk Hok Hs. induction Hs as [|[k a] I Hs IH Hx]; [done|].
  apply Forall_cons in Hok as [Hk' Hok]. specialize (IH Hok). simpl in Hk'.
  unfold below, same, above in *. rewrite !filter_cons. simpl.
  destruct (cmp_cases key k Hk Hk') as [[H _]|[[-> H]|[H _]]];
    repeat case_decide; try lia.
  - assert (Forall (λ e : K * Z, cmp key e.1 < 0) I) as F.
    { rewrite Forall_forall in *. intros e He.
      apply (cmp_trans (ok := ok) key k e.1); [done..|by apply Hok|done|by apply Hx]. }
    rewrite (filter_Forall_not (λ e : K * Z, 0 < cmp key e.1)), (filter_Forall_not (λ e : K * Z, cmp key e.1 = 0)), filter_Forall; [done|..]; (eapply Forall_impl; [exact F|]); intros e; simpl; lia.
  - assert (Forall (λ e : K * Z, cmp k e.1 < 0) I) as F by exact Hx.
    rewrite (filter_Forall_not (λ e : K * Z, 0 < cmp k e.1)), (filter_Forall_not (λ e : K * Z, cmp k e.1 = 0)), filter_Forall; [done|..]; (eapply Forall_impl; [exact F|]); intros e; simpl; lia.
  - simpl. by f_equal.
Qed.

Lemma same_find key I a : ok key → Forall (λ e, ok e.1) I → ascending cmp I → (key, a) ∈ I → find_key cmp key I = Some a.
Proof.
  intros Hk Hok Hs Ha. assert ((key, a) ∈ same cmp key I) as Hin.
  { apply list_elem_of_filter. split; [by apply key_refl|done]. }
  unfold find_key. destruct (same cmp key I) as [|[k' a'] l] eqn:E; [by apply not_elem_of_nil in Hin|].
  simpl. f_equal. apply elem_of_cons in Hin as [[= -> ->]|Hin]; [done|exfalso].
  rewrite (ascending_split key I Hk Hok Hs), E in Hs. apply StronglySorted_app_1_r, StronglySorted_app_1_l in Hs.
  apply StronglySorted_inv in Hs as [_ Hs].
  rewrite Forall_forall in Hs. specialize (Hs _ Hin). simpl in Hs.
  assert (cmp key k' = 0) as Hc.
  { assert ((k', a') ∈ same cmp key I) as H by (rewrite E; left). by apply list_elem_of_filter in H as [H _]. }
  assert (ok k') as Hk'.
  { assert ((k', a') ∈ same cmp key I) as H by (rewrite E; left). apply list_elem_of_filter in H as [_ H].
    rewrite Forall_forall in Hok. exact (Hok _ H). }
  apply (cmp_eq (ok := ok)) in Hc as ->; [|done..]. rewrite key_refl in Hs by done. lia.
Qed.

Lemma find_None k I : ok k → Forall (λ e, ok e.1) I → find_key cmp k I = None ↔ k ∉ I.*1.
Proof.
  intros Hk Hok. unfold find_key, same. rewrite Forall_forall in Hok. split.
  - intros Hn ([k' a] & E & He)%list_elem_of_fmap. simpl in E. subst k'.
    assert ((k, a) ∈ filter (λ e : K * Z, cmp k e.1 = 0) I) as Hin by (apply list_elem_of_filter; split; [by apply key_refl|done]).
    by destruct (filter (λ e : K * Z, cmp k e.1 = 0) I); [apply not_elem_of_nil in Hin|].
  - intros Hn. rewrite filter_Forall_not; [done|]. apply Forall_forall. intros e He Hc. apply Hn.
    apply (cmp_eq (ok := ok)) in Hc as ->; [by apply list_elem_of_fmap_2|done|by apply Hok].
Qed.

(** Sorted lists of the same items are the same. *)
Lemma ascending_unique I J : Forall (λ e, ok e.1) I → ascending cmp I → ascending cmp J → I ≡ₚ J → I = J.
Proof.
  intros Hok H1 H2 HP. eapply StronglySorted_unique_strong; [|exact H1|exact H2|exact HP].
  intros x y Hx Hy Hxy Hyx. exfalso. rewrite <- HP in Hy. rewrite Forall_forall in Hok.
  simpl in Hxy, Hyx. apply (cmp_opp (ok := ok)) in Hxy; [lia|by apply Hok..].
Qed.
End Order.

(** ** Searching a tree *)

Section Search.
Context {K : Type}.
Implicit Types M : cl_mem K.
Implicit Types ls : gmap Z cl_map_links.

(** What a comparison with the key of an item gives. *)
Definition at_key M (f : K → Z) (a : Z) : Z := default 0 (f <$> mem_key M !! a).

(** A comparison with the key sought: first it is above the items, then at them, then
    below. *)
Definition mono (g : Z → Z) (l : list Z) : Prop :=
  StronglySorted (λ a b, (g a < 0 → g b < 0) ∧ (0 < g b → 0 < g a)) l.

Lemma mono_app g l1 l2 : mono g (l1 ++ l2) →
  mono g l1 ∧ mono g l2 ∧ ∀ a b, a ∈ l1 → b ∈ l2 → (g a < 0 → g b < 0) ∧ (0 < g b → 0 < g a).
Proof. intros H. apply StronglySorted_app in H as (H1 & H2 & H3). split_and!; [done|done|]. intros a b. apply H1. Qed.

Lemma mono_node g l a r : mono g (l ++ a :: r) →
  mono g l ∧ mono g r ∧ (g a < 0 → ∀ b, b ∈ r → g b < 0) ∧ (0 < g a → ∀ b, b ∈ l → 0 < g b) ∧
  (0 ≤ g a → ∀ b, b ∈ l → 0 ≤ g b).
Proof.
  intros H. apply mono_app in H as (H1 & H2 & H3). apply StronglySorted_inv in H2 as [H2 H4].
  rewrite Forall_forall in H4. split_and!; [done|done|..]; intros Ha b Hb.
  - by apply (H4 b).
  - apply (H3 b a); [done|left|done].
  - destruct (H3 b a) as [H5 _]; [done|left|]. lia.
Qed.

(** The links and the keys of a tree's items. *)
Record searchable M (nil u : Z) (t : tree) : Prop := {
  s_tree : tree_at nil (mem_links M) u t;
  s_keys : ∀ a, a ∈ inorder t → is_Some (mem_key M !! a);
  s_nil : nil ∉ inorder t
}.

Lemma searchable_T M nil u c l a r : searchable M nil u (T c l a r) →
  (∃ k lk, mem_key M !! a = Some k ∧ mem_links M !! a = Some lk ∧ (∀ f, at_key M f a = f k) ∧
    p_left lk = ptr nil l ∧ p_right lk = ptr nil r) ∧
  a ≠ nil ∧ searchable M nil a l ∧ searchable M nil a r.
Proof.
  intros [(H1 & Hl & Hr) H2 H3]. destruct (H2 a) as [k Hk]; [simpl; set_solver|]. split_and!.
  - exists k. eexists. split_and!; [done..| |done|done]. intros f. unfold at_key. by rewrite Hk.
  - simpl in H3. set_solver.
  - split; [done| |]; simpl in *; [|set_solver]. intros b Hb. apply H2. set_solver.
  - split; [done| |]; simpl in *; [|set_solver]. intros b Hb. apply H2. set_solver.
Qed.

(** The number of items on the longest way down. *)
Fixpoint depth (t : tree) : nat := match t with E => 0 | T _ l _ r => S (depth l `max` depth r) end.

Lemma depth_length t : (depth t ≤ length (inorder t))%nat.
Proof. induction t as [|c l IHl a r IHr]; simpl; [done|]. rewrite length_app. simpl. lia. Qed.

Lemma match_loop_ok M nil (f : K → Z) t : ∀ u fuel, searchable M nil u t →
  (depth t < fuel)%nat →
  ∃ p, match_loop fuel M nil f (ptr nil t) = Some p ∧
    (p = nil ∧ (mono (at_key M f) (inorder t) → ∀ a, a ∈ inorder t → at_key M f a ≠ 0) ∨
     p ∈ inorder t ∧ at_key M f p = 0).
Proof.
  induction t as [|c l IHl a r IHr]; intros u fuel Hs Hf; (destruct fuel as [|fuel]; [lia|]).
  - exists nil. simpl. rewrite Z.eqb_refl. split; [done|left; split; [done|]]. intros _ b Hb. set_solver.
  - apply searchable_T in Hs as ((k & lk & Hk & Hlk & Hg & El & Er) & Hne & Hsl & Hsr).
    simpl in Hf |- *. rewrite (proj2 (Z.eqb_neq _ _)), Hk, Hlk by done.
    cbn [mbind option_bind]. destruct (Z.eqb_spec (f k) 0) as [H0|H0].
    + exists a. split; [done|right]. rewrite Hg. set_solver.
    + destruct (Z.ltb_spec (f k) 0) as [Hlt|Hge]; rewrite ?El, ?Er.
      * destruct (IHl _ fuel Hsl) as (p & -> & Hp); [lia|]. exists p. split; [done|].
        destruct Hp as [[-> Hp]|[Hp Hp0]]; [left|right; set_solver]. split; [done|].
        intros Hm b Hb. apply mono_node in Hm as (Hml & _ & Hm & _ & _).
        apply elem_of_app in Hb as [Hb|Hb]; [by apply Hp|]. apply elem_of_cons in Hb as [->|Hb]; [by rewrite Hg|].
        specialize (Hm ltac:(by rewrite Hg) b Hb). lia.
      * destruct (IHr _ fuel Hsr) as (p & -> & Hp); [lia|]. exists p. split; [done|].
        destruct Hp as [[-> Hp]|[Hp Hp0]]; [left|right; set_solver]. split; [done|].
        intros Hm b Hb. apply mono_node in Hm as (_ & Hmr & _ & Hm & _).
        apply elem_of_app in Hb as [Hb|Hb]; [specialize (Hm ltac:(rewrite Hg; lia) b Hb); lia|].
        apply elem_of_cons in Hb as [->|Hb]; [by rewrite Hg|]. by apply Hp.
Qed.

Lemma get_next_loop_ok (cmp : K → K → Z) M nil key t : ∀ u fuel found, searchable M nil u t →
  (length (inorder t) < fuel)%nat → mono (at_key M (cmp key)) (inorder t) →
  get_next_loop cmp fuel M nil key (ptr nil t) found =
    Some (head_or found (filter (λ a, at_key M (cmp key) a < 0) (inorder t))).
Proof.
  induction t as [|c l IHl a r IHr]; intros u fuel found Hs Hf Hm; (destruct fuel as [|fuel]; [lia|]).
  - simpl. by rewrite Z.eqb_refl.
  - apply searchable_T in Hs as ((k & lk & Hk & Hlk & Hg & El & Er) & Hne & Hsl & Hsr).
    apply mono_node in Hm as (Hml & Hmr & _ & _ & Hm2). simpl in Hf |- *. rewrite length_app in Hf. simpl in Hf.
    rewrite (proj2 (Z.eqb_neq _ _)), Hk, Hlk by done. cbn [mbind option_bind].
    rewrite filter_app, filter_cons, Hg. destruct (Z.ltb_spec (cmp key k) 0) as [Hlt|Hge].
    + rewrite El, (IHl a) by (done || lia). rewrite decide_True by done.
      destruct (filter _ (inorder l)) as [|b l']; done.
    + rewrite Er, (IHr a) by (done || lia). rewrite decide_False by lia.
      rewrite (filter_Forall_not _ (inorder l)); [done|]. apply Forall_forall. intros b Hb.
      specialize (Hm2 ltac:(rewrite Hg; lia) b Hb). lia.
Qed.

(** Where the search for the place of a new item may stand. *)
Record located M (key : K) (cmp : K → K → Z) (z : list frame) (c : Z) : Prop := {
  l_before : ∀ a, a ∈ before z → 0 < at_key M (cmp key) a;
  l_after : ∀ a, a ∈ after z → at_key M (cmp key) a < 0;
  l_side : z ≠ [] → if c <? 0 then side_at z = Lft else side_at z = Rgt
}.

Lemma locate_ok (cmp : K → K → Z) root M nil key t : ∀ z c fuel, searchable M nil (up_of root z) t →
  (length (inorder t) < fuel)%nat → mono (at_key M (cmp key)) (inorder t) → located M key cmp z c →
  (∃ p, locate cmp fuel M nil key (up_of root z) c (ptr nil t) = Some (inl p) ∧ p ∈ inorder t ∧
     at_key M (cmp key) p = 0) ∨
  (∃ z' c', locate cmp fuel M nil key (up_of root z) c (ptr nil t) = Some (inr (up_of root z', c')) ∧
     plug z' E = plug z t ∧ located M key cmp z' c').
Proof.
  induction t as [|cl l IHl a r IHr]; intros z c fuel Hs Hf Hm Hl; (destruct fuel as [|fuel]; [lia|]).
  - right. exists z, c. simpl. by rewrite Z.eqb_refl.
  - apply searchable_T in Hs as ((k & lk & Hk & Hlk & Hg & El & Er) & Hne & Hsl & Hsr).
    apply mono_node in Hm as (Hml & Hmr & Hm1 & Hm2 & _). simpl in Hf |- *. rewrite length_app in Hf. simpl in Hf.
    rewrite (proj2 (Z.eqb_neq _ _)), Hk, Hlk by done. cbn [mbind option_bind]. rewrite Hg in Hm1, Hm2.
    destruct (Z.eqb_spec (cmp key k) 0) as [H0|H0].
    + left. exists a. rewrite Hg. set_solver.
    + destruct Hl as [L1 L2 L3]. destruct (Z.ltb_spec (cmp key k) 0) as [Hlt|Hge]; rewrite ?El, ?Er.
      * destruct (IHl (Frame Lft cl a r :: z) (cmp key k) fuel) as [(p & H1 & H2 & H3)|(z' & c' & H)]; [done|lia|done| | |].
        -- split; simpl; [done| |intros _; by rewrite (proj2 (Z.ltb_lt _ _))].
           intros b [->|[Hb|Hb]%elem_of_app]%elem_of_cons; [by rewrite Hg|by apply Hm1|by apply L2].
        -- left. exists p. set_solver.
        -- right. by exists z', c'.
      * destruct (IHr (Frame Rgt cl a l :: z) (cmp key k) fuel) as [(p & H1 & H2 & H3)|(z' & c' & H)]; [done|lia|done| | |].
        -- split; simpl; [|done|intros _; by rewrite (proj2 (Z.ltb_ge _ _))].
           intros b [Hb|[Hb|Hb]%elem_of_app]%elem_of_app; [by apply L1|apply Hm2; [lia|done]|].
           apply list_elem_of_singleton in Hb as ->. rewrite Hg. lia.
        -- left. exists p. set_solver.
        -- right. by exists z', c'.
Qed.

(** The walk along the ring. *)
Lemma apply_loop_ok M nil l : ∀ a fuel, linked (mem_list M) a (l ++ [nil]) → nil ∉ l → (length l < fuel)%nat →
  apply_loop fuel M nil (head_or nil l) = Some l.
Proof.
  induction l as [|b l IH]; intros a fuel Hl Hnil Hf; (destruct fuel as [|fuel]; [lia|]); simpl.
  - by rewrite Z.eqb_refl.
  - change (head_or nil (b :: l)) with b.
    rewrite (proj2 (Z.eqb_neq _ _)) by set_solver. destruct Hl as [_ Hl]. simpl in Hf.
    assert (cl_fmap_next M b = Some (head_or nil l)) as ->.
    { destruct l as [|c l]; destruct Hl as [[Hn _] _]; apply nxt_Some in Hn as (it & Hit & En);
        unfold cl_fmap_next; by rewrite Hit, <- En. }
    cbn [mbind option_bind]. rewrite (IH b) by (done || lia || set_solver). done.
Qed.
End Search.
