(* ===== verification/QMapOk.v ===== *)
(** * Balanced maps: what a map holds

    [map_at M q I] says that memory holds, at the map [q], the items [I] in the order of
    their keys: a red-black tree, the ring of the items, their keys and their number.
    Looking up and walking a map give what its items say. *)

From S2P Require Import Prelude QMap QMapRep QMapIns QMapList QMapInv.

Open Scope Z_scope.

(** The addresses a map uses. *)
Definition footprint {K} (q : cl_qmap) (I : list (K * Z)) : list Z := q_root q :: q_nil q :: I.*2.

Record map_at {K} (ok : K → Prop) (cmp : K → K → Z) (M : cl_mem K) (q : cl_qmap) (I : list (K * Z)) : Prop := {
  at_fresh : NoDup (footprint q I);
  at_nil : ∃ l, mem_links M !! q_nil q = Some l ∧ color l = CL_MAP_BLACK;
  at_tree : ∃ n t, rep (q_root q) (q_nil q) I.*2 (mem_links M) (mem_links M) t [] ∧
    inorder t = I.*2 ∧ rb CL_MAP_BLACK n t;
  at_ring : ring (mem_list M) (q_nil q) I.*2;
  at_keys : Forall (λ e, mem_key M !! e.2 = Some e.1) I;
  at_ok : Forall (λ e, ok e.1) I;
  at_sorted : ascending cmp I;
  at_count : q_count q = Z.of_nat (length I)
}.

(** Memory is the same outside some addresses. *)
Definition keeps {K} (M M' : cl_mem K) (L : list Z) : Prop := ∀ a, a ∉ L →
  mem_links M' !! a = mem_links M !! a ∧ mem_list M' !! a = mem_list M !! a ∧ mem_key M' !! a = mem_key M !! a.

Lemma tree_links nil ls u t a : tree_at nil ls u t → a ∈ inorder t → is_Some (ls !! a).
Proof.
  revert u. induction t as [|c l IHl b r IHr]; intros u; simpl; [set_solver|]. intros (H1 & H2 & H3).
  intros [Ha|[->|Ha]%elem_of_cons]%elem_of_app; [by eapply IHl|done|by eapply IHr].
Qed.

Section Ok.
Context {K : Type} {ok : K → Prop} {cmp : K → K → Z} {Ord : KeyOrder ok cmp}.
Implicit Types I : list (K * Z).
Implicit Types M : cl_mem K.

Lemma keeps_sub M M' L L' : L ⊆ L' → keeps M M' L → keeps M M' L'.
Proof. intros HL H a Ha. apply H. set_solver. Qed.

Lemma keeps_trans M1 M2 M3 L : keeps M1 M2 L → keeps M2 M3 L → keeps M1 M3 L.
Proof. intros H1 H2 a Ha. destruct (H1 a Ha) as (<- & <- & <-). by apply H2. Qed.

(** A map is the same where its own addresses are. *)
Lemma map_at_ext M M' q I L : keeps M M' L → (∀ a, a ∈ footprint q I → a ∉ L) →
  map_at ok cmp M q I → map_at ok cmp M' q I.
Proof.
  intros Hk HL [H1 H2 (n & t & Hr & Ht & Hn) H4 H5 H6 H7 H8].
  assert (Hf : ∀ a, a ∈ footprint q I → mem_links M' !! a = mem_links M !! a ∧ mem_list M' !! a = mem_list M !! a ∧
    mem_key M' !! a = mem_key M !! a) by (intros a Ha; by apply Hk, HL). clear Hk HL L. unfold footprint in Hf.
  split; [done| | | | |done|done|done].
  - destruct (Hf (q_nil q)) as [-> _]; [set_solver|done].
  - exists n, t. split_and!; [|done|done]. destruct Hr as [R1 R2 R3 R4]. simpl in R1. rewrite app_nil_r in R1.
    split; simpl; [by rewrite app_nil_r| | |done].
    + eapply tree_at_ext; [|exact R2]. intros a Ha. apply Hf. rewrite <- R1. set_solver.
    + simpl in R3. destruct (Hf (q_root q)) as [-> _]; [set_solver|done].
  - eapply ring_ext; [|by apply NoDup_cons in H1 as [_ H1]|done]. intros a Ha. apply Hf. set_solver.
  - rewrite Forall_forall in *. intros e He. destruct (Hf e.2) as (_ & _ & ->); [|by apply H5].
    apply elem_of_cons; right; apply elem_of_cons; right. apply list_elem_of_fmap. by exists e.
Qed.

(** *** The parts of a map *)

Lemma at_env M q I : map_at ok cmp M q I →
  ∃ l, mem_links M !! q_nil q = Some l ∧ EnvOk (q_root q) (q_nil q) I.*2 (mem_links M) l.
Proof. intros H. destruct (at_nil _ _ _ _ _ H) as (l & Hl & Hc). exists l. split; [done|]. split; [exact (at_fresh _ _ _ _ _ H)|done|done]. Qed.

Lemma at_key_item M q I e f : map_at ok cmp M q I → e ∈ I → at_key M f e.2 = f e.1.
Proof.
  intros H He. pose proof (at_keys _ _ _ _ _ H) as Hk. rewrite Forall_forall in Hk. unfold at_key.
  by rewrite (Hk _ He).
Qed.

Lemma at_searchable M q I n t : map_at ok cmp M q I →
  rep (q_root q) (q_nil q) I.*2 (mem_links M) (mem_links M) t [] → inorder t = I.*2 → rb CL_MAP_BLACK n t →
  searchable M (q_nil q) (q_root q) t.
Proof.
  intros H Hr Ht _. destruct Hr as [_ Hr _ _]. split; [done| |].
  - rewrite Ht. intros a ([k b] & -> & He)%list_elem_of_fmap. exists k.
    pose proof (at_keys _ _ _ _ _ H) as Hk. rewrite Forall_forall in Hk. by apply Hk.
  - rewrite Ht. pose proof (at_fresh _ _ _ _ _ H) as F. unfold footprint in F. rewrite !NoDup_cons in F. tauto.
Qed.

(** The fuel of the loops is enough. *)
Lemma at_fuel M q I : map_at ok cmp M q I → (length I < map_fuel M)%nat.
Proof.
  intros H. destruct (at_tree _ _ _ _ _ H) as (n & t & Hr & Ht & Hn). unfold map_fuel.
  pose proof (at_fresh _ _ _ _ _ H) as F. unfold footprint in F. rewrite !NoDup_cons in F.
  destruct F as (_ & _ & F). rewrite <- (size_dom (mem_links M)).
  assert (length I = size (list_to_set I.*2 : gset Z)) as ->.
  { rewrite size_list_to_set by done. by rewrite length_fmap. }
  apply Nat.lt_succ_r, subseteq_size. intros a Ha. apply elem_of_list_to_set in Ha. rewrite <- Ht in Ha.
  apply elem_of_dom. destruct Hr as [_ Hr _ _]. by eapply tree_links.
Qed.

(** Items are in memory. *)
Lemma item_memory M q I p : map_at ok cmp M q I → p ∈ I.*2 →
  is_Some (mem_links M !! p) ∧ is_Some (mem_list M !! p).
Proof.
  intros H Hp. destruct (at_tree _ _ _ _ _ H) as (n & t & [_ Hr _ _] & Ht & _). split.
  - eapply tree_links; [exact Hr|]. by rewrite Ht.
  - pose proof (at_ring _ _ _ _ _ H) as Hring. apply list_elem_of_split in Hp as (l1 & l2 & E). rewrite E in Hring.
    apply ring_next, nxt_Some in Hring as (it & Hit & _). by exists it.
Qed.

(** The comparisons with the items are those with their keys. *)
Lemma filter_at_key M q I (P : Z → Prop) `{∀ x, Decision (P x)} f : map_at ok cmp M q I →
  filter (λ a, P (at_key M f a)) I.*2 = (filter (λ e, P (f e.1)) I).*2.
Proof.
  intros H1. pose proof (at_keys _ _ _ _ _ H1) as Hk. clear H1. induction Hk as [|e I He Hk IH]; [done|].
  assert (at_key M f e.2 = f e.1) as E by (unfold at_key; by rewrite He).
  rewrite fmap_cons. destruct (decide (P (f e.1))) as [HP|HP].
  - rewrite !filter_cons_True by (done || by rewrite E). by rewrite fmap_cons, IH.
  - rewrite !filter_cons_False by (done || by rewrite E). done.
Qed.

Lemma at_mono M q I f : map_at ok cmp M q I →
  (∀ k k', ok k → ok k' → cmp k k' < 0 → (f k < 0 → f k' < 0) ∧ (0 < f k' → 0 < f k)) →
  mono (at_key M f) I.*2.
Proof.
  intros [_ _ _ _ Hk Hok Hs _] Hf. unfold mono. induction Hs as [|e I Hs IH He]; [constructor|].
  apply Forall_cons in Hk as [Hke Hk]. apply Forall_cons in Hok as [Hoe Hok]. rewrite fmap_cons.
  constructor; [by apply IH|]. rewrite Forall_fmap. rewrite Forall_forall in *. intros e' He'.
  unfold at_key. simpl. rewrite Hke, (Hk _ He'). simpl. apply Hf; [done|by apply Hok|by apply He].
Qed.

Lemma cmp_mono key k k' : ok key → ok k → ok k' → cmp k k' < 0 →
  (cmp key k < 0 → cmp key k' < 0) ∧ (0 < cmp key k' → 0 < cmp key k).
Proof.
  intros H1 H2 H3 H. split.
  - intros H4. by eapply (cmp_trans (ok := ok)); [..|exact H4|exact H].
  - rewrite <- !(cmp_opp (ok := ok)) by done. intros H4. by eapply (cmp_trans (ok := ok)); [..|exact H|exact H4].
Qed.

(** ** Looking up *)

Lemma fmap_root_ok M q I : map_at ok cmp M q I → ∃ n t,
  rep (q_root q) (q_nil q) I.*2 (mem_links M) (mem_links M) t [] ∧ inorder t = I.*2 ∧ rb CL_MAP_BLACK n t ∧
  __cl_fmap_root M q = Some (ptr (q_nil q) t).
Proof.
  intros H. destruct (at_tree _ _ _ _ _ H) as (n & t & Hr & Ht & Hn). exists n, t. split_and!; [done..|].
  unfold __cl_fmap_root. destruct Hr as [_ _ Hr _]. simpl in Hr. by rewrite Hr.
Qed.

Lemma fuel_inorder M q I t : map_at ok cmp M q I → inorder t = I.*2 → (length (inorder t) < map_fuel M)%nat.
Proof. intros H ->. rewrite length_fmap. by eapply at_fuel. Qed.

(** The first item a search finds is at zero; if there is none the end is given. *)
Lemma match_ok M q I f : map_at ok cmp M q I →
  ∃ p, cl_fmap_match M q f = Some p ∧
    (p = q_nil q ∧ (mono (at_key M f) I.*2 → filter (λ e, f e.1 = 0) I = []) ∨
     ∃ k, (k, p) ∈ I ∧ f k = 0).
Proof.
  intros H. destruct (fmap_root_ok _ _ _ H) as (n & t & Hr & Ht & Hn & Hroot).
  destruct (match_loop_ok M (q_nil q) f t (q_root q) (map_fuel M)) as (p & Hp & Hcase);
    [by eapply at_searchable|eapply Nat.le_lt_trans; [apply depth_length|by eapply fuel_inorder]|].
  exists p. unfold cl_fmap_match. rewrite Hroot. cbn [mbind option_bind]. split; [done|]. rewrite Ht in Hcase.
  destruct Hcase as [[-> Hcase]|[Hin H0]]; [left|right].
  - split; [done|]. intros Hm. apply filter_Forall_not. apply Forall_forall. intros e He.
    rewrite <- (at_key_item _ _ _ _ f H He). apply Hcase; [done|]. apply list_elem_of_fmap. by exists e.
  - apply list_elem_of_fmap in Hin as ([k a] & -> & He). exists k. split; [done|].
    by rewrite (at_key_item _ _ _ _ f H He) in H0.
Qed.

Lemma get_ok M q I key : map_at ok cmp M q I → ok key →
  cl_fmap_get cmp M q key = Some (default (q_nil q) (find_key cmp key I)).
Proof.
  intros H Hk. destruct (match_ok _ _ _ (cmp key) H) as (p & Hp & Hcase). unfold cl_fmap_get. rewrite Hp. f_equal.
  pose proof (at_ok _ _ _ _ _ H) as Hok. destruct Hcase as [[-> Hcase]|(k & Hin & H0)].
  - unfold find_key, same. rewrite Hcase; [done|]. eapply at_mono; [done|]. intros. by apply cmp_mono.
  - assert (ok k) by (rewrite Forall_forall in Hok; exact (Hok _ Hin)).
    apply (cmp_eq (ok := ok)) in H0 as <-; [|done..].
    by rewrite (same_find _ _ _ Hk Hok (at_sorted _ _ _ _ _ H) Hin).
Qed.

Lemma get_next_ok M q I key : map_at ok cmp M q I → ok key →
  cl_fmap_get_next cmp M q key = Some (default (q_nil q) (next_key cmp key I)).
Proof.
  intros H Hk. destruct (fmap_root_ok _ _ _ H) as (n & t & Hr & Ht & Hn & Hroot). unfold cl_fmap_get_next.
  rewrite Hroot. cbn [mbind option_bind].
  rewrite (get_next_loop_ok cmp M (q_nil q) key t (q_root q)); [|by eapply at_searchable|by eapply fuel_inorder|].
  - rewrite Ht. pose proof (filter_at_key M q I (λ x, x < 0) (cmp key) H) as E. simpl in E. rewrite E.
    unfold next_key, above, head_or. f_equal. by destruct (filter _ I).
  - rewrite Ht. eapply at_mono; [done|]. intros. by apply cmp_mono.
Qed.

Lemma head_ok M q I : map_at ok cmp M q I → cl_fmap_head M q = Some (head_or (q_nil q) I.*2).
Proof.
  intros H. pose proof (at_ring _ _ _ _ _ H) as Hr. unfold cl_fmap_head.
  apply (ring_split _ _ [] I.*2) in Hr as (_ & [Hn _] & _).
  apply nxt_Some in Hn as (it & Hit & En). unfold last_from in Hit. simpl in Hit. rewrite Hit. simpl. by rewrite En.
Qed.

Lemma walk_ok M q I : map_at ok cmp M q I → cl_fmap_apply_func M q = Some I.*2.
Proof.
  intros H. unfold cl_fmap_apply_func. rewrite (head_ok _ _ _ H). cbn [mbind option_bind].
  apply (apply_loop_ok _ _ _ (q_nil q)); [exact (at_ring _ _ _ _ _ H)| |].
  - pose proof (at_fresh _ _ _ _ _ H) as F. unfold footprint in F. rewrite !NoDup_cons in F. tauto.
  - rewrite length_fmap. by eapply at_fuel.
Qed.
End Ok.
