(* ===== verification/QMapPut.v ===== *)
(** * Balanced maps: initializing a map and inserting

    An initialized map is empty.  An insertion finds the item with the key, or puts the
    new item in its place in the order, and leaves the memory of others as it is. *)

From S2P Require Import Prelude QMap QMapRep QMapIns QMapList QMapInv QMapOk.

Open Scope Z_scope.

(** Links whose own outside is the outside. *)
Lemma rep_self root nil S ls0 ls t z : rep root nil S ls0 ls t z → rep root nil S ls ls t z.
Proof. intros [H1 H2 H3 H4]. by split. Qed.

Lemma size_insert_ge {A} (m : gmap Z A) k x : (size m ≤ size (<[k := x]> m))%nat.
Proof. rewrite <- !size_dom. apply subseteq_size. rewrite dom_insert. set_solver. Qed.

Section Put.
Context {K : Type} {ok : K → Prop} {cmp : K → K → Z} {Ord : KeyOrder ok cmp}.
Implicit Types I : list (K * Z).
Implicit Types M : cl_mem K.
Local Notation map_at := (map_at ok cmp).

(** ** An empty map *)

Lemma init_ok M root nil : root ≠ nil → ∃ M' q, cl_fmap_init M root nil = Some (M', q) ∧
  map_at M' q [] ∧ q_root q = root ∧ q_nil q = nil ∧ keeps M M' [root; nil].
Proof.
  intros Hne. unfold cl_fmap_init, cl_fmap_remove_all. simpl.
  erewrite set_child_Some by (rewrite lookup_insert_ne by done; apply lookup_insert_eq).
  cbn [mbind option_bind with_child]. unfold upd. simpl. rewrite lookup_insert_eq. cbn [mbind option_bind].
  eexists _, _. split; [done|]. split_and!; [|done|done|].
  - split; simpl; [|eexists; split; [by rewrite lookup_insert_ne, lookup_insert_eq|done]| | |constructor|constructor|constructor|done].
    + unfold footprint. simpl. repeat constructor; set_solver.
    + exists 0%nat, E. split_and!; [|done|constructor]. split; simpl; [done|done|by rewrite lookup_insert_eq|done].
    + unfold ring. simpl. unfold edge, nxt, prv. by rewrite lookup_insert_eq.
  - intros a Ha. simpl. rewrite !lookup_insert_ne by set_solver. done.
Qed.

(** ** A new item *)

Lemma put_ascending key a I : ok key → Forall (λ e, ok e.1) I → ascending cmp I → ascending cmp (put cmp key a I).
Proof.
  intros Hk Hok Hs. unfold put. apply StronglySorted_app. unfold ascending in Hs.
  rewrite (ascending_split key I Hk Hok Hs) in Hs. apply StronglySorted_app in Hs as (H1 & H2 & H3).
  apply StronglySorted_app_1_r in H3. rewrite Forall_forall in Hok.
  assert (∀ e, e ∈ below cmp key I → cmp e.1 key < 0) as Hb.
  { intros e [Hc He]%list_elem_of_filter. apply (cmp_opp (ok := ok)); [by apply Hok|done|done]. }
  split_and!; [|done|].
  - intros e1 e2 He1 [->|He2]%elem_of_cons; [by apply Hb|]. apply H1; [done|set_solver].
  - constructor; [done|]. apply Forall_forall. by intros e [Hc He]%list_elem_of_filter.
Qed.

Lemma put_perm key a I : find_key cmp key I = None → ok key → Forall (λ e, ok e.1) I → ascending cmp I →
  put cmp key a I ≡ₚ (key, a) :: I.
Proof.
  intros Hf Hk Hok Hs. unfold put. rewrite <- Permutation_middle. f_equiv.
  rewrite (ascending_split key I Hk Hok Hs) at 3. unfold find_key in Hf. by destruct (same cmp key I).
Qed.

(** The items before and after the place of a new one. *)
Lemma located_split M q I key z c : map_at M q I → ok key → inorder (plug z E) = I.*2 →
  located M key cmp z c →
  before z = (below cmp key I).*2 ∧ after z = (above cmp key I).*2 ∧ find_key cmp key I = None.
Proof.
  intros H Hk Hz [L1 L2 _]. rewrite inorder_plug in Hz. simpl in Hz.
  pose proof (filter_at_key M q I (λ x, 0 < x) (cmp key) H) as F1.
  pose proof (filter_at_key M q I (λ x, x < 0) (cmp key) H) as F2.
  pose proof (filter_at_key M q I (λ x, x = 0) (cmp key) H) as F3. simpl in F1, F2, F3.
  rewrite <- Hz, filter_app in F1, F2, F3.
  rewrite (filter_Forall _ (before z)), (filter_Forall_not _ (after z)), app_nil_r in F1;
    [|apply Forall_forall; intros a Ha; apply L2 in Ha; lia|apply Forall_forall; intros a Ha; by apply L1].
  rewrite (filter_Forall_not _ (before z)), (filter_Forall _ (after z)) in F2;
    [|apply Forall_forall; intros a Ha; by apply L2|apply Forall_forall; intros a Ha; apply L1 in Ha; lia].
  rewrite (filter_Forall_not _ (before z)), (filter_Forall_not _ (after z)) in F3;
    [|apply Forall_forall; intros a Ha; apply L2 in Ha; lia|apply Forall_forall; intros a Ha; apply L1 in Ha; lia].
  split_and!; [done|done|]. unfold find_key, same. by destruct (filter (λ e : K * Z, cmp key e.1 = 0) I).
Qed.

Lemma length_rest z : (length z ≤ length (rest z))%nat.
Proof. induction z as [|[d c a s] z IH]; simpl; [done|]. rewrite length_app. lia. Qed.

(** The links of a new item below its place. *)
Lemma attach_rep root nil S ls z p lp nil_links : EnvOk root nil S ls nil_links →
  rep root nil S ls ls E z → NoDup (root :: nil :: p :: S) → ls !! p = Some lp →
  p_left lp = nil → p_right lp = nil → color lp = CL_MAP_RED →
  ∃ ls1 ls2, set_child (side_at z) (up_of root z) p ls = Some ls1 ∧ set_up p (up_of root z) ls1 = Some ls2 ∧
    rep root nil (p :: S) ls ls2 (T CL_MAP_RED E p E) z ∧ (size ls ≤ size ls1)%nat.
Proof.
  intros OK H Hnd Hp El Er Ec. destruct (set_child_ok _ _ _ p H) as (l & E1 & Hc).
  set (up := up_of root z) in *. set (ls1 := <[up := l]> ls) in *.
  destruct H as [H1 _ _ _]. simpl in H1. rewrite !NoDup_cons, !not_elem_of_cons in Hnd.
  assert (up = root ∨ up ∈ S) as Hup.
  { unfold up. destruct (up_of_in (root := root) z) as [Hu|Hu]; [by left|right; by rewrite <- H1]. }
  assert (p ≠ up) as Hne by (intros ->; destruct Hup as [Hu|Hu]; [rewrite Hu in *|]; tauto).
  exists ls1. eexists. split_and!; [exact E1|apply set_up_Some; unfold ls1; rewrite lookup_insert_ne by done; exact Hp| |].
  - split.
    + simpl. by rewrite H1.
    + simpl. rewrite lookup_insert_eq. split; [|done]. f_equal. destruct lp. simpl in *. by subst.
    + eapply ctx_at_ext; [|exact Hc]. intros a Ha. rewrite lookup_insert_ne; [done|]. intros <-.
      destruct Ha as [->|Ha]; [tauto|]. rewrite H1 in Ha. tauto.
    + intros x Hx Hs. apply not_elem_of_cons in Hs as [Hxp Hs]. rewrite lookup_insert_ne by done.
      unfold ls1. rewrite lookup_insert_ne; [done|]. intros ->. tauto.
  - apply size_insert_ge.
Qed.

(** The new item in the ring. *)
Lemma attach_ok M q I z p lp nil_links c ls1 :
  EnvOk (q_root q) (q_nil q) I.*2 (mem_links M) nil_links →
  map_at M q I → rep (q_root q) (q_nil q) I.*2 (mem_links M) (mem_links M) E z →
  p ∉ footprint q I → mem_links M !! p = Some lp → is_Some (mem_list M !! p) →
  I.*2 = before z ++ after z → (z ≠ [] → if c <? 0 then side_at z = Lft else side_at z = Rgt) →
  set_child (side_at z) (up_of (q_root q) z) p (mem_links M) = Some ls1 →
  ∃ li, attach M q (up_of (q_root q) z) c p = Some (set_list (set_links M ls1) li) ∧
    ring li (q_nil q) (before z ++ p :: after z) ∧
    ∀ v, v ∉ q_nil q :: before z ++ p :: after z → li !! v = mem_list M !! v.
Proof.
  intros OK H Hr Hp Hlp Hli HI Hside E1. pose proof (at_fresh _ _ _ _ _ H) as F. unfold footprint in F, Hp.
  pose proof (at_ring _ _ _ _ _ H) as Hring. rewrite HI in F, Hring, Hp. pose proof F as F'.
  apply NoDup_cons in F' as [Fr F'].
  destruct (ring_insert _ _ _ _ p Hring F') as (li & E2 & Hli2 & Hli3); [set_solver|done|].
  exists li. split; [|done]. unfold attach. destruct z as [|[[] cz a s] z]; simpl in *.
  - rewrite Z.eqb_refl, E1. cbn [mbind option_bind]. change (head_or _ _) with (q_nil q) in E2. by rewrite E2.
  - rewrite (proj2 (Z.eqb_neq _ _)) by set_solver. specialize (Hside ltac:(done)).
    destruct (c <? 0); [|done]. rewrite E1. cbn [mbind option_bind]. change (head_or _ _) with a in E2. by rewrite E2.
  - rewrite (proj2 (Z.eqb_neq _ _)) by set_solver. specialize (Hside ltac:(done)).
    destruct (c <? 0); [done|]. rewrite E1. cbn [mbind option_bind]. unfold cl_fmap_next.
    rewrite app_assoc, <- (assoc_L (++)) in Hring. simpl in Hring. apply ring_next, nxt_Some in Hring as (it & Hit & En).
    rewrite Hit. cbn [mbind option_bind]. by rewrite En, E2.
Qed.

(** The new item and its key in memory, which are no part of the map yet. *)
Lemma before_insert M q I key p lp ls : map_at M q I → p ∉ footprint q I → mem_links M !! p = Some lp →
  ls = <[p := Links (q_nil q) (q_nil q) (p_up lp) CL_MAP_RED]> (mem_links M) →
  let M1 := (set_links M ls) <| mem_key := <[p := key]> (mem_key M) |> in
  map_at M1 q I ∧ keeps M M1 [p].
Proof.
  intros H Hp Hlp -> M1. assert (keeps M M1 [p]) as Hk.
  { intros a Ha. simpl. rewrite !lookup_insert_ne by set_solver. done. }
  split; [|done]. eapply map_at_ext; [exact Hk| |done]. intros a Ha ->%list_elem_of_singleton. done.
Qed.

(** The tree after balancing, with its root black. *)
Lemma root_black root nil S ls0 nil_links ls t c m x : EnvOk root nil S ls0 nil_links →
  rep root nil S ls0 ls t [] → rb c m t → x ∈ inorder t →
  ∃ ls' t' n, (r ← ls !! root; set_color (p_left r) CL_MAP_BLACK ls) = Some ls' ∧
    rep root nil S ls0 ls' t' [] ∧ inorder t' = inorder t ∧ rb CL_MAP_BLACK n t'.
Proof.
  intros OK H Hrb Hx. pose proof H as [_ _ Hc _]. simpl in Hc. rewrite Hc. cbn [mbind option_bind p_left].
  destruct t as [|ct l a r]; [by apply not_elem_of_nil in Hx|].
  destruct (set_color_ok _ _ _ _ _ _ CL_MAP_BLACK H) as (ls' & E1 & H').
  assert (∃ n, rb CL_MAP_BLACK n (T CL_MAP_BLACK l a r)) as [n Hn] by (inversion Hrb; subst; eauto).
  by exists ls', (T CL_MAP_BLACK l a r), n.
Qed.

(** What comes after the search. *)
Lemma insert_new M q I key p lp z c : map_at M q I → ok key → mem_key M !! p = Some key →
  mem_links M !! p = Some lp → p_left lp = q_nil q → p_right lp = q_nil q → color lp = CL_MAP_RED →
  is_Some (mem_list M !! p) → p ∉ footprint q I →
  rep (q_root q) (q_nil q) I.*2 (mem_links M) (mem_links M) E z →
  (∃ n, rb CL_MAP_BLACK n (plug z E)) → inorder (plug z E) = I.*2 → located M key cmp z c →
  find_key cmp key I = None ∧ ∃ M' q',
  (M ← attach M q (up_of (q_root q) z) c p;
   let q := q <| q_count := q_count q + 1 |> in
   ls ← set_up p (up_of (q_root q) z) (mem_links M);
   ls ← __cl_map_ins_bal (map_fuel M) (q_nil q) p ls;
   root ← __cl_fmap_root (set_links M ls) q;
   ls ← set_color root CL_MAP_BLACK ls;
   Some (p, set_links M ls, q)) = Some (p, M', q') ∧
  map_at M' q' (put cmp key p I) ∧ q_root q' = q_root q ∧ q_nil q' = q_nil q ∧
  mem_key M' = mem_key M ∧ keeps M M' (p :: footprint q I).
Proof.
  intros H Hkey Hkp Hlp El Er Ec Hli Hp Hrz [n Hn] Hzi Hl. destruct (at_env _ _ _ H) as (nl & Hnl & OK).
  destruct (located_split _ _ _ _ _ _ H Hkey Hzi Hl) as (Hb & Ha & Hf). split; [done|].
  rewrite inorder_plug in Hzi. simpl in Hzi.
  assert (Hnd : NoDup (q_root q :: q_nil q :: p :: I.*2)).
  { pose proof (at_fresh _ _ _ _ _ H) as F. unfold footprint in F, Hp. rewrite !NoDup_cons in *. set_solver. }
  destruct (attach_rep _ _ _ _ _ _ _ _ OK Hrz Hnd Hlp El Er Ec) as (ls1 & ls2 & E2 & E3 & Hr2 & Hsz).
  destruct (attach_ok _ _ _ _ _ _ _ _ _ OK H Hrz Hp Hlp Hli (eq_sym Hzi) (l_side _ _ _ _ _ Hl) E2)
    as (li & E4 & Hring & Hli'). rewrite E4. cbn [mbind option_bind]. cbv zeta.
  change (q_root (q <| q_count := _ |>)) with (q_root q). change (q_nil (q <| q_count := _ |>)) with (q_nil q).
  change (mem_links (set_list (set_links M ls1) li)) with ls1. rewrite E3. cbn [mbind option_bind].
  assert (OK2 : EnvOk (q_root q) (q_nil q) (p :: I.*2) (mem_links M) nl).
  { split; [done|exact Hnl|]. exact (nil_black _ _ _ _). }
  destruct (rb_unplug _ _ _ Hn) as (c0 & n0 & Hrb & Hrbz). inversion Hrb; subst c0 n0.
  destruct (ins_bal_ok (map_fuel (set_list (set_links M ls1) li)) _ _ _ _ _ _ Hr2 ltac:(by constructor) Hrbz) as (ls3 & t3 & -> & Hr3 & Ht3 & c3 & m3 & Hn3).
  { pose proof (length_rest z) as L. pose proof (at_fuel _ _ _ H) as F. unfold map_fuel in *. simpl.
    destruct Hrz as [R _ _ _]. simpl in R. apply Permutation_length in R. rewrite length_fmap in R. lia. }
  cbn [mbind option_bind].
  destruct (root_black _ _ _ _ _ _ _ _ _ p OK2 Hr3 Hn3) as (ls4 & t4 & n4 & E5 & Hr4 & Ht4 & Hn4).
  { rewrite Ht3, inorder_plug. simpl. set_solver. }
  unfold __cl_fmap_root. cbn [q_root set_links mem_links].
  change (mem_links (set_links _ ls3)) with ls3. change (q_root (q <| q_count := _ |>)) with (q_root q).
  destruct (ls3 !! q_root q) as [r|]; [|done]. cbn [mbind option_bind] in E5 |- *. rewrite E5. cbn [mbind option_bind].
  eexists _, _. split; [done|]. assert (Hkeys : ∀ e, e ∈ I → mem_key M !! e.2 = Some e.1).
  { pose proof (at_keys _ _ _ _ _ H) as F. by rewrite Forall_forall in F. }
  assert (Hpi : (put cmp key p I).*2 = before z ++ p :: after z).
  { unfold put. by rewrite fmap_app, fmap_cons, <- Hb, <- Ha. }
  assert (Hperm : put cmp key p I ≡ₚ (key, p) :: I)
    by (apply put_perm; [done..|exact (at_ok _ _ _ _ _ H)|exact (at_sorted _ _ _ _ _ H)]).
  assert (Ht4' : inorder t4 = (put cmp key p I).*2).
  { rewrite Ht4, Ht3, inorder_plug, Hpi. done. }
  split_and!; [|done|done|done|].
  - split; simpl.
    + unfold footprint. simpl. by rewrite Hperm.
    + exists nl. split; [by eapply rep_nil|exact (nil_black _ _ _ _)].
    + exists n4, t4. split_and!; [|done|done]. destruct Hr4 as [R1 R2 R3 R4]. split; [|done|done|done].
      rewrite R1. by rewrite Hperm.
    + by rewrite Hpi.
    + rewrite Hperm. constructor; [done|]. by apply Forall_forall.
    + rewrite Hperm. constructor; [done|]. exact (at_ok _ _ _ _ _ H).
    + apply put_ascending; [done|exact (at_ok _ _ _ _ _ H)|exact (at_sorted _ _ _ _ _ H)].
    + rewrite Hperm. simpl. rewrite (at_count _ _ _ _ _ H). lia.
  - intros a Hna. unfold footprint in Hna. simpl. split_and!; [|apply Hli'|done].
    + destruct Hr4 as [_ _ _ R4]. apply R4; set_solver.
    + rewrite <- Hzi in Hna. set_solver.
Qed.

Lemma located_nil M key c : located M key cmp [] c.
Proof. split; [..|done]; by intros a ?%not_elem_of_nil. Qed.

Lemma fmap_insert_ok M q I key p : map_at M q I → ok key → p ∉ footprint q I →
  is_Some (mem_links M !! p) → is_Some (mem_list M !! p) →
  ∃ r M' q', cl_fmap_insert cmp M q key p = Some (r, M', q') ∧ q_root q' = q_root q ∧ q_nil q' = q_nil q ∧
    mem_key M' = <[p := key]> (mem_key M) ∧ keeps M M' (p :: footprint q I) ∧
    is_Some (mem_links M' !! p) ∧ is_Some (mem_list M' !! p) ∧
    match find_key cmp key I with
    | Some a => r = a ∧ map_at M' q' I
    | None => r = p ∧ map_at M' q' (put cmp key p I)
    end.
Proof.
  intros H Hkey Hp [lp Hlp] Hli. unfold cl_fmap_insert. unfold upd at 1. rewrite Hlp. cbn [mbind option_bind].
  destruct (before_insert _ _ _ key _ _ _ H Hp Hlp eq_refl) as [H1 Hk1]. cbv zeta in H1, Hk1.
  set (M1 := (set_links M _) <| mem_key := _ |>) in *.
  destruct (fmap_root_ok _ _ _ H1) as (n & t & Hr & Ht & Hn & ->). cbn [mbind option_bind].
  assert (mono (at_key M1 (cmp key)) (inorder t)) as Hm.
  { rewrite Ht. eapply at_mono; [exact H1|]. intros. by apply cmp_mono. }
  destruct (locate_ok cmp (q_root q) M1 (q_nil q) key t [] 0 (map_fuel M1)) as [(a & E1 & Ha & H0)|(z & c & E1 & Hz & Hl)];
    [by eapply at_searchable|by eapply fuel_inorder|done|apply located_nil| |]; cbn [up_of] in E1; rewrite E1; cbn [mbind option_bind].
  - (* the key is there *)
    eexists _, _, _. split; [done|]. split_and!; [done|done|done|eapply keeps_sub; [|exact Hk1]; set_solver|simpl; by rewrite lookup_insert_eq|done|].
    rewrite Ht in Ha. apply list_elem_of_fmap in Ha as ([k b] & -> & He). rewrite (at_key_item _ _ _ _ _ H1 He) in H0.
    pose proof (at_ok _ _ _ _ _ H) as Hok. assert (ok k) by (rewrite Forall_forall in Hok; exact (Hok _ He)).
    simpl in H0. apply (cmp_eq (ok := ok)) in H0 as <-; [|done..].
    by rewrite (same_find _ _ _ Hkey Hok (at_sorted _ _ _ _ _ H) He).
  - (* a new item *)
    assert (Hrz : rep (q_root q) (q_nil q) I.*2 (mem_links M1) (mem_links M1) E z).
    { apply rep_plug. rewrite Hz. by apply rep_plug. }
    assert (Hlp1 : mem_links M1 !! p = Some (Links (q_nil q) (q_nil q) (p_up lp) CL_MAP_RED)) by (apply lookup_insert_eq).
    destruct (insert_new M1 q I key p _ z c H1 Hkey (lookup_insert_eq _ _ _) Hlp1) as (Hf & M' & q' & E2 & Hmap & Hq1 & Hq2 & Hkk & Hk2);
      try done; [rewrite Hz; by exists n|by rewrite Hz|].
    exists p, M', q'. rewrite Hf. split; [exact E2|]. destruct (item_memory _ _ _ p Hmap) as [Hml Hmi].
    { unfold put. rewrite fmap_app, fmap_cons. set_solver. }
    split_and!; [done|done|by rewrite Hkk| |done|done|done|done].
    eapply keeps_trans; [|exact Hk2]. eapply keeps_sub; [|exact Hk1]. set_solver.
Qed.

(** ** Many items *)

Fixpoint insert_all M q (l : list (K * Z)) : option (cl_mem K * cl_qmap) :=
  match l with
  | [] => Some (M, q)
  | (k, a) :: l => '(_, M, q) ← cl_fmap_insert cmp M q k a; insert_all M q l
  end.

Lemma insert_all_ok l : ∀ M q I, map_at M q I → NoDup l.*1 → NoDup l.*2 →
  (∀ k a, (k, a) ∈ l → ok k ∧ k ∉ I.*1 ∧ a ∉ footprint q I ∧ is_Some (mem_links M !! a) ∧ is_Some (mem_list M !! a)) →
  ∃ M' q' I', insert_all M q l = Some (M', q') ∧ map_at M' q' I' ∧ I' ≡ₚ l ++ I ∧
    q_root q' = q_root q ∧ q_nil q' = q_nil q ∧ keeps M M' (l.*2 ++ footprint q I).
Proof.
  induction l as [|[k a] l IH]; intros M q I H Hk Ha Hl; [by exists M, q, I|].
  apply NoDup_cons in Hk as [Hkn Hk]. apply NoDup_cons in Ha as [Han Ha]. simpl in Hkn, Han.
  destruct (Hl k a) as (L1 & L2 & L3 & L4 & L5); [left|].
  destruct (fmap_insert_ok _ _ _ _ _ H L1 L3 L4 L5) as (r & M1 & q1 & E & Q1 & Q2 & _ & Hkeep & _ & _ & Hcase).
  pose proof (at_ok _ _ _ _ _ H) as Hok. pose proof (at_sorted _ _ _ _ _ H) as Hs.
  assert (Hf : find_key cmp k I = None) by (apply (find_None (ok := ok)); done).
  rewrite Hf in Hcase. destruct Hcase as [_ H1]. pose proof (put_perm k a I Hf L1 Hok Hs) as HP.
  simpl. rewrite E. cbn [mbind option_bind].
  destruct (IH M1 q1 _ H1 Hk Ha) as (M' & q' & I' & -> & H' & HP' & Q3 & Q4 & K2).
  - intros k' a' Hin. destruct (Hl k' a') as (N1 & N2 & N3 & N4 & N5); [by right|].
    assert (k' ∈ l.*1 ∧ a' ∈ l.*2) as [X1 X2] by (split; apply list_elem_of_fmap; by exists (k', a')).
    assert (a' ∉ a :: footprint q I) as Na by (apply not_elem_of_cons; split; [intros ->; done|done]).
    destruct (Hkeep a' Na) as (K1 & K2 & _). rewrite K1, K2. unfold footprint in *. rewrite Q1, Q2, HP. simpl.
    split_and!; [done| | |done|done]; set_solver.
  - exists M', q', I'. split_and!; [done|done| |congruence..|].
    + rewrite HP', HP. simpl. by rewrite <- Permutation_middle.
    + assert (∀ b, b ∈ footprint q1 (put cmp k a I) ↔ b = a ∨ b ∈ footprint q I) as Hfp.
      { intros b. unfold footprint. rewrite Q1, Q2, HP. simpl. rewrite !elem_of_cons. tauto. }
      eapply keeps_trans; eapply keeps_sub; [|exact Hkeep| |exact K2]; intros b; simpl;
        rewrite ?elem_of_app, ?Hfp, ?elem_of_cons, ?elem_of_app; tauto.
Qed.
End Put.
