(* ===== verification/QMapCut.v ===== *)
(** * Balanced maps: removing

    The item that goes from the tree is the one to be removed, or the next one, which
    then takes the place of the one to be removed.  What is left are the other items in
    their order. *)

From S2P Require Import Prelude QMap QMapRep QMapIns QMapDel QMapList QMapInv QMapOk QMapPut.

Open Scope Z_scope.

(** ** Places of items *)

Lemma plug_app z1 z2 t : plug (z1 ++ z2) t = plug z2 (plug z1 t).
Proof. revert t. induction z1 as [|[d c a s] z1 IH]; intros t; simpl; [done|]. apply IH. Qed.

Lemma before_app z1 z2 : before (z1 ++ z2) = before z2 ++ before z1.
Proof. induction z1 as [|[[] c a s] z1 IH]; simpl; rewrite ?app_nil_r, ?IH, <- ?(assoc_L (++)); done. Qed.

Lemma after_app z1 z2 : after (z1 ++ z2) = after z1 ++ after z2.
Proof. induction z1 as [|[[] c a s] z1 IH]; simpl; rewrite ?IH, <- ?(assoc_L (++)); done. Qed.

Lemma find_place t a : a ∈ inorder t → ∃ z c l r, t = plug z (T c l a r).
Proof.
  induction t as [|c l IHl b r IHr]; simpl; [set_solver|]. intros [H|[->|H]%elem_of_cons]%elem_of_app.
  - destruct (IHl H) as (z & c' & l' & r' & ->). exists (z ++ [Frame Lft c b r]), c', l', r'. by rewrite plug_app.
  - by exists [], c, l, r.
  - destruct (IHr H) as (z & c' & l' & r' & ->). exists (z ++ [Frame Rgt c b l]), c', l', r'. by rewrite plug_app.
Qed.

Lemma leftmost t : t ≠ E → ∃ z c a r, t = plug z (T c E a r) ∧ before z = [].
Proof.
  induction t as [|c l IHl b r _]; [done|]. intros _. destruct l as [|c1 l1 b1 r1].
  - by exists [], c, b, r.
  - destruct IHl as (z & c' & a & r' & -> & Hz); [done|].
    exists (z ++ [Frame Lft c b r]), c', a, r'. rewrite plug_app, before_app, Hz. done.
Qed.

(** ** The links of a subtree's parent *)

Section Cut.
Context {root nil : Z}.
Implicit Types ls : gmap Z cl_map_links.

(** Unlike in a rotation the sentinel gets a parent too. *)
Lemma set_up_tree ls u t v nl : tree_at nil ls u t → NoDup (inorder t) → nil ∉ inorder t →
  ls !! nil = Some nl →
  ∃ ls' nl', set_up (ptr nil t) v ls = Some ls' ∧ tree_at nil ls' v t ∧
    (∀ x, x ∉ inorder t → x ≠ nil → ls' !! x = ls !! x) ∧
    ls' !! nil = Some nl' ∧ color nl' = color nl ∧ (t = E → p_up nl' = v).
Proof.
  intros H Hnd Hnil Hnl. destruct t as [|c l a r]; simpl in *.
  - rewrite (set_up_Some _ _ _ _ Hnl). eexists _, _. split; [done|]. split_and!; [done| |apply lookup_insert_eq|done|done].
    intros x _ Hx. by rewrite lookup_insert_ne.
  - destruct H as (Ha & Hl & Hr). rewrite (set_up_Some _ _ _ _ Ha). eexists _, nl. split; [done|].
    rewrite NoDup_app, NoDup_cons in Hnd. split_and!.
    + rewrite lookup_insert_eq. done.
    + eapply tree_at_ext; [|exact Hl]. intros x Hx. rewrite lookup_insert_ne; [done|set_solver].
    + eapply tree_at_ext; [|exact Hr]. intros x Hx. rewrite lookup_insert_ne; [done|set_solver].
    + intros x Hx _. rewrite lookup_insert_ne; [done|set_solver].
    + rewrite lookup_insert_ne; [done|set_solver].
    + done.
    + done.
Qed.

(** An item with one subtree at most gives it its place. *)
Definition only_child (l r : tree) : tree := match l with E => r | _ => l end.

Lemma unlink_ok S ls c l a r z nl S' : EnvOk root nil S ls nl → rep root nil S ls ls (T c l a r) z →
  l = E ∨ r = E → S ≡ₚ a :: S' →
  ∃ ls1 ls2 nl', set_up (ptr nil (only_child l r)) (up_of root z) ls = Some ls1 ∧
    set_parent_ptr a (ptr nil (only_child l r)) ls1 = Some ls2 ∧
    EnvOk root nil S' ls1 nl' ∧ rep root nil S' ls1 ls2 (only_child l r) z ∧
    nil_up (nil_links := nl') (only_child l r) (up_of root z) ∧
    ls2 !! a = ls !! a ∧ ∀ x, x ∉ root :: nil :: S → ls1 !! x = ls !! x.
Proof.
  intros OK H Hlr HS. set (s := only_child l r).
  assert (Hs : inorder s = inorder l ++ inorder r ∧ (tree_at nil ls a l → tree_at nil ls a r → tree_at nil ls a s)).
  { unfold s. destruct Hlr as [->| ->]; simpl; [done|]. rewrite app_nil_r. by destruct l. }
  destruct Hs as [Hsi Hst]. pose proof (rep_fresh _ _ _ H) as F. pose proof (rep_rest_fresh _ _ _ H) as F'.
  pose proof (brother_ne_rep _ _ _ H ltac:(done)) as Hb.
  destruct H as [H1 (Ha & Hl & Hr) H3 _]. simpl in H1, F, H3, Hb.
  assert (Hperm : inorder s ++ rest z ≡ₚ S').
  { apply (Permutation_cons_inv (a := a)). rewrite <- HS, <- H1, Hsi, <- !(assoc_L (++)). simpl. by rewrite <- Permutation_middle. }
  assert (Hnd : NoDup (inorder s) ∧ a ∉ inorder s ∧ nil ∉ inorder s ∧ root ∉ inorder s ∧ (∀ x, x ∈ inorder s → x ∉ rest z)).
  { rewrite Hsi. destruct F as (F1 & F2 & F3 & F4 & F5 & F6 & F7 & F8). rewrite NoDup_app, NoDup_cons in *. set_solver. }
  destruct Hnd as (N1 & N2 & N3 & N4 & N5).
  destruct (set_up_tree ls a s (up_of root z) nl (Hst Hl Hr) N1 N3 (nil_at _ _ _ _)) as (ls1 & nl' & E1 & T1 & K1 & L1 & C1 & U1).
  rewrite E1. assert (Ha1 : ls1 !! a = Some (Links (ptr nil l) (ptr nil r) (up_of root z) c)) by (rewrite K1; [done|set_solver..]).
  assert (Hz1 : ctx_at root nil ls1 z a).
  { eapply ctx_at_ext; [|exact H3]. intros x Hx. apply K1; [|set_solver]. intros Hxs. set_solver. }
  destruct (set_parent_ptr_ctx ls1 z a _ (ptr nil s) Hz1 F' Ha1 eq_refl) as (l' & E2 & Hz2).
  { destruct z as [|[d cz b sz] z]; [done|]. exact Hb. }
  set (up := up_of root z) in *. assert (Hup : up = root ∨ up ∈ rest z) by apply up_of_in.
  assert (Hupa : up ≠ a ∧ up ∉ inorder s ∧ up ≠ nil) by (destruct Hup as [->|Hup]; set_solver).
  eexists _, _, _. split; [done|]. split; [exact E2|]. split_and!.
  - split; [|exact L1|rewrite C1; exact (nil_black _ _ _ _)].
    pose proof (items_fresh _ _ _ _ (EnvOk := OK)) as G. rewrite HS in G. rewrite !NoDup_cons in *. set_solver.
  - split; [done| |done|].
    + eapply tree_at_ext; [|exact T1]. intros x Hx. rewrite lookup_insert_ne; [done|set_solver].
    + intros x Hx Hxs. rewrite lookup_insert_ne; [done|]. intros <-. destruct Hup as [Hup|Hup]; [done|].
      apply Hxs. rewrite <- Hperm. set_solver.
  - exact U1.
  - rewrite lookup_insert_ne by tauto. by rewrite Ha1, Ha.
  - intros x Hx. rewrite <- H1 in Hx. apply K1; [rewrite Hsi|]; clear - Hx; set_solver.
Qed.

(** Another item takes the place of one. *)
Lemma exchange_ok S ls0 ls c l p r z d nl S' : EnvOk root nil S ls0 nl → rep root nil S ls0 ls (T c l p r) z →
  S ≡ₚ p :: S' → d ∉ root :: nil :: S → is_Some (ls !! d) →
  ∃ ls' nl', exchange p d ls = Some ls' ∧ EnvOk root nil (d :: S') ls' nl' ∧
    rep root nil (d :: S') ls' ls' (T c l d r) z ∧
    ls' !! p = ls !! p ∧ ∀ x, x ∉ root :: nil :: d :: S → ls' !! x = ls !! x.
Proof.
  intros OK H HS Hd [ld Hld]. pose proof (rep_fresh _ _ _ H) as F. pose proof (rep_rest_fresh _ _ _ H) as F'.
  pose proof (brother_ne_rep _ _ _ H ltac:(done)) as Hb. pose proof (rep_nil _ _ _ H) as Hnil.
  destruct H as [H1 (Hp & Hl & Hr) H3 H4]. simpl in H1, F, H3, Hb, F'.
  assert (Hd' : d ≠ root ∧ d ≠ nil ∧ d ≠ p ∧ d ∉ inorder l ∧ d ∉ inorder r ∧ d ∉ rest z) by (rewrite <- H1 in Hd; set_solver).
  clear Hd. assert (Hf : p ≠ root ∧ p ≠ nil ∧ p ∉ inorder l ∧ p ∉ inorder r ∧ p ∉ rest z ∧ NoDup (inorder l) ∧ NoDup (inorder r) ∧
    (∀ x, x ∈ inorder l → x ∉ inorder r ∧ x ∉ rest z ∧ x ≠ root ∧ x ≠ nil) ∧
    (∀ x, x ∈ inorder r → x ∉ rest z ∧ x ≠ root ∧ x ≠ nil) ∧ (∀ x, x ∈ rest z → x ≠ nil) ∧ root ≠ nil).
  { destruct F as (F1 & F2 & F3 & F4 & F5 & F6 & F7 & F8). rewrite NoDup_app, NoDup_cons in *. set_solver. }
  clear F. unfold exchange. rewrite Hp. cbn [mbind option_bind]. rewrite (upd_Some _ _ _ _ Hld). cbn [mbind option_bind p_left p_right p_up].
  set (up := up_of root z) in *. assert (Hup : up = root ∨ up ∈ rest z) by apply up_of_in.
  assert (Hupn : up ≠ p ∧ up ≠ d ∧ up ≠ nil ∧ up ∉ inorder l ∧ up ∉ inorder r) by (destruct Hup as [->|Hup]; set_solver).
  set (ls1 := <[d := _]> ls).
  assert (K1 : ∀ x, x ≠ d → ls1 !! x = ls !! x) by (intros x Hx; unfold ls1; by rewrite lookup_insert_ne).
  destruct (set_parent_ptr_ctx (root := root) (nil := nil) ls1 z p (Links (ptr nil l) (ptr nil r) up c) d) as (l' & -> & Hz2);
    [eapply ctx_at_ext; [|exact H3]; intros x Hx; apply K1; set_solver|done|rewrite K1; [done|naive_solver]|done| |].
  { destruct z as [|[dz cz b sz] z]; [done|]. exact Hb. }
  fold up in Hz2 |- *. cbn [mbind option_bind]. set (ls2 := <[up := l']> ls1) in *.
  assert (K2 : ∀ x, x ≠ d → x ≠ up → ls2 !! x = ls !! x).
  { intros x Hx Hxu. unfold ls2. rewrite lookup_insert_ne by done. by apply K1. }
  rewrite K2, Hp by naive_solver. cbn [mbind option_bind p_right].
  destruct (set_up_tree ls2 p r d nl) as (ls3 & nl3 & -> & T3 & K3 & L3 & C3 & _); [|tauto|set_solver| |].
  { eapply tree_at_ext; [|exact Hr]. intros x Hx. apply K2; set_solver. }
  { rewrite K2; naive_solver. }
  cbn [mbind option_bind]. rewrite K3, K2, Hp by naive_solver. cbn [mbind option_bind p_left].
  destruct (set_up_tree ls3 p l d nl3) as (ls4 & nl4 & -> & T4 & K4 & L4 & C4 & _); [|tauto|set_solver|done|].
  { eapply tree_at_ext; [|exact Hl]. intros x Hx. destruct Hf as (_ & _ & _ & _ & _ & _ & _ & Fl & _), Hd' as (_ & _ & _ & D4 & _), Hupn as (_ & _ & _ & U4 & _).
    destruct (Fl x Hx) as (X1 & _ & _ & X4). rewrite K3, K2; [done|(intros ->; done)..|done|done]. }
  cbn [mbind option_bind]. rewrite K4, K3, K2, Hp by naive_solver. cbn [mbind option_bind color].
  assert (Hd4 : ls4 !! d = Some (Links (ptr nil l) (ptr nil r) up (color ld))).
  { rewrite K4, K3 by naive_solver. unfold ls2. rewrite lookup_insert_ne by naive_solver. unfold ls1. by rewrite lookup_insert_eq. }
  rewrite (set_color_Some _ _ _ _ Hd4). set (ls5 := <[d := _]> ls4).
  assert (K5 : ∀ x, x ≠ d → ls5 !! x = ls4 !! x) by (intros x Hx; unfold ls5; by rewrite lookup_insert_ne).
  assert (K : ∀ x, x ≠ d ∧ x ≠ up ∧ x ≠ nil ∧ x ∉ inorder l ∧ x ∉ inorder r → ls5 !! x = ls !! x).
  { intros x (X1 & X2 & X3 & X4 & X5). by rewrite K5, K4, K3, K2. }
  eexists _, nl4. split; [done|]. split_and!.
  - split; [|rewrite K5; [exact L4|naive_solver]|rewrite C4, C3; exact (nil_black _ _ _ _)].
    pose proof (items_fresh _ _ _ _ (EnvOk := OK)) as G. rewrite HS in G. rewrite !NoDup_cons in *.
    assert (d ∉ S'). { intros Hx. assert (d ∈ S) as Hx' by (rewrite HS; set_solver). rewrite <- H1 in Hx'. set_solver. }
    set_solver.
  - split; [| | |done].
    + simpl. rewrite <- Permutation_middle. simpl. f_equiv. apply (Permutation_cons_inv (a := p)).
      rewrite <- HS, <- H1. rewrite <- Permutation_middle. simpl. done.
    + simpl. split; [unfold ls5; by rewrite lookup_insert_eq|]. split.
      * eapply tree_at_ext; [|exact T4]. intros x Hx. apply K5. set_solver.
      * eapply tree_at_ext; [|exact T3]. intros x Hx. rewrite K5, K4; set_solver.
    + simpl. eapply ctx_at_ext; [|exact Hz2]. intros x Hx.
      assert (x ≠ d ∧ x ≠ nil ∧ x ∉ inorder l ∧ x ∉ inorder r) as (X1 & X2 & X3 & X4).
      { destruct Hf as (_ & _ & _ & _ & _ & _ & _ & Fl & Fr & Fz & Frn), Hd' as (D1 & _ & _ & _ & _ & D6).
        clear - Hx Fl Fr Fz Frn D1 D6. destruct Hx as [->|Hx]; split_and!; try congruence; try (intros Hy; naive_solver). }
      by rewrite K5, K4, K3.
  - rewrite K; [done|]. clear - Hf Hd' Hupn. split_and!; [intros ->|intros ->|..]; tauto.
  - intros x Hx. rewrite <- H1 in Hx. apply K. clear - Hx Hup. set_solver.
Qed.

Lemma rb_low cs n s : rb cs n s → low n s.
Proof. unfold low. destruct 1; simpl; eauto. Qed.

Lemma rb_only cl cr n l r : rb cl n l → rb cr n r → l = E ∨ r = E → ∃ cs, rb cs n (only_child l r).
Proof. intros Hl Hr _. destruct l; simpl; eauto. Qed.

(** The steps that take an item with one subtree at most out of the tree. *)
Lemma take_out_ok S ls c l a r z nl S' fuel m {B} (k : gmap Z cl_map_links → option B) :
  EnvOk root nil S ls nl → rep root nil S ls ls (T c l a r) z → l = E ∨ r = E → S ≡ₚ a :: S' →
  rb CL_MAP_BLACK m (plug z (T c l a r)) → (length S < fuel)%nat →
  ∃ ls3 ls0' nl' t' m',
    (del ← ls !! a;
     let p_child := if negb (p_left del =? nil) then p_left del else p_right del in
     ls ← set_up p_child (p_up del) ls;
     ls ← set_parent_ptr a p_child ls;
     del ← ls !! a;
     ls ← (if decide (color del = CL_MAP_RED) then Some ls
           else __cl_map_del_bal fuel root nil p_child ls);
     k ls) = k ls3 ∧
    EnvOk root nil S' ls0' nl' ∧ rep root nil S' ls0' ls3 t' [] ∧
    inorder t' = before z ++ inorder l ++ inorder r ++ after z ∧ rb CL_MAP_BLACK m' t' ∧
    ls3 !! a = ls !! a ∧ ∀ x, x ∉ root :: nil :: S → ls3 !! x = ls !! x.
Proof.
  intros OK H Hlr HS Hrb Hfuel. pose proof (rep_at _ Lft _ _ _ _ _ H) as Ha. simpl in Ha.
  pose proof (rep_fresh _ _ _ H) as F. simpl in F.
  destruct (unlink_ok _ _ _ _ _ _ _ _ _ OK H Hlr HS) as (ls1 & ls2 & nl' & E1 & E2 & OK' & H' & Hu & Ha2 & K1).
  rewrite Ha. cbn [mbind option_bind p_left p_right p_up]. cbv zeta.
  assert ((if negb (ptr nil l =? nil) then ptr nil l else ptr nil r) = ptr nil (only_child l r)) as ->.
  { destruct l as [|cl ll al rl]; simpl; [by rewrite Z.eqb_refl|].
    rewrite (proj2 (Z.eqb_neq _ _)); [done|]. simpl in F. set_solver. }
  rewrite E1. cbn [mbind option_bind]. rewrite E2. cbn [mbind option_bind]. rewrite Ha2, Ha. cbn [mbind option_bind color].
  assert (Hin : ∀ s, inorder s = inorder l ++ inorder r →
    inorder (plug z s) = before z ++ inorder l ++ inorder r ++ after z).
  { intros s Hs. by rewrite inorder_plug, Hs, <- (assoc_L (++)). }
  assert (Hsi : inorder (only_child l r) = inorder l ++ inorder r).
  { destruct Hlr as [->| ->]; simpl; [done|]. rewrite app_nil_r. by destruct l. }
  assert (Hout : ∀ ls3 t', rep root nil S' ls1 ls3 t' [] → ls3 !! a = ls !! a ∧ ∀ x, x ∉ root :: nil :: S → ls3 !! x = ls !! x).
  { intros ls3 t' [_ _ _ R]. destruct H' as [_ _ _ R2]. split.
    - pose proof (items_fresh _ _ _ _ (EnvOk := OK)) as G. rewrite HS, !NoDup_cons in G.
      rewrite R, <- R2, Ha2; [done|set_solver..].
    - intros x Hx. rewrite R, <- K1; [done|done|set_solver|]. rewrite HS in Hx. set_solver. }
  rewrite Ha in Hout. destruct (rb_unplug _ _ _ Hrb) as (c0 & n & Hrb' & Hz). pose proof (rb_color _ _ _ Hrb') as Hc. simpl in Hc. subst c0.
  destruct c; [rewrite decide_True by done|rewrite decide_False by done].
  - assert (rb CL_MAP_BLACK n (only_child l r)) as Hs by (inversion Hrb'; subst; by destruct l).
    destruct (rb_plug _ _ _ _ (rbz_black _ _ _ Hz) Hs) as [m' Hm'].
    cbn [mbind option_bind]. exists ls2, ls1, nl', (plug z (only_child l r)), m'. apply rep_whole in H' as H''.
    split_and!; [done|done|done|by apply Hin|done|by eapply Hout|by eapply Hout].
  - assert (∃ n' cs, n = Datatypes.S n' ∧ rb cs n' (only_child l r)) as (n' & cs & -> & Hs).
    { inversion Hrb'; subst. edestruct (rb_only cl cr) as [cs Hs]; eauto. }
    destruct (del_bal_ok fuel _ _ _ _ H' Hu (rb_low _ _ _ Hs) Hz) as (ls3 & t' & -> & H3 & Ht' & m' & Hm').
    { left. destruct H as [R _ _ _]. apply Permutation_length in R. rewrite length_app in R. pose proof (length_rest z). lia. }
    cbn [mbind option_bind]. exists ls3, ls1, nl', t', m'. rewrite Ht'.
    split_and!; [done|done|done|by apply Hin|done|by eapply Hout|by eapply Hout].
Qed.
End Cut.

Lemma rep_down root nil S ls0 ls z1 z2 t : rep root nil S ls0 ls (plug z1 t) z2 → rep root nil S ls0 ls t (z1 ++ z2).
Proof.
  revert t. induction z1 as [|[d c a s] z1 IH]; intros t H; simpl in *; [done|]. apply rep_push. by apply IH.
Qed.

Lemma rb_rename c n c' l a b r : rb c n (T c' l a r) → rb c n (T c' l b r).
Proof. inversion 1; subst; eauto. Qed.

Lemma split_unique {A} (x : A) l1 : ∀ l1' l2 l2', x ∉ l1 → x ∉ l1' → l1 ++ x :: l2 = l1' ++ x :: l2' → l1 = l1' ∧ l2 = l2'.
Proof.
  induction l1 as [|y l1 IH]; intros [|y' l1'] l2 l2' H1 H2 E; simplify_eq/=; [done|set_solver..|].
  destruct (IH l1' l2 l2') as [-> ->]; set_solver.
Qed.

Lemma exchange_whole root nil S ls0 ls t m p d A B nl S' : EnvOk root nil S ls0 nl →
  rep root nil S ls0 ls t [] → rb CL_MAP_BLACK m t → inorder t = A ++ p :: B → S ≡ₚ p :: S' →
  d ∉ root :: nil :: S → is_Some (ls !! d) →
  ∃ ls' nl' t' m', exchange p d ls = Some ls' ∧ EnvOk root nil (d :: S') ls' nl' ∧
    rep root nil (d :: S') ls' ls' t' [] ∧ inorder t' = A ++ d :: B ∧ rb CL_MAP_BLACK m' t' ∧
    ls' !! p = ls !! p ∧ ∀ x, x ∉ root :: nil :: d :: S → ls' !! x = ls !! x.
Proof.
  intros OK H Hrb Ht HS Hd Hld. destruct (find_place t p) as (z & c & l & r & ->); [rewrite Ht; set_solver|].
  assert (Hnd : NoDup (inorder (plug z (T c l p r)))) by (by apply rep_fresh in H as (_ & _ & _ & _ & _ & H & _)).
  apply rep_plug in H as H'.
  destruct (exchange_ok _ _ _ _ _ _ _ _ _ _ _ OK H' HS Hd Hld) as (ls' & nl' & E1 & OK' & H2 & H3 & H4).
  destruct (rb_unplug _ _ _ Hrb) as (c0 & n & Hc & Hz). apply rb_rename with (b := d) in Hc.
  destruct (rb_plug _ _ _ _ Hz Hc) as [m' Hm'].
  exists ls', nl', (plug z (T c l d r)), m'. split_and!; [done|done|by apply rep_whole| |done|done|done].
  rewrite inorder_plug in Ht, Hnd |- *. simpl in Ht, Hnd |- *. rewrite <- (assoc_L (++)), (assoc_L (++) (before z)) in Ht, Hnd |- *.
  simpl in Ht, Hnd |- *. pose proof Hnd as Hnd'. rewrite Ht in Hnd'. rewrite NoDup_app, NoDup_cons in Hnd, Hnd'.
  destruct (split_unique p (before z ++ inorder l) A (inorder r ++ after z) B) as [-> ->]; [set_solver|set_solver|exact Ht|done].
Qed.

Section Remove.
Context {K : Type} {ok : K → Prop} {cmp : K → K → Z} {Ord : KeyOrder ok cmp}.
Implicit Types I : list (K * Z).
Implicit Types M : cl_mem K.
Local Notation map_at := (map_at ok cmp).

Lemma cut_split I1 (k : K) p I2 : NoDup (I1 ++ (k, p) :: I2).*2 → cut p (I1 ++ (k, p) :: I2) = I1 ++ I2.
Proof.
  rewrite fmap_app, fmap_cons. simpl. intros Hnd. rewrite NoDup_app, NoDup_cons in Hnd.
  destruct Hnd as (_ & H1 & H2 & _). unfold cut. rewrite filter_app, filter_cons_False by (simpl; tauto).
  rewrite !filter_Forall; [done|..]; apply Forall_forall; intros e He Hp.
  - apply H2. rewrite <- Hp. by apply list_elem_of_fmap_2.
  - apply (H1 e.2); [by apply list_elem_of_fmap_2|]. rewrite Hp. left.
Qed.

Lemma cut_map M q I1 k p I2 ls li S' ls0 nl t m : map_at M q (I1 ++ (k, p) :: I2) →
  EnvOk (q_root q) (q_nil q) S' ls0 nl → rep (q_root q) (q_nil q) S' ls0 ls t [] →
  inorder t = (I1 ++ I2).*2 → rb CL_MAP_BLACK m t → ring li (q_nil q) (I1 ++ I2).*2 →
  map_at (set_list (set_links M ls) li) (q <| q_count := q_count q - 1 |>) (I1 ++ I2).
Proof.
  intros H OK Hr Ht Hm Hring. destruct H as [H1 _ _ _ H5 H6 H7 H8].
  rewrite Forall_app, Forall_cons in H5, H6. apply StronglySorted_app in H7 as (S1 & S2 & S3).
  apply StronglySorted_inv in S3 as [S3 S4]. split; simpl; [| | |done|..].
  - unfold footprint in *. simpl. rewrite fmap_app, fmap_cons in H1. simpl in H1. rewrite fmap_app.
    rewrite <- Permutation_middle in H1. rewrite !NoDup_cons in *. set_solver.
  - exists nl. split; [by eapply rep_nil|exact (nil_black _ _ _ _)].
  - exists m, t. split_and!; [|done|done]. destruct Hr as [R1 R2 R3 R4]. split; [|done|done|done].
    simpl. by rewrite app_nil_r, Ht.
  - rewrite Forall_app. tauto.
  - rewrite Forall_app. tauto.
  - apply StronglySorted_app. split_and!; [|done|done]. intros x y Hx Hy. apply S1; [done|set_solver].
  - rewrite H8, !length_app. simpl. lia.
Qed.

(** The links of a tree that items went from. *)
Definition tree_of q (L S : list Z) (ls ls' : gmap Z cl_map_links) : Prop := ∃ S' ls0 nl t m,
  EnvOk (q_root q) (q_nil q) S' ls0 nl ∧ rep (q_root q) (q_nil q) S' ls0 ls' t [] ∧ inorder t = L ∧
  rb CL_MAP_BLACK m t ∧ ∀ x, x ∉ q_root q :: q_nil q :: S → ls' !! x = ls !! x.

(** The steps on the tree, where the item has one subtree at most, and where it has two. *)
Definition tree_steps {B} fuel q p p_del (ls : gmap Z cl_map_links) (f : gmap Z cl_map_links → option B) : option B :=
  del ← ls !! p_del;
  let p_child := if negb (p_left del =? q_nil q) then p_left del else p_right del in
  ls ← set_up p_child (p_up del) ls;
  ls ← set_parent_ptr p_del p_child ls;
  del ← ls !! p_del;
  ls ← (if decide (color del = CL_MAP_RED) then Some ls else __cl_map_del_bal fuel (q_root q) (q_nil q) p_child ls);
  ls ← (if p_del =? p then Some ls else exchange p p_del ls);
  f ls.

Lemma steps_leaf {B} fuel q p ls (f : gmap Z cl_map_links → option B) S S' nl c l r z m :
  EnvOk (q_root q) (q_nil q) S ls nl → rep (q_root q) (q_nil q) S ls ls (T c l p r) z →
  rb CL_MAP_BLACK m (plug z (T c l p r)) → l = E ∨ r = E → S ≡ₚ p :: S' → (length S < fuel)%nat →
  ∃ ls', tree_steps fuel q p p ls f = f ls' ∧
    tree_of q (before z ++ inorder l ++ inorder r ++ after z) S ls ls' ∧ ls' !! p = ls !! p.
Proof.
  intros OK H Hrb Hlr HS Hf. unfold tree_steps.
  destruct (take_out_ok _ _ _ _ _ _ _ _ _ fuel m (λ ls, ls ← (if p =? p then Some ls else exchange p p ls); f ls)
    OK H Hlr HS Hrb Hf) as (ls3 & ls0' & nl' & t' & m' & Es & OK' & H' & Ht' & Hm' & Hp & Hout).
  rewrite Z.eqb_refl in Es. exists ls3. split; [by rewrite Z.eqb_refl; exact Es|]. split; [|done]. by exists S', ls0', nl', t', m'.
Qed.

Lemma steps_inner {B} fuel q p d ls (f : gmap Z cl_map_links → option B) S S' nl c l z m cd zr rd :
  EnvOk (q_root q) (q_nil q) S ls nl →
  rep (q_root q) (q_nil q) S ls ls (T c l p (plug zr (T cd E d rd))) z →
  rb CL_MAP_BLACK m (plug z (T c l p (plug zr (T cd E d rd)))) → before zr = [] → S ≡ₚ d :: p :: S' →
  (length S < fuel)%nat →
  ∃ ls', tree_steps fuel q p d ls f = f ls' ∧
    tree_of q (before z ++ inorder l ++ d :: inorder rd ++ after zr ++ after z) S ls ls' ∧ is_Some (ls' !! p).
Proof.
  intros OK H Hrb Hzr HS Hf. unfold tree_steps.
  assert (Hd : rep (q_root q) (q_nil q) S ls ls (T cd E d rd) (zr ++ Frame Rgt c p l :: z)).
  { apply rep_down, rep_push. exact H. }
  assert (Hrb' : rb CL_MAP_BLACK m (plug (zr ++ Frame Rgt c p l :: z) (T cd E d rd))) by (by rewrite plug_app).
  destruct (take_out_ok _ _ _ _ _ _ _ _ _ fuel m (λ ls, ls ← (if d =? p then Some ls else exchange p d ls); f ls)
    OK Hd (or_introl eq_refl) HS Hrb' Hf) as (ls3 & ls0' & nl' & t' & m' & Es & OK' & H' & Ht' & Hm' & Hld & Hout).
  pose proof (items_fresh _ _ _ _ (EnvOk := OK)) as F. rewrite HS, !NoDup_cons, !not_elem_of_cons in F.
  rewrite (proj2 (Z.eqb_neq d p)) in Es |- * by tauto.
  rewrite before_app, after_app, Hzr in Ht'. simpl in Ht'.
  destruct (exchange_whole _ _ _ _ _ _ _ p d (before z ++ inorder l) (inorder rd ++ after zr ++ after z) _ S' OK' H' Hm')
    as (ls4 & nl4 & t4 & m4 & Ex & OK4 & H4 & Ht4 & Hm4 & Hp4 & Hout4); [|done| | |].
  { rewrite Ht', app_nil_r, <- !(assoc_L (++)). done. }
  { rewrite !not_elem_of_cons. naive_solver. }
  { rewrite Hld, (rep_at _ Lft _ _ _ _ _ Hd). done. }
  exists ls4. split; [rewrite Ex in Es; exact Es|]. split.
  - exists (d :: S'), ls4, nl4, t4, m4. split_and!; [done|done| |done|].
    + rewrite Ht4, <- !(assoc_L (++)). done.
    + intros x Hx. rewrite HS in Hx. rewrite Hout4 by set_solver. apply Hout. by rewrite HS.
  - rewrite Hp4. destruct H' as [R1 R2 _ _]. eapply tree_links; [exact R2|]. rewrite Ht'. set_solver.
Qed.

Lemma fmap_remove_item_ok M q I p : map_at M q I → p ∈ I.*2 →
  ∃ M' q', cl_fmap_remove_item M q p = Some (M', q') ∧ map_at M' q' (cut p I) ∧
    q_root q' = q_root q ∧ q_nil q' = q_nil q ∧ mem_key M' = mem_key M ∧ keeps M M' (footprint q I) ∧
    is_Some (mem_links M' !! p) ∧ is_Some (mem_list M' !! p).
Proof.
  intros H Hp. destruct (at_env _ _ _ H) as (nl & Hnl & OK). destruct (at_tree _ _ _ _ _ H) as (n & t & Hr & Ht & Hn).
  pose proof (at_fresh _ _ _ _ _ H) as F. unfold footprint in F. rewrite <- Ht in Hp.
  destruct (find_place _ _ Hp) as (z & c & l & r & ->). rewrite inorder_plug in Ht. simpl in Ht.
  assert (∃ I1 k I2, I = I1 ++ (k, p) :: I2 ∧ I1.*2 = before z ++ inorder l ∧ I2.*2 = inorder r ++ after z) as (I1 & k & I2 & -> & E1 & E2).
  { rewrite <- (assoc_L (++)), (assoc_L (++) (before z)) in Ht. symmetry in Ht.
    apply fmap_app_inv in Ht as (I1 & I2 & E1 & E2 & ->). symmetry in E2.
    apply fmap_cons_inv in E2 as ([k p'] & I2' & -> & E2 & ->). exists I1, k, I2'. simpl. by subst. }
  assert (Hrp : rep (q_root q) (q_nil q) (I1 ++ (k, p) :: I2).*2 (mem_links M) (mem_links M) (T c l p r) z) by (by apply rep_plug).
  set (I := I1 ++ (k, p) :: I2) in *.
  assert (HI : I.*2 = (before z ++ inorder l) ++ p :: inorder r ++ after z).
  { unfold I. rewrite fmap_app, fmap_cons, E1, E2. done. }
  pose proof (at_ring _ _ _ _ _ H) as Hring. rewrite HI in Hring. pose proof F as F'. rewrite HI in F'.
  apply NoDup_cons in F' as [Fr F']. destruct (ring_remove _ _ _ _ _ Hring F') as (li & Eli & Hring' & Hli).
  pose proof (ring_next _ _ _ _ _ Hring) as Hnext.
  pose proof (at_fuel _ _ _ H) as Hfuel. rewrite <- (length_fmap snd) in Hfuel.
  assert (Hcut : cut p I = I1 ++ I2).
  { apply cut_split. apply NoDup_cons in F as [_ F]. by apply NoDup_cons in F as [_ F]. }
  pose proof (rep_at _ Lft _ _ _ _ _ Hrp) as Hlp. simpl in Hlp.
  assert (Hpn : p ≠ q_nil q) by (apply NoDup_cons in F' as [F' _]; set_solver).
  assert (∃ p_del ls', (if (ptr (q_nil q) r =? q_nil q) || (ptr (q_nil q) l =? q_nil q) then Some p else cl_fmap_next M p) = Some p_del ∧
    tree_steps (map_fuel M) q p p_del (mem_links M) (λ ls, Some (set_list (set_links M ls) li, q <| q_count := q_count q - 1 |>)) =
      Some (set_list (set_links M ls') li, q <| q_count := q_count q - 1 |>) ∧
    tree_of q (I1 ++ I2).*2 I.*2 (mem_links M) ls' ∧ is_Some (ls' !! p)) as (p_del & ls' & Ed & Es & (S' & ls0' & nl' & t' & m' & OK' & H' & Ht' & Hm' & Hout) & Hlp').
  { assert ((l = E ∨ r = E) ∨ l ≠ E ∧ r ≠ E) as [Hlr|[Hl Hr']] by (destruct l, r; naive_solver).
    - exists p. assert (HS : I.*2 ≡ₚ p :: (I1 ++ I2).*2).
      { rewrite HI, <- E1, <- E2, fmap_app. by rewrite <- Permutation_middle. }
      destruct (steps_leaf (map_fuel M) q p (mem_links M)
        (λ ls, Some (set_list (set_links M ls) li, q <| q_count := q_count q - 1 |>)) _ _ _ _ _ _ _ _ OK Hrp Hn Hlr HS Hfuel)
        as (ls' & Es & Ho & Hp'). exists ls'. split_and!; [|exact Es| |by rewrite Hp', Hlp].
      + destruct Hlr as [->| ->]; simpl; rewrite Z.eqb_refl, ?orb_true_r; done.
      + rewrite fmap_app, E1, E2, <- !(assoc_L (++)). exact Ho.
    - destruct (leftmost r) as (zr & cd & d & rd & -> & Hzr); [done|]. exists d.
      rewrite inorder_plug, Hzr in E2, HI, Hnext. simpl in E2, HI, Hnext.
      assert (HS : I.*2 ≡ₚ d :: p :: (before z ++ inorder l ++ (inorder rd ++ after zr) ++ after z)).
      { rewrite HI. simpl. rewrite <- !(assoc_L (++)). rewrite <- !Permutation_middle. simpl. apply perm_swap. }
      destruct (steps_inner (map_fuel M) q p d (mem_links M)
        (λ ls, Some (set_list (set_links M ls) li, q <| q_count := q_count q - 1 |>)) _ _ _ _ _ _ _ _ _ _ OK Hrp Hn Hzr HS Hfuel)
        as (ls' & Es & Ho & Hp'). exists ls'. split_and!; [|exact Es| |done].
      + assert (∀ t, t ≠ E → inorder t ⊆ I.*2 → (ptr (q_nil q) t =? q_nil q) = false) as Hne.
        { intros t Ht0 Hsub. apply Z.eqb_neq. intros E0. apply (ptr_in (nil := q_nil q)) in Ht0. rewrite E0 in Ht0.
          apply Hsub in Ht0. rewrite !NoDup_cons in F. tauto. }
        rewrite !Hne; [|done| |done|]; [|clear - HI; rewrite HI; set_solver|clear - HI Hzr; rewrite HI, inorder_plug, Hzr; set_solver].
        simpl. apply nxt_Some in Hnext as (it & Hit & En). unfold cl_fmap_next. rewrite Hit. simpl. by rewrite En.
      + rewrite fmap_app, E1, E2, <- !(assoc_L (++)). simpl. rewrite <- ?(assoc_L (++)). exact Ho. }
  exists (set_list (set_links M ls') li), (q <| q_count := q_count q - 1 |>). split_and!; [|rewrite Hcut|done|done|done| |done|].
  - unfold cl_fmap_remove_item. rewrite (proj2 (Z.eqb_neq _ _)) by done. rewrite Hlp. cbn [mbind option_bind p_left p_right].
    rewrite Ed. cbn [mbind option_bind]. rewrite Eli. exact Es.
  - eapply cut_map; [exact H|done..|]. by rewrite fmap_app, E1, E2.
  - intros a Ha. unfold footprint in Ha. simpl. split_and!; [by apply Hout| |done]. apply Hli. rewrite HI in Ha. set_solver.
  - simpl. rewrite Hli; [apply nxt_Some in Hnext as (it & Hit & _); by rewrite Hit|].
    rewrite <- Permutation_middle, perm_swap, NoDup_cons in F'. tauto.
Qed.
End Remove.
