(* ===== verification/QMapTwo.v ===== *)
(** * Balanced maps: moving items from one map to another

    Merging a map into another moves the items whose keys the other has not; the
    difference of two maps moves the items of each whose keys the other has not. *)

From S2P Require Import Prelude QMap QMapRep QMapList QMapInv QMapOk QMapPut QMapCut.

Open Scope Z_scope.

(** The items whose keys are, and are not, among others. *)
Definition common {K} (cmp : K → K → Z) (I J : list (K * Z)) : list (K * Z) :=
  filter (λ e, find_key cmp e.1 J ≠ None) I.
Definition only {K} (cmp : K → K → Z) (I J : list (K * Z)) : list (K * Z) :=
  filter (λ e, find_key cmp e.1 J = None) I.

Section Two.
Context {K : Type} {ok : K → Prop} {cmp : K → K → Z} {Ord : KeyOrder ok cmp}.
Implicit Types I J L R D : list (K * Z).
Implicit Types M : cl_mem K.
Local Notation map_at := (map_at ok cmp).

Lemma put_middle L k p R : ok k → Forall (λ e, ok e.1) (L ++ R) → ascending cmp (L ++ (k, p) :: R) →
  put cmp k p (L ++ R) = L ++ (k, p) :: R ∧ find_key cmp k (L ++ R) = None.
Proof.
  intros Hk Hok Hs. apply StronglySorted_app in Hs as (H1 & _ & H2). apply StronglySorted_inv in H2 as [_ H2].
  rewrite Forall_app, !Forall_forall in Hok. destruct Hok as [O1 O2]. rewrite Forall_forall in H2. simpl in H2.
  assert (HL : ∀ e, e ∈ L → 0 < cmp k e.1).
  { intros e He. apply (cmp_opp (ok := ok)); [by apply O1|done|]. apply (H1 e (k, p)); [done|left]. }
  unfold put, find_key, same, below, above. rewrite !filter_app. split.
  - rewrite (filter_Forall _ L), (filter_Forall_not _ R), (filter_Forall_not _ L), (filter_Forall _ R), app_nil_r; [done|..];
      apply Forall_forall; intros e He; try (apply HL in He; lia); apply H2 in He; simpl in He; lia.
  - rewrite (filter_Forall_not _ L), (filter_Forall_not _ R); [done|..];
      apply Forall_forall; intros e He; try (apply HL in He; lia); apply H2 in He; simpl in He; lia.
Qed.

(** *** One item *)

Lemma elem_of_footprint q I a : a ∈ footprint q I ↔ a = q_root q ∨ a = q_nil q ∨ a ∈ I.*2.
Proof. unfold footprint. by rewrite !elem_of_cons. Qed.

Lemma elem_of_middle L (k : K) p R a : a ∈ (L ++ (k, p) :: R).*2 ↔ a = p ∨ a ∈ (L ++ R).*2.
Proof. rewrite <- (Permutation_middle L), fmap_cons, elem_of_cons. done. Qed.

Lemma move_item_ok M from to L k p R D : map_at M from (L ++ (k, p) :: R) → map_at M to D →
  (∀ a, a ∈ footprint from (L ++ (k, p) :: R) → a ∉ footprint to D) →
  ∃ r M' from' to', move_item cmp M from to p = Some (r, M', from', to') ∧ map_at M' from' (L ++ R) ∧
    q_root from' = q_root from ∧ q_nil from' = q_nil from ∧ q_root to' = q_root to ∧ q_nil to' = q_nil to ∧
    mem_key M' = mem_key M ∧ keeps M M' (footprint from (L ++ (k, p) :: R) ++ footprint to D) ∧
    is_Some (mem_links M' !! p) ∧ is_Some (mem_list M' !! p) ∧
    match find_key cmp k D with
    | Some a => r = a ∧ map_at M' to' D
    | None => r = p ∧ map_at M' to' (put cmp k p D)
    end.
Proof.
  intros Hf Ht Hd. unfold move_item. set (I := L ++ (k, p) :: R) in *.
  assert (HI : (k, p) ∈ I) by (unfold I; set_solver).
  assert (Hp : p ∈ I.*2) by (apply list_elem_of_fmap; by exists (k, p)).
  pose proof (at_fresh _ _ _ _ _ Hf) as F. unfold footprint in F. rewrite !NoDup_cons in F.
  destruct (fmap_remove_item_ok _ _ _ _ Hf Hp) as (M1 & from1 & -> & Hf1 & Q1 & Q2 & Hk1 & K1 & Hl & Hi).
  cbn [mbind option_bind]. assert (cut p I = L ++ R) as Hcut by (apply cut_split; tauto). rewrite Hcut in Hf1.
  pose proof (at_keys _ _ _ _ _ Hf) as Hkeys. rewrite Forall_forall in Hkeys. apply Hkeys in HI as Hkp. simpl in Hkp.
  rewrite Hk1, Hkp. cbn [mbind option_bind].
  pose proof (at_ok _ _ _ _ _ Hf) as Hok. rewrite Forall_forall in Hok. apply Hok in HI as Hkok. simpl in Hkok.
  assert (Ht1 : map_at M1 to D) by (eapply map_at_ext; [exact K1| |done]; intros a Ha Ha'; by apply (Hd a)).
  assert (Hp0 : ¬ (p = q_root from ∨ p = q_nil from ∨ p ∈ (L ++ R).*2)).
  { assert (I.*2 ≡ₚ p :: (L ++ R).*2) as HP by (unfold I; by rewrite <- Permutation_middle).
    rewrite HP, !not_elem_of_cons in F. destruct F as ((_ & F1 & _) & (F2 & _) & F3).
    apply NoDup_cons in F3 as [F3 _]. intros [H|[H|H]]; [by rewrite H in F1|by rewrite H in F2|done]. }
  assert (Hpf : p ∉ footprint to D) by (apply Hd, elem_of_footprint; auto).
  destruct (fmap_insert_ok _ _ _ k _ Ht1 Hkok Hpf Hl Hi) as (r & M2 & to2 & -> & Q3 & Q4 & Hk2 & K2 & Hl2 & Hi2 & Hcase).
  cbn [mbind option_bind]. exists r, M2, from1, to2. split_and!; try done.
  - eapply map_at_ext; [exact K2| |exact Hf1]. intros a Ha. rewrite elem_of_footprint, Q1, Q2 in Ha.
    intros [->|Hat]%elem_of_cons; [done|]. apply (Hd a); [|done]. apply elem_of_footprint.
    unfold I. rewrite elem_of_middle. tauto.
  - rewrite Hk2, Hk1. by apply insert_id.
  - eapply keeps_trans; eapply keeps_sub; [|exact K1| |exact K2]; intros a Ha; apply elem_of_app; [by left|].
    apply elem_of_cons in Ha as [->|Ha]; [left; apply elem_of_footprint; auto|by right].
Qed.

(** ** Merging *)

(** Two maps that have no address in common. *)
Definition apart {A B} (q : cl_qmap) (I : list (A * Z)) (q' : cl_qmap) (J : list (B * Z)) : Prop :=
  ∀ a, a ∈ footprint q I → a ∉ footprint q' J.

Lemma filter_ext_in {A} (P Q : A → Prop) `{∀ x, Decision (P x)} `{∀ x, Decision (Q x)} (l : list A) :
  (∀ x, x ∈ l → P x ↔ Q x) → filter P l = filter Q l.
Proof.
  induction l as [|x l IH]; intros Hpq; [done|]. rewrite !filter_cons.
  assert (P x ↔ Q x) as Hx by (apply Hpq; left). rewrite IH by (intros y Hy; apply Hpq; by right).
  repeat case_decide; tauto || done.
Qed.

(** The keys of a map that do not change an item's lookup. *)
Lemma find_put_ne k k' p D : ok k → ok k' → k ≠ k' → Forall (λ e, ok e.1) D → ascending cmp D →
  find_key cmp k D = None → find_key cmp k' (put cmp k p D) = None ↔ find_key cmp k' D = None.
Proof.
  intros Hk Hk' Hne Hok Hs Hn. pose proof (put_perm k p D Hn Hk Hok Hs) as P.
  rewrite !find_None; [|done..|rewrite P; by constructor]. rewrite P. set_solver.
Qed.

(** The parts of a sorted list of items. *)
Lemma ascending_parts L k p R e : ascending cmp (L ++ (k, p) :: R) → Forall (λ e, ok e.1) (L ++ (k, p) :: R) →
  e ∈ L ++ R → e.1 ≠ k ∧ ok e.1 ∧ ok k.
Proof.
  intros Hs Hok He. rewrite Forall_app, Forall_cons in Hok. destruct Hok as (O1 & Hk & O2). simpl in Hk.
  rewrite Forall_forall in O1, O2. apply StronglySorted_app in Hs as (H1 & _ & H2).
  apply StronglySorted_inv in H2 as [_ H2]. rewrite Forall_forall in H2.
  apply elem_of_app in He as [He|He].
  - split_and!; [|by apply O1|done]. specialize (H1 e (k, p) He ltac:(left)). simpl in H1. intros E. rewrite E, key_refl in H1 by done. lia.
  - split_and!; [|by apply O2|done]. specialize (H2 e He). simpl in H2. intros E. rewrite E, key_refl in H2 by done. lia.
Qed.

Lemma elem_of_put k p D a : find_key cmp k D = None → ok k → Forall (λ e, ok e.1) D → ascending cmp D →
  a ∈ (put cmp k p D).*2 ↔ a = p ∨ a ∈ D.*2.
Proof. intros H1 H2 H3 H4. rewrite (put_perm k p D H1 H2 H3 H4), fmap_cons, elem_of_cons. done. Qed.

Lemma find_in k D a : find_key cmp k D = Some a → a ∈ D.*2.
Proof.
  unfold find_key, same. intros H. destruct (filter _ D) as [|[k' a'] l] eqn:E; [done|]. injection H as ->.
  assert ((k', a) ∈ filter (λ e : K * Z, cmp k e.1 = 0) D) as [_ Hin]%list_elem_of_filter by (rewrite E; left).
  apply list_elem_of_fmap. by exists (k', a).
Qed.

Lemma merge_loop_ok R : ∀ M dest src L D fuel, map_at M dest D → map_at M src (L ++ R) →
  apart src (L ++ R) dest D → (length R < fuel)%nat →
  ∃ M' dest' src' D', merge_loop cmp fuel M dest src (head_or (q_nil src) R.*2) = Some (M', dest', src') ∧
    map_at M' dest' D' ∧ D' ≡ₚ only cmp R D ++ D ∧ map_at M' src' (L ++ common cmp R D) ∧
    q_root src' = q_root src ∧ q_nil src' = q_nil src ∧ q_root dest' = q_root dest ∧ q_nil dest' = q_nil dest ∧
    keeps M M' (footprint src (L ++ R) ++ footprint dest D).
Proof.
  induction R as [|[k p] R IH]; intros M dest src L D fuel Hd Hs Hap Hf; (destruct fuel as [|fuel]; [lia|]).
  - exists M, dest, src, D. simpl. rewrite Z.eqb_refl. by split_and!.
  - simpl in Hf. rewrite fmap_cons. change (head_or _ _) with p. cbn [merge_loop].
    pose proof (at_fresh _ _ _ _ _ Hs) as F. unfold footprint in F. rewrite !NoDup_cons, fmap_app, fmap_cons in F. simpl in F.
    rewrite (proj2 (Z.eqb_neq _ _)) by set_solver.
    pose proof (at_ring _ _ _ _ _ Hs) as Hring. rewrite fmap_app, fmap_cons in Hring. simpl in Hring.
    apply ring_next, nxt_Some in Hring as (it & Hit & En). unfold cl_fmap_next. rewrite Hit. cbn [mbind option_bind].
    destruct (move_item_ok _ _ _ _ _ _ _ _ Hs Hd Hap) as (r & M1 & src1 & dest1 & -> & Hs1 & Q1 & Q2 & Q3 & Q4 & Hk1 & K1 & Hl & Hi & Hcase).
    cbn [mbind option_bind].
    assert (Hparts : ∀ e, e ∈ R → e.1 ≠ k ∧ ok e.1 ∧ ok k).
    { intros e He. eapply ascending_parts; [exact (at_sorted _ _ _ _ _ Hs)|exact (at_ok _ _ _ _ _ Hs)|set_solver]. }
    assert (Hok : ok k).
    { pose proof (at_ok _ _ _ _ _ Hs) as O. rewrite Forall_app, Forall_cons in O. by destruct O as (_ & O & _). }
    assert (HpR : ¬ (p = q_root src ∨ p = q_nil src ∨ p ∈ (L ++ R).*2)).
    { rewrite fmap_app. rewrite NoDup_app, NoDup_cons in F. set_solver. }
    assert (Hpd : p ∉ footprint dest D) by (apply Hap, elem_of_footprint; rewrite elem_of_middle; auto).
    unfold apart in Hap. setoid_rewrite elem_of_footprint in Hap. setoid_rewrite elem_of_middle in Hap.
    assert (Hap1 : ∀ D1, (∀ a, a ∈ D1.*2 → a = p ∨ a ∈ D.*2) → apart src1 (L ++ R) dest1 D1).
    { intros D1 HD1 a. rewrite !elem_of_footprint, Q1, Q2, Q3, Q4. intros Ha Hb. apply (Hap a); [tauto|].
      destruct Hb as [Hb|[Hb|Hb]]; [tauto..|]. apply HD1 in Hb as [->|Hb]; tauto. }
    destruct (find_key cmp k D) as [a|] eqn:Ek.
    + destruct Hcase as [-> Hd1]. rewrite elem_of_footprint in Hpd.
      assert (a ≠ p) as Hne by (intros ->; apply Hpd; right; right; by eapply find_in).
      rewrite (proj2 (Z.eqb_neq _ _)) by done. rewrite Hk1.
      pose proof (at_keys _ _ _ _ _ Hs) as Hkeys. rewrite Forall_app, Forall_cons in Hkeys.
      destruct Hkeys as (_ & Hkp & _). simpl in Hkp. rewrite Hkp. cbn [mbind option_bind].
      destruct (put_middle L k p R Hok (at_ok _ _ _ _ _ Hs1) (at_sorted _ _ _ _ _ Hs)) as [Hput Hfind].
      assert (Hps : p ∉ footprint src1 (L ++ R)) by (by rewrite elem_of_footprint, Q1, Q2).
      destruct (fmap_insert_ok _ _ _ k _ Hs1 Hok Hps Hl Hi) as (r & M2 & src2 & -> & Q5 & Q6 & Hk2 & K2 & _ & _ & Hcase2).
      rewrite Hfind, Hput in Hcase2. destruct Hcase2 as [_ Hs2]. rewrite (cons_middle (k, p)), (assoc_L (++)) in Hs2.
      cbn [mbind option_bind]. rewrite En, <- Q2, <- Q6.
      assert (Hk12 : keeps M M2 (footprint src (L ++ (k, p) :: R) ++ footprint dest D)).
      { eapply keeps_trans; [exact K1|]. eapply keeps_sub; [|exact K2]. intros b.
        rewrite elem_of_app, elem_of_cons, !elem_of_footprint, Q1, Q2, elem_of_middle. tauto. }
      assert (Hd2 : map_at M2 dest1 D).
      { eapply map_at_ext; [exact K2| |exact Hd1]. intros b. rewrite elem_of_cons, !elem_of_footprint, Q1, Q2, Q3, Q4.
        intros Ha [->|Hb]; [tauto|]. apply (Hap b); tauto. }
      assert (Hap2 : apart src2 ((L ++ [(k, p)]) ++ R) dest1 D).
      { intros b. rewrite <- (assoc_L (++)). cbn [app]. rewrite !elem_of_footprint, elem_of_middle, Q5, Q6, Q1, Q2, Q3, Q4. apply Hap. }
      destruct (IH M2 dest1 src2 (L ++ [(k, p)]) D fuel Hd2 Hs2 Hap2) as (M' & dest' & src' & D' & -> & G1 & G2 & G3 & G4 & G5 & G6 & G7 & G8); [lia|].
      exists M', dest', src', D'. unfold only, common in *.
      split_and!; [done|done| | |congruence..|].
      * rewrite filter_cons_False by (simpl; by rewrite Ek). done.
      * rewrite filter_cons_True by (simpl; by rewrite Ek). by rewrite <- (assoc_L (++)) in G3.
      * eapply keeps_trans; [exact Hk12|]. eapply keeps_sub; [|exact G8]. intros b.
        rewrite <- (assoc_L (++)). cbn [app]. rewrite !elem_of_app, !elem_of_footprint, elem_of_middle, Q5, Q6, Q1, Q2, Q3, Q4. tauto.
    + destruct Hcase as [-> Hd1]. rewrite Z.eqb_refl. cbn [mbind option_bind]. rewrite En, <- Q2.
      pose proof (at_ok _ _ _ _ _ Hd) as HokD. pose proof (at_sorted _ _ _ _ _ Hd) as HsD.
      assert (Hap2 : apart src1 (L ++ R) dest1 (put cmp k p D)).
      { apply Hap1. intros a. by rewrite elem_of_put. }
      destruct (IH M1 dest1 src1 L (put cmp k p D) fuel Hd1 Hs1 Hap2) as (M' & dest' & src' & D' & -> & G1 & G2 & G3 & G4 & G5 & G6 & G7 & G8); [lia|].
      assert (Hcommon : ∀ e, e ∈ R → find_key cmp e.1 (put cmp k p D) = None ↔ find_key cmp e.1 D = None).
      { intros e He. destruct (Hparts e He) as (N1 & N2 & N3). by apply find_put_ne. }
      exists M', dest', src', D'. split_and!; [done|done| | |congruence..|].
      * rewrite G2. unfold only. rewrite filter_cons_True by done.
        rewrite (filter_ext_in _ (λ e : K * Z, find_key cmp e.1 D = None)) by done.
        rewrite (put_perm k p D) by done. by rewrite <- Permutation_middle.
      * unfold common in *. rewrite filter_cons_False by (simpl; rewrite Ek; auto).
        rewrite (filter_ext_in _ (λ e : K * Z, find_key cmp e.1 D ≠ None)) in G3; [done|]. intros e He. by rewrite Hcommon.
      * eapply keeps_trans; [exact K1|]. eapply keeps_sub; [|exact G8]. intros a. rewrite !elem_of_app, !elem_of_footprint, Q1, Q2, Q3, Q4.
        rewrite elem_of_put, elem_of_middle by done. tauto.
Qed.
End Two.
