(* ===== verification/QMapDelta.v ===== *)
(** * Balanced maps: the difference of two maps

    [maps M X] says that memory holds several maps that share no address; an item that
    goes from one to another leaves the others as they are.  The difference of two maps
    keeps in each the items whose keys are in both, and moves the others. *)

From S2P Require Import Prelude QMap QMapRep QMapList QMapInv QMapOk QMapPut QMapCut QMapTwo.

Open Scope Z_scope.

Section Delta.
Context {K : Type} {ok : K → Prop} {cmp : K → K → Z} {Ord : KeyOrder ok cmp}.
Implicit Types I J L R D : list (K * Z).
Implicit Types M : cl_mem K.
Local Notation map_at := (map_at ok cmp).

(** The addresses of several maps. *)
Definition addresses (X : list (cl_qmap * list (K * Z))) : list Z := concat ((λ x, footprint x.1 x.2) <$> X).

Definition maps M (X : list (cl_qmap * list (K * Z))) : Prop :=
  Forall (λ x, map_at M x.1 x.2) X ∧ NoDup (addresses X).

Lemma maps_perm M X Y : X ≡ₚ Y → maps M X → maps M Y.
Proof. intros HP [H1 H2]. unfold maps, addresses in *. by rewrite <- HP. Qed.

Lemma maps_cons M q I X : maps M ((q, I) :: X) ↔
  map_at M q I ∧ maps M X ∧ ∀ a, a ∈ footprint q I → a ∉ addresses X.
Proof.
  unfold maps. rewrite Forall_cons. change (addresses ((q, I) :: X)) with (footprint q I ++ addresses X).
  rewrite NoDup_app. simpl. split; [naive_solver|]. intros (H1 & [H2 H3] & H4). split_and!; try done.
  exact (at_fresh _ _ _ _ _ H1).
Qed.

(** Maps stay where memory does not change. *)
Lemma maps_ext M M' X A : keeps M M' A → (∀ a, a ∈ addresses X → a ∉ A) → maps M X → maps M' X.
Proof.
  intros Hk HL. induction X as [|[q I] X IH]; [intros _; split; constructor|]. rewrite !maps_cons.
  change (addresses ((q, I) :: X)) with (footprint q I ++ addresses X) in HL.
  intros (H1 & H2 & H3). split; [|split; [apply IH; [|done]|done]].
  - eapply map_at_ext; [exact Hk| |done]. intros a Ha. apply HL, elem_of_app. by left.
  - intros a Ha. apply HL, elem_of_app. by right.
Qed.

(** ** One item *)

Lemma delta_move_ok M from to L k p R D X : maps M ((from, L ++ (k, p) :: R) :: (to, D) :: X) →
  find_key cmp k D = None →
  ∃ M' from' to', delta_move cmp M to from p = Some (head_or (q_nil from) R.*2, M', to', from') ∧
    maps M' ((from', L ++ R) :: (to', put cmp k p D) :: X) ∧ mem_key M' = mem_key M ∧
    q_root from' = q_root from ∧ q_nil from' = q_nil from ∧ q_root to' = q_root to ∧ q_nil to' = q_nil to.
Proof.
  intros H Hk. apply maps_cons in H as (Hf & H & Hd). apply maps_cons in H as (Ht & HX & Hd2).
  change (addresses ((to, D) :: X)) with (footprint to D ++ addresses X) in Hd.
  assert (Hap : apart from (L ++ (k, p) :: R) to D) by (intros a Ha Ha'; apply (Hd a Ha), elem_of_app; by left).
  pose proof (at_ring _ _ _ _ _ Hf) as Hring. rewrite fmap_app, fmap_cons in Hring. simpl in Hring.
  apply ring_next, nxt_Some in Hring as (it & Hit & En). unfold delta_move, cl_fmap_next. rewrite Hit. cbn [mbind option_bind].
  destruct (move_item_ok _ _ _ _ _ _ _ _ Hf Ht Hap) as (r & M1 & from1 & to1 & -> & Hf1 & Q1 & Q2 & Q3 & Q4 & Hk1 & K1 & _ & _ & Hcase).
  rewrite Hk in Hcase. destruct Hcase as [-> Ht1]. cbn [mbind option_bind]. rewrite En.
  assert (Hput : ∀ a, a ∈ (put cmp k p D).*2 ↔ a = p ∨ a ∈ D.*2).
  { intros a. pose proof (at_ok _ _ _ _ _ Hf) as O. rewrite Forall_app, Forall_cons in O.
    apply elem_of_put; [done|tauto|exact (at_ok _ _ _ _ _ Ht)|exact (at_sorted _ _ _ _ _ Ht)]. }
  pose proof (at_fresh _ _ _ _ _ Hf) as F. unfold footprint in F.
  rewrite !NoDup_cons, fmap_app, fmap_cons, NoDup_app, NoDup_cons in F. simpl in F.
  assert (HpLR : p ∉ (L ++ R).*2) by (rewrite fmap_app; set_solver).
  assert (Hpr : p ≠ q_root from ∧ p ≠ q_nil from) by set_solver. clear F.
  unfold apart in Hap. setoid_rewrite elem_of_footprint in Hap. setoid_rewrite elem_of_middle in Hap.
  setoid_rewrite elem_of_app in Hd. setoid_rewrite elem_of_footprint in Hd. setoid_rewrite elem_of_middle in Hd.
  setoid_rewrite elem_of_footprint in Hd2.
  exists M1, from1, to1. split; [done|]. split; [|by split_and!]. rewrite !maps_cons. split; [done|]. split; [split; [done|split]|].
  - eapply maps_ext; [exact K1| |done]. intros a Ha. rewrite elem_of_app, !elem_of_footprint, elem_of_middle.
    intros [Hb|Hb]; [apply (Hd a Hb); tauto|by apply (Hd2 a Hb)].
  - intros a. rewrite elem_of_footprint, Q3, Q4, Hput. intros Ha Hb. destruct Ha as [Ha|[Ha|[->|Ha]]];
      [apply (Hd2 a); tauto|apply (Hd2 a); tauto|apply (Hd p); tauto|apply (Hd2 a); tauto].
  - intros a. change (addresses ((to1, _) :: X)) with (footprint to1 (put cmp k p D) ++ addresses X).
    rewrite elem_of_app, !elem_of_footprint, Q1, Q2, Q3, Q4, Hput. intros Ha [Hb|Hb]; [|apply (Hd a); tauto].
    destruct Hb as [Hb|[Hb|[->|Hb]]]; [apply (Hd a); tauto|apply (Hd a); tauto|tauto|apply (Hd a); tauto].
Qed.

(** ** What is left in one map *)

Lemma rest_loop_ok R : ∀ M dest src L D X fuel, maps M ((src, L ++ R) :: (dest, D) :: X) →
  (∀ e, e ∈ R → find_key cmp e.1 D = None) → (length R < fuel)%nat →
  ∃ M' dest' src' D', rest_loop cmp fuel M dest src (head_or (q_nil src) R.*2) = Some (M', dest', src') ∧
    maps M' ((src', L) :: (dest', D') :: X) ∧ D' ≡ₚ R ++ D ∧
    q_root src' = q_root src ∧ q_nil src' = q_nil src ∧ q_root dest' = q_root dest ∧ q_nil dest' = q_nil dest.
Proof.
  induction R as [|[k p] R IH]; intros M dest src L D X fuel H Hn Hf; (destruct fuel as [|fuel]; [lia|]).
  - exists M, dest, src, D. rewrite app_nil_r in H. simpl. rewrite Z.eqb_refl. by split_and!.
  - simpl in Hf. rewrite fmap_cons. change (head_or _ _) with p. cbn [rest_loop].
    pose proof H as (Hs & (Hd & _ & _)%maps_cons & _)%maps_cons.
    pose proof (at_fresh _ _ _ _ _ Hs) as F. unfold footprint in F. rewrite !NoDup_cons, fmap_app, fmap_cons in F. simpl in F.
    rewrite (proj2 (Z.eqb_neq _ _)) by set_solver.
    destruct (delta_move_ok _ _ _ _ _ _ _ _ _ H (Hn (k, p) ltac:(left))) as (M1 & src1 & dest1 & -> & H1 & _ & Q1 & Q2 & Q3 & Q4).
    cbn [mbind option_bind]. rewrite <- Q2.
    assert (HkD : find_key cmp k D = None) by (apply (Hn (k, p)); left).
    pose proof (at_ok _ _ _ _ _ Hs) as HokI. pose proof (at_sorted _ _ _ _ _ Hs) as HsI.
    assert (Hok : ok k) by (rewrite Forall_app, Forall_cons in HokI; tauto).
    destruct (IH M1 dest1 src1 L (put cmp k p D) X fuel H1) as (M' & dest' & src' & D' & -> & G1 & G2 & G3 & G4 & G5 & G6); [|lia|].
    + intros e He. destruct (ascending_parts L k p R e HsI HokI) as (N1 & N2 & _); [set_solver|].
      apply find_put_ne; [done..|exact (at_ok _ _ _ _ _ Hd)|exact (at_sorted _ _ _ _ _ Hd)|done|]. apply Hn. by right.
    + exists M', dest', src', D'. split_and!; [done|done| |congruence..].
      rewrite G2, (put_perm k p D HkD Hok (at_ok _ _ _ _ _ Hd) (at_sorted _ _ _ _ _ Hd)). by rewrite <- Permutation_middle.
Qed.

(** ** Both maps *)

Lemma find_cons_ne k k' p J : ok k → ok k' → k ≠ k' → find_key cmp k ((k', p) :: J) = find_key cmp k J.
Proof.
  intros Hk Hk' Hne. unfold find_key, same. rewrite filter_cons_False; [done|]. simpl. intros H.
  by apply (cmp_eq (ok := ok)) in H.
Qed.

(** A key that is not in a list does not count. *)
Lemma split_cons_ne R k p J : ok k → (∀ e, e ∈ R → e.1 ≠ k ∧ ok e.1) →
  common cmp R ((k, p) :: J) = common cmp R J ∧ only cmp R ((k, p) :: J) = only cmp R J.
Proof.
  intros Hk HR. unfold common, only. split; apply filter_ext_in; intros e He; destruct (HR e He) as [H1 H2];
    by rewrite find_cons_ne.
Qed.

(** A key below a list is not in it. *)
Lemma find_below k k' p R : ok k → Forall (λ e, ok e.1) ((k', p) :: R) → ascending cmp ((k', p) :: R) →
  cmp k k' < 0 → find_key cmp k ((k', p) :: R) = None ∧ ∀ e, e ∈ (k', p) :: R → e.1 ≠ k ∧ ok e.1.
Proof.
  intros Hk Hok Hs Hc. apply StronglySorted_inv in Hs as [_ Hs]. rewrite !Forall_forall in *. simpl in Hs.
  assert (Hlt : ∀ e, e ∈ (k', p) :: R → cmp k e.1 < 0).
  { intros e [->|He]%elem_of_cons; [done|].
    apply (cmp_trans (ok := ok) k k' e.1); [done|apply (Hok (k', p)); left|apply Hok; by right|done|by apply Hs]. }
  split.
  - unfold find_key, same. rewrite filter_Forall_not; [done|]. apply Forall_forall. intros e He H0. apply Hlt in He. lia.
  - intros e He. split; [|by apply Hok]. intros E. apply Hlt in He. rewrite E, key_refl in He by done. lia.
Qed.

Lemma ascending_app_r L R : ascending cmp (L ++ R) → ascending cmp R.
Proof. apply StronglySorted_app_1_r. Qed.

(** The sentinels of the four maps stay. *)
Definition same_ends (q q' : cl_qmap) : Prop := q_root q' = q_root q ∧ q_nil q' = q_nil q.
Definition same_maps (D D' : delta_maps) : Prop :=
  same_ends (d_map1 D) (d_map1 D') ∧ same_ends (d_map2 D) (d_map2 D') ∧
  same_ends (d_new D) (d_new D') ∧ same_ends (d_old D) (d_old D').

(** The four maps of a difference in memory. *)
Definition four M (D : delta_maps) I1 I2 N O : Prop :=
  maps M [(d_map1 D, I1); (d_map2 D, I2); (d_new D, N); (d_old D, O)].

Lemma four_1 M (D : delta_maps) I1 I2 N O : four M D I1 I2 N O ↔ maps M [(d_map1 D, I1); (d_old D, O); (d_map2 D, I2); (d_new D, N)].
Proof.
  unfold four. split; apply maps_perm; [|symmetry]; apply Permutation_skip;
    exact (Permutation_app_comm [(d_map2 D, I2); (d_new D, N)] [(d_old D, O)]).
Qed.

Lemma four_2 M (D : delta_maps) I1 I2 N O : four M D I1 I2 N O ↔ maps M [(d_map2 D, I2); (d_new D, N); (d_map1 D, I1); (d_old D, O)].
Proof.
  unfold four. split; apply maps_perm; [|symmetry];
    exact (Permutation_app_tail [(d_old D, O)] (Permutation_app_comm [(d_map1 D, I1)] [(d_map2 D, I2); (d_new D, N)])).
Qed.

Lemma head_nil M q L R : map_at M q (L ++ R) → (head_or (q_nil q) R.*2 =? q_nil q) = true ↔ R = [].
Proof.
  intros H. rewrite Z.eqb_eq. split; [|by intros ->]. destruct R as [|[k p] R]; [done|].
  change (head_or _ _) with p. intros ->. pose proof (at_fresh _ _ _ _ _ H) as F. unfold footprint in F.
  rewrite !NoDup_cons, fmap_app, fmap_cons in F. simpl in F. set_solver.
Qed.

(** One of the two lists is at its end. *)
Lemma delta_rest M (D : delta_maps) C1 R1 C2 R2 N O fuel : four M D (C1 ++ R1) (C2 ++ R2) N O → R1 = [] ∨ R2 = [] →
  (∀ e, e ∈ R1 → find_key cmp e.1 O = None) → (∀ e, e ∈ R2 → find_key cmp e.1 N = None) →
  (length R1 + length R2 < fuel)%nat →
  ∃ M' (D' : delta_maps) N' O',
    ('(M, new, map2) ← rest_loop cmp fuel M (d_new D) (d_map2 D) (head_or (q_nil (d_map2 D)) R2.*2);
     '(M, old, map1) ← rest_loop cmp fuel M (d_old D) (d_map1 D) (head_or (q_nil (d_map1 D)) R1.*2);
     Some (M, DeltaMaps map1 map2 new old)) = Some (M', D') ∧
    four M' D' (C1 ++ common cmp R1 R2) (C2 ++ common cmp R2 R1) N' O' ∧
    N' ≡ₚ only cmp R2 R1 ++ N ∧ O' ≡ₚ only cmp R1 R2 ++ O ∧ same_maps D D'.
Proof.
  intros H Hend Hn1 Hn2 Hf. apply four_2 in H.
  destruct (rest_loop_ok R2 _ _ _ _ _ _ fuel H Hn2) as (M1 & new1 & map2 & N' & -> & H1 & HN & Q1 & Q2 & Q3 & Q4); [lia|].
  cbn [mbind option_bind].
  apply (four_2 _ (DeltaMaps (d_map1 D) map2 new1 (d_old D))), four_1 in H1. simpl in H1.
  destruct (rest_loop_ok R1 _ _ _ _ _ _ fuel H1 Hn1) as (M2 & old1 & map1 & O' & -> & H2 & HO & Q5 & Q6 & Q7 & Q8); [lia|].
  cbn [mbind option_bind]. exists M2, (DeltaMaps map1 map2 new1 old1), N', O'.
  assert (∀ R, common cmp R [] = [] ∧ only cmp R [] = R) as Hnil.
  { intros R. unfold common, only. split; [apply filter_Forall_not|apply filter_Forall]; apply Forall_forall; auto. }
  assert (common cmp R1 R2 = [] ∧ common cmp R2 R1 = [] ∧ only cmp R1 R2 = R1 ∧ only cmp R2 R1 = R2) as (-> & -> & -> & ->).
  { pose proof (Hnil R1). pose proof (Hnil R2). destruct Hend as [->| ->]; tauto. }
  rewrite !app_nil_r. split_and!; [done|by apply (four_1 _ (DeltaMaps map1 map2 new1 old1))|done|done|].
  by split_and!.
Qed.

Lemma same_maps_trans (D1 D2 D3 : delta_maps) : same_maps D1 D2 → same_maps D2 D3 → same_maps D1 D3.
Proof. unfold same_maps, same_ends. intuition congruence. Qed.

(** The item at the head of one list is in neither. *)
Lemma split_head k p R J : find_key cmp k J = None → ok k → (∀ e, e ∈ J → e.1 ≠ k ∧ ok e.1) →
  common cmp ((k, p) :: R) J = common cmp R J ∧ only cmp ((k, p) :: R) J = (k, p) :: only cmp R J ∧
  common cmp J ((k, p) :: R) = common cmp J R ∧ only cmp J ((k, p) :: R) = only cmp J R.
Proof.
  intros Hn Hk HJ. destruct (split_cons_ne J k p R Hk HJ) as [-> ->]. unfold common, only.
  by rewrite filter_cons_False, filter_cons_True by (simpl; auto).
Qed.

(** The items at the heads have one key. *)
Lemma split_both k p R p' J : ok k → (∀ e, e ∈ R → e.1 ≠ k ∧ ok e.1) →
  common cmp ((k, p) :: R) ((k, p') :: J) = (k, p) :: common cmp R J ∧
  only cmp ((k, p) :: R) ((k, p') :: J) = only cmp R J.
Proof.
  intros Hk HR. destruct (split_cons_ne R k p' J Hk HR) as [Ec Eo]. rewrite <- Ec, <- Eo.
  assert (find_key cmp k ((k, p') :: J) ≠ None) as Hf.
  { unfold find_key, same. rewrite filter_cons_True; [done|]. by apply key_refl. }
  unfold common, only. by rewrite filter_cons_True, filter_cons_False by (simpl; auto).
Qed.

Lemma find_put_rest R k p O : ok k → (∀ e, e ∈ R → e.1 ≠ k ∧ ok e.1) → Forall (λ e, ok e.1) O → ascending cmp O →
  (∀ e, e ∈ (k, p) :: R → find_key cmp e.1 O = None) →
  ∀ e, e ∈ R → find_key cmp e.1 (put cmp k p O) = None.
Proof.
  intros Hk HR HO Hs Hn e He. destruct (HR e He) as [N1 N2].
  apply find_put_ne; [done..|apply (Hn (k, p)); left|]. apply Hn. by right.
Qed.

Lemma put_only k p A O B : find_key cmp k O = None → ok k → Forall (λ e, ok e.1) O → ascending cmp O →
  B ≡ₚ A ++ put cmp k p O → B ≡ₚ ((k, p) :: A) ++ O.
Proof. intros H1 H2 H3 H4 ->. rewrite (put_perm k p O H1 H2 H3 H4). by rewrite <- Permutation_middle. Qed.

Lemma next_ok M q C k p R : map_at M q (C ++ (k, p) :: R) → cl_fmap_next M p = Some (head_or (q_nil q) R.*2).
Proof.
  intros H. pose proof (at_ring _ _ _ _ _ H) as Hring. rewrite fmap_app, fmap_cons in Hring. simpl in Hring.
  apply ring_next, nxt_Some in Hring as (it & Hit & En). unfold cl_fmap_next. rewrite Hit. simpl. by rewrite En.
Qed.

Lemma delta_loop_ok fuel : ∀ M (D : delta_maps) C1 R1 C2 R2 N O, four M D (C1 ++ R1) (C2 ++ R2) N O →
  (∀ e, e ∈ R1 → find_key cmp e.1 O = None) → (∀ e, e ∈ R2 → find_key cmp e.1 N = None) →
  (length R1 + length R2 + 1 < fuel)%nat →
  ∃ M' (D' : delta_maps) N' O',
    delta_loop cmp fuel M D (head_or (q_nil (d_map1 D)) R1.*2) (head_or (q_nil (d_map2 D)) R2.*2) = Some (M', D') ∧
    four M' D' (C1 ++ common cmp R1 R2) (C2 ++ common cmp R2 R1) N' O' ∧
    N' ≡ₚ only cmp R2 R1 ++ N ∧ O' ≡ₚ only cmp R1 R2 ++ O ∧ same_maps D D'.
Proof.
  induction fuel as [|fuel IH]; intros M D C1 R1 C2 R2 N O H Hn1 Hn2 Hf; [lia|]. cbn [delta_loop].
  pose proof H as (H1 & (H2 & (HN & (HO & _ & _)%maps_cons & _)%maps_cons & _)%maps_cons & _)%maps_cons.
  destruct ((_ =? _) || (_ =? _)) eqn:Eend.
  { apply delta_rest; [done| |done|done|lia].
    apply orb_true_iff in Eend as [E|E]; [left; by apply (head_nil _ _ _ _ H1)|right; by apply (head_nil _ _ _ _ H2)]. }
  apply orb_false_iff in Eend as [E1 E2].
  destruct R1 as [|[k1 p1] R1]; [by rewrite (proj2 (head_nil _ _ _ _ H1)) in E1|].
  destruct R2 as [|[k2 p2] R2]; [by rewrite (proj2 (head_nil _ _ _ _ H2)) in E2|]. clear E1 E2.
  rewrite !fmap_cons. change (head_or (q_nil (d_map1 D)) _) with p1. change (head_or (q_nil (d_map2 D)) _) with p2.
  pose proof (at_keys _ _ _ _ _ H1) as K1. pose proof (at_keys _ _ _ _ _ H2) as K2.
  rewrite Forall_app, Forall_cons in K1, K2. destruct K1 as (_ & K1 & _). destruct K2 as (_ & K2 & _). simpl in K1, K2.
  rewrite K1, K2. cbn [mbind option_bind].
  assert (Ok1 : ok k1) by (pose proof (at_ok _ _ _ _ _ H1) as O1; rewrite Forall_app, Forall_cons in O1; tauto).
  assert (Ok2 : ok k2) by (pose proof (at_ok _ _ _ _ _ H2) as O1; rewrite Forall_app, Forall_cons in O1; tauto).
  pose proof (at_sorted _ _ _ _ _ H1) as S1. pose proof (at_sorted _ _ _ _ _ H2) as S2.
  apply ascending_app_r in S1, S2.
  assert (F1 : Forall (λ e, ok e.1) ((k1, p1) :: R1)) by (pose proof (at_ok _ _ _ _ _ H1) as O1; rewrite Forall_app in O1; tauto).
  assert (F2 : Forall (λ e, ok e.1) ((k2, p2) :: R2)) by (pose proof (at_ok _ _ _ _ _ H2) as O1; rewrite Forall_app in O1; tauto).
  assert (P1 : ∀ e, e ∈ R1 → e.1 ≠ k1 ∧ ok e.1) by (intros e He; edestruct (ascending_parts [] k1 p1 R1 e) as (? & ? & _); eauto).
  assert (P2 : ∀ e, e ∈ R2 → e.1 ≠ k2 ∧ ok e.1) by (intros e He; edestruct (ascending_parts [] k2 p2 R2 e) as (? & ? & _); eauto).
  simpl in Hf. destruct (cmp_cases k1 k2 Ok1 Ok2) as [[Hlt _]|[[-> Heq]|[Hgt Hgt']]].
  - rewrite (proj2 (Z.ltb_lt _ _)) by done.
    destruct (find_below k1 k2 p2 R2 Ok1 F2 S2 Hlt) as [Hk1 HJ].
    destruct (split_head k1 p1 R1 _ Hk1 Ok1 HJ) as (-> & -> & -> & ->).
    apply four_1 in H. assert (Hk0 : find_key cmp k1 O = None) by (apply (Hn1 (k1, p1)); left).
    destruct (delta_move_ok _ _ _ _ _ _ _ _ _ H Hk0) as (M1 & map1 & old1 & -> & Hm & _ & Q1 & Q2 & Q3 & Q4).
    cbn [mbind option_bind]. rewrite <- Q2. set (D1 := DeltaMaps map1 (d_map2 D) (d_new D) old1).
    apply (four_1 _ D1) in Hm.
    destruct (IH M1 D1 C1 R1 C2 ((k2, p2) :: R2) N (put cmp k1 p1 O) Hm) as (M' & D' & N' & O' & E & G1 & G2 & G3 & G4);
      [eapply find_put_rest; [exact Ok1|exact P1|exact (at_ok _ _ _ _ _ HO)|exact (at_sorted _ _ _ _ _ HO)|exact Hn1]|done|simpl; lia|].
    exists M', D', N', O'. split_and!; [exact E|done|done| |eapply same_maps_trans; [|exact G4]; by repeat split].
    eapply put_only; [exact Hk0|done|exact (at_ok _ _ _ _ _ HO)|exact (at_sorted _ _ _ _ _ HO)|exact G3].
  - rewrite Heq. simpl. rewrite (next_ok _ _ _ _ _ _ H1), (next_ok _ _ _ _ _ _ H2). cbn [mbind option_bind].
    destruct (split_both k2 p1 R1 p2 R2 Ok2 P1) as [-> ->]. destruct (split_both k2 p2 R2 p1 R1 Ok2 P2) as [-> ->].
    rewrite (cons_middle _ C1), (assoc_L (++)) in H |- *. rewrite (cons_middle _ C2), (assoc_L (++)) in H |- *.
    apply (IH M D _ R1 _ R2 N O H); [intros e He; apply Hn1; by right|intros e He; apply Hn2; by right|lia].
  - rewrite (proj2 (Z.ltb_ge _ _)), (proj2 (Z.ltb_lt _ _)) by lia.
    destruct (find_below k2 k1 p1 R1 Ok2 F1 S1 Hgt') as [Hk2 HJ].
    destruct (split_head k2 p2 R2 _ Hk2 Ok2 HJ) as (-> & -> & -> & ->).
    apply four_2 in H. assert (Hk0 : find_key cmp k2 N = None) by (apply (Hn2 (k2, p2)); left).
    destruct (delta_move_ok _ _ _ _ _ _ _ _ _ H Hk0) as (M1 & map2 & new1 & -> & Hm & _ & Q1 & Q2 & Q3 & Q4).
    cbn [mbind option_bind]. rewrite <- Q2. set (D1 := DeltaMaps (d_map1 D) map2 new1 (d_old D)).
    apply (four_2 _ D1) in Hm.
    destruct (IH M1 D1 C1 ((k1, p1) :: R1) C2 R2 (put cmp k2 p2 N) O Hm) as (M' & D' & N' & O' & E & G1 & G2 & G3 & G4);
      [done|eapply find_put_rest; [exact Ok2|exact P2|exact (at_ok _ _ _ _ _ HN)|exact (at_sorted _ _ _ _ _ HN)|exact Hn2]|simpl; lia|].
    exists M', D', N', O'. split_and!; [exact E|done| |done|eapply same_maps_trans; [|exact G4]; by repeat split].
    eapply put_only; [exact Hk0|done|exact (at_ok _ _ _ _ _ HN)|exact (at_sorted _ _ _ _ _ HN)|exact G2].
Qed.
End Delta.
