(* ===== verification/QMapSpec.v ===== *)
(** * Balanced maps: what they are for their users

    The maps with keys of 64 bits, [cl_qmap_t], hold a finite map from keys to items.
    Each operation on memory is the operation on that finite map; walking one visits
    [qmap_items], the order in which the rest of the development iterates. *)

From S2P Require Import Prelude QMap QMapRep QMapIns QMapList QMapInv QMapOk QMapPut QMapCut QMapTwo QMapDelta.

Open Scope Z_scope.

(** ** Keys of 64 bits *)

Definition key_cmp (key1 key2 : Z) : Z := if key1 <? key2 then -1 else if key2 <? key1 then 1 else 0.

#[export] Instance key_order : KeyOrder (λ _, True) key_cmp.
Proof. split; unfold key_cmp; intros; repeat case_match; lia. Qed.

Definition cl_qmap_init : cl_mem Z → Z → Z → option (cl_mem Z * cl_qmap) := cl_fmap_init.
Definition cl_qmap_get : cl_mem Z → cl_qmap → Z → option Z := cl_fmap_get key_cmp.
Definition cl_qmap_get_next : cl_mem Z → cl_qmap → Z → option Z := cl_fmap_get_next key_cmp.
Definition cl_qmap_apply_func : cl_mem Z → cl_qmap → option (list Z) := cl_fmap_apply_func.
Definition cl_qmap_insert : cl_mem Z → cl_qmap → Z → Z → option (Z * cl_mem Z * cl_qmap) := cl_fmap_insert key_cmp.
Definition cl_qmap_remove_item : cl_mem Z → cl_qmap → Z → option (cl_mem Z * cl_qmap) := cl_fmap_remove_item.
Definition cl_qmap_remove : cl_mem Z → cl_qmap → Z → option (Z * cl_mem Z * cl_qmap) := cl_fmap_remove key_cmp.
Definition cl_qmap_merge : cl_mem Z → cl_qmap → cl_qmap → option (cl_mem Z * cl_qmap * cl_qmap) := cl_fmap_merge key_cmp.
Definition __cl_qmap_delta_move : cl_mem Z → cl_qmap → cl_qmap → Z → option (Z * cl_mem Z * cl_qmap * cl_qmap) :=
  delta_move key_cmp.
Definition cl_qmap_delta : cl_mem Z → cl_qmap → cl_qmap → cl_qmap → cl_qmap → option (cl_mem Z * delta_maps) :=
  cl_fmap_delta key_cmp.

(** ** Finite maps in memory *)

Definition qmap_at (M : cl_mem Z) (q : cl_qmap) (m : gmap Z Z) : Prop :=
  map_at (λ _, True) key_cmp M q (qmap_items m).

(** Several of them that share no address. *)
Definition qmaps_at (M : cl_mem Z) (X : list (cl_qmap * gmap Z Z)) : Prop :=
  maps (ok := λ _, True) (cmp := key_cmp) M ((λ x, (x.1, qmap_items x.2)) <$> X).

Implicit Types M : cl_mem Z.
Implicit Types m : gmap Z Z.

Lemma all_ok (I : list (Z * Z)) : Forall (λ e, True) I.
Proof. by apply Forall_forall. Qed.

Lemma key_cmp_lt x y : key_cmp x y < 0 ↔ x < y.
Proof. unfold key_cmp. repeat case_match; lia. Qed.
Lemma key_cmp_gt x y : 0 < key_cmp x y ↔ y < x.
Proof. unfold key_cmp. repeat case_match; lia. Qed.
Lemma key_cmp_eq x y : key_cmp x y = 0 ↔ x = y.
Proof. unfold key_cmp. repeat case_match; lia. Qed.

Lemma qmap_items_ascending m : ascending key_cmp (qmap_items m).
Proof.
  pose proof (qmap_items_lt_sorted m) as H. induction H as [|e I H IH He]; [constructor|]. constructor; [done|].
  eapply Forall_impl; [exact He|]. intros x. apply key_cmp_lt.
Qed.

Lemma qmap_items_perm m : qmap_items m ≡ₚ map_to_list m.
Proof. apply merge_sort_Permutation. Qed.

(** The items of a map are those of the finite map, in order. *)
Lemma items_eq M q I m : map_at (λ _, True) key_cmp M q I → I ≡ₚ map_to_list m → I = qmap_items m.
Proof.
  intros H HP. apply (ascending_unique (ok := λ _, True) (cmp := key_cmp)); [apply all_ok|exact (at_sorted _ _ _ _ _ H)|apply qmap_items_ascending|].
  by rewrite qmap_items_perm.
Qed.

Lemma qmap_at_perm M q I m : map_at (λ _, True) key_cmp M q I → I ≡ₚ map_to_list m → qmap_at M q m.
Proof. intros H HP. unfold qmap_at. by rewrite <- (items_eq _ _ _ _ H HP). Qed.

Lemma find_key_lookup key m : find_key key_cmp key (qmap_items m) = m !! key.
Proof.
  destruct (m !! key) as [a|] eqn:E.
  - apply (same_find (ok := λ _, True)); [done|apply all_ok|apply qmap_items_ascending|]. by apply elem_of_qmap_items.
  - apply (find_None (ok := λ _, True)); [done|apply all_ok|]. intros ([k a] & -> & Hin)%list_elem_of_fmap.
    apply elem_of_qmap_items in Hin. simpl in E. congruence.
Qed.

Lemma put_items key p m : m !! key = None → put key_cmp key p (qmap_items m) ≡ₚ map_to_list (<[key := p]> m).
Proof.
  intros Hn. rewrite (put_perm (ok := λ _, True)); [|by rewrite find_key_lookup|done|apply all_ok|apply qmap_items_ascending].
  by rewrite qmap_items_perm, map_to_list_insert.
Qed.

Lemma addresses_nodup M q m : qmap_at M q m → NoDup (qmap_items m).*2.
Proof. intros H. pose proof (at_fresh _ _ _ _ _ H) as F. unfold footprint in F. rewrite !NoDup_cons in F. tauto. Qed.

Lemma cut_items M q m key p : qmap_at M q m → m !! key = Some p → cut p (qmap_items m) ≡ₚ map_to_list (delete key m).
Proof.
  intros H Hk. pose proof (addresses_nodup _ _ _ H) as Hnd. apply elem_of_qmap_items in Hk as Hin.
  apply list_elem_of_split in Hin as (I1 & I2 & E). rewrite E in Hnd |- *. rewrite cut_split by done.
  apply (Permutation_cons_inv (a := (key, p))). rewrite Permutation_middle, <- E, qmap_items_perm.
  symmetry. by apply map_to_list_delete.
Qed.

Lemma filter_items (P : Z * Z → Prop) `{∀ e, Decision (P e)} m m' :
  (∀ k a, m' !! k = Some a ↔ m !! k = Some a ∧ P (k, a)) → filter P (qmap_items m) ≡ₚ map_to_list m'.
Proof.
  intros Hm. apply NoDup_Permutation.
  - apply NoDup_filter, (NoDup_fmap_1 fst), qmap_items_NoDup.
  - apply NoDup_map_to_list.
  - intros [k a]. rewrite list_elem_of_filter, elem_of_qmap_items, elem_of_map_to_list, Hm. tauto.
Qed.

Lemma common_items m1 m2 : common key_cmp (qmap_items m1) (qmap_items m2) ≡ₚ map_to_list (m1 ∩ m2).
Proof.
  apply filter_items. intros k a. simpl. rewrite find_key_lookup, lookup_intersection_Some.
  unfold is_Some. destruct (m2 !! k); naive_solver.
Qed.

Lemma only_items m1 m2 : only key_cmp (qmap_items m1) (qmap_items m2) ≡ₚ map_to_list (m1 ∖ m2).
Proof. apply filter_items. intros k a. simpl. by rewrite find_key_lookup, lookup_difference_Some. Qed.

Lemma union_items m1 m2 : only key_cmp (qmap_items m2) (qmap_items m1) ++ qmap_items m1 ≡ₚ map_to_list (m1 ∪ m2).
Proof.
  rewrite only_items, qmap_items_perm. apply NoDup_Permutation.
  - apply NoDup_app. split_and!; [apply NoDup_map_to_list| |apply NoDup_map_to_list].
    intros [k a] H1 H2. apply elem_of_map_to_list in H1, H2. apply lookup_difference_Some in H1. destruct H1. congruence.
  - apply NoDup_map_to_list.
  - intros [k a]. rewrite elem_of_app, !elem_of_map_to_list, lookup_difference_Some, lookup_union_Some_raw. tauto.
Qed.

(** ** The operations *)

Lemma qmap_init M root nil : root ≠ nil → ∃ M' q, cl_qmap_init M root nil = Some (M', q) ∧ qmap_at M' q ∅ ∧
  q_root q = root ∧ q_nil q = nil ∧ keeps M M' [root; nil].
Proof.
  intros H. destruct (init_ok (ok := λ _, True) (cmp := key_cmp) M root nil H) as (M' & q & E & H1 & H2 & H3 & H4).
  exists M', q. split_and!; [done| |done|done|done]. by eapply qmap_at_perm.
Qed.

(** C11. [cl_qmap_insert] is insertion into a finite map: if the key is there its item is
    returned and the map is as it was, otherwise the new item is returned and the map is
    the one with the key and the item; the links, the list and the keys of others stay. *)
Theorem cl_qmap_insert_refines M q m key p :
  qmap_at M q m → p ∉ footprint q (qmap_items m) →
  is_Some (mem_links M !! p) → is_Some (mem_list M !! p) →
  ∃ r M' q', cl_qmap_insert M q key p = Some (r, M', q') ∧ keeps M M' (p :: footprint q (qmap_items m)) ∧
    match m !! key with
    | Some a => r = a ∧ qmap_at M' q' m
    | None => r = p ∧ qmap_at M' q' (<[key := p]> m)
    end.
Proof.
  intros H Hp Hl Hi.
  destruct (fmap_insert_ok _ _ _ key _ H Logic.I Hp Hl Hi) as (r & M' & q' & E & _ & _ & _ & Hk & _ & _ & Hcase).
  exists r, M', q'. split_and!; [done|done|]. rewrite find_key_lookup in Hcase.
  destruct (m !! key) as [a|] eqn:Em; [done|]. destruct Hcase as [-> H']. split; [done|].
  eapply qmap_at_perm; [exact H'|]. by apply put_items.
Qed.

(** C12. [cl_qmap_remove] is deletion from a finite map: the item with the key is
    returned and is out of the map, its own memory still there; without one the end of
    the map is returned and nothing changes. *)
Theorem cl_qmap_remove_refines M q m key : qmap_at M q m →
  match m !! key with
  | Some p => ∃ M' q', cl_qmap_remove M q key = Some (p, M', q') ∧ qmap_at M' q' (delete key m) ∧
      keeps M M' (footprint q (qmap_items m)) ∧ is_Some (mem_links M' !! p) ∧ is_Some (mem_list M' !! p)
  | None => cl_qmap_remove M q key = Some (q_nil q, M, q)
  end.
Proof.
  intros H. unfold cl_qmap_remove, cl_fmap_remove. rewrite (get_ok _ _ _ key H Logic.I), find_key_lookup.
  cbn [mbind option_bind]. destruct (m !! key) as [p|] eqn:Em; simpl.
  - assert (p ∈ (qmap_items m).*2) as Hp.
    { apply elem_of_qmap_items in Em. apply list_elem_of_fmap. by exists (key, p). }
    destruct (fmap_remove_item_ok _ _ _ _ H Hp) as (M' & q' & -> & H' & _ & _ & _ & Hk & Hl & Hi). cbn [mbind option_bind].
    exists M', q'. split_and!; [done| |done|done|done]. eapply qmap_at_perm; [exact H'|]. by eapply cut_items.
  - unfold cl_fmap_remove_item. by rewrite Z.eqb_refl.
Qed.

(** C13. Reading a map: [cl_qmap_apply_func] visits the items in the increasing order of
    their keys, each once, which is [qmap_items]; [cl_qmap_get] is the lookup, and
    [cl_qmap_get_next] gives the item with the least greater key, or the end. *)
Theorem cl_qmap_reads M q m key : qmap_at M q m →
  cl_qmap_apply_func M q = Some (qmap_items m).*2 ∧
  cl_qmap_get M q key = Some (default (q_nil q) (m !! key)) ∧
  cl_qmap_get_next M q key =
    Some (default (q_nil q) (snd <$> head (filter (λ e, key < e.1) (qmap_items m)))).
Proof.
  intros H. split_and!; [by eapply walk_ok|by rewrite <- find_key_lookup; eapply get_ok|].
  unfold cl_qmap_get_next. rewrite (get_next_ok _ _ _ key H Logic.I). unfold next_key, above. do 4 f_equal.
  apply filter_ext_in. intros e _. apply key_cmp_lt.
Qed.

(** C21. [cl_qmap_merge] moves into the one map what it has no key for: the destination
    becomes the union, in which its own items come first, and the source keeps the items
    whose keys both have. *)
Theorem cl_qmap_merge_refines M dest src m_dest m_src :
  qmap_at M dest m_dest → qmap_at M src m_src → apart src (qmap_items m_src) dest (qmap_items m_dest) →
  ∃ M' dest' src', cl_qmap_merge M dest src = Some (M', dest', src') ∧
    qmap_at M' dest' (m_dest ∪ m_src) ∧ qmap_at M' src' (m_src ∩ m_dest) ∧
    keeps M M' (footprint src (qmap_items m_src) ++ footprint dest (qmap_items m_dest)).
Proof.
  intros Hd Hs Hap. unfold cl_qmap_merge, cl_fmap_merge. rewrite (head_ok _ _ _ Hs). cbn [mbind option_bind].
  pose proof (at_fuel _ _ _ Hs) as Hf.
  destruct (merge_loop_ok (qmap_items m_src) M dest src [] _ (map_fuel M) Hd Hs Hap Hf)
    as (M' & dest' & src' & D' & -> & H1 & HP & H2 & _ & _ & _ & _ & Hk).
  exists M', dest', src'. split_and!; [done| | |done].
  - eapply qmap_at_perm; [exact H1|]. rewrite HP. apply union_items.
  - eapply qmap_at_perm; [exact H2|]. apply common_items.
Qed.

(** C22. [cl_qmap_delta] compares two maps: each keeps the items whose keys both have;
    what only the first has goes to [p_old], and what only the second has to [p_new],
    which were empty. *)
Theorem cl_qmap_delta_refines M map1 map2 new old m1 m2 :
  qmaps_at M [(map1, m1); (map2, m2); (new, ∅); (old, ∅)] →
  ∃ M' D, cl_qmap_delta M map1 map2 new old = Some (M', D) ∧
    qmaps_at M' [(d_map1 D, m1 ∩ m2); (d_map2 D, m2 ∩ m1); (d_new D, m2 ∖ m1); (d_old D, m1 ∖ m2)].
Proof.
  intros H. change (four (ok := λ _, True) (cmp := key_cmp) M (DeltaMaps map1 map2 new old) (qmap_items m1) (qmap_items m2) [] []) in H.
  pose proof H as (H1 & (H2 & _ & _)%maps_cons & _)%maps_cons. simpl in H1, H2.
  unfold cl_qmap_delta, cl_fmap_delta. rewrite (head_ok _ _ _ H1), (head_ok _ _ _ H2). cbn [mbind option_bind].
  pose proof (at_fuel _ _ _ H1) as F1. pose proof (at_fuel _ _ _ H2) as F2.
  destruct (delta_loop_ok (map_fuel M + map_fuel M) M _ [] _ [] _ _ _ H) as (M' & D & N & O & E & G & HN & HO & _);
    [done|done|lia|]. simpl in E. exists M', D. split; [exact E|].
  simpl in G. rewrite app_nil_r in HN, HO.
  pose proof G as (G1 & (G2 & (G3 & (G4 & _ & _)%maps_cons & _)%maps_cons & _)%maps_cons & _)%maps_cons.
  rewrite (items_eq _ _ _ _ G1 (common_items m1 m2)), (items_eq _ _ _ _ G2 (common_items m2 m1)) in G.
  rewrite only_items in HN, HO. rewrite (items_eq _ _ _ _ G3 HN), (items_eq _ _ _ _ G4 HO) in G. exact G.
Qed.

(** ** Searching with a comparison *)

Lemma rb_depth c n t : rb c n t →
  (depth t ≤ 2 * n + match c with CL_MAP_RED => 1 | CL_MAP_BLACK => 0 end)%nat ∧
  (2 ^ n ≤ length (inorder t) + 1)%nat.
Proof.
  induction 1 as [|l a r n _ [D1 L1] _ [D2 L2]|cl cr l a r n _ [D1 L1] _ [D2 L2]]; simpl; [lia|..];
    rewrite length_app; simpl; [lia|]. destruct cl, cr; lia.
Qed.

Lemma match_loop_more {K} (M' : cl_mem K) (nil : Z) (f : K → Z) fuel : ∀ fuel' a p, (fuel ≤ fuel')%nat →
  match_loop fuel M' nil f a = Some p → match_loop fuel' M' nil f a = Some p.
Proof.
  induction fuel as [|fuel IH]; intros [|fuel'] a p Hle; try done; [lia|]. simpl.
  destruct (a =? nil); [done|]. destruct (mem_key M' !! a); [|done]. cbn [mbind option_bind].
  destruct (mem_links M' !! a); [|done]. cbn [mbind option_bind]. destruct (_ =? 0); [done|]. apply IH. lia.
Qed.

Section Match.
Context {K : Type} {ok : K → Prop} {cmp : K → K → Z} {Ord : KeyOrder ok cmp}.

(** C23. A search looks at no more than [2 * log2 (n + 1)] of the [n] items: with that
    many steps its loop gives what it gives with any number of them. *)
Theorem cl_fmap_match_steps (M : cl_mem K) q (I : list (K * Z)) (f : K → Z) fuel :
  map_at ok cmp M q I → 2 * Z.log2 (q_count q + 1) < Z.of_nat fuel →
  ∃ p, (r ← __cl_fmap_root M q; match_loop fuel M (q_nil q) f r) = Some p ∧ cl_fmap_match M q f = Some p.
Proof.
  intros H Hf. destruct (fmap_root_ok _ _ _ H) as (n & t & Hr & Ht & Hn & Hroot).
  destruct (rb_depth _ _ _ Hn) as [Hd Hl]. rewrite Ht, length_fmap in Hl.
  assert (Z.of_nat n ≤ Z.log2 (q_count q + 1)) as Hlog.
  { rewrite (at_count _ _ _ _ _ H). apply Z.log2_le_pow2; [lia|]. apply inj_le in Hl. rewrite Nat2Z.inj_pow in Hl. lia. }
  destruct (match_loop_ok M (q_nil q) f t (q_root q) fuel) as (p & Hp & _);
    [by eapply at_searchable|lia|].
  exists p. unfold cl_fmap_match. rewrite Hroot. cbn [mbind option_bind]. split; [done|].
  destruct (match_loop_ok M (q_nil q) f t (q_root q) (map_fuel M)) as (p' & Hp' & _);
    [by eapply at_searchable|eapply Nat.le_lt_trans; [apply depth_length|by eapply fuel_inorder]|].
  rewrite Hp'. destruct (Nat.le_ge_cases fuel (map_fuel M)) as [Hle|Hle];
    eapply match_loop_more in Hle; [|done| |done]; congruence.
Qed.

(** C28. [cl_fmap_match] with another comparison than the one of the map: an item it
    gives is one of the map that compares as equal; and if the comparison does not
    contradict the order of the map, it gives the end only if there is no such item. *)
Theorem cl_fmap_match_finds (M : cl_mem K) q (I : list (K * Z)) (f : K → Z) :
  map_at ok cmp M q I →
  ∃ p, cl_fmap_match M q f = Some p ∧
    (p = q_nil q ∨ ∃ k, (k, p) ∈ I ∧ f k = 0) ∧
    ((∀ k k', ok k → ok k' → cmp k k' < 0 → (f k < 0 → f k' < 0) ∧ (0 < f k' → 0 < f k)) →
     p = q_nil q → ∀ k a, (k, a) ∈ I → f k ≠ 0).
Proof.
  intros H. destruct (match_ok _ _ _ f H) as (p & Hp & Hcase). exists p. split; [done|]. split.
  - destruct Hcase as [[-> _]|Hcase]; auto.
  - intros Hf -> k a Hin H0. destruct Hcase as [[_ Hcase]|(k' & Hin' & _)].
    + specialize (Hcase (at_mono _ _ _ _ H Hf)).
      assert ((k, a) ∈ filter (λ e : K * Z, f e.1 = 0) I) as Hx by (by apply list_elem_of_filter).
      rewrite Hcase in Hx. by apply not_elem_of_nil in Hx.
    + pose proof (at_fresh _ _ _ _ _ H) as F. unfold footprint in F. rewrite !NoDup_cons in F.
      destruct F as (_ & F & _). apply F, list_elem_of_fmap. by exists (k', q_nil q).
Qed.
End Match.
