(* ===== verification/QMapEx.v ===== *)
(** * Balanced maps: a concrete memory

    Four maps of one memory, two of them with items, on which the properties of
    [QMapSpec.v] are tried. *)

From S2P Require Import Prelude QMap QMapInv QMapOk QMapPut QMapTwo QMapDelta QMapSpec.

Open Scope Z_scope.

(** ** Making maps *)

Definition avail {K} (M : cl_mem K) (a : Z) : Prop := is_Some (mem_links M !! a) ∧ is_Some (mem_list M !! a).

Lemma avail_keeps {K} (M M' : cl_mem K) L a : keeps M M' L → a ∉ L → avail M a → avail M' a.
Proof. intros H Ha. unfold avail. by destruct (H a Ha) as (-> & -> & _). Qed.

Definition make_map (M : cl_mem Z) (root nil : Z) (l : list (Z * Z)) : option (cl_mem Z * cl_qmap) :=
  '(M, q) ← cl_qmap_init M root nil; insert_all (cmp := key_cmp) M q l.

Lemma make_map_ok M X root nil (m : gmap Z Z) l :
  qmaps_at M X → l ≡ₚ map_to_list m → NoDup (root :: nil :: l.*2) →
  (∀ a, a ∈ root :: nil :: l.*2 → a ∉ addresses ((λ x, (x.1, qmap_items x.2)) <$> X)) →
  (∀ a, a ∈ l.*2 → avail M a) →
  ∃ M' q, make_map M root nil l = Some (M', q) ∧ qmaps_at M' ((q, m) :: X) ∧ q_root q = root ∧ q_nil q = nil ∧
    ∀ a, a ∉ root :: nil :: l.*2 → avail M a → avail M' a.
Proof.
  intros HX Hl Hnd Hfresh Hav. pose proof Hnd as Hnd'. rewrite !NoDup_cons in Hnd'. destruct Hnd' as (N1 & N2 & N3).
  destruct (qmap_init M root nil) as (M1 & q1 & E1 & H1 & Q1 & Q2 & K1); [set_solver|].
  unfold make_map. rewrite E1. cbn [mbind option_bind].
  destruct (insert_all_ok (ok := λ _, True) (cmp := key_cmp) l M1 q1 [] H1) as (M2 & q2 & I & -> & H2 & HP & Q3 & Q4 & K2).
  - rewrite Hl. apply NoDup_fst_map_to_list.
  - done.
  - intros k a Hin. assert (a ∈ l.*2) as Ha by (apply list_elem_of_fmap; by exists (k, a)).
    destruct (avail_keeps _ _ _ a K1) as [A1 A2]; [set_solver|by apply Hav|].
    unfold footprint. rewrite Q1, Q2. simpl. split_and!; [done|set_solver|set_solver|done|done].
  - rewrite app_nil_r in HP. unfold footprint in K2. rewrite Q1, Q2 in K2. simpl in K2.
    assert (I = qmap_items m) as -> by (eapply items_eq; [exact H2|by rewrite HP]).
    assert (K : keeps M M2 (root :: nil :: l.*2)).
    { eapply keeps_trans; eapply keeps_sub; [|exact K1| |exact K2]; set_solver. }
    exists M2, q2. split_and!; [done| |congruence|congruence|intros a Ha; by apply (avail_keeps _ _ _ _ K)].
    unfold qmaps_at. rewrite fmap_cons. apply maps_cons. split; [done|]. split.
    + eapply maps_ext; [exact K| |exact HX]. intros a Ha Ha'. by apply (Hfresh a).
    + intros a. unfold footprint. simpl. rewrite Q3, Q4, Q1, Q2, HP. apply Hfresh.
Qed.

(** ** Four maps *)

Definition ex_mem : cl_mem Z :=
  Mem (list_to_map ((λ a, (a, Links 0 0 0 CL_MAP_RED)) <$> seqZ 100 10))
      (list_to_map ((λ a, (a, ListItem 0 0)) <$> seqZ 100 10)) ∅.
Definition ex_items1 : list (Z * Z) := [(10, 100); (20, 101); (30, 102); (40, 103)].
Definition ex_items2 : list (Z * Z) := [(40, 104); (20, 105); (50, 106)].
Definition ex_m1 : gmap Z Z := list_to_map ex_items1.
Definition ex_m2 : gmap Z Z := list_to_map ex_items2.

Definition ex_make : option (cl_mem Z * list cl_qmap) :=
  '(M, old) ← make_map ex_mem 7 8 [];
  '(M, new) ← make_map M 5 6 [];
  '(M, map2) ← make_map M 3 4 ex_items2;
  '(M, map1) ← make_map M 1 2 ex_items1;
  Some (M, [map1; map2; new; old]).

Definition ex_M : cl_mem Z := default ex_mem (fst <$> ex_make).
Definition ex_q (i : nat) : cl_qmap := nth i (default [] (snd <$> ex_make)) (QMap 0 0 0).

Lemma ex_avail a : 100 ≤ a < 110 → avail ex_mem a.
Proof.
  intros Ha. assert (∀ A (x : A), is_Some ((list_to_map ((λ a, (a, x)) <$> seqZ 100 10) : gmap Z A) !! a)) as H.
  { intros A x. exists x. apply elem_of_list_to_map_1.
    - rewrite <- list_fmap_compose, list_fmap_id. apply NoDup_seqZ.
    - apply list_elem_of_fmap. exists a. split; [done|]. by apply elem_of_seqZ. }
  split; apply H.
Qed.

(** Goals about the numbers in explicit lists. *)
Ltac concrete := cbn; repeat (setoid_rewrite elem_of_cons || setoid_rewrite elem_of_nil); intuition lia.

Lemma items_1 : qmap_items ex_m1 = [(10, 100); (20, 101); (30, 102); (40, 103)].
Proof. by vm_compute. Qed.
Lemma items_2 : qmap_items ex_m2 = [(20, 105); (40, 104); (50, 106)].
Proof. by vm_compute. Qed.
Lemma items_0 : qmap_items (∅ : gmap Z Z) = [].
Proof. done. Qed.

Lemma ex_maps : qmaps_at ex_M [(ex_q 0, ex_m1); (ex_q 1, ex_m2); (ex_q 2, ∅); (ex_q 3, ∅)] ∧ avail ex_M 109 ∧
  ∀ i, (i < 4)%nat → q_root (ex_q i) = 2 * Z.of_nat i + 1 ∧ q_nil (ex_q i) = 2 * Z.of_nat i + 2.
Proof.
  destruct (make_map_ok ex_mem [] 7 8 ∅ []) as (M1 & q3 & E1 & H1 & R1 & N1 & A1).
  { by split; constructor. } { done. } { apply (bool_decide_unpack _); by vm_compute. } { concrete. } { concrete. }
  destruct (make_map_ok M1 [(q3, ∅)] 5 6 ∅ []) as (M2 & q2 & E2 & H2 & R2 & N2 & A2).
  { done. } { done. } { apply (bool_decide_unpack _); by vm_compute. }
  { unfold addresses, footprint. simpl. rewrite items_0, R1, N1. concrete. } { concrete. }
  assert (Av : ∀ a, 100 ≤ a < 110 → avail M2 a).
  { intros a Ha. apply A2; [concrete|]. apply A1; [concrete|]. by apply ex_avail. }
  destruct (make_map_ok M2 [(q2, ∅); (q3, ∅)] 3 4 ex_m2 ex_items2) as (M3 & qb & E3 & H3 & R3 & N3 & A3).
  { done. } { symmetry. apply map_to_list_to_map. apply (bool_decide_unpack _); by vm_compute. } { apply (bool_decide_unpack _); by vm_compute. }
  { unfold addresses, footprint. simpl. rewrite items_0, R1, N1, R2, N2. concrete. }
  { intros a Ha. apply Av. revert Ha. concrete. }
  destruct (make_map_ok M3 [(qb, ex_m2); (q2, ∅); (q3, ∅)] 1 2 ex_m1 ex_items1) as (M4 & qa & E4 & H4 & R4 & N4 & A4).
  { done. } { symmetry. apply map_to_list_to_map. apply (bool_decide_unpack _); by vm_compute. } { apply (bool_decide_unpack _); by vm_compute. }
  { unfold addresses, footprint. simpl. rewrite items_0, items_2, R1, N1, R2, N2, R3, N3. concrete. }
  { intros a Ha. apply A3; [revert Ha; concrete|]. apply Av. revert Ha. concrete. }
  unfold ex_M, ex_q, ex_make. rewrite E1. cbn [mbind option_bind]. rewrite E2. cbn [mbind option_bind]. rewrite E3.
  cbn [mbind option_bind]. rewrite E4. simpl. split_and!.
  - exact H4.
  - apply A4; [concrete|]. apply A3; [concrete|]. by apply Av.
  - intros [|[|[|[|i]]]] Hi; [by split..|lia].
Qed.

Lemma ex_at1 : qmap_at ex_M (ex_q 0) ex_m1.
Proof. destruct ex_maps as [H _]. by apply maps_cons in H as [H _]. Qed.
Lemma ex_at2 : qmap_at ex_M (ex_q 1) ex_m2.
Proof. destruct ex_maps as [H _]. apply maps_cons in H as (_ & H & _). by apply maps_cons in H as [H _]. Qed.

Lemma ex_footprint1 : footprint (ex_q 0) (qmap_items ex_m1) = [1; 2; 100; 101; 102; 103].
Proof. destruct ex_maps as (_ & _ & H). destruct (H 0%nat) as [H1 H2]; [lia|]. unfold footprint. by rewrite H1, H2, items_1. Qed.
Lemma ex_footprint2 : footprint (ex_q 1) (qmap_items ex_m2) = [3; 4; 105; 104; 106].
Proof. destruct ex_maps as (_ & _ & H). destruct (H 1%nat) as [H1 H2]; [lia|]. unfold footprint. by rewrite H1, H2, items_2. Qed.

(** A key that is not there, and one that is. *)
Lemma cl_qmap_insert_refines_witness :
  (∃ r M' q', cl_qmap_insert ex_M (ex_q 0) 25 109 = Some (r, M', q') ∧
     keeps ex_M M' (109 :: footprint (ex_q 0) (qmap_items ex_m1)) ∧
     r = 109 ∧ qmap_at M' q' (<[25 := 109]> ex_m1)) ∧
  (∃ r M' q', cl_qmap_insert ex_M (ex_q 0) 20 109 = Some (r, M', q') ∧
     keeps ex_M M' (109 :: footprint (ex_q 0) (qmap_items ex_m1)) ∧ r = 101 ∧ qmap_at M' q' ex_m1).
Proof.
  destruct ex_maps as (_ & [A1 A2] & _).
  assert (109 ∉ footprint (ex_q 0) (qmap_items ex_m1)) as Hf by (rewrite ex_footprint1; concrete).
  exact (conj (cl_qmap_insert_refines ex_M (ex_q 0) ex_m1 25 109 ex_at1 Hf A1 A2)
              (cl_qmap_insert_refines ex_M (ex_q 0) ex_m1 20 109 ex_at1 Hf A1 A2)).
Defined.

Lemma cl_qmap_remove_refines_witness :
  (∃ M' q', cl_qmap_remove ex_M (ex_q 0) 20 = Some (101, M', q') ∧ qmap_at M' q' (delete 20 ex_m1) ∧
     keeps ex_M M' (footprint (ex_q 0) (qmap_items ex_m1)) ∧
     is_Some (mem_links M' !! 101) ∧ is_Some (mem_list M' !! 101)) ∧
  cl_qmap_remove ex_M (ex_q 0) 25 = Some (q_nil (ex_q 0), ex_M, ex_q 0).
Proof.
  exact (conj (cl_qmap_remove_refines ex_M (ex_q 0) ex_m1 20 ex_at1)
              (cl_qmap_remove_refines ex_M (ex_q 0) ex_m1 25 ex_at1)).
Defined.

Lemma cl_qmap_reads_witness :
  cl_qmap_apply_func ex_M (ex_q 0) = Some [100; 101; 102; 103] ∧
  cl_qmap_get ex_M (ex_q 0) 20 = Some 101 ∧ cl_qmap_get_next ex_M (ex_q 0) 20 = Some 102.
Proof.
  pose proof (cl_qmap_reads ex_M (ex_q 0) ex_m1 20 ex_at1) as H. rewrite items_1 in H. exact H.
Defined.

Lemma cl_qmap_merge_refines_witness :
  ∃ M' dest' src', cl_qmap_merge ex_M (ex_q 0) (ex_q 1) = Some (M', dest', src') ∧
    qmap_at M' dest' (ex_m1 ∪ ex_m2) ∧ qmap_at M' src' (ex_m2 ∩ ex_m1) ∧
    keeps ex_M M' (footprint (ex_q 1) (qmap_items ex_m2) ++ footprint (ex_q 0) (qmap_items ex_m1)).
Proof.
  apply (cl_qmap_merge_refines ex_M (ex_q 0) (ex_q 1) ex_m1 ex_m2 ex_at1 ex_at2).
  intros a. rewrite ex_footprint1, ex_footprint2. concrete.
Defined.

Lemma cl_qmap_delta_refines_witness :
  ∃ M' D, cl_qmap_delta ex_M (ex_q 0) (ex_q 1) (ex_q 2) (ex_q 3) = Some (M', D) ∧
    qmaps_at M' [(d_map1 D, ex_m1 ∩ ex_m2); (d_map2 D, ex_m2 ∩ ex_m1); (d_new D, ex_m2 ∖ ex_m1); (d_old D, ex_m1 ∖ ex_m2)].
Proof. exact (cl_qmap_delta_refines ex_M _ _ _ _ ex_m1 ex_m2 (proj1 ex_maps)). Defined.

Lemma cl_fmap_match_steps_witness :
  ∃ p, (r ← __cl_fmap_root ex_M (ex_q 0); match_loop 5 ex_M (q_nil (ex_q 0)) (key_cmp 30) r) = Some p ∧
    cl_fmap_match ex_M (ex_q 0) (key_cmp 30) = Some p.
Proof.
  apply (cl_fmap_match_steps (ok := λ _, True) (cmp := key_cmp) ex_M (ex_q 0) (qmap_items ex_m1)); [exact ex_at1|].
  rewrite (at_count _ _ _ _ _ ex_at1), items_1. reflexivity.
Defined.

(** The first key from 30 to 44. *)
Lemma cl_fmap_match_finds_witness :
  ∃ p, cl_fmap_match ex_M (ex_q 0) (λ k, key_cmp 2 (k / 15)) = Some p ∧
    (p = q_nil (ex_q 0) ∨ ∃ k, (k, p) ∈ qmap_items ex_m1 ∧ key_cmp 2 (k / 15) = 0) ∧
    (p = q_nil (ex_q 0) → ∀ k a, (k, a) ∈ qmap_items ex_m1 → key_cmp 2 (k / 15) ≠ 0).
Proof.
  destruct (cl_fmap_match_finds ex_M (ex_q 0) (qmap_items ex_m1) (λ k, key_cmp 2 (k / 15)) ex_at1) as (p & H1 & H2 & H3).
  exists p. split; [exact H1|]. split; [exact H2|]. apply H3. intros k k' _ _ H.
  rewrite !key_cmp_lt, !key_cmp_gt in *. pose proof (Z.div_le_mono k k' 15). lia.
Defined.
