(* ===== verification/McMember.v ===== *)
(** * MCMemberRecord requests: [opensm/osm_sa_mcmember_record.c]

    A port joins a multicast group, or makes it, with a Set of an MCMemberRecord and
    leaves it with a Delete; a Get asks for records.  A handler takes the state of the
    groups ([Mgrp.v]) and a request and gives the reply and the new state; it has no
    result when it reads what it may not.

    The search of the table of the MGIDs with a comparison that is coarser than the
    table's may find any of several matches, which depends on the shape of the tree: it is
    taken from an instance of [FmapMatch], of which [McTree.v] gives the one that
    searches the trees of [complib/cl_map.c]. *)

From S2P Require Import Prelude IbTypes Pkey Rate Mgrp.

Open Scope Z_scope.

(** ** Constants *)

Definition IB_MC_SCOPE_LINK_LOCAL : Z := 2.
Definition IB_MIN_MTU : Z := 1.
Definition IB_MAX_MTU : Z := 5.
Definition IB_PATH_SELECTOR_EXACTLY : Z := 2.

(** ** Data *)

(** A port and its physical port; [sp_physp_guid] is [p_physp->port_guid]. *)
Record sa_port := SaPort {
  sp_guid : Z;
  sp_physp : osm_physp;
  sp_physp_guid : Z;
  sp_info : ib_port_info
}.

(** What the handlers read of the subnet: its ports by alias GUID and by LID, the
    options and the limits. *)
Record sa_subn := SaSubn {
  alias_port_guid_tbl : gmap Z sa_port;
  port_lid_tbl : list (option sa_port);
  subnet_prefix : Z;
  consolidate_ipv6_snm_req : bool;
  ipoib_mcgroup_creation_validation : bool;
  mcgroup_join_validation : bool;
  allow_both_pkeys : bool;
  max_rate_enum : Z;
  min_ca_mtu : Z;
  min_ca_rate : Z;
  max_mcast_lid_ho : Z
}.

Inductive sa_method := IB_MAD_METHOD_SET | IB_MAD_METHOD_DELETE | IB_MAD_METHOD_GET
  | IB_MAD_METHOD_GETTABLE | OtherMethod.

(** A request: the LID it came from, the SM key, the components that are set. *)
Record sa_mad := SaMad {
  mad_method : sa_method;
  mad_lid : Z;
  mad_sm_key : Z;
  comp_mask : Z;
  mad_rec : ib_member_rec
}.

Inductive sa_reply := NoReply | SaError (status : Z) | SaRespond (recs : list ib_member_rec).

(** *** Bytes in memory *)

(** [memcmp] of two stretches of the same length. *)
Fixpoint memcmp (l1 l2 : list Z) : Z :=
  match l1, l2 with
  | x :: l1, y :: l2 => if x =? y then memcmp l1 l2 else x - y
  | _, _ => 0
  end.

(** The number whose bytes, most significant first, are [l]. *)
Definition be_word (l : list Z) : Z := foldl (λ n b, n * 256 + b) 0 l.

(** The bytes of a word of [n] bytes, most significant first. *)
Definition be_bytes (n : nat) (x : Z) : list Z :=
  (λ i, Z.land (Z.shiftr x (8 * Z.of_nat i)) 0xff) <$> rev (seq 0 n).

Definition raw_byte (gid : list Z) (i : nat) : Z := default 0 (gid !! i).

(** [memcpy] of bytes to the offset [i] of a GID. *)
Definition raw_copy (gid : list Z) (i : nat) (bytes : list Z) : list Z := list_inserts i bytes gid.

Class FmapMatch := {
  mgid_tbl_match : gmap (list Z) Z → (list Z → Z) → option Z;
  mgid_tbl_match_sound T f g : mgid_tbl_match T f = Some g → ∃ x, T !! x = Some g ∧ f x = 0;
  mgid_tbl_match_complete T f x g :
    (∀ y h, T !! y = Some h → length y = 16%nat) →
    (∀ y y', length y = 16%nat → length y' = 16%nat → memcmp y y' < 0 →
       (f y < 0 → f y' < 0) ∧ (0 < f y' → 0 < f y)) →
    mgid_tbl_match T f = None → T !! x = Some g → f x ≠ 0
}.

Section McMember.
Context {BO : ByteOrder} {FM : FmapMatch}.
Variable subn : sa_subn.
Implicit Types s : mc_subn.
Implicit Types rec : ib_member_rec.
Implicit Types m : osm_mgrp.

Definition IB_DEFAULT_SUBNET_PREFIX : Z := cl_hton64 0xFE80000000000000.
Definition IB_SA_MAD_STATUS_NO_RESOURCES : Z := cl_hton16 0x0100.
Definition IB_SA_MAD_STATUS_REQ_INVALID : Z := cl_hton16 0x0200.
Definition IB_SA_MAD_STATUS_INVALID_GID : Z := cl_hton16 0x0500.
Definition IB_SA_MAD_STATUS_INSUF_COMPS : Z := cl_hton16 0x0600.
Definition IB_MAD_STATUS_UNSUP_METHOD_ATTR : Z := cl_hton16 0x000C.
Definition IB_PORT_CAP_HAS_EXT_SPEEDS : Z := cl_hton32 0x00004000.

(** *** Components of the mask *)

Definition IB_MCR_COMPMASK (k : Z) : Z := cl_hton64 (Z.shiftl 1 k).
Definition IB_MCR_COMPMASK_MGID := IB_MCR_COMPMASK 0.
Definition IB_MCR_COMPMASK_PORT_GID := IB_MCR_COMPMASK 1.
Definition IB_MCR_COMPMASK_QKEY := IB_MCR_COMPMASK 2.
Definition IB_MCR_COMPMASK_MLID := IB_MCR_COMPMASK 3.
Definition IB_MCR_COMPMASK_MTU_SEL := IB_MCR_COMPMASK 4.
Definition IB_MCR_COMPMASK_MTU := IB_MCR_COMPMASK 5.
Definition IB_MCR_COMPMASK_TCLASS := IB_MCR_COMPMASK 6.
Definition IB_MCR_COMPMASK_PKEY := IB_MCR_COMPMASK 7.
Definition IB_MCR_COMPMASK_RATE_SEL := IB_MCR_COMPMASK 8.
Definition IB_MCR_COMPMASK_RATE := IB_MCR_COMPMASK 9.
Definition IB_MCR_COMPMASK_SL := IB_MCR_COMPMASK 12.
Definition IB_MCR_COMPMASK_FLOW := IB_MCR_COMPMASK 13.
Definition IB_MCR_COMPMASK_HOP := IB_MCR_COMPMASK 14.
Definition IB_MCR_COMPMASK_SCOPE := IB_MCR_COMPMASK 15.
Definition IB_MCR_COMPMASK_JOIN_STATE := IB_MCR_COMPMASK 16.
Definition IB_MCR_COMPMASK_PROXY := IB_MCR_COMPMASK 17.

Definition JOIN_MC_COMP_MASK : Z :=
  Z.lor IB_MCR_COMPMASK_MGID (Z.lor IB_MCR_COMPMASK_PORT_GID IB_MCR_COMPMASK_JOIN_STATE).

Definition REQUIRED_MC_CREATE_COMP_MASK : Z :=
  foldr Z.lor 0 [IB_MCR_COMPMASK_MGID; IB_MCR_COMPMASK_PORT_GID; IB_MCR_COMPMASK_JOIN_STATE;
    IB_MCR_COMPMASK_QKEY; IB_MCR_COMPMASK_TCLASS; IB_MCR_COMPMASK_PKEY; IB_MCR_COMPMASK_FLOW;
    IB_MCR_COMPMASK_SL].

Definition check_join_comp_mask (comp_mask : Z) : bool :=
  Z.land comp_mask JOIN_MC_COMP_MASK =? JOIN_MC_COMP_MASK.

Definition check_create_comp_mask (comp_mask : Z) : bool :=
  Z.land comp_mask REQUIRED_MC_CREATE_COMP_MASK =? REQUIRED_MC_CREATE_COMP_MASK.

(** ** Ports of a request *)

Definition osm_get_port_by_alias_guid (guid : Z) : option sa_port := alias_port_guid_tbl subn !! guid.
Definition osm_get_port_by_lid (lid : Z) : option sa_port :=
  mjoin (port_lid_tbl subn !! Z.to_nat (cl_ntoh16 lid)).
Definition osm_get_port_by_mad_addr (lid : Z) : option sa_port := osm_get_port_by_lid lid.
Definition osm_get_physp_by_mad_addr (lid : Z) : option osm_physp :=
  sp_physp <$> osm_get_port_by_mad_addr lid.
Definition osm_get_gid_by_mad_addr (lid : Z) : option ib_gid :=
  p ← osm_get_port_by_mad_addr lid; Some (Gid (subnet_prefix subn) (sp_physp_guid p)).

(** ** Multicast LIDs *)

(** The host's view of the halves of the bytes of a GID. *)
Definition raw_prefix (gid : list Z) : Z := cl_hton64 (be_word (take 8 gid)).
Definition raw_interface_id (gid : list Z) : Z := cl_hton64 (be_word (drop 8 gid)).

Definition PREFIX_MASK : Z := cl_hton64 0xff10ffff0000ffff.
Definition PREFIX_SIGNATURE : Z := cl_hton64 0xff10601b00000000.
Definition INT_ID_MASK : Z := cl_hton64 0xfffffff1ff000000.
Definition INT_ID_SIGNATURE : Z := cl_hton64 0x00000001ff000000.

Definition compare_ipv6_snm_mgids (m1 m2 : list Z) : Z := memcmp (take 13 m1) (take 13 m2).

(** The MLID of a group whose MGID is the same but for the last three bytes; 0 if
    there is none. *)
Definition find_ipv6_snm_mlid s (mgid : list Z) : option Z :=
  match mgid_tbl_match (mgrp_mgid_tbl s) (compare_ipv6_snm_mgids mgid) with
  | Some g => mg_mlid <$> mgrps s !! g
  | None => Some 0
  end.

Definition match_ipv6_snm_mgid (mgid : list Z) : bool :=
  (Z.land (raw_prefix mgid) PREFIX_MASK =? PREFIX_SIGNATURE) &&
  (Z.land (raw_interface_id mgid) INT_ID_MASK =? INT_ID_SIGNATURE).

(** The scan for an MLID without a box. *)
Definition scan_mlid s : Z :=
  default 0 ((λ i, cl_hton16 (i + IB_LID_MCAST_START_HO)) <$>
    list_find_first (λ i, bool_decide (mboxes s !! i = None))
      (seqZ 0 (max_mcast_lid_ho subn - IB_LID_MCAST_START_HO + 1))).

(** The MLID when the requested one cannot be had: shared, or free. *)
Definition other_mlid s (mcmr : ib_member_rec) : option Z :=
  shared ← (if consolidate_ipv6_snm_req subn && match_ipv6_snm_mgid (mr_mgid mcmr)
            then find_ipv6_snm_mlid s (mr_mgid mcmr) else Some 0);
  Some (if negb (shared =? 0) then shared else scan_mlid s).

Definition get_new_mlid s (mcmr : ib_member_rec) : option Z :=
  let requested_mlid := mr_mlid mcmr in
  if negb (requested_mlid =? 0) && (IB_LID_MCAST_START_HO <=? cl_ntoh16 requested_mlid)
     && (cl_ntoh16 requested_mlid <=? max_mcast_lid_ho subn)
  then
    mbox ← osm_get_mbox_by_mlid s requested_mlid;
    if bool_decide (mbox = None) then Some requested_mlid else other_mlid s mcmr
  else other_mlid s mcmr.

(** ** Fields of a record *)

(** Service level, flow label and hop limit. *)
Definition ib_member_get_sl_flow_hop (sl_flow_hop : Z) : Z * Z * Z :=
  let tmp := cl_ntoh32 sl_flow_hop in
  (u8 (Z.shiftr (Z.shiftr tmp 8) 20), Z.land (Z.shiftr tmp 8) 0xfffff, u8 tmp).

Definition ib_member_set_join_state rec (state : Z) : ib_member_rec :=
  rec <| mr_scope_state := Z.lor (Z.land (mr_scope_state rec) 0xF0) (Z.land 0x0f state) |>.

Definition copy_from_create_mc_rec (dest src : ib_member_rec) : ib_member_rec :=
  MemberRec (mr_mgid dest) (mr_port_gid dest) (mr_qkey src) (mr_mlid src) (mr_mtu src)
    (mr_tclass src) (mr_pkey src) (mr_rate src) (mr_pkt_life src) (mr_sl_flow_hop src)
    (ib_member_set_scope_state (Z.shiftr (mr_scope_state src) 4) (Z.land (mr_scope_state dest) 0x0F))
    (mr_proxy_join dest).

(** A field of six bits with the selector "exactly". *)
Definition exactly (x : Z) : Z :=
  Z.lor (Z.land x 0x3f) (Z.shiftl IB_PATH_SELECTOR_EXACTLY 6).

Definition with_exactly rec : ib_member_rec :=
  rec <| mr_mtu := exactly (mr_mtu rec) |> <| mr_rate := exactly (mr_rate rec) |>
      <| mr_pkt_life := exactly (mr_pkt_life rec) |>.

(** The reply of [mcmr_rcv_respond]. *)
Definition mcmr_rcv_respond rec : sa_reply := SaRespond [with_exactly rec].

Definition set_port_prefix rec (p : Z) : ib_member_rec :=
  rec <| mr_port_gid := Gid p (interface_id (mr_port_gid rec)) |>.

(** ** Checks *)

(** One of the selectors of [validate_more_comp_fields], [cmp] the sign of the group's
    value against the required one. *)
Definition selector_ok (sel cmp : Z) : bool :=
  match sel with 0 => 0 <? cmp | 1 => cmp <? 0 | 2 => cmp =? 0 | _ => true end.

Definition validate_more_comp_fields m rec (comp_mask : Z) : bool :=
  (if bits_set comp_mask IB_MCR_COMPMASK_MTU_SEL
   then let mtu_required := Z.land (mr_mtu rec) 0x3F in
        let mtu_mgrp := Z.land (mr_mtu (mcmember_rec m)) 0x3F in
        selector_ok (Z.shiftr (mr_mtu rec) 6) (mtu_mgrp - mtu_required)
   else true) &&
  (if bits_set comp_mask IB_MCR_COMPMASK_RATE_SEL
   then let rate_required := Z.land (mr_rate rec) 0x3F in
        let rate_mgrp := Z.land (mr_rate (mcmember_rec m)) 0x3F in
        selector_ok (Z.shiftr (mr_rate rec) 6) (ib_path_compare_rates rate_mgrp rate_required)
   else true).

Definition port_extended (pi : ib_port_info) : bool :=
  bits_set (capability_mask pi) IB_PORT_CAP_HAS_EXT_SPEEDS.

Definition validate_port_caps m (pi : ib_port_info) : bool :=
  let mtu_mgrp := Z.land (mr_mtu (mcmember_rec m)) 0x3F in
  if ib_port_info_get_neighbor_mtu pi <? mtu_mgrp then false
  else
    let rate_mgrp := Z.land (mr_rate (mcmember_rec m)) 0x3F in
    negb (ib_path_compare_rates (ib_port_info_compute_rate pi (port_extended pi)) rate_mgrp <? 0).

(** [validate_modify] of the member with the request's GID, if the group has one. *)
Definition validate_modify s m (lid : Z) rec : option bool :=
  match osm_mgrp_get_mcm_alias_guid m (interface_id (mr_port_gid rec)) with
  | None => Some true
  | Some al =>
      if negb (ma_proxy_join al) then
        match osm_get_gid_by_mad_addr lid with
        | None => Some false
        | Some request_gid =>
            mp ← mcm_ports s !! p_base_mcm_port al;
            Some (negb (negb (mp_port mp =? interface_id request_gid) ||
                        negb (prefix (ma_port_gid al) =? prefix request_gid)))
        end
      else
        match osm_get_physp_by_mad_addr lid with
        | None => Some false
        | Some p_request_physp =>
            Some (osm_physp_has_pkey (mr_pkey (mcmember_rec m)) p_request_physp)
        end
  end.

Definition validate_delete s m (lid : Z) rec : option bool :=
  match osm_mgrp_get_mcm_alias_guid m (interface_id (mr_port_gid rec)) with
  | None => Some false
  | Some al =>
      let wanted := Z.land (mr_scope_state rec) 0x0F in
      let stored := Z.land 0x0F (ma_scope_state al) in
      if Z.land wanted (ma_scope_state al) =? 0 then Some false
      else if negb (Z.lor wanted stored =? stored) then Some false
      else validate_modify s m lid rec
  end.

(** The two bytes after the flags, most significant first. *)
Definition mgid_signature (mgid : list Z) : Z := raw_byte mgid 2 * 256 + raw_byte mgid 3.

Definition validate_requested_mgid rec : bool :=
  let mgid := mr_mgid rec in
  let signature := mgid_signature mgid in
  if negb (raw_byte mgid 0 =? 0xFF) then false
  else if (signature =? 0x401B) || (signature =? 0x601B) then true
  else if bits_set (raw_byte mgid 1) 0xE0 then false
  else negb ((signature =? 0xA01B) && (Z.land (raw_byte mgid 1) 0x0F =? IB_MC_SCOPE_LINK_LOCAL)).

Definition validate_other_comp_fields (comp_mask : Z) (p_mcmr : ib_member_rec) m : bool :=
  let grp := mcmember_rec m in
  let '(query_sl, query_flow, query_hop) := ib_member_get_sl_flow_hop (mr_sl_flow_hop p_mcmr) in
  let '(mgrp_sl, mgrp_flow, mgrp_hop) := ib_member_get_sl_flow_hop (mr_sl_flow_hop grp) in
  negb (bits_set IB_MCR_COMPMASK_QKEY comp_mask && negb (mr_qkey p_mcmr =? mr_qkey grp)) &&
  negb (bits_set IB_MCR_COMPMASK_PKEY comp_mask &&
        (negb (ib_pkey_is_full_member (mr_pkey p_mcmr) || ib_pkey_is_full_member (mr_pkey grp)) ||
         negb (ib_pkey_get_base (mr_pkey p_mcmr) =? ib_pkey_get_base (mr_pkey grp)))) &&
  negb (bits_set IB_MCR_COMPMASK_TCLASS comp_mask && negb (mr_tclass p_mcmr =? mr_tclass grp)) &&
  negb (bits_set IB_MCR_COMPMASK_SL comp_mask && negb (query_sl =? mgrp_sl)) &&
  negb (bits_set IB_MCR_COMPMASK_FLOW comp_mask && negb (query_flow =? mgrp_flow)) &&
  negb (bits_set IB_MCR_COMPMASK_HOP comp_mask && negb (query_hop =? mgrp_hop)).

Definition rate_is_valid (p_sa_mad : sa_mad) : bool :=
  if bits_set (comp_mask p_sa_mad) IB_MCR_COMPMASK_RATE_SEL &&
     bits_set (comp_mask p_sa_mad) IB_MCR_COMPMASK_RATE
  then ib_rate_is_valid (Z.land (mr_rate (mad_rec p_sa_mad)) 0x3F) else true.

Definition ib_mtu_is_valid (mtu : Z) : bool := negb ((mtu <? IB_MIN_MTU) || (IB_MAX_MTU <? mtu)).

Definition mtu_is_valid (p_sa_mad : sa_mad) : bool :=
  if bits_set (comp_mask p_sa_mad) IB_MCR_COMPMASK_MTU_SEL &&
     bits_set (comp_mask p_sa_mad) IB_MCR_COMPMASK_MTU
  then ib_mtu_is_valid (Z.land (mr_mtu (mad_rec p_sa_mad)) 0x3F) else true.

(** ** Making a group *)

(** The MTU of a new group and the selector it is stored with; [port_mtu] is 0 when no
    port asks.  No value: the MTU cannot be had. *)
Definition new_group_mtu (comp_mask port_mtu : Z) rec : option Z :=
  let default_mtu := if negb (port_mtu =? 0) then port_mtu else min_ca_mtu subn in
  if negb (bits_set comp_mask IB_MCR_COMPMASK_MTU) ||
     negb (bits_set comp_mask IB_MCR_COMPMASK_MTU_SEL)
  then Some (Z.lor (Z.shiftl IB_PATH_SELECTOR_EXACTLY 6) default_mtu)
  else
    let mtu_sel := Z.shiftr (mr_mtu rec) 6 in
    if mtu_sel =? 3 then Some (Z.lor (Z.shiftl mtu_sel 6) default_mtu)
    else
      let mtu_required := Z.land (mr_mtu rec) 0x3F in
      mtu ← match mtu_sel with
            | 0 =>
                if negb (port_mtu =? 0) && (port_mtu <=? mtu_required) then None
                else Some (if negb (port_mtu =? 0) then port_mtu
                           else if mtu_required <? min_ca_mtu subn then min_ca_mtu subn
                           else u8 (mtu_required + 1))
            | 1 => Some (if negb (port_mtu =? 0) && (port_mtu <? mtu_required) then port_mtu
                         else u8 (mtu_required - 1))
            | _ => Some mtu_required
            end;
      if (mtu <? IB_MIN_MTU) || (IB_MAX_MTU <? mtu) then None
      else Some (Z.lor (Z.shiftl mtu_sel 6) mtu).

(** The rate of a new group before the cap, and the selector it is stored with. *)
Definition new_group_rate (comp_mask port_rate : Z) rec : option (Z * Z) :=
  let default_rate := if negb (port_rate =? 0) then port_rate else min_ca_rate subn in
  if negb (bits_set comp_mask IB_MCR_COMPMASK_RATE) ||
     negb (bits_set comp_mask IB_MCR_COMPMASK_RATE_SEL)
  then Some (IB_PATH_SELECTOR_EXACTLY, default_rate)
  else
    let rate_sel := Z.shiftr (mr_rate rec) 6 in
    if rate_sel =? 3 then Some (rate_sel, default_rate)
    else
      let rate_required := Z.land (mr_rate rec) 0x3F in
      rate ← match rate_sel with
             | 0 =>
                 if 0 <=? ib_path_compare_rates rate_required port_rate then None
                 else Some (if negb (port_rate =? 0) then port_rate
                            else if ib_path_compare_rates rate_required (min_ca_rate subn) <? 0
                            then min_ca_rate subn
                            else ib_path_rate_get_next rate_required)
             | 1 => Some (if 0 <? ib_path_compare_rates rate_required port_rate then port_rate
                          else ib_path_rate_get_prev rate_required)
             | _ => Some rate_required
             end;
      if (rate <? IB_MIN_RATE) || (IB_MAX_RATE <? rate) then None else Some (rate_sel, rate).

Definition limited_rate (rate : Z) : option Z :=
  if max_rate_enum subn <? SA_RATE_MAX_ENUM then osm_sa_limit_rate (max_rate_enum subn) rate
  else Some rate.

(** The record of the new group, or that it is not realizable; the outer option is the
    fuel of the cap. *)
Definition mgrp_request_is_realizable (comp_mask : Z) rec (p_physp : option ib_port_info)
    : option (option ib_member_rec) :=
  let port_mtu := default 0 (ib_port_info_get_neighbor_mtu <$> p_physp) in
  match new_group_mtu comp_mask port_mtu rec with
  | None => Some None
  | Some mtu =>
      let rec := rec <| mr_mtu := mtu |> in
      let port_rate :=
        default 0 ((λ pi, ib_port_info_compute_rate pi (port_extended pi)) <$> p_physp) in
      match new_group_rate comp_mask port_rate rec with
      | None => Some None
      | Some (rate_sel, rate) =>
          rate ← limited_rate rate;
          Some (Some (rec <| mr_rate := Z.lor (Z.shiftl rate_sel 6) rate |>))
      end
  end.

(** The bytes of a word of the host, as they lie in memory. *)
Definition host_bytes (n : nat) (x : Z) : list Z :=
  if cpu_le then rev (be_bytes n x) else be_bytes n x.

(** The loop of [build_new_mgid], with the tries left. *)
Fixpoint new_mgid_loop (tries : nat) s (mgid : list Z) : option (list Z) * mc_subn :=
  match tries with
  | O => (None, s)
  | S tries =>
      let mgid := raw_copy mgid 10 (host_bytes 4 (uniq_count s)) in
      let s := s <| uniq_count := u32 (uniq_count s + 1) |> in
      match osm_get_mgrp_by_mgid s mgid with
      | None => (Some mgid, s)
      | Some _ => new_mgid_loop tries s mgid
      end
  end.

Definition build_new_mgid s (comp_mask : Z) rec : option (list Z) * mc_subn :=
  let scope := if bits_set comp_mask IB_MCR_COMPMASK_SCOPE then scope_of (mr_scope_state rec)
               else IB_MC_SCOPE_LINK_LOCAL in
  let mgid := raw_copy (mr_mgid rec) 0 [0xff; Z.lor 0x10 scope; 0xa0; 0x1b] in
  let mgid := raw_copy mgid 4 (host_bytes 8 (subnet_prefix subn)) in
  new_mgid_loop 1000 s mgid.

Definition ib_gid_is_notzero (mgid : list Z) : bool := existsb (λ b, negb (b =? 0)) mgid.

(** The MGID of the IPoIB broadcast group with the scope and P_Key of [mgid]; its halves
    are written as words in network order. *)
Definition bcast_mgid (mgid : list Z) : list Z :=
  let raw := be_bytes 8 0xff10401b00000000 ++ be_bytes 8 0x00000000ffffffff in
  let raw := raw_copy raw 1 [Z.lor (Z.land (raw_byte raw 1) 0xF0) (Z.land (raw_byte mgid 1) 0x0F)] in
  raw_copy raw 4 [raw_byte mgid 4; raw_byte mgid 5].

(** The checks of an MGID that a request names, with the group of the broadcast MGID it
    belongs to. *)
Definition validate_new_mgid s (comp_mask : Z) rec : option bool :=
  if negb (ipoib_mcgroup_creation_validation subn) then Some true
  else if negb (validate_requested_mgid rec) then Some false
  else
    let signature := mgid_signature (mr_mgid rec) in
    if (signature =? 0x401B) || (signature =? 0x601B) then
      let bcast := bcast_mgid (mr_mgid rec) in
      if negb (signature =? 0x401B) || negb (memcmp bcast (mr_mgid rec) =? 0) then
        match osm_get_mgrp_by_mgid s bcast with
        | None => Some false
        | Some g => m ← mgrps s !! g; Some (validate_other_comp_fields comp_mask rec m)
        end
      else Some true
    else Some true.

(** The second half of [mcmr_rcv_create_new_mgrp], from the realizability on: a status,
    or the address of the new group. *)
Definition place_new_mgrp s (comp_mask : Z) (mcm_rec : ib_member_rec)
    (p_physp : option ib_port_info) : option ((Z + Z) * mc_subn) :=
  realizable ← mgrp_request_is_realizable comp_mask mcm_rec p_physp;
  match realizable with
  | None => Some (inl IB_SA_MAD_STATUS_REQ_INVALID, s)
  | Some mcm_rec =>
      mlid ← get_new_mlid s mcm_rec;
      if mlid =? 0 then Some (inl IB_SA_MAD_STATUS_NO_RESOURCES, s)
      else
        '(g, s) ← osm_mgrp_new s mlid (mcm_rec <| mr_mlid := mlid |>);
        m ← mgrps s !! g;
        Some (inr g, put_mgrp g (m <| mcmember_rec := with_exactly (mcmember_rec m) |>) s)
  end.

Definition mcmr_rcv_create_new_mgrp s (comp_mask : Z) rec (p_physp : option ib_port_info)
    : option ((Z + Z) * mc_subn) :=
  if negb (ib_gid_is_notzero (mr_mgid rec)) then
    match build_new_mgid s comp_mask rec with
    | (Some mgid, s) => place_new_mgrp s comp_mask (rec <| mr_mgid := mgid |>) p_physp
    | (None, s) => Some (inl IB_SA_MAD_STATUS_NO_RESOURCES, s)
    end
  else
    ok ← validate_new_mgid s comp_mask rec;
    if (ok : bool) then place_new_mgrp s comp_mask rec p_physp
    else Some (inl IB_SA_MAD_STATUS_REQ_INVALID, s).

Definition osm_mcmr_rcv_find_or_create_new_mgrp s (comp_mask : Z) rec
    : option (option Z * mc_subn) :=
  match osm_get_mgrp_by_mgid s (mr_mgid rec) with
  | Some g => Some (Some g, s)
  | None =>
      '(r, s) ← mcmr_rcv_create_new_mgrp s comp_mask rec None;
      Some (match r with inr g => Some g | inl _ => None end, s)
  end.

(** ** Leaving *)

(** The request with the prefix of the subnet in place of the default one. *)
Definition own_prefix rec : ib_member_rec :=
  if prefix (mr_port_gid rec) =? IB_DEFAULT_SUBNET_PREFIX
  then set_port_prefix rec (subnet_prefix subn) else rec.

Definition mcmr_rcv_leave_mgrp s (req : sa_mad) : option (sa_reply * mc_subn) :=
  let prefix0 := prefix (mr_port_gid (mad_rec req)) in
  let rec := own_prefix (mad_rec req) in
  if negb (prefix (mr_port_gid rec) =? subnet_prefix subn)
  then Some (SaError IB_SA_MAD_STATUS_INVALID_GID, s)
  else
    match osm_get_mgrp_by_mgid s (mr_mgid rec) with
    | None => Some (SaError IB_SA_MAD_STATUS_REQ_INVALID, s)
    | Some g =>
        m ← mgrps s !! g;
        valid ← validate_delete s m (mad_lid req) rec;
        if negb valid then Some (SaError IB_SA_MAD_STATUS_REQ_INVALID, s)
        else
          '(_, mcmember_rec, s) ← osm_mgrp_remove_port s g (interface_id (mr_port_gid rec)) rec;
          Some (mcmr_rcv_respond (set_port_prefix mcmember_rec prefix0), s)
    end.

(** ** Joining *)

(** The group a join is for: found, or made; with whether it is new. *)
Definition join_group s (req : sa_mad) rec (p_port : sa_port)
    : option ((Z + Z * bool) * mc_subn) :=
  let join_state := state_bits (mr_scope_state rec) in
  match osm_get_mgrp_by_mgid s (mr_mgid rec) with
  | None =>
      if negb (is_full join_state) then Some (inl IB_SA_MAD_STATUS_REQ_INVALID, s)
      else if negb (check_create_comp_mask (comp_mask req))
      then Some (inl IB_SA_MAD_STATUS_INSUF_COMPS, s)
      else
        '(r, s) ← mcmr_rcv_create_new_mgrp s (comp_mask req) rec (Some (sp_info p_port));
        Some (match r with inl status => inl status | inr g => inr (g, true) end, s)
  | Some g =>
      m ← mgrps s !! g;
      Some (if mcgroup_join_validation subn &&
               negb (validate_other_comp_fields (comp_mask req) rec m)
            then inl IB_SA_MAD_STATUS_REQ_INVALID else inr (g, false), s)
  end.

(** A join that is refused takes the group it made away again. *)
Definition refuse_join s (g : Z) (is_new_group : bool) (status : Z)
    : option (sa_reply * mc_subn) :=
  s ← (if is_new_group then osm_mgrp_cleanup s g else Some s);
  Some (SaError status, s).

(** What a join does once the group is there. *)
Definition join_member s (req : sa_mad) rec (p_port : sa_port) (proxy : bool) (g : Z)
    (is_new_group : bool) : option (sa_reply * mc_subn) :=
  m ← mgrps s !! g;
  let mcmember := if is_new_group then rec <| mr_mgid := mr_mgid (mcmember_rec m) |> else rec in
  if negb (validate_more_comp_fields m rec (comp_mask req)) ||
     negb (validate_port_caps m (sp_info p_port)) ||
     (state_bits (mr_scope_state rec) =? 0)
  then refuse_join s g is_new_group IB_SA_MAD_STATUS_REQ_INVALID
  else if negb (osm_physp_has_pkey (mr_pkey (mcmember_rec m)) (sp_physp p_port))
  then refuse_join s g is_new_group IB_SA_MAD_STATUS_REQ_INVALID
  else
    valid ← (if is_new_group then Some true else validate_modify s m (mad_lid req) rec);
    if negb valid then Some (SaError IB_SA_MAD_STATUS_REQ_INVALID, s)
    else
      '(_, mcmember, s) ←
        osm_mgrp_add_port s g (sp_guid p_port) (copy_from_create_mc_rec mcmember (mcmember_rec m)) proxy;
      Some (mcmr_rcv_respond (set_port_prefix mcmember (prefix (mr_port_gid (mad_rec req)))), s).

Definition mcmr_rcv_join_mgrp s (req : sa_mad) : option (sa_reply * mc_subn) :=
  let rec := own_prefix (mad_rec req) in
  if negb (prefix (mr_port_gid rec) =? subnet_prefix subn)
  then Some (SaError IB_SA_MAD_STATUS_INVALID_GID, s)
  else
    match osm_get_port_by_alias_guid (interface_id (mr_port_gid rec)) with
    | None => Some (SaError IB_SA_MAD_STATUS_REQ_INVALID, s)
    | Some p_port =>
        match osm_get_physp_by_mad_addr (mad_lid req) with
        | None => Some (NoReply, s)
        | Some p_request_physp =>
            let proxy := negb (physp_id (sp_physp p_port) =? physp_id p_request_physp) in
            if proxy && negb (osm_physp_share_pkey (sp_physp p_port) p_request_physp
                                (allow_both_pkeys subn))
            then Some (SaError IB_SA_MAD_STATUS_REQ_INVALID, s)
            else if bits_set (comp_mask req) IB_MCR_COMPMASK_PKEY && ib_pkey_is_invalid (mr_pkey rec)
            then Some (SaError IB_SA_MAD_STATUS_REQ_INVALID, s)
            else
              '(r, s) ← join_group s req rec p_port;
              match r with
              | inl status => Some (SaError status, s)
              | inr (g, is_new_group) => join_member s req rec p_port proxy g is_new_group
              end
        end
    end.

(** ** Queries *)

(** The groups in the order of their MGIDs. *)
Definition mgid_le (x y : list Z * Z) : Prop := memcmp x.1 y.1 ≤ 0.
#[local] Instance mgid_le_dec : RelDecision mgid_le := λ x y, decide (memcmp x.1 y.1 ≤ 0).
Definition fmap_items (T : gmap (list Z) Z) : list (list Z * Z) := merge_sort mgid_le (map_to_list T).

Definition match_record m (scope_state : Z) (gid : ib_gid) (proxy_join : bool) : ib_member_rec :=
  (mcmember_rec m) <| mr_scope_state := scope_state |> <| mr_port_gid := gid |>
                 <| mr_proxy_join := proxy_join |>.

Definition mcmr_by_comp_mask m rec (comp_mask : Z) (p_req_physp : osm_physp) (trusted_req : bool)
    : list ib_member_rec :=
  let grp := mcmember_rec m in
  let on k := bits_set k comp_mask in
  if (on IB_MCR_COMPMASK_MGID && negb (bool_decide (mr_mgid rec = mr_mgid grp))) ||
     (on IB_MCR_COMPMASK_MLID && negb (mr_mlid rec =? mr_mlid grp)) ||
     negb (osm_physp_has_pkey (mr_pkey grp) p_req_physp) ||
     negb (validate_other_comp_fields comp_mask rec m) ||
     (on IB_MCR_COMPMASK_PROXY && negb (Bool.eqb (mr_proxy_join rec) (mr_proxy_join grp))) ||
     negb (validate_more_comp_fields m rec comp_mask)
  then []
  else
    let mask := Z.lor (if on IB_MCR_COMPMASK_SCOPE then 0xF0 else 0)
                      (if on IB_MCR_COMPMASK_JOIN_STATE then 0x0F else 0) in
    let matches scope_state :=
      Z.land mask (mr_scope_state rec) =? Z.land mask scope_state in
    if on IB_MCR_COMPMASK_PORT_GID then
      match osm_mgrp_get_mcm_alias_guid m (interface_id (mr_port_gid rec)) with
      | None => []
      | Some al =>
          if matches (ma_scope_state al)
          then [match_record m (ma_scope_state al) (ma_port_gid al) (ma_proxy_join al)] else []
      end
    else if trusted_req then
      omap (λ e, if matches (ma_scope_state e.2)
                 then Some (match_record m (ma_scope_state e.2) (ma_port_gid e.2) (ma_proxy_join e.2))
                 else None) (qmap_items (mcm_alias_port_tbl m))
    else if matches (mr_scope_state grp)
         then [match_record m (mr_scope_state grp) (Gid 0 0) false] else [].

(** What an untrusted requester sees of a record. *)
Definition untrusted rec : ib_member_rec :=
  (ib_member_set_join_state (rec <| mr_port_gid := Gid 0 0 |>) 0) <| mr_proxy_join := false |>.

Definition mcmr_query_mgrp s (req : sa_mad) : option (sa_reply * mc_subn) :=
  match osm_get_physp_by_mad_addr (mad_lid req) with
  | None => Some (NoReply, s)
  | Some p_req_physp =>
      let trusted_req := negb (mad_sm_key req =? 0) in
      recs ← foldl (λ acc e, acc ← acc; m ← mgrps s !! e.2;
                      Some (acc ++ mcmr_by_comp_mask m (mad_rec req) (comp_mask req) p_req_physp
                                     trusted_req))
               (Some []) (fmap_items (mgrp_mgid_tbl s));
      Some (SaRespond (if trusted_req then recs else untrusted <$> recs), s)
  end.

(** ** The handler *)

Definition osm_mcmr_rcv_process s (req : sa_mad) : option (sa_reply * mc_subn) :=
  let valid := rate_is_valid req && mtu_is_valid req in
  let error status := Some (SaError status, s) in
  match mad_method req with
  | IB_MAD_METHOD_SET =>
      if negb (check_join_comp_mask (comp_mask req)) then error IB_SA_MAD_STATUS_INSUF_COMPS
      else if negb valid then error IB_SA_MAD_STATUS_REQ_INVALID
      else mcmr_rcv_join_mgrp s req
  | IB_MAD_METHOD_DELETE =>
      if negb (check_join_comp_mask (comp_mask req)) then error IB_SA_MAD_STATUS_INSUF_COMPS
      else if negb valid then error IB_SA_MAD_STATUS_REQ_INVALID
      else mcmr_rcv_leave_mgrp s req
  | IB_MAD_METHOD_GET | IB_MAD_METHOD_GETTABLE =>
      if negb valid then error IB_SA_MAD_STATUS_REQ_INVALID else mcmr_query_mgrp s req
  | OtherMethod => error IB_MAD_STATUS_UNSUP_METHOD_ATTR
  end.
End McMember.
