(* ===== verification/McMemberOk.v ===== *)
(** * MCMemberRecord requests: sound states and what a request changes

    [sa_wf] adds to the invariant of the groups that a member's alias GUID, as long as
    the subnet knows it, belongs to the port the member is on.  From such a state every
    request is handled without reading a freed object or past an array, and the state
    it leaves is such a state; a refused one leaves the groups as they were. *)

From S2P Require Import Prelude IbTypes Pkey Rate Mgrp MgrpOk MgrpOps McMember.

Open Scope Z_scope.

Section Requests.
Context {BO : ByteOrder} {FM : FmapMatch}.
Variable subn : sa_subn.
Implicit Types s : mc_subn.
Implicit Types rec : ib_member_rec.
Implicit Types m : osm_mgrp.

(** The members of a group are on the ports their alias GUIDs belong to. *)
Definition mgrp_agrees m : Prop :=
  ∀ k al p, mcm_alias_port_tbl m !! k = Some al → alias_port_guid_tbl subn !! k = Some p →
    mcm_port_tbl m !! sp_guid p = Some (p_base_mcm_port al).

Record sa_wf s : Prop := {
  sa_mc : mc_wf s;
  sa_agrees : ∀ g m, mgrps s !! g = Some m → mgrp_agrees m
}.

Hypothesis mlids_fit : max_mcast_lid_ho subn ≤ IB_LID_MCAST_END_HO.

Lemma mc_wf_uniq s n : mc_wf s → mc_wf (s <| uniq_count := n |>).
Proof. intros [H1 H2 H3]. by constructor. Qed.

(** ** Making a group *)

Lemma new_mgid_loop_state tries s mgid : ∃ n,
  (new_mgid_loop tries s mgid).2 = s <| uniq_count := n |>.
Proof.
  revert s mgid. induction tries as [|tries IH]; intros s mgid; cbn -[raw_copy host_bytes u32].
  { exists (uniq_count s). by destruct s. }
  destruct (osm_get_mgrp_by_mgid _ _); [|by eexists].
  destruct (IH (s <| uniq_count := u32 (uniq_count s + 1) |>)
    (raw_copy mgid 10 (host_bytes 4 (uniq_count s)))) as [n ->]. by exists n.
Qed.

Lemma new_mgid_loop_new tries s mgid x :
  (new_mgid_loop tries s mgid).1 = Some x → mgrp_mgid_tbl s !! x = None.
Proof.
  revert s mgid. induction tries as [|tries IH]; intros s mgid; cbn -[raw_copy host_bytes u32]; [done|].
  destruct (osm_get_mgrp_by_mgid _ _) eqn:E; [intros H; exact (IH _ _ H)|]. intros [= <-]. exact E.
Qed.

Lemma new_mgid_loop_length tries s mgid x :
  (new_mgid_loop tries s mgid).1 = Some x → length x = length mgid.
Proof.
  revert s mgid. induction tries as [|tries IH]; intros s mgid; cbn -[raw_copy host_bytes u32]; [done|].
  unfold raw_copy. destruct (osm_get_mgrp_by_mgid _ _) eqn:E; intros H.
  - rewrite (IH _ _ H). apply length_inserts.
  - injection H as <-. apply length_inserts.
Qed.

(** Where a new group with the MGID can hang: in a place of the array that is free, or
    beside a group whose MGID is the same but for its end. *)
Definition shares s (mgid : list Z) (mlid : Z) : Prop :=
  consolidate_ipv6_snm_req subn = true ∧
  ∃ x g m, mgrp_mgid_tbl s !! x = Some g ∧ mgrps s !! g = Some m ∧ mg_mlid m = mlid ∧
    compare_ipv6_snm_mgids mgid x = 0.

Definition mlid_place s (mgid : list Z) (mlid : Z) : Prop :=
  ∃ i, mbox_index (cl_ntoh16 mlid) = Some i ∧ (mboxes s !! i = None ∨ shares s mgid mlid).

Lemma scan_mlid_place s mgid : scan_mlid subn s ≠ 0 → mlid_place s mgid (scan_mlid subn s).
Proof.
  unfold scan_mlid. destruct (list_find_first _ _) as [i|] eqn:E; [|done]. intros _. simpl.
  apply list_find_first_Some in E as [E1 E2]. apply elem_of_seqZ in E1.
  apply bool_decide_eq_true in E2. exists i. split; [|by left].
  unfold cl_hton16, IB_LID_MCAST_START_HO in *. unfold IB_LID_MCAST_END_HO in mlids_fit.
  rewrite cl_ntoh16_involutive by lia. apply mbox_index_Some.
  unfold IB_LID_MCAST_START_HO, IB_LID_MCAST_END_HO. lia.
Qed.

Lemma mgid_tbl_group s x g :
  mc_wf s → mgrp_mgid_tbl s !! x = Some g →
  ∃ m i, mgrps s !! g = Some m ∧ mr_mgid (mcmember_rec m) = x ∧
    mbox_index (cl_ntoh16 (mg_mlid m)) = Some i.
Proof.
  intros W HT. apply (wf_mgid _ _ _ (mc_tables _ W)) in HT as (id & Hid & Hx).
  destruct (wf_box_of _ _ _ (mc_tables _ W) _ _ Hid) as (i & b & Hi & _).
  rewrite lookup_fmap in Hid. destruct (mgrps s !! g) as [m|] eqn:Hg; [|done].
  injection Hid as <-. by exists m, i.
Qed.

Lemma find_snm_place s mgid :
  mc_wf s → consolidate_ipv6_snm_req subn = true →
  ∃ mlid, find_ipv6_snm_mlid s mgid = Some mlid ∧ (mlid ≠ 0 → mlid_place s mgid mlid).
Proof.
  intros W Hc. unfold find_ipv6_snm_mlid.
  destruct (mgid_tbl_match _ _) as [g|] eqn:Em; [|by exists 0].
  apply mgid_tbl_match_sound in Em as (x & HT & Hx).
  destruct (mgid_tbl_group _ _ _ W HT) as (m & i & Hg & Ex & Hi). rewrite Hg.
  exists (mg_mlid m). split; [done|]. intros _. exists i. split; [done|]. right. split; [done|].
  exists x, g, m. by split_and!.
Qed.

Lemma other_mlid_ok s mcmr :
  mc_wf s → ∃ mlid, other_mlid subn s mcmr = Some mlid ∧
    (mlid ≠ 0 → mlid_place s (mr_mgid mcmr) mlid).
Proof.
  intros W. unfold other_mlid.
  assert (∃ mlid, (if consolidate_ipv6_snm_req subn && match_ipv6_snm_mgid (mr_mgid mcmr)
      then find_ipv6_snm_mlid s (mr_mgid mcmr) else Some 0) = Some mlid ∧
    (mlid ≠ 0 → mlid_place s (mr_mgid mcmr) mlid)) as (shared & -> & Hsh).
  { destruct (consolidate_ipv6_snm_req subn && _) eqn:Ec; [|by exists 0].
    apply andb_true_iff in Ec as [Ec _]. by apply find_snm_place. }
  cbn [mbind option_bind]. eexists. split; [reflexivity|].
  destruct (Z.eqb_spec shared 0) as [->|Hne]; cbn [negb]; [apply scan_mlid_place|auto].
Qed.

Lemma get_new_mlid_ok s mcmr :
  mc_wf s → ∃ mlid, get_new_mlid subn s mcmr = Some mlid ∧
    (mlid ≠ 0 → mlid_place s (mr_mgid mcmr) mlid).
Proof.
  intros W. unfold get_new_mlid. set (req := mr_mlid mcmr).
  destruct (negb (req =? 0) && _ && _) eqn:Ereq; [|by apply other_mlid_ok].
  apply andb_true_iff in Ereq as [Ereq H2]. apply andb_true_iff in Ereq as [_ H1].
  unfold osm_get_mbox_by_mlid.
  assert (Hi : mbox_index (cl_ntoh16 req) = Some (cl_ntoh16 req - IB_LID_MCAST_START_HO)).
  { apply mbox_index_Some. lia. }
  rewrite Hi. cbn [mbind option_bind]. case_bool_decide as Eb; [|by apply other_mlid_ok].
  exists req. split; [done|]. intros _. eexists. split; [exact Hi|]. by left.
Qed.

(** A request for a new group that can be met is met with a record whose MGID is the
    one asked for. *)
Lemma realizable_some comp_mask rec physp :
  ∃ r, mgrp_request_is_realizable subn comp_mask rec physp = Some r ∧
    ∀ rec', r = Some rec' → mr_mgid rec' = mr_mgid rec.
Proof.
  unfold mgrp_request_is_realizable.
  destruct (new_group_mtu _ _ _ _) as [mtu|]; [|by exists None].
  destruct (new_group_rate _ _ _ _) as [[sel rate]|]; [|by exists None].
  assert (is_Some (limited_rate subn rate)) as [r ->].
  { unfold limited_rate. case_match; [apply limit_rate_some|by eexists]. }
  cbn [mbind option_bind]. eexists. split; [reflexivity|]. by intros rec' [= <-].
Qed.

(** *** The new group *)

(** What [mcmr_rcv_create_new_mgrp] leaves of the state: the counter of MGIDs alone, or
    a group without members. *)
Definition created s s' (mlid : Z) rec (i : Z) : Prop :=
  ∃ n, let s1 := s <| uniq_count := n |> in
    mc_wf s1 ∧ mgrp_mgid_tbl s !! mr_mgid rec = None ∧ mbox_index (cl_ntoh16 mlid) = Some i ∧
    mlid_place s (mr_mgid rec) mlid ∧ mr_mlid rec = mlid ∧
    s' = put_mgrp (next_addr s) (Mgrp mlid ∅ ∅ (with_exactly rec) false 0)
           (new_group_state s1 mlid rec i).

Lemma created_wf s s' mlid rec i : created s s' mlid rec i → mc_wf s'.
Proof.
  intros (n & W & H1 & Hi & _ & _ & ->). set (s1 := s <| uniq_count := n |>) in *.
  destruct (mgrp_new_ok s1 mlid rec i W H1 Hi) as [_ [Wm Wt Wf]].
  set (g := next_addr s). set (m := Mgrp mlid ∅ ∅ rec false 0).
  assert (Hg : mgrps (new_group_state s1 mlid rec i) !! g = Some m) by apply lookup_insert_eq.
  constructor; cbn [mgrps mcm_ports mcm_list next_addr mgrp_mgid_tbl mboxes put_mgrp set_field].
  - eapply (members_set_aliases _ _ _ _ g m ∅); try done.
  - by rewrite (mgrp_id_insert _ g m).
  - apply full_wf_insert; [exact Wf|]. unfold full_wf. cbn. rewrite fulls_empty. lia.
Qed.

Lemma created_undone s s' mlid rec i :
  created s s' mlid rec i →
  ∃ s'', osm_mgrp_cleanup s' (next_addr s) = Some s'' ∧ same_groups s s''.
Proof.
  intros (n & W & H1 & Hi & _ & _ & ->). set (s1 := s <| uniq_count := n |>) in *.
  destruct (cleanup_new s1 mlid rec i (with_exactly rec) W H1 Hi eq_refl) as (s2 & H2 & H3).
  exists s2. split; [exact H2|]. destruct H3 as (E1 & E2 & E3 & E4 & E5). done.
Qed.

Lemma place_new_mgrp_ok s n comp_mask rec physp :
  mc_wf (s <| uniq_count := n |>) → mgrp_mgid_tbl s !! mr_mgid rec = None →
  ∃ r s', place_new_mgrp subn (s <| uniq_count := n |>) comp_mask rec physp = Some (r, s') ∧
    match r with
    | inl _ => s' = s <| uniq_count := n |>
    | inr g => g = next_addr s ∧ ∃ mlid rec' i, created s s' mlid rec' i ∧ mr_mgid rec' = mr_mgid rec
    end.
Proof.
  intros W Hnew. unfold place_new_mgrp. set (s1 := s <| uniq_count := n |>) in *.
  destruct (realizable_some comp_mask rec physp) as (r & -> & Hr). cbn [mbind option_bind].
  destruct r as [rec1|]; [|by exists (inl IB_SA_MAD_STATUS_REQ_INVALID), s1].
  specialize (Hr _ eq_refl).
  destruct (get_new_mlid_ok s1 rec1 W) as (mlid & -> & Hmlid). cbn [mbind option_bind].
  destruct (Z.eqb_spec mlid 0) as [->|Hne]; [by exists (inl IB_SA_MAD_STATUS_NO_RESOURCES), s1|].
  specialize (Hmlid Hne). pose proof Hmlid as (i & Hi & _).
  destruct (mgrp_new_ok s1 mlid (rec1 <| mr_mlid := mlid |>) i W) as [E W2];
    [change (mgrp_mgid_tbl s !! mr_mgid rec1 = None); by rewrite Hr|done|].
  rewrite E. cbn [mbind option_bind].
  assert (mgrps (new_group_state s1 mlid (rec1 <| mr_mlid := mlid |>) i) !! next_addr s1
    = Some (Mgrp mlid ∅ ∅ (rec1 <| mr_mlid := mlid |>) false 0)) as -> by apply lookup_insert_eq.
  cbn [mbind option_bind]. eexists (inr (next_addr s)), _. split; [reflexivity|]. split; [done|].
  exists mlid, (rec1 <| mr_mlid := mlid |>), i. split; [|exact Hr].
  exists n. split_and!; try done. cbn. by rewrite Hr.
Qed.

Lemma validate_new_mgid_some s comp_mask rec : mc_wf s → is_Some (validate_new_mgid subn s comp_mask rec).
Proof.
  intros W. unfold validate_new_mgid. repeat case_match; try by eexists.
  match goal with H : osm_get_mgrp_by_mgid s _ = Some _ |- _ => rename H into HT end.
  destruct (mgid_tbl_group _ _ _ W HT) as (m & i & Hg & _). rewrite Hg. by eexists.
Qed.

Lemma create_new_mgrp_ok s comp_mask rec physp :
  mc_wf s → mgrp_mgid_tbl s !! mr_mgid rec = None →
  ∃ r s', mcmr_rcv_create_new_mgrp subn s comp_mask rec physp = Some (r, s') ∧
    match r with
    | inl _ => ∃ n, s' = s <| uniq_count := n |>
    | inr g => g = next_addr s ∧ ∃ mlid rec' i, created s s' mlid rec' i ∧
        length (mr_mgid rec') = length (mr_mgid rec) ∧
        (ib_gid_is_notzero (mr_mgid rec) = true → mr_mgid rec' = mr_mgid rec)
    end.
Proof.
  intros W Hnew. unfold mcmr_rcv_create_new_mgrp.
  destruct (ib_gid_is_notzero (mr_mgid rec)) eqn:Ez; cbn [negb].
  - destruct (validate_new_mgid_some s comp_mask rec W) as [ok ->]. cbn [mbind option_bind].
    assert (Es : s = s <| uniq_count := uniq_count s |>) by (by destruct s).
    destruct ok; [|eexists _, _; split; [reflexivity|by eexists]].
    rewrite Es in W. destruct (place_new_mgrp_ok _ _ comp_mask rec physp W Hnew) as (r & s' & E & H).
    rewrite <- Es in E. exists r, s'. split; [exact E|].
    destruct r as [st|g]; [by eexists|]. destruct H as [-> (mlid & rec' & i & H1 & H2)].
    split; [done|]. exists mlid, rec', i. by rewrite H2.
  - unfold build_new_mgid.
    set (mgid0 := raw_copy _ 4 _).
    destruct (new_mgid_loop_state 1000 s mgid0) as [n En].
    pose proof (new_mgid_loop_new 1000 s mgid0) as Hx.
    pose proof (new_mgid_loop_length 1000 s mgid0) as Hlen.
    destruct (new_mgid_loop 1000 s mgid0) as [[mgid|] s1]; cbn [fst snd] in *; subst s1.
    + destruct (place_new_mgrp_ok s n comp_mask (rec <| mr_mgid := mgid |>) physp) as (r & s' & E & H).
      { by apply mc_wf_uniq. } { cbn. by apply Hx. }
      exists r, s'. split; [exact E|]. destruct r as [st|g]; [by exists n|].
      destruct H as [-> (mlid & rec' & i & H1 & H2)]. split; [done|].
      exists mlid, rec', i. split_and!; [done| |discriminate]. rewrite H2. cbn [mr_mgid set_field].
      rewrite (Hlen _ eq_refl). unfold mgid0, raw_copy. by rewrite !length_inserts.
    + eexists _, _. split; [reflexivity|by eexists].
Qed.

(** ** What a request can do *)

(** The GUID a request is about, and its MGID. *)
Definition req_guid (req : sa_mad) : Z := interface_id (mr_port_gid (mad_rec req)).
Definition req_mgid (req : sa_mad) : list Z := mr_mgid (mad_rec req).
Definition req_state (req : sa_mad) : Z := mr_scope_state (mad_rec req).

(** The group of a join in the state the join finds or makes. *)
Definition group_found s (req : sa_mad) s1 g (is_new : bool) m : Prop :=
  if is_new then
    g = next_addr s ∧ is_full (state_bits (req_state req)) = true ∧
    mgrp_mgid_tbl s !! req_mgid req = None ∧
    ∃ mlid rec' i, created s s1 mlid rec' i ∧ m = Mgrp mlid ∅ ∅ (with_exactly rec') false 0 ∧
      length (mr_mgid rec') = length (req_mgid req) ∧
      (ib_gid_is_notzero (req_mgid req) = true → mr_mgid rec' = req_mgid req)
  else
    s1 = s ∧ mgrp_mgid_tbl s !! req_mgid req = Some g ∧ mgrps s !! g = Some m ∧
    validate_modify subn s m (mad_lid req) (own_prefix subn (mad_rec req)) = Some true.

Inductive outcome s (req : sa_mad) : sa_reply → mc_subn → Prop :=
  | Unchanged reply s' :
      same_groups s s' → mc_wf s' →
      (∀ recs, reply = SaRespond recs →
         mad_method req = IB_MAD_METHOD_GET ∨ mad_method req = IB_MAD_METHOD_GETTABLE) →
      outcome s req reply s'
  | Joined s1 g m is_new p_port proxy mcmr :
      mad_method req = IB_MAD_METHOD_SET →
      group_found s req s1 g is_new m →
      mc_wf s1 → mgrps s1 !! g = Some m →
      alias_port_guid_tbl subn !! req_guid req = Some p_port →
      alias_at m (req_guid req) (sp_guid p_port) → full_members m + 1 < 2 ^ 32 →
      (∃ p, osm_get_port_by_mad_addr subn (mad_lid req) = Some p ∧
         proxy = negb (physp_id (sp_physp p_port) =? physp_id (sp_physp p))) →
      state_bits (req_state req) ≠ 0 →
      mr_port_gid mcmr = Gid (subnet_prefix subn) (req_guid req) →
      mr_scope_state mcmr = ib_member_set_scope_state
        (Z.shiftr (mr_scope_state (mcmember_rec m)) 4) (state_bits (req_state req)) →
      osm_physp_has_pkey (mr_pkey (mcmember_rec m)) (sp_physp p_port) = true →
      mr_mgid mcmr = (if is_new then mr_mgid (mcmember_rec m) else req_mgid req) →
      outcome s req
        (SaRespond [with_exactly (set_port_prefix
           (mcmr <| mr_scope_state :=
              ma_scope_state (joined m (join_addr s1 m (sp_guid p_port)) mcmr proxy) |>)
           (prefix (mr_port_gid (mad_rec req))))])
        (join_state_of s1 g (sp_guid p_port) m mcmr proxy)
  | Left g m al s' :
      mad_method req = IB_MAD_METHOD_DELETE →
      mgrp_mgid_tbl s !! req_mgid req = Some g → mgrps s !! g = Some m →
      mcm_alias_port_tbl m !! req_guid req = Some al →
      validate_delete subn s m (mad_lid req) (own_prefix subn (mad_rec req)) = Some true →
      mc_wf s' →
      mgrps s' = after_leave (mgrps s) g (left_mgrp m (req_guid req) al (req_state req))
        (loses_full al (req_state req) && (full_members m =? 1)) →
      outcome s req
        (SaRespond [with_exactly (set_port_prefix
           ((own_prefix subn (mad_rec req)) <| mr_scope_state :=
              if stays m al (req_state req) then ma_scope_state (left_alias al (req_state req))
              else Z.land (ma_scope_state al) 0xf0 |>)
           (prefix (mr_port_gid (mad_rec req))))])
        s'.

Lemma own_prefix_fields rec :
  mr_mgid (own_prefix subn rec) = mr_mgid rec ∧
  interface_id (mr_port_gid (own_prefix subn rec)) = interface_id (mr_port_gid rec) ∧
  mr_scope_state (own_prefix subn rec) = mr_scope_state rec.
Proof. unfold own_prefix. by case_match. Qed.

Lemma same_groups_refl s : same_groups s s.
Proof. done. Qed.

Lemma refused s req reply :
  mc_wf s → (∀ recs, reply ≠ SaRespond recs) →
  ∃ reply' s', Some (reply, s) = Some (reply', s') ∧ outcome s req reply' s'.
Proof.
  intros W Hr. eexists _, _. split; [reflexivity|]. apply Unchanged; [done|done|].
  intros recs E. by apply Hr in E.
Qed.

(** *** Leaving *)

Lemma validate_modify_some s g m lid rec :
  mc_wf s → mgrps s !! g = Some m → is_Some (validate_modify subn s m lid rec).
Proof.
  intros W Hg. unfold validate_modify, osm_mgrp_get_mcm_alias_guid.
  destruct (mcm_alias_port_tbl m !! _) as [al|] eqn:Hal; [|by eexists].
  destruct (wf_alias _ _ _ _ (mc_members _ W) _ _ _ _ Hg Hal) as (_ & p & Hp).
  rewrite (wf_port _ _ _ _ (mc_members _ W) _ _ _ _ Hg Hp).
  repeat case_match; by eexists.
Qed.

Lemma validate_delete_some s g m lid rec :
  mc_wf s → mgrps s !! g = Some m → is_Some (validate_delete subn s m lid rec).
Proof.
  intros W Hg. unfold validate_delete. case_match; [|by eexists].
  repeat case_match; try by eexists. by eapply validate_modify_some.
Qed.

Lemma validate_delete_member s m lid rec :
  validate_delete subn s m lid rec = Some true →
  is_Some (mcm_alias_port_tbl m !! interface_id (mr_port_gid rec)) ∧
  validate_modify subn s m lid rec = Some true.
Proof.
  unfold validate_delete, osm_mgrp_get_mcm_alias_guid. case_match; [|done].
  repeat case_match; done.
Qed.

Lemma leave_outcome s req :
  mc_wf s → mad_method req = IB_MAD_METHOD_DELETE →
  ∃ reply s', mcmr_rcv_leave_mgrp subn s req = Some (reply, s') ∧ outcome s req reply s'.
Proof.
  intros W Hmethod. unfold mcmr_rcv_leave_mgrp.
  destruct (own_prefix_fields (mad_rec req)) as (E1 & E2 & E3).
  set (rec := own_prefix subn (mad_rec req)) in *.
  destruct (negb _); [by apply refused|]. rewrite E1.
  destruct (osm_get_mgrp_by_mgid s (mr_mgid (mad_rec req))) as [g|] eqn:HT; [|by apply refused].
  destruct (mgid_tbl_group _ _ _ W HT) as (m & i & Hg & _). rewrite Hg. cbn [mbind option_bind].
  destruct (validate_delete_some s g m (mad_lid req) rec W Hg) as [v Hv]. rewrite Hv.
  cbn [mbind option_bind]. destruct v; cbn [negb]; [|by apply refused].
  destruct (validate_delete_member _ _ _ _ Hv) as [[al Hal] _]. rewrite E2 in Hal |- *.
  destruct (remove_port_ok s g m _ al rec W Hg Hal) as (s' & R1 & R2 & R3 & _).
  rewrite R1. cbn [mbind option_bind]. rewrite E3 in R3 |- *.
  eexists _, _. split; [reflexivity|]. by apply (Left s req g m al s').
Qed.

(** *** Joining *)

(** The group before the request is checked against it. *)
Definition group_there s (req : sa_mad) s1 g (is_new : bool) m : Prop :=
  if is_new then group_found s req s1 g true m
  else s1 = s ∧ mgrp_mgid_tbl s !! req_mgid req = Some g ∧ mgrps s !! g = Some m.

Lemma join_group_ok s req p_port :
  mc_wf s →
  ∃ r s1, join_group subn s req (own_prefix subn (mad_rec req)) p_port = Some (r, s1) ∧
    match r with
    | inl _ => same_groups s s1 ∧ mc_wf s1
    | inr (g, is_new) => ∃ m, group_there s req s1 g is_new m ∧ mc_wf s1 ∧ mgrps s1 !! g = Some m
    end.
Proof.
  intros W. unfold join_group.
  destruct (own_prefix_fields (mad_rec req)) as (E1 & E2 & E3).
  set (rec := own_prefix subn (mad_rec req)) in *. rewrite E1, E3.
  unfold osm_get_mgrp_by_mgid.
  destruct (mgrp_mgid_tbl s !! mr_mgid (mad_rec req)) as [g|] eqn:HT.
  - destruct (mgid_tbl_group _ _ _ W HT) as (m & i & Hg & _). rewrite Hg. cbn [mbind option_bind].
    eexists _, s. split; [reflexivity|]. destruct (_ && _); [done|]. exists m. done.
  - destruct (is_full (state_bits (mr_scope_state (mad_rec req)))) eqn:Ef; cbn [negb];
      [|by eexists (inl _), s].
    destruct (check_create_comp_mask (comp_mask req)); cbn [negb]; [|by eexists (inl _), s].
    destruct (create_new_mgrp_ok s (comp_mask req) rec (Some (sp_info p_port)) W) as (r & s1 & E & H).
    { by rewrite E1. }
    rewrite E. cbn [mbind option_bind]. eexists _, s1. split; [reflexivity|].
    destruct r as [st|g].
    + destruct H as [n ->]. split; [done|]. by apply mc_wf_uniq.
    + destruct H as [-> (mlid & rec' & i & H1 & H2 & H3)]. rewrite E1 in H2, H3.
      exists (Mgrp mlid ∅ ∅ (with_exactly rec') false 0). split_and!.
      * split_and!; [done|exact Ef|exact HT|]. by exists mlid, rec', i.
      * by eapply created_wf.
      * destruct H1 as (n & _ & _ & _ & _ & _ & ->). apply lookup_insert_eq.
Qed.

(** A refused join takes a new group away again. *)
Lemma refuse_join_ok s req s1 g is_new m status :
  mc_wf s → mc_wf s1 → mgrps s1 !! g = Some m → group_there s req s1 g is_new m →
  ∃ reply s', refuse_join s1 g is_new status = Some (reply, s') ∧ outcome s req reply s'.
Proof.
  intros W W1 Hg Hthere. unfold refuse_join. destruct is_new; cbn in Hthere.
  - destruct Hthere as (-> & _ & _ & mlid & rec' & i & Hc & -> & _).
    destruct (created_undone _ _ _ _ _ Hc) as (s2 & C1 & C2).
    destruct (cleanup_ok s1 (next_addr s) _ W1 Hg eq_refl) as (s3 & C3 & C4 & _).
    assert (s3 = s2) as -> by congruence.
    rewrite C1. cbn [mbind option_bind]. eexists _, _. split; [reflexivity|].
    apply Unchanged; [done|done|]. intros recs H. discriminate.
  - destruct Hthere as (-> & _ & _). cbn [mbind option_bind]. by apply refused.
Qed.

Definition room s : Prop := ∀ g m, mgrps s !! g = Some m → full_members m + 1 < 2 ^ 32.

Lemma group_there_room s req s1 g is_new m :
  room s → group_there s req s1 g is_new m → full_members m + 1 < 2 ^ 32.
Proof.
  intros Hr. destruct is_new; cbn.
  - intros (_ & _ & _ & mlid & rec' & i & _ & -> & _). cbn. lia.
  - intros (_ & _ & Hg). by eapply Hr.
Qed.

Lemma group_there_alias_at s req s1 g is_new m p_port :
  sa_wf s → group_there s req s1 g is_new m →
  alias_port_guid_tbl subn !! req_guid req = Some p_port →
  alias_at m (req_guid req) (sp_guid p_port).
Proof.
  intros W Hthere Hport old Hold. destruct is_new; cbn in Hthere.
  - destruct Hthere as (_ & _ & _ & mlid & rec' & i & _ & -> & _). done.
  - destruct Hthere as (_ & _ & Hg). by eapply (sa_agrees _ W).
Qed.

Lemma join_member_ok s req s1 g is_new m p_port proxy :
  sa_wf s → room s → mad_method req = IB_MAD_METHOD_SET →
  mc_wf s1 → mgrps s1 !! g = Some m → group_there s req s1 g is_new m →
  alias_port_guid_tbl subn !! req_guid req = Some p_port →
  prefix (mr_port_gid (own_prefix subn (mad_rec req))) = subnet_prefix subn →
  (∃ p, osm_get_port_by_mad_addr subn (mad_lid req) = Some p ∧
     proxy = negb (physp_id (sp_physp p_port) =? physp_id (sp_physp p))) →
  ∃ reply s', join_member subn s1 req (own_prefix subn (mad_rec req)) p_port proxy g is_new
    = Some (reply, s') ∧ outcome s req reply s'.
Proof.
  intros W Hroom Hmethod W1 Hg Hthere Hport Hprefix Hproxy.
  destruct (own_prefix_fields (mad_rec req)) as (E1 & E2 & E3).
  set (rec := own_prefix subn (mad_rec req)) in *.
  pose proof (group_there_room _ _ _ _ _ _ Hroom Hthere) as Hm.
  pose proof (group_there_alias_at _ _ _ _ _ _ _ W Hthere Hport) as Hat.
  unfold join_member. rewrite Hg. cbn [mbind option_bind].
  destruct (negb (validate_more_comp_fields m rec _) || negb _ || _) eqn:Echeck.
  { by eapply refuse_join_ok; [apply W|..]. }
  apply orb_false_iff in Echeck as [_ Hbits].
  destruct (osm_physp_has_pkey _ _) eqn:Epkey; cbn [negb];
    [|by eapply refuse_join_ok; [apply W|..]].
  assert (Hv : ∃ v, (if is_new then Some true else validate_modify subn s1 m (mad_lid req) rec) = Some v ∧
    (v = true → group_found s req s1 g is_new m) ∧ (v = false → s1 = s)).
  { destruct is_new; [by exists true|]. destruct Hthere as (-> & HT & Hg').
    destruct (validate_modify_some s g m (mad_lid req) rec W1 Hg) as [v Hv]. exists v.
    split_and!; [done| |done]. intros ->. done. }
  destruct Hv as (v & -> & Hfound & Hsame). cbn [mbind option_bind].
  destruct v; cbn [negb]; [|rewrite Hsame by done; by apply refused; [apply W|]].
  set (mcmr := copy_from_create_mc_rec _ _).
  assert (Egid : mr_port_gid mcmr = Gid (subnet_prefix subn) (req_guid req)).
  { unfold req_guid. rewrite <- E2, <- Hprefix. unfold mcmr. cbn.
    destruct is_new; cbn; by destruct (mr_port_gid rec). }
  assert (Eguid : interface_id (mr_port_gid mcmr) = req_guid req) by (by rewrite Egid).
  rewrite (add_port_eq s1 g m) by (rewrite ?Eguid; done). cbn [mbind option_bind].
  eexists _, _. split; [reflexivity|].
  apply (Joined s req s1 g m is_new p_port proxy mcmr); try done.
  - by apply Hfound.
  - unfold req_state. rewrite <- E3. lia.
  - unfold mcmr, req_state. cbn. destruct is_new; cbn; by rewrite E3.
  - unfold mcmr. destruct is_new; cbn; [done|by rewrite E1].
Qed.

Lemma join_outcome s req :
  sa_wf s → room s → mad_method req = IB_MAD_METHOD_SET →
  ∃ reply s', mcmr_rcv_join_mgrp subn s req = Some (reply, s') ∧ outcome s req reply s'.
Proof.
  intros W Hroom Hmethod. pose proof (sa_mc _ W) as Wm. unfold mcmr_rcv_join_mgrp.
  destruct (own_prefix_fields (mad_rec req)) as (E1 & E2 & E3).
  destruct (Z.eqb_spec (prefix (mr_port_gid (own_prefix subn (mad_rec req)))) (subnet_prefix subn))
    as [Hprefix|]; cbn [negb]; [|by apply refused].
  unfold osm_get_port_by_alias_guid. rewrite E2.
  destruct (alias_port_guid_tbl subn !! interface_id (mr_port_gid (mad_rec req))) as [p_port|] eqn:Hport;
    [|by apply refused].
  unfold osm_get_physp_by_mad_addr.
  destruct (osm_get_port_by_mad_addr subn (mad_lid req)) as [p|] eqn:Hp; simpl; [|by apply refused].
  set (proxy := negb (physp_id (sp_physp p_port) =? physp_id (sp_physp p))).
  assert (Hproxy : ∃ p, osm_get_port_by_mad_addr subn (mad_lid req) = Some p ∧
     proxy = negb (physp_id (sp_physp p_port) =? physp_id (sp_physp p))) by (by exists p).
  destruct (proxy && _); [by apply refused|].
  destruct (bits_set (comp_mask req) _ && _); [by apply refused|].
  destruct (join_group_ok s req p_port Wm) as (r & s1 & E & H). rewrite E.
  cbn [mbind option_bind]. destruct r as [st|[g is_new]].
  - destruct H as [H1 H2]. eexists _, _. split; [reflexivity|]. by apply Unchanged.
  - destruct H as (m & H1 & H2 & H3). by eapply join_member_ok.
Qed.

(** *** Any request *)

Lemma query_some s (req : sa_mad) physp trusted (l : list (list Z * Z)) :
  (∀ x g, (x, g) ∈ l → is_Some (mgrps s !! g)) → ∀ recs,
  is_Some (foldl (λ acc e, acc ← acc; m ← mgrps s !! e.2;
    Some (acc ++ mcmr_by_comp_mask m (mad_rec req) (comp_mask req) physp trusted)) (Some recs) l).
Proof.
  induction l as [|[x g] l IH]; intros Hl recs; [by eexists|]. cbn [foldl mbind option_bind snd].
  destruct (Hl x g) as [m Hg]; [by left|]. rewrite Hg. cbn [mbind option_bind].
  apply IH. intros x' g' H. apply (Hl x'). by right.
Qed.

Lemma query_outcome s req :
  mc_wf s → mad_method req = IB_MAD_METHOD_GET ∨ mad_method req = IB_MAD_METHOD_GETTABLE →
  ∃ reply s', mcmr_query_mgrp subn s req = Some (reply, s') ∧ outcome s req reply s'.
Proof.
  intros W Hmethod. unfold mcmr_query_mgrp.
  destruct (osm_get_physp_by_mad_addr subn (mad_lid req)) as [physp|]; [|by apply refused].
  edestruct (query_some s req physp (negb (mad_sm_key req =? 0)) (fmap_items (mgrp_mgid_tbl s)))
    as [recs Hrecs].
  { intros x g Hin. unfold fmap_items in Hin. rewrite merge_sort_Permutation in Hin.
    apply elem_of_map_to_list in Hin.
    destruct (mgid_tbl_group _ _ _ W Hin) as (m & i & Hg & _). by exists m. }
  rewrite Hrecs. cbn [mbind option_bind]. eexists _, _. split; [reflexivity|].
  by apply Unchanged.
Qed.

(** Every request ends in one of the three ways. *)
Lemma process_outcome s req :
  sa_wf s → room s →
  ∃ reply s', osm_mcmr_rcv_process subn s req = Some (reply, s') ∧ outcome s req reply s'.
Proof.
  intros W Hroom. pose proof (sa_mc _ W) as Wm. unfold osm_mcmr_rcv_process.
  destruct (mad_method req) eqn:Hm.
  - destruct (negb _); [by apply refused|]. destruct (negb _); [by apply refused|].
    by apply join_outcome.
  - destruct (negb _); [by apply refused|]. destruct (negb _); [by apply refused|].
    by apply leave_outcome.
  - destruct (negb _); [by apply refused|]. apply query_outcome; auto.
  - destruct (negb _); [by apply refused|]. apply query_outcome; auto.
  - by apply refused.
Qed.
End Requests.
