(* ===== verification/McMemberThm.v ===== *)
(** * MCMemberRecord requests: what they mean

    From the three ways a request can end ([outcome]) follow the properties a client
    and the subnet rely on: here, that every request is handled to its end and leaves a
    sound state; the other properties are in the files that follow. *)

From S2P Require Import Prelude IbTypes Pkey Rate Mgrp MgrpOk MgrpOps MgrpDrop McMember McMemberOk.

Open Scope Z_scope.

Section Theorems.
Context {BO : ByteOrder} {FM : FmapMatch}.
Variable subn : sa_subn.
Implicit Types s : mc_subn.
Implicit Types m : osm_mgrp.
Implicit Types req : sa_mad.

(** ** Sound states *)

Lemma join_agrees m port a mcmr proxy k p_port :
  mgrp_agrees subn m → alias_port_guid_tbl subn !! k = Some p_port →
  interface_id (mr_port_gid mcmr) = k → port = sp_guid p_port →
  (∀ b, mcm_port_tbl m !! port = Some b → b = a) → alias_at m k port →
  mgrp_agrees subn (join_mgrp m port a mcmr proxy).
Proof.
  intros Hagr Hk Ek -> Ha Hat k' al p Hal Hp. cbn in *. rewrite Ek in Hal.
  apply lookup_insert_Some in Hal as [[<- <-]|[Hne Hal]].
  - rewrite Hk in Hp. injection Hp as <-. rewrite lookup_insert_eq. f_equal.
    unfold joined. rewrite Ek. destruct (mcm_alias_port_tbl m !! k) as [old|] eqn:Eold; [|done].
    specialize (Hat _ Eold). symmetry. exact (Ha _ Hat).
  - pose proof (Hagr _ _ _ Hal Hp) as H. destruct (decide (sp_guid p_port = sp_guid p)) as [E|E].
    + rewrite E, lookup_insert_eq. rewrite <- E in H. f_equal. symmetry. exact (Ha _ H).
    + by rewrite lookup_insert_ne.
Qed.

Lemma left_agrees m k al js :
  mgrp_agrees subn m → mcm_alias_port_tbl m !! k = Some al →
  mgrp_agrees subn (left_mgrp m k al js).
Proof.
  intros Hagr Hk k' al' p. unfold left_mgrp, left_members.
  destruct (stays m al js); cbn [mcm_alias_port_tbl mcm_port_tbl set_field].
  - rewrite lookup_insert_Some. intros [[<- <-]|[Hne H]] Hp; [by apply (Hagr k al)|by apply (Hagr k')].
  - cbn. rewrite lookup_delete_Some. intros [Hne H] Hp. pose proof (Hagr _ _ _ H Hp) as Hport.
    destruct (has_base _ _) eqn:Eb; [done|]. unfold drop_entry.
    apply map_lookup_filter_Some. split; [done|]. simpl. intros E.
    assert (has_base (delete k (mcm_alias_port_tbl m)) (p_base_mcm_port al) = true); [|congruence].
    apply has_base_true. exists k', al'. by rewrite lookup_delete_ne.
Qed.

Lemma after_leave_lookup (G : gmap Z osm_mgrp) g m gone g' m' :
  after_leave G g m gone !! g' = Some m' →
  (g' ≠ g ∧ G !! g' = Some m') ∨ (g' = g ∧ m' = if gone then emptied m else m).
Proof.
  unfold after_leave. destruct gone; [destruct (well_known m)|];
    rewrite ?lookup_insert_Some, ?lookup_delete_Some; naive_solver.
Qed.

(** The groups a join starts from are those of the state before, and the new one. *)
Lemma group_found_groups s req s1 g is_new m g' m' :
  group_found subn s req s1 g is_new m → mgrps s1 !! g' = Some m' →
  g' = g ∨ mgrps s !! g' = Some m'.
Proof.
  destruct is_new; cbn.
  - intros (-> & _ & _ & mlid & rec' & i & (n & _ & _ & _ & _ & _ & ->) & _).
    cbn. rewrite insert_insert_eq, lookup_insert_Some. intros [[<- _]|[_ H]]; auto.
  - intros (-> & _). auto.
Qed.

Lemma group_found_agrees s req s1 g is_new m :
  sa_wf subn s → group_found subn s req s1 g is_new m → mgrp_agrees subn m.
Proof.
  intros W. destruct is_new; cbn.
  - intros (_ & _ & _ & mlid & rec' & i & _ & -> & _) k al p H. done.
  - intros (_ & _ & Hg & _). by eapply (sa_agrees _ _ W).
Qed.

Lemma outcome_sound s req reply s' :
  sa_wf subn s → outcome subn s req reply s' → sa_wf subn s'.
Proof.
  intros W [reply' s1 Hsame W1 _|s1 g m is_new p_port proxy mcmr Hmeth Hfound W1 Hg Hport Hat Hlt Hpx Hb Egid _ _ _
    |g m al s1 Hmeth HT Hg Hal _ W1 Hm].
  - split; [done|]. destruct Hsame as (E & _). rewrite E. apply W.
  - assert (Ek : interface_id (mr_port_gid mcmr) = req_guid req) by (by rewrite Egid).
    split; [apply add_port_wf; by rewrite ?Ek|].
    intros g' m'. cbn. rewrite lookup_insert_Some. intros [[<- <-]|[Hne H]].
    + eapply (join_agrees _ _ _ _ _ (req_guid req) p_port); try done.
      * by eapply group_found_agrees.
      * intros b Hb'. unfold join_addr. by rewrite Hb'.
    + destruct (group_found_groups _ _ _ _ _ _ _ _ Hfound H) as [->|H']; [done|].
      by eapply (sa_agrees _ _ W).
  - split; [done|]. intros g' m'. rewrite Hm. intros H.
    destruct (after_leave_lookup _ _ _ _ _ _ H) as [[_ H']|[-> ->]]; [by eapply (sa_agrees _ _ W)|].
    pose proof (left_agrees m (req_guid req) al (req_state req) (sa_agrees _ _ W _ _ Hg) Hal) as H'.
    case_match; [|done]. intros k' al' p E. done.
Qed.

(** The full members of a group after a join. *)
Lemma join_settled s1 g m port a mcmr proxy :
  mc_wf s1 → mgrps s1 !! g = Some m →
  (well_known m = true ∨ full_members m ≠ 0 ∨ newly_full m mcmr = true) →
  well_known (join_mgrp m port a mcmr proxy) = true ∨ full_members (join_mgrp m port a mcmr proxy) ≠ 0.
Proof.
  intros W Hg H. pose proof (mc_full _ W _ _ Hg) as Hf. unfold full_wf in Hf.
  pose proof (fulls_nonneg (mcm_alias_port_tbl m)). cbn.
  destruct H as [H|[H|H]]; [by left|right|right]; destruct (newly_full m mcmr); simpl; try lia; done.
Qed.

Lemma outcome_settled s req reply s' :
  sa_wf subn s → settled s → outcome subn s req reply s' → settled s'.
Proof.
  intros W Hs [reply' s1 Hsame W1 _|s1 g m is_new p_port proxy mcmr Hmeth Hfound W1 Hg Hport Hat Hlt Hpx Hb Egid Esc _ _
    |g m al s1 Hmeth HT Hg Hal _ W1 Hm].
  - destruct Hsame as (E & _). unfold settled. by rewrite E.
  - intros g' m'. cbn. rewrite lookup_insert_Some. intros [[<- <-]|[Hne H]].
    + apply (join_settled s1 g); [done|done|]. destruct is_new; cbn in Hfound.
      * destruct Hfound as (_ & Hfull & _ & mlid & rec' & i & _ & -> & _). right. right.
        unfold newly_full. cbn. rewrite Esc. unfold ib_member_set_scope_state.
        by rewrite full_lor, Hfull, orb_true_r.
      * destruct Hfound as (-> & _). destruct (Hs _ _ Hg); auto.
    + destruct (group_found_groups _ _ _ _ _ _ _ _ Hfound H) as [->|H']; [done|]. by eapply Hs.
  - destruct (left_members_fields m (req_guid req) al (req_state req)) as (F1 & F2 & F3 & F4).
    eapply (leave_settled s s1 g m); [apply W|done|done| | |exact Hm]; cbn; [done|done].
Qed.

(** The counters of full members grow by at most one with a request. *)
Definition fulls_below (n : Z) s : Prop := ∀ g m, mgrps s !! g = Some m → full_members m ≤ n.

Lemma outcome_fulls n s req reply s' :
  0 ≤ n → fulls_below n s → outcome subn s req reply s' → fulls_below (n + 1) s'.
Proof.
  intros Hn Hb [reply' s1 Hsame W1 _|s1 g m is_new p_port proxy mcmr Hmeth Hfound W1 Hg Hport Hat Hlt Hpx Hbits Egid Esc _ _
    |g m al s1 Hmeth HT Hg Hal _ W1 Hm] g' m'.
  - destruct Hsame as (-> & _). intros H. apply Hb in H. lia.
  - assert (Hm : full_members m ≤ n).
    { destruct is_new; cbn in Hfound.
      - by destruct Hfound as (_ & _ & _ & mlid & rec' & i & _ & -> & _).
      - destruct Hfound as (-> & _). by eapply Hb. }
    cbn. rewrite lookup_insert_Some. intros [[<- <-]|[Hne H]].
    + cbn. destruct (newly_full m mcmr); simpl; lia.
    + destruct (group_found_groups _ _ _ _ _ _ _ _ Hfound H) as [->|H']; [done|]. apply Hb in H'. lia.
  - rewrite Hm. intros H. destruct (after_leave_lookup _ _ _ _ _ _ H) as [[_ H']|[-> ->]].
    + apply Hb in H'. lia.
    + apply Hb in Hg. unfold left_mgrp, emptied. case_match; cbn;
        destruct (loses_full al (req_state req)); simpl; lia.
Qed.

Lemma drop_agrees s s' :
  sa_wf subn s → mc_wf s' →
  (∀ g m', mgrps s' !! g = Some m' → ∃ m, mgrps s !! g = Some m ∧ shrunk m m') → sa_wf subn s'.
Proof.
  intros W W' Hshr. split; [done|]. intros g m' Hg' k al p Hal Hp.
  destruct (Hshr _ _ Hg') as (m & Hg & Hports & Haliases & _).
  destruct (wf_alias _ _ _ _ (mc_members _ W') _ _ _ _ Hg' Hal) as (_ & q & Hq).
  pose proof (sa_agrees _ _ W _ _ Hg _ _ _ (lookup_weaken _ _ _ _ Hal Haliases) Hp) as H.
  pose proof (lookup_weaken _ _ _ _ Hq Hports) as Hq'.
  by rewrite (wf_port_inj _ _ _ _ _ _ _ _ _ (mc_members _ (sa_mc _ _ W)) Hg H Hq').
Qed.

(** ** Sequences of requests *)

(** A request, or a port that is taken out of its groups. *)
Inductive mc_input := Request (req : sa_mad) | DropPort (port : Z).

Definition serve_one s (e : mc_input) : option (sa_reply * mc_subn) :=
  match e with
  | Request req => osm_mcmr_rcv_process subn s req
  | DropPort port =>
      s' ← drop_port_groups (length (mcm_list_of s port)) s port; Some (NoReply, s')
  end.

Fixpoint serve s (es : list mc_input) : option (list sa_reply * mc_subn) :=
  match es with
  | [] => Some ([], s)
  | e :: es =>
      '(reply, s) ← serve_one s e;
      '(replies, s) ← serve s es;
      Some (reply :: replies, s)
  end.

Hypothesis mlids_fit : max_mcast_lid_ho subn ≤ IB_LID_MCAST_END_HO.

Lemma fulls_below_room n s : fulls_below n s → n + 1 < 2 ^ 32 → room s.
Proof. intros H Hn g m Hg. apply H in Hg. lia. Qed.

Lemma serve_one_ok n s e :
  0 ≤ n → n + 1 < 2 ^ 32 → sa_wf subn s → settled s → fulls_below n s →
  ∃ reply s', serve_one s e = Some (reply, s') ∧ sa_wf subn s' ∧ settled s' ∧ fulls_below (n + 1) s'.
Proof.
  intros Hn Hlt W Hs Hb. destruct e as [req|port]; cbn [serve_one].
  - destruct (process_outcome subn mlids_fit s req W) as (reply & s' & E & Ho).
    { by eapply fulls_below_room. }
    exists reply, s'. split_and!; [done|by eapply outcome_sound|by eapply outcome_settled|by eapply outcome_fulls].
  - destruct (drop_port_groups_ok port _ s (sa_mc _ _ W) Hs (le_n _)) as (s' & D1 & D2 & D3 & _ & D5).
    rewrite D1. cbn [mbind option_bind]. exists NoReply, s'. split_and!; [done|by eapply drop_agrees|done|].
    intros g m' Hm'. destruct (D5 _ _ Hm') as (m & Hg & _ & _ & H & _). apply Hb in Hg. lia.
Qed.

Lemma serve_ok es : ∀ n s,
  0 ≤ n → n + Z.of_nat (length es) < 2 ^ 32 → sa_wf subn s → settled s → fulls_below n s →
  ∃ replies s', serve s es = Some (replies, s') ∧ length replies = length es ∧
    sa_wf subn s' ∧ settled s' ∧ fulls_below (n + Z.of_nat (length es)) s'.
Proof.
  induction es as [|e es IH]; intros n s Hn Hlt W Hs Hb; [exists [], s; by rewrite Z.add_0_r|].
  cbn [length] in Hlt. destruct (serve_one_ok n s e) as (reply & s1 & E1 & W1 & Hs1 & Hb1); [lia..|done|done|done|].
  destruct (IH (n + 1) s1) as (replies & s' & E2 & Hlen & W2 & Hs2 & Hb2); [lia|lia|done|done|done|].
  exists (reply :: replies), s'. cbn [serve]. rewrite E1. cbn [mbind option_bind]. rewrite E2.
  cbn [mbind option_bind length]. replace (n + Z.of_nat (S (length es))) with (n + 1 + Z.of_nat (length es)) by lia.
  split_and!; [done|by rewrite Hlen|done|done|done].
Qed.

(** C8. Whatever fewer than 2^32 requests come, and ports go, every one is handled to its
    end, without a freed object read, a place past an array or a loop that does not end;
    the state stays sound, and in the end every group is well known or has a counter
    [full_members] that is not zero.  The counter is at least the number of its full
    members; it may be more, so that a group can stay without one. *)
Theorem serve_answers es n s :
  0 ≤ n → n + Z.of_nat (length es) < 2 ^ 32 → sa_wf subn s → settled s → fulls_below n s →
  ∃ replies s', serve s es = Some (replies, s') ∧ length replies = length es ∧
    sa_wf subn s' ∧ settled s' ∧
    ∀ g m, mgrps s' !! g = Some m → fulls (mcm_alias_port_tbl m) ≤ full_members m.
Proof.
  intros Hn Hlt W Hs Hb. destruct (serve_ok es n s Hn Hlt W Hs Hb) as (r & s' & H1 & H2 & H3 & H4 & _).
  exists r, s'. split_and!; [done..|]. intros g m Hg. by apply (mc_full _ (sa_mc _ _ H3) g m).
Qed.
End Theorems.
