(* ===== verification/McMemberSpec.v ===== *)
(** * MCMemberRecord requests: the membership they keep

    What the requests are for is a table: for every MGID the GIDs that joined and the
    bits they joined with.  [granted] and [unanswered] say which requests are carried
    out and which get no reply, [mship_step] how each kind changes the table and what
    the reply has; the handlers on the tables, objects, lists and boxes of the subnet do
    just that.  The file also has who may change a member and when two groups have one
    MLID. *)

From S2P Require Import Prelude IbTypes Pkey Rate Mgrp MgrpOk MgrpOps MgrpDrop McMember McMemberOk McMemberThm.

Open Scope Z_scope.

Lemma foldl_bind_none {A B} (f : A → B → option B) (l : list A) :
  foldl (λ acc x, acc ← acc; f x acc) None l = None.
Proof. by induction l as [|x l IH]. Qed.

(** ** Join states *)

Lemma state_bits_lor x y : state_bits (Z.lor x y) = Z.lor (state_bits x) (state_bits y).
Proof. unfold state_bits. by rewrite Z.land_lor_distr_l. Qed.

Lemma state_bits_idem x : state_bits (state_bits x) = state_bits x.
Proof. unfold state_bits. by rewrite <- Z.land_assoc. Qed.

Lemma state_bits_scope x : state_bits (u8 (Z.shiftl x 4)) = 0.
Proof.
  unfold state_bits, u8. rewrite <- Z.land_ones, <- Z.land_assoc by lia.
  change (Z.land (Z.ones 8) 0x0f) with (Z.ones 4).
  apply Z.bits_inj'. intros i Hi. rewrite Z.land_spec, Z.bits_0.
  destruct (decide (i < 4)); [by rewrite Z.shiftl_spec_low|].
  rewrite (Z.ones_spec_high 4 i), andb_false_r by lia. done.
Qed.

Lemma set_scope_state_bits scope st :
  state_bits (ib_member_set_scope_state scope (state_bits st)) = state_bits st.
Proof.
  unfold ib_member_set_scope_state. rewrite state_bits_lor, state_bits_scope, state_bits_idem.
  by rewrite Z.lor_0_l.
Qed.

Lemma join_alias_bits old st :
  state_bits (ma_scope_state (join_alias old st))
  = Z.lor (state_bits (ma_scope_state old)) (state_bits st).
Proof.
  unfold join_alias, ib_member_get_scope_state, ib_member_set_scope_state.
  cbn [ma_scope_state set_field].
  by rewrite !state_bits_lor, state_bits_scope, state_bits_idem, Z.lor_0_l.
Qed.

Lemma leave_state_bits x y : state_bits (leave_state (state_bits x) y) = leave_state (state_bits x) y.
Proof.
  unfold state_bits, leave_state.
  by rewrite <- !Z.land_assoc, (Z.land_comm (Z.lnot y) 15), !Z.land_assoc, <- (Z.land_assoc x 15 15).
Qed.

Lemma left_alias_bits al st : state_bits (ma_scope_state (left_alias al st)) = left_bits al st.
Proof.
  unfold left_alias, left_bits. cbn [ma_scope_state set_field]. rewrite state_bits_lor, leave_state_bits.
  unfold state_bits at 3. rewrite <- Z.land_assoc. change (Z.land 0xf0 0x0f) with 0.
  by rewrite Z.land_0_r, Z.lor_0_r.
Qed.

Section Spec.
Context {BO : ByteOrder} {FM : FmapMatch}.
Variable subn : sa_subn.
Implicit Types s : mc_subn.
Implicit Types m : osm_mgrp.
Implicit Types req : sa_mad.

(** ** Membership *)

(** The join bits of the members of a group, and of every group by its MGID. *)
Definition members_of m : gmap Z Z := (λ al, state_bits (ma_scope_state al)) <$> mcm_alias_port_tbl m.

Definition membership s : gmap (list Z) (gmap Z Z) :=
  omap (λ g, members_of <$> mgrps s !! g) (mgrp_mgid_tbl s).

Lemma membership_Some s x M :
  mc_wf s → membership s !! x = Some M ↔
  ∃ g m, mgrps s !! g = Some m ∧ mr_mgid (mcmember_rec m) = x ∧ members_of m = M.
Proof.
  intros W. unfold membership. rewrite lookup_omap. split.
  - destruct (mgrp_mgid_tbl s !! x) as [g|] eqn:HT; [|done]. simpl.
    destruct (mgid_tbl_group _ _ _ W HT) as (m & i & Hg & Hx & _). rewrite Hg. intros [= <-].
    by exists g, m.
  - intros (g & m & Hg & <- & <-).
    assert (mgrp_mgid_tbl s !! mr_mgid (mcmember_rec m) = Some g) as ->.
    { apply (wf_mgid _ _ _ (mc_tables _ W)). exists (mgrp_id m). by rewrite lookup_fmap, Hg. }
    simpl. by rewrite Hg.
Qed.

Lemma mgid_inj s g1 g2 m1 m2 :
  mc_wf s → mgrps s !! g1 = Some m1 → mgrps s !! g2 = Some m2 →
  mr_mgid (mcmember_rec m1) = mr_mgid (mcmember_rec m2) → g1 = g2.
Proof.
  intros W H1 H2 E.
  assert (∀ g m, mgrps s !! g = Some m → mgrp_mgid_tbl s !! mr_mgid (mcmember_rec m) = Some g) as HT.
  { intros g m Hg. apply (wf_mgid _ _ _ (mc_tables _ W)). exists (mgrp_id m). by rewrite lookup_fmap, Hg. }
  apply HT in H1, H2. rewrite E in H1. congruence.
Qed.

Lemma membership_same s s' : same_groups s s' → membership s' = membership s.
Proof. intros (E1 & _ & E3 & _). unfold membership. by rewrite E1, E3. Qed.

(** One group changed, or come. *)
Lemma membership_insert s s' g m' :
  mc_wf s → mc_wf s' → mgrps s' = <[g := m']> (mgrps s) →
  (∀ m, mgrps s !! g = Some m → mr_mgid (mcmember_rec m) = mr_mgid (mcmember_rec m')) →
  membership s' = <[mr_mgid (mcmember_rec m') := members_of m']> (membership s).
Proof.
  intros W W' HG Hid. apply map_eq. intros x. apply option_eq. intros M.
  assert (Hg' : mgrps s' !! g = Some m') by (rewrite HG; apply lookup_insert_eq).
  rewrite (membership_Some s' x M W'), lookup_insert_Some, (membership_Some s x M W). split.
  - intros (g1 & m1 & H1 & <- & <-). rewrite HG in H1.
    apply lookup_insert_Some in H1 as [[<- <-]|[Hne H1]]; [by left|]. right. split.
    + intros E. apply Hne. eapply (mgid_inj s'); [done|exact Hg'| |exact E].
      rewrite HG. by rewrite lookup_insert_ne.
    + by exists g1, m1.
  - intros [[<- <-]|[Hne (g1 & m1 & H1 & <- & <-)]]; [by exists g, m'|].
    exists g1, m1. split_and!; [|done|done]. rewrite HG, lookup_insert_ne; [done|].
    intros <-. apply Hne. symmetry. by apply Hid.
Qed.

Lemma membership_delete s s' g m :
  mc_wf s → mc_wf s' → mgrps s !! g = Some m → mgrps s' = delete g (mgrps s) →
  membership s' = delete (mr_mgid (mcmember_rec m)) (membership s).
Proof.
  intros W W' Hg HG. apply map_eq. intros x. apply option_eq. intros M.
  rewrite (membership_Some s' x M W'), lookup_delete_Some, (membership_Some s x M W), HG. split.
  - intros (g1 & m1 & H1 & <- & <-). apply lookup_delete_Some in H1 as [Hne H1]. split.
    + intros E. apply Hne. by eapply (mgid_inj s).
    + by exists g1, m1.
  - intros [Hne (g1 & m1 & H1 & <- & <-)]. exists g1, m1. split_and!; [|done|done].
    rewrite lookup_delete_ne; [done|]. intros <-. congruence.
Qed.

(** ** Which requests are granted *)

(** The requester is the port of the member, or, when the join was made by proxy, a port
    of the group's partition. *)
Definition may_modify s g m (al : osm_mcm_alias_guid) (lid : Z) : Prop :=
  ∃ p, osm_get_port_by_mad_addr subn lid = Some p ∧
    if ma_proxy_join al
    then osm_physp_has_pkey (mr_pkey (mcmember_rec m)) (sp_physp p) = true
    else mcm_ports s !! p_base_mcm_port al = Some (McmPort (sp_physp_guid p) g) ∧
         prefix (ma_port_gid al) = subnet_prefix subn.

(** The request has the components a join or a leave needs, and its rate and MTU are
    among the known ones. *)
Definition well_formed req : bool :=
  check_join_comp_mask (comp_mask req) && (rate_is_valid req && mtu_is_valid req).

(** The GID of the request has the prefix of the subnet or the default one. *)
Definition own_gid req : bool :=
  prefix (mr_port_gid (own_prefix subn (mad_rec req))) =? subnet_prefix subn.

Definition requester req : option sa_port := osm_get_port_by_mad_addr subn (mad_lid req).

(** A leave is granted when the GID is a member, has one of the bits it gives up and no
    other, and the requester may modify it. *)
Definition may_leave s req : Prop :=
  ∃ g m al, mgrp_mgid_tbl s !! req_mgid req = Some g ∧ mgrps s !! g = Some m ∧
    mcm_alias_port_tbl m !! req_guid req = Some al ∧
    let js := state_bits (req_state req) in
    let old := state_bits (ma_scope_state al) in
    Z.land js old ≠ 0 ∧ Z.lor js old = old ∧ may_modify s g m al (mad_lid req).

(** What a group asks of a join: its values are within the bounds of the request, the
    port can carry its MTU and rate and is in its partition. *)
Definition group_admits m req (p_port : sa_port) : Prop :=
  validate_more_comp_fields m (own_prefix subn (mad_rec req)) (comp_mask req) = true ∧
  validate_port_caps m (sp_info p_port) = true ∧
  osm_physp_has_pkey (mr_pkey (mcmember_rec m)) (sp_physp p_port) = true.

(** The join of a group that is there; a GID that is a member already is modified. *)
Definition may_join_group s req (p_port : sa_port) (g : Z) : Prop :=
  ∃ m, mgrps s !! g = Some m ∧
    (mcgroup_join_validation subn = true →
     validate_other_comp_fields (comp_mask req) (own_prefix subn (mad_rec req)) m = true) ∧
    group_admits m req p_port ∧
    ∀ al, mcm_alias_port_tbl m !! req_guid req = Some al → may_modify s g m al (mad_lid req).

(** The join that makes its group. *)
Definition may_make_group s req (p_port : sa_port) : Prop :=
  is_full (state_bits (req_state req)) = true ∧ check_create_comp_mask (comp_mask req) = true ∧
  ∃ g s1 m, mcmr_rcv_create_new_mgrp subn s (comp_mask req) (own_prefix subn (mad_rec req))
      (Some (sp_info p_port)) = Some (inr g, s1) ∧
    mgrps s1 !! g = Some m ∧ group_admits m req p_port.

Definition may_join s req : Prop :=
  ∃ p_port p, alias_port_guid_tbl subn !! req_guid req = Some p_port ∧ requester req = Some p ∧
    (physp_id (sp_physp p_port) = physp_id (sp_physp p) ∨
     osm_physp_share_pkey (sp_physp p_port) (sp_physp p) (allow_both_pkeys subn) = true) ∧
    (bits_set (comp_mask req) IB_MCR_COMPMASK_PKEY = true →
     ib_pkey_is_invalid (mr_pkey (own_prefix subn (mad_rec req))) = false) ∧
    state_bits (req_state req) ≠ 0 ∧
    match mgrp_mgid_tbl s !! req_mgid req with
    | Some g => may_join_group s req p_port g
    | None => may_make_group s req p_port
    end.

Definition granted s req : Prop :=
  match mad_method req with
  | IB_MAD_METHOD_SET => well_formed req = true ∧ own_gid req = true ∧ may_join s req
  | IB_MAD_METHOD_DELETE => well_formed req = true ∧ own_gid req = true ∧ may_leave s req
  | IB_MAD_METHOD_GET | IB_MAD_METHOD_GETTABLE =>
      rate_is_valid req && mtu_is_valid req = true ∧ is_Some (requester req)
  | OtherMethod => False
  end.

(** No reply goes out for a join or a query of a LID that is no port's. *)
Definition unanswered req : Prop :=
  requester req = None ∧
  match mad_method req with
  | IB_MAD_METHOD_SET =>
      well_formed req = true ∧ own_gid req = true ∧ is_Some (alias_port_guid_tbl subn !! req_guid req)
  | IB_MAD_METHOD_GET | IB_MAD_METHOD_GETTABLE => rate_is_valid req && mtu_is_valid req = true
  | _ => False
  end.

Definition refusal_status req (status : Z) : Prop :=
  match mad_method req with
  | OtherMethod => status = IB_MAD_STATUS_UNSUP_METHOD_ATTR
  | IB_MAD_METHOD_GET | IB_MAD_METHOD_GETTABLE => status = IB_SA_MAD_STATUS_REQ_INVALID
  | method =>
      if negb (check_join_comp_mask (comp_mask req)) then status = IB_SA_MAD_STATUS_INSUF_COMPS
      else if negb (rate_is_valid req && mtu_is_valid req) then status = IB_SA_MAD_STATUS_REQ_INVALID
      else if negb (own_gid req) then status = IB_SA_MAD_STATUS_INVALID_GID
      else status = IB_SA_MAD_STATUS_REQ_INVALID ∨
           method = IB_MAD_METHOD_SET ∧
           (status = IB_SA_MAD_STATUS_INSUF_COMPS ∨ status = IB_SA_MAD_STATUS_NO_RESOURCES)
  end.

(** *** The specification *)

(** The membership after a leave, from the join bits of the member and the group.  The
    last full member that is full no more empties the group, or removes it unless it is
    to stay; otherwise the member keeps the bits that are left when the FULL bit is
    among them, or another is and the group counts more full members than this one. *)
Definition membership_left (M : gmap (list Z) (gmap Z Z)) m req (members : gmap Z Z) (old : Z)
    : gmap (list Z) (gmap Z Z) :=
  let left := leave_state old (state_bits (req_state req)) in
  if is_full old && negb (is_full left) && (full_members m =? 1) then
    if well_known m then <[req_mgid req := ∅]> M else delete (req_mgid req) M
  else if keeps_member (full_members m) old left
  then <[req_mgid req := <[req_guid req := left]> members]> M
  else <[req_mgid req := delete (req_guid req) members]> M.

(** How a request is answered in a state and what becomes of the membership.  Which of
    the replies comes is decided by [granted] and [unanswered].  A granted join adds its
    bits to the member, in the group it names or, when it names none, in a new one; the
    reply has the bits of the member. *)
Inductive mship_step s req : sa_reply → gmap (list Z) (gmap Z Z) → Prop :=
  | step_unanswered :
      unanswered req → mship_step s req NoReply (membership s)
  | step_refused status :
      ¬ granted s req → ¬ unanswered req → refusal_status req status →
      mship_step s req (SaError status) (membership s)
  | step_query recs :
      mad_method req = IB_MAD_METHOD_GET ∨ mad_method req = IB_MAD_METHOD_GETTABLE →
      granted s req → (∀ rec, rec ∈ recs → is_Some (membership s !! mr_mgid rec)) →
      mship_step s req (SaRespond recs) (membership s)
  | step_join rec x bits :
      mad_method req = IB_MAD_METHOD_SET → granted s req →
      (membership s !! x = None → is_full (state_bits (req_state req)) = true) →
      (x = req_mgid req ∨ (ib_gid_is_notzero (req_mgid req) = false ∧ membership s !! x = None)) →
      bits = Z.lor (default 0 (default ∅ (membership s !! x) !! req_guid req)) (state_bits (req_state req)) →
      mr_mgid rec = x → interface_id (mr_port_gid rec) = req_guid req →
      state_bits (mr_scope_state rec) = bits →
      mship_step s req (SaRespond [rec])
        (<[x := <[req_guid req := bits]> (default ∅ (membership s !! x))]> (membership s))
  | step_leave rec g m members old :
      mad_method req = IB_MAD_METHOD_DELETE → granted s req →
      mgrp_mgid_tbl s !! req_mgid req = Some g → mgrps s !! g = Some m →
      membership s !! req_mgid req = Some members → members !! req_guid req = Some old →
      mr_mgid rec = req_mgid req → interface_id (mr_port_gid rec) = req_guid req →
      (let left := leave_state old (state_bits (req_state req)) in
       state_bits (mr_scope_state rec) = if keeps_member (full_members m) old left then left else 0) →
      mship_step s req (SaRespond [rec]) (membership_left (membership s) m req members old).

(** *** The handlers keep it *)

Lemma members_of_join m port a mcmr proxy k j :
  interface_id (mr_port_gid mcmr) = k → state_bits (mr_scope_state mcmr) = j →
  members_of (join_mgrp m port a mcmr proxy)
  = <[k := Z.lor (default 0 (members_of m !! k)) j]> (members_of m).
Proof.
  intros Ek Ej. unfold members_of. cbn. rewrite fmap_insert, Ek. f_equal.
  unfold joined. rewrite Ek, lookup_fmap.
  destruct (mcm_alias_port_tbl m !! k) as [old|]; cbn [fmap option_fmap option_map default].
  - by rewrite join_alias_bits, Ej.
  - cbn. by rewrite Ej.
Qed.

(** The group of a join, as the abstract table has it. *)
Lemma group_found_membership s req s1 g is_new m :
  mc_wf s → mc_wf s1 → group_found subn s req s1 g is_new m → mgrps s1 !! g = Some m →
  let x := mr_mgid (mcmember_rec m) in
  members_of m = default ∅ (membership s !! x) ∧
  (∀ M, <[x := M]> (membership s1) = <[x := M]> (membership s)) ∧
  (membership s !! x = None → is_full (state_bits (req_state req)) = true) ∧
  (x = req_mgid req ∨ (ib_gid_is_notzero (req_mgid req) = false ∧ membership s !! x = None)).
Proof.
  intros W W1 Hfound Hg x. destruct is_new; cbn in Hfound.
  - destruct Hfound as (-> & Hfull & HT & mlid & rec' & i & Hc & -> & _ & Hx).
    destruct Hc as (n & _ & Hfree & _ & _ & _ & Hs1).
    assert (Hnone : membership s !! x = None).
    { unfold membership. rewrite lookup_omap. subst x. cbn.
      change (mgrp_mgid_tbl s !! mr_mgid rec' = None) in Hfree. by rewrite Hfree. }
    split_and!.
    + rewrite Hnone. by unfold members_of.
    + intros M. rewrite (membership_insert s s1 (next_addr s)
        (Mgrp mlid ∅ ∅ (with_exactly rec') false 0) W W1); [apply insert_insert_eq| |].
      * rewrite Hs1. cbn. by rewrite insert_insert_eq.
      * intros m Hm. by rewrite (mc_wf_fresh _ W) in Hm.
    + done.
    + destruct (ib_gid_is_notzero (req_mgid req)); [left; by apply Hx|by right].
  - destruct Hfound as (-> & HT & _ & _).
    destruct (mgid_tbl_group _ _ _ W HT) as (m1 & i & Hg1 & Ex & _).
    assert (m1 = m) as -> by congruence.
    assert (HM : membership s !! x = Some (members_of m)) by (apply membership_Some; [done|by exists g, m]).
    split_and!; [by rewrite HM|done|by rewrite HM|by left].
Qed.

Lemma wanted_bits x y : Z.land (state_bits x) y = Z.land (state_bits x) (state_bits y).
Proof. unfold state_bits. by rewrite (Z.land_comm y), Z.land_assoc, <- (Z.land_assoc x 15 15). Qed.

Lemma validate_delete_bits s m lid rec al :
  validate_delete subn s m lid rec = Some true →
  mcm_alias_port_tbl m !! interface_id (mr_port_gid rec) = Some al →
  let j := state_bits (mr_scope_state rec) in
  let old := state_bits (ma_scope_state al) in
  Z.land j old ≠ 0 ∧ Z.lor j old = old.
Proof.
  intros Hv Hal. unfold validate_delete, osm_mgrp_get_mcm_alias_guid in Hv. rewrite Hal in Hv.
  fold (state_bits (mr_scope_state rec)) in Hv.
  rewrite (Z.land_comm 0x0F) in Hv. fold (state_bits (ma_scope_state al)) in Hv.
  set (j := state_bits (mr_scope_state rec)) in *. cbn zeta.
  unfold j in Hv at 1. rewrite wanted_bits in Hv. fold j in Hv. case_match; [done|]. case_match; [done|]. split; lia.
Qed.

Lemma members_of_left m k al js :
  members_of (left_mgrp m k al js) =
    if stays m al js then <[k := left_bits al js]> (members_of m) else delete k (members_of m).
Proof.
  unfold left_mgrp, left_members, members_of. destruct (stays m al js); cbn.
  - by rewrite fmap_insert, left_alias_bits.
  - by rewrite fmap_delete.
Qed.

Lemma stays_left m al js : stays m al js = true → left_bits al js ≠ 0.
Proof.
  unfold stays, keeps_member, bits_set. intros H E. rewrite E in H. by rewrite orb_false_l in H.
Qed.

(** ** Who may change a member *)

Lemma validate_modify_may s g m lid rec al :
  mc_wf s → mgrps s !! g = Some m →
  validate_modify subn s m lid rec = Some true →
  mcm_alias_port_tbl m !! interface_id (mr_port_gid rec) = Some al → may_modify s g m al lid.
Proof.
  intros W Hg Hv Hal. unfold validate_modify, osm_mgrp_get_mcm_alias_guid in Hv. rewrite Hal in Hv.
  destruct (wf_alias _ _ _ _ (mc_members _ W) _ _ _ _ Hg Hal) as (_ & q & Hq).
  pose proof (wf_port _ _ _ _ (mc_members _ W) _ _ _ _ Hg Hq) as Hobj.
  unfold may_modify, osm_get_gid_by_mad_addr, osm_get_physp_by_mad_addr in *.
  destruct (osm_get_port_by_mad_addr subn lid) as [p|]; [|by destruct (ma_proxy_join al)].
  exists p. split; [done|]. destruct (ma_proxy_join al); cbn in Hv; [congruence|].
  rewrite Hobj in Hv. cbn in Hv. injection Hv as Hv.
  apply negb_true_iff, orb_false_iff in Hv as [H1 H2]. apply negb_false_iff in H1, H2.
  rewrite Hobj. split; [f_equal; f_equal; lia|lia].
Qed.

Lemma validate_modify_iff s g m lid rec :
  mc_wf s → mgrps s !! g = Some m →
  validate_modify subn s m lid rec = Some true ↔
  ∀ al, mcm_alias_port_tbl m !! interface_id (mr_port_gid rec) = Some al → may_modify s g m al lid.
Proof.
  intros W Hg. split; [intros Hv al; by apply validate_modify_may|]. intros H.
  unfold validate_modify, osm_mgrp_get_mcm_alias_guid.
  destruct (mcm_alias_port_tbl m !! _) as [al|]; [|done]. destruct (H al eq_refl) as (p & Hp & Hmay).
  unfold osm_get_gid_by_mad_addr, osm_get_physp_by_mad_addr. rewrite Hp. cbn [mbind option_bind fmap option_fmap option_map].
  destruct (ma_proxy_join al); cbn [negb]; [by rewrite Hmay|]. destruct Hmay as [-> ->].
  cbn [mbind option_bind mp_port interface_id prefix]. by rewrite !Z.eqb_refl.
Qed.

Lemma validate_delete_iff s g m lid rec :
  mc_wf s → mgrps s !! g = Some m →
  validate_delete subn s m lid rec = Some true ↔
  ∃ al, mcm_alias_port_tbl m !! interface_id (mr_port_gid rec) = Some al ∧
    let js := state_bits (mr_scope_state rec) in
    let old := state_bits (ma_scope_state al) in
    Z.land js old ≠ 0 ∧ Z.lor js old = old ∧ may_modify s g m al lid.
Proof.
  intros W Hg. split.
  - intros Hv. destruct (validate_delete_member _ _ _ _ _ Hv) as [[al Hal] Hm]. exists al.
    destruct (validate_delete_bits _ _ _ _ _ Hv Hal) as [H1 H2].
    split; [done|]. cbn zeta. split_and!; [done..|]. by eapply validate_modify_may.
  - intros (al & Hal & H1 & H2 & Hmay). unfold validate_delete, osm_mgrp_get_mcm_alias_guid. rewrite Hal.
    rewrite (Z.land_comm 0x0F). fold (state_bits (mr_scope_state rec)) (state_bits (ma_scope_state al)).
    rewrite wanted_bits. apply Z.eqb_neq in H1. rewrite H1, H2, Z.eqb_refl. cbn [negb].
    apply (validate_modify_iff s g); [done|done|]. intros al' Hal'. congruence.
Qed.

(** ** The replies *)

Definition answered_as s req (reply : sa_reply) : Prop :=
  match reply with
  | NoReply => unanswered req
  | SaError status => ¬ granted s req ∧ ¬ unanswered req ∧ refusal_status req status
  | SaRespond _ => granted s req
  end.

Lemma granted_answered s req : granted s req → ¬ unanswered req.
Proof.
  unfold granted, unanswered. intros Hg [Hn Hu].
  destruct (mad_method req); [destruct Hg as (_ & _ & ? & ? & _ & H & _)|done| | |done];
    [|destruct Hg as [_ [? H]]..]; by rewrite Hn in H.
Qed.

(** The three kinds of reply are for disjoint requests. *)
Lemma answered_iff s req reply :
  answered_as s req reply →
  (granted s req ↔ ∃ recs, reply = SaRespond recs) ∧ (unanswered req ↔ reply = NoReply).
Proof.
  pose proof (granted_answered s req). destruct reply; cbn; naive_solver.
Qed.

(** A join or leave that says enough is refused with the status of the check that fails. *)
Lemma refused_request s req status :
  mad_method req = IB_MAD_METHOD_SET ∨ mad_method req = IB_MAD_METHOD_DELETE →
  well_formed req = true → own_gid req = true →
  ¬ granted s req → ¬ unanswered req →
  status = IB_SA_MAD_STATUS_REQ_INVALID ∨ mad_method req = IB_MAD_METHOD_SET ∧
    (status = IB_SA_MAD_STATUS_INSUF_COMPS ∨ status = IB_SA_MAD_STATUS_NO_RESOURCES) →
  answered_as s req (SaError status).
Proof.
  intros Hm Hf Hg H1 H2 Hst. split_and!; [done|done|]. unfold refusal_status.
  unfold well_formed in Hf. apply andb_true_iff in Hf as [Hf1 Hf2]. rewrite Hf1, Hf2, Hg. cbn [negb].
  by destruct Hm as [-> | ->] in Hst |- *.
Qed.

(** The replies before the group is looked at. *)
Lemma refused_early s req :
  mad_method req = IB_MAD_METHOD_SET ∨ mad_method req = IB_MAD_METHOD_DELETE →
  (check_join_comp_mask (comp_mask req) = false →
   answered_as s req (SaError IB_SA_MAD_STATUS_INSUF_COMPS)) ∧
  (check_join_comp_mask (comp_mask req) = true → rate_is_valid req && mtu_is_valid req = false →
   answered_as s req (SaError IB_SA_MAD_STATUS_REQ_INVALID)) ∧
  (well_formed req = true → own_gid req = false →
   answered_as s req (SaError IB_SA_MAD_STATUS_INVALID_GID)).
Proof.
  intros Hm. assert (Hbad : well_formed req = false ∨ own_gid req = false → ¬ granted s req ∧ ¬ unanswered req).
  { unfold granted, unanswered. intros [H|H]; destruct Hm as [-> | ->]; rewrite H; naive_solver. }
  unfold answered_as, refusal_status, well_formed in *. split_and!.
  - intros H. rewrite H in *. destruct (Hbad (or_introl eq_refl)). by destruct Hm as [-> | ->].
  - intros H1 H2. rewrite H1, H2 in *. destruct (Hbad (or_introl eq_refl)). by destruct Hm as [-> | ->].
  - intros H1 H2. rewrite H2 in *. destruct (Hbad (or_intror eq_refl)). apply andb_true_iff in H1 as [-> ->].
    by destruct Hm as [-> | ->].
Qed.

Lemma leave_reply s req reply s' :
  mc_wf s → mad_method req = IB_MAD_METHOD_DELETE → well_formed req = true →
  mcmr_rcv_leave_mgrp subn s req = Some (reply, s') → answered_as s req reply.
Proof.
  intros W Hm Hf. destruct (own_prefix_fields subn (mad_rec req)) as (E1 & E2 & E3).
  unfold mcmr_rcv_leave_mgrp. fold (own_gid req). destruct (own_gid req) eqn:Eg; cbn [negb].
  2:{ intros [= <- <-]. apply refused_early; auto. }
  assert (Hrefuse : ¬ may_leave s req → answered_as s req (SaError IB_SA_MAD_STATUS_REQ_INVALID)).
  { intros H. apply refused_request; [by right|done|done| | |by left].
    - unfold granted. rewrite Hm. by intros (_ & _ & ?).
    - unfold unanswered. rewrite Hm. by intros [_ []]. }
  rewrite E1. unfold osm_get_mgrp_by_mgid. change (mr_mgid (mad_rec req)) with (req_mgid req).
  unfold may_leave in Hrefuse. destruct (mgrp_mgid_tbl s !! req_mgid req) as [g|] eqn:HT.
  2:{ intros [= <- <-]. apply Hrefuse. by intros (? & ? & ? & ? & _). }
  destruct (mgid_tbl_group _ _ _ W HT) as (m & i & Hg & _). rewrite Hg. cbn [mbind option_bind].
  pose proof (validate_delete_iff s g m (mad_lid req) (own_prefix subn (mad_rec req)) W Hg) as Hv.
  rewrite E2, E3 in Hv. destruct (validate_delete _ _ _ _ _) as [[]|]; cbn [mbind option_bind negb]; [| |done].
  - destruct (osm_mgrp_remove_port _ _ _ _) as [[[gone rec'] s1]|]; [|done]. cbn [mbind option_bind].
    intros [= <- <-]. destruct Hv as [Hv _]. destruct (Hv eq_refl) as (al & H).
    unfold answered_as, granted. rewrite Hm. split_and!; [done|done|]. by exists g, m, al.
  - intros [= <- <-]. apply Hrefuse. intros (g' & m' & al & H1 & H2 & H3 & H4).
    assert (g' = g) as -> by congruence. assert (m' = m) as -> by congruence.
    destruct Hv as [_ Hv]. discriminate Hv. by exists al.
Qed.

(** What the last part of a join looks at. *)
Definition member_checks s m req (p_port : sa_port) (is_new : bool) : Prop :=
  group_admits m req p_port ∧ state_bits (req_state req) ≠ 0 ∧
  (is_new = false →
   validate_modify subn s m (mad_lid req) (own_prefix subn (mad_rec req)) = Some true).

Lemma join_member_reply s req p_port proxy g is_new m reply s' :
  mgrps s !! g = Some m →
  join_member subn s req (own_prefix subn (mad_rec req)) p_port proxy g is_new = Some (reply, s') →
  (∃ recs, reply = SaRespond recs) ∧ member_checks s m req p_port is_new ∨
  reply = SaError IB_SA_MAD_STATUS_REQ_INVALID ∧ ¬ member_checks s m req p_port is_new.
Proof.
  intros Hg. unfold join_member, member_checks, group_admits. rewrite Hg. cbn [mbind option_bind].
  destruct (own_prefix_fields subn (mad_rec req)) as (_ & _ & E3). rewrite E3.
  change (mr_scope_state (mad_rec req)) with (req_state req).
  assert (Hrefuse : ∀ st, refuse_join s g is_new st = Some (reply, s') → reply = SaError st).
  { intros st. unfold refuse_join. destruct is_new; [|by intros [= <- <-]].
    destruct (osm_mgrp_cleanup s g); [by intros [= <- <-]|done]. }
  destruct (validate_more_comp_fields _ _ _); cbn [negb orb]; [|right; split; [auto|naive_solver]].
  destruct (validate_port_caps _ _); cbn [negb orb]; [|right; split; [auto|naive_solver]].
  destruct (Z.eqb_spec (state_bits (req_state req)) 0); [right; split; [auto|naive_solver]|].
  destruct (osm_physp_has_pkey _ _); cbn [negb]; [|right; split; [auto|naive_solver]].
  assert (Hadd : ∀ (r : option (Z * ib_member_rec * mc_subn)) pre,
    ('(_, mcmember, s2) ← r; Some (mcmr_rcv_respond (set_port_prefix mcmember pre), s2)) =
    Some (reply, s') → ∃ recs, reply = SaRespond recs).
  { intros [[[a mc] s2]|] pre; [|done]. cbn [mbind option_bind]. intros [= <- <-]. by eexists. }
  destruct is_new; cbn [mbind option_bind negb].
  { intros H. left. split; [by eapply Hadd|done]. }
  destruct (validate_modify _ _ _ _ _) as [[]|]; cbn [mbind option_bind negb]; [| |done].
  - intros H. left. split; [by eapply Hadd|done].
  - intros [= <- <-]. right. split; [done|]. intros (_ & _ & H). by discriminate (H eq_refl).
Qed.

Lemma create_status s mask rec pi status s1 :
  mcmr_rcv_create_new_mgrp subn s mask rec pi = Some (inl status, s1) →
  status = IB_SA_MAD_STATUS_REQ_INVALID ∨ status = IB_SA_MAD_STATUS_NO_RESOURCES.
Proof.
  assert (Hplace : ∀ s rec, place_new_mgrp subn s mask rec pi = Some (inl status, s1) →
    status = IB_SA_MAD_STATUS_REQ_INVALID ∨ status = IB_SA_MAD_STATUS_NO_RESOURCES).
  { clear. intros s rec. unfold place_new_mgrp.
    destruct (mgrp_request_is_realizable _ _ _ _) as [[r|]|]; cbn [mbind option_bind]; [|intros [= <- <-]; auto|done].
    destruct (get_new_mlid _ _ _) as [mlid|]; [|done]. cbn [mbind option_bind].
    destruct (mlid =? 0); [intros [= <- <-]; auto|].
    destruct (osm_mgrp_new _ _ _) as [[g s2]|]; [|done]. cbn [mbind option_bind].
    by destruct (mgrps s2 !! g). }
  unfold mcmr_rcv_create_new_mgrp. destruct (negb _).
  - destruct (build_new_mgid _ _ _ _) as [[mgid|] s2]; [apply Hplace|intros [= <- <-]; auto].
  - destruct (validate_new_mgid _ _ _ _) as [[]|]; cbn [mbind option_bind]; [apply Hplace|intros [= <- <-]; auto|done].
Qed.

(** The group of a join: what was checked when there is one, and when there is none. *)
Lemma join_group_reply s req p_port r s1 :
  max_mcast_lid_ho subn ≤ IB_LID_MCAST_END_HO → mc_wf s →
  join_group subn s req (own_prefix subn (mad_rec req)) p_port = Some (r, s1) →
  match r with
  | inl status =>
      (status = IB_SA_MAD_STATUS_REQ_INVALID ∨ status = IB_SA_MAD_STATUS_INSUF_COMPS ∨
       status = IB_SA_MAD_STATUS_NO_RESOURCES) ∧
      match mgrp_mgid_tbl s !! req_mgid req with
      | Some g => ¬ may_join_group s req p_port g
      | None => ¬ may_make_group s req p_port
      end
  | inr (g, is_new) =>
      ∃ m, mgrps s1 !! g = Some m ∧
        if is_new then
          mgrp_mgid_tbl s !! req_mgid req = None ∧
          (may_make_group s req p_port ↔ group_admits m req p_port)
        else
          s1 = s ∧ mgrp_mgid_tbl s !! req_mgid req = Some g ∧
          (mcgroup_join_validation subn = true →
           validate_other_comp_fields (comp_mask req) (own_prefix subn (mad_rec req)) m = true)
  end.
Proof.
  intros Hfit W. destruct (own_prefix_fields subn (mad_rec req)) as (E1 & E2 & E3).
  unfold join_group, osm_get_mgrp_by_mgid. rewrite E1, E3. unfold may_make_group, may_join_group.
  change (mr_mgid (mad_rec req)) with (req_mgid req). change (mr_scope_state (mad_rec req)) with (req_state req).
  destruct (mgrp_mgid_tbl s !! req_mgid req) as [g|] eqn:HT.
  - destruct (mgid_tbl_group _ _ _ W HT) as (m & i & Hg & _). rewrite Hg. cbn [mbind option_bind].
    destruct (mcgroup_join_validation subn), (validate_other_comp_fields _ _ _) eqn:Ev;
      cbn [negb andb]; intros [= <- <-]; try (by exists m).
    split; [auto|]. intros (m' & [= <-] & H & _). by rewrite Ev in H; discriminate (H eq_refl).
  - destruct (is_full _); cbn [negb]; [|intros [= <- <-]; naive_solver].
    destruct (check_create_comp_mask _); cbn [negb]; [|intros [= <- <-]; naive_solver].
    destruct (mcmr_rcv_create_new_mgrp _ _ _ _ _) as [[[st|g] s2]|] eqn:Ec; cbn [mbind option_bind]; [| |done];
      intros [= <- <-].
    + split; [destruct (create_status _ _ _ _ _ _ Ec); auto|]. intros (_ & _ & ? & ? & ? & H & _). by discriminate H.
    + destruct (create_new_mgrp_ok subn Hfit s (comp_mask req) (own_prefix subn (mad_rec req))
        (Some (sp_info p_port)) W) as (r & s3 & E & H); [by rewrite E1|].
      assert (r = inr g ∧ s3 = s2) as [-> ->] by (split; congruence).
      destruct H as [-> (mlid & rec' & i & Hc & _)]. destruct Hc as (n & _ & _ & _ & _ & _ & ->).
      eexists. split; [apply lookup_insert_eq|]. split; [done|]. split.
      * intros (_ & _ & g' & s' & m & [= <- <-] & Hm & H). cbn in Hm. rewrite lookup_insert_eq in Hm.
        by injection Hm as <-.
      * intros H. split_and!; [done|done|]. eexists _, _, _. split; [done|].
        split; [apply lookup_insert_eq|done].
Qed.

(** With the ports found and the P_Keys checked, the group decides. *)
Lemma joined_reply s req p_port proxy r s1 reply s' :
  max_mcast_lid_ho subn ≤ IB_LID_MCAST_END_HO → mc_wf s →
  join_group subn s req (own_prefix subn (mad_rec req)) p_port = Some (r, s1) →
  match r with
  | inl status => Some (SaError status, s1)
  | inr (g, is_new) =>
      join_member subn s1 req (own_prefix subn (mad_rec req)) p_port proxy g is_new
  end = Some (reply, s') →
  let admitted :=
    state_bits (req_state req) ≠ 0 ∧
    match mgrp_mgid_tbl s !! req_mgid req with
    | Some g => may_join_group s req p_port g
    | None => may_make_group s req p_port
    end in
  (∃ recs, reply = SaRespond recs) ∧ admitted ∨
  ∃ status, reply = SaError status ∧ ¬ admitted ∧
    (status = IB_SA_MAD_STATUS_REQ_INVALID ∨ status = IB_SA_MAD_STATUS_INSUF_COMPS ∨
     status = IB_SA_MAD_STATUS_NO_RESOURCES).
Proof.
  intros Hfit W E Hreply admitted. subst admitted.
  pose proof (join_group_reply _ _ _ _ _ Hfit W E) as H. clear E. destruct r as [st|[g is_new]].
  { injection Hreply as <- <-. destruct H as [H1 H2]. right. exists st. split; [done|]. split; [|done].
    intros [_ H]. by destruct (mgrp_mgid_tbl s !! req_mgid req). }
  destruct H as (m & Hg & H). pose proof (join_member_reply _ _ _ _ _ _ _ _ _ Hg Hreply) as Hr.
  assert (Hiff : member_checks s1 m req p_port is_new ↔ state_bits (req_state req) ≠ 0 ∧
    match mgrp_mgid_tbl s !! req_mgid req with
    | Some g => may_join_group s req p_port g
    | None => may_make_group s req p_port
    end).
  { unfold member_checks. destruct is_new.
    - destruct H as [-> ->]. naive_solver.
    - destruct H as (-> & -> & Hv). unfold may_join_group.
      destruct (own_prefix_fields subn (mad_rec req)) as (_ & E2 & _).
      rewrite (validate_modify_iff s g m) by done. rewrite E2. fold (req_guid req). split.
      + intros (H1 & H2 & H3). split; [done|]. exists m. split_and!; [done..|by apply H3].
      + intros (H1 & m' & Hg' & _ & H2 & H3). assert (m' = m) as -> by congruence. done. }
  rewrite Hiff in Hr. destruct Hr as [Hr|[Hr1 Hr2]]; [by left|right]. eexists. split; [done|]. auto.
Qed.

Lemma join_reply s req reply s' :
  max_mcast_lid_ho subn ≤ IB_LID_MCAST_END_HO → mc_wf s →
  mad_method req = IB_MAD_METHOD_SET → well_formed req = true →
  mcmr_rcv_join_mgrp subn s req = Some (reply, s') → answered_as s req reply.
Proof.
  intros Hfit W Hm Hf. destruct (own_prefix_fields subn (mad_rec req)) as (E1 & E2 & E3).
  unfold mcmr_rcv_join_mgrp. fold (own_gid req). destruct (own_gid req) eqn:Eg; cbn [negb].
  2:{ intros [= <- <-]. apply refused_early; auto. }
  unfold osm_get_port_by_alias_guid, osm_get_physp_by_mad_addr. rewrite E2. fold (req_guid req) (requester req).
  assert (Hrefuse : ∀ st, ¬ may_join s req → ¬ unanswered req →
    st = IB_SA_MAD_STATUS_REQ_INVALID ∨ st = IB_SA_MAD_STATUS_INSUF_COMPS ∨
    st = IB_SA_MAD_STATUS_NO_RESOURCES → answered_as s req (SaError st)).
  { intros st H1 H2 H3. apply refused_request; [by left|done|done| |done|naive_solver].
    unfold granted. rewrite Hm. by intros (_ & _ & ?). }
  unfold may_join in Hrefuse.
  destruct (alias_port_guid_tbl subn !! req_guid req) as [p_port|] eqn:Hport; cbn [mbind option_bind].
  2:{ intros [= <- <-]. apply Hrefuse; [naive_solver| |auto]. unfold unanswered. rewrite Hm, Hport.
      by intros (_ & _ & _ & [? ?]). }
  destruct (requester req) as [p|] eqn:Hp; cbn [fmap option_fmap option_map].
  2:{ intros [= <- <-]. unfold answered_as, unanswered. rewrite Hm, Hport. by split_and!. }
  assert (Hun : ¬ unanswered req) by (unfold unanswered; rewrite Hp; by intros [? _]).
  set (proxy := negb (physp_id (sp_physp p_port) =? physp_id (sp_physp p))).
  assert (Hshare : (physp_id (sp_physp p_port) = physp_id (sp_physp p) ∨
    osm_physp_share_pkey (sp_physp p_port) (sp_physp p) (allow_both_pkeys subn) = true) ↔
    proxy && negb (osm_physp_share_pkey (sp_physp p_port) (sp_physp p) (allow_both_pkeys subn)) = false).
  { subst proxy. destruct (Z.eqb_spec (physp_id (sp_physp p_port)) (physp_id (sp_physp p))),
      (osm_physp_share_pkey _ _ _); cbn; naive_solver. }
  assert (Hgive : ∀ st,
    (¬ (proxy && negb (osm_physp_share_pkey (sp_physp p_port) (sp_physp p) (allow_both_pkeys subn)) = false ∧
     (bits_set (comp_mask req) IB_MCR_COMPMASK_PKEY = true →
      ib_pkey_is_invalid (mr_pkey (own_prefix subn (mad_rec req))) = false) ∧
     state_bits (req_state req) ≠ 0 ∧
     match mgrp_mgid_tbl s !! req_mgid req with
     | Some g => may_join_group s req p_port g
     | None => may_make_group s req p_port
     end)) → st = IB_SA_MAD_STATUS_REQ_INVALID ∨ st = IB_SA_MAD_STATUS_INSUF_COMPS ∨
    st = IB_SA_MAD_STATUS_NO_RESOURCES → answered_as s req (SaError st)).
  { intros st Hn. apply Hrefuse; [|done]. intros (p1 & p2 & [= <-] & [= <-] & H1 & H2). apply Hn.
    split; [by apply Hshare|done]. }
  clear Hrefuse. destruct (proxy && _).
  { intros [= <- <-]. apply Hgive; [by intros [? _]|by left]. }
  destruct (bits_set (comp_mask req) IB_MCR_COMPMASK_PKEY) eqn:Epk, (ib_pkey_is_invalid _) eqn:Einv; cbn [andb].
  { intros [= <- <-]. apply Hgive; [|by left]. intros (_ & H & _). by discriminate (H eq_refl). }
  all: destruct (join_group _ _ _ _ _) as [[r s1]|] eqn:Egroup; [|done]; cbn [mbind option_bind]; intros Hreply;
    destruct (joined_reply _ _ _ _ _ _ _ _ Hfit W Egroup Hreply) as [[[recs ->] [Hb Ha]]|(st & -> & Hn & Hst)];
    [|apply Hgive; [intros (_ & _ & H); by apply Hn|exact Hst]].
  all: unfold answered_as, granted; rewrite Hm; split; [exact Hf|]; split; [exact Eg|]; exists p_port, p;
    rewrite Epk, Einv; rewrite Hport; split; [done|]; split; [done|]; split; [by apply Hshare|];
    split; [done|]; split; [exact Hb|exact Ha].
Qed.

(** The records of a query are of groups that are there. *)
Lemma query_records s (req : sa_mad) physp trusted (l : list (list Z * Z)) :
  mc_wf s → ∀ acc recs,
  foldl (λ acc e, acc ← acc; m ← mgrps s !! e.2;
    Some (acc ++ mcmr_by_comp_mask m (mad_rec req) (comp_mask req) physp trusted)) (Some acc) l = Some recs →
  (∀ rec, rec ∈ acc → is_Some (membership s !! mr_mgid rec)) →
  ∀ rec, rec ∈ recs → is_Some (membership s !! mr_mgid rec).
Proof.
  intros W. induction l as [|e l IH]; intros acc recs; cbn [foldl mbind option_bind]; [by intros [= <-]|].
  destruct (mgrps s !! e.2) as [m|] eqn:Hg; cbn [mbind option_bind]; [|by rewrite (foldl_bind_none (λ e acc, m ← mgrps s !! e.2; Some (acc ++ _)))].
  intros E Hacc. apply (IH _ _ E). intros rec. rewrite elem_of_app. intros [H|H]; [by apply Hacc|].
  exists (members_of m). apply (membership_Some _ _ _ W). exists e.2, m. split_and!; [done| |done].
  revert H. unfold mcmr_by_comp_mask. destruct (_ || _); [by rewrite elem_of_nil|].
  assert (Hone : ∀ (b : bool) x, rec ∈ (if b then [x] else []) → rec = x).
  { intros [] x; [apply list_elem_of_singleton|by rewrite elem_of_nil]. }
  destruct (bits_set _ _).
  - destruct (osm_mgrp_get_mcm_alias_guid _ _); [|by rewrite elem_of_nil]. by intros ->%Hone.
  - destruct trusted; [|by intros ->%Hone].
    rewrite list_elem_of_omap. intros (y & _ & H). revert H. case_match; [|done]. by intros [= <-].
Qed.

Lemma query_reply s req reply s' :
  mc_wf s → mad_method req = IB_MAD_METHOD_GET ∨ mad_method req = IB_MAD_METHOD_GETTABLE →
  rate_is_valid req && mtu_is_valid req = true →
  mcmr_query_mgrp subn s req = Some (reply, s') →
  answered_as s req reply ∧
  ∀ recs, reply = SaRespond recs → ∀ rec, rec ∈ recs → is_Some (membership s !! mr_mgid rec).
Proof.
  intros W Hm Hv. unfold mcmr_query_mgrp, osm_get_physp_by_mad_addr. fold (requester req).
  destruct (requester req) as [p|] eqn:Hp; cbn [fmap option_fmap option_map].
  2:{ intros [= <- <-]. split; [|done]. unfold answered_as, unanswered. by destruct Hm as [-> | ->]. }
  destruct (foldl _ _ _) as [recs0|] eqn:E; [|done]. cbn [mbind option_bind]. intros [= <- <-]. split.
  { unfold answered_as, granted. rewrite Hp. by destruct Hm as [-> | ->]. }
  intros recs [= <-]. pose proof (query_records _ _ _ _ _ W _ _ E) as H.
  destruct (negb _); [apply H; intros rec Hr; by apply elem_of_nil in Hr|].
  intros rec Hr. apply list_elem_of_fmap in Hr as (rec0 & -> & Hr). apply (H ltac:(intros ? Hx; by apply elem_of_nil in Hx) rec0 Hr).
Qed.

(** What a request does to one member of a group. *)
Definition member_kept m' k (al : osm_mcm_alias_guid) : Prop := mcm_alias_port_tbl m' !! k = Some al.

(** C9. A member is changed or removed by its own port alone, or, when the join was by
    proxy, by a port of the group's partition; the one way besides is that the last
    full member leaves and the group is emptied or removed with all its members. *)
Theorem member_changed_by_owner s req reply s' g m k al :
  max_mcast_lid_ho subn ≤ IB_LID_MCAST_END_HO → sa_wf subn s → room s →
  osm_mcmr_rcv_process subn s req = Some (reply, s') →
  mgrps s !! g = Some m → mcm_alias_port_tbl m !! k = Some al →
  (∃ m', mgrps s' !! g = Some m' ∧ mcm_alias_port_tbl m' !! k = Some al) ∨
  (k = req_guid req ∧ may_modify s g m al (mad_lid req)) ∨
  (mad_method req = IB_MAD_METHOD_DELETE ∧ full_members m = 1 ∧
   ∃ al', mcm_alias_port_tbl m !! req_guid req = Some al' ∧ ma_full al' = true ∧
     may_modify s g m al' (mad_lid req)).
Proof.
  intros Hfit W Hroom Hproc Hg Hal.
  destruct (process_outcome subn Hfit s req W Hroom) as (reply1 & s1' & E & Ho).
  assert (reply1 = reply ∧ s1' = s') as [-> ->] by (split; congruence). pose proof (sa_mc _ _ W) as Wm.
  destruct Ho as [reply' s1 Hsame W1 _|s1 g1 m1 is_new p_port proxy mcmr Hmeth Hfound W1 Hg1 Hport Hat Hlt Hpx Hb Egid _ _ _
    |g1 m1 al1 s1 Hmeth HT Hg1 Hal1 Hv W1 Hm].
  - left. exists m. destruct Hsame as (-> & _). done.
  - destruct is_new; cbn in Hfound.
    + destruct Hfound as (-> & _ & _ & mlid & rec' & i & (n & _ & _ & _ & _ & _ & ->) & _).
      left. exists m. split; [|done]. cbn. rewrite !lookup_insert_ne; [done|..];
        intros <-; by rewrite (mc_wf_fresh _ Wm) in Hg.
    + destruct Hfound as (-> & HT & _ & Hv). cbn.
      destruct (decide (g = g1)) as [->|Hne]; [|left; exists m; by rewrite lookup_insert_ne].
      assert (m1 = m) as -> by congruence. destruct (decide (k = req_guid req)) as [->|Hk].
      * right. left. split; [done|]. eapply (validate_modify_may s g1 m _ _ al Wm Hg); [exact Hv|].
        destruct (own_prefix_fields subn (mad_rec req)) as (_ & -> & _). exact Hal.
      * left. eexists. rewrite lookup_insert_eq. split; [reflexivity|]. cbn. rewrite Egid. cbn.
        by rewrite lookup_insert_ne.
  - destruct (decide (g = g1)) as [->|Hne]; cycle 1.
    { left. exists m. split; [|done]. rewrite Hm. unfold after_leave.
      repeat case_match; by rewrite ?lookup_insert_ne, ?lookup_delete_ne. }
    assert (m1 = m) as -> by congruence.
    assert (Hmay : may_modify s g1 m al1 (mad_lid req)).
    { destruct (validate_delete_member _ _ _ _ _ Hv) as [_ Hv'].
      eapply (validate_modify_may s g1 m _ _ al1 Wm Hg); [exact Hv'|].
      destruct (own_prefix_fields subn (mad_rec req)) as (_ & -> & _). exact Hal1. }
    unfold after_leave in Hm.
    destruct (loses_full al1 (req_state req) && (full_members m =? 1)) eqn:Egone.
    + right. right. apply andb_true_iff in Egone as [El En]. split_and!; [done|lia|].
      exists al1. split_and!; [done| |done]. unfold loses_full in El.
      apply andb_true_iff in El as [El _]. by rewrite full_state_bits in El.
    + destruct (decide (k = req_guid req)) as [->|Hk].
      * right. left. split; [done|]. congruence.
      * left. eexists. rewrite Hm, lookup_insert_eq. split; [reflexivity|].
        unfold left_mgrp, left_members. case_match; cbn;
          by rewrite ?lookup_insert_ne, ?lookup_delete_ne.
Qed.

(** ** Groups with one MLID *)

(** Two groups have the same MLID, in host order, only when sharing is on and their MGIDs, 16 bytes
    long, differ in the last three bytes alone. *)
Definition mlids_ok s : Prop :=
  (∀ g m, mgrps s !! g = Some m → length (mr_mgid (mcmember_rec m)) = 16%nat) ∧
  ∀ g1 g2 m1 m2, mgrps s !! g1 = Some m1 → mgrps s !! g2 = Some m2 →
    cl_ntoh16 (mg_mlid m1) = cl_ntoh16 (mg_mlid m2) →
    g1 = g2 ∨ (consolidate_ipv6_snm_req subn = true ∧
               take 13 (mr_mgid (mcmember_rec m1)) = take 13 (mr_mgid (mcmember_rec m2))).

Lemma memcmp_eq l1 : ∀ l2, length l1 = length l2 → memcmp l1 l2 = 0 → l1 = l2.
Proof.
  induction l1 as [|x l1 IH]; intros [|y l2] Hlen; try done. simpl in *.
  destruct (Z.eqb_spec x y) as [->|Hne]; [|lia]. intros H. f_equal. apply IH; [lia|done].
Qed.

(** The invariant only looks at the MLIDs and MGIDs of the groups. *)
Lemma mlids_ok_incl s s' :
  mlids_ok s →
  (∀ g m', mgrps s' !! g = Some m' → ∃ m, mgrps s !! g = Some m ∧ mgrp_id m' = mgrp_id m) →
  mlids_ok s'.
Proof.
  intros [Hlen Hsh] H. split.
  - intros g m' Hg. destruct (H _ _ Hg) as (m & Hm & [= E1 E2]). rewrite E2. by eapply Hlen.
  - intros g1 g2 m1' m2' H1 H2 E. destruct (H _ _ H1) as (m1 & Hm1 & [= A1 A2]).
    destruct (H _ _ H2) as (m2 & Hm2 & [= B1 B2]). rewrite A2, B2. eapply Hsh; [done|done|congruence].
Qed.

Lemma created_mlids s s1 mlid rec i :
  mc_wf s → mlids_ok s → length (mr_mgid rec) = 16%nat → created subn s s1 mlid rec i → mlids_ok s1.
Proof.
  intros W [Hlen Hsh] Hrec (n & _ & _ & _ & (i' & Hi & Hplace) & _ & ->).
  set (gn := next_addr s). set (mn := Mgrp mlid ∅ ∅ (with_exactly rec) false 0).
  assert (HG : mgrps (put_mgrp gn mn (new_group_state (s <| uniq_count := n |>) mlid rec i))
    = <[gn := mn]> (mgrps s)) by (cbn; by rewrite insert_insert_eq).
  assert (Hone : ∀ g m, mgrps s !! g = Some m → cl_ntoh16 (mg_mlid m) = cl_ntoh16 mlid →
    consolidate_ipv6_snm_req subn = true ∧ take 13 (mr_mgid (mcmember_rec m)) = take 13 (mr_mgid rec)).
  { intros g m Hg E.
    destruct (wf_box_of _ _ _ (mc_tables _ W) g (mgrp_id m)) as (j & b & Hj & Hb & _).
    { by rewrite lookup_fmap, Hg. }
    unfold box_index in Hj. cbn in Hj. rewrite E, Hi in Hj. injection Hj as <-.
    destruct Hplace as [Hfree|[Hc (x & g0 & m0 & HT & Hg0 & E0 & Hcmp)]]; [congruence|].
    split; [done|]. destruct (mgid_tbl_group _ _ _ W HT) as (m0' & _ & Hg0' & Ex & _).
    assert (m0' = m0) as -> by congruence. pose proof (Hlen _ _ Hg0) as Hl0. pose proof (Hlen _ _ Hg) as Hl.
    assert (Hx : take 13 (mr_mgid rec) = take 13 (mr_mgid (mcmember_rec m0))).
    { rewrite Ex. apply memcmp_eq; [|exact Hcmp]. rewrite !length_take. rewrite <- Ex. lia. }
    rewrite Hx. destruct (Hsh g g0 m m0 Hg Hg0) as [<-|[_ H]]; [congruence|congruence|done]. }
  split.
  - intros g m. rewrite HG, lookup_insert_Some. intros [[_ <-]|[_ H]]; [done|by eapply Hlen].
  - intros g1 g2 m1 m2. rewrite HG, !lookup_insert_Some.
    intros [[<- <-]|[N1 H1]] [[<- <-]|[N2 H2]] E; [by left| | |by apply Hsh].
    + right. destruct (Hone _ _ H2) as [Hc Ht]; [done|]. by rewrite Ht.
    + right. destruct (Hone _ _ H1) as [Hc Ht]; [done|]. by rewrite Ht.
Qed.

(** The box of an MLID that groups may not share has one group. *)
Lemma boxes_single s :
  mc_wf s → mlids_ok s → consolidate_ipv6_snm_req subn = false →
  ∀ i b, mboxes s !! i = Some b → ∃ g, mb_mgrp_list b = [g].
Proof.
  intros W [_ Hsh] Hc i b Hb. destruct (wf_box _ _ _ (mc_tables _ W) _ _ Hb) as (_ & Hne & Hnd & Hin).
  assert (Hm : ∀ g, g ∈ mb_mgrp_list b → ∃ m, mgrps s !! g = Some m ∧
    cl_ntoh16 (mg_mlid m) = i + IB_LID_MCAST_START_HO).
  { intros g Hg. destruct (Hin _ Hg) as (id & Hid & Hi). rewrite lookup_fmap in Hid.
    destruct (mgrps s !! g) as [m|]; [|done]. injection Hid as <-. exists m. split; [done|].
    apply mbox_index_Some in Hi as [_ ->]. cbn. lia. }
  destruct (mb_mgrp_list b) as [|g l]; [done|]. exists g. f_equal. destruct l as [|g' l]; [done|].
  exfalso. destruct (Hm g) as (m1 & H1 & E1); [by left|]. destruct (Hm g') as (m2 & H2 & E2); [by right; left|].
  apply NoDup_cons in Hnd as [Hg _]. apply Hg.
  destruct (Hsh g g' m1 m2 H1 H2) as [->|[H _]]; [congruence|by left|congruence].
Qed.

(** C10. Requests give two groups one MLID only when the subnet shares MLIDs between
    IPv6 solicited-node groups and the MGIDs differ in their last three bytes alone;
    when it does not, every MLID in use has the box of a single group. *)
Theorem mlids_shared_only_by_option s req reply s' :
  max_mcast_lid_ho subn ≤ IB_LID_MCAST_END_HO → sa_wf subn s → room s → mlids_ok s →
  length (req_mgid req) = 16%nat → osm_mcmr_rcv_process subn s req = Some (reply, s') →
  mlids_ok s' ∧
  (consolidate_ipv6_snm_req subn = false →
   ∀ i b, mboxes s' !! i = Some b → ∃ g, mb_mgrp_list b = [g]).
Proof.
  intros Hfit W Hroom Hok Hlen Hproc.
  destruct (process_outcome subn Hfit s req W Hroom) as (reply1 & s1' & E & Ho).
  assert (reply1 = reply ∧ s1' = s') as [-> ->] by (split; congruence).
  pose proof (outcome_sound _ _ _ _ _ W Ho) as W'.
  assert (Hok' : mlids_ok s'); [|split; [done|]; intros Hc; by apply boxes_single; [apply W'|..]].
  pose proof (sa_mc _ _ W) as Wm.
  destruct Ho as [reply' s1 Hsame W1 _|s1 g m is_new p_port proxy mcmr Hmeth Hfound W1 Hg Hport Hat Hlt Hpx Hb Egid _ _ _
    |g m al s1 Hmeth HT Hg Hal Hv W1 Hm].
  - apply (mlids_ok_incl s); [done|]. intros g m'. destruct Hsame as (-> & _). by exists m'.
  - assert (mlids_ok s1).
    { destruct is_new; cbn in Hfound; [|by destruct Hfound as (-> & _)].
      destruct Hfound as (_ & _ & _ & mlid & rec' & i & Hc & _ & Hl & _).
      eapply created_mlids; [done|done| |exact Hc]. by rewrite Hl. }
    apply (mlids_ok_incl s1); [done|]. intros g' m'. cbn. rewrite lookup_insert_Some.
    intros [[<- <-]|[_ H']]; [by exists m|by exists m'].
  - apply (mlids_ok_incl s); [done|]. intros g' m'. rewrite Hm. intros H.
    destruct (after_leave_lookup _ _ _ _ _ _ H) as [[_ H']|[-> ->]]; [by exists m'|]. exists m.
    split; [done|]. destruct (left_members_fields m (req_guid req) al (req_state req)) as (F1 & F2 & _).
    unfold mgrp_id. case_match; cbn; by rewrite F1, F2.
Qed.

(** Which reply a request gets. *)
Lemma process_reply s req reply s' :
  max_mcast_lid_ho subn ≤ IB_LID_MCAST_END_HO → mc_wf s →
  osm_mcmr_rcv_process subn s req = Some (reply, s') →
  answered_as s req reply ∧
  (mad_method req = IB_MAD_METHOD_GET ∨ mad_method req = IB_MAD_METHOD_GETTABLE →
   ∀ recs, reply = SaRespond recs → ∀ rec, rec ∈ recs → is_Some (membership s !! mr_mgid rec)).
Proof.
  intros Hfit W. unfold osm_mcmr_rcv_process. cbn zeta.
  assert (Hearly : mad_method req = IB_MAD_METHOD_SET ∨ mad_method req = IB_MAD_METHOD_DELETE → ∀ r,
    (if negb (check_join_comp_mask (comp_mask req)) then Some (SaError IB_SA_MAD_STATUS_INSUF_COMPS, s)
     else if negb (rate_is_valid req && mtu_is_valid req)
     then Some (SaError IB_SA_MAD_STATUS_REQ_INVALID, s) else r) = Some (reply, s') →
    answered_as s req reply ∨ well_formed req = true ∧ r = Some (reply, s')).
  { intros Hm r. destruct (refused_early s req Hm) as (H1 & H2 & _).
    unfold well_formed. destruct (check_join_comp_mask _); cbn [negb andb]; [|intros [= <- <-]; left; auto].
    destruct (_ && _) eqn:Ev; cbn [negb]; [by right|intros [= <- <-]; left; auto]. }
  assert (Hquery : mad_method req = IB_MAD_METHOD_GET ∨ mad_method req = IB_MAD_METHOD_GETTABLE →
    (if negb (rate_is_valid req && mtu_is_valid req)
     then Some (SaError IB_SA_MAD_STATUS_REQ_INVALID, s) else mcmr_query_mgrp subn s req) = Some (reply, s') →
    answered_as s req reply ∧
    ∀ recs, reply = SaRespond recs → ∀ rec, rec ∈ recs → is_Some (membership s !! mr_mgid rec)).
  { intros Hm. destruct (_ && _) eqn:Ev; cbn [negb]; [by apply query_reply|intros [= <- <-]].
    split; [|done]. unfold answered_as, granted, unanswered, refusal_status. rewrite Ev.
    destruct Hm as [-> | ->]; (split_and!; [by intros [? _]|by intros [_ ?]|done]). }
  destruct (mad_method req) eqn:Hm.
  - intros E. split; [|by intros [?|?]]. destruct (Hearly (or_introl eq_refl) _ E) as [H|[Hf E']]; [done|].
    by eapply join_reply.
  - intros E. split; [|by intros [?|?]]. destruct (Hearly (or_intror eq_refl) _ E) as [H|[Hf E']]; [done|].
    by eapply leave_reply.
  - intros E. destruct (Hquery (or_introl eq_refl) E). auto.
  - intros E. destruct (Hquery (or_intror eq_refl) E). auto.
  - intros [= <- <-]. split; [|by intros [?|?]]. unfold answered_as, granted, unanswered, refusal_status.
    rewrite Hm. split_and!; [tauto|tauto|done].
Qed.

(** The reply and the membership after a leave. *)
Lemma after_leave_membership s s1 req g m al :
  mc_wf s → mc_wf s1 → mgrp_mgid_tbl s !! req_mgid req = Some g → mgrps s !! g = Some m →
  mgrps s1 = after_leave (mgrps s) g (left_mgrp m (req_guid req) al (req_state req))
    (loses_full al (req_state req) && (full_members m =? 1)) →
  membership s1
  = membership_left (membership s) m req (members_of m) (state_bits (ma_scope_state al)).
Proof.
  intros W W1 HT Hg Hm. destruct (mgid_tbl_group _ _ _ W HT) as (m1 & i & Hg1 & Ex & _).
  assert (m1 = m) as -> by congruence.
  destruct (left_members_fields m (req_guid req) al (req_state req)) as (_ & F2 & F3 & _).
  unfold membership_left. cbn zeta. fold (left_bits al (req_state req)).
  fold (loses_full al (req_state req)) (stays m al (req_state req)). unfold after_leave in Hm.
  destruct (loses_full al (req_state req) && (full_members m =? 1)).
  - unfold left_mgrp in Hm. cbn [well_known set_field] in Hm.
    rewrite F3 in Hm. destruct (well_known m).
    + rewrite (membership_insert s s1 g _ W W1 Hm); [cbn; by rewrite F2, Ex|].
      intros m' Hm'. cbn. rewrite F2. congruence.
    + by rewrite (membership_delete s s1 g m W W1 Hg Hm), Ex.
  - rewrite (membership_insert s s1 g _ W W1 Hm).
    + rewrite members_of_left. cbn. rewrite F2, Ex. by destruct (stays m al (req_state req)).
    + intros m' Hm'. cbn. rewrite F2. congruence.
Qed.

(** Whatever a request does to the tables is a step of the membership. *)
Lemma outcome_step s req reply s' :
  sa_wf subn s → outcome subn s req reply s' → answered_as s req reply →
  (mad_method req = IB_MAD_METHOD_GET ∨ mad_method req = IB_MAD_METHOD_GETTABLE →
   ∀ recs, reply = SaRespond recs → ∀ rec, rec ∈ recs → is_Some (membership s !! mr_mgid rec)) →
  mship_step s req reply (membership s').
Proof.
  intros W [reply' s1 Hsame W1 Hr|s1 g m is_new p_port proxy mcmr Hmeth Hfound W1 Hg Hport Hat Hlt Hpx Hb Egid Esc _ Emgid
    |g m al s1 Hmeth HT Hg Hal Hv W1 Hm] Ha Hq.
  - rewrite (membership_same _ _ Hsame). destruct reply' as [|st|recs].
    + by apply step_unanswered.
    + destruct Ha as (H1 & H2 & H3). by apply step_refused.
    + apply step_query; [by eapply Hr|done|]. eapply Hq; [by eapply Hr|done].
  - assert (Ek : interface_id (mr_port_gid mcmr) = req_guid req) by (by rewrite Egid).
    destruct (group_found_membership _ _ _ _ _ _ (sa_mc _ _ W) W1 Hfound Hg) as (E1 & E2 & E3 & E4).
    set (x := mr_mgid (mcmember_rec m)) in *.
    assert (Ex : mr_mgid mcmr = x).
    { rewrite Emgid. destruct is_new; [done|]. destruct Hfound as (-> & HT & _ & _).
      destruct (mgid_tbl_group _ _ _ (sa_mc _ _ W) HT) as (m1 & i & Hg1 & Hx & _). subst x. congruence. }
    assert (Hbits : state_bits (ma_scope_state (joined m (join_addr s1 m (sp_guid p_port)) mcmr proxy))
      = Z.lor (default 0 (default ∅ (membership s !! x) !! req_guid req)) (state_bits (req_state req))).
    { rewrite <- E1. unfold members_of, joined. rewrite lookup_fmap, Ek.
      destruct (mcm_alias_port_tbl m !! req_guid req) as [old|]; cbn [fmap option_fmap option_map default from_option id].
      - by rewrite join_alias_bits, Esc, set_scope_state_bits.
      - cbn. by rewrite Esc, set_scope_state_bits, Z.lor_0_l. }
    rewrite (membership_insert s1 (join_state_of s1 g (sp_guid p_port) m mcmr proxy) g (join_mgrp m (sp_guid p_port)
      (join_addr s1 m (sp_guid p_port)) mcmr proxy)); [|done| |done|]; cycle 1.
    { apply add_port_wf; by rewrite ?Ek. }
    { intros m' Hm'. rewrite Hg in Hm'. by injection Hm' as <-. }
    change (mcmember_rec (join_mgrp m (sp_guid p_port) (join_addr s1 m (sp_guid p_port)) mcmr proxy))
      with (mcmember_rec m). fold x.
    rewrite E2, (members_of_join _ _ _ _ _ (req_guid req) (state_bits (req_state req))), E1; [|done|].
    + by apply step_join.
    + rewrite Esc. apply set_scope_state_bits.
  - destruct (own_prefix_fields subn (mad_rec req)) as (P1 & P2 & P3).
    destruct (mgid_tbl_group _ _ _ (sa_mc _ _ W) HT) as (m1 & i & Hg1 & Ex & _).
    assert (m1 = m) as -> by congruence.
    rewrite (after_leave_membership s s1 req g m al (sa_mc _ _ W) W1 HT Hg Hm).
    apply (step_leave _ _ _ g m (members_of m) (state_bits (ma_scope_state al))); try done.
    + apply membership_Some; [apply W|]. by exists g, m.
    + unfold members_of. by rewrite lookup_fmap, Hal.
    + cbn zeta. fold (left_bits al (req_state req)) (stays m al (req_state req)). cbn.
      destruct (stays m al (req_state req)); [apply left_alias_bits|].
      unfold state_bits. rewrite <- Z.land_assoc. by rewrite Z.land_0_r.
Qed.

End Spec.
