(* ===== verification/McMemberTrip.v ===== *)
(** * MCMemberRecord requests: joining and leaving again

    A port that joins a group and leaves it with the same request finds the group as it
    was.  The file also has where that fails: a member that is full in both ways, a
    member whose alias GUID went to another port, the last full member. *)

From S2P Require Import Prelude IbTypes Pkey Rate Mgrp MgrpOk MgrpOps MgrpDrop McMember McMemberOk McMemberThm McMemberSpec.

Open Scope Z_scope.

Section Trip.
Context {BO : ByteOrder} {FM : FmapMatch}.
Variable subn : sa_subn.
Implicit Types s : mc_subn.
Implicit Types m : osm_mgrp.
Implicit Types req : sa_mad.

(** ** Objects and MGIDs follow from the groups *)

Lemma ports_of_groups s s' :
  mc_wf s → mc_wf s' → mgrps s' = mgrps s →
  mcm_ports s' = mcm_ports s ∧ mgrp_mgid_tbl s' = mgrp_mgid_tbl s.
Proof.
  intros [Wm Wt _] [Wm' Wt' _] HG. split.
  - apply map_eq. intros a. apply option_eq. intros [p g].
    assert (Hchar : ∀ s0, members_wf (mgrps s0) (mcm_ports s0) (mcm_list s0) (next_addr s0) →
      mcm_ports s0 !! a = Some (McmPort p g) ↔
      ∃ m, mgrps s0 !! g = Some m ∧ mcm_port_tbl m !! p = Some a).
    { intros s0 W0. split; [apply (wf_obj _ _ _ _ W0)|intros (m & H1 & H2); by eapply wf_port]. }
    by rewrite (Hchar s' Wm'), (Hchar s Wm), HG.
  - apply map_eq. intros x. apply option_eq. intros g.
    by rewrite (wf_mgid _ _ _ Wt'), (wf_mgid _ _ _ Wt), HG.
Qed.

(** ** Lists and boxes follow too *)

(** Two sublists of a list without repetition are the same when their elements are. *)
Lemma sublist_same (l1 l2 l : list Z) :
  NoDup l → sublist l1 l → sublist l2 l → (∀ x, x ∈ l1 ↔ x ∈ l2) → l1 = l2.
Proof.
  assert (Hsub : ∀ (k l : list Z) (x : Z), sublist k l → x ∈ k → x ∈ l).
  { intros k l' x Hk Hx. eapply elem_of_submseteq; [done|]. by apply sublist_submseteq. }
  intros Hnd H1. revert l2. induction H1 as [|x l1 l H1 IH|x l1 l H1 IH]; intros l2 H2 Hin.
  - by apply sublist_nil_r in H2.
  - apply NoDup_cons in Hnd as [Hx Hnd]. inversion H2 as [|? k ? H3|? ? ? H3]; subst.
    + f_equal. apply IH; [done|done|]. intros y. specialize (Hin y). rewrite !elem_of_cons in Hin.
      split; intros Hy; [pose proof (Hsub _ _ _ H1 Hy)|pose proof (Hsub _ _ _ H3 Hy)];
        assert (y ≠ x) by congruence; tauto.
    + exfalso. apply Hx, (Hsub _ _ _ H3), Hin. by left.
  - apply NoDup_cons in Hnd as [Hx Hnd]. inversion H2 as [|? k ? H3|? ? ? H3]; subst; [|by apply IH].
    exfalso. apply Hx, (Hsub _ _ _ H1), Hin. by left.
Qed.

(** A removal that leaves the group in place takes at most the object of the member out
    of the lists, and touches no box. *)
Lemma remove_port_lists s g k rec rec' s' :
  osm_mgrp_remove_port s g k rec = Some (false, rec', s') →
  mboxes s' = mboxes s ∧ ∀ q, sublist (mcm_list_of s' q) (mcm_list_of s q).
Proof.
  unfold osm_mgrp_remove_port. destruct (mgrps s !! g) as [m|]; [|done]. cbn [mbind option_bind].
  destruct (mcm_alias_port_tbl m !! k) as [al|]; [|done]. cbn [mbind option_bind]. cbn zeta.
  set (pj := Z.land (ma_scope_state al) 0x0F). set (nj := leave_state pj _).
  assert (Hcount : ∀ s1 s2, count_leave s1 g pj nj = Some (false, s2) →
    mboxes s2 = mboxes s1 ∧ mcm_list s2 = mcm_list s1).
  { intros s1 s2. unfold count_leave. destruct (is_full pj && negb (is_full nj)); [|by intros [= <-]].
    destruct (mgrps s1 !! g) as [m1|]; [|done]. cbn [mbind option_bind].
    destruct (u32 (full_members m1 - 1) =? 0); [|by intros [= <-]].
    destruct (osm_mgrp_cleanup _ _); [done|done]. }
  assert (Hfin : ∀ s1 r, (∀ q, sublist (mcm_list_of s1 q) (mcm_list_of s q)) → mboxes s1 = mboxes s →
    ('(gone, s2) ← count_leave s1 g pj nj; Some (gone : bool, r, s2 <| sa_dirty := true |>))
      = Some (false, rec', s') →
    mboxes s' = mboxes s ∧ ∀ q, sublist (mcm_list_of s' q) (mcm_list_of s q)).
  { intros s1 r Hsub Hbox. destruct (count_leave s1 g pj nj) as [[gone s2]|] eqn:Ec; [|done].
    cbn [mbind option_bind]. intros [= -> _ <-]. destruct (Hcount _ _ Ec) as [E1 E2].
    unfold mcm_list_of in *. cbn. by rewrite E1, E2. }
  destruct (keeps_member (full_members m) pj nj); cbn [mbind option_bind].
  - by apply Hfin.
  - unfold remove_alias. cbn -[filter].
    destruct (mcm_ports s !! p_base_mcm_port al) as [mp|]; [|done]. cbn -[filter].
    destruct (is_qmap_empty_for_port _ _ _) as [[]|]; cbn -[filter]; [|by apply Hfin|done].
    destruct (qmap_remove_item _ _ _); [|done]. cbn -[filter].
    apply Hfin; [|by destruct (is_qmap_empty_for_mcm_port _ _)].
    intros q. assert (Hq : ∀ L, mcm_list L = <[mp_port mp := filter (.≠ p_base_mcm_port al)
        (mcm_list_of s (mp_port mp))]> (mcm_list s) → sublist (mcm_list_of L q) (mcm_list_of s q)).
    { intros L HL. unfold mcm_list_of at 1. rewrite HL. destruct (decide (mp_port mp = q)) as [->|Hne].
      - rewrite lookup_insert_eq. apply sublist_filter.
      - by rewrite lookup_insert_ne. }
    apply Hq. by destruct (is_qmap_empty_for_mcm_port _ _).
Qed.

(** ** A join undone *)

(** A member that is taken out right after it joined leaves the group as it was. *)
Lemma join_undone s g m port mcmr proxy k :
  mc_wf s → mgrps s !! g = Some m → interface_id (mr_port_gid mcmr) = k →
  mcm_alias_port_tbl m !! k = None →
  let a := join_addr s m port in
  let m1 := join_mgrp m port a mcmr proxy in
  (without m1 k (joined m a mcmr proxy)) <| full_members := full_members m |> = m.
Proof.
  intros W Hg Ek Hk a m1. pose proof (mc_members _ W) as Wm.
  assert (Htbl : delete k (mcm_alias_port_tbl m1) = mcm_alias_port_tbl m).
  { subst m1. cbn. rewrite Ek. by apply delete_insert_id. }
  assert (Hbase : p_base_mcm_port (joined m a mcmr proxy) = a).
  { unfold joined. by rewrite Ek, Hk. }
  assert (Hports : (if has_base (mcm_alias_port_tbl m) a then <[port := a]> (mcm_port_tbl m)
    else drop_entry (<[port := a]> (mcm_port_tbl m)) a) = mcm_port_tbl m).
  { destruct (mcm_port_tbl m !! port) as [b|] eqn:Hp.
    - assert (a = b) as -> by (unfold a, join_addr; by rewrite Hp).
      destruct (wf_used _ _ _ _ Wm _ _ _ _ Hg Hp) as (k' & al' & H1 & H2).
      rewrite (proj2 (has_base_true _ _)) by (by exists k', al'). by apply insert_id.
    - assert (Ha : a = next_addr s) by (unfold a, join_addr; by rewrite Hp).
      assert (Hfresh : ∀ q b, mcm_port_tbl m !! q = Some b → b ≠ a).
      { intros q b Hq ->. pose proof (wf_port _ _ _ _ Wm _ _ _ _ Hg Hq) as H.
        pose proof (wf_next_p _ _ _ _ Wm _ _ H). lia. }
      destruct (has_base (mcm_alias_port_tbl m) a) eqn:Eb.
      { apply has_base_true in Eb as (k' & al' & H1 & H2).
        destruct (wf_alias _ _ _ _ Wm _ _ _ _ Hg H1) as (_ & q & Hq). rewrite H2 in Hq.
        by apply Hfresh in Hq. }
      unfold drop_entry. apply map_eq. intros q. apply option_eq. intros b.
      rewrite map_lookup_filter_Some, lookup_insert_Some. cbn. split.
      + intros [[[<- <-]|[_ H]] Hne]; [done|done].
      + intros H. split; [right; split; [congruence|done]|by eapply Hfresh]. }
  unfold without. rewrite Htbl, Hbase. subst m1. cbn. rewrite Hports. by destruct m.
Qed.

Lemma stays_none m al js : left_bits al js = 0 → stays m al js = false.
Proof. unfold stays, keeps_member, bits_set. by intros ->. Qed.

Lemma leave_state_self x : leave_state x x = 0.
Proof.
  unfold leave_state. apply Z.bits_inj'. intros i Hi. rewrite Z.land_spec, Z.lnot_spec, Z.bits_0 by done.
  by destruct (Z.testbit x i).
Qed.

(** *** What an accepted join says of the request *)

Lemma join_checks s req recs s1 :
  mad_method req = IB_MAD_METHOD_SET → osm_mcmr_rcv_process subn s req = Some (SaRespond recs, s1) →
  check_join_comp_mask (comp_mask req) = true ∧ rate_is_valid req && mtu_is_valid req = true ∧
  prefix (mr_port_gid (own_prefix subn (mad_rec req))) = subnet_prefix subn.
Proof.
  intros Hm. unfold osm_mcmr_rcv_process. rewrite Hm.
  destruct (check_join_comp_mask (comp_mask req)); [|done]. cbn [negb].
  destruct (rate_is_valid req && mtu_is_valid req); [|done]. cbn [negb].
  unfold mcmr_rcv_join_mgrp.
  destruct (Z.eqb_spec (prefix (mr_port_gid (own_prefix subn (mad_rec req)))) (subnet_prefix subn)); done.
Qed.

(** The request that takes a join back. *)
Definition leave_of (req : sa_mad) : sa_mad :=
  SaMad IB_MAD_METHOD_DELETE (mad_lid req) (mad_sm_key req) (comp_mask req) (mad_rec req).

Lemma leave_of_process s req :
  check_join_comp_mask (comp_mask req) = true → rate_is_valid req && mtu_is_valid req = true →
  osm_mcmr_rcv_process subn s (leave_of req) = mcmr_rcv_leave_mgrp subn s (leave_of req).
Proof.
  intros H1 H2. unfold osm_mcmr_rcv_process. cbn [mad_method leave_of comp_mask].
  change (rate_is_valid (leave_of req)) with (rate_is_valid req).
  change (mtu_is_valid (leave_of req)) with (mtu_is_valid req). by rewrite H1, H2.
Qed.

(** A member that the port itself joined may leave with the bits it joined with. *)
Lemma validate_leave s g m port a mcmr p req :
  osm_get_port_by_mad_addr subn (mad_lid req) = Some p → sp_physp_guid p = port →
  mcm_ports s !! a = Some (McmPort port g) →
  mcm_alias_port_tbl m !! req_guid req = Some (osm_mcm_alias_guid_new a mcmr false) →
  prefix (mr_port_gid mcmr) = subnet_prefix subn →
  state_bits (mr_scope_state mcmr) = state_bits (req_state req) → state_bits (req_state req) ≠ 0 →
  validate_delete subn s m (mad_lid req) (own_prefix subn (mad_rec req)) = Some true.
Proof.
  intros Hp Hguid Hobj Hal Hpre Hbits Hne.
  destruct (own_prefix_fields subn (mad_rec req)) as (_ & P2 & P3).
  unfold validate_delete, validate_modify, osm_mgrp_get_mcm_alias_guid. rewrite P2, P3.
  fold (req_guid req) (req_state req). rewrite Hal. cbn [ma_scope_state osm_mcm_alias_guid_new].
  rewrite (Z.land_comm 0x0F). fold (state_bits (mr_scope_state mcmr)) (state_bits (req_state req)).
  assert (Z.land (state_bits (req_state req)) (mr_scope_state mcmr) = state_bits (req_state req)) as ->.
  { rewrite <- Hbits at 1. unfold state_bits.
    rewrite (Z.land_comm (mr_scope_state mcmr) 15), <- Z.land_assoc, Z.land_diag.
    rewrite Z.land_comm. exact Hbits. }
  rewrite Hbits, Z.lor_diag, Z.eqb_refl. apply Z.eqb_neq in Hne. rewrite Hne. cbn [negb].
  cbn [ma_proxy_join osm_mcm_alias_guid_new negb]. unfold osm_get_gid_by_mad_addr. rewrite Hp.
  cbn [mbind option_bind interface_id prefix p_base_mcm_port ma_port_gid osm_mcm_alias_guid_new].
  rewrite Hobj. cbn [mbind option_bind mp_port]. by rewrite Hguid, Hpre, !Z.eqb_refl.
Qed.

(** The lists after a join and what took at most its object out again. *)
Lemma lists_same s s2 g port m mcmr proxy :
  mc_wf s → mc_wf s2 → mc_wf (join_state_of s g port m mcmr proxy) → mcm_ports s2 = mcm_ports s →
  (∀ q, sublist (mcm_list_of s2 q) (mcm_list_of (join_state_of s g port m mcmr proxy) q)) →
  ∀ q, mcm_list_of s2 q = mcm_list_of s q.
Proof.
  intros W W2 W1 HP Hsub q. eapply sublist_same; [|apply Hsub| |].
  - apply (wf_list_nodup _ _ _ _ (mc_members _ W1)).
  - unfold mcm_list_of at 2. cbn. destruct (mcm_port_tbl m !! port); [done|].
    destruct (decide (port = q)) as [->|Hne]; [|by rewrite lookup_insert_ne].
    rewrite lookup_insert_eq. cbn. by apply sublist_inserts_r.
  - intros a. change (mcm_list_of ?s' q) with (list_of (mcm_list s') q).
    rewrite (wf_list _ _ _ _ (mc_members _ W2)), (wf_list _ _ _ _ (mc_members _ W)). by rewrite HP.
Qed.

(** The group after the join, from which the leave starts. *)
Lemma join_then_remove s g m port mcmr k rec :
  mc_wf s → mgrps s !! g = Some m → interface_id (mr_port_gid mcmr) = k →
  mcm_alias_port_tbl m !! k = None → full_members m + 1 < 2 ^ 32 →
  state_bits (mr_scope_state mcmr) = state_bits (mr_scope_state rec) →
  full_members m ≠ 0 ∨ is_full (mr_scope_state mcmr) = false →
  let a := join_addr s m port in
  ∃ rec' s2,
    osm_mgrp_remove_port (join_state_of s g port m mcmr false) g k rec = Some (false, rec', s2) ∧
    mgrps s2 = mgrps s ∧ mcm_ports s2 = mcm_ports s ∧ mgrp_mgid_tbl s2 = mgrp_mgid_tbl s ∧
    mboxes s2 = mboxes s ∧ ∀ q, mcm_list_of s2 q = mcm_list_of s q.
Proof.
  intros W Hg Ek Hk Hlt Hbits Hfull a.
  assert (Hat : alias_at m (interface_id (mr_port_gid mcmr)) port) by (rewrite Ek; intros old H; congruence).
  set (s1 := join_state_of s g port m mcmr false). set (m1 := join_mgrp m port a mcmr false).
  assert (W1 : mc_wf s1) by (by apply add_port_wf).
  assert (Hg1 : mgrps s1 !! g = Some m1) by apply lookup_insert_eq.
  set (al := joined m a mcmr false).
  assert (Hal : mcm_alias_port_tbl m1 !! k = Some al).
  { subst m1. cbn. rewrite Ek. apply lookup_insert_eq. }
  assert (Esc : ma_scope_state al = mr_scope_state mcmr) by (subst al; unfold joined; by rewrite Ek, Hk).
  set (js := mr_scope_state rec) in *.
  assert (Hleft : left_bits al js = 0) by (unfold left_bits; rewrite Esc, Hbits; apply leave_state_self).
  assert (Hlose : loses_full al js = newly_full m mcmr).
  { unfold loses_full, newly_full. by rewrite Hleft, Ek, Hk, Esc, full_state_bits. }
  destruct (remove_port_ok s1 g m1 k al rec W1 Hg1 Hal) as (s2 & R1 & W2 & R2 & _). fold js in R1, R2.
  assert (Hgone : loses_full al js && (full_members m1 =? 1) = false).
  { rewrite Hlose. subst m1. cbn. unfold newly_full. rewrite Ek, Hk. cbn [negb]. rewrite andb_true_r.
    destruct Hfull as [H| ->]; [|done]. destruct (is_full (mr_scope_state mcmr)); simpl; lia. }
  rewrite Hgone in R1, R2. eexists _, s2. split; [exact R1|].
  assert (HG : mgrps s2 = mgrps s).
  { rewrite R2. unfold after_leave, left_mgrp, left_members. rewrite (stays_none _ _ _ Hleft).
    replace (full_members m1 - Z.b2z (loses_full al js)) with (full_members m)
      by (rewrite Hlose; subst m1; cbn; lia).
    subst m1 al a. rewrite (join_undone s g m port mcmr false k) by done.
    cbn. rewrite insert_insert_eq. by apply insert_id. }
  destruct (ports_of_groups s s2 W W2 HG) as [HP HT]. destruct (remove_port_lists _ _ _ _ _ _ R1) as [Hbox Hsub].
  split_and!; [done..|]. by eapply lists_same.
Qed.

(** C18. Leaving undoes joining: a port that was not in a group and joins it for itself,
    with or without it having other members, and then leaves with the same request, is
    answered both times, and the groups with their members, the objects of the members,
    every port's list of them, the boxes of the MLIDs and the table by MGID are what they
    were before.  A port that joins as a full member must find the counter of full
    members not zero: otherwise its leave takes the group away. *)
Theorem join_leave_roundtrip s req g m p recs s1 :
  max_mcast_lid_ho subn ≤ IB_LID_MCAST_END_HO → sa_wf subn s → room s →
  mad_method req = IB_MAD_METHOD_SET →
  mgrp_mgid_tbl s !! req_mgid req = Some g → mgrps s !! g = Some m →
  mcm_alias_port_tbl m !! req_guid req = None →
  osm_get_port_by_mad_addr subn (mad_lid req) = Some p →
  alias_port_guid_tbl subn !! req_guid req = Some p → sp_physp_guid p = sp_guid p →
  full_members m ≠ 0 ∨ is_full (req_state req) = false →
  osm_mcmr_rcv_process subn s req = Some (SaRespond recs, s1) →
  ∃ recs2 s2, osm_mcmr_rcv_process subn s1 (leave_of req) = Some (SaRespond recs2, s2) ∧
    mgrps s2 = mgrps s ∧ mcm_ports s2 = mcm_ports s ∧ mgrp_mgid_tbl s2 = mgrp_mgid_tbl s ∧
    mboxes s2 = mboxes s ∧ ∀ q, mcm_list_of s2 q = mcm_list_of s q.
Proof.
  intros Hfit W Hroom Hmeth HT Hg Hk Hp Halias Hguid Hfull Hproc.
  destruct (join_checks _ _ _ _ Hmeth Hproc) as (C1 & C2 & C3). rewrite leave_of_process by done.
  destruct (process_outcome subn Hfit s req W Hroom) as (reply1 & s1' & E & Ho).
  rewrite Hproc in E. injection E as <- <-. inversion Ho as
    [? ? _ _ Hr|s0 g' m' is_new p_port proxy mcmr _ Hfound W1 Hg1 Hport Hat Hlt Hpx Hb Egid Esc _ _ Hrecs Hs1|
     ? ? ? ? Hm']; [destruct (Hr _ eq_refl); congruence| |congruence].
  clear Ho. destruct is_new; cbn in Hfound; [destruct Hfound as (_ & _ & HT' & _); congruence|].
  destruct Hfound as (-> & HT' & _ & _).
  assert (g' = g) as -> by congruence. assert (m' = m) as -> by congruence.
  assert (p_port = p) as -> by congruence.
  assert (proxy = false) as ->.
  { destruct Hpx as (p' & Hp' & ->). assert (p' = p) as -> by congruence. by rewrite Z.eqb_refl. }
  assert (Hbits : state_bits (mr_scope_state mcmr) = state_bits (req_state req)).
  { rewrite Esc. apply set_scope_state_bits. }
  assert (Ek : interface_id (mr_port_gid mcmr) = req_guid req) by (by rewrite Egid).
  destruct (own_prefix_fields subn (mad_rec req)) as (P1 & P2 & P3).
  destruct (join_then_remove s g m (sp_guid p) mcmr (req_guid req) (own_prefix subn (mad_rec req)))
    as (rec' & s2 & R1 & R2); [apply W|done|done|done|done| | |].
  { rewrite P3. exact Hbits. }
  { destruct Hfull as [H|H]; [by left|right]. rewrite <- full_state_bits, Hbits. by rewrite full_state_bits. }
  unfold mcmr_rcv_leave_mgrp. cbn [mad_rec leave_of mad_lid]. rewrite C3, Z.eqb_refl. cbn [negb].
  rewrite P1. unfold osm_get_mgrp_by_mgid.
  change (mgrp_mgid_tbl (join_state_of s g (sp_guid p) m mcmr false)) with (mgrp_mgid_tbl s).
  change (mr_mgid (mad_rec req)) with (req_mgid req). rewrite HT.
  assert (mgrps (join_state_of s g (sp_guid p) m mcmr false) !! g
    = Some (join_mgrp m (sp_guid p) (join_addr s m (sp_guid p)) mcmr false)) as ->
    by apply lookup_insert_eq.
  cbn [mbind option_bind].
  erewrite (validate_leave _ g _ (sp_guid p) (join_addr s m (sp_guid p)) mcmr p req); try done.
  - cbn [mbind option_bind negb]. rewrite P2.
    change (interface_id (mr_port_gid (mad_rec req))) with (req_guid req). rewrite R1.
    cbn [mbind option_bind]. eexists _, s2. split; [reflexivity|done].
  - destruct (add_port_wf s g m (sp_guid p) mcmr false) as [Wj _ _]; [apply W|done|by rewrite Ek|done|].
    eapply (wf_port _ _ _ _ Wj); [apply lookup_insert_eq|]. apply lookup_insert_eq.
  - cbn. rewrite Ek, lookup_insert_eq. unfold joined. by rewrite Ek, Hk.
  - by rewrite Egid.
Qed.
End Trip.
