(* ===== verification/McMemberNew.v ===== *)
(** * MCMemberRecord requests: the MTU and rate of a new group

    A request for a new group may bound its MTU and rate or leave them to the subnet
    manager.  What [mgrp_request_is_realizable] chooses meets the request's own bounds
    ([validate_more_comp_fields]) and, unless the request fixes the value, what the port
    can carry ([validate_port_caps]); when it refuses, nothing would. *)

From S2P Require Import Prelude IbTypes Pkey Rate Mgrp McMember.

Open Scope Z_scope.

(** ** Six bits and a selector *)

Lemma land_63 x : Z.land x 0x3F = x mod 64.
Proof. change 0x3F with (Z.ones 6). by rewrite Z.land_ones. Qed.

Lemma shiftr_6 x : Z.shiftr x 6 = x / 64.
Proof. by rewrite Z.shiftr_div_pow2. Qed.

Lemma selector_low sel x : 0 ≤ x < 64 → Z.land (Z.lor (Z.shiftl sel 6) x) 0x3F = x.
Proof.
  intros Hx. rewrite Z.land_lor_distr_l. change 0x3F with (Z.ones 6).
  rewrite (Z.land_ones x), (Z.land_ones (Z.shiftl sel 6)), Z.shiftl_mul_pow2 by lia.
  rewrite Z.mod_mul, Z.lor_0_l by lia. apply Z.mod_small. lia.
Qed.

Lemma exactly_low x : Z.land (exactly x) 0x3F = Z.land x 0x3F.
Proof.
  unfold exactly. rewrite Z.lor_comm, selector_low; [done|].
  rewrite land_63. apply Z.mod_pos_bound. lia.
Qed.

Section New.
Context {BO : ByteOrder} {FM : FmapMatch}.
Variable subn : sa_subn.
Implicit Types rec : ib_member_rec.
Implicit Types m : osm_mgrp.

(** ** The MTU *)

(** The MTU a request bounds, as its selector and value. *)
Definition mtu_ok rec (v : Z) : Prop :=
  selector_ok (Z.shiftr (mr_mtu rec) 6) (v - Z.land (mr_mtu rec) 0x3F) = true.

Definition has_mtu (mask : Z) : bool :=
  bits_set mask IB_MCR_COMPMASK_MTU && bits_set mask IB_MCR_COMPMASK_MTU_SEL.

Lemma new_group_mtu_default mask port_mtu rec :
  has_mtu mask = false → port_mtu ≠ 0 →
  new_group_mtu subn mask port_mtu rec = Some (Z.lor (Z.shiftl IB_PATH_SELECTOR_EXACTLY 6) port_mtu).
Proof.
  unfold has_mtu, new_group_mtu. intros H Hp. rewrite <- negb_andb, H. cbn [negb].
  apply Z.eqb_neq in Hp. by rewrite Hp.
Qed.

(** A value that is chosen is within the bounds of the request, and within the port's
    unless the request fixes it; with no choice there is no such value. *)
Lemma new_group_mtu_ok mask port_mtu rec :
  0 ≤ mr_mtu rec < 256 → 0 < port_mtu ≤ IB_MAX_MTU → has_mtu mask = true →
  match new_group_mtu subn mask port_mtu rec with
  | Some x => 0 ≤ Z.land x 0x3F < 64 ∧ mtu_ok rec (Z.land x 0x3F) ∧
      (Z.shiftr (mr_mtu rec) 6 ≠ 2 → Z.land x 0x3F ≤ port_mtu)
  | None => Z.shiftr (mr_mtu rec) 6 = 2 ∧ ib_mtu_is_valid (Z.land (mr_mtu rec) 0x3F) = false ∨
      ∀ v, IB_MIN_MTU ≤ v ≤ port_mtu → ¬ mtu_ok rec v
  end.
Proof.
  intros Hr Hp Hm. unfold has_mtu in Hm. unfold new_group_mtu. rewrite <- negb_andb, Hm.
  cbn [negb orb]. unfold mtu_ok. set (sel := Z.shiftr (mr_mtu rec) 6).
  set (req := Z.land (mr_mtu rec) 0x3F).
  assert (Hreq : 0 ≤ req < 64) by (unfold req; rewrite land_63; apply Z.mod_pos_bound; lia).
  assert (Hsel : sel = 0 ∨ sel = 1 ∨ sel = 2 ∨ sel = 3).
  { unfold sel. rewrite shiftr_6. Z.to_euclidean_division_equations; lia. }
  assert (Hpm : (port_mtu =? 0) = false) by lia. rewrite Hpm. unfold IB_MAX_MTU, IB_MIN_MTU in *.
  clearbody sel req. destruct_or! Hsel; subst sel; cbn [Z.eqb negb andb mbind option_bind selector_ok Pos.eqb].
  - destruct (Z.leb_spec port_mtu req) as [H|H]; cbn [mbind option_bind].
    + right. intros v Hv. rewrite Z.ltb_lt. lia.
    + rewrite (proj2 (orb_false_iff _ _)) by (split; lia). rewrite selector_low by lia.
      split_and!; [lia..|]. done.
  - destruct (Z.ltb_spec port_mtu req) as [H|H].
    + rewrite (proj2 (orb_false_iff _ _)) by (split; lia). rewrite selector_low by lia.
      split_and!; lia.
    + destruct (decide (req ≤ 1)) as [Hle|Hgt].
      * assert ((u8 (req - 1) <? 1) || (5 <? u8 (req - 1)) = true) as ->.
        { assert (req = 0 ∨ req = 1) as [-> | ->] by lia; reflexivity. }
        right. intros v Hv. rewrite Z.ltb_lt. lia.
      * rewrite u8_small by lia. rewrite (proj2 (orb_false_iff _ _)) by (split; lia).
        rewrite selector_low by lia. split_and!; lia.
  - destruct ((req <? 1) || (5 <? req)) eqn:E.
    + left. split; [done|]. unfold ib_mtu_is_valid, IB_MIN_MTU, IB_MAX_MTU. by rewrite E.
    + apply orb_false_iff in E. rewrite selector_low by lia. split_and!; [lia..|done].
  - rewrite selector_low by lia. split_and!; [lia..|done|done].
Qed.

(** ** The rate *)

Definition rate_bound rec (v : Z) : Prop :=
  selector_ok (Z.shiftr (mr_rate rec) 6) (ib_path_compare_rates v (Z.land (mr_rate rec) 0x3F)) = true.

Definition has_rate (mask : Z) : bool :=
  bits_set mask IB_MCR_COMPMASK_RATE && bits_set mask IB_MCR_COMPMASK_RATE_SEL.

Lemma new_group_rate_default mask port_rate rec :
  has_rate mask = false → port_rate ≠ 0 →
  new_group_rate subn mask port_rate rec = Some (IB_PATH_SELECTOR_EXACTLY, port_rate).
Proof.
  unfold has_rate, new_group_rate. intros H Hp. rewrite <- negb_andb, H. cbn [negb].
  apply Z.eqb_neq in Hp. by rewrite Hp.
Qed.

Lemma compare_sgn x y :
  rate_ok x → rate_ok y → ib_path_compare_rates x y = Z.sgn (rate_speed x - rate_speed y).
Proof. apply compare_rates_speed. Qed.

Lemma rate_not_zero r : rate_ok r → (r =? 0) = false.
Proof. unfold rate_ok, IB_MIN_RATE. lia. Qed.

Lemma new_group_rate_ok mask port_rate rec :
  0 ≤ mr_rate rec < 256 → rate_ok port_rate → has_rate mask = true →
  rate_ok (Z.land (mr_rate rec) 0x3F) →
  match new_group_rate subn mask port_rate rec with
  | Some (_, r) => rate_ok r ∧ rate_bound rec r ∧
      (Z.shiftr (mr_rate rec) 6 ≠ 2 → ib_path_compare_rates r port_rate ≤ 0)
  | None => ∀ v, rate_ok v → ib_path_compare_rates v port_rate ≤ 0 → ¬ rate_bound rec v
  end.
Proof.
  intros Hr Hp Hm Hreq. unfold has_rate in Hm. unfold new_group_rate. rewrite <- negb_andb, Hm.
  cbn [negb orb]. unfold rate_bound. set (sel := Z.shiftr (mr_rate rec) 6).
  set (req := Z.land (mr_rate rec) 0x3F) in *.
  assert (Hsel : sel = 0 ∨ sel = 1 ∨ sel = 2 ∨ sel = 3).
  { unfold sel. rewrite shiftr_6. Z.to_euclidean_division_equations; lia. }
  rewrite (rate_not_zero _ Hp).
  assert (Hrange : ∀ r, rate_ok r → (r <? IB_MIN_RATE) || (IB_MAX_RATE <? r) = false).
  { intros r [H1 H2]. apply orb_false_iff. lia. }
  clearbody sel req. destruct_or! Hsel; subst sel; cbn [Z.eqb negb mbind option_bind selector_ok Pos.eqb].
  - destruct (Z.leb_spec 0 (ib_path_compare_rates req port_rate)) as [H|H]; cbn [mbind option_bind].
    + intros v Hv Hvp. rewrite compare_sgn in H, Hvp by done. rewrite Z.ltb_lt, compare_sgn by done. lia.
    + rewrite Hrange by done. rewrite (compare_sgn port_rate port_rate) by done.
      rewrite Z.ltb_lt. rewrite compare_sgn in H |- * by done. split_and!; [done|lia|lia].
  - destruct (Z.ltb_spec 0 (ib_path_compare_rates req port_rate)) as [H|H].
    + rewrite Hrange by done. rewrite (compare_sgn port_rate port_rate) by done.
      rewrite Z.ltb_lt. rewrite compare_sgn in H |- * by done. split_and!; [done|lia|lia].
    + rewrite compare_sgn in H by done. destruct (decide (req = IB_MIN_RATE)) as [->|Hne].
      * change (ib_path_rate_get_prev IB_MIN_RATE) with 0. cbn [Z.ltb orb].
        assert ((0 <? IB_MIN_RATE) || (IB_MAX_RATE <? 0) = true) as -> by done.
        intros v Hv _. rewrite Z.ltb_lt, compare_sgn by done.
        pose proof (all_rates (λ v, rate_speed IB_MIN_RATE <=? rate_speed v) eq_refl v Hv) as Hmin.
        cbv beta in Hmin. lia.
      * destruct (rate_get_prev_slower req Hreq Hne) as (P1 & P2 & P3).
        rewrite Hrange by done. rewrite Z.ltb_lt, !compare_sgn by done. split_and!; [done|lia|lia].
  - rewrite Hrange by done. rewrite Z.eqb_eq, compare_sgn by done. split_and!; [done|lia|done].
  - rewrite (compare_sgn port_rate port_rate) by done. split_and!; [done|done|lia].
Qed.

(** ** The new group *)

(** The rate of the port. *)
Definition port_rate (pi : ib_port_info) : Z := ib_port_info_compute_rate pi (port_extended pi).

(** The MTU and the rate chosen for a request, with what the port has. *)
Lemma chosen_mtu mask port_mtu rec x :
  0 ≤ mr_mtu rec < 256 → 0 < port_mtu ≤ IB_MAX_MTU →
  (bits_set mask IB_MCR_COMPMASK_MTU_SEL = true → has_mtu mask = true) →
  new_group_mtu subn mask port_mtu rec = Some x →
  (bits_set mask IB_MCR_COMPMASK_MTU_SEL = true → mtu_ok rec (Z.land x 0x3F)) ∧
  ((has_mtu mask = true → Z.shiftr (mr_mtu rec) 6 ≠ 2) → Z.land x 0x3F ≤ port_mtu).
Proof.
  intros Hr Hp Hb Hx. destruct (has_mtu mask) eqn:Hm.
  - pose proof (new_group_mtu_ok mask port_mtu rec Hr Hp Hm) as H. rewrite Hx in H.
    destruct H as (_ & H1 & H2). split; [done|]. intros H. by apply H2, H.
  - rewrite (new_group_mtu_default _ _ _ Hm) in Hx by lia. injection Hx as <-.
    split; [intros H; by apply Hb in H|]. intros _. unfold IB_MAX_MTU in Hp.
    rewrite selector_low; lia.
Qed.

Lemma chosen_rate mask rec pi sel r :
  0 ≤ mr_rate rec < 256 →
  (bits_set mask IB_MCR_COMPMASK_RATE_SEL = true → has_rate mask = true) →
  (has_rate mask = true → rate_ok (Z.land (mr_rate rec) 0x3F)) →
  new_group_rate subn mask (port_rate pi) rec = Some (sel, r) →
  rate_ok r ∧ (bits_set mask IB_MCR_COMPMASK_RATE_SEL = true → rate_bound rec r) ∧
  ((has_rate mask = true → Z.shiftr (mr_rate rec) 6 ≠ 2) → ib_path_compare_rates r (port_rate pi) ≤ 0).
Proof.
  intros Hr Hb Hv Hx. pose proof (compute_rate_ok pi (port_extended pi)) as Hp.
  fold (port_rate pi) in Hp. destruct (has_rate mask) eqn:Hm.
  - pose proof (new_group_rate_ok mask _ rec Hr Hp Hm (Hv eq_refl)) as H. rewrite Hx in H.
    destruct H as (H1 & H2 & H3). split_and!; [done|done|]. intros H. by apply H3, H.
  - rewrite (new_group_rate_default _ _ _ Hm) in Hx by (unfold rate_ok, IB_MIN_RATE in Hp; lia).
    injection Hx as _ <-. split_and!; [done|intros H; by apply Hb in H|].
    intros _. rewrite compare_sgn by done. lia.
Qed.

(** C20. A group made for a request meets the request: its MTU and rate pass the
    request's own bounds, and, when the request fixes neither exactly, the port that asks
    can carry them; a request is refused for its MTU or rate only when no value the
    port can carry is within the bounds.  An exact value is taken as it is, above what
    the port has or not; the join of the port is checked against it later.  A selector
    comes with its value, and the option [max_rate_enum] does not cap the rates. *)
Theorem new_group_meets_request mask rec pi r :
  let req := SaMad IB_MAD_METHOD_SET 0 0 mask rec in
  0 ≤ mr_mtu rec < 256 → 0 ≤ mr_rate rec < 256 →
  0 < ib_port_info_get_neighbor_mtu pi ≤ IB_MAX_MTU →
  (bits_set mask IB_MCR_COMPMASK_MTU_SEL = true → has_mtu mask = true) →
  (bits_set mask IB_MCR_COMPMASK_RATE_SEL = true → has_rate mask = true) →
  mtu_is_valid req = true → rate_is_valid req = true → SA_RATE_MAX_ENUM ≤ max_rate_enum subn →
  mgrp_request_is_realizable subn mask rec (Some pi) = Some r →
  match r with
  | Some rec' => ∀ m, mcmember_rec m = with_exactly rec' →
      validate_more_comp_fields m rec mask = true ∧
      ((has_mtu mask = true → Z.shiftr (mr_mtu rec) 6 ≠ 2) →
       (has_rate mask = true → Z.shiftr (mr_rate rec) 6 ≠ 2) → validate_port_caps m pi = true)
  | None =>
      (∀ v, IB_MIN_MTU ≤ v ≤ ib_port_info_get_neighbor_mtu pi → ¬ mtu_ok rec v) ∨
      (∀ v, rate_ok v → ib_path_compare_rates v (port_rate pi) ≤ 0 → ¬ rate_bound rec v)
  end.
Proof.
  intros req Hmtu Hrate Hport Bm Br Vm Vr Hcap Hreal.
  assert (Hv : has_rate mask = true → rate_ok (Z.land (mr_rate rec) 0x3F)).
  { intros H. apply ib_rate_is_valid_iff. unfold rate_is_valid in Vr. cbn in Vr.
    rewrite andb_comm in Vr. unfold has_rate in H. by rewrite H in Vr. }
  unfold mgrp_request_is_realizable in Hreal. cbn [fmap option_fmap option_map default from_option id] in Hreal.
  fold (port_rate pi) in Hreal. unfold limited_rate in Hreal.
  rewrite (proj2 (Z.ltb_ge _ _) Hcap) in Hreal.
  destruct (new_group_mtu subn mask (ib_port_info_get_neighbor_mtu pi) rec) as [x|] eqn:Ex.
  - destruct (chosen_mtu _ _ _ _ Hmtu Hport Bm Ex) as [M1 M2].
    set (rec1 := rec <| mr_mtu := x |>) in *.
    destruct (new_group_rate subn mask (port_rate pi) rec1) as [[sel rate]|] eqn:Er.
    + destruct (chosen_rate mask rec1 pi sel rate Hrate Br Hv Er) as (R0 & R1 & R2).
      cbn [mbind option_bind] in Hreal. injection Hreal as <-. intros m Em.
      assert (E1 : Z.land (mr_mtu (mcmember_rec m)) 0x3F = Z.land x 0x3F) by (rewrite Em; apply exactly_low).
      assert (E2 : Z.land (mr_rate (mcmember_rec m)) 0x3F = rate).
      { rewrite Em. cbn. rewrite exactly_low. apply selector_low. unfold rate_ok, IB_MIN_RATE, IB_MAX_RATE in R0. lia. }
      split.
      * unfold validate_more_comp_fields. rewrite E1, E2. apply andb_true_iff. split.
        -- destruct (bits_set mask IB_MCR_COMPMASK_MTU_SEL); [by apply M1|done].
        -- destruct (bits_set mask IB_MCR_COMPMASK_RATE_SEL); [by apply R1|done].
      * intros S1 S2. specialize (M2 S1). specialize (R2 S2). unfold validate_port_caps. rewrite E1, E2.
        rewrite (proj2 (Z.ltb_ge _ _) M2). apply negb_true_iff, Z.ltb_ge.
        pose proof (compute_rate_ok pi (port_extended pi)) as Hp. fold (port_rate pi) in Hp |- *.
        rewrite compare_sgn in R2 |- * by done. lia.
    + injection Hreal as <-. right. destruct (has_rate mask) eqn:Hm.
      * pose proof (new_group_rate_ok mask (port_rate pi) rec1 Hrate
          (compute_rate_ok _ _) Hm (Hv eq_refl)) as H. by rewrite Er in H.
      * pose proof (compute_rate_ok pi (port_extended pi)) as Hp. fold (port_rate pi) in Hp.
        rewrite (new_group_rate_default _ _ _ Hm) in Er; [done|]. unfold rate_ok, IB_MIN_RATE in Hp. lia.
  - injection Hreal as <-. left. destruct (has_mtu mask) eqn:Hm.
    + pose proof (new_group_mtu_ok mask _ rec Hmtu Hport Hm) as H. rewrite Ex in H.
      destruct H as [[_ H]|H]; [|done]. unfold mtu_is_valid in Vm. cbn in Vm.
      rewrite andb_comm in Vm. unfold has_mtu in Hm. rewrite Hm in Vm. congruence.
    + rewrite (new_group_mtu_default _ _ _ Hm) in Ex by lia. done.
Qed.

(** Without a port to ask, a rate that is to be greater than one is never had. *)
Lemma greater_rate_needs_port mask rec :
  has_rate mask = true → Z.shiftr (mr_rate rec) 6 = 0 → rate_ok (Z.land (mr_rate rec) 0x3F) →
  new_group_rate subn mask 0 rec = None.
Proof.
  intros Hm Hs Hr. unfold new_group_rate. unfold has_rate in Hm. rewrite <- negb_andb, Hm, Hs.
  cbn [negb Z.eqb mbind option_bind].
  pose proof (all_rates (λ r, 0 <=? ib_path_compare_rates r 0) eq_refl _ Hr) as H. cbv beta in H.
  by rewrite H.
Qed.
End New.
