(* ===== verification/McTree.v ===== *)
(** * The table of the MGIDs as a tree

    [memcmp] orders the MGIDs, so that the trees of [complib/cl_map.c] hold them, and
    the search of such a tree with a coarser comparison is an instance of [FmapMatch].
    The comparison that joins MGIDs which differ in the last three bytes does not
    contradict the order. *)

From S2P Require Import Prelude QMap QMapInv QMapOk QMapPut QMapSpec McMember.

Open Scope Z_scope.

Definition mgid_ok (mgid : list Z) : Prop := length mgid = 16%nat.
#[export] Instance mgid_ok_dec mgid : Decision (mgid_ok mgid) := decide (length mgid = 16%nat).

(** ** The order of [memcmp] *)

Lemma memcmp_zero l1 : ∀ l2, length l1 = length l2 → memcmp l1 l2 = 0 ↔ l1 = l2.
Proof.
  induction l1 as [|x l1 IH]; intros [|y l2] Hlen; simplify_eq/=; [done|]. destruct (Z.eqb_spec x y) as [->|Hne].
  - rewrite IH by done. naive_solver.
  - split; [lia|]. intros [= ? _]. done.
Qed.

Lemma memcmp_opp l1 : ∀ l2, length l1 = length l2 → memcmp l1 l2 < 0 ↔ 0 < memcmp l2 l1.
Proof.
  induction l1 as [|x l1 IH]; intros [|y l2] Hlen; simplify_eq/=; [lia|]. rewrite (Z.eqb_sym y x).
  destruct (Z.eqb_spec x y) as [->|Hne]; [by apply IH|lia].
Qed.

Lemma memcmp_trans l1 : ∀ l2 l3, length l1 = length l2 → length l2 = length l3 →
  memcmp l1 l2 < 0 → memcmp l2 l3 < 0 → memcmp l1 l3 < 0.
Proof.
  induction l1 as [|x l1 IH]; intros [|y l2] [|z l3] H1 H2; simplify_eq/=; [lia|].
  destruct (Z.eqb_spec x y), (Z.eqb_spec y z), (Z.eqb_spec x z); subst; try lia; try done. by apply IH.
Qed.

#[export] Instance mgid_order : KeyOrder mgid_ok memcmp.
Proof.
  unfold mgid_ok. split; intros.
  - apply memcmp_zero. lia.
  - apply memcmp_opp. lia.
  - eapply memcmp_trans; [..|done|done]; lia.
Qed.

(** Comparing the first bytes only is coarser. *)
Lemma memcmp_take n l1 : ∀ l2, length l1 = length l2 → memcmp l1 l2 < 0 → memcmp (take n l1) (take n l2) ≤ 0.
Proof.
  revert n. induction l1 as [|x l1 IH]; intros [|n] [|y l2] Hlen H; simplify_eq/=; try lia.
  destruct (Z.eqb_spec x y) as [->|Hne]; [by apply IH|lia].
Qed.

Lemma memcmp_take_le n l1 l2 l3 : length l1 = length l2 → length l2 = length l3 → memcmp l2 l3 < 0 →
  (memcmp (take n l1) (take n l2) < 0 → memcmp (take n l1) (take n l3) < 0) ∧
  (0 < memcmp (take n l1) (take n l3) → 0 < memcmp (take n l1) (take n l2)).
Proof.
  intros H1 H2 H. pose proof (memcmp_take n _ _ H2 H) as H3.
  assert (Ht : ∀ a b : list Z, length a = length b → length (take n a) = length (take n b)) by (intros a b E; by rewrite !length_take, E).
  assert (memcmp (take n l2) (take n l3) < 0 ∨ take n l2 = take n l3) as [Hlt| ->]; [|..|done].
  { destruct (decide (memcmp (take n l2) (take n l3) = 0)) as [E|E]; [right; apply memcmp_zero in E; auto|left; lia]. }
  split.
  - intros H4. eapply memcmp_trans; [..|exact H4|exact Hlt]; apply Ht; lia.
  - intros H4. apply memcmp_opp; [apply Ht; lia|]. eapply memcmp_trans; [..|exact Hlt|]; [apply Ht; lia|apply Ht; lia|].
    apply memcmp_opp in H4; [exact H4|apply Ht; lia].
Qed.

(** ** The tree of a table *)

Definition mgid_mem (n : nat) : cl_mem (list Z) :=
  Mem (list_to_map ((λ a, (a, Links 0 0 0 CL_MAP_RED)) <$> seqZ 3 (Z.of_nat n)))
      (list_to_map ((λ a, (a, ListItem 0 0)) <$> seqZ 3 (Z.of_nat n))) ∅.

Definition mgid_tree (T : list (list Z * Z)) : option (cl_mem (list Z) * cl_qmap) :=
  '(M, q) ← cl_fmap_init (mgid_mem (length T)) 1 2;
  insert_all (cmp := memcmp) M q (zip T.*1 (seqZ 3 (Z.of_nat (length T)))).

Definition tree_match (T : list (list Z * Z)) (f : list Z → Z) : option Z :=
  '(M, q) ← mgid_tree T;
  p ← cl_fmap_match M q f;
  if p =? q_nil q then None else snd <$> T !! Z.to_nat (p - 3).

Lemma mgid_mem_at n a : a ∈ seqZ 3 (Z.of_nat n) → mem_links (mgid_mem n) !! a = Some (Links 0 0 0 CL_MAP_RED) ∧
  mem_list (mgid_mem n) !! a = Some (ListItem 0 0).
Proof.
  intros Ha. assert (∀ A (x : A), (list_to_map ((λ a, (a, x)) <$> seqZ 3 (Z.of_nat n)) : gmap Z A) !! a = Some x) as H.
  { intros A x. apply elem_of_list_to_map_1.
    - rewrite <- list_fmap_compose, list_fmap_id. apply NoDup_seqZ.
    - apply list_elem_of_fmap. by exists a. }
  split; apply H.
Qed.

(** The tree of a table has its MGIDs, each at an address of its own. *)
Lemma mgid_tree_ok T : NoDup T.*1 → Forall mgid_ok T.*1 →
  ∃ M q I, mgid_tree T = Some (M, q) ∧ map_at mgid_ok memcmp M q I ∧ q_nil q = 2 ∧
    I ≡ₚ zip T.*1 (seqZ 3 (Z.of_nat (length T))).
Proof.
  intros Hnd Hok. unfold mgid_tree. set (n := length T).
  destruct (init_ok (ok := mgid_ok) (cmp := memcmp) (mgid_mem n) 1 2) as (M0 & q0 & -> & H0 & Q1 & Q2 & Hk); [done|].
  cbn [mbind option_bind]. assert (Hlen : length T.*1 = length (seqZ 3 (Z.of_nat n))) by (rewrite length_fmap, length_seqZ; lia).
  destruct (insert_all_ok (zip T.*1 (seqZ 3 (Z.of_nat n))) M0 q0 [] H0) as (M & q & I & -> & H & HP & Q3 & Q4 & _).
  - by rewrite fst_zip by lia.
  - rewrite snd_zip by lia. apply NoDup_seqZ.
  - intros k a Hin. apply elem_of_zip_l in Hin as Hin1. apply elem_of_zip_r in Hin.
    destruct (mgid_mem_at n a Hin) as [L1 L2]. rewrite elem_of_seqZ in Hin.
    destruct (Hk a) as (K1 & K2 & _); [set_solver by lia|]. rewrite K1, K2, L1, L2. unfold footprint. rewrite Q1, Q2.
    rewrite Forall_forall in Hok. split_and!; [by apply Hok|set_solver| |done|done].
    rewrite !not_elem_of_cons. split_and!; [lia|lia|set_solver].
  - exists M, q, I. rewrite app_nil_r in HP. split_and!; [done|done|congruence|done].
Qed.

Lemma zip_lookup (T : list (list Z * Z)) k p : (k, p) ∈ zip T.*1 (seqZ 3 (Z.of_nat (length T))) →
  p ≠ 2 ∧ ∃ g, T !! Z.to_nat (p - 3) = Some (k, g).
Proof.
  intros Hin. apply list_elem_of_lookup in Hin as [i Hi]. apply lookup_zip_Some in Hi as [H1 H2].
  apply lookup_seqZ in H2 as [-> Hi]. replace (Z.to_nat (3 + Z.of_nat i - 3)) with i by lia.
  rewrite list_lookup_fmap in H1. destruct (T !! i) as [[k' g]|]; [|done]. injection H1 as ->. split; [lia|by exists g].
Qed.

(** The search of the tree. *)
Lemma tree_match_ok T f : NoDup T.*1 → Forall mgid_ok T.*1 →
  (∀ g, tree_match T f = Some g → ∃ k, (k, g) ∈ T ∧ f k = 0) ∧
  ((∀ y y', mgid_ok y → mgid_ok y' → memcmp y y' < 0 → (f y < 0 → f y' < 0) ∧ (0 < f y' → 0 < f y)) →
   tree_match T f = None → ∀ k g, (k, g) ∈ T → f k ≠ 0).
Proof.
  intros Hnd Hok. destruct (mgid_tree_ok T Hnd Hok) as (M & q & I & E & H & Hq & HP). unfold tree_match. rewrite E.
  cbn [mbind option_bind]. destruct (match_ok _ _ _ f H) as (p & -> & Hcase). cbn [mbind option_bind].
  assert (Hz : ∀ k, (k, p) ∈ I → p ≠ 2 ∧ ∃ g, T !! Z.to_nat (p - 3) = Some (k, g)) by (intros k; rewrite HP; apply zip_lookup).
  rewrite Hq. destruct Hcase as [[-> Hcase]|(k & Hin & H0)].
  - rewrite Hq. simpl. split; [done|]. intros Hf _ k g Hin.
    specialize (Hcase (at_mono _ _ _ _ H Hf)). intros H0.
    assert (∃ a, (k, a) ∈ I) as [a Ha].
    { apply list_elem_of_lookup in Hin as [i Hi]. exists (3 + Z.of_nat i). rewrite HP.
      apply list_elem_of_lookup. exists i. apply lookup_zip_Some. split; [by rewrite list_lookup_fmap, Hi|].
      apply lookup_seqZ. split; [done|]. apply lookup_lt_Some in Hi. lia. }
    assert ((k, a) ∈ filter (λ e : list Z * Z, f e.1 = 0) I) as Hx by (by apply list_elem_of_filter).
    rewrite Hcase in Hx. by apply not_elem_of_nil in Hx.
  - destruct (Hz _ Hin) as (Hne & g & Hg). rewrite (proj2 (Z.eqb_neq _ _)) by done. rewrite Hg. simpl. split; [|done].
    intros g' [= <-]. exists k. split; [by eapply list_elem_of_lookup_2|done].
Qed.

(** ** The instance

    A table whose keys are not all MGIDs is searched in any order. *)
Definition table_match (T : gmap (list Z) Z) (f : list Z → Z) : option Z :=
  if decide (Forall mgid_ok (map_to_list T).*1) then tree_match (map_to_list T) f
  else snd <$> head (filter (λ e, f e.1 = 0) (map_to_list T)).

#[export] Program Instance tree_fmap_match : FmapMatch := { mgid_tbl_match := table_match }.
Next Obligation.
  intros T f g. unfold table_match. destruct (decide _) as [Hok|Hok].
  - intros H. destruct (tree_match_ok _ f (NoDup_fst_map_to_list T) Hok) as [Hs _].
    destruct (Hs _ H) as (k & Hin & H0). exists k. by apply elem_of_map_to_list in Hin.
  - intros H. destruct (filter _ _) as [|[k g'] l] eqn:E; [done|]. injection H as ->. exists k.
    assert ((k, g) ∈ filter (λ e : list Z * Z, f e.1 = 0) (map_to_list T)) as [H0 Hin]%list_elem_of_filter by (rewrite E; left).
    by apply elem_of_map_to_list in Hin.
Qed.
Next Obligation.
  intros T f x g HT Hf. unfold table_match. rewrite decide_True.
  - intros H Hx. apply elem_of_map_to_list in Hx.
    destruct (tree_match_ok (map_to_list T) f) as [_ Hc]; [apply NoDup_fst_map_to_list| |by eapply Hc].
    apply Forall_forall. intros k ([k' h] & -> & Hin)%list_elem_of_fmap. apply elem_of_map_to_list in Hin. by eapply HT.
  - apply Forall_forall. intros k ([k' h] & -> & Hin)%list_elem_of_fmap. apply elem_of_map_to_list in Hin. by eapply HT.
Qed.

(** The search for a group whose MGID is the same but for the last bytes finds one if
    there is one. *)
Lemma find_snm_complete (T : gmap (list Z) Z) mgid x g : mgid_ok mgid →
  (∀ y h, T !! y = Some h → mgid_ok y) →
  mgid_tbl_match T (compare_ipv6_snm_mgids mgid) = None → T !! x = Some g → take 13 mgid ≠ take 13 x.
Proof.
  intros Hm HT Hn Hx E. apply (mgid_tbl_match_complete T (compare_ipv6_snm_mgids mgid) x g HT) in Hn; [|intros y y' Hy Hy'|done].
  - apply Hn. unfold compare_ipv6_snm_mgids. apply memcmp_zero; by rewrite E.
  - apply memcmp_take_le; unfold mgid_ok in *; lia.
Qed.
