(* ===== verification/McMemberEx.v ===== *)
(** * MCMemberRecord requests: where the membership is lost, and examples

    Three ways the handlers lose track of a group, each stated for any state and run on
    a small subnet, and the subnet on which the properties of the other files are
    tried: two ports, one of them with an alias GUID. *)

From S2P Require Import Prelude IbTypes Pkey Rate Mgrp MgrpOk MgrpOps MgrpDrop.
From S2P Require Import McMember McMemberOk McMemberThm McMemberSpec McMemberTrip McMemberNew McTree.

Open Scope Z_scope.

Section Lost.
Context {BO : ByteOrder}.
Implicit Types s : mc_subn.
Implicit Types m : osm_mgrp.

(** ** A full member that is never counted out *)

Lemma left_bits_testbit al js i :
  0 ≤ i < 4 → Z.testbit (left_bits al js) i = Z.testbit (ma_scope_state al) i && negb (Z.testbit js i).
Proof.
  intros Hi. unfold left_bits, leave_state, state_bits.
  rewrite Z.land_spec, Z.lnot_spec, !Z.land_spec by lia. change 0x0f with (Z.ones 4).
  rewrite Z.ones_spec_low by lia. by rewrite !andb_true_r.
Qed.

Lemma land_1 x : Z.land x 1 = Z.b2z (Z.testbit x 0).
Proof. change 1 with (Z.ones 1) at 1. rewrite Z.land_ones by lia. change (2 ^ 1) with 2. by rewrite <- Z.bit0_mod. Qed.

(** C40. When the only full member of a group joined both as a full and as a
    send-only full member and leaves with the FULL bit alone, its entry is removed although
    it still has the other bit, and the counter is left alone because it has: the group
    stays without a full member, though others may be in it, with a counter of one, and
    is not cleaned up. *)
Theorem full_member_leaked s g m k al rec :
  mc_wf s → mgrps s !! g = Some m → mcm_alias_port_tbl m !! k = Some al → full_members m = 1 →
  Z.testbit (ma_scope_state al) 0 = true → Z.testbit (ma_scope_state al) 3 = true →
  Z.testbit (mr_scope_state rec) 0 = true → Z.testbit (mr_scope_state rec) 3 = false →
  ∃ rec' s' m', osm_mgrp_remove_port s g k rec = Some (false, rec', s') ∧ mgrps s' !! g = Some m' ∧
    mcm_alias_port_tbl m' = delete k (mcm_alias_port_tbl m) ∧ full_members m' = 1 ∧
    fulls (mcm_alias_port_tbl m') = 0 ∧ osm_mgrp_cleanup s' g = Some s'.
Proof.
  intros W Hg Hk Hn A0 A3 R0 R3.
  destruct (remove_port_ok s g m k al rec W Hg Hk) as (s' & E & W' & HG & _).
  set (js := mr_scope_state rec) in *.
  pose proof (left_bits_testbit al js 0 ltac:(lia)) as L0. rewrite A0, R0 in L0.
  pose proof (left_bits_testbit al js 3 ltac:(lia)) as L3. rewrite A3, R3 in L3.
  assert (Hlose : loses_full al js = false).
  { unfold loses_full. rewrite (full_bits (left_bits al js)), L3, orb_true_r. apply andb_false_r. }
  assert (Hstay : stays m al js = false).
  { unfold stays, keeps_member, bits_set. change IB_JOIN_STATE_FULL with 1. rewrite !land_1, L0, Hn.
    unfold state_bits. rewrite Z.land_spec, A0. cbn. apply andb_false_r. }
  rewrite Hlose in E, HG. cbn [andb after_leave] in E, HG.
  unfold left_mgrp, left_members in HG. rewrite Hstay, Hlose in HG.
  eexists _, s', _. split; [exact E|]. rewrite HG. split; [apply lookup_insert_eq|].
  assert (Hfull : ma_full al = true) by (unfold ma_full; by rewrite full_bits, A0).
  pose proof (mc_full _ W _ _ Hg) as Hf. unfold full_wf in Hf.
  pose proof (fulls_delete _ _ _ Hk) as Hd. rewrite Hfull in Hd. simpl in Hd.
  pose proof (fulls_nonneg (delete k (mcm_alias_port_tbl m))).
  split_and!; [done|cbn; lia|cbn; lia|].
  eapply mgrp_cleanup_keeps; [rewrite HG; apply lookup_insert_eq|cbn; lia].
Qed.

(** ** A member whose GUID went to another port *)

(** A join for a GID that is a member on another port than the one it now belongs
    to, of a port the group does not have, reads the new entry after
    [insert_alias_guid] freed it. *)
Theorem moved_alias_freed s g m port mcmr proxy old :
  mgrps s !! g = Some m → mcm_port_tbl m !! port = None →
  mcm_alias_port_tbl m !! interface_id (mr_port_gid mcmr) = Some old →
  osm_mgrp_add_port s g port mcmr proxy = None.
Proof.
  intros Hg Hp Hk. unfold osm_mgrp_add_port. rewrite Hg. cbn [mbind option_bind]. rewrite Hp.
  unfold insert_alias_guid. cbn [alias_guid osm_mcm_alias_guid_new]. by rewrite Hk.
Qed.

(** ** A member that is told it stays in a group that is gone *)

(** The last full member that keeps another bit is kept, then goes with the group; the
    reply has the bit. *)
Lemma gone_group_reply s g m k al rec :
  mc_wf s → mgrps s !! g = Some m → mcm_alias_port_tbl m !! k = Some al → full_members m = 1 →
  well_known m = false →
  let js := mr_scope_state rec in
  stays m al js = true → loses_full al js = true →
  ∃ rec' s', osm_mgrp_remove_port s g k rec = Some (true, rec', s') ∧ mgrps s' = delete g (mgrps s) ∧
    state_bits (mr_scope_state rec') = left_bits al js ∧ left_bits al js ≠ 0.
Proof.
  intros W Hg Hk Hn Hwk js Hst Hl.
  destruct (remove_port_ok s g m k al rec W Hg Hk) as (s' & E & W' & HG & _). fold js in E, HG.
  rewrite Hl, Hn in E, HG. cbn [andb Z.eqb Pos.eqb] in E, HG. eexists _, s'. split; [exact E|].
  destruct (left_members_fields m k al js) as (_ & _ & F3 & _). split_and!.
  - rewrite HG. unfold after_leave, left_mgrp. cbn. by rewrite F3, Hwk.
  - rewrite Hst. cbn. apply (left_alias_bits al js).
  - by eapply stays_left.
Qed.
End Lost.

(** ** A small subnet *)

#[local] Instance ex_mc_order : ByteOrder := true.

Definition ex_pkeys : osm_pkey_tbl :=
  (osm_pkey_tbl_set (PkeyTbl ∅ [] [] ∅ 0 0 0 0 0) 0 [0xffff] false true).2.
Definition ex_link : ib_port_info := PortInfo 0x40 2 0x40 0 0.
Definition ex_port (guid : Z) : sa_port := SaPort guid (Physp guid ex_pkeys) guid ex_link.
Definition ex_prefix : Z := cl_hton64 0xFE80000000000001.

(** GUID 17 is an alias of the port [of_17]. *)
Definition ex_subn (of_17 : Z) : sa_subn :=
  SaSubn {[1 := ex_port 1; 2 := ex_port 2; 17 := ex_port of_17]}
    [None; Some (ex_port 1); Some (ex_port 2)] ex_prefix false false true false 63 4 3 0xC0FF.

Definition ex_mgid (last : Z) : list Z :=
  [0xff; 0x12; 0x60; 0x1b; 0xff; 0xff; 0; 0; 0; 0; 0; 1; 0xff; 0; 0; last].

Definition ex_rec (mgid : list Z) (guid join_state : Z) : ib_member_rec :=
  MemberRec mgid (Gid ex_prefix guid) 0 0 0 0 0xffff 0 0 0 join_state false.

(** A Set from the port with the LID for the GUID. *)
Definition ex_join (lid : Z) (mgid : list Z) (guid join_state : Z) : sa_mad :=
  SaMad IB_MAD_METHOD_SET (cl_hton16 lid) 0 REQUIRED_MC_CREATE_COMP_MASK (ex_rec mgid guid join_state).
Definition ex_leave (lid : Z) (mgid : list Z) (guid join_state : Z) : sa_mad :=
  leave_of (ex_join lid mgid guid join_state).

Definition mc_empty : mc_subn := McSubn ∅ ∅ 0 ∅ ∅ ∅ false 0 [].

Lemma mc_empty_wf subn : sa_wf subn mc_empty.
Proof.
  split; [constructor|done]; [constructor|constructor|done]; try done.
  - intros p. constructor.
  - intros p a. cbn. split; [intros H; by apply not_elem_of_nil in H|by intros [g H]].
  - intros x g. cbn. rewrite fmap_empty. split; [done|by intros (id & H & _)].
Qed.

(** The state after some inputs. *)
Definition ex_after (subn : sa_subn) (s : mc_subn) (es : list mc_input) : mc_subn :=
  match serve subn s es with Some (_, s) => s | None => s end.

(** *** The answers *)

Definition ex_status (r : option (sa_reply * mc_subn)) : option (list Z) :=
  match r with
  | Some (SaRespond recs, _) => Some (mr_scope_state <$> recs)
  | Some (SaError st, _) => Some [- st]
  | Some (NoReply, _) => Some []
  | None => None
  end.

(** Port 1 makes a group, port 2 joins it without being full, port 1 leaves it. *)
Definition ex_inputs : list mc_input :=
  [Request (ex_join 1 (ex_mgid 1) 1 1); Request (ex_join 2 (ex_mgid 1) 2 4); DropPort 2;
   Request (ex_leave 1 (ex_mgid 1) 1 1)].

Lemma ex_serve_answers : ∃ replies s,
  serve (ex_subn 1) mc_empty ex_inputs = Some (replies, s) ∧ mgrps s = ∅ ∧
  (λ r, ex_status (Some (r, s))) <$> replies = [Some [1]; Some [4]; Some []; Some [0]].
Proof. eexists _, _. split_and!; vm_compute; reflexivity. Qed.

(** The states the requests of an example lead to are sound. *)
Lemma ex_sound es :
  Z.of_nat (length es) < 100 →
  sa_wf (ex_subn 1) (ex_after (ex_subn 1) mc_empty es) ∧ settled (ex_after (ex_subn 1) mc_empty es) ∧
  room (ex_after (ex_subn 1) mc_empty es).
Proof.
  intros H. destruct (serve_ok (ex_subn 1) ltac:(vm_compute; discriminate) es 0 mc_empty)
    as (r & s & E & _ & W & Hs & Hb); [lia|lia|apply mc_empty_wf|done|done|].
  unfold ex_after. rewrite E. split_and!; [done|done|]. eapply fulls_below_room; [exact Hb|lia].
Qed.

Lemma ex_fit : max_mcast_lid_ho (ex_subn 1) ≤ IB_LID_MCAST_END_HO.
Proof. vm_compute. discriminate. Qed.

(** Two members of the first group, the second not full; the first is a member both
    as a full and as a send-only full member; a proxy join of the alias GUID. *)
Definition ex_two : mc_subn := ex_after (ex_subn 1) mc_empty (take 2 ex_inputs).
Definition ex_both : mc_subn :=
  ex_after (ex_subn 1) mc_empty [Request (ex_join 1 (ex_mgid 1) 1 9)].
Definition ex_proxy : mc_subn :=
  ex_after (ex_subn 1) mc_empty
    [Request (ex_join 1 (ex_mgid 1) 1 1); Request (ex_join 2 (ex_mgid 1) 17 1)].

Definition ex_group (s : mc_subn) : osm_mgrp := default (Mgrp 0 ∅ ∅ (ex_rec [] 0 0) false 0) (mgrps s !! 0).
Definition ex_member (s : mc_subn) (guid : Z) : osm_mcm_alias_guid :=
  default (McmAlias 0 0 (Gid 0 0) 0 false) (mcm_alias_port_tbl (ex_group s) !! guid).
Definition ex_result (r : option (sa_reply * mc_subn)) : sa_reply * mc_subn :=
  default (NoReply, mc_empty) r.

(** *** The properties on the subnet *)

Lemma serve_answers_witness : ∃ replies s',
  serve (ex_subn 1) mc_empty ex_inputs = Some (replies, s') ∧ length replies = 4%nat ∧
  sa_wf (ex_subn 1) s' ∧ settled s' ∧
  ∀ g m, mgrps s' !! g = Some m → fulls (mcm_alias_port_tbl m) ≤ full_members m.
Proof.
  apply (serve_answers (ex_subn 1) ex_fit ex_inputs 0 mc_empty); try (cbn; lia).
  - apply mc_empty_wf.
  - done.
  - done.
Defined.

Lemma drop_port_groups_ends_witness : ∃ s',
  drop_port_groups 1 ex_two 2 = Some s' ∧ mc_wf s' ∧ settled s' ∧
  mcm_list_of s' 2 = [] ∧ ∀ g m, mgrps s' !! g = Some m → mcm_port_tbl m !! 2 = None.
Proof.
  destruct (ex_sound (take 2 ex_inputs) eq_refl) as ([W _] & Hs & _).
  apply (drop_port_groups_ends ex_two 2 1); [exact W|exact Hs|]. vm_compute. lia.
Defined.


(** The three kinds of reply, with what decides them. *)
Lemma ex_three_replies :
  granted (ex_subn 1) ex_two (ex_leave 2 (ex_mgid 1) 2 4) ∧
  unanswered (ex_subn 1) (ex_join 3 (ex_mgid 1) 2 4) ∧
  ex_status (osm_mcmr_rcv_process (ex_subn 1) ex_two (ex_leave 2 (ex_mgid 1) 2 4)) = Some [0] ∧
  ex_status (osm_mcmr_rcv_process (ex_subn 1) ex_two (ex_join 3 (ex_mgid 1) 2 4)) = Some [] ∧
  ex_status (osm_mcmr_rcv_process (ex_subn 1) ex_two (ex_leave 1 (ex_mgid 1) 2 4))
    = Some [- IB_SA_MAD_STATUS_REQ_INVALID].
Proof.
  split.
  { split; [vm_compute; reflexivity|]. split; [vm_compute; reflexivity|].
    exists 0, (ex_group ex_two), (ex_member ex_two 2). split; [vm_compute; reflexivity|].
    split; [vm_compute; reflexivity|]. split; [vm_compute; reflexivity|].
    split; [vm_compute; discriminate|]. split; [vm_compute; reflexivity|].
    exists (ex_port 2). split; [vm_compute; reflexivity|]. vm_compute. by split. }
  split; [|vm_compute; done]. split; [vm_compute; reflexivity|].
  split; [vm_compute; reflexivity|]. split; [vm_compute; reflexivity|]. by eexists.
Qed.

(** Port 1 asks port 2's GUID out of the group and is refused. *)
Lemma member_changed_by_owner_witness :
  let req := ex_leave 1 (ex_mgid 1) 2 4 in
  let r := ex_result (osm_mcmr_rcv_process (ex_subn 1) ex_two req) in
  let m := ex_group ex_two in
  r.1 = SaError (IB_SA_MAD_STATUS_REQ_INVALID) ∧
  ((∃ m', mgrps r.2 !! 0 = Some m' ∧ mcm_alias_port_tbl m' !! 2 = Some (ex_member ex_two 2)) ∨
   (2 = req_guid req ∧ may_modify (ex_subn 1) ex_two 0 m (ex_member ex_two 2) (mad_lid req)) ∨
   (mad_method req = IB_MAD_METHOD_DELETE ∧ full_members m = 1 ∧
    ∃ al', mcm_alias_port_tbl m !! req_guid req = Some al' ∧ ma_full al' = true ∧
      may_modify (ex_subn 1) ex_two 0 m al' (mad_lid req))).
Proof.
  intros req r m. split; [vm_compute; reflexivity|].
  destruct (ex_sound (take 2 ex_inputs) eq_refl) as (W & _ & Hr).
  apply (member_changed_by_owner (ex_subn 1) ex_two req r.1 r.2 0 m 2 (ex_member ex_two 2) ex_fit W Hr);
    vm_compute; reflexivity.
Defined.

Lemma mlids_shared_only_by_option_witness :
  let req := ex_join 1 (ex_mgid 2) 1 1 in
  let r := ex_result (osm_mcmr_rcv_process (ex_subn 1) mc_empty req) in
  size (mgrps r.2) = 1%nat ∧ mlids_ok (ex_subn 1) r.2 ∧
  (consolidate_ipv6_snm_req (ex_subn 1) = false →
   ∀ i b, mboxes r.2 !! i = Some b → ∃ g, mb_mgrp_list b = [g]).
Proof.
  intros req r. split; [vm_compute; reflexivity|].
  apply (mlids_shared_only_by_option (ex_subn 1) mc_empty req r.1 r.2 ex_fit (mc_empty_wf _)).
  - done.
  - split; done.
  - reflexivity.
  - vm_compute. reflexivity.
Defined.

Lemma join_leave_roundtrip_witness :
  let s := ex_after (ex_subn 1) mc_empty (take 1 ex_inputs) in
  let req := ex_join 2 (ex_mgid 1) 2 4 in
  let s1 := (ex_result (osm_mcmr_rcv_process (ex_subn 1) s req)).2 in
  ∃ recs2 s2, osm_mcmr_rcv_process (ex_subn 1) s1 (leave_of req) = Some (SaRespond recs2, s2) ∧
    mgrps s2 = mgrps s ∧ mcm_ports s2 = mcm_ports s ∧ mgrp_mgid_tbl s2 = mgrp_mgid_tbl s ∧
    mboxes s2 = mboxes s ∧ ∀ q, mcm_list_of s2 q = mcm_list_of s q.
Proof.
  intros s req s1. destruct (ex_sound (take 1 ex_inputs) eq_refl) as (W & _ & Hr).
  apply (join_leave_roundtrip (ex_subn 1) s req 0 (ex_group s) (ex_port 2)
    [with_exactly (ex_group s).(mcmember_rec) <| mr_scope_state := 4 |>
       <| mr_port_gid := Gid ex_prefix 2 |>] s1 ex_fit W Hr);
    try (vm_compute; reflexivity).
  right. vm_compute. reflexivity.
Defined.

(** A request for an MTU above 1024 bytes and a rate below 100 Gb/s, on a 4x EDR port. *)
Lemma new_group_meets_request_witness :
  let mask := foldr Z.lor 0 [IB_MCR_COMPMASK_MTU; IB_MCR_COMPMASK_MTU_SEL; IB_MCR_COMPMASK_RATE;
    IB_MCR_COMPMASK_RATE_SEL] in
  let rec := (ex_rec (ex_mgid 1) 1 1) <| mr_mtu := 0x03 |> <| mr_rate := 0x40 + 16 |> in
  ∃ rec', mgrp_request_is_realizable (ex_subn 1) mask rec (Some ex_link) = Some (Some rec') ∧
    ∀ m, mcmember_rec m = with_exactly rec' →
      validate_more_comp_fields m rec mask = true ∧
      ((has_mtu mask = true → Z.shiftr (mr_mtu rec) 6 ≠ 2) →
       (has_rate mask = true → Z.shiftr (mr_rate rec) 6 ≠ 2) → validate_port_caps m ex_link = true).
Proof.
  intros mask rec. eexists. split; [vm_compute; reflexivity|].
  eapply (new_group_meets_request (ex_subn 1) mask rec ex_link (Some _));
    try (vm_compute; (reflexivity || discriminate || split; (reflexivity || discriminate)));
    try (intros _; vm_compute; reflexivity).
Defined.

Lemma full_member_leaked_witness :
  let rec := ex_rec (ex_mgid 1) 1 1 in
  ∃ rec' s' m', osm_mgrp_remove_port ex_both 0 1 rec = Some (false, rec', s') ∧
    mgrps s' !! 0 = Some m' ∧ mcm_alias_port_tbl m' = delete 1 (mcm_alias_port_tbl (ex_group ex_both)) ∧
    full_members m' = 1 ∧ fulls (mcm_alias_port_tbl m') = 0 ∧ osm_mgrp_cleanup s' 0 = Some s'.
Proof.
  intros rec. destruct (ex_sound [Request (ex_join 1 (ex_mgid 1) 1 9)] eq_refl) as ([W _] & _).
  apply (full_member_leaked ex_both 0 (ex_group ex_both) 1 (ex_member ex_both 1) rec W);
    vm_compute; reflexivity.
Defined.

(** Port 2 joined for the alias GUID of port 1; the GUID goes to port 2, which has no
    entry in the group and joins with it. *)
Lemma moved_alias_freed_witness :
  osm_mgrp_add_port ex_proxy 0 2 (mad_rec (ex_join 2 (ex_mgid 1) 17 1)) false = None.
Proof.
  apply (moved_alias_freed ex_proxy 0 (ex_group ex_proxy) 2 _ false (ex_member ex_proxy 17));
    vm_compute; reflexivity.
Defined.

Lemma ex_moved_request :
  osm_mcmr_rcv_process (ex_subn 2) ex_proxy (ex_join 2 (ex_mgid 1) 17 1) = None.
Proof. vm_compute. reflexivity. Qed.
