(* ===== verification/LidMgr.v ===== *)
(** * The LID manager: [opensm/osm_lid_mgr.c]

    The state of the manager is its free ranges, its array of used LIDs (the set
    of the LIDs that are marked), the table [port_lid_tbl] of the subnet and the
    persistent map from GUIDs to LIDs.  The manager is written against the
    interface [Guid2Lid] of that map, which [DbPack.v] implements.

    Allocations of list cells and table entries are taken to succeed. *)

From S2P Require Import Prelude IbTypes PtrVector.

Open Scope Z_scope.

Definition IB_LID_UCAST_START_HO : Z := 0x0001.
Definition IB_LID_UCAST_END_HO : Z := 0xBFFF.

(** [lia] with the bounds of the unicast LIDs. *)
Ltac lid_lia := unfold IB_LID_UCAST_END_HO, IB_LID_UCAST_START_HO in *; simpl in *; lia.

(** ** The interface of the persistent map *)

Class Guid2LidOps (D : Type) := {
  osm_db_clear : D → D;
  osm_db_restore : D → D;  (* what the domain holds after reading its file *)
  osm_db_guid2lid_guids : D → list Z;
  osm_db_guid2lid_get : D → Z → option (Z * Z);
  osm_db_guid2lid_set : D → Z → Z → Z → D;
  osm_db_guid2lid_delete : D → Z → D
}.

(** A GUID in host order; a LID the map can hold. *)
Definition guid_ok (guid : Z) : Prop := 0 ≤ guid < 2 ^ 64.
Definition lid_ok (lid : Z) : Prop := 0 ≤ lid ≤ IB_LID_UCAST_END_HO.

Class Guid2Lid (D : Type) `{Guid2LidOps D} := {
  g2l_get_clear d guid : osm_db_guid2lid_get (osm_db_clear d) guid = None;
  g2l_get_set_eq d guid min_lid max_lid :
    guid_ok guid → lid_ok min_lid → lid_ok max_lid →
    osm_db_guid2lid_get (osm_db_guid2lid_set d guid min_lid max_lid) guid
      = Some (min_lid, max_lid);
  g2l_get_set_ne d guid guid' min_lid max_lid :
    guid_ok guid → guid_ok guid' → guid ≠ guid' →
    osm_db_guid2lid_get (osm_db_guid2lid_set d guid min_lid max_lid) guid'
      = osm_db_guid2lid_get d guid';
  g2l_get_delete_eq d guid :
    osm_db_guid2lid_get (osm_db_guid2lid_delete d guid) guid = None;
  g2l_get_delete_ne d guid guid' :
    guid_ok guid → guid_ok guid' → guid ≠ guid' →
    osm_db_guid2lid_get (osm_db_guid2lid_delete d guid) guid'
      = osm_db_guid2lid_get d guid';
  g2l_get_range d guid min_lid max_lid :
    osm_db_guid2lid_get d guid = Some (min_lid, max_lid) → lid_ok min_lid ∧ lid_ok max_lid;
  g2l_guids_complete d guid :
    guid_ok guid → is_Some (osm_db_guid2lid_get d guid) → guid ∈ osm_db_guid2lid_guids d;
  g2l_guids_ok d guid : guid ∈ osm_db_guid2lid_guids d → guid_ok guid
}.

(** ** Data *)

(** What the manager reads of a port: its GUID and base LID (network order), its
    LMC, and for a port of a switch whether port 0 is enhanced. *)
Record lm_port := LmPort {
  lp_guid : Z;
  lp_base_lid : Z;
  lp_lmc : Z;
  lp_sw : option bool
}.

(** Options and subnet state the manager reads. *)
Record lm_env := LmEnv {
  opt_lmc : Z;
  opt_lmc_esp0 : bool;
  opt_reassign_lids : bool;
  opt_honor_guid2lid_file : bool;
  lm_first_time_master_sweep : bool;
  lm_coming_out_of_standby : bool;
  max_ucast_lid_ho : Z;
  lm_sm_port_guid : Z;
  lm_port_guid_tbl : gmap Z lm_port
}.

Record osm_lid_mgr (D : Type) := LidMgr {
  p_g2l : D;
  free_ranges : list (Z * Z);
  used_lids : gset Z;
  port_lid_tbl : list (option Z)   (* a port is its GUID *)
}.
Arguments LidMgr {D} _ _ _ _.
Arguments p_g2l {D} _.
Arguments free_ranges {D} _.
Arguments used_lids {D} _.
Arguments port_lid_tbl {D} _.

#[export] Instance osm_lid_mgr_eta D : Eta (osm_lid_mgr D) := λ m,
  LidMgr (p_g2l m) (free_ranges m) (used_lids m) (port_lid_tbl m).

(** The LIDs of a loop [for (lid = min_lid; lid <= max_lid; lid++)]. *)
Definition lid_range (min_lid max_lid : Z) : list Z := seqZ min_lid (max_lid - min_lid + 1).

Lemma elem_of_lid_range a b x : x ∈ lid_range a b ↔ a ≤ x ≤ b.
Proof. unfold lid_range. rewrite elem_of_seqZ. lia. Qed.

Section LidMgr.
Context {BO : ByteOrder} {D : Type} `{Guid2LidOps D} (env : lm_env).
Implicit Types m : osm_lid_mgr D.

Definition lmc_num_lids : Z := u8 (Z.shiftl 1 (opt_lmc env)).
Definition lmc_mask : Z := u16 (Z.lnot (Z.shiftl 1 (opt_lmc env) - 1)).

Definition port_guid_ho (p : lm_port) : Z := cl_ntoh64 (lp_guid p).
Definition port_base_lid_ho (p : lm_port) : Z := cl_ntoh16 (lp_base_lid p).

Definition osm_port_get_lid_range_ho (p : lm_port) : Z * Z :=
  let min_lid := port_base_lid_ho p in
  (min_lid, u16 (min_lid + Z.shiftl 1 (lp_lmc p) - 1)).

Definition osm_switch_sp0_is_lmc_capable (enhanced_port0 : bool) : bool :=
  opt_lmc_esp0 env && enhanced_port0.

(** The number of LIDs a port needs. *)
Definition port_num_lids (p : lm_port) : Z :=
  match lp_sw p with
  | None => lmc_num_lids
  | Some e => if osm_switch_sp0_is_lmc_capable e then lmc_num_lids else 1
  end.

Definition trim_lid (lid : Z) : Z :=
  if (IB_LID_UCAST_END_HO <? lid) || (lid <? IB_LID_UCAST_START_HO) then 0 else lid.

Definition is_used m (lid : Z) : bool := bool_decide (lid ∈ used_lids m).

Definition mark_used (lids : list Z) m : osm_lid_mgr D :=
  m <| used_lids := used_lids m ∪ list_to_set lids |>.

(** ** Validation of the persistent map *)

(** The body of the loop over the GUIDs of the map. *)
Definition validate_guid m (guid : Z) : osm_lid_mgr D :=
  match osm_db_guid2lid_get (p_g2l m) guid with
  | None => m
  | Some (min_lid, max_lid) =>
      let mask := u16 (Z.lnot (lmc_num_lids - 1)) in
      let lids_ok :=
        if (max_lid <? min_lid) || (min_lid =? 0) || (guid =? 0)
           || (max_ucast_lid_ho env <? max_lid) then false
        else if negb (min_lid =? max_lid) && negb (Z.land min_lid mask =? min_lid) then false
        else forallb (λ lid, negb (is_used m lid)) (lid_range min_lid max_lid) in
      if lids_ok then
        mark_used (filter (λ lid, lid < min_lid + lmc_num_lids) (lid_range min_lid max_lid)) m
      else m <| p_g2l := osm_db_guid2lid_delete (p_g2l m) guid |>
  end.

Definition lid_mgr_validate_db m : osm_lid_mgr D :=
  foldl validate_guid m (osm_db_guid2lid_guids (p_g2l m)).

(** ** Start of a sweep *)

Definition tbl_set m (lid : Z) (g : option Z) : osm_lid_mgr D :=
  m <| port_lid_tbl := vec_set (port_lid_tbl m) (Z.to_nat lid) g |>.

Definition tbl_get m (lid : Z) : option Z := mjoin (port_lid_tbl m !! Z.to_nat lid).

Definition reassigning : bool := lm_first_time_master_sweep env && opt_reassign_lids env.

(** Discards or restores the persistent map. *)
Definition sweep_db m : osm_lid_mgr D :=
  if reassigning then m <| p_g2l := osm_db_clear (p_g2l m) |> <| used_lids := ∅ |>
  else if lm_coming_out_of_standby env then
    let m := m <| p_g2l := osm_db_clear (p_g2l m) |> <| used_lids := ∅ |> in
    if negb (opt_honor_guid2lid_file env) then m
    else lid_mgr_validate_db (m <| p_g2l := osm_db_restore (p_g2l m) |>)
  else m.

(** The loop over the discovered ports: marks their LIDs in [port_lid_tbl] and
    cleans the persistent entries that do not fit the LMC. *)
Definition discover_port m (p : lm_port) : osm_lid_mgr D :=
  let '(disc_min_lid, disc_max_lid) := osm_port_get_lid_range_ho p in
  let disc_min_lid := trim_lid disc_min_lid in
  let disc_max_lid := trim_lid disc_max_lid in
  let m := foldl (λ m lid,
      tbl_set m lid (if lid <? disc_min_lid + lmc_num_lids then Some (lp_guid p) else None))
    m (lid_range disc_min_lid disc_max_lid) in
  match osm_db_guid2lid_get (p_g2l m) (port_guid_ho p) with
  | None => m
  | Some (db_min_lid, db_max_lid) =>
      let num_lids := port_num_lids p in
      if negb (num_lids =? 1) &&
         (negb (Z.land db_min_lid lmc_mask =? db_min_lid)
          || (db_max_lid - db_min_lid + 1 <? num_lids))
      then m <| p_g2l := osm_db_guid2lid_delete (p_g2l m) (port_guid_ho p) |>
             <| used_lids := used_lids m ∖ list_to_set (lid_range db_min_lid db_max_lid) |>
      else m
  end.

(** The test of one LID in the scan: is it free, and the LID the scan goes on
    from. *)
Definition scan_lid m (lid : Z) : bool * Z :=
  if is_used m lid then (false, lid)
  else match tbl_get m lid ≫= λ g, lm_port_guid_tbl env !! g with
  | None => (true, lid)
  | Some p =>
      match osm_db_guid2lid_get (p_g2l m) (port_guid_ho p) with
      | Some _ => (true, lid)
      | None =>
          let '(disc_min_lid, disc_max_lid) := osm_port_get_lid_range_ho p in
          let num_lids := port_num_lids p in
          let disc_max_lid :=
            match lp_sw p with
            | Some e => if osm_switch_sp0_is_lmc_capable e
                        then u16 (disc_min_lid + lmc_num_lids - 1) else disc_max_lid
            | None => u16 (disc_min_lid + lmc_num_lids - 1)
            end in
          if negb (num_lids =? 1) && negb (Z.land disc_min_lid lmc_mask =? disc_min_lid)
          then (true, lid)
          else if existsb (λ req_lid, (req_lid <=? IB_LID_UCAST_END_HO) && is_used m req_lid)
                    (lid_range (disc_min_lid + 1) disc_max_lid)
          then (true, lid)
          else (false, if lid <? disc_max_lid then disc_max_lid else lid)
      end
  end.

(** The scan from [lid], with the open range and the finished ones; it gives the
    LID it stopped at. *)
Fixpoint scan_lids m (fuel : nat) (max_defined_lid lid : Z) (p_range : option (Z * Z))
    (ranges : list (Z * Z)) : Z * option (Z * Z) * list (Z * Z) :=
  match fuel with
  | O => (lid, p_range, ranges)
  | S fuel =>
      if max_defined_lid <? lid then (lid, p_range, ranges)
      else
        let '(is_free, lid) := scan_lid m lid in
        match is_free, p_range with
        | true, Some (lo, _) => scan_lids m fuel max_defined_lid (lid + 1) (Some (lo, lid)) ranges
        | true, None => scan_lids m fuel max_defined_lid (lid + 1) (Some (lid, lid)) ranges
        | false, Some r => scan_lids m fuel max_defined_lid (lid + 1) None (ranges ++ [r])
        | false, None => scan_lids m fuel max_defined_lid (lid + 1) None ranges
        end
  end.

Definition scan_max_lid m : Z :=
  let max_discovered_lid := Z.of_nat (length (port_lid_tbl m)) in
  let max_discovered_lid :=
    if max_discovered_lid =? 0 then 0 else max_discovered_lid - 1 in
  let max_persistent_lid := IB_LID_UCAST_END_HO in
  if max_discovered_lid <? max_persistent_lid then max_persistent_lid else max_discovered_lid.

(** The range that is open after the scan ends at the highest LID; without one, a
    last range starts where the scan stopped. *)
Definition close_ranges (lid : Z) (p_range : option (Z * Z)) (ranges : list (Z * Z))
    : list (Z * Z) :=
  ranges ++ [(from_option fst lid p_range, max_ucast_lid_ho env)].

Definition lid_mgr_init_sweep m : osm_lid_mgr D :=
  let m := sweep_db m in
  let m := m <| free_ranges := [] |>
             <| port_lid_tbl := (λ _, None) <$> port_lid_tbl m |> in
  if reassigning then m <| free_ranges := close_ranges 0 (Some (1, 0)) [] |>
  else
    let m := foldl (λ m e, discover_port m e.2) m (qmap_items (lm_port_guid_tbl env)) in
    let max_defined_lid := scan_max_lid m in
    let '(lid, p_range, ranges) :=
      scan_lids m (Z.to_nat max_defined_lid) max_defined_lid 1 None [] in
    m <| free_ranges := close_ranges lid p_range ranges |>.

(** ** Assignment *)

Definition lid_mgr_is_range_not_persistent m (lid num_lids : Z) : bool :=
  forallb (λ i, negb (is_used m i)) (lid_range lid (lid + num_lids - 1)).

Definition align_lid (num_lids lid : Z) : Z :=
  if (1 <? num_lids) && negb (Z.land lid lmc_mask =? lid)
  then Z.land (lid + lmc_num_lids) lmc_mask else lid.

(** The first range that holds [num_lids] aligned LIDs, and the ranges left. *)
Fixpoint find_range (num_lids : Z) (ranges : list (Z * Z)) : option (Z * list (Z * Z)) :=
  match ranges with
  | [] => None
  | (lo, hi) :: rest =>
      let lid := align_lid num_lids lo in
      if lid + num_lids - 1 <=? hi then
        Some (lid, if lid + num_lids - 1 =? hi then rest else (lid + num_lids, hi) :: rest)
      else
        '(lid, rest') ← find_range num_lids rest; Some (lid, (lo, hi) :: rest')
  end.

Definition lid_mgr_find_free_lid_range m (num_lids : Z) : Z * Z * osm_lid_mgr D :=
  match find_range num_lids (free_ranges m) with
  | Some (lid, rest) => (lid, u16 (lid + num_lids - 1), m <| free_ranges := rest |>)
  | None => (0, 0, m)
  end.

Definition lid_mgr_cleanup_discovered_port_lid_range m (p : lm_port) : osm_lid_mgr D :=
  let '(min_lid, max_lid) := osm_port_get_lid_range_ho p in
  foldl (λ m lid,
      if (lid <? Z.of_nat (length (port_lid_tbl m))) && bool_decide (tbl_get m lid = Some (lp_guid p))
      then tbl_set m lid None else m)
    m (lid_range (trim_lid min_lid) (trim_lid max_lid)).

(** [NewLidSet]: records the range in the persistent map, the used LIDs and
    [port_lid_tbl]. *)
Definition new_lid_set m (p : lm_port) (min_lid max_lid : Z) : osm_lid_mgr D :=
  let m := m <| p_g2l := osm_db_guid2lid_set (p_g2l m) (port_guid_ho p) min_lid max_lid |> in
  let m := mark_used (lid_range min_lid max_lid) m in
  foldl (λ m lid, tbl_set m lid (Some (lp_guid p))) m (lid_range min_lid max_lid).

(** [AssignLid] *)
Definition assign_lid m (p : lm_port) (num_lids : Z) : Z * Z * bool * osm_lid_mgr D :=
  let m := lid_mgr_cleanup_discovered_port_lid_range m p in
  let '(min_lid, max_lid, m) := lid_mgr_find_free_lid_range m num_lids in
  (min_lid, max_lid, true, new_lid_set m p min_lid max_lid).

(** The range of the port, whether it must be told, and the new state. *)
Definition lid_mgr_get_port_lid m (p : lm_port) : Z * Z * bool * osm_lid_mgr D :=
  let num_lids := port_num_lids p in
  if reassigning then assign_lid m p num_lids
  else
    let mask := u16 (Z.lnot (num_lids - 1)) in
    match osm_db_guid2lid_get (p_g2l m) (port_guid_ho p) with
    | Some (min_lid, _) =>
        let max_lid := u16 (min_lid + num_lids - 1) in
        let lid_changed := negb (min_lid =? port_base_lid_ho p) in
        let m := if lid_changed
                 then lid_mgr_cleanup_discovered_port_lid_range m p else m in
        (min_lid, max_lid, lid_changed, new_lid_set m p min_lid max_lid)
    | None =>
        let min_lid := port_base_lid_ho p in
        if negb (min_lid =? 0) && (Z.land min_lid mask =? min_lid)
           && lid_mgr_is_range_not_persistent m min_lid num_lids
        then
          let max_lid := u16 (min_lid + num_lids - 1) in
          (min_lid, max_lid, false, new_lid_set m p min_lid max_lid)
        else assign_lid m p num_lids
    end.

(** Assigns LIDs to a list of ports; the result gives the range of each. *)
Fixpoint assign_ports m (ports : list lm_port) : list (lm_port * (Z * Z)) * osm_lid_mgr D :=
  match ports with
  | [] => ([], m)
  | p :: ports =>
      let '(min_lid, max_lid, _, m) := lid_mgr_get_port_lid m p in
      let '(l, m) := assign_ports m ports in
      ((p, (min_lid, max_lid)) :: l, m)
  end.

(** The SM's own port and its range, whose minimum the code writes to
    [master_sm_base_lid] and [sm_base_lid]; [None] is the failure status of a
    missing port. *)
Definition lid_mgr_process_our_sm_node m : option (lm_port * (Z * Z)) * osm_lid_mgr D :=
  match lm_port_guid_tbl env !! lm_sm_port_guid env with
  | None => (None, m)
  | Some p =>
      let '(min_lid_ho, max_lid_ho, _, m) := lid_mgr_get_port_lid m p in
      (Some (p, (min_lid_ho, max_lid_ho)), m)
  end.

Definition osm_lid_mgr_process_sm m : option (lm_port * (Z * Z)) * osm_lid_mgr D :=
  lid_mgr_process_our_sm_node (lid_mgr_init_sweep m).

(** Every port but the SM's own. *)
Definition osm_lid_mgr_process_subnet m : list (lm_port * (Z * Z)) * osm_lid_mgr D :=
  assign_ports m
    (filter (λ p, lp_guid p ≠ lm_sm_port_guid env) (snd <$> qmap_items (lm_port_guid_tbl env))).

(** The LID manager's part of [do_sweep], which does not look at the status of
    [osm_lid_mgr_process_sm]: the ports with their ranges. *)
Definition lid_mgr_sweep m : list (lm_port * (Z * Z)) * osm_lid_mgr D :=
  let '(r, m) := osm_lid_mgr_process_sm m in
  let '(l, m) := osm_lid_mgr_process_subnet m in
  (option_list r ++ l, m).

(** The ports of a sweep in their order. *)
Definition sweep_ports : list lm_port :=
  option_list (lm_port_guid_tbl env !! lm_sm_port_guid env)
  ++ filter (λ p, lp_guid p ≠ lm_sm_port_guid env) (snd <$> qmap_items (lm_port_guid_tbl env)).

Lemma lid_mgr_sweep_ports m : lid_mgr_sweep m = assign_ports (lid_mgr_init_sweep m) sweep_ports.
Proof.
  unfold lid_mgr_sweep, osm_lid_mgr_process_sm, lid_mgr_process_our_sm_node, sweep_ports,
    osm_lid_mgr_process_subnet.
  destruct (_ !! _) as [p|]; simpl.
  - destruct (lid_mgr_get_port_lid _ p) as [[[mn mx] ch] m']. simpl. by destruct (assign_ports _ _).
  - by destruct (assign_ports _ _).
Qed.

(** ** Alignment *)

Lemma land_mask x k :
  0 ≤ x < 2 ^ 16 → 0 ≤ k < 16 →
  Z.land x (u16 (Z.lnot (2 ^ k - 1))) = x / 2 ^ k * 2 ^ k.
Proof.
  intros Hx Hk. replace (2 ^ k - 1) with (Z.ones k) by (rewrite Z.ones_equiv; lia).
  unfold u16. rewrite <-Z.land_ones by lia.
  rewrite <-Z.shiftl_mul_pow2, <-Z.shiftr_div_pow2, <-Z.ldiff_ones_r by lia.
  apply Z.bits_inj'. intros i Hi.
  rewrite Z.ldiff_spec, !Z.land_spec, Z.lnot_spec by lia.
  rewrite (Z.testbit_ones_nonneg 16) by lia.
  destruct (Z.ltb_spec i 16); [by rewrite andb_true_r|].
  by rewrite (testbit_above 16 x) by lia.
Qed.

Lemma land_mask_aligned x k :
  0 ≤ x < 2 ^ 16 → 0 ≤ k < 16 →
  Z.land x (u16 (Z.lnot (2 ^ k - 1))) = x ↔ (2 ^ k | x).
Proof.
  intros Hx Hk. rewrite land_mask by done.
  assert (0 < 2 ^ k) by (apply Z.pow_pos_nonneg; lia).
  rewrite <-Z.mod_divide by lia. pose proof (Z.div_mod x (2 ^ k)). nia.
Qed.

Definition lmc_ok : Prop := 0 ≤ opt_lmc env ≤ 7.

Lemma lmc_num_lids_pow : lmc_ok → lmc_num_lids = 2 ^ opt_lmc env.
Proof.
  intros Hl. unfold lmc_ok, lmc_num_lids in *. rewrite Z.shiftl_1_l. apply u8_small.
  split; [lia|]. apply Z.pow_lt_mono_r; lia.
Qed.

Lemma lmc_num_lids_range : lmc_ok → 1 ≤ lmc_num_lids ≤ 128.
Proof.
  intros Hl. rewrite lmc_num_lids_pow by done. unfold lmc_ok in *.
  assert (2 ^ opt_lmc env ≤ 2 ^ 7) by (apply Z.pow_le_mono_r; lia).
  assert (0 < 2 ^ opt_lmc env) by (apply Z.pow_pos_nonneg; lia). lia.
Qed.

Lemma lmc_mask_aligned x :
  lmc_ok → 0 ≤ x < 2 ^ 16 → Z.land x lmc_mask = x ↔ (lmc_num_lids | x).
Proof.
  intros Hl Hx. rewrite lmc_num_lids_pow by done. unfold lmc_mask.
  rewrite Z.shiftl_1_l. unfold lmc_ok in *. apply land_mask_aligned; lia.
Qed.

(** The mask the code makes from a number of LIDs. *)
Lemma num_mask_aligned num x :
  lmc_ok → num = 1 ∨ num = lmc_num_lids → 0 ≤ x < 2 ^ 16 →
  Z.land x (u16 (Z.lnot (num - 1))) = x ↔ (num | x).
Proof.
  intros Hl Hn Hx. unfold lmc_ok in *. destruct Hn as [-> | ->].
  - apply (land_mask_aligned x 0); lia.
  - rewrite lmc_num_lids_pow by done. apply land_mask_aligned; lia.
Qed.

Lemma align_lid_spec num lid :
  lmc_ok → num = 1 ∨ num = lmc_num_lids → 0 ≤ lid < 2 ^ 16 - 128 →
  lid ≤ align_lid num lid < lid + lmc_num_lids ∧ (num | align_lid num lid).
Proof.
  intros Hl Hn Hx. pose proof (lmc_num_lids_range Hl) as HN. unfold align_lid.
  destruct (Z.ltb_spec 1 num) as [H1|H1]; simpl.
  2:{ assert (num = 1) as -> by lia. split; [lia|apply Z.divide_1_l]. }
  assert (num = lmc_num_lids) as -> by lia.
  destruct (Z.eqb_spec (Z.land lid lmc_mask) lid) as [Ha|Ha]; simpl.
  { split; [lia|]. apply lmc_mask_aligned in Ha; [done..|lia]. }
  rewrite lmc_mask_aligned in Ha by (done || lia).
  unfold lmc_mask. rewrite Z.shiftl_1_l, <-lmc_num_lids_pow by done.
  rewrite lmc_num_lids_pow in * by done. unfold lmc_ok in *.
  rewrite land_mask by lia. set (N := 2 ^ opt_lmc env) in *.
  split; [|apply Z.divide_factor_r].
  rewrite <-Z.mod_divide in Ha by lia.
  replace (lid + N) with (lid + 1 * N) by lia. rewrite Z.div_add by lia.
  pose proof (Z.div_mod lid N ltac:(lia)). pose proof (Z.mod_pos_bound lid N ltac:(lia)). nia.
Qed.

(** ** The free ranges *)

Definition in_free (ranges : list (Z * Z)) (x : Z) : Prop :=
  ∃ lo hi, (lo, hi) ∈ ranges ∧ lo ≤ x ≤ hi.

(** The ranges are of unicast LIDs and follow each other. *)
Definition ranges_ok (ranges : list (Z * Z)) : Prop :=
  Forall (λ r, 1 ≤ r.1 < 2 ^ 16 - 128 ∧ r.2 ≤ IB_LID_UCAST_END_HO) ranges
  ∧ StronglySorted (λ r r', r.2 < r'.1) ranges.

Lemma in_free_cons lo hi ranges x :
  in_free ((lo, hi) :: ranges) x ↔ lo ≤ x ≤ hi ∨ in_free ranges x.
Proof.
  unfold in_free. split.
  - intros (a & b & [[= -> ->]|Hin]%elem_of_cons & Hx); [by left|right; eauto].
  - intros [Hx|(a & b & Hin & Hx)]; [exists lo, hi|exists a, b]; (split; [|done]); [left|by right].
Qed.

(** A search that succeeds gives LIDs of the ranges, aligned, and removes them. *)
Lemma find_range_Some num ranges lid rest :
  lmc_ok → num = 1 ∨ num = lmc_num_lids → ranges_ok ranges →
  find_range num ranges = Some (lid, rest) →
  ranges_ok rest ∧ (num | lid) ∧ 1 ≤ lid ∧ lid + num - 1 ≤ IB_LID_UCAST_END_HO
  ∧ (∀ x, lid ≤ x ≤ lid + num - 1 → in_free ranges x)
  ∧ (∀ x, in_free rest x → in_free ranges x ∧ ¬ (lid ≤ x ≤ lid + num - 1))
  ∧ (∀ b, (∀ r, r ∈ ranges → b < r.1) → ∀ r, r ∈ rest → b < r.1).
Proof.
  intros Hl Hn [Hwf Hs]. pose proof (lmc_num_lids_range Hl) as HN. revert lid rest.
  induction Hs as [|[lo hi] ranges Hs IH Hlo]; [done|]. intros lid rest. simpl.
  apply Forall_cons in Hwf as [[Hw1 Hw2] Hwf]. simpl in Hw1, Hw2.
  destruct (align_lid_spec num lo Hl Hn ltac:(lia)) as [Ha Hdiv].
  assert (Habove : ∀ x, in_free ranges x → hi < x).
  { intros x (a & b & Hin & Hx). rewrite Forall_forall in Hlo.
    specialize (Hlo _ Hin). simpl in Hlo. lia. }
  destruct (Z.leb_spec (align_lid num lo + num - 1) hi) as [Hfit|Hno].
  - intros [= <- <-]. set (lid := align_lid num lo) in *.
    assert (Hrest : ranges_ok ranges) by done.
    destruct (Z.eqb_spec (lid + num - 1) hi) as [Heq|Hne].
    + split_and!; try done; [lia|lia| | |].
      * intros x Hx. apply in_free_cons. left. lia.
      * intros x Hx. specialize (Habove x Hx). rewrite in_free_cons. split; [by right|lia].
      * intros b Hb r Hr. apply Hb. by right.
    + split_and!; try done; [split|lia|lia| | |].
      * constructor; [lid_lia|done].
      * constructor; [done|]. eapply Forall_impl; [exact Hlo|]. simpl. lia.
      * intros x Hx. apply in_free_cons. left. lia.
      * intros x. rewrite !in_free_cons. intros [Hx|Hx]; [lia|].
        specialize (Habove x Hx). split; [by right|lia].
      * intros b Hb r [-> | Hr]%elem_of_cons; simpl; [|apply Hb; by right].
        specialize (Hb (lo, hi) ltac:(left)). simpl in Hb. lia.
  - destruct (find_range num ranges) as [[lid' rest']|] eqn:E; [|done]. simpl.
    intros [= <- <-]. destruct (IH Hwf lid' rest' eq_refl) as
      ([Hw' Hs'] & Hd & H1 & H2 & H3 & H4 & H5).
    split_and!; try done; [split| | |].
    + constructor; [simpl; lia|done].
    + constructor; [done|]. rewrite Forall_forall in Hlo. apply Forall_forall.
      intros r Hr. simpl. apply (H5 hi); [|done]. intros r' Hr'. by apply (Hlo r').
    + intros x Hx. apply in_free_cons. right. auto.
    + intros x. rewrite !in_free_cons. intros [Hx|Hx].
      * split; [by left|]. intros Hx'. specialize (Habove x (H3 x Hx')). lia.
      * destruct (H4 x Hx). split; [by right|done].
    + intros b Hb r [-> | Hr]%elem_of_cons; [apply Hb; left|].
      apply (H5 b); [|done]. intros r' Hr'. apply Hb. by right.
Qed.

(** A search fails only when no range holds an aligned block of the size. *)
Lemma find_range_None num ranges :
  find_range num ranges = None ↔ ∀ lo hi, (lo, hi) ∈ ranges → hi < align_lid num lo + num - 1.
Proof.
  induction ranges as [|[lo hi] ranges IH]; simpl.
  { split; [intros _ lo hi Hin; by apply not_elem_of_nil in Hin|done]. }
  destruct (Z.leb_spec (align_lid num lo + num - 1) hi).
  - split; [done|]. intros Hn. specialize (Hn lo hi ltac:(left)). lia.
  - transitivity (find_range num ranges = None).
    { by destruct (find_range num ranges) as [[? ?]|]. }
    rewrite IH. split; intros Hn a b.
    + intros [[= -> ->]|Hin]%elem_of_cons; [done|by apply Hn].
    + intros Hin. apply Hn. by right.
Qed.

(** ** The invariant of a sweep *)

Context `{!Guid2Lid D}.

(** The LIDs of a persistent entry that count under the current LMC. *)
Definition eff (min_lid max_lid x : Z) : Prop :=
  min_lid ≤ x ≤ max_lid ∧ x < min_lid + lmc_num_lids.

(** The persistent map is consistent with the used LIDs: its entries are ranges
    of unicast LIDs that fit the LMC, marked as used, and disjoint. *)
Record db_ok (d : D) (u : gset Z) : Prop := {
  db_entry guid min_lid max_lid :
    guid_ok guid → osm_db_guid2lid_get d guid = Some (min_lid, max_lid) →
    1 ≤ min_lid ∧ min_lid ≤ max_lid ∧ max_lid ≤ IB_LID_UCAST_END_HO
    ∧ (min_lid = max_lid ∨ (lmc_num_lids | min_lid))
    ∧ ∀ x, eff min_lid max_lid x → x ∈ u;
  db_disjoint guid guid' min_lid max_lid min_lid' max_lid' x :
    guid_ok guid → guid_ok guid' → guid ≠ guid' →
    osm_db_guid2lid_get d guid = Some (min_lid, max_lid) →
    osm_db_guid2lid_get d guid' = Some (min_lid', max_lid') →
    eff min_lid max_lid x → eff min_lid' max_lid' x → False
}.

Record lid_inv m : Prop := {
  inv_ranges : ranges_ok (free_ranges m);
  inv_free x : in_free (free_ranges m) x → x ∉ used_lids m;
  inv_db : db_ok (p_g2l m) (used_lids m)
}.

(** The LIDs a port needs where it is. *)
Definition needed (p : lm_port) (x : Z) : Prop :=
  port_base_lid_ho p ≤ x ≤ port_base_lid_ho p + port_num_lids p - 1.

(** A port whose LIDs are not assigned yet: its persistent entry is wide enough
    and aligned; without one, the LIDs it may keep are not offered as free. *)
Definition pending m (p : lm_port) : Prop :=
  match osm_db_guid2lid_get (p_g2l m) (port_guid_ho p) with
  | Some (min_lid, max_lid) =>
      reassigning = false
      ∧ (port_num_lids p = 1
         ∨ ((lmc_num_lids | min_lid) ∧ min_lid + lmc_num_lids - 1 ≤ max_lid))
  | None =>
      reassigning = false → port_base_lid_ho p ≠ 0 →
      (port_num_lids p | port_base_lid_ho p) →
      (∀ x, needed p x → x ∉ used_lids m) →
      port_base_lid_ho p + port_num_lids p - 1 ≤ IB_LID_UCAST_END_HO
      ∧ ∀ x, needed p x → ¬ in_free (free_ranges m) x
  end.

Definition port_ok (p : lm_port) : Prop :=
  guid_ok (port_guid_ho p) ∧ 0 ≤ port_base_lid_ho p < 2 ^ 16.

Lemma port_num_lids_cases p : port_num_lids p = 1 ∨ port_num_lids p = lmc_num_lids.
Proof. unfold port_num_lids. repeat case_match; auto. Qed.

Lemma is_used_false m x : is_used m x = false ↔ x ∉ used_lids m.
Proof. unfold is_used. apply bool_decide_eq_false. Qed.

(** The table of ports plays no part in the invariant. *)
Lemma cleanup_keeps {B} (proj : osm_lid_mgr D → B) m p :
  (∀ m lid g, proj (tbl_set m lid g) = proj m) →
  proj (lid_mgr_cleanup_discovered_port_lid_range m p) = proj m.
Proof.
  intros Hp. unfold lid_mgr_cleanup_discovered_port_lid_range.
  destruct (osm_port_get_lid_range_ho p). apply (foldl_keeps proj).
  intros m' lid. case_match; [apply Hp|done].
Qed.

Lemma new_lid_set_parts m p min_lid max_lid :
  p_g2l (new_lid_set m p min_lid max_lid)
    = osm_db_guid2lid_set (p_g2l m) (port_guid_ho p) min_lid max_lid
  ∧ free_ranges (new_lid_set m p min_lid max_lid) = free_ranges m
  ∧ ∀ x, x ∈ used_lids (new_lid_set m p min_lid max_lid)
      ↔ x ∈ used_lids m ∨ min_lid ≤ x ≤ max_lid.
Proof.
  unfold new_lid_set. split_and!.
  - by rewrite (foldl_keeps p_g2l).
  - by rewrite (foldl_keeps free_ranges).
  - intros x. rewrite (foldl_keeps used_lids) by done. simpl.
    rewrite elem_of_union, elem_of_list_to_set, elem_of_lid_range. done.
Qed.

(** Recording a range that is the port's own or was free of everybody keeps the
    invariant. *)
Lemma new_lid_set_inv m p mn mx :
  lmc_ok → port_ok p → lid_inv m →
  1 ≤ mn → mn ≤ mx ≤ IB_LID_UCAST_END_HO → (mn = mx ∨ (lmc_num_lids | mn)) →
  (∀ x, mn ≤ x ≤ mx → ¬ in_free (free_ranges m) x) →
  (∀ g a b x, guid_ok g → g ≠ port_guid_ho p →
     osm_db_guid2lid_get (p_g2l m) g = Some (a, b) → eff a b x → ¬ (mn ≤ x ≤ mx)) →
  lid_inv (new_lid_set m p mn mx).
Proof.
  intros Hl [Hg _] [Hr Hf [Hd1 Hd2]] H1 H2 Hal Hfree Hdisj.
  destruct (new_lid_set_parts m p mn mx) as (E1 & E2 & E3).
  assert (Hget : osm_db_guid2lid_get (osm_db_guid2lid_set (p_g2l m) (port_guid_ho p) mn mx)
                   (port_guid_ho p) = Some (mn, mx)).
  { apply g2l_get_set_eq; [done|unfold lid_ok; lid_lia..]. }
  split; [by rewrite E2| |].
  - intros x. rewrite E2, E3. intros Hx [Hu|Hu]; [by apply (Hf x)|by apply (Hfree x)].
  - rewrite E1. split.
    + intros g a b Hgo Hga. destruct (decide (g = port_guid_ho p)) as [->|Hne].
      * rewrite Hget in Hga. injection Hga as <- <-. split_and!; [lia|lia|lia|done|].
        intros x [Hx _]. apply E3. by right.
      * rewrite g2l_get_set_ne in Hga by done. destruct (Hd1 g a b Hgo Hga) as (?&?&?&?&Hu).
        split_and!; try done. intros x Hx. apply E3. left. auto.
    + intros g g' a b a' b' x Hgo Hgo' Hne Hga Hga' Hx Hx'.
      destruct (decide (g = port_guid_ho p)) as [->|Hg1];
        [|destruct (decide (g' = port_guid_ho p)) as [->|Hg2]].
      * rewrite Hget in Hga. injection Hga as <- <-.
        rewrite g2l_get_set_ne in Hga' by done. apply (Hdisj g' a' b' x); try done. apply Hx.
      * rewrite Hget in Hga'. injection Hga' as <- <-.
        rewrite g2l_get_set_ne in Hga by done. apply (Hdisj g a b x); try done. apply Hx'.
      * rewrite g2l_get_set_ne in Hga, Hga' by done.
        by apply (Hd2 g g' a b a' b' x).
Qed.

(** What one assignment does to the manager: [(mn, mx)] is the port's range. *)
Record assigned m (p : lm_port) (mn mx : Z) m' : Prop := {
  asg_min : 1 ≤ mn;
  asg_max : mx = mn + port_num_lids p - 1;
  asg_end : mx ≤ IB_LID_UCAST_END_HO;
  asg_aligned : (port_num_lids p | mn);
  asg_persistent a b :
    osm_db_guid2lid_get (p_g2l m) (port_guid_ho p) = Some (a, b) → mn = a;
  asg_inv : lid_inv m';
  asg_get : osm_db_guid2lid_get (p_g2l m') (port_guid_ho p) = Some (mn, mx);
  asg_others g :
    guid_ok g → g ≠ port_guid_ho p →
    osm_db_guid2lid_get (p_g2l m') g = osm_db_guid2lid_get (p_g2l m) g;
  asg_free x : in_free (free_ranges m') x → in_free (free_ranges m) x;
  asg_used x : x ∈ used_lids m → x ∈ used_lids m'
}.

Lemma num_lids_aligned p mn :
  lmc_ok → (port_num_lids p | mn) →
  mn = mn + port_num_lids p - 1 ∨ (lmc_num_lids | mn).
Proof. intros Hl Hd. destruct (port_num_lids_cases p) as [E|E]; rewrite E in *; [left; lia|by right]. Qed.

Lemma new_lid_set_assigned m m0 p mn :
  lmc_ok → port_ok p → lid_inv m →
  1 ≤ mn → mn + port_num_lids p - 1 ≤ IB_LID_UCAST_END_HO → (port_num_lids p | mn) →
  (∀ x, mn ≤ x ≤ mn + port_num_lids p - 1 → ¬ in_free (free_ranges m) x) →
  (∀ g a b x, guid_ok g → g ≠ port_guid_ho p →
     osm_db_guid2lid_get (p_g2l m) g = Some (a, b) → eff a b x →
     ¬ (mn ≤ x ≤ mn + port_num_lids p - 1)) →
  p_g2l m = p_g2l m0 → (∀ x, x ∈ used_lids m0 → x ∈ used_lids m) →
  (∀ x, in_free (free_ranges m) x → in_free (free_ranges m0) x) →
  (∀ a b, osm_db_guid2lid_get (p_g2l m0) (port_guid_ho p) = Some (a, b) → mn = a) →
  assigned m0 p mn (mn + port_num_lids p - 1)
    (new_lid_set m p mn (mn + port_num_lids p - 1)).
Proof.
  intros Hl Hp Hi H1 H2 Hal Hfree Hdisj Eg Eu Ef Hpers.
  pose proof (lmc_num_lids_range Hl) as HN.
  assert (1 ≤ port_num_lids p) by (destruct (port_num_lids_cases p) as [-> | ->]; lia).
  destruct (new_lid_set_parts m p mn (mn + port_num_lids p - 1)) as (E1 & E2 & E3).
  split; try done.
  - apply new_lid_set_inv; try done; [lia|]. by apply num_lids_aligned.
  - rewrite E1. apply g2l_get_set_eq; [apply Hp|unfold lid_ok; lid_lia..].
  - intros g Hg Hne. rewrite E1, Eg. apply g2l_get_set_ne; [apply Hp|done..].
  - intros x. rewrite E2. apply Ef.
  - intros x Hx. apply E3. left. auto.
Qed.

Lemma u16_lid x : 0 ≤ x ≤ IB_LID_UCAST_END_HO → u16 x = x.
Proof. intros Hx. apply u16_small. lid_lia. Qed.

(** [AssignLid]: a range nobody uses, or none is left. *)
Lemma assign_lid_step m p :
  lmc_ok → port_ok p → lid_inv m →
  osm_db_guid2lid_get (p_g2l m) (port_guid_ho p) = None →
  let '(mn, mx, _, m') := assign_lid m p (port_num_lids p) in
  (mn = 0 ∧ find_range (port_num_lids p) (free_ranges m) = None) ∨ assigned m p mn mx m'.
Proof.
  intros Hl Hp Hi Hnone. unfold assign_lid, lid_mgr_find_free_lid_range.
  set (m1 := lid_mgr_cleanup_discovered_port_lid_range m p).
  assert (E1 : p_g2l m1 = p_g2l m) by by apply (cleanup_keeps p_g2l).
  assert (E2 : free_ranges m1 = free_ranges m) by by apply (cleanup_keeps free_ranges).
  assert (E3 : used_lids m1 = used_lids m) by by apply (cleanup_keeps used_lids).
  rewrite E2. destruct (find_range _ _) as [[lid rest]|] eqn:E; [right|by left].
  destruct Hi as [Hr Hf Hd].
  destruct (find_range_Some _ _ _ _ Hl (port_num_lids_cases p) Hr E)
    as (Hr' & Hdiv & Hl1 & Hl2 & Hin & Hrest & _).
  pose proof (lmc_num_lids_range Hl).
  assert (1 ≤ port_num_lids p) by (destruct (port_num_lids_cases p) as [-> | ->]; lia).
  rewrite u16_lid by lid_lia.
  apply (new_lid_set_assigned (m1 <| free_ranges := rest |>)); try done; simpl.
  - split; simpl; [done| |by rewrite E1, E3].
    intros x Hx. rewrite E3. by apply Hf, Hrest.
  - intros x Hx Hx'. by apply (Hrest x).
  - intros g a b x Hg Hne Hga Hx Hin'. rewrite E1 in Hga.
    apply (Hf x (Hin x Hin')). by apply (db_entry _ _ Hd g a b Hg Hga).
  - intros x. by rewrite E3.
  - intros x Hx. by apply Hrest.
  - intros a b Hga. by rewrite Hnone in Hga.
Qed.

Lemma get_port_lid_step m p :
  lmc_ok → port_ok p → lid_inv m → pending m p →
  let '(mn, mx, _, m') := lid_mgr_get_port_lid m p in
  (mn = 0 ∧ find_range (port_num_lids p) (free_ranges m) = None) ∨ assigned m p mn mx m'.
Proof.
  intros Hl Hp Hi Hpend. unfold lid_mgr_get_port_lid. unfold pending in Hpend.
  pose proof (lmc_num_lids_range Hl).
  assert (Hnum : 1 ≤ port_num_lids p ≤ lmc_num_lids)
    by (destruct (port_num_lids_cases p) as [-> | ->]; lia).
  destruct reassigning eqn:Hre.
  { apply assign_lid_step; try done.
    destruct (osm_db_guid2lid_get _ _) as [[? ?]|]; [by destruct Hpend|done]. }
  destruct (osm_db_guid2lid_get (p_g2l m) (port_guid_ho p)) as [[mn mx]|] eqn:Hget.
  - (* the persistent entry *)
    right. destruct Hpend as [_ Hfit]. pose proof Hi as [Hr Hf Hd].
    destruct (db_entry _ _ Hd _ mn mx (proj1 Hp) Hget) as (H1 & H2 & H3 & H4 & H5).
    assert (Hsub : ∀ x, mn ≤ x ≤ mn + port_num_lids p - 1 → eff mn mx x).
    { intros x Hx. unfold eff. destruct Hfit as [E|[_ Hw]]; [rewrite E in Hx|]; lia. }
    assert (Hend : mn + port_num_lids p - 1 ≤ IB_LID_UCAST_END_HO).
    { destruct (Hsub (mn + port_num_lids p - 1)); lia. }
    rewrite u16_lid by lia.
    set (m1 := if negb _ then _ else m).
    assert (p_g2l m1 = p_g2l m ∧ free_ranges m1 = free_ranges m ∧ used_lids m1 = used_lids m)
      as (E1 & E2 & E3).
    { subst m1. case_match; [|done].
      by rewrite (cleanup_keeps p_g2l), (cleanup_keeps free_ranges), (cleanup_keeps used_lids). }
    apply (new_lid_set_assigned m1); try done.
    + split; rewrite ?E1, ?E2, ?E3; done.
    + destruct Hfit as [E|[Hal _]]; [rewrite E; apply Z.divide_1_l|].
      destruct (port_num_lids_cases p) as [-> | ->]; [apply Z.divide_1_l|done].
    + intros x Hx. rewrite E2. intros Hin. by apply (Hf x Hin), H5, Hsub.
    + intros g a b x Hg Hne Hga Hx Hin. rewrite E1 in Hga.
      apply (db_disjoint _ _ Hd g (port_guid_ho p) a b mn mx x); try done; [apply Hp|].
      by apply Hsub.
    + intros x. by rewrite E3.
    + intros x. by rewrite E2.
    + intros a b Hab. rewrite Hget in Hab. congruence.
  - destruct (negb (port_base_lid_ho p =? 0) && _ && _) eqn:Hkeep;
      [|by apply assign_lid_step].
    (* the port keeps its LIDs *)
    right. apply andb_true_iff in Hkeep as [[Hz Hal]%andb_true_iff Hpers].
    apply negb_true_iff, Z.eqb_neq in Hz. apply Z.eqb_eq in Hal.
    rewrite num_mask_aligned in Hal by (auto using port_num_lids_cases; apply Hp).
    assert (Hunused : ∀ x, needed p x → x ∉ used_lids m).
    { intros x Hx. unfold lid_mgr_is_range_not_persistent in Hpers.
      rewrite forallb_forall in Hpers. apply is_used_false, negb_true_iff, Hpers.
      apply list_elem_of_In, elem_of_lid_range. apply Hx. }
    destruct (Hpend eq_refl Hz Hal Hunused) as [Hend Hfree].
    destruct Hp as [Hg Hb]. rewrite u16_lid by lia.
    apply (new_lid_set_assigned m); try done; [lia| |].
    + intros g a b x Hgo Hne Hga Hx Hin. apply (Hunused x Hin).
      by apply (db_entry _ _ (inv_db _ Hi) g a b Hgo Hga).
    + intros a b Hab. by rewrite Hget in Hab.
Qed.

(** C31. One assignment of [lid_mgr_get_port_lid], for a port in any of the four
    cases of the code (a persistent entry, a LID it may keep, a new LID, a LID
    reassignment): the port gets the range of its size, aligned, of unicast LIDs,
    its persistent entry if it has one; the map records it, the used LIDs and free
    ranges stay consistent, and no other port's entry changes.  It runs out of
    LIDs only when no free range holds an aligned block of the size. *)
Theorem lid_mgr_get_port_lid_ok m p :
  lmc_ok → port_ok p → lid_inv m → pending m p →
  let '(mn, mx, _, m') := lid_mgr_get_port_lid m p in
  (mn = 0 ∧ find_range (port_num_lids p) (free_ranges m) = None) ∨ assigned m p mn mx m'.
Proof. exact (get_port_lid_step m p). Qed.

(** *** The whole subnet *)

Lemma pending_kept m p mn mx m' q :
  port_ok q → port_guid_ho q ≠ port_guid_ho p →
  assigned m p mn mx m' → pending m q → pending m' q.
Proof.
  intros [Hg _] Hne Ha. unfold pending.
  rewrite (asg_others _ _ _ _ _ Ha) by done. case_match; [by repeat case_match|].
  intros Hk Hre Hz Hal Hu. destruct Hk as [H1 H2]; try done.
  { intros x Hx Hx'. by apply (Hu x Hx), (asg_used _ _ _ _ _ Ha). }
  split; [done|]. intros x Hx Hin. by apply (H2 x Hx), (asg_free _ _ _ _ _ Ha).
Qed.

Lemma assign_ports_fst ports m : (assign_ports m ports).1.*1 = ports.
Proof.
  revert m. induction ports as [|p ports IH]; intros m; simpl; [done|].
  destruct (lid_mgr_get_port_lid m p) as [[[mn mx] ch] m1]. specialize (IH m1).
  destruct (assign_ports m1 ports). simpl in *. by f_equal.
Qed.

(** At the turn of one of the ports no free range holds a block of its size. *)
Definition out_of_lids m (ports : list lm_port) : Prop :=
  ∃ l1 p l2, ports = l1 ++ p :: l2
    ∧ find_range (port_num_lids p) (free_ranges (assign_ports m l1).2) = None.

Lemma assign_ports_step ports m :
  lmc_ok → Forall port_ok ports → NoDup (port_guid_ho <$> ports) →
  lid_inv m → (∀ p, p ∈ ports → pending m p) →
  let '(l, m') := assign_ports m ports in
  l.*1 = ports
  ∧ (out_of_lids m ports
     ∨ lid_inv m'
       ∧ (∀ p mn mx, (p, (mn, mx)) ∈ l →
            1 ≤ mn ∧ mx = mn + port_num_lids p - 1 ∧ mx ≤ IB_LID_UCAST_END_HO
            ∧ (port_num_lids p | mn)
            ∧ osm_db_guid2lid_get (p_g2l m') (port_guid_ho p) = Some (mn, mx)
            ∧ ∀ a b, osm_db_guid2lid_get (p_g2l m) (port_guid_ho p) = Some (a, b) → mn = a)
       ∧ ∀ g, guid_ok g → g ∉ port_guid_ho <$> ports →
            osm_db_guid2lid_get (p_g2l m') g = osm_db_guid2lid_get (p_g2l m) g).
Proof.
  intros Hl. revert m. induction ports as [|p ports IH]; intros m Hok Hnd Hi Hpend; simpl.
  { split; [done|]. right. split_and!; [done| |done].
    intros p mn mx Hin. by apply not_elem_of_nil in Hin. }
  apply Forall_cons in Hok as [Hp Hok]. rewrite fmap_cons, NoDup_cons in Hnd.
  destruct Hnd as [Hnp Hnd].
  pose proof (get_port_lid_step m p Hl Hp Hi ltac:(apply Hpend; left)) as Hstep.
  destruct (lid_mgr_get_port_lid m p) as [[[mn mx] ch] m1] eqn:Eg.
  destruct Hstep as [[_ Hnone]|Ha].
  { pose proof (assign_ports_fst ports m1) as Hfst.
    destruct (assign_ports m1 ports) as [l m'] eqn:E. simpl in *. split; [by f_equal|].
    left. by exists [], p, ports. }
  assert (Hpend1 : ∀ q, q ∈ ports → pending m1 q).
  { intros q Hq. eapply pending_kept; [| |done|apply Hpend; by right].
    { rewrite Forall_forall in Hok. auto. }
    intros E. apply Hnp. rewrite <-E. by apply list_elem_of_fmap_2. }
  specialize (IH m1 Hok Hnd (asg_inv _ _ _ _ _ Ha) Hpend1).
  destruct (assign_ports m1 ports) as [l m'] eqn:E. destruct IH as [Hfst Hres]. simpl.
  split; [by f_equal|].
  destruct Hres as [(l1 & q & l2 & -> & Hq)|(Hi' & Hall & Hoth)].
  { left. exists (p :: l1), q, l2. split; [done|]. simpl. rewrite Eg.
    by destruct (assign_ports m1 l1). }
  right. split_and!; [done| |].
  - intros q mn' mx' [[= -> -> ->]|Hq]%elem_of_cons.
    + destruct Ha as [A1 A2 A3 A4 A5 A6 A7 A8 A9 A10]. split_and!; try done.
      rewrite Hoth; [done|apply Hp|done].
    + destruct (Hall q mn' mx' Hq) as (B1 & B2 & B3 & B4 & B5 & B6). split_and!; try done.
      intros a b Hab. apply (B6 a b). rewrite (asg_others _ _ _ _ _ Ha); [done|..].
      * rewrite Forall_forall in Hok. apply Hok. rewrite <-Hfst.
        by apply (list_elem_of_fmap_2 fst _ (q, (mn', mx'))).
      * intros Eq. apply Hnp. rewrite <-Eq. apply list_elem_of_fmap_2. rewrite <-Hfst.
        by apply (list_elem_of_fmap_2 fst _ (q, (mn', mx'))).
  - intros g Hg Hni. apply not_elem_of_cons in Hni as [Hg1 Hg2].
    rewrite Hoth by done. by apply (asg_others _ _ _ _ _ Ha).
Qed.

(** ** The scan for free ranges *)

Lemma scan_lid_free m lid lid' :
  scan_lid m lid = (true, lid') → lid' = lid ∧ lid ∉ used_lids m.
Proof.
  unfold scan_lid. destruct (is_used m lid) eqn:E; [done|]. apply is_used_false in E.
  repeat case_match; intros [=]; by subst.
Qed.

Lemma scan_lid_ge m lid : lid ≤ (scan_lid m lid).2.
Proof. unfold scan_lid. repeat case_match; simpl; lia. Qed.

(** [lo .. hi] is a block the scan must leave out: it is not free at [lo], from
    where it goes on at [hi], and no earlier jump ends inside. *)
Definition protected m (lo hi : Z) : Prop :=
  1 ≤ lo ≤ hi ∧ scan_lid m lo = (false, hi)
  ∧ ∀ y, 1 ≤ y < lo → (scan_lid m y).2 < lo ∨ hi ≤ (scan_lid m y).2.

(** The ranges found so far, by the time the scan stands at [lid]. *)
Record scan_inv m (lid : Z) (p_range : option (Z * Z)) (ranges : list (Z * Z)) : Prop := {
  scan_open lo hi : p_range = Some (lo, hi) → 1 ≤ lo ≤ hi ∧ hi = lid - 1;
  scan_wf : Forall (λ r, 1 ≤ r.1 ≤ r.2 ∧ r.2 < lid ∧ r.2 ≤ IB_LID_UCAST_END_HO) ranges;
  scan_before lo hi r : p_range = Some (lo, hi) → r ∈ ranges → r.2 < lo;
  scan_sorted : StronglySorted (λ r r', r.2 < r'.1) ranges;
  scan_free x : in_free (option_list p_range ++ ranges) x → (scan_lid m x).1 = true;
  scan_prot lo hi :
    protected m lo hi →
    (lid ≤ lo ∨ hi < lid)
    ∧ ∀ x, lo ≤ x ≤ hi → ¬ in_free (option_list p_range ++ ranges) x
}.

Lemma in_free_app l1 l2 x : in_free (l1 ++ l2) x ↔ in_free l1 x ∨ in_free l2 x.
Proof.
  unfold in_free. split.
  - intros (a & b & [Hin|Hin]%elem_of_app & Hx); eauto.
  - intros [(a & b & Hin & Hx)|(a & b & Hin & Hx)]; exists a, b; rewrite elem_of_app; auto.
Qed.

Lemma in_free_nil x : ¬ in_free [] x.
Proof. intros (a & b & Hin & _). by apply not_elem_of_nil in Hin. Qed.

Lemma scan_inv_nonfree m lid p_range ranges :
  1 ≤ lid ≤ IB_LID_UCAST_END_HO →
  scan_inv m lid p_range ranges → (scan_lid m lid).1 = false →
  scan_inv m ((scan_lid m lid).2 + 1) None (ranges ++ option_list p_range).
Proof.
  intros H1 [Ho Hw Hb Hs Hf Hp] Hn. pose proof (scan_lid_ge m lid) as Hge.
  assert (Hin : ∀ x, in_free (option_list None ++ ranges ++ option_list p_range) x
                 ↔ in_free (option_list p_range ++ ranges) x).
  { intros x. rewrite !in_free_app. simpl. pose proof (in_free_nil x). tauto. }
  split; try done.
  - apply Forall_app. split; [eapply Forall_impl; [exact Hw|]; simpl; lia|].
    destruct p_range as [[lo hi]|]; simpl; [|constructor]. destruct (Ho lo hi eq_refl).
    constructor; [simpl; lia|constructor].
  - destruct p_range as [[lo hi]|]; simpl; [|by rewrite app_nil_r].
    apply StronglySorted_app_2; [|done|by repeat constructor].
    intros r r' Hr Hr'. apply list_elem_of_singleton in Hr' as ->. by apply (Hb lo hi).
  - intros x Hx. by apply Hf, Hin.
  - intros lo hi Hprot. destruct (Hp lo hi Hprot) as [Hpos Hx]. split; [|intros x; rewrite Hin; auto].
    destruct Hprot as (Hlh & Hlo & Hjump).
    destruct Hpos as [Hpos|Hpos]; [|right; lia].
    destruct (decide (lid = lo)) as [->|Hne]; [rewrite Hlo; right; simpl; lia|].
    destruct (Hjump lid ltac:(lia)); [left|right]; lia.
Qed.

Lemma scan_inv_free m lid p_range ranges :
  1 ≤ lid → scan_inv m lid p_range ranges → (scan_lid m lid).1 = true →
  scan_inv m (lid + 1) (Some (from_option fst lid p_range, lid)) ranges.
Proof.
  intros H1 [Ho Hw Hb Hs Hf Hp] Hn.
  assert (Hin : ∀ x, in_free (option_list (Some (from_option fst lid p_range, lid)) ++ ranges) x
                 ↔ x = lid ∨ in_free (option_list p_range ++ ranges) x).
  { intros x. rewrite !in_free_app. destruct p_range as [[lo hi]|]; simpl; rewrite !in_free_cons.
    - destruct (Ho lo hi eq_refl). split; [intros [[?|?]|?]|intros [?|[[?|?]|?]]]; try tauto;
        try (left; lia); try (left; left; lia).
      destruct (decide (x = lid)); [by left|right; left; left; lia].
    - pose proof (in_free_nil x). split; [intros [[?|?]|?]|intros [?|?]]; try tauto;
        try (left; lia); left; left; lia. }
  split.
  - intros lo hi [= <- <-]. destruct p_range as [[lo hi]|]; simpl; [|lia].
    destruct (Ho lo hi eq_refl). lia.
  - eapply Forall_impl; [exact Hw|]; simpl; lia.
  - intros lo hi r [= <- <-] Hr. destruct p_range as [[lo hi]|]; simpl; [by apply (Hb lo hi)|].
    rewrite Forall_forall in Hw. destruct (Hw r Hr) as (? & ? & ?). lia.
  - done.
  - intros x [-> | Hx]%Hin; [done|by apply Hf].
  - intros lo hi Hprot. destruct (Hp lo hi Hprot) as [Hpos Hx].
    destruct Hprot as (Hlh & Hlo & _).
    assert (lid ≠ lo) by (intros ->; by rewrite Hlo in Hn).
    split; [lia|]. intros x Hx' [-> | Hx'']%Hin; [lia|by apply (Hx x)].
Qed.

Lemma scan_lids_inv m fuel mx B lid p_range ranges :
  1 ≤ lid ≤ B → mx ≤ IB_LID_UCAST_END_HO →
  scan_inv m lid p_range ranges → mx + 1 - lid ≤ Z.of_nat fuel →
  (∀ y, 1 ≤ y ≤ mx → (scan_lid m y).2 < B) →
  let '(lid', p_range', ranges') := scan_lids m fuel mx lid p_range ranges in
  mx < lid' ∧ 1 ≤ lid' ≤ B ∧ scan_inv m lid' p_range' ranges'.
Proof.
  intros H1 Hmx Hi Hf HB. revert lid p_range ranges H1 Hi Hf.
  induction fuel as [|fuel IH]; intros lid p_range ranges H1 Hi Hf.
  { simpl. split_and!; [lia|lia|lia|done]. }
  simpl. destruct (Z.ltb_spec mx lid); [split_and!; (done || lia)|].
  pose proof (scan_lid_ge m lid) as Hge. pose proof (HB lid ltac:(lia)) as HBl.
  destruct (scan_lid m lid) as [free lid1] eqn:E. simpl in Hge, HBl. destruct free.
  - destruct (scan_lid_free m lid lid1 E) as [-> _].
    pose proof (scan_inv_free m lid p_range ranges ltac:(lia) Hi) as Hfree. rewrite E in Hfree.
    destruct p_range as [[lo hi]|]; apply IH; try lia; by apply Hfree.
  - pose proof (scan_inv_nonfree m lid p_range ranges ltac:(lia) Hi) as Hnon. rewrite E in Hnon.
    destruct p_range as [r|]; simpl in Hnon; apply IH; try lia; [by apply Hnon|].
    rewrite app_nil_r in Hnon. by apply Hnon.
Qed.

Lemma scan_inv_init m : scan_inv m 1 None [].
Proof.
  split; try done; try constructor.
  - intros x Hx. by apply in_free_nil in Hx.
  - left. by destruct H0 as ((? & ?) & _).
  - intros x _ Hx. by apply in_free_nil in Hx.
Qed.

(** The ranges after the scan: none overlaps the used LIDs or a protected block. *)
Lemma close_ranges_ok m lid p_range ranges :
  max_ucast_lid_ho env ≤ IB_LID_UCAST_END_HO → IB_LID_UCAST_END_HO < lid < 2 ^ 16 - 128 →
  scan_inv m lid p_range ranges →
  ranges_ok (close_ranges lid p_range ranges)
  ∧ ∀ x, in_free (close_ranges lid p_range ranges) x →
      in_free (option_list p_range ++ ranges) x.
Proof.
  intros Hmax Hlid [Ho Hw Hb Hs Hf Hp]. unfold close_ranges. split.
  - split.
    + apply Forall_app. split.
      * rewrite Forall_forall in Hw. apply Forall_forall. intros r Hr.
        destruct (Hw r Hr) as (? & ? & ?). lid_lia.
      * constructor; [simpl|constructor]. split; [|done].
        destruct p_range as [[lo hi]|]; simpl; [destruct (Ho lo hi eq_refl)|]; lid_lia.
    + apply StronglySorted_app_2; [|done|by repeat constructor].
      intros r r' Hr ->%list_elem_of_singleton. simpl.
      destruct p_range as [[lo hi]|]; simpl; [by apply (Hb lo hi)|].
      rewrite Forall_forall in Hw. destruct (Hw r Hr) as (? & ? & ?). lia.
  - intros x. rewrite !in_free_app, in_free_cons. intros [Hx|[Hx|Hx]].
    + by right.
    + left. destruct p_range as [[lo hi]|]; simpl in *; [|lid_lia].
      destruct (Ho lo hi eq_refl). apply in_free_cons. left. lid_lia.
    + by apply in_free_nil in Hx.
Qed.

(** ** The discovered ports *)

(** A port as the port table holds it: a 64-bit GUID, LIDs in the unicast range,
    and LMC 0 where the switch port cannot have more than one LID. *)
Definition disc_ok (p : lm_port) : Prop :=
  guid_ok (lp_guid p) ∧ 0 ≤ lp_lmc p ≤ 7 ∧ 0 ≤ port_base_lid_ho p
  ∧ port_base_lid_ho p + 2 ^ lp_lmc p - 1 ≤ IB_LID_UCAST_END_HO
  ∧ (∀ e, lp_sw p = Some e → osm_switch_sp0_is_lmc_capable e = false → lp_lmc p = 0).

(** The LIDs a port was found with. *)
Definition discovered (p : lm_port) (x : Z) : Prop :=
  port_base_lid_ho p ≤ x ≤ port_base_lid_ho p + 2 ^ lp_lmc p - 1.

Lemma disc_ok_pow p : disc_ok p → 1 ≤ 2 ^ lp_lmc p ≤ 128.
Proof.
  intros (_ & Hl & _). assert (2 ^ lp_lmc p ≤ 2 ^ 7) by (apply Z.pow_le_mono_r; lia).
  assert (0 < 2 ^ lp_lmc p) by (apply Z.pow_pos_nonneg; lia). lia.
Qed.

Lemma lid_range_ho p :
  disc_ok p →
  osm_port_get_lid_range_ho p = (port_base_lid_ho p, port_base_lid_ho p + 2 ^ lp_lmc p - 1).
Proof.
  intros Hok. pose proof (disc_ok_pow p Hok). destruct Hok as (_ & Hl & Hb & He & _).
  unfold osm_port_get_lid_range_ho. rewrite Z.shiftl_1_l, u16_lid by lia. done.
Qed.

Lemma trim_lid_id x : 0 ≤ x ≤ IB_LID_UCAST_END_HO → trim_lid x = x.
Proof. intros Hx. unfold trim_lid. case_match; lid_lia. Qed.

Lemma tbl_get_set m lid g lid' :
  0 ≤ lid → 0 ≤ lid' →
  tbl_get (tbl_set m lid g) lid' = if decide (lid = lid') then g else tbl_get m lid'.
Proof.
  intros H1 H2. unfold tbl_get, tbl_set. simpl. case_decide as E.
  - subst. by rewrite vec_set_lookup_eq.
  - rewrite vec_set_lookup_ne by lia. done.
Qed.

Lemma tbl_fill m f l lid :
  (∀ x, x ∈ l → 0 ≤ x) → 0 ≤ lid →
  tbl_get (foldl (λ m x, tbl_set m x (f x)) m l) lid
  = if decide (lid ∈ l) then f lid else tbl_get m lid.
Proof.
  intros Hl Hlid. revert m. induction l as [|x l IH]; intros m; cbn [foldl].
  { rewrite decide_False; [done|]. apply not_elem_of_nil. }
  rewrite IH by (intros y Hy; apply Hl; by right).
  rewrite tbl_get_set by (done || (apply Hl; left)).
  destruct (decide (lid ∈ l)) as [Hin|Hin].
  - rewrite decide_True; [done|by right].
  - destruct (decide (x = lid)) as [->|Hne].
    + rewrite decide_True; [done|left].
    + rewrite decide_False; [done|]. by intros [?|?]%elem_of_cons.
Qed.

Lemma tbl_fill_length m f l :
  (∀ x, x ∈ l → 0 ≤ x ≤ IB_LID_UCAST_END_HO) →
  Z.of_nat (length (port_lid_tbl m)) ≤ IB_LID_UCAST_END_HO + 1 →
  Z.of_nat (length (port_lid_tbl (foldl (λ m x, tbl_set m x (f x)) m l)))
    ≤ IB_LID_UCAST_END_HO + 1.
Proof.
  intros Hl. apply (foldl_inv (λ m, Z.of_nat (length (port_lid_tbl m)) ≤ IB_LID_UCAST_END_HO + 1)).
  intros m' x Hx Hm. unfold tbl_set. simpl. rewrite vec_set_length. specialize (Hl x Hx). lid_lia.
Qed.

(** The persistent entry of a port fits the number of LIDs it needs. *)
Definition entry_fits (d : D) (p : lm_port) : Prop :=
  match osm_db_guid2lid_get d (port_guid_ho p) with
  | Some (min_lid, max_lid) =>
      port_num_lids p = 1
      ∨ ((lmc_num_lids | min_lid) ∧ min_lid + lmc_num_lids - 1 ≤ max_lid)
  | None => False
  end.

#[export] Instance entry_fits_decision d p : Decision (entry_fits d p).
Proof.
  unfold entry_fits. destruct (osm_db_guid2lid_get d (port_guid_ho p)) as [[mn mx]|]; [|apply _].
  apply or_dec; [apply _|]. apply and_dec; [|apply _].
  assert (0 ≤ lmc_num_lids) by (by apply Z.mod_pos_bound).
  destruct (decide (Z.gcd lmc_num_lids mn = lmc_num_lids)) as [Hd|Hd];
    [left|right]; by rewrite Z.divide_gcd_iff.
Defined.

(** The two parts of the body of the loop: the table, then the map. *)
Definition discover_tbl m (p : lm_port) : osm_lid_mgr D :=
  foldl (λ m lid, tbl_set m lid
      (if lid <? port_base_lid_ho p + lmc_num_lids then Some (lp_guid p) else None))
    m (lid_range (port_base_lid_ho p) (port_base_lid_ho p + 2 ^ lp_lmc p - 1)).

Lemma discover_port_unfold m p :
  disc_ok p →
  discover_port m p =
  let m := discover_tbl m p in
  match osm_db_guid2lid_get (p_g2l m) (port_guid_ho p) with
  | None => m
  | Some (db_min_lid, db_max_lid) =>
      if negb (port_num_lids p =? 1) &&
         (negb (Z.land db_min_lid lmc_mask =? db_min_lid)
          || (db_max_lid - db_min_lid + 1 <? port_num_lids p))
      then m <| p_g2l := osm_db_guid2lid_delete (p_g2l m) (port_guid_ho p) |>
             <| used_lids := used_lids m ∖ list_to_set (lid_range db_min_lid db_max_lid) |>
      else m
  end.
Proof.
  intros Hok. pose proof (disc_ok_pow p Hok). pose proof Hok as (_ & Hl & Hb & He & _).
  unfold discover_port. rewrite lid_range_ho by done.
  rewrite !trim_lid_id by lia. done.
Qed.

Lemma discover_tbl_keeps m p :
  p_g2l (discover_tbl m p) = p_g2l m ∧ free_ranges (discover_tbl m p) = free_ranges m
  ∧ used_lids (discover_tbl m p) = used_lids m.
Proof.
  unfold discover_tbl. split_and!;
    [by apply (foldl_keeps p_g2l)|by apply (foldl_keeps free_ranges)
    |by apply (foldl_keeps used_lids)].
Qed.

(** What the loop body does to the map and the used LIDs: it keeps an entry that
    fits and otherwise deletes it with its LIDs. *)
Lemma discover_port_db m p :
  lmc_ok → disc_ok p → guid_ok (port_guid_ho p) → db_ok (p_g2l m) (used_lids m) →
  let m' := discover_port m p in
  db_ok (p_g2l m') (used_lids m') ∧ free_ranges m' = free_ranges m
  ∧ (∀ g, guid_ok g → g ≠ port_guid_ho p →
       osm_db_guid2lid_get (p_g2l m') g = osm_db_guid2lid_get (p_g2l m) g)
  ∧ (entry_fits (p_g2l m) p →
     osm_db_guid2lid_get (p_g2l m') (port_guid_ho p)
     = osm_db_guid2lid_get (p_g2l m) (port_guid_ho p))
  ∧ (¬ entry_fits (p_g2l m) p → osm_db_guid2lid_get (p_g2l m') (port_guid_ho p) = None)
  ∧ port_lid_tbl m' = port_lid_tbl (discover_tbl m p).
Proof.
  intros Hl Hok Hg Hdb. simpl. rewrite discover_port_unfold by done. simpl.
  destruct (discover_tbl_keeps m p) as (E1 & E2 & E3). unfold entry_fits.
  rewrite E1. pose proof (lmc_num_lids_range Hl) as HN.
  destruct (osm_db_guid2lid_get (p_g2l m) (port_guid_ho p)) as [[mn mx]|] eqn:Hget.
  2:{ split_and!; try done; by rewrite ?E1, ?E3. }
  destruct (db_entry _ _ Hdb _ mn mx Hg Hget) as (H1 & H2 & H3 & H4 & H5).
  assert (Hmask : Z.land mn lmc_mask = mn ↔ (lmc_num_lids | mn))
    by (apply lmc_mask_aligned; [done|lid_lia]).
  destruct (_ && _) eqn:Hbad.
  - apply andb_true_iff in Hbad as [Hn1 Hbad].
    apply negb_true_iff, Z.eqb_neq in Hn1.
    assert (Hn : port_num_lids p = lmc_num_lids) by (by destruct (port_num_lids_cases p)).
    rewrite Hn in *.
    assert (Hnot : ¬ ((lmc_num_lids | mn) ∧ mn + lmc_num_lids - 1 ≤ mx)).
    { intros [Ha Hw]. apply orb_true_iff in Hbad as [Hbad|Hbad].
      - apply negb_true_iff, Z.eqb_neq in Hbad. by apply Hbad, Hmask.
      - apply Z.ltb_lt in Hbad. lia. }
    (* the LIDs that are cleared are the entry's own *)
    assert (Hown : ∀ x, mn ≤ x ≤ mx → eff mn mx x).
    { intros x Hx. unfold eff. destruct H4 as [Heq|Ha]; [lia|].
      assert (mx < mn + lmc_num_lids - 1) by (apply Z.nle_gt; intros ?; by apply Hnot). lia. }
    simpl. split_and!; try done.
    + rewrite E3. split.
      * intros g a b Hgo Hga. destruct (decide (g = port_guid_ho p)) as [->|Hne].
        { by rewrite g2l_get_delete_eq in Hga. }
        rewrite g2l_get_delete_ne in Hga by done.
        destruct (db_entry _ _ Hdb g a b Hgo Hga) as (?&?&?&?&Hu). split_and!; try done.
        intros x Hx. apply elem_of_difference. split; [auto|].
        rewrite elem_of_list_to_set, elem_of_lid_range. intros Hx'.
        by apply (db_disjoint _ _ Hdb g (port_guid_ho p) a b mn mx x); auto.
      * intros g g' a b a' b' x Hgo Hgo' Hne Hga Hga'.
        destruct (decide (g = port_guid_ho p)) as [->|Hne1];
          [by rewrite g2l_get_delete_eq in Hga|].
        destruct (decide (g' = port_guid_ho p)) as [->|Hne2];
          [by rewrite g2l_get_delete_eq in Hga'|].
        rewrite g2l_get_delete_ne in Hga, Hga' by done. by apply (db_disjoint _ _ Hdb g g').
    + intros g Hgo Hne. by apply g2l_get_delete_ne.
    + intros [?|?]; [done|by destruct Hnot].
    + intros _. apply g2l_get_delete_eq.
  - assert (Hfit : port_num_lids p = 1
      ∨ ((lmc_num_lids | mn) ∧ mn + lmc_num_lids - 1 ≤ mx)).
    { apply andb_false_iff in Hbad as [Hbad|Hbad].
      - left. by apply negb_false_iff, Z.eqb_eq in Hbad.
      - apply orb_false_iff in Hbad as [Ha%negb_false_iff%Z.eqb_eq Hw%Z.ltb_ge].
        destruct (port_num_lids_cases p) as [?|Hn]; [by left|right].
        rewrite Hn in Hw. split; [by apply Hmask|lia]. }
    rewrite E1, E3. split_and!; try done.
Qed.

(** *** The loop over all ports *)

Definition discover_ports m (l : list lm_port) : osm_lid_mgr D := foldl discover_port m l.

Lemma port_guid_ho_ok p : guid_ok (lp_guid p) → guid_ok (port_guid_ho p).
Proof. intros Hg. by apply cl_ntoh64_range. Qed.

Lemma port_guid_ho_inj p q :
  guid_ok (lp_guid p) → guid_ok (lp_guid q) → port_guid_ho p = port_guid_ho q →
  lp_guid p = lp_guid q.
Proof. intros Hp Hq. by apply cl_ntoh64_inj. Qed.

Lemma discover_ports_db l m :
  lmc_ok → Forall disc_ok l → NoDup (lp_guid <$> l) → db_ok (p_g2l m) (used_lids m) →
  let m' := discover_ports m l in
  db_ok (p_g2l m') (used_lids m') ∧ free_ranges m' = free_ranges m
  ∧ (∀ g, guid_ok g → (∀ p, p ∈ l → g ≠ port_guid_ho p) →
       osm_db_guid2lid_get (p_g2l m') g = osm_db_guid2lid_get (p_g2l m) g)
  ∧ ∀ p, p ∈ l →
      (entry_fits (p_g2l m) p →
       osm_db_guid2lid_get (p_g2l m') (port_guid_ho p)
       = osm_db_guid2lid_get (p_g2l m) (port_guid_ho p))
      ∧ (¬ entry_fits (p_g2l m) p → osm_db_guid2lid_get (p_g2l m') (port_guid_ho p) = None).
Proof.
  intros Hl. revert m. induction l as [|p l IH]; intros m Hok Hnd Hdb; simpl.
  { split_and!; try done. intros p Hp. by apply not_elem_of_nil in Hp. }
  apply Forall_cons in Hok as [Hp Hok]. rewrite fmap_cons, NoDup_cons in Hnd.
  destruct Hnd as [Hnp Hnd]. pose proof (port_guid_ho_ok p (proj1 Hp)) as Hpg.
  destruct (discover_port_db m p Hl Hp Hpg Hdb) as (H1 & H2 & H3 & H4 & H5 & _).
  destruct (IH (discover_port m p) Hok Hnd H1) as (I1 & I2 & I3 & I4).
  rewrite Forall_forall in Hok.
  assert (Hdiff : ∀ q, q ∈ l → port_guid_ho q ≠ port_guid_ho p).
  { intros q Hq E. apply Hnp. apply port_guid_ho_inj in E; [|apply (Hok q Hq)|apply Hp].
    rewrite <-E. by apply list_elem_of_fmap_2. }
  split_and!; [done|by rewrite I2| |].
  - intros g Hg Hni. rewrite I3; [apply H3; [done|apply Hni; left]|done|].
    intros q Hq. apply Hni. by right.
  - intros q [-> | Hq]%elem_of_cons.
    + rewrite I3; [by split|done|]. intros q Hq E. by apply (Hdiff q Hq).
    + assert (Hqg : guid_ok (port_guid_ho q)) by apply port_guid_ho_ok, (Hok q Hq).
      destruct (I4 q Hq) as [J1 J2]. unfold entry_fits in *.
      rewrite (H3 (port_guid_ho q) Hqg (Hdiff q Hq)) in J1, J2. by split.
Qed.

(** The table after the loop: a port stands only at LIDs it was found with, and
    at those no other port was found with. *)
Lemma discover_ports_tbl l m :
  lmc_ok → Forall disc_ok l → NoDup (lp_guid <$> l) → db_ok (p_g2l m) (used_lids m) →
  Z.of_nat (length (port_lid_tbl m)) ≤ IB_LID_UCAST_END_HO + 1 →
  let m' := discover_ports m l in
  Z.of_nat (length (port_lid_tbl m')) ≤ IB_LID_UCAST_END_HO + 1
  ∧ (∀ lid g, 0 ≤ lid → tbl_get m' lid = Some g →
       tbl_get m lid = Some g ∨ ∃ p, p ∈ l ∧ lp_guid p = g ∧ discovered p lid)
  ∧ (∀ lid p, 0 ≤ lid → p ∈ l → discovered p lid → lid < port_base_lid_ho p + lmc_num_lids →
       (∀ q, q ∈ l → q ≠ p → ¬ discovered q lid) → tbl_get m' lid = Some (lp_guid p))
  ∧ (∀ lid, 0 ≤ lid → (∀ p, p ∈ l → ¬ discovered p lid) → tbl_get m' lid = tbl_get m lid).
Proof.
  intros Hl. revert m. induction l as [|p l IH]; intros m Hok Hnd Hdb Hlen; simpl.
  { split_and!; try done; [by left|]. intros lid p _ Hp. by apply not_elem_of_nil in Hp. }
  apply Forall_cons in Hok as [Hp Hok]. rewrite fmap_cons, NoDup_cons in Hnd.
  destruct Hnd as [Hnp Hnd]. pose proof (port_guid_ho_ok p (proj1 Hp)) as Hpg.
  destruct (discover_port_db m p Hl Hp Hpg Hdb) as (H1 & _ & _ & _ & _ & Htbl).
  pose proof (disc_ok_pow p Hp) as Hpow. pose proof Hp as (_ & _ & Hb & He & _).
  assert (Hget : ∀ lid, 0 ≤ lid → tbl_get (discover_port m p) lid
    = if decide (lid ∈ lid_range (port_base_lid_ho p) (port_base_lid_ho p + 2 ^ lp_lmc p - 1))
      then if lid <? port_base_lid_ho p + lmc_num_lids then Some (lp_guid p) else None
      else tbl_get m lid).
  { intros lid Hlid. unfold tbl_get at 1. rewrite Htbl.
    apply (tbl_fill m (λ lid, if lid <? port_base_lid_ho p + lmc_num_lids
                              then Some (lp_guid p) else None)); [|done].
    intros x. rewrite elem_of_lid_range. lia. }
  assert (Hlen1 : Z.of_nat (length (port_lid_tbl (discover_port m p)))
                  ≤ IB_LID_UCAST_END_HO + 1).
  { rewrite Htbl. apply tbl_fill_length; [|done]. intros x. rewrite elem_of_lid_range. lia. }
  destruct (IH (discover_port m p) Hok Hnd H1 Hlen1) as (I1 & I2 & I3 & I4).
  split_and!; [done| | |].
  - intros lid g Hlid Hg. destruct (I2 lid g Hlid Hg) as [Ht|(q & Hq & Hqg & Hd)].
    2:{ right. exists q. split; [by right|done]. }
    rewrite Hget in Ht by done. case_decide as Hin; [|by left].
    case_match; [|done]. injection Ht as <-. right. exists p. split; [left|]. split; [done|].
    by apply elem_of_lid_range in Hin.
  - intros lid q Hlid [-> | Hq]%elem_of_cons Hd Hlt Hno.
    + rewrite I4; [|done|].
      * rewrite Hget by done. rewrite decide_True by by apply elem_of_lid_range.
        by destruct (Z.ltb_spec lid (port_base_lid_ho p + lmc_num_lids)); [|lia].
      * intros r Hr. apply Hno; [by right|]. intros ->. apply Hnp. by apply list_elem_of_fmap_2.
    + apply I3; try done. intros r Hr. apply Hno. by right.
  - intros lid Hlid Hno. rewrite I4; [|done|intros q Hq; apply Hno; by right].
    rewrite Hget by done. rewrite decide_False; [done|].
    rewrite elem_of_lid_range. apply (Hno p). left.
Qed.

(** ** The ports' blocks are left out of the free ranges *)

(** Where a jump of the scan ends. *)
Lemma scan_lid_jump m y :
  lmc_ok → map_Forall (λ g p, lp_guid p = g ∧ disc_ok p) (lm_port_guid_tbl env) →
  (scan_lid m y).2 = y
  ∨ ∃ q, tbl_get m y = Some (lp_guid q) ∧ lm_port_guid_tbl env !! lp_guid q = Some q
      ∧ (scan_lid m y).2 = port_base_lid_ho q + port_num_lids q - 1
      ∧ (port_num_lids q | port_base_lid_ho q).
Proof.
  intros Hl Htbl. pose proof (lmc_num_lids_range Hl) as HN. unfold scan_lid.
  destruct (is_used m y); [by left|].
  destruct (tbl_get m y) as [g|] eqn:Eg; cbn [mbind option_bind]; [|by left].
  destruct (lm_port_guid_tbl env !! g) as [q|] eqn:Eq; [|by left].
  destruct (Htbl g q Eq) as [<- Hok]. pose proof (disc_ok_pow q Hok) as Hpow.
  pose proof Hok as (_ & Hlm & Hb & He & Hsw).
  destruct (osm_db_guid2lid_get _ _) as [?|]; [by left|]. rewrite lid_range_ho by done.
  set (dmax := match lp_sw q with Some _ => _ | None => _ end).
  assert (Hdmax : dmax = port_base_lid_ho q + port_num_lids q - 1).
  { subst dmax. unfold port_num_lids. destruct (lp_sw q) as [e|].
    - destruct (osm_switch_sp0_is_lmc_capable e) eqn:Ee; [apply u16_small; lid_lia|].
      rewrite (Hsw e eq_refl Ee). done.
    - apply u16_small. lid_lia. }
  destruct (negb (port_num_lids q =? 1) && _) eqn:Hal; [by left|].
  destruct (existsb _ _); [by left|]. simpl.
  destruct (Z.ltb_spec y dmax); [|by left]. right. exists q. split_and!; try done.
  apply andb_false_iff in Hal as [Hal|Hal].
  - apply negb_false_iff, Z.eqb_eq in Hal. rewrite Hal. apply Z.divide_1_l.
  - apply negb_false_iff, Z.eqb_eq in Hal. apply lmc_mask_aligned in Hal; [|done|lid_lia].
    destruct (port_num_lids_cases q) as [-> | ->]; [apply Z.divide_1_l|done].
Qed.

Lemma aligned_end x num :
  lmc_ok → num = 1 ∨ num = lmc_num_lids → (num | x) → x ≤ IB_LID_UCAST_END_HO →
  x + num - 1 ≤ IB_LID_UCAST_END_HO.
Proof.
  intros Hl Hn [k Hk] Hx. destruct Hn as [->|Hn]; [lia|].
  rewrite lmc_num_lids_pow in Hn by done. unfold lmc_ok in Hl.
  assert (Hdiv : (num | IB_LID_UCAST_END_HO + 1)).
  { rewrite Hn. exists (384 * 2 ^ (7 - opt_lmc env)).
    rewrite <-Z.mul_assoc, <-Z.pow_add_r by lia. by replace (7 - opt_lmc env + opt_lmc env) with 7 by lia. }
  destruct Hdiv as [j Hj]. assert (0 < num) by (rewrite Hn; apply Z.pow_pos_nonneg; lia).
  assert (k < j) by nia. nia.
Qed.

(** A port that may keep its LIDs is a protected block of the scan. *)
Lemma port_protected m p :
  lmc_ok → map_Forall (λ g p, lp_guid p = g ∧ disc_ok p) (lm_port_guid_tbl env) →
  lm_port_guid_tbl env !! lp_guid p = Some p →
  osm_db_guid2lid_get (p_g2l m) (port_guid_ho p) = None →
  tbl_get m (port_base_lid_ho p) = Some (lp_guid p) →
  (∀ y q, 0 ≤ y → tbl_get m y = Some (lp_guid q) →
     lm_port_guid_tbl env !! lp_guid q = Some q → discovered q y) →
  port_base_lid_ho p ≠ 0 → (port_num_lids p | port_base_lid_ho p) →
  (∀ x, needed p x → x ∉ used_lids m) →
  protected m (port_base_lid_ho p) (port_base_lid_ho p + port_num_lids p - 1).
Proof.
  intros Hl Htbl Hp Hnone Hat Hdisc Hz Hal Hun.
  destruct (Htbl _ _ Hp) as [_ Hok]. pose proof Hok as (_ & Hlm & Hb & He & Hsw).
  pose proof (lmc_num_lids_range Hl) as HN. pose proof (disc_ok_pow p Hok) as Hpow.
  assert (Hnum : 1 ≤ port_num_lids p ≤ lmc_num_lids)
    by (destruct (port_num_lids_cases p) as [-> | ->]; lia).
  split; [lia|]. split.
  - unfold scan_lid. rewrite (proj2 (is_used_false _ _)); [|apply Hun; unfold needed; lia].
    rewrite Hat. cbn [mbind option_bind]. rewrite Hp, Hnone, lid_range_ho by done.
    set (dmax := match lp_sw p with Some _ => _ | None => _ end).
    assert (Hdmax : dmax = port_base_lid_ho p + port_num_lids p - 1).
    { subst dmax. unfold port_num_lids. destruct (lp_sw p) as [e|].
      - destruct (osm_switch_sp0_is_lmc_capable e) eqn:Ee; [apply u16_small; lid_lia|].
        rewrite (Hsw e eq_refl Ee). done.
      - apply u16_small. lid_lia. }
    rewrite Hdmax.
    replace (negb (port_num_lids p =? 1) && _) with false.
    2:{ symmetry. destruct (Z.eqb_spec (port_num_lids p) 1) as [|Hn]; [done|]. simpl.
        apply negb_false_iff, Z.eqb_eq, lmc_mask_aligned; [done|lid_lia|].
        destruct (port_num_lids_cases p) as [?|Hn']; [done|by rewrite <-Hn']. }
    replace (existsb _ _) with false.
    2:{ symmetry. apply not_true_is_false. rewrite existsb_exists.
        intros (x & Hx & [_ Hu]%andb_true_iff).
        apply list_elem_of_In, elem_of_lid_range in Hx.
        unfold is_used in Hu. apply bool_decide_eq_true in Hu.
        apply (Hun x); [unfold needed; lia|done]. }
    f_equal. destruct (Z.ltb_spec (port_base_lid_ho p) (port_base_lid_ho p + port_num_lids p - 1));
      lia.
  - intros y Hy. destruct (scan_lid_jump m y Hl Htbl) as [->|(q & Hq & Hqp & -> & Hqal)]; [lia|].
    pose proof (Hdisc y q ltac:(lia) Hq Hqp) as [Hqy _].
    destruct (port_num_lids_cases p) as [Ep|Ep]; rewrite Ep in *; [lia|].
    destruct (port_num_lids_cases q) as [Eq|Eq]; rewrite Eq in *; [lia|]. left.
    destruct Hal as [a Ha], Hqal as [b Hb']. assert (b < a) by nia. nia.
Qed.

(** ** Validation of the persistent map *)

(** The entries of the GUIDs of a list are consistent with the used LIDs. *)
Definition validated m (l : list Z) : Prop :=
  (∀ g mn mx, g ∈ l → osm_db_guid2lid_get (p_g2l m) g = Some (mn, mx) →
     1 ≤ mn ∧ mn ≤ mx ∧ mx ≤ IB_LID_UCAST_END_HO ∧ (mn = mx ∨ (lmc_num_lids | mn))
     ∧ ∀ x, eff mn mx x → x ∈ used_lids m)
  ∧ (∀ g g' mn mx mn' mx' x, g ∈ l → g' ∈ l → g ≠ g' →
       osm_db_guid2lid_get (p_g2l m) g = Some (mn, mx) →
       osm_db_guid2lid_get (p_g2l m) g' = Some (mn', mx') →
       eff mn mx x → eff mn' mx' x → False).

(** One round keeps the entry of its GUID, with its LIDs newly marked, or
    deletes it. *)
Lemma validate_guid_cases m g :
  lmc_ok → guid_ok g →
  let m' := validate_guid m g in
  (osm_db_guid2lid_get (p_g2l m') g = None ∧ used_lids m' = used_lids m
   ∧ ∀ g', guid_ok g' → g' ≠ g →
       osm_db_guid2lid_get (p_g2l m') g' = osm_db_guid2lid_get (p_g2l m) g')
  ∨ (p_g2l m' = p_g2l m
     ∧ ∃ mn mx, osm_db_guid2lid_get (p_g2l m) g = Some (mn, mx)
       ∧ 1 ≤ mn ∧ mn ≤ mx ∧ mx ≤ IB_LID_UCAST_END_HO ∧ (mn = mx ∨ (lmc_num_lids | mn))
       ∧ (∀ x, mn ≤ x ≤ mx → x ∉ used_lids m)
       ∧ ∀ x, x ∈ used_lids m' ↔ x ∈ used_lids m ∨ eff mn mx x).
Proof.
  intros Hl Hg. simpl. unfold validate_guid.
  destruct (osm_db_guid2lid_get (p_g2l m) g) as [[mn mx]|] eqn:Hget; [|by left].
  destruct (g2l_get_range _ _ _ _ Hget) as [Hmn Hmx]. unfold lid_ok in *.
  destruct (if (mx <? mn) || _ || _ || _ then false else _) eqn:Hok.
  2:{ left. simpl. split_and!; [apply g2l_get_delete_eq|done|].
      intros g' Hg' Hne. by apply g2l_get_delete_ne. }
  right. destruct ((mx <? mn) || _ || _ || _) eqn:Hbad; [done|].
  rewrite !orb_false_iff in Hbad. destruct Hbad as [[[H1%Z.ltb_ge H2%Z.eqb_neq] _] _].
  destruct (negb (mn =? mx) && _) eqn:Hal; [done|].
  split; [done|]. exists mn, mx. split_and!; try done; try lia.
  - apply andb_false_iff in Hal as [Hal|Hal]; apply negb_false_iff, Z.eqb_eq in Hal; [by left|].
    right. apply num_mask_aligned in Hal; [done|done|by right|lid_lia].
  - intros x Hx. rewrite forallb_forall in Hok. apply is_used_false, negb_true_iff, Hok.
    by apply list_elem_of_In, elem_of_lid_range.
  - intros x. simpl. rewrite elem_of_union, elem_of_list_to_set, list_elem_of_filter,
      elem_of_lid_range. unfold eff. by rewrite (and_comm (x < _)).
Qed.

Lemma validate_guid_step m g l :
  lmc_ok → guid_ok g → (∀ g', g' ∈ l → guid_ok g') →
  validated m l → validated (validate_guid m g) (g :: l).
Proof.
  intros Hl Hg Hlg [Hv1 Hv2].
  destruct (validate_guid_cases m g Hl Hg) as
    [(Hn & Hu & Hoth)|(Hd & mn & mx & Hget & H1 & H2 & H3 & H4 & Hfresh & Hu)].
  - assert (Hget : ∀ g' r, g' ∈ g :: l → osm_db_guid2lid_get (p_g2l (validate_guid m g)) g' = Some r →
      g' ∈ l ∧ osm_db_guid2lid_get (p_g2l m) g' = Some r).
    { intros g' r Hg' Hr. destruct (decide (g' = g)) as [->|Hne]; [by rewrite Hn in Hr|].
      apply elem_of_cons in Hg' as [?|Hg']; [done|]. rewrite Hoth in Hr by auto. done. }
    split.
    + intros g' a b Hin Hr. apply Hget in Hr as [Hin' Hr]; [|done]. rewrite Hu.
      by apply (Hv1 g').
    + intros g1 g2 a b a' b' x Hin1 Hin2 Hne Hr1 Hr2.
      apply Hget in Hr1 as [Hin1' Hr1]; [|done]. apply Hget in Hr2 as [Hin2' Hr2]; [|done].
      by apply (Hv2 g1 g2).
  - (* an entry of an earlier GUID is marked, so it is apart from the new one *)
    assert (Hapart : ∀ g' a b x, g' ∈ l → osm_db_guid2lid_get (p_g2l m) g' = Some (a, b) →
      eff a b x → eff mn mx x → False).
    { intros g' a b x Hin Hr Hx [Hx' _]. apply (Hfresh x Hx'). by apply (Hv1 g' a b Hin Hr). }
    unfold validated. rewrite Hd. split.
    + intros g' a b Hin Hr. destruct (decide (g' = g)) as [->|Hne].
      * rewrite Hget in Hr. injection Hr as <- <-. split_and!; try done.
        intros x Hx. apply Hu. by right.
      * apply elem_of_cons in Hin as [?|Hin]; [done|].
        destruct (Hv1 g' a b Hin Hr) as (?&?&?&?&Hm). split_and!; try done.
        intros x Hx. apply Hu. left. auto.
    + intros g1 g2 a b a' b' x Hin1 Hin2 Hne Hr1 Hr2 Hx Hx'.
      destruct (decide (g1 = g)) as [->|Hg1]; [|destruct (decide (g2 = g)) as [->|Hg2]].
      * rewrite Hget in Hr1. injection Hr1 as <- <-.
        apply elem_of_cons in Hin2 as [?|Hin2]; [congruence|]. by apply (Hapart g2 a' b' x).
      * rewrite Hget in Hr2. injection Hr2 as <- <-.
        apply elem_of_cons in Hin1 as [?|Hin1]; [congruence|]. by apply (Hapart g1 a b x).
      * apply elem_of_cons in Hin1 as [?|Hin1], Hin2 as [?|Hin2]; [congruence..|].
        by apply (Hv2 g1 g2 a b a' b' x).
Qed.

Lemma validate_guid_shrinks m g g' r :
  lmc_ok → guid_ok g → guid_ok g' →
  osm_db_guid2lid_get (p_g2l (validate_guid m g)) g' = Some r →
  osm_db_guid2lid_get (p_g2l m) g' = Some r.
Proof.
  intros Hl Hg Hg' Hr. destruct (validate_guid_cases m g Hl Hg) as [(Hn & _ & Hoth)|[Hd _]].
  - destruct (decide (g' = g)) as [->|Hne]; [by rewrite Hn in Hr|]. by rewrite Hoth in Hr.
  - by rewrite Hd in Hr.
Qed.

Lemma validate_db_ok m :
  lmc_ok → db_ok (p_g2l (lid_mgr_validate_db m)) (used_lids (lid_mgr_validate_db m)).
Proof.
  intros Hl. unfold lid_mgr_validate_db.
  set (l := osm_db_guid2lid_guids (p_g2l m)).
  assert (Hlg : ∀ g, g ∈ l → guid_ok g) by (intros g; apply g2l_guids_ok).
  assert (Hmain : ∀ l' done_ m1, (∀ g, g ∈ l' → guid_ok g) → (∀ g, g ∈ done_ → guid_ok g) →
    validated m1 done_ →
    let m2 := foldl validate_guid m1 l' in
    validated m2 (reverse l' ++ done_)
    ∧ ∀ g r, guid_ok g → osm_db_guid2lid_get (p_g2l m2) g = Some r →
        osm_db_guid2lid_get (p_g2l m1) g = Some r).
  { intros l'. induction l' as [|g l' IH]; intros done_ m1 H1 H2 Hv; simpl; [done|].
    assert (Hg : guid_ok g) by (apply H1; left).
    destruct (IH (g :: done_) (validate_guid m1 g)) as [I1 I2].
    - intros g' Hg'. apply H1. by right.
    - intros g' [-> | Hg']%elem_of_cons; auto.
    - by apply validate_guid_step.
    - split.
      + rewrite reverse_cons, <-app_assoc. exact I1.
      + intros g' r Hg' Hr. by apply (validate_guid_shrinks m1 g), I2. }
  destruct (Hmain l [] m) as [[Hv1 Hv2] Hsh]; [done|intros g Hg; by apply not_elem_of_nil in Hg| |].
  { split; intros *; intros Hg; by apply not_elem_of_nil in Hg. }
  set (m2 := foldl validate_guid m l) in *. rewrite app_nil_r in *.
  assert (Hin : ∀ g r, guid_ok g → osm_db_guid2lid_get (p_g2l m2) g = Some r → g ∈ reverse l).
  { intros g r Hg Hr. apply elem_of_reverse, g2l_guids_complete; [done|]. eauto. }
  split.
  - intros g mn mx Hg Hr. apply (Hv1 g); [by eapply Hin|done].
  - intros g g' mn mx mn' mx' x Hg Hg' Hne Hr Hr'.
    apply (Hv2 g g' mn mx mn' mx' x); [by eapply Hin|by eapply Hin|done..].
Qed.

(** [lid_mgr_validate_db] makes any persistent map, whatever its file held,
    consistent: afterwards every entry is a range of unicast LIDs aligned to the
    LMC, its LIDs are marked as used, and no two entries share a LID. *)
Theorem lid_mgr_validate_db_ok m :
  lmc_ok → db_ok (p_g2l (lid_mgr_validate_db m)) (used_lids (lid_mgr_validate_db m)).
Proof. exact (validate_db_ok m). Qed.

(** ** A whole sweep *)

Definition subnet_ok : Prop :=
  lmc_ok ∧ 0 ≤ max_ucast_lid_ho env ≤ IB_LID_UCAST_END_HO
  ∧ map_Forall (λ g p, lp_guid p = g ∧ disc_ok p) (lm_port_guid_tbl env).

(** No other port was found with the base LID of a port that has no fitting
    persistent entry. *)
Definition lids_unshared (d : D) : Prop :=
  ∀ p q, lm_port_guid_tbl env !! lp_guid p = Some p →
    lm_port_guid_tbl env !! lp_guid q = Some q → q ≠ p →
    ¬ entry_fits d p → port_base_lid_ho p ≠ 0 → ¬ discovered q (port_base_lid_ho p).

Lemma sweep_db_ok m :
  lmc_ok → db_ok (p_g2l m) (used_lids m) →
  db_ok (p_g2l (sweep_db m)) (used_lids (sweep_db m)) ∧ port_lid_tbl (sweep_db m) = port_lid_tbl m.
Proof.
  intros Hl Hdb.
  assert (Hempty : ∀ d u, db_ok (osm_db_clear d) u).
  { intros d u. split; intros *; rewrite ?g2l_get_clear; done. }
  unfold sweep_db. case_match; [by split; [apply Hempty|]|].
  case_match; [|done]. case_match; [by split; [apply Hempty|]|].
  split; [by apply validate_db_ok|]. unfold lid_mgr_validate_db.
  rewrite (foldl_keeps port_lid_tbl); [done|]. intros m' g. unfold validate_guid.
  by repeat case_match.
Qed.

Lemma port_items_elem p :
  map_Forall (λ g p, lp_guid p = g ∧ disc_ok p) (lm_port_guid_tbl env) →
  p ∈ snd <$> qmap_items (lm_port_guid_tbl env) ↔ lm_port_guid_tbl env !! lp_guid p = Some p.
Proof.
  intros Htbl. rewrite list_elem_of_fmap. split.
  - intros ([g q] & -> & Hin%elem_of_qmap_items). simpl. by destruct (Htbl g q Hin) as [-> _].
  - intros Hp. exists (lp_guid p, p). split; [done|]. by apply elem_of_qmap_items.
Qed.

Lemma port_items_guids :
  map_Forall (λ g p, lp_guid p = g ∧ disc_ok p) (lm_port_guid_tbl env) →
  lp_guid <$> (snd <$> qmap_items (lm_port_guid_tbl env)) = fst <$> qmap_items (lm_port_guid_tbl env).
Proof.
  intros Htbl. rewrite <-list_fmap_compose. apply list_fmap_ext.
  intros i [g p] Hi. simpl. apply list_elem_of_lookup_2, elem_of_qmap_items in Hi.
  by destruct (Htbl g p Hi).
Qed.

(** After the start of a sweep the invariant holds, every port is pending, and
    the map has kept the entries that fit. *)
Lemma init_sweep_ok m :
  subnet_ok → db_ok (p_g2l m) (used_lids m) →
  Z.of_nat (length (port_lid_tbl m)) ≤ IB_LID_UCAST_END_HO + 1 →
  (reassigning = false → lids_unshared (p_g2l (sweep_db m))) →
  let m' := lid_mgr_init_sweep m in
  lid_inv m'
  ∧ (∀ p, lm_port_guid_tbl env !! lp_guid p = Some p → pending m' p)
  ∧ (∀ p, lm_port_guid_tbl env !! lp_guid p = Some p → entry_fits (p_g2l (sweep_db m)) p →
       osm_db_guid2lid_get (p_g2l m') (port_guid_ho p)
       = osm_db_guid2lid_get (p_g2l (sweep_db m)) (port_guid_ho p)).
Proof.
  intros (Hl & Hmax & Htbl) Hdb Hlen Hun. simpl.
  destruct (sweep_db_ok m Hl Hdb) as [Hdb1 Htl]. unfold lid_mgr_init_sweep.
  set (m1 := (sweep_db m) <| free_ranges := [] |>
    <| port_lid_tbl := (λ _, None) <$> port_lid_tbl (sweep_db m) |>).
  destruct reassigning eqn:Hre.
  { (* one range of all LIDs *)
    assert (Hclear : p_g2l (sweep_db m) = osm_db_clear (p_g2l m) ∧ used_lids (sweep_db m) = ∅).
    { unfold sweep_db. by rewrite Hre. }
    destruct Hclear as [Hc1 Hc2]. split_and!.
    - split; simpl.
      + split; [constructor; [simpl; lid_lia|constructor]|repeat constructor].
      + intros x _. rewrite Hc2. apply not_elem_of_empty.
      + done.
    - intros p Hp. unfold pending. simpl. rewrite Hc1, g2l_get_clear. by rewrite Hre.
    - done. }
  set (m2 := foldl (λ m e, discover_port m e.2) m1 (qmap_items (lm_port_guid_tbl env))).
  assert (Em2 : m2 = discover_ports m1 (snd <$> qmap_items (lm_port_guid_tbl env))).
  { subst m2. unfold discover_ports. generalize m1. clear.
    induction (qmap_items (lm_port_guid_tbl env)) as [|e l IH]; intros m; simpl; [done|]. apply IH. }
  set (l := snd <$> qmap_items (lm_port_guid_tbl env)) in *.
  assert (Hl_ok : Forall disc_ok l).
  { apply Forall_forall. intros p Hp%port_items_elem; [|done]. by destruct (Htbl _ _ Hp). }
  assert (Hl_nd : NoDup (lp_guid <$> l)).
  { subst l. rewrite port_items_guids by done. apply qmap_items_NoDup. }
  assert (Hlen1 : Z.of_nat (length (port_lid_tbl m1)) ≤ IB_LID_UCAST_END_HO + 1).
  { change (port_lid_tbl m1) with ((λ _, None : option Z) <$> port_lid_tbl (sweep_db m)).
    rewrite length_fmap, Htl. done. }
  destruct (discover_ports_db l m1 Hl Hl_ok Hl_nd Hdb1) as (Hdb2 & Hfr & _ & Hent).
  destruct (discover_ports_tbl l m1 Hl Hl_ok Hl_nd Hdb1 Hlen1) as (Hlen2 & Ht1 & Ht2 & _).
  rewrite <-Em2 in *.
  assert (Hempty : ∀ lid g, tbl_get m1 lid ≠ Some g).
  { intros lid g. unfold tbl_get.
    change (port_lid_tbl m1) with ((λ _, None : option Z) <$> port_lid_tbl (sweep_db m)).
    rewrite list_lookup_fmap.
    by destruct (port_lid_tbl (sweep_db m) !! _). }
  assert (Hsmax : scan_max_lid m2 = IB_LID_UCAST_END_HO).
  { unfold scan_max_lid. destruct (Z.eqb_spec (Z.of_nat (length (port_lid_tbl m2))) 0); [done|].
    case_match; [done|]. lid_lia. }
  rewrite Hsmax.
  assert (Hjump : ∀ y, 1 ≤ y ≤ IB_LID_UCAST_END_HO → (scan_lid m2 y).2 < IB_LID_UCAST_END_HO + 129).
  { intros y Hy. pose proof (lmc_num_lids_range Hl).
    destruct (scan_lid_jump m2 y Hl Htbl) as [->|(q & _ & Hq & -> & _)]; [lia|].
    destruct (Htbl _ _ Hq) as [_ Hqok]. pose proof (disc_ok_pow q Hqok).
    destruct Hqok as (_ & _ & _ & He & _).
    destruct (port_num_lids_cases q) as [-> | ->]; lia. }
  pose proof (scan_lids_inv m2 (Z.to_nat IB_LID_UCAST_END_HO) IB_LID_UCAST_END_HO
    (IB_LID_UCAST_END_HO + 129) 1 None [] ltac:(lid_lia) ltac:(lia) (scan_inv_init m2)
    ltac:(lid_lia) Hjump) as Hscan.
  destruct (scan_lids m2 _ _ 1 None []) as [[lid p_range] ranges].
  destruct Hscan as (Hs1 & Hs2 & Hs).
  destruct (close_ranges_ok m2 lid p_range ranges ltac:(lia) ltac:(lid_lia) Hs) as [Hc1 Hc2].
  split_and!.
  - split; simpl; [done| |done]. intros x Hx%Hc2%(scan_free _ _ _ _ Hs).
    destruct (scan_lid m2 x) as [[] x'] eqn:E; [|done]. by apply (scan_lid_free m2 x x').
  - intros p Hp. assert (Hin : p ∈ l) by by apply port_items_elem.
    destruct (Hent p Hin) as [He1 He2]. unfold pending. simpl.
    destruct (osm_db_guid2lid_get (p_g2l m2) (port_guid_ho p)) as [[mn mx]|] eqn:Hget.
    + split; [done|]. destruct (decide (entry_fits (p_g2l m1) p)) as [Hf|Hf].
      * pose proof Hf as Hf'. unfold entry_fits in Hf'. by rewrite <-(He1 Hf) in Hf'.
      * by specialize (He2 Hf).
    + intros _ Hz Hal Hnu. destruct (Htbl _ _ Hp) as [_ Hok].
      pose proof Hok as (_ & _ & Hb & He & _). pose proof (disc_ok_pow p Hok).
      pose proof (lmc_num_lids_range Hl).
      split; [apply (aligned_end _ _ Hl (port_num_lids_cases p) Hal); lia|].
      intros x Hx Hx'%Hc2.
      assert (Hnf : ¬ entry_fits (p_g2l m1) p).
      { intros Hf. pose proof Hf as Hf'. unfold entry_fits in Hf'.
        by rewrite <-(He1 Hf) in Hf'. }
      assert (Hprot : protected m2 (port_base_lid_ho p)
                        (port_base_lid_ho p + port_num_lids p - 1)).
      { apply port_protected; try done.
        - apply Ht2; [done|done|unfold discovered; lia|lia|].
          intros q Hq%port_items_elem Hne; [|done]. by apply (Hun eq_refl p q).
        - intros y q Hy Hq Hqp. destruct (Ht1 y (lp_guid q) Hy Hq) as [Ht|(q' & Hq' & Hg & Hd)];
            [by apply Hempty in Ht|].
          apply port_items_elem in Hq'; [|done]. rewrite Hg in Hq'. by simplify_eq. }
      by apply (proj2 (scan_prot _ _ _ _ Hs _ _ Hprot) x Hx).
  - intros p Hp Hf. assert (Hin : p ∈ l) by by apply port_items_elem.
    by apply (Hent p Hin).
Qed.

Lemma sweep_ports_elem p :
  subnet_ok → p ∈ sweep_ports → lm_port_guid_tbl env !! lp_guid p = Some p.
Proof.
  intros (_ & _ & Htbl). unfold sweep_ports. rewrite elem_of_app, list_elem_of_filter.
  intros [Hp|[_ Hp%port_items_elem]]; [|done|done].
  destruct (lm_port_guid_tbl env !! lm_sm_port_guid env) as [q|] eqn:E; simpl in Hp;
    [|by apply not_elem_of_nil in Hp].
  apply list_elem_of_singleton in Hp as ->. destruct (Htbl _ _ E) as [-> _]. done.
Qed.

Lemma sweep_ports_NoDup : subnet_ok → NoDup (port_guid_ho <$> sweep_ports).
Proof.
  intros Hs. pose proof Hs as (_ & _ & Htbl).
  assert (Hnd : NoDup (lp_guid <$> sweep_ports)).
  { unfold sweep_ports. rewrite fmap_app. apply NoDup_app. split_and!.
    - destruct (_ !! _); simpl; [apply NoDup_singleton|apply NoDup_nil_2].
    - intros g Hg (q & -> & [Hne _]%list_elem_of_filter)%list_elem_of_fmap.
      destruct (lm_port_guid_tbl env !! lm_sm_port_guid env) as [p|] eqn:E; simpl in Hg;
        [|by apply not_elem_of_nil in Hg].
      apply list_elem_of_singleton in Hg. destruct (Htbl _ _ E). congruence.
    - eapply (sublist_NoDup _ (lp_guid <$> (snd <$> qmap_items (lm_port_guid_tbl env)))).
      + rewrite port_items_guids by done. apply qmap_items_NoDup.
      + apply fmap_sublist, sublist_filter. }
  assert (Hok : ∀ p, p ∈ sweep_ports → guid_ok (lp_guid p)).
  { intros p Hp. apply (Htbl _ _ (sweep_ports_elem p Hs Hp)). }
  revert Hnd Hok. induction sweep_ports as [|p l IH]; simpl; [constructor|].
  intros [Hni Hnd]%NoDup_cons Hok. apply NoDup_cons. split.
  - intros (q & E & Hq)%list_elem_of_fmap. apply Hni.
    apply port_guid_ho_inj in E; [|apply Hok; left|apply Hok; by right].
    rewrite E. by apply list_elem_of_fmap_2.
  - apply IH; [done|]. intros q Hq. apply Hok. by right.
Qed.

(** C24. A sweep of the LID manager assigns no LID twice.  On a consistent
    persistent map, when no port without a fitting persistent entry shares its
    base LID with another port, every port of the subnet ends up with a block of
    unicast LIDs of the size it needs, aligned; the blocks are pairwise disjoint;
    a port with a fitting persistent entry keeps that base LID; and the map is
    consistent for the next sweep.  The only other outcome is that at the
    turn of a port no free range held a block of the size it needs. *)
Theorem lid_mgr_sweep_unique m :
  subnet_ok → db_ok (p_g2l m) (used_lids m) →
  Z.of_nat (length (port_lid_tbl m)) ≤ IB_LID_UCAST_END_HO + 1 →
  (reassigning = false → lids_unshared (p_g2l (sweep_db m))) →
  let '(l, m') := lid_mgr_sweep m in
  l.*1 = sweep_ports
  ∧ (out_of_lids (lid_mgr_init_sweep m) sweep_ports
     ∨ db_ok (p_g2l m') (used_lids m')
       ∧ (∀ p mn mx, (p, (mn, mx)) ∈ l →
            1 ≤ mn ∧ mx = mn + port_num_lids p - 1 ∧ mx ≤ IB_LID_UCAST_END_HO
            ∧ (port_num_lids p | mn)
            ∧ ∀ a b, entry_fits (p_g2l (sweep_db m)) p →
                osm_db_guid2lid_get (p_g2l (sweep_db m)) (port_guid_ho p) = Some (a, b) → mn = a)
       ∧ (∀ p mn mx q mn' mx' x, (p, (mn, mx)) ∈ l → (q, (mn', mx')) ∈ l → p ≠ q →
            ¬ (mn ≤ x ≤ mx ∧ mn' ≤ x ≤ mx'))).
Proof.
  intros Hs Hdb Hlen Hun. pose proof Hs as (Hl & _ & Htbl).
  destruct (init_sweep_ok m Hs Hdb Hlen Hun) as (Hi & Hpend & Hkeep).
  assert (Hok : Forall port_ok sweep_ports).
  { apply Forall_forall. intros p Hp. pose proof (sweep_ports_elem p Hs Hp) as Hp'.
    destruct (Htbl _ _ Hp') as [_ Hd]. pose proof (disc_ok_pow p Hd).
    destruct Hd as (Hg & _ & Hb & He & _). split; [by apply port_guid_ho_ok|lid_lia]. }
  pose proof (assign_ports_step sweep_ports (lid_mgr_init_sweep m) Hl Hok
    (sweep_ports_NoDup Hs) Hi ltac:(intros p Hp; by apply Hpend, sweep_ports_elem)) as Hstep.
  rewrite lid_mgr_sweep_ports. destruct (assign_ports _ _) as [l m'].
  destruct Hstep as [Hfst [Hout|(Hi' & Hall & _)]]; (split; [done|]); [by left|right].
  assert (Hport : ∀ p r, (p, r) ∈ l → lm_port_guid_tbl env !! lp_guid p = Some p).
  { intros p r Hp. apply sweep_ports_elem; [done|]. rewrite <-Hfst.
    by apply (list_elem_of_fmap_2 fst _ (p, r)). }
  split_and!.
  - apply Hi'.
  - intros p mn mx Hp. destruct (Hall p mn mx Hp) as (H1 & H2 & H3 & H4 & _ & H6).
    split_and!; try done. intros a b Hf Hab. apply (H6 a b).
    rewrite Hkeep; [done|by eapply Hport|done].
  - intros p mn mx q mn' mx' x Hp Hq Hne [Hx Hx'].
    destruct (Hall p mn mx Hp) as (_ & Hm & _ & _ & Hg & _).
    destruct (Hall q mn' mx' Hq) as (_ & Hm' & _ & _ & Hg' & _).
    pose proof (Hport _ _ Hp) as Hp'. pose proof (Hport _ _ Hq) as Hq'.
    pose proof (lmc_num_lids_range Hl).
    assert (Hsz : ∀ r, port_num_lids r ≤ lmc_num_lids)
      by (intros r; destruct (port_num_lids_cases r) as [-> | ->]; lia).
    pose proof (Hsz p). pose proof (Hsz q).
    destruct (Htbl _ _ Hp') as [_ (Hgp & _)], (Htbl _ _ Hq') as [_ (Hgq & _)].
    apply (db_disjoint _ _ (inv_db _ Hi') (port_guid_ho p) (port_guid_ho q) mn mx mn' mx' x);
      auto using port_guid_ho_ok; [|unfold eff; lia|unfold eff; lia].
    intros E. apply port_guid_ho_inj in E; [|done|done]. apply Hne. congruence.
Qed.
End LidMgr.
