(* ===== verification/CString.v ===== *)
(** * C strings

    A C string is the list of its characters without the terminator.  The
    functions are those of the C library that the text database uses: [strtok_r],
    [strtoull] with base 0, the conversions of [sprintf] it prints with, and the
    lines [fgets] reads. *)

From S2P Require Import Prelude.
From Stdlib Require Ascii String.

Open Scope Z_scope.

Definition cstr := list Z.

(** Literals. *)
Definition str (s : String.string) : cstr :=
  (λ a, Z.of_N (Ascii.N_of_ascii a)) <$> String.list_ascii_of_string s.
Arguments str _%_string_scope.

Definition ch_tab : Z := 9.
Definition ch_nl : Z := 10.
Definition ch_sp : Z := 32.
Definition ch_colon : Z := 58.

(** ** Printing *)

Definition hex_digit (d : Z) : Z := if d <? 10 then 48 + d else 87 + d.

(** [%0<w>x] of a number of at most [w] digits. *)
Fixpoint print_hex (w : nat) (n : Z) : cstr :=
  match w with
  | O => []
  | S w => print_hex w (n / 16) ++ [hex_digit (n mod 16)]
  end.

(** [%u] of a number below [10 ^ fuel]. *)
Fixpoint print_dec (fuel : nat) (n : Z) : cstr :=
  match fuel with
  | O => []
  | S fuel => if n <? 10 then [48 + n] else print_dec fuel (n / 10) ++ [48 + n mod 10]
  end.

(** ** [strtoull (s, &end, 0)]: the number and the rest of the string *)

Definition ULLONG_MAX : Z := 2 ^ 64 - 1.

Definition is_space (c : Z) : bool := (c =? 32) || ((9 <=? c) && (c <=? 13)).

(** The value of a digit, 36 for any other character. *)
Definition digit_val (c : Z) : Z :=
  if (48 <=? c) && (c <=? 57) then c - 48
  else if (97 <=? c) && (c <=? 122) then c - 87
  else if (65 <=? c) && (c <=? 90) then c - 55
  else 36.

Fixpoint skip_spaces (s : cstr) : cstr :=
  match s with
  | c :: s' => if is_space c then skip_spaces s' else s
  | [] => []
  end.

Fixpoint digits (base acc : Z) (s : cstr) : Z * cstr :=
  match s with
  | c :: s' => if digit_val c <? base then digits base (acc * base + digit_val c) s' else (acc, s)
  | [] => (acc, [])
  end.

Definition strtoull (s : cstr) : Z * cstr :=
  let s1 := skip_spaces s in
  let '(neg, s2) := match s1 with
                    | 45 :: s' => (true, s')
                    | 43 :: s' => (false, s')
                    | _ => (false, s1)
                    end in
  let '(base, s3) := match s2 with
                     | 48 :: x :: c :: s' =>
                         if ((x =? 120) || (x =? 88)) && (digit_val c <? 16)
                         then (16, c :: s') else (8, s2)
                     | 48 :: _ => (8, s2)
                     | _ => (10, s2)
                     end in
  match s3 with
  | c :: _ =>
      if digit_val c <? base then
        let '(v, rest) := digits base 0 s3 in
        (if ULLONG_MAX <? v then ULLONG_MAX else if neg then u64 (- v) else v, rest)
      else (0, s)
  | [] => (0, s)
  end.

(** ** [strtok_r]: the next token and what is left after its delimiter *)

Fixpoint skip_delims (delims : list Z) (s : cstr) : cstr :=
  match s with
  | c :: s' => if bool_decide (c ∈ delims) then skip_delims delims s' else s
  | [] => []
  end.

Fixpoint take_token (delims : list Z) (s : cstr) : cstr * cstr :=
  match s with
  | c :: s' => if bool_decide (c ∈ delims) then ([], s')
               else let '(tok, rest) := take_token delims s' in (c :: tok, rest)
  | [] => ([], [])
  end.

Definition strtok (delims : list Z) (s : cstr) : option (cstr * cstr) :=
  match skip_delims delims s with
  | [] => None
  | s' => Some (take_token delims s')
  end.

(** ** [fgets (line, n + 1, file)]: the lines of a file, newline included, cut
       after [n] characters *)

Fixpoint fgets_lines (n k : nat) (line : cstr) (s : cstr) : list cstr :=
  match s with
  | [] => match line with [] => [] | _ => [line] end
  | c :: s' =>
      match k with
      | O | S O => (line ++ [c]) :: fgets_lines n n [] s'
      | S k => if c =? ch_nl then (line ++ [c]) :: fgets_lines n n [] s'
               else fgets_lines n k (line ++ [c]) s'
      end
  end.

(** ** Lemmas *)

Lemma print_hex_length w n : length (print_hex w n) = w.
Proof. revert n. induction w as [|w IH]; intros n; simpl; [done|]. rewrite length_app, IH. simpl. lia. Qed.

Lemma hex_digit_val d : 0 ≤ d < 16 → digit_val (hex_digit d) = d.
Proof. intros Hd. unfold digit_val, hex_digit. repeat case_match; lia. Qed.

(** The characters of printed numbers: digits and the letters a to f. *)
Definition hex_char (c : Z) : Prop := 48 ≤ c ≤ 57 ∨ 97 ≤ c ≤ 102.

Lemma hex_digit_char d : 0 ≤ d < 16 → hex_char (hex_digit d).
Proof. intros Hd. unfold hex_char, hex_digit. case_match; lia. Qed.

Lemma print_hex_chars w n : Forall hex_char (print_hex w n).
Proof.
  revert n. induction w as [|w IH]; intros n; simpl; [constructor|].
  apply Forall_app. split; [done|]. constructor; [|constructor].
  apply hex_digit_char, Z.mod_pos_bound. lia.
Qed.

Lemma digits_app s1 s2 base acc v :
  Forall (λ c, digit_val c < base) s1 → digits base acc s1 = (v, []) →
  digits base acc (s1 ++ s2) = digits base v s2.
Proof.
  revert acc. induction s1 as [|c s1 IH]; intros acc Hf; simpl; [by intros [= ->]|].
  apply Forall_cons in Hf as [Hc Hf]. destruct (Z.ltb_spec (digit_val c) base); [|lia]. auto.
Qed.

Lemma print_hex_digit_val w n : Forall (λ c, digit_val c < 16) (print_hex w n).
Proof.
  revert n. induction w as [|w IH]; intros n; simpl; [constructor|].
  apply Forall_app. split; [done|]. constructor; [|constructor].
  rewrite hex_digit_val; apply Z.mod_pos_bound; lia.
Qed.

Lemma digits_print_hex w n acc :
  0 ≤ n < 16 ^ Z.of_nat w → digits 16 acc (print_hex w n) = (acc * 16 ^ Z.of_nat w + n, []).
Proof.
  revert n acc. induction w as [|w IH]; intros n acc Hn; simpl.
  { change (16 ^ Z.of_nat 0) with 1 in *. f_equal. lia. }
  rewrite Nat2Z.inj_succ, Z.pow_succ_r in Hn |- * by lia.
  rewrite (digits_app _ _ _ _ _ (print_hex_digit_val w (n / 16))
    (IH (n / 16) acc ltac:(split; [apply Z.div_pos; lia|apply Z.div_lt_upper_bound; lia]))).
  simpl. rewrite hex_digit_val by (apply Z.mod_pos_bound; lia).
  destruct (Z.ltb_spec (n mod 16) 16) as [_|Hm]; [|pose proof (Z.mod_pos_bound n 16); lia].
  f_equal. pose proof (Z.div_mod n 16). lia.
Qed.

(** Reading back a number printed as [0x%0<w>x], up to a character that is no
    hexadecimal digit. *)
Lemma strtoull_hex w n rest :
  (0 < w)%nat → 0 ≤ n < 16 ^ Z.of_nat w → n ≤ ULLONG_MAX →
  match rest with [] => True | c :: _ => 16 ≤ digit_val c end →
  strtoull (str "0x" ++ print_hex w n ++ rest) = (n, rest).
Proof.
  intros Hw Hn Hmax Hrest.
  pose proof (print_hex_length w n) as Hlen. pose proof (print_hex_digit_val w n) as Hv.
  pose proof (digits_print_hex w n 0 Hn) as Hd.
  destruct (print_hex w n) as [|c ds] eqn:E; [simpl in Hlen; lia|].
  apply Forall_cons in Hv as [Hc Hds]. unfold strtoull. simpl.
  destruct (Z.ltb_spec (digit_val c) 16) as [_|]; [|lia]. simpl.
  assert (Hall : digits 16 0 ((c :: ds) ++ rest) = (n, rest)).
  { erewrite digits_app; [| |exact Hd]; [|by constructor].
    rewrite Z.mul_0_l, Z.add_0_l. destruct rest as [|r rest]; [done|]. simpl.
    by destruct (Z.ltb_spec (digit_val r) 16); [lia|]. }
  rewrite <-app_comm_cons in Hall. simpl in Hall |- *.
  destruct (Z.ltb_spec (digit_val c) 16) as [_|]; [|lia]. rewrite Hall.
  by destruct (Z.ltb_spec ULLONG_MAX n); [lia|].
Qed.

Lemma take_token_app delims tok d rest :
  Forall (λ c, c ∉ delims) tok → d ∈ delims →
  take_token delims (tok ++ d :: rest) = (tok, rest).
Proof.
  intros Hf Hd. induction tok as [|c tok IH]; simpl; [by rewrite bool_decide_true|].
  apply Forall_cons in Hf as [Hc Hf]. rewrite bool_decide_false, IH by done. done.
Qed.

Lemma take_token_all delims tok :
  Forall (λ c, c ∉ delims) tok → take_token delims tok = (tok, []).
Proof.
  intros Hf. induction tok as [|c tok IH]; simpl; [done|].
  apply Forall_cons in Hf as [Hc Hf]. rewrite bool_decide_false, IH by done. done.
Qed.

Lemma skip_delims_none delims c s : c ∉ delims → skip_delims delims (c :: s) = c :: s.
Proof. intros Hc. simpl. by rewrite bool_decide_false. Qed.

Lemma strtok_app delims tok d rest :
  tok ≠ [] → Forall (λ c, c ∉ delims) tok → d ∈ delims →
  strtok delims (tok ++ d :: rest) = Some (tok, rest).
Proof.
  intros Hne Hf Hd. unfold strtok. rewrite <-(take_token_app delims tok d rest) by done.
  destruct tok as [|c tok]; [done|]. apply Forall_cons in Hf as [Hc _].
  rewrite <-app_comm_cons. by rewrite skip_delims_none.
Qed.

Lemma strtok_all delims tok :
  tok ≠ [] → Forall (λ c, c ∉ delims) tok → strtok delims tok = Some (tok, []).
Proof.
  intros Hne Hf. unfold strtok. rewrite <-(take_token_all delims tok) by done.
  destruct tok as [|c tok]; [done|]. apply Forall_cons in Hf as [Hc Hf].
  rewrite (take_token_all delims (c :: tok)) by (by constructor).
  rewrite skip_delims_none by done. by rewrite take_token_all by (by constructor).
Qed.

(** A line that fits is read as one line. *)
Lemma fgets_lines_line n k line l s :
  Forall (λ c, c ≠ ch_nl) l → (length l < k)%nat →
  fgets_lines n k line (l ++ ch_nl :: s) = (line ++ l ++ [ch_nl]) :: fgets_lines n n [] s.
Proof.
  revert k line. induction l as [|c l IH]; intros k line Hf Hk; simpl in *.
  { destruct k as [|[|k]]; [lia|done|]. done. }
  apply Forall_cons in Hf as [Hc Hf]. destruct k as [|[|k]]; [lia|lia|].
  destruct (Z.eqb_spec c ch_nl); [done|]. rewrite IH by (done || lia).
  by rewrite <-app_assoc.
Qed.
