(* ===== verification/NodeMap.v ===== *)
(** * Node map files: [complib/cl_nodenamemap.c]

    [parse_node_map] reads a file of lines "GUID rest" and calls [create] on each;
    the state that [create] changes through its context is threaded through the
    calls. *)

From S2P Require Import Prelude CString.

Open Scope Z_scope.

Definition ch_hash : Z := 35.
Definition PARSE_NODE_MAP_BUFLEN : nat := 256.

Inductive node_map_line :=
  | LineSkipped                        (* blank or a comment *)
  | LineBad
  | LineEntry (guid : Z) (p : cstr).

Definition read_line (line : cstr) : node_map_line :=
  match skip_spaces line with
  | [] => LineSkipped
  | c :: s =>
      if c =? ch_hash then LineSkipped
      else
        let p := c :: s in
        let '(guid, e) := strtoull p in
        if bool_decide (e = p)
           || match e with [] => false | x :: _ => negb (is_space x || (x =? ch_hash)) end
        then LineBad
        else LineEntry guid (take_token [ch_nl] (skip_spaces e)).1
  end.

Section ParseNodeMap.
Context {St : Type}.
Variable create : St → Z → cstr → Z * St.

Fixpoint parse_lines (lines : list cstr) (cxt : St) : Z * St :=
  match lines with
  | [] => (0, cxt)
  | line :: lines =>
      match read_line line with
      | LineSkipped => parse_lines lines cxt
      | LineBad => (-1, cxt)
      | LineEntry guid p =>
          let '(status, cxt) := create cxt guid p in
          if status =? 0 then parse_lines lines cxt else (-1, cxt)
      end
  end.

(** [None] is a file that cannot be opened. *)
Definition parse_node_map (file : option cstr) (cxt : St) : Z * St :=
  match file with
  | None => (-1, cxt)
  | Some s => parse_lines (fgets_lines (pred PARSE_NODE_MAP_BUFLEN) (pred PARSE_NODE_MAP_BUFLEN) [] s) cxt
  end.

(** What every call of [create] keeps is kept. *)
Lemma parse_node_map_inv (P : St → Prop) file cxt :
  (∀ cxt guid p, P cxt → P (create cxt guid p).2) → P cxt → P (parse_node_map file cxt).2.
Proof.
  intros Hc Hp. destruct file as [s|]; simpl; [|done]. revert cxt Hp.
  induction (fgets_lines _ _ [] s) as [|line lines IH]; intros cxt Hp; simpl; [done|].
  destruct (read_line line) as [| |guid p]; [by apply IH|done|].
  specialize (Hc cxt guid p Hp). destruct (create cxt guid p) as [status cxt'].
  destruct (status =? 0); [by apply IH|done].
Qed.
End ParseNodeMap.
