(* ===== verification/DbFiles.v ===== *)
(** * The text database: [opensm/osm_db_files.c]

    A domain is a table from strings to strings, a dirty flag, and the contents of
    its file, [None] when the file does not exist.  The order in which the hash
    table is walked is the order of [map_to_list]; no theorem depends on it.  A
    store writes a temporary file and renames it, so the file changes as a whole
    or not at all. *)

From S2P Require Import Prelude CString.

Open Scope Z_scope.

Record osm_db_domain := DbDomain {
  p_hash : gmap cstr cstr;
  dirty : bool;
  file : option cstr
}.

#[export] Instance osm_db_domain_eta : Eta osm_db_domain := λ d,
  DbDomain (p_hash d) (dirty d) (file d).

(** What [fgets] can put in [sLine]: [OSM_DB_MAX_LINE_LEN - 1] characters. *)
Definition line_max : nat := 1023.

(** ** Table operations; the [Z] is the status *)

Definition osm_db_lookup (d : osm_db_domain) (p_key : cstr) : option cstr := p_hash d !! p_key.

Definition osm_db_keys (d : osm_db_domain) : list cstr := (map_to_list (p_hash d)).*1.

Definition db_clear (d : osm_db_domain) : osm_db_domain := d <| p_hash := ∅ |>.

Definition osm_db_update (d : osm_db_domain) (p_key p_val : cstr) : osm_db_domain :=
  if bool_decide (p_hash d !! p_key = Some p_val) then d
  else d <| p_hash := <[p_key := p_val]> (p_hash d) |> <| dirty := true |>.

Definition osm_db_delete (d : osm_db_domain) (p_key : cstr) : Z * osm_db_domain :=
  match p_hash d !! p_key with
  | Some _ => (0, d <| p_hash := delete p_key (p_hash d) |> <| dirty := true |>)
  | None => (1, d)
  end.

(** ** Writing the file *)

Definition dump_tbl_entry (e : cstr * cstr) : cstr :=
  e.1 ++ ch_sp :: e.2 ++ [ch_nl; ch_nl].

Definition dump_tbl (l : list (cstr * cstr)) : cstr := mjoin (dump_tbl_entry <$> l).

(** [open_ok] and [rename_ok] are the outcomes of the system calls. *)
Definition osm_db_store (d : osm_db_domain) (open_ok rename_ok : bool) : Z * osm_db_domain :=
  if negb (dirty d) then (0, d)
  else if negb open_ok then (1, d)
  else if negb rename_ok then (-1, d)
  else (0, d <| file := Some (dump_tbl (map_to_list (p_hash d))) |> <| dirty := false |>).

(** ** Reading the file *)

(** The parser: between keys, or in the entry of a key with the value so far. *)
Inductive parse_state :=
  | BeforeKey
  | InKey (p_key p_accum_val : cstr).

(** The test that a key is a number. *)
Definition key_invalid (p_key : cstr) : bool :=
  let '(v, endptr) := strtoull p_key in (v =? 0) && negb (bool_decide (endptr = [])).

Definition end_of_key (h : gmap cstr cstr) (p_key p_accum_val : cstr) : gmap cstr cstr :=
  match h !! p_key with
  | Some _ => h
  | None => if key_invalid p_key then h else <[p_key := p_accum_val]> h
  end.

(** One line; [None] ends the parsing with an error. *)
Definition restore_line (st : parse_state) (h : gmap cstr cstr) (sLine : cstr)
    : option (parse_state * gmap cstr cstr) :=
  let first := default 0 (head sLine) in
  match st with
  | BeforeKey =>
      if bool_decide (first ∉ [ch_sp; ch_tab; ch_nl]) then
        '(p_first_word, p_last) ← strtok [ch_sp; ch_tab; ch_nl] sLine;
        Some (InKey p_first_word (from_option fst [] (strtok [ch_nl] p_last)), h)
      else if first =? ch_nl then Some (BeforeKey, h)
      else None
  | InKey p_key p_accum_val =>
      if first =? ch_nl then Some (BeforeKey, end_of_key h p_key p_accum_val)
      else Some (InKey p_key (p_accum_val ++ sLine), h)
  end.

(** The loop over the lines, with the newline that is added at the end of file in
    the middle of a key. *)
Fixpoint restore_lines (st : parse_state) (h : gmap cstr cstr) (lines : list cstr)
    : Z * gmap cstr cstr :=
  match lines with
  | [] =>
      match st with
      | BeforeKey => (0, h)
      | InKey p_key p_accum_val => (0, end_of_key h p_key p_accum_val)
      end
  | sLine :: lines =>
      match restore_line st h sLine with
      | Some (st', h') => restore_lines st' h' lines
      | None => (1, h)
      end
  end.

Definition db_restore (d : osm_db_domain) : Z * osm_db_domain :=
  match file d with
  | None => (1, d)
  | Some text =>
      let '(status, h) :=
        restore_lines BeforeKey (p_hash d) (fgets_lines line_max line_max [] text) in
      (status, d <| p_hash := h |>)
  end.

(** ** Store and restore *)

(** An entry the file format can hold: the key is one word that passes for a
    number, the value one line, and both fit in the line buffer. *)
Record entry_ok (e : cstr * cstr) : Prop := {
  entry_key_ne : e.1 ≠ [];
  entry_key_word : Forall (λ c, c ∉ [ch_sp; ch_tab; ch_nl]) e.1;
  entry_key_number : key_invalid e.1 = false;
  entry_val_line : Forall (λ c, c ≠ ch_nl) e.2;
  entry_fits_line : (length e.1 + S (length e.2) < line_max)%nat
}.

(** The two lines of an entry in the file. *)
Definition entry_lines (e : cstr * cstr) : list cstr :=
  [e.1 ++ ch_sp :: e.2 ++ [ch_nl]; [ch_nl]].

Lemma dump_lines l :
  Forall entry_ok l →
  fgets_lines line_max line_max [] (dump_tbl l) = mjoin (entry_lines <$> l).
Proof.
  unfold dump_tbl. intros Hf. induction Hf as [|[k v] l [H1 H2 _ H4 H5] _ IH]; [done|].
  simpl in H1, H2, H4, H5.
  change (mjoin (entry_lines <$> (k, v) :: l)) with
    ([k ++ ch_sp :: v ++ [ch_nl]; [ch_nl]] ++ mjoin (entry_lines <$> l)).
  rewrite <-IH. clear IH.
  replace (mjoin (dump_tbl_entry <$> (k, v) :: l))
    with ((k ++ ch_sp :: v) ++ ch_nl :: (ch_nl :: mjoin (dump_tbl_entry <$> l)))
    by (change (mjoin (dump_tbl_entry <$> (k, v) :: l)) with
          ((k ++ ch_sp :: v ++ [ch_nl; ch_nl]) ++ mjoin (dump_tbl_entry <$> l));
        rewrite <-!app_assoc; simpl; by rewrite <-app_assoc).
  rewrite fgets_lines_line.
  - simpl. rewrite <-app_assoc. done.
  - apply Forall_app. split.
    + eapply Forall_impl; [exact H2|]. intros c Hc ->. apply Hc. right; right; left.
    + constructor; [done|done].
  - rewrite length_app. simpl. lia.
Qed.

Lemma restore_entry h k v lines :
  entry_ok (k, v) → h !! k = None →
  restore_lines BeforeKey h ((k ++ ch_sp :: v ++ [ch_nl]) :: [ch_nl] :: lines)
  = restore_lines BeforeKey (<[k := v]> h) lines.
Proof.
  intros [H1 H2 H3 H4 _] Hk. simpl in *. unfold restore_line at 1.
  assert (Hhead : default 0 (head (k ++ ch_sp :: v ++ [ch_nl])) ∉ [ch_sp; ch_tab; ch_nl]).
  { destruct k as [|c k]; [done|]. by apply Forall_cons in H2 as [Hc _]. }
  rewrite bool_decide_true by done. rewrite strtok_app by (done || left). simpl.
  assert (Hval : from_option fst [] (strtok [ch_nl] (v ++ [ch_nl])) = v).
  { destruct v as [|c v]; [done|]. rewrite strtok_app; [done|done| |by left].
    eapply Forall_impl; [exact H4|]. intros x Hx ->%list_elem_of_singleton. done. }
  rewrite Hval. unfold end_of_key. rewrite Hk, H3. done.
Qed.

Lemma restore_dump l h :
  Forall entry_ok l → NoDup l.*1 → (∀ k, k ∈ l.*1 → h !! k = None) →
  restore_lines BeforeKey h (mjoin (entry_lines <$> l)) = (0, list_to_map l ∪ h).
Proof.
  revert h. induction l as [|[k v] l IH]; intros h Hf Hnd Hfresh.
  { simpl. by rewrite map_empty_union. }
  apply Forall_cons in Hf as [Hkv Hf]. rewrite fmap_cons, NoDup_cons in Hnd.
  destruct Hnd as [Hk Hnd]. simpl in Hk.
  change (mjoin (entry_lines <$> (k, v) :: l)) with
    ((k ++ ch_sp :: v ++ [ch_nl]) :: [ch_nl] :: mjoin (entry_lines <$> l)).
  rewrite restore_entry by (done || (apply Hfresh; left)).
  rewrite IH; [|done|done|].
  - simpl. f_equal. rewrite <-insert_union_l, insert_union_r; [done|].
    by apply not_elem_of_list_to_map_1.
  - intros k' Hk'. rewrite lookup_insert_ne by (intros ->; done). apply Hfresh. by right.
Qed.

(** C35. What a store writes, a restore reads back: when the entries of a dirty
    domain are ones the format can hold, a successful store followed by a restore
    into a cleared table succeeds and gives exactly the table that was stored. *)
Theorem store_restore d :
  dirty d = true → Forall entry_ok (map_to_list (p_hash d)) →
  let d' := (osm_db_store d true true).2 in
  (osm_db_store d true true).1 = 0 ∧ dirty d' = false
  ∧ (db_restore (db_clear d')).1 = 0
  ∧ p_hash (db_restore (db_clear d')).2 = p_hash d.
Proof.
  intros Hd Hok. unfold osm_db_store. rewrite Hd. simpl. unfold db_restore. simpl.
  rewrite dump_lines, restore_dump; try done.
  - simpl. split_and!; try done. by rewrite map_union_empty, list_to_map_to_list.
  - apply NoDup_fst_map_to_list.
Qed.

(** A cleared domain is not marked dirty: a store after a clear leaves the file
    with the old entries. *)
Lemma clear_then_store_keeps_file d :
  dirty d = false → osm_db_store (db_clear d) true true = (0, db_clear d).
Proof. intros Hd. unfold osm_db_store. simpl. by rewrite Hd. Qed.

(** ** Witness *)

Definition demo_db : osm_db_domain :=
  DbDomain {[ str "0x0000000000000007" := str "0x0001 0x0001";
              str "0x0000000000000009" := str "0x0004 0x0007" ]} true None.

Lemma demo_db_entries : Forall entry_ok (map_to_list (p_hash demo_db)).
Proof.
  vm_compute map_to_list.
  repeat constructor; try (vm_compute; first [discriminate | reflexivity | lia]);
    apply (bool_decide_unpack _); vm_compute; exact I.
Qed.

Lemma store_restore_witness :
  p_hash (db_restore (db_clear (osm_db_store demo_db true true).2)).2 = p_hash demo_db.
Proof. exact (proj2 (proj2 (proj2 (store_restore demo_db eq_refl demo_db_entries)))). Defined.
