(* ===== verification/DbPack.v ===== *)
(** * Typed access to the text database: [opensm/osm_db_pack.c]

    GUIDs, LID ranges, M_Keys and neighbour ports as strings, the operations of the
    three domains, and the instance by which the domain of GUIDs and LIDs serves
    the LID manager. *)

From S2P Require Import Prelude CString DbFiles IbTypes PtrVector LidMgr.

Open Scope Z_scope.

(** ** Packing *)

Definition pack_guid (guid : Z) : cstr := str "0x" ++ print_hex 16 guid.
Definition unpack_guid (p_guid_str : cstr) : Z := (strtoull p_guid_str).1.

Definition pack_lids (min_lid max_lid : Z) : cstr :=
  (str "0x" ++ print_hex 4 min_lid) ++ ch_sp :: (str "0x" ++ print_hex 4 max_lid).

(** [None] is the failure status 1. *)
Definition unpack_lids (p_lid_str : cstr) : option (Z * Z) :=
  let lids_str := take 23 p_lid_str in
  '(p_num, p_next) ← strtok [ch_sp; ch_tab] lids_str;
  let tmp := (strtoull p_num).1 in
  if 0xC000 <=? tmp then None
  else
    '(p_num, _) ← strtok [ch_sp; ch_tab] p_next;
    let tmp' := (strtoull p_num).1 in
    if 0xC000 <=? tmp' then None else Some (u16 tmp, u16 tmp').

Definition pack_mkey (mkey : Z) : cstr := str "0x" ++ print_hex 16 mkey.
Definition unpack_mkey (p_mkey_str : cstr) : Z := (strtoull p_mkey_str).1.

Definition pack_neighbor (guid portnum : Z) : cstr :=
  (str "0x" ++ print_hex 16 guid) ++ ch_colon :: print_dec 3 portnum.

(** The status and the two locations it writes; [None] is one it leaves as it
    was. *)
Definition unpack_neighbor (p_str : cstr) : Z * option Z * option Z :=
  let tmp_str := take 23 p_str in
  match strtok [ch_colon] tmp_str with
  | None => (1, None, None)
  | Some (p_num, p_next) =>
      let guid := (strtoull p_num).1 in
      match strtok [ch_colon] p_next with
      | None => (1, Some guid, None)
      | Some (p_num, _) => (0, Some guid, Some (u8 (strtoull p_num).1))
      end
  end.

(** ** The domains *)

Definition osm_db_guid2lid_guids_imp (d : osm_db_domain) : list Z :=
  reverse (unpack_guid <$> osm_db_keys d).

Definition osm_db_guid2lid_get_imp (d : osm_db_domain) (guid : Z) : option (Z * Z) :=
  p_lid_str ← osm_db_lookup d (pack_guid guid); unpack_lids p_lid_str.

Definition osm_db_guid2lid_set_imp (d : osm_db_domain) (guid min_lid max_lid : Z) : osm_db_domain :=
  osm_db_update d (pack_guid guid) (pack_lids min_lid max_lid).

Definition osm_db_guid2lid_delete_imp (d : osm_db_domain) (guid : Z) : osm_db_domain :=
  (osm_db_delete d (pack_guid guid)).2.

Definition osm_db_guid2mkey_guids (d : osm_db_domain) : list Z :=
  reverse (unpack_guid <$> osm_db_keys d).

Definition osm_db_guid2mkey_get (d : osm_db_domain) (guid : Z) : option Z :=
  unpack_mkey <$> osm_db_lookup d (pack_guid guid).

Definition osm_db_guid2mkey_set (d : osm_db_domain) (guid mkey : Z) : osm_db_domain :=
  osm_db_update d (pack_guid guid) (pack_mkey mkey).

Definition osm_db_guid2mkey_delete (d : osm_db_domain) (guid : Z) : Z * osm_db_domain :=
  osm_db_delete d (pack_guid guid).

(** The list elements; the status of [unpack_neighbor] is not looked at, and a
    [None] is a field of the allocated element that nothing writes. *)
Record osm_db_neighbor_elem := mk_osm_db_neighbor_elem {
  ne_guid : option Z;
  ne_portnum : option Z
}.

Definition osm_db_neighbor_guids (d : osm_db_domain) : list osm_db_neighbor_elem :=
  reverse ((λ p_key, let '(_, guid, portnum) := unpack_neighbor p_key in
                     mk_osm_db_neighbor_elem guid portnum) <$> osm_db_keys d).

(** [None] is the failure status 1. *)
Definition osm_db_neighbor_get (d : osm_db_domain) (guid1 portnum1 : Z) : option (Z * Z) :=
  p_other_str ← osm_db_lookup d (pack_neighbor guid1 portnum1);
  match unpack_neighbor p_other_str with
  | (0, Some temp_guid, Some temp_portnum) => Some (temp_guid, temp_portnum)
  | _ => None
  end.

Definition osm_db_neighbor_set (d : osm_db_domain) (guid1 portnum1 guid2 portnum2 : Z)
    : osm_db_domain :=
  osm_db_update d (pack_neighbor guid1 portnum1) (pack_neighbor guid2 portnum2).

Definition osm_db_neighbor_delete (d : osm_db_domain) (guid portnum : Z) : Z * osm_db_domain :=
  osm_db_delete d (pack_neighbor guid portnum).

(** ** Round trips *)

Lemma hex_word_plain (delims : list Z) w n :
  (∀ c, c ∈ delims → ¬ hex_char c ∧ c ≠ 48 ∧ c ≠ 120) →
  Forall (λ c, c ∉ delims) (str "0x" ++ print_hex w n).
Proof.
  intros Hd. change (str "0x") with [48; 120]. simpl.
  constructor; [intros Hin; by destruct (Hd 48 Hin) as (_ & ? & _)|].
  constructor; [intros Hin; by destruct (Hd 120 Hin) as (_ & _ & ?)|].
  eapply Forall_impl; [apply print_hex_chars|]. intros c Hc Hin. destruct (Hd c Hin) as [H _]. by apply H.
Qed.

Lemma space_not_hex c : c ∈ [ch_sp; ch_tab] → ¬ hex_char c ∧ c ≠ 48 ∧ c ≠ 120.
Proof.
  intros [-> | [-> | H]%elem_of_cons]%elem_of_cons; [| |by apply not_elem_of_nil in H];
    unfold hex_char, ch_sp, ch_tab; lia.
Qed.

Lemma colon_not_hex c : c ∈ [ch_colon] → ¬ hex_char c ∧ c ≠ 48 ∧ c ≠ 120.
Proof. intros ->%list_elem_of_singleton. unfold hex_char, ch_colon. lia. Qed.

Lemma strtoull_hex_word w n :
  (0 < w)%nat → 0 ≤ n < 16 ^ Z.of_nat w → n ≤ ULLONG_MAX →
  (strtoull (str "0x" ++ print_hex w n)).1 = n.
Proof.
  intros Hw Hn Hm. rewrite <-(app_nil_r (print_hex w n)), strtoull_hex by done. done.
Qed.

Lemma unpack_pack_guid guid : guid_ok guid → unpack_guid (pack_guid guid) = guid.
Proof.
  intros Hg. unfold guid_ok in Hg. apply strtoull_hex_word; [lia|change (16 ^ Z.of_nat 16) with (2 ^ 64); lia|].
  unfold ULLONG_MAX. lia.
Qed.

Lemma unpack_pack_lids mn mx :
  lid_ok mn → lid_ok mx → unpack_lids (pack_lids mn mx) = Some (mn, mx).
Proof.
  unfold lid_ok, IB_LID_UCAST_END_HO. intros Hmn Hmx. unfold unpack_lids, pack_lids.
  assert (Hv : ∀ n, 0 ≤ n ≤ 0xBFFF → (strtoull (str "0x" ++ print_hex 4 n)).1 = n).
  { intros n Hn. apply strtoull_hex_word; [lia|change (16 ^ Z.of_nat 4) with 65536; lia|].
    unfold ULLONG_MAX. lia. }
  rewrite take_ge.
  2:{ rewrite length_app, length_cons, !length_app, !print_hex_length. simpl. lia. }
  rewrite strtok_app; [|done|apply hex_word_plain, space_not_hex|left].
  cbn [mbind option_bind]. rewrite Hv by lia.
  destruct (Z.leb_spec 0xC000 mn); [lia|].
  rewrite strtok_all; [|done|apply hex_word_plain, space_not_hex].
  cbn [mbind option_bind]. rewrite Hv by lia.
  destruct (Z.leb_spec 0xC000 mx); [lia|]. by rewrite !u16_small by lia.
Qed.

Lemma strtoull_dec_port p : 0 ≤ p < 256 → strtoull (print_dec 3 p) = (p, []).
Proof.
  intros Hp. assert (Hall : Forall (λ p, strtoull (print_dec 3 p) = (p, [])) (seqZ 0 256)).
  { apply (bool_decide_unpack _). by vm_compute. }
  rewrite Forall_forall in Hall. apply Hall, elem_of_seqZ. lia.
Qed.

Lemma print_dec_port_plain p :
  0 ≤ p < 256 → print_dec 3 p ≠ [] ∧ Forall (λ c, c ∉ [ch_colon]) (print_dec 3 p)
    ∧ (length (print_dec 3 p) ≤ 3)%nat.
Proof.
  intros Hp.
  assert (Hall : Forall (λ p, print_dec 3 p ≠ [] ∧ Forall (λ c, c ∉ [ch_colon]) (print_dec 3 p)
    ∧ (length (print_dec 3 p) ≤ 3)%nat) (seqZ 0 256)).
  { apply (bool_decide_unpack _). by vm_compute. }
  rewrite Forall_forall in Hall. apply Hall, elem_of_seqZ. lia.
Qed.

Lemma unpack_pack_neighbor guid portnum :
  guid_ok guid → 0 ≤ portnum < 256 →
  unpack_neighbor (pack_neighbor guid portnum) = (0, Some guid, Some portnum).
Proof.
  intros Hg Hp. destruct (print_dec_port_plain portnum Hp) as (H1 & H2 & H3).
  unfold unpack_neighbor, pack_neighbor.
  rewrite take_ge.
  2:{ rewrite length_app, length_cons, length_app, print_hex_length. change (length (str "0x")) with 2%nat. lia. }
  rewrite strtok_app; [|done|apply hex_word_plain, colon_not_hex|left].
  rewrite strtok_all by done.
  rewrite strtoull_dec_port by done. cbn [fst]. rewrite u8_small by lia.
  do 3 f_equal. by apply (unpack_pack_guid guid).
Qed.

(** The strings fit the buffers they are printed into: [guid_str[20]],
    [mkey_str[20]], [lid_str[16]] and [neighbor_str[24]], the terminator
    included. *)
Lemma pack_fits guid mn mx portnum :
  0 ≤ portnum < 256 →
  (length (pack_guid guid) < 20)%nat ∧ (length (pack_mkey guid) < 20)%nat
  ∧ (length (pack_lids mn mx) < 16)%nat ∧ (length (pack_neighbor guid portnum) < 24)%nat.
Proof.
  intros Hp. destruct (print_dec_port_plain portnum Hp) as (_ & _ & H3).
  unfold pack_guid, pack_mkey, pack_lids, pack_neighbor.
  split_and!; repeat first [rewrite length_app | rewrite length_cons | rewrite print_hex_length];
    change (length (str "0x")) with 2%nat; lia.
Qed.

(** C36. Every record survives its string, and the string fits the buffer of
    its caller: a GUID, an M_Key, a LID range and a neighbour port are read back
    from what they were packed into. *)
Theorem pack_unpack guid mn mx portnum :
  guid_ok guid → lid_ok mn → lid_ok mx → 0 ≤ portnum < 256 →
  (unpack_guid (pack_guid guid) = guid
   ∧ unpack_mkey (pack_mkey guid) = guid
   ∧ unpack_lids (pack_lids mn mx) = Some (mn, mx)
   ∧ unpack_neighbor (pack_neighbor guid portnum) = (0, Some guid, Some portnum))
  ∧ (length (pack_guid guid) < 20)%nat ∧ (length (pack_mkey guid) < 20)%nat
  ∧ (length (pack_lids mn mx) < 16)%nat ∧ (length (pack_neighbor guid portnum) < 24)%nat.
Proof.
  intros Hg Hmn Hmx Hp. split; [split_and!|by apply pack_fits];
    [by apply unpack_pack_guid|by apply unpack_pack_guid|by apply unpack_pack_lids
    |by apply unpack_pack_neighbor].
Qed.

Lemma pack_unpack_witness :
  unpack_lids (pack_lids 0x12 0x13) = Some (0x12, 0x13)
  ∧ unpack_neighbor (pack_neighbor 0x2c9000100d0 255) = (0, Some 0x2c9000100d0, Some 255).
Proof.
  pose proof (pack_unpack 0x2c9000100d0 0x12 0x13 255) as H.
  assert (Hg : guid_ok 0x2c9000100d0) by (unfold guid_ok; lia).
  assert (H1 : lid_ok 0x12) by (unfold lid_ok, IB_LID_UCAST_END_HO; lia).
  assert (H2 : lid_ok 0x13) by (unfold lid_ok, IB_LID_UCAST_END_HO; lia).
  destruct (H Hg H1 H2 ltac:(lia)) as ((_ & _ & Hl & Hn) & _). by split.
Defined.

(** ** The interface of the LID manager *)

#[export] Instance db_guid2lid_ops : Guid2LidOps osm_db_domain := {
  osm_db_clear := db_clear;
  osm_db_restore d := (db_restore d).2;
  osm_db_guid2lid_guids := osm_db_guid2lid_guids_imp;
  osm_db_guid2lid_get := osm_db_guid2lid_get_imp;
  osm_db_guid2lid_set := osm_db_guid2lid_set_imp;
  osm_db_guid2lid_delete := osm_db_guid2lid_delete_imp
}.

Lemma pack_guid_inj g g' : guid_ok g → guid_ok g' → pack_guid g = pack_guid g' → g = g'.
Proof.
  intros Hg Hg' E. rewrite <-(unpack_pack_guid g), <-(unpack_pack_guid g') by done. by rewrite E.
Qed.

Lemma update_lookup d k v k' :
  osm_db_lookup (osm_db_update d k v) k' = if decide (k = k') then Some v else osm_db_lookup d k'.
Proof.
  unfold osm_db_lookup, osm_db_update. case_bool_decide as E; case_decide as Ek; subst; try done;
    simpl; [apply lookup_insert_eq|by apply lookup_insert_ne].
Qed.

Lemma delete_lookup d k k' :
  osm_db_lookup (osm_db_delete d k).2 k' = if decide (k = k') then None else osm_db_lookup d k'.
Proof.
  unfold osm_db_lookup, osm_db_delete. destruct (p_hash d !! k) as [x|] eqn:E; simpl;
    case_decide as Ek; subst; try done; [apply lookup_delete_eq|by apply lookup_delete_ne].
Qed.

Lemma digit_val_nonneg c : 0 ≤ digit_val c.
Proof. unfold digit_val. repeat case_match; lia. Qed.

Lemma digits_nonneg base acc s : 0 ≤ base → 0 ≤ acc → 0 ≤ (digits base acc s).1.
Proof.
  intros Hb. revert acc. induction s as [|c s IH]; intros acc Ha; simpl; [done|].
  case_match; [|done]. apply IH. pose proof (digit_val_nonneg c). nia.
Qed.

Lemma strtoull_range s : 0 ≤ (strtoull s).1 ≤ ULLONG_MAX.
Proof.
  unfold strtoull. cbv zeta.
  set (ns := match skip_spaces s with 45 :: s' => (true, s') | 43 :: s' => (false, s')
             | _ => (false, skip_spaces s) end).
  destruct ns as [neg s2].
  set (bs := match s2 with 48 :: x :: c :: s' => _ | 48 :: _ => _ | _ => _ end).
  assert (0 ≤ bs.1) by (subst bs; repeat case_match; simpl; lia).
  destruct bs as [base s3]. simpl in *. destruct s3 as [|c s3]; [simpl; unfold ULLONG_MAX; lia|].
  destruct (digit_val c <? base); [|simpl; unfold ULLONG_MAX; lia].
  pose proof (digits_nonneg base 0 (c :: s3)) as Hd.
  destruct (digits base 0 (c :: s3)) as [v rest]. simpl in *.
  destruct (Z.ltb_spec ULLONG_MAX v); [unfold ULLONG_MAX; lia|].
  destruct neg; [|lia]. unfold u64, ULLONG_MAX. pose proof (Z.mod_pos_bound (- v) (2 ^ 64)). lia.
Qed.

#[export] Instance db_guid2lid : Guid2Lid osm_db_domain.
Proof.
  split.
  - done.
  - intros d guid mn mx Hg Hmn Hmx. simpl. unfold osm_db_guid2lid_get_imp, osm_db_guid2lid_set_imp.
    rewrite update_lookup, decide_True by done. simpl. by apply unpack_pack_lids.
  - intros d guid guid' mn mx Hg Hg' Hne. simpl.
    unfold osm_db_guid2lid_get_imp, osm_db_guid2lid_set_imp.
    rewrite update_lookup, decide_False; [done|]. by intros E%pack_guid_inj.
  - intros d guid. simpl. unfold osm_db_guid2lid_get_imp, osm_db_guid2lid_delete_imp.
    by rewrite delete_lookup, decide_True.
  - intros d guid guid' Hg Hg' Hne. simpl.
    unfold osm_db_guid2lid_get_imp, osm_db_guid2lid_delete_imp.
    rewrite delete_lookup, decide_False; [done|]. by intros E%pack_guid_inj.
  - intros d guid mn mx. simpl. unfold osm_db_guid2lid_get_imp.
    destruct (osm_db_lookup d (pack_guid guid)) as [s|]; simpl; [|done]. unfold unpack_lids.
    destruct (strtok _ _) as [[p1 r1]|]; simpl; [|done].
    pose proof (strtoull_range p1). case_match eqn:E1; [done|].
    destruct (strtok _ r1) as [[p2 r2]|]; simpl; [|done].
    pose proof (strtoull_range p2). case_match eqn:E2; [done|].
    apply Z.leb_gt in E1, E2. intros [= <- <-]. unfold lid_ok, IB_LID_UCAST_END_HO.
    rewrite !u16_small by lia. lia.
  - intros d guid Hg [r Hr]. simpl in *. unfold osm_db_guid2lid_get_imp in Hr.
    destruct (osm_db_lookup d (pack_guid guid)) as [s|] eqn:E; [|done].
    unfold osm_db_guid2lid_guids_imp. apply elem_of_reverse, list_elem_of_fmap.
    exists (pack_guid guid). split; [by rewrite unpack_pack_guid|].
    unfold osm_db_keys. apply list_elem_of_fmap. exists (pack_guid guid, s).
    split; [done|]. by apply elem_of_map_to_list.
  - intros d guid. simpl. unfold osm_db_guid2lid_guids_imp.
    intros (k & -> & _)%elem_of_reverse%list_elem_of_fmap.
    pose proof (strtoull_range k). unfold guid_ok, unpack_guid, ULLONG_MAX in *. lia.
Qed.

(** ** The LID manager on the text database

    A little-endian host, LMC 1, a channel adapter found at LID 4 whose entry in
    the database is [6:7], and a switch found at LID 9 that has none. *)

#[local] Instance ex_byte_order : ByteOrder := true.

Definition ex_hca : lm_port := LmPort (cl_hton64 2) (cl_hton16 4) 0 None.
Definition ex_sw : lm_port := LmPort (cl_hton64 3) (cl_hton16 9) 0 (Some false).
Definition ex_new : lm_port := LmPort (cl_hton64 5) 0 0 None.

Definition ex_lid_env : lm_env :=
  LmEnv 1 false false false false false 0xBFFF (lp_guid ex_hca)
    {[ lp_guid ex_hca := ex_hca; lp_guid ex_sw := ex_sw ]}.

Definition ex_db : osm_db_domain :=
  osm_db_guid2lid_set (DbDomain ∅ false None) 2 6 7.

Definition ex_lid_mgr : osm_lid_mgr osm_db_domain :=
  LidMgr ex_db [(8, 0xBFFF)] {[ 6; 7 ]} [].

Lemma ex_lmc_ok : lmc_ok ex_lid_env.
Proof. unfold lmc_ok. simpl. lia. Qed.

Lemma ex_db_get guid :
  guid_ok guid →
  osm_db_guid2lid_get ex_db guid = if decide (guid = 2) then Some (6, 7) else None.
Proof.
  intros Hg. unfold ex_db. destruct (decide (guid = 2)) as [-> | Hne].
  - apply g2l_get_set_eq; unfold guid_ok, lid_ok, IB_LID_UCAST_END_HO; lia.
  - rewrite g2l_get_set_ne; [done|unfold guid_ok; lia|done|done].
Qed.

Lemma ex_db_ok : db_ok ex_lid_env ex_db {[ 6; 7 ]}.
Proof.
  split.
  - intros guid mn mx Hg. rewrite ex_db_get by done. case_decide; [|done]. intros [= <- <-].
    split_and!; [lia|lia|unfold IB_LID_UCAST_END_HO; lia|right; by exists 3|].
    intros x [Hx _]. assert (x = 6 ∨ x = 7) as [-> | ->] by lia; set_solver.
  - intros g g' mn mx mn' mx' x Hg Hg' Hne. rewrite !ex_db_get by done.
    repeat case_decide; by subst.
Qed.

Lemma ex_port_cases g p :
  lm_port_guid_tbl ex_lid_env !! g = Some p →
  (g = lp_guid ex_hca ∧ p = ex_hca) ∨ (g = lp_guid ex_sw ∧ p = ex_sw).
Proof.
  simpl. intros [[<- <-]|[_ [<- <-]%lookup_singleton_Some]]%lookup_insert_Some; auto.
Qed.

Lemma ex_bases : port_base_lid_ho ex_hca = 4 ∧ port_base_lid_ho ex_sw = 9.
Proof. done. Qed.

Lemma ex_subnet_ok : subnet_ok ex_lid_env.
Proof.
  split_and!; [apply ex_lmc_ok|simpl; unfold IB_LID_UCAST_END_HO; lia..|].
  intros g p [[-> ->]|[-> ->]]%ex_port_cases; (split; [done|]); destruct ex_bases as [E1 E2];
    unfold disc_ok, guid_ok, IB_LID_UCAST_END_HO; rewrite ?E1, ?E2; by split_and!.
Qed.

Lemma ex_lids_unshared : lids_unshared ex_lid_env ex_db.
Proof.
  intros p q Hp Hq Hne _ _. destruct ex_bases as [E1 E2].
  apply ex_port_cases in Hp as [[_ ->]|[_ ->]], Hq as [[_ ->]|[_ ->]]; try done;
    unfold discovered; rewrite E1, E2; simpl; lia.
Qed.

Lemma lid_mgr_get_port_lid_ok_witness :
  find_range ex_lid_env (port_num_lids ex_lid_env ex_new) (free_ranges ex_lid_mgr)
    = Some (8, [(10, 0xBFFF)])
  ∧ let '(mn, mx, _, m') := lid_mgr_get_port_lid ex_lid_env ex_lid_mgr ex_new in
    assigned ex_lid_env ex_lid_mgr ex_new mn mx m'.
Proof.
  assert (Hi : lid_inv ex_lid_env ex_lid_mgr).
  { split; [| |apply ex_db_ok].
    - split; [by repeat constructor|]. by repeat constructor.
    - intros x (lo & hi & [= -> ->]%list_elem_of_singleton & Hx). simpl. apply not_elem_of_union;
      rewrite !elem_of_singleton. lia. }
  assert (Hp : pending ex_lid_env ex_lid_mgr ex_new).
  { unfold pending. change (p_g2l ex_lid_mgr) with ex_db.
    rewrite ex_db_get by done. rewrite decide_False by done. done. }
  split; [by vm_compute|].
  pose proof (lid_mgr_get_port_lid_ok ex_lid_env ex_lid_mgr ex_new ex_lmc_ok
    ltac:(by split) Hi Hp) as H.
  destruct (lid_mgr_get_port_lid _ _ _) as [[[mn mx] ch] m'].
  destruct H as [[_ H]|H]; [by vm_compute in H|done].
Defined.

Lemma lid_mgr_validate_db_ok_witness :
  let m := lid_mgr_validate_db ex_lid_env ex_lid_mgr in
  db_ok ex_lid_env (p_g2l m) (used_lids m).
Proof. exact (lid_mgr_validate_db_ok ex_lid_env ex_lid_mgr ex_lmc_ok). Defined.

Lemma lid_mgr_sweep_unique_witness :
  entry_fits ex_lid_env ex_db ex_hca
  ∧ let '(l, m') := lid_mgr_sweep ex_lid_env ex_lid_mgr in
    l.*1 = [ex_hca; ex_sw]
    ∧ (out_of_lids ex_lid_env (lid_mgr_init_sweep ex_lid_env ex_lid_mgr) (sweep_ports ex_lid_env)
       ∨ ∀ mn mx, (ex_hca, (mn, mx)) ∈ l → mn = 6 ∧ mx = 7).
Proof.
  assert (Hget : osm_db_guid2lid_get ex_db (port_guid_ho ex_hca) = Some (6, 7))
    by (rewrite ex_db_get by done; by rewrite decide_True by done).
  assert (Hf : entry_fits ex_lid_env ex_db ex_hca).
  { unfold entry_fits. rewrite Hget. right. by split; [exists 3|]. }
  split; [done|].
  pose proof (lid_mgr_sweep_unique ex_lid_env ex_lid_mgr ex_subnet_ok ex_db_ok
    ltac:(by simpl) ltac:(intros _; apply ex_lids_unshared)) as H.
  destruct (lid_mgr_sweep _ _) as [l m'] eqn:E. destruct H as [H1 H2].
  split; [by rewrite H1|]. destruct H2 as [H2|(_ & H2 & _)]; [by left|right].
  intros mn mx Hin. destruct (H2 ex_hca mn mx Hin) as (_ & -> & _ & _ & H3).
  specialize (H3 6 7 Hf Hget) as ->. by split.
Defined.

(** ** Two ports found with one LID

    The hypothesis of [lid_mgr_sweep_unique] on shared LIDs is needed: of two
    ports found with LID 1, the second has a persistent entry, so the scan takes
    LID 1 for free although the first port keeps it; a third port without a LID is
    then given LID 1 too. *)

Definition dup_a : lm_port := LmPort (cl_hton64 1) (cl_hton16 1) 0 None.
Definition dup_b : lm_port := LmPort (cl_hton64 2) (cl_hton16 1) 0 None.
Definition dup_c : lm_port := LmPort (cl_hton64 3) 0 0 None.

Definition dup_env : lm_env :=
  LmEnv 0 false false false false false 0xBFFF (lp_guid dup_a)
    {[ lp_guid dup_a := dup_a; lp_guid dup_b := dup_b; lp_guid dup_c := dup_c ]}.

Definition dup_mgr : osm_lid_mgr osm_db_domain :=
  LidMgr (osm_db_guid2lid_set (DbDomain ∅ false None) 2 20 20) [] {[ 20 ]} [].

(** The first range of a scan that has begun one at [lo]. *)
Lemma scan_lids_first (env : lm_env) (m : osm_lid_mgr osm_db_domain) fuel mx lid lo p_range ranges :
  (∃ hi, p_range = Some (lo, hi) ∧ lo ≤ hi < lid ∧ ranges = [])
  ∨ (∃ hi rest, ranges = (lo, hi) :: rest ∧ lo ≤ hi) →
  lo ≤ max_ucast_lid_ho env →
  let '(l, r, rs) := scan_lids env m fuel mx lid p_range ranges in
  ∃ hi rest, close_ranges env l r rs = (lo, hi) :: rest ∧ lo ≤ hi.
Proof.
  intros Hfirst Hlo.
  assert (Hdone : ∀ l r rs,
    (∃ hi, r = Some (lo, hi) ∧ lo ≤ hi < l ∧ rs = []) ∨ (∃ hi rest, rs = (lo, hi) :: rest ∧ lo ≤ hi) →
    ∃ hi rest, close_ranges env l r rs = (lo, hi) :: rest ∧ lo ≤ hi).
  { intros l r rs [(hi & -> & _ & ->)|(hi & rest & -> & Hh)]; unfold close_ranges; simpl; eauto. }
  revert lid p_range ranges Hfirst.
  induction fuel as [|fuel IH]; intros lid p_range ranges Hfirst; simpl; [by apply Hdone|].
  destruct (mx <? lid); [by apply Hdone|].
  pose proof (scan_lid_ge env m lid) as Hge. destruct (scan_lid env m lid) as [f lid'].
  simpl in Hge.
  destruct Hfirst as [(hi & -> & Hh & ->)|(hi & rest & -> & Hh)].
  - destruct f; apply IH; [left; exists lid'; split_and!; [done|lia..|done]|].
    right. exists hi, []. split; [done|lia].
  - destruct f, p_range as [[a b]|]; simpl; apply IH; right; eauto.
Qed.

(** A sweep after a discovery whose scan takes LID 1 for free. *)
Lemma init_sweep_first (env : lm_env) (m m1 : osm_lid_mgr osm_db_domain) :
  reassigning env = false → lm_coming_out_of_standby env = false →
  foldl (λ m e, discover_port env m e.2)
    (m <| free_ranges := [] |> <| port_lid_tbl := (λ _, None) <$> port_lid_tbl m |>)
    (qmap_items (lm_port_guid_tbl env)) = m1 →
  scan_lid env m1 1 = (true, 1) → 1 ≤ max_ucast_lid_ho env →
  ∃ hi rest, lid_mgr_init_sweep env m = m1 <| free_ranges := (1, hi) :: rest |> ∧ 1 ≤ hi.
Proof.
  intros Hre Hst Hm1 Hscan Hmax. unfold lid_mgr_init_sweep, sweep_db.
  rewrite Hre, Hst, Hm1.
  assert (Hfuel : ∃ k, Z.to_nat (scan_max_lid m1) = S k ∧ 1 ≤ scan_max_lid m1).
  { assert (1 ≤ scan_max_lid m1).
    { unfold scan_max_lid, IB_LID_UCAST_END_HO. case_match; lia. }
    exists (pred (Z.to_nat (scan_max_lid m1))). lia. }
  destruct Hfuel as (k & -> & Hk). cbn [scan_lids].
  destruct (Z.ltb_spec (scan_max_lid m1) 1) as [Hlt|_]; [lia|]. rewrite Hscan.
  pose proof (scan_lids_first env m1 k (scan_max_lid m1) (1 + 1) 1 (Some (1, 1)) []) as H.
  destruct (scan_lids env m1 k _ _ _ _) as [[l r] rs].
  destruct H as (hi & rest & E & Hh); [|done|].
  { left. exists 1. split_and!; [done|lia..|done]. }
  exists hi, rest. by rewrite E.
Qed.

(** A port with neither a persistent entry nor a LID gets the first LIDs that are
    free. *)
Lemma new_port_lid (env : lm_env) (m : osm_lid_mgr osm_db_domain) p lid rest :
  reassigning env = false → osm_db_guid2lid_get (p_g2l m) (port_guid_ho p) = None →
  port_base_lid_ho p = 0 → find_range env (port_num_lids env p) (free_ranges m) = Some (lid, rest) →
  (lid_mgr_get_port_lid env m p).1.1.1 = lid.
Proof.
  intros Hre Hget Hb Hf. unfold lid_mgr_get_port_lid. rewrite Hre, Hget, Hb.
  change (negb (0 =? 0)) with false. cbn [andb].
  unfold assign_lid, lid_mgr_find_free_lid_range.
  by rewrite (cleanup_keeps free_ranges), Hf by done.
Qed.

(** A sweep can give one LID to two ports.  In the subnet [dup_env] ports A and B
    were both found with LID 1, B's persistent range is LID 20, and port C has no
    LID: the scan takes LID 1 for free, A keeps LID 1, and C is given LID 1 as
    well. *)
Lemma dup_lid_twice :
  let '(l, m') := lid_mgr_sweep dup_env dup_mgr in
  ∃ mx mx', (dup_a, (1, mx)) ∈ l ∧ (dup_c, (1, mx')) ∈ l.
Proof.
  destruct (init_sweep_first dup_env dup_mgr
    (dup_mgr <| port_lid_tbl := [Some (lp_guid dup_c); Some (lp_guid dup_b)] |>))
    as (hi & rest & E & Hhi); [by vm_compute..|].
  rewrite lid_mgr_sweep_ports, E.
  assert (Es : sweep_ports dup_env = [dup_a; dup_b; dup_c]) by by vm_compute.
  rewrite Es. clear E Es.
  assert (Hf : find_range dup_env (port_num_lids dup_env dup_c) ((1, hi) :: rest)
    = Some (1, if 1 =? hi then rest else (2, hi) :: rest)).
  { change (port_num_lids dup_env dup_c) with 1. cbn [find_range].
    change (align_lid dup_env 1 1) with 1. change (1 + 1 - 1) with 1.
    rewrite (proj2 (Z.leb_le 1 hi)) by done. done. }
  revert Hf. generalize ((1, hi) :: rest) as f. intros f Hf. clear Hhi.
  cbn [assign_ports].
  assert (Ea : ∃ m1, lid_mgr_get_port_lid dup_env
     (dup_mgr <| port_lid_tbl := [Some (lp_guid dup_c); Some (lp_guid dup_b)] |>
      <| free_ranges := f |>) dup_a = (1, 1, false, m1)
     ∧ ∃ m2, lid_mgr_get_port_lid dup_env m1 dup_b = (20, 20, true, m2)
     ∧ free_ranges m2 = f
     ∧ osm_db_guid2lid_get (p_g2l m2) (port_guid_ho dup_c) = None).
  { eexists. split; [by vm_compute|]. eexists. split; [by vm_compute|]. split; by vm_compute. }
  destruct Ea as (m1 & -> & m2 & -> & Hf2 & Hg2).
  rewrite <-Hf2 in Hf.
  pose proof (new_port_lid dup_env m2 dup_c 1 _ eq_refl Hg2 eq_refl Hf) as Hc.
  destruct (lid_mgr_get_port_lid dup_env m2 dup_c) as [[[mn mx] ch] m3]. simpl in Hc. subst mn.
  exists 1, mx. split; [left|do 2 right; left].
Qed.
