(* ===== verification/Switch.v ===== *)
(** * The switch object: [opensm/osm_switch.c] and [include/opensm/osm_switch.h]

    A switch keeps its hop table ([hops]: a row per LID, allocated when the LID
    is first set, with the hop count of every port and the least one in cell 0),
    its forwarding tables, and the number of paths routed through each port.  The
    subnet graph is a table of nodes by GUID; a pointer to a node or switch is its
    GUID, a pointer to a physical port is its node and number.

    Allocations are taken to succeed; [rnd] is the value of [random ()]. *)

From S2P Require Import Prelude IbTypes.

Open Scope Z_scope.

Definition OSM_NO_PATH : Z := 0xFF.
Definition IB_SMP_DATA_SIZE : Z := 64.

(** ** The subnet graph *)

(** A physical port; a port GUID of 0 is a port that is not initialised. *)
Record osm_physp := Physp {
  pp_port_guid : Z;
  healthy : bool;
  hop_wf : Z;
  is_prof_ignored : bool;
  p_remote_physp : option (Z * Z)   (* node GUID, port number *)
}.

#[export] Instance osm_physp_eta : Eta osm_physp := λ p,
  Physp (pp_port_guid p) (healthy p) (hop_wf p) (is_prof_ignored p) (p_remote_physp p).

Record osm_node := Node {
  sys_guid : Z;
  node_is_switch : bool;     (* node type *)
  port0_base_lid : Z;        (* base LID of port 0, network order *)
  physp_table : list osm_physp
}.

Definition osm_node_get_physp_ptr (n : osm_node) (port_num : Z) : option osm_physp :=
  p ← physp_table n !! Z.to_nat port_num;
  if pp_port_guid p =? 0 then None else Some p.

(** ** The switch *)

Record osm_switch := Switch {
  max_lid_ho : Z;
  num_ports : Z;
  hops : list (option (list Z));   (* as long as [num_hops] *)
  p_prof : list Z;                 (* [num_paths] of each port *)
  search_ordering_ports : option (list Z);
  lft : list Z;                    (* as long as [lft_size] *)
  new_lft : list Z
}.

#[export] Instance osm_switch_eta : Eta osm_switch := λ s,
  Switch (max_lid_ho s) (num_ports s) (hops s) (p_prof s) (search_ordering_ports s)
    (lft s) (new_lft s).

Inductive osm_lft_type := OSM_LFT | OSM_NEW_LFT.

Definition hop_row (s : osm_switch) (lid_ho : Z) : option (list Z) :=
  mjoin (hops s !! Z.to_nat lid_ho).

Definition osm_switch_get_hop_count (s : osm_switch) (lid_ho port_num : Z) : Z :=
  if max_lid_ho s <? lid_ho then OSM_NO_PATH
  else match hop_row s lid_ho with
  | None => OSM_NO_PATH
  | Some row => row !!! Z.to_nat port_num
  end.

Definition osm_switch_get_least_hops (s : osm_switch) (lid_ho : Z) : Z :=
  if max_lid_ho s <? lid_ho then OSM_NO_PATH
  else match hop_row s lid_ho with
  | None => OSM_NO_PATH
  | Some row => row !!! 0%nat
  end.

Definition osm_switch_set_hops (s : osm_switch) (lid_ho port_num n : Z) : Z * osm_switch :=
  if (lid_ho =? 0) || (max_lid_ho s <? lid_ho) then (-1, s)
  else if num_ports s <=? port_num then (-1, s)
  else
    let row := default (replicate (Z.to_nat (num_ports s)) OSM_NO_PATH) (hop_row s lid_ho) in
    let row := <[Z.to_nat port_num := n]> row in
    let row := if n <? row !!! 0%nat then <[0%nat := n]> row else row in
    (0, s <| hops := <[Z.to_nat lid_ho := Some row]> (hops s) |>).

Definition osm_switch_clear_hops (s : osm_switch) : osm_switch :=
  s <| hops := (λ r : option (list Z), const (replicate (Z.to_nat (num_ports s)) OSM_NO_PATH) <$> r)
               <$> hops s |>.

Definition osm_switch_get_port_by_lid (s : osm_switch) (lid_ho : Z) (lft_enum : osm_lft_type) : Z :=
  if (lid_ho =? 0) || (max_lid_ho s <? lid_ho) then OSM_NO_PATH
  else match lft_enum with
  | OSM_LFT => lft s !!! Z.to_nat lid_ho
  | OSM_NEW_LFT => new_lft s !!! Z.to_nat lid_ho
  end.

Definition osm_switch_get_dimn_port (s : osm_switch) (port_num : Z) : Z :=
  match search_ordering_ports s with
  | None => port_num
  | Some o => o !!! Z.to_nat port_num
  end.

Definition osm_switch_count_path (s : osm_switch) (port : Z) : osm_switch :=
  s <| p_prof := alter (λ c, u32 (c + 1)) (Z.to_nat port) (p_prof s) |>.

Definition osm_switch_set_lft_block (s : osm_switch) (p_block : list Z) (block_num : Z)
    : bool * osm_switch :=
  let lid_start := u16 (block_num * IB_SMP_DATA_SIZE) in
  if Z.of_nat (length (lft s)) <? lid_start + IB_SMP_DATA_SIZE then (false, s)
  else (true, s <| lft := list_inserts (Z.to_nat lid_start) p_block (lft s) |>).

(** [None] is the answer [FALSE]. *)
Definition osm_switch_get_lft_block (s : osm_switch) (block_id : Z) : option (list Z) :=
  let base_lid_ho := u16 (block_id * IB_SMP_DATA_SIZE) in
  if max_lid_ho s <? base_lid_ho then None
  else Some (take (Z.to_nat IB_SMP_DATA_SIZE) (drop (Z.to_nat base_lid_ho) (new_lft s))).

(** ** Preparing a rebuild *)

Definition alloc_lft (s : osm_switch) (lids : Z) : osm_switch :=
  let lft_size' := u16 ((lids / IB_SMP_DATA_SIZE + 1) * IB_SMP_DATA_SIZE) in
  if Z.of_nat (length (lft s)) <? lft_size'
  then s <| lft := lft s ++ replicate (Z.to_nat lft_size' - length (lft s)) OSM_NO_PATH |>
  else s.

Definition osm_switch_prepare_path_rebuild (s : osm_switch) (max_lids : Z) : osm_switch :=
  let s := alloc_lft s max_lids in
  let s := s <| p_prof := replicate (Z.to_nat (num_ports s)) 0 |> in
  let s := osm_switch_clear_hops s in
  let s := s <| new_lft := replicate (length (lft s)) OSM_NO_PATH |> in
  let s := s <| hops := hops s ++ replicate (Z.to_nat (max_lids + 1) - length (hops s)) None |> in
  s <| max_lid_ho := max_lids |>.

(** ** Route recommendation *)

(** The nodes a port was reached through, with their use count. *)
Record osm_remote_node := RemoteNode {
  rn_node : Z;
  rn_forwarded_to : Z;
  rn_port : Z
}.

(** The target: its node, its physical port, base LID (network order), LMC, and
    the tracking array of the LMC routing. *)
Record osm_port := Port {
  pt_node : Z;
  pt_physp : option Z;
  pt_base_lid : Z;
  pt_lmc : Z;
  pt_use_scatter : bool;
  pt_priv : option (list osm_remote_node)
}.

#[export] Instance osm_port_eta : Eta osm_port := λ p,
  Port (pt_node p) (pt_physp p) (pt_base_lid p) (pt_lmc p) (pt_use_scatter p) (pt_priv p).

Record switch_port_path := PortPath {
  sp_port_num : Z;
  sp_path_count : Z;
  sp_found_sys_guid : bool;
  sp_found_node_guid : bool;
  sp_forwarded_to : Z
}.

(** The variables of the search loops. *)
Record rp_state := RpState {
  least_paths : Z;
  least_paths_other_sys : Z;
  least_paths_other_nodes : Z;
  least_forwarded_to : Z;
  best_port : Z;
  best_port_other_sys : Z;
  best_port_other_node : Z;
  port_found : bool;
  p_rem_node_first : option Z;
  p_remote_guid : option osm_remote_node;
  port_paths : list switch_port_path;
  port_paths_total_paths : Z;
  scatter_possible_ports : list Z;
  found_sys_guid : bool;
  found_node_guid : bool
}.

#[export] Instance rp_state_eta : Eta rp_state := λ s,
  RpState (least_paths s) (least_paths_other_sys s) (least_paths_other_nodes s)
    (least_forwarded_to s) (best_port s) (best_port_other_sys s) (best_port_other_node s)
    (port_found s) (p_rem_node_first s) (p_remote_guid s) (port_paths s)
    (port_paths_total_paths s) (scatter_possible_ports s) (found_sys_guid s) (found_node_guid s).

Definition UINT32_MAX : Z := 0xFFFFFFFF.

Definition rp_init : rp_state :=
  RpState UINT32_MAX UINT32_MAX UINT32_MAX UINT32_MAX 0 0 0 false None None [] 0 [] false false.

Section Recommend.
Context {BO : ByteOrder}.
Variable node_guid_tbl : gmap Z osm_node.
Variable sw_guids : gset Z.        (* the nodes that have a switch object *)
Variable guid : Z.                 (* of the switch *)
Variable p_sw : osm_switch.
Variable p_port : osm_port.
Variables routing_for_lmc dor port_shifting scatter_ports : bool.

Definition physp_at (g port_num : Z) : option osm_physp :=
  n ← node_guid_tbl !! g; osm_node_get_physp_ptr n port_num.

(** [osm_node_get_base_lid (node, 0)] in host order. *)
Definition node_base_lid_ho (g : Z) : Z :=
  from_option (λ n, cl_ntoh16 (port0_base_lid n)) 0 (node_guid_tbl !! g).

(** The target of the search: an answer at once, or the LID of its switch. *)
Inductive rp_target :=
  | RpReturn (port_num : Z)
  | RpSearch (base_lid : Z).

Definition rp_base_lid : rp_target :=
  if bool_decide (pt_node p_port ∈ sw_guids) then
    if pt_node p_port =? guid then RpReturn 0
    else RpSearch (cl_ntoh16 (pt_base_lid p_port))
  else
    match (num ← pt_physp p_port; n ← node_guid_tbl !! pt_node p_port;
           p ← physp_table n !! Z.to_nat num; p_remote_physp p) with
    | None => RpReturn OSM_NO_PATH
    | Some (g, rem_port) =>
        if bool_decide (g ∈ sw_guids) then
          if g =? guid then RpReturn rem_port else RpSearch (node_base_lid_ho g)
        else RpReturn OSM_NO_PATH
    end.

Definition switch_find_guid_common (r : option (list osm_remote_node)) (port_num : Z)
    (find_sys_guid find_node_guid : bool) : option osm_remote_node :=
  guids ← r;
  p_physp ← physp_at guid port_num;
  '(g, _) ← p_remote_physp p_physp;
  rem ← node_guid_tbl !! g;
  list_find_first (λ e,
    (negb find_sys_guid
     || bool_decide ((sys_guid <$> node_guid_tbl !! rn_node e) = Some (sys_guid rem)))
    && (negb find_node_guid || (rn_node e =? g))) guids.

Definition switch_find_sys_guid_count (port_num : Z) : option osm_remote_node :=
  switch_find_guid_common (pt_priv p_port) port_num true false.

Definition switch_find_node_guid_count (port_num : Z) : option osm_remote_node :=
  switch_find_guid_common (pt_priv p_port) port_num false true.

(** The tests at the head of the loop: a least-hop port that is up, healthy and
    linked. *)
Definition rp_usable (base_lid least_hops port_num : Z) : option osm_physp :=
  if (port_num =? 0) || negb (osm_switch_get_hop_count p_sw base_lid port_num =? least_hops)
  then None
  else
    p_physp ← physp_at guid port_num;
    if negb (healthy p_physp) || bool_decide (p_remote_physp p_physp = None) then None
    else Some p_physp.

(** The node on the other side in dimension-order routing: [None] skips the port. *)
Definition rp_dor (st : rp_state) (p_physp : osm_physp) : option rp_state :=
  '(g, rem_port) ← p_remote_physp p_physp;
  st ← match p_rem_node_first st with
       | None => Some (st <| p_rem_node_first := Some g |>)
       | Some first => if g =? first then Some st else None
       end;
  if routing_for_lmc then
    Some (st <| p_remote_guid :=
      Some (default (RemoteNode 0 0 0)
        (list_find_first (λ e, (rn_node e =? g) && (rn_port e =? rem_port))
           (default [] (pt_priv p_port)))) |>)
  else Some st.

(** The tracking of systems and nodes in LMC routing. *)
Definition rp_lmc (st : rp_state) (port_num check_count : Z) : rp_state :=
  match switch_find_sys_guid_count port_num with
  | None =>
      let st := st <| p_remote_guid := None |> in
      let st :=
        if check_count <? least_paths_other_sys st
        then st <| least_paths_other_sys := check_count |> <| best_port_other_sys := port_num |>
                <| least_forwarded_to := 0 |>
        else st in
      st <| found_sys_guid := false |>
  | Some _ =>
      let r := switch_find_node_guid_count port_num in
      let st := st <| p_remote_guid := r |> in
      let st :=
        if bool_decide (r = None) && (check_count <? least_paths_other_nodes st)
        then st <| least_paths_other_nodes := check_count |> <| best_port_other_node := port_num |>
                <| least_forwarded_to := 0 |>
        else st in
      (st <| found_node_guid := bool_decide (r ≠ None) |>) <| found_sys_guid := true |>
  end.

(** The bookkeeping of a usable port. *)
Definition rp_record (st : rp_state) (port_num check_count : Z) : rp_state :=
  let forwarded := from_option rn_forwarded_to 0 (p_remote_guid st) in
  let lmc_remote := routing_for_lmc && bool_decide (p_remote_guid st ≠ None) in
  let st := st
    <| port_paths := port_paths st ++
         [PortPath port_num check_count
            (routing_for_lmc && found_sys_guid st) (routing_for_lmc && found_node_guid st)
            (if lmc_remote then forwarded else 0)] |>
    <| port_paths_total_paths := u32 (port_paths_total_paths st + check_count) |> in
  if check_count <? least_paths st then
    let st := st <| port_found := true |> <| best_port := port_num |>
                 <| least_paths := check_count |> <| scatter_possible_ports := [port_num] |> in
    if lmc_remote && (forwarded <? least_forwarded_to st)
    then st <| least_forwarded_to := forwarded |> else st
  else if scatter_ports && (check_count =? least_paths st) then
    st <| scatter_possible_ports := scatter_possible_ports st ++ [port_num] |>
  else if lmc_remote && (check_count =? least_paths st) && (forwarded <? least_forwarded_to st) then
    st <| least_forwarded_to := forwarded |> <| best_port := port_num |>
  else st.

(** The body of the loop over the ports. *)
Definition rp_step (base_lid least_hops : Z) (st : rp_state) (port_num : Z) : rp_state :=
  match rp_usable base_lid least_hops port_num with
  | None => st
  | Some p_physp =>
      let check_count := p_prof p_sw !!! Z.to_nat port_num in
      if dor then
        match rp_dor st p_physp with
        | None => st
        | Some st => rp_record st port_num check_count
        end
      else if routing_for_lmc then rp_record (rp_lmc st port_num check_count) port_num check_count
      else rp_record st port_num check_count
  end.

(** The ports in the order of the loop. *)
Definition rp_ports (start_from : Z) : list Z :=
  (λ i, osm_switch_get_dimn_port p_sw (i mod num_ports p_sw)) <$> seqZ start_from (num_ports p_sw).

(** The body of the port-shifting loop. *)
Definition rp_shift_step (st : rp_state) (e : switch_port_path) : rp_state :=
  let used := sp_found_sys_guid e || sp_found_node_guid e in
  let st :=
    if routing_for_lmc then
      if negb (sp_found_sys_guid e) && (sp_path_count e <? least_paths_other_sys st) then
        st <| least_paths_other_sys := sp_path_count e |> <| best_port_other_sys := sp_port_num e |>
           <| least_forwarded_to := 0 |>
      else if negb (sp_found_node_guid e) && (sp_path_count e <? least_paths_other_nodes st) then
        st <| least_paths_other_nodes := sp_path_count e |> <| best_port_other_node := sp_port_num e |>
           <| least_forwarded_to := 0 |>
      else st
    else st in
  if sp_path_count e <? least_paths st then
    let st := st <| best_port := sp_port_num e |> <| least_paths := sp_path_count e |> in
    if routing_for_lmc && used && (sp_forwarded_to e <? least_forwarded_to st)
    then st <| least_forwarded_to := sp_forwarded_to e |> else st
  else if routing_for_lmc && used && (sp_path_count e =? least_paths st)
          && (sp_forwarded_to e <? least_forwarded_to st) then
    st <| least_forwarded_to := sp_forwarded_to e |> <| best_port := sp_port_num e |>
  else st.

Definition rp_shift (st : rp_state) : rp_state :=
  let count := Z.of_nat (length (port_paths st)) in
  let st := st <| least_paths := UINT32_MAX |> <| least_paths_other_sys := UINT32_MAX |>
               <| least_paths_other_nodes := UINT32_MAX |> <| least_forwarded_to := UINT32_MAX |>
               <| best_port := 0 |> <| best_port_other_sys := 0 |> <| best_port_other_node := 0 |> in
  foldl rp_shift_step st
    (omap (λ i, port_paths st !! Z.to_nat ((port_paths_total_paths st / count + i) mod count))
       (seqZ 0 count)).

(** The choice among the best ports. *)
Definition rp_select (st : rp_state) (rnd : Z) : Z :=
  if routing_for_lmc && negb (best_port st =? 0) && negb scatter_ports then
    if negb (best_port_other_sys st =? 0) then best_port_other_sys st
    else if negb (best_port_other_node st =? 0) then best_port_other_node st
    else best_port st
  else if scatter_ports then
    scatter_possible_ports st
      !!! Z.to_nat (rnd mod Z.of_nat (length (scatter_possible_ports st)))
  else best_port st.

(** The search, when no existing route is kept. *)
Definition rp_search (base_lid least_hops start_from rnd : Z) : Z :=
  let st := foldl (rp_step base_lid least_hops) rp_init (rp_ports start_from) in
  if negb (port_found st) then OSM_NO_PATH
  else
    let st := if port_shifting && negb (bool_decide (port_paths st = [])) then rp_shift st else st in
    rp_select st rnd.

Definition osm_switch_recommend_path (lid_ho start_from : Z) (ignore_existing : bool)
    (lft_enum : osm_lft_type) (rnd : Z) : Z :=
  match rp_base_lid with
  | RpReturn port_num => port_num
  | RpSearch base_lid =>
      let least_hops := osm_switch_get_least_hops p_sw base_lid in
      if least_hops =? OSM_NO_PATH then OSM_NO_PATH
      else
        let port_num := osm_switch_get_port_by_lid p_sw lid_ho lft_enum in
        let keep :=
          negb ignore_existing && negb (port_num =? OSM_NO_PATH) &&
          match physp_at guid port_num with
          | None => false
          | Some p_physp =>
              healthy p_physp && negb (bool_decide (p_remote_physp p_physp = None))
              && (osm_switch_get_hop_count p_sw base_lid port_num =? least_hops)
          end in
        if keep then port_num else rp_search base_lid least_hops start_from rnd
  end.

(** ** The recommended port *)

(** A port on a least-hop path that is healthy and linked. *)
Definition least_hop_port (base_lid port_num : Z) : Prop :=
  osm_switch_get_hop_count p_sw base_lid port_num = osm_switch_get_least_hops p_sw base_lid
  ∧ ∃ p, physp_at guid port_num = Some p ∧ healthy p = true ∧ p_remote_physp p ≠ None.

(** The ports that pass the tests of the loop. *)
Definition usable (base_lid port_num : Z) : Prop :=
  port_num ≠ 0 ∧ least_hop_port base_lid port_num.

Lemma rp_usable_iff base_lid port_num :
  is_Some (rp_usable base_lid (osm_switch_get_least_hops p_sw base_lid) port_num)
  ↔ usable base_lid port_num.
Proof.
  unfold rp_usable, usable, least_hop_port.
  destruct (Z.eqb_spec port_num 0) as [-> | Hn]; simpl.
  { split; [by intros [? [=]]|by intros [[] _]]. }
  destruct (Z.eqb_spec (osm_switch_get_hop_count p_sw base_lid port_num)
    (osm_switch_get_least_hops p_sw base_lid)) as [E|E]; simpl.
  2:{ split; [by intros [? [=]]|by intros (_ & ? & _)]. }
  destruct (physp_at guid port_num) as [p|]; simpl.
  2:{ split; [by intros [? [=]]|by intros (_ & _ & ? & [=] & _)]. }
  destruct (healthy p) eqn:Eh, (decide (p_remote_physp p = None)) as [Hr|Hr]; simpl.
  - rewrite bool_decide_true by done. split; [by intros [? [=]]|].
    by intros (_ & _ & ? & [= <-] & _ & ?).
  - rewrite bool_decide_false by done. split; [|by eexists].
    intros _. split_and!; try done. by exists p.
  - split; [by intros [? [=]]|]. intros (_ & _ & ? & [= <-] & ? & _). congruence.
  - split; [by intros [? [=]]|]. intros (_ & _ & ? & [= <-] & ? & _). congruence.
Qed.

(** The path counts leave room below the initial value of the minima. *)
Definition counts_ok : Prop := ∀ port_num, 0 ≤ p_prof p_sw !!! Z.to_nat port_num < UINT32_MAX.

(** The ports the search remembers satisfy [U]. *)
Record rp_ok (U : Z → Prop) (st : rp_state) : Prop := {
  rpo_best : port_found st = true → U (best_port st);
  rpo_sys : best_port_other_sys st = 0 ∨ U (best_port_other_sys st);
  rpo_node : best_port_other_node st = 0 ∨ U (best_port_other_node st);
  rpo_paths : Forall (λ e, U (sp_port_num e) ∧ 0 ≤ sp_path_count e < UINT32_MAX) (port_paths st);
  rpo_scatter : Forall U (scatter_possible_ports st);
  rpo_found : port_found st = true →
    scatter_possible_ports st ≠ [] ∧ port_paths st ≠ [];
  rpo_none : port_found st = false → least_paths st = UINT32_MAX ∧ p_rem_node_first st = None
}.

Lemma rp_init_ok U : rp_ok U rp_init.
Proof. split; simpl; try done; by left || constructor. Qed.

Lemma rp_lmc_ok U st port_num check_count :
  U port_num → rp_ok U st → rp_ok U (rp_lmc st port_num check_count).
Proof.
  intros HU [H1 H2 H3 H4 H5 H6 H7]. unfold rp_lmc.
  repeat case_match; split; simpl; auto.
Qed.

(** The first port of a dimension-order search is recorded as such. *)
Lemma rp_record_ok U st port_num check_count :
  U port_num → 0 ≤ check_count < UINT32_MAX →
  rp_ok U st ∨ (∃ g, rp_ok U (st <| p_rem_node_first := None |>) ∧ p_rem_node_first st = Some g) →
  rp_ok U (rp_record st port_num check_count) ∧ port_found (rp_record st port_num check_count) = true.
Proof.
  intros HU Hc Hst.
  assert (Hst' : (port_found st = true → U (best_port st)
      ∧ scatter_possible_ports st ≠ [] ∧ port_paths st ≠ [])
    ∧ (best_port_other_sys st = 0 ∨ U (best_port_other_sys st))
    ∧ (best_port_other_node st = 0 ∨ U (best_port_other_node st))
    ∧ Forall (λ e, U (sp_port_num e) ∧ 0 ≤ sp_path_count e < UINT32_MAX) (port_paths st)
    ∧ Forall U (scatter_possible_ports st)
    ∧ (port_found st = false → least_paths st = UINT32_MAX)).
  { destruct Hst as [[R1 R2 R3 R4 R5 R6 R7]|(? & [R1 R2 R3 R4 R5 R6 R7] & _)]; simpl in *;
      (split_and!; [intros Hf; split; [auto|by apply R6]|done..|intros Hf; by apply R7]). }
  clear Hst. destruct Hst' as (H1 & H2 & H3 & H4 & H5 & H7).
  unfold rp_record. cbv zeta.
  set (e := PortPath port_num check_count _ _ _).
  set (lmc := routing_for_lmc && bool_decide (p_remote_guid st ≠ None)).
  set (fwd := from_option rn_forwarded_to 0 (p_remote_guid st)).
  assert (Hpaths : Forall (λ e, U (sp_port_num e) ∧ 0 ≤ sp_path_count e < UINT32_MAX)
    (port_paths st ++ [e])) by (apply Forall_app; split; [done|by constructor]).
  assert (Happ : ∀ (A : Type) (l : list A) x, l ++ [x] ≠ []) by (by intros A []).
  clearbody e lmc fwd. cbn [least_paths set_field].
  destruct (Z.ltb_spec check_count (least_paths st)) as [Hlt|Hge].
  - destruct (lmc && _); (split; [|done]); split; simpl; auto; congruence.
  - destruct (port_found st) eqn:Ef; [|rewrite H7 in Hge by done; lia].
    destruct (H1 eq_refl) as (Hb & Hs & Hp).
    destruct (scatter_ports && _); [|destruct (lmc && _ && _)];
      (split; [|done]); split; simpl; auto; try congruence.
    apply Forall_app. split; [done|by constructor].
Qed.

Lemma rp_step_ok (U : Z → Prop) base_lid st port_num :
  counts_ok → (usable base_lid port_num → U port_num) →
  let least := osm_switch_get_least_hops p_sw base_lid in
  rp_ok U st →
  rp_ok U (rp_step base_lid least st port_num)
  ∧ (port_found st = true ∨ usable base_lid port_num →
     port_found (rp_step base_lid least st port_num) = true).
Proof.
  intros Hc Himp least Hok. pose proof (rp_usable_iff base_lid port_num) as HU. fold least in HU.
  unfold rp_step. destruct (rp_usable base_lid least port_num) as [p|] eqn:E.
  2:{ split; [done|]. intros [Hf|Hu]; [done|]. apply HU in Hu. by destruct Hu. }
  assert (Hus : usable base_lid port_num) by (apply HU; by eexists).
  pose proof (Himp Hus) as Hu.
  destruct dor.
  - assert (Hdor : (rp_dor st p = None ∧ port_found st = true)
      ∨ (∃ st', rp_dor st p = Some st'
         ∧ (rp_ok U st' ∨ ∃ g, rp_ok U (st' <| p_rem_node_first := None |>)
                             ∧ p_rem_node_first st' = Some g))).
    { unfold rp_dor. destruct Hus as (_ & _ & p' & Hp' & _ & Hr).
      assert (p' = p) as -> by (unfold rp_usable in E; rewrite Hp' in E; simpl in E;
        repeat case_match; congruence).
      destruct (p_remote_physp p) as [[g rp]|]; [|done]. simpl. destruct Hok as [H1 H2 H3 H4 H5 H6 H7].
      destruct (p_rem_node_first st) as [first|] eqn:Ef; simpl.
      - destruct (port_found st) eqn:Epf; [|by destruct (H7 eq_refl)].
        destruct (g =? first); simpl; [right|by left].
        destruct routing_for_lmc; eexists; (split; [done|]); left; split; simpl; auto; congruence.
      - right. destruct routing_for_lmc; eexists; (split; [done|]); right; exists g;
          (split; [|done]); split; simpl; auto; intros Hpf; destruct (H7 Hpf); auto. }
    destruct Hdor as [[-> Hf]|(st' & -> & Hst')]; [done|].
    destruct (rp_record_ok U st' port_num (p_prof p_sw !!! Z.to_nat port_num) Hu (Hc _) Hst'). auto.
  - destruct routing_for_lmc.
    + destruct (rp_record_ok U (rp_lmc st port_num (p_prof p_sw !!! Z.to_nat port_num)) port_num
        (p_prof p_sw !!! Z.to_nat port_num) Hu (Hc _)); [left; by apply rp_lmc_ok|]. auto.
    + destruct (rp_record_ok U st port_num (p_prof p_sw !!! Z.to_nat port_num) Hu (Hc _)); auto.
Qed.

Lemma rp_loop_ok (U : Z → Prop) base_lid ports st :
  counts_ok → (∀ q, q ∈ ports → usable base_lid q → U q) →
  let st' := foldl (rp_step base_lid (osm_switch_get_least_hops p_sw base_lid)) st ports in
  rp_ok U st →
  rp_ok U st'
  ∧ (port_found st = true ∨ (∃ q, q ∈ ports ∧ usable base_lid q) → port_found st' = true).
Proof.
  intros Hc. revert st. induction ports as [|q ports IH]; intros st Himp st' Hok; subst st'; simpl.
  { split; [done|]. intros [Hf|(q & Hq & _)]; [done|by apply not_elem_of_nil in Hq]. }
  destruct (rp_step_ok U base_lid st q Hc (Himp q ltac:(left)) Hok) as [Hok1 Hf1].
  destruct (IH _ ltac:(intros q' Hq'; apply Himp; by right) Hok1) as [Hok2 Hf2].
  split; [done|]. intros Hf. apply Hf2.
  destruct Hf as [Hf|(q' & [-> | Hq]%elem_of_cons & Hu)]; [left; auto|left; auto|right; eauto].
Qed.

(** The entries the port-shifting loop visits. *)
Lemma shift_entries_elem st e :
  e ∈ omap (λ i, port_paths st
      !! Z.to_nat ((port_paths_total_paths st / Z.of_nat (length (port_paths st)) + i)
                   mod Z.of_nat (length (port_paths st))))
    (seqZ 0 (Z.of_nat (length (port_paths st)))) → e ∈ port_paths st.
Proof. intros (i & _ & Hi)%list_elem_of_omap. by eapply list_elem_of_lookup_2. Qed.

Lemma rp_shift_step_ok (U : Z → Prop) st e :
  U (sp_port_num e) → 0 ≤ sp_path_count e < UINT32_MAX →
  let ok st := (best_port st = 0 ∨ U (best_port st))
    ∧ (best_port_other_sys st = 0 ∨ U (best_port_other_sys st))
    ∧ (best_port_other_node st = 0 ∨ U (best_port_other_node st)) in
  ok st → ok (rp_shift_step st e)
  ∧ scatter_possible_ports (rp_shift_step st e) = scatter_possible_ports st
  ∧ (U (best_port st) ∨ least_paths st = UINT32_MAX → U (best_port (rp_shift_step st e))).
Proof.
  intros HU Hc ok Hok. unfold rp_shift_step. cbv zeta.
  set (used := sp_found_sys_guid e || sp_found_node_guid e).
  set (st1 := if routing_for_lmc then _ else _).
  assert (H1 : ok st1 ∧ scatter_possible_ports st1 = scatter_possible_ports st
    ∧ best_port st1 = best_port st ∧ least_paths st1 = least_paths st).
  { subst st1 ok. destruct Hok as (? & ? & ?).
    destruct routing_for_lmc; [|by split_and!].
    destruct (_ && (_ <? _)); [|destruct (_ && (_ <? _))]; simpl; split_and!; auto. }
  clearbody st1. destruct H1 as ((Hb & Hs & Hn) & Hsc & Eb & El).
  destruct (Z.ltb_spec (sp_path_count e) (least_paths st1)) as [Hlt|Hge].
  - destruct (_ && _ && _); subst ok; simpl; split_and!; auto.
  - destruct (_ && _ && _ && _); subst ok; simpl; split_and!; auto.
    rewrite Eb. intros [?|E]; [done|]. rewrite El, E in Hge. lia.
Qed.

Lemma rp_shift_ok U st :
  rp_ok U st → port_paths st ≠ [] →
  let st' := rp_shift st in
  U (best_port st') ∧ (best_port_other_sys st' = 0 ∨ U (best_port_other_sys st'))
  ∧ (best_port_other_node st' = 0 ∨ U (best_port_other_node st'))
  ∧ scatter_possible_ports st' = scatter_possible_ports st.
Proof.
  intros [_ _ _ Hpaths _ _ _] Hne. unfold rp_shift. cbv zeta. rewrite Forall_forall in Hpaths.
  set (st0 := st <| least_paths := _ |> <| least_paths_other_sys := _ |>
    <| least_paths_other_nodes := _ |> <| least_forwarded_to := _ |> <| best_port := _ |>
    <| best_port_other_sys := _ |> <| best_port_other_node := _ |>).
  change (port_paths st0) with (port_paths st).
  change (port_paths_total_paths st0) with (port_paths_total_paths st).
  pose proof (shift_entries_elem st) as Hin.
  set (l := omap _ _) in *.
  assert (Hl : l ≠ []).
  { subst l. set (n := Z.of_nat (length (port_paths st))).
    assert (0 < n) by (subst n; destruct (port_paths st); [done|simpl; lia]).
    rewrite seqZ_cons by lia. simpl.
    set (j := (port_paths_total_paths st / n + 0) mod n).
    assert (0 ≤ j < n) by (apply Z.mod_pos_bound; lia).
    destruct (lookup_lt_is_Some_2 (port_paths st) (Z.to_nat j)) as [e ->]; [lia|done]. }
  assert (Hgen : ∀ l st1, (∀ e, e ∈ l → e ∈ port_paths st) →
    (best_port st1 = 0 ∨ U (best_port st1))
    ∧ (best_port_other_sys st1 = 0 ∨ U (best_port_other_sys st1))
    ∧ (best_port_other_node st1 = 0 ∨ U (best_port_other_node st1)) →
    U (best_port st1) ∨ least_paths st1 = UINT32_MAX ∧ l ≠ [] →
    let st' := foldl rp_shift_step st1 l in
    U (best_port st') ∧ (best_port_other_sys st' = 0 ∨ U (best_port_other_sys st'))
    ∧ (best_port_other_node st' = 0 ∨ U (best_port_other_node st'))
    ∧ scatter_possible_ports st' = scatter_possible_ports st1).
  { clear l Hin Hl. induction l as [|e l IH]; intros st1 Hin Hok Hb; simpl.
    { destruct Hb as [Hb|[_ Hb]]; [|done]. destruct Hok as (_ & ? & ?). done. }
    destruct (Hpaths e) as [HU Hc]; [apply Hin; left|].
    destruct (rp_shift_step_ok U st1 e HU Hc Hok) as (Hok1 & Hs & Hb1).
    rewrite <-Hs. apply IH; [intros; apply Hin; by right|done|]. left. apply Hb1.
    destruct Hb as [?|[? _]]; auto. }
  apply (Hgen l st0); [done|subst st0; simpl; auto|right; by split].
Qed.

Lemma rp_select_ok (U : Z → Prop) st rnd :
  U (best_port st) → (best_port_other_sys st = 0 ∨ U (best_port_other_sys st)) →
  (best_port_other_node st = 0 ∨ U (best_port_other_node st)) →
  Forall U (scatter_possible_ports st) → scatter_possible_ports st ≠ [] →
  U (rp_select st rnd).
Proof.
  intros Hb Hs Hn Hsc Hne. unfold rp_select.
  assert (Hrnd : U (scatter_possible_ports st
    !!! Z.to_nat (rnd mod Z.of_nat (length (scatter_possible_ports st))))).
  { set (l := scatter_possible_ports st) in *.
    pose proof (Z.mod_pos_bound rnd (Z.of_nat (length l))
      ltac:(destruct l; [done|simpl; lia])).
    rewrite Forall_forall in Hsc. apply Hsc, list_elem_of_lookup.
    eexists. apply lookup_total_lt. lia. }
  destruct (routing_for_lmc && _ && _); [|by destruct scatter_ports].
  destruct (Z.eqb_spec (best_port_other_sys st) 0); simpl; [|by destruct Hs].
  destruct (Z.eqb_spec (best_port_other_node st) 0); simpl; [done|by destruct Hn].
Qed.

(** A search gives a usable port when the loop meets one, and no path otherwise. *)
Lemma rp_search_ok base_lid start_from rnd :
  counts_ok →
  let U q := q ∈ rp_ports start_from ∧ usable base_lid q in
  let r := rp_search base_lid (osm_switch_get_least_hops p_sw base_lid) start_from rnd in
  U r ∨ ((¬ ∃ q, U q) ∧ r = OSM_NO_PATH).
Proof.
  intros Hc U. unfold rp_search.
  destruct (rp_loop_ok U base_lid (rp_ports start_from) rp_init Hc ltac:(by split) (rp_init_ok _))
    as [Hok Hf].
  set (st := foldl _ _ _) in *. destruct (port_found st) eqn:E; simpl.
  2:{ right. split; [|done]. intros Hq. by discriminate Hf; right. }
  left. pose proof Hok as [H1 H2 H3 H4 H5 H6 H7]. destruct (H6 E) as [Hs Hp].
  destruct (port_shifting && _); [|by apply rp_select_ok; auto].
  destruct (rp_shift_ok U st Hok Hp) as (? & ? & ? & Esc).
  apply rp_select_ok; try done; by rewrite Esc.
Qed.

(** The order of the ports is a rearrangement of their numbers. *)
Definition dimn_ok : Prop :=
  0 < num_ports p_sw ≤ 255
  ∧ match search_ordering_ports p_sw with
    | None => True
    | Some o => o ≡ₚ seqZ 0 (num_ports p_sw)
    end.

Lemma dimn_ports_Permutation :
  dimn_ok → osm_switch_get_dimn_port p_sw <$> seqZ 0 (num_ports p_sw) ≡ₚ seqZ 0 (num_ports p_sw).
Proof.
  intros [Hn Ho]. unfold osm_switch_get_dimn_port.
  destruct (search_ordering_ports p_sw) as [o|]; [|by rewrite list_fmap_id].
  assert (E : (λ port_num, o !!! Z.to_nat port_num) <$> seqZ 0 (num_ports p_sw) = o); [|by rewrite E].
  apply list_eq. intros i. rewrite list_lookup_fmap.
  assert (Hlen : Z.of_nat (length o) = num_ports p_sw) by (rewrite Ho, length_seqZ; lia).
  destruct (decide (i < length o)%nat) as [Hi|Hi].
  - rewrite lookup_seqZ_lt by lia. simpl. rewrite Z.add_0_l, Nat2Z.id. symmetry.
    by apply lookup_total_lt.
  - rewrite lookup_seqZ_ge by lia. symmetry. apply lookup_ge_None. lia.
Qed.

(** The loop visits every port. *)
Lemma elem_of_rp_ports start_from q :
  dimn_ok → q ∈ rp_ports start_from ↔ 0 ≤ q < num_ports p_sw.
Proof.
  intros Hd. set (n := num_ports p_sw).
  transitivity (q ∈ osm_switch_get_dimn_port p_sw <$> seqZ 0 n).
  2:{ unfold n. rewrite (dimn_ports_Permutation Hd), elem_of_seqZ. lia. }
  assert (0 < n) by apply Hd. unfold rp_ports. rewrite !list_elem_of_fmap. fold n. split.
  - intros (i & -> & Hi%elem_of_seqZ). exists (i mod n). split; [done|].
    apply elem_of_seqZ. pose proof (Z.mod_pos_bound i n). lia.
  - intros (i & -> & Hi%elem_of_seqZ).
    (* the number congruent to [i] in the window that starts at [start_from] *)
    exists (start_from + (i - start_from) mod n).
    pose proof (Z.mod_pos_bound (i - start_from) n ltac:(lia)). split.
    + f_equal. rewrite Zplus_mod_idemp_r. replace (start_from + (i - start_from)) with i by lia.
      symmetry. apply Z.mod_small. lia.
    + apply elem_of_seqZ. lia.
Qed.

Lemma recommend_path_step base_lid lid_ho start_from ignore_existing lft_enum rnd :
  counts_ok → dimn_ok → rp_base_lid = RpSearch base_lid →
  let r := osm_switch_recommend_path lid_ho start_from ignore_existing lft_enum rnd in
  (osm_switch_get_least_hops p_sw base_lid ≠ OSM_NO_PATH ∧ least_hop_port base_lid r)
  ∨ (r = OSM_NO_PATH
     ∧ (osm_switch_get_least_hops p_sw base_lid ≠ OSM_NO_PATH →
        ∀ q, 1 ≤ q < num_ports p_sw → ¬ least_hop_port base_lid q)).
Proof.
  intros Hc Hd Hb. unfold osm_switch_recommend_path. rewrite Hb. cbv zeta.
  destruct (Z.eqb_spec (osm_switch_get_least_hops p_sw base_lid) OSM_NO_PATH) as [E|E];
    [by right|].
  set (keep := _ && _ && match physp_at _ _ with None => _ | Some _ => _ end).
  destruct keep eqn:Ek; subst keep.
  - left. split; [done|]. apply andb_true_iff in Ek as [_ Ek].
    destruct (physp_at guid _) as [p|] eqn:Ep; [|done].
    apply andb_true_iff in Ek as [[Hh Hr%negb_true_iff%bool_decide_eq_false]%andb_true_iff
      Eh%Z.eqb_eq]. split; [done|]. by exists p.
  - destruct (rp_search_ok base_lid start_from rnd Hc) as [[_ [_ Hu]]|[Hn ->]]; [by left|].
    right. split; [done|]. intros _ q Hq Hlh. apply Hn. exists q.
    rewrite elem_of_rp_ports by done. split; [lia|]. split; [lia|done].
Qed.

(** C26. The port [osm_switch_recommend_path] chooses, whatever its options, its
    random choice and the counters: unless the target is local to the switch, it
    is on a path with the least number of hops, healthy and linked; and it
    answers that there is no path only when no port is. *)
Theorem recommend_path_ok base_lid lid_ho start_from ignore_existing lft_enum rnd :
  counts_ok → dimn_ok → rp_base_lid = RpSearch base_lid →
  let r := osm_switch_recommend_path lid_ho start_from ignore_existing lft_enum rnd in
  (osm_switch_get_least_hops p_sw base_lid ≠ OSM_NO_PATH ∧ least_hop_port base_lid r)
  ∨ (r = OSM_NO_PATH
     ∧ (osm_switch_get_least_hops p_sw base_lid ≠ OSM_NO_PATH →
        ∀ q, 1 ≤ q < num_ports p_sw → ¬ least_hop_port base_lid q)).
Proof. exact (recommend_path_step base_lid lid_ho start_from ignore_existing lft_enum rnd). Qed.

(** *** Load balancing *)

Definition path_count (port_num : Z) : Z := p_prof p_sw !!! Z.to_nat port_num.

(** After some of the ports, the search holds the first of those with the fewest
    paths. *)
Definition plain_inv base_lid (seen : list Z) (st : rp_state) : Prop :=
  (port_found st = true → least_paths st = path_count (best_port st))
  ∧ ∀ q, q ∈ seen → usable base_lid q → least_paths st ≤ path_count q.

Lemma rp_loop_plain base_lid ports seen st :
  routing_for_lmc = false → dor = false → scatter_ports = false →
  plain_inv base_lid seen st →
  plain_inv base_lid (seen ++ ports)
    (foldl (rp_step base_lid (osm_switch_get_least_hops p_sw base_lid)) st ports).
Proof.
  intros Hl Hd Hs. revert seen st. induction ports as [|q ports IH]; intros seen st [Hf Hm]; simpl.
  { by rewrite app_nil_r. }
  rewrite cons_middle, app_assoc. apply IH. clear IH.
  pose proof (rp_usable_iff base_lid q) as HU. unfold rp_step. rewrite Hl, Hd.
  destruct (rp_usable base_lid _ q) as [p|]; fold (path_count q).
  2:{ split; [done|]. intros q' [Hq| ->%list_elem_of_singleton]%elem_of_app Hu; [auto|].
      apply HU in Hu. by destruct Hu. }
  unfold rp_record. cbv zeta. rewrite Hl, Hs. cbn [andb]. cbn [least_paths set_field].
  destruct (Z.ltb_spec (path_count q) (least_paths st)) as [Hlt|Hge]; split; simpl; try done;
    intros q' [Hq| ->%list_elem_of_singleton]%elem_of_app Hu; try lia; specialize (Hm q' Hq Hu); lia.
Qed.

(** Without LMC, dimension order, port shifting and scattering, the port
    chosen for a new route carries the fewest paths among all least-hop ports
    that are healthy and linked. *)
Theorem recommend_path_balanced base_lid lid_ho start_from lft_enum rnd q :
  routing_for_lmc = false → dor = false → port_shifting = false → scatter_ports = false →
  counts_ok → dimn_ok → rp_base_lid = RpSearch base_lid →
  let r := osm_switch_recommend_path lid_ho start_from true lft_enum rnd in
  r ≠ OSM_NO_PATH → 1 ≤ q < num_ports p_sw → least_hop_port base_lid q →
  path_count r ≤ path_count q.
Proof.
  intros Hl Hd Hsh Hs Hc Hdim Hb. unfold osm_switch_recommend_path. rewrite Hb. cbn [negb andb].
  destruct (_ =? OSM_NO_PATH); [done|]. unfold rp_search, rp_select. rewrite Hl, Hsh, Hs. cbn [andb].
  destruct (rp_loop_plain base_lid (rp_ports start_from) [] rp_init) as [Hf Hm]; try done.
  { split; [done|]. intros q' Hq'. by apply not_elem_of_nil in Hq'. }
  set (st := foldl _ _ _) in *. destruct (port_found st); simpl; [|done].
  intros _ Hq Hlh. rewrite <-Hf by done. apply Hm; [|split; [lia|done]].
  apply elem_of_rp_ports; [done|lia].
Qed.
End Recommend.

(** ** The hop table *)

(** The sizes of a switch's tables agree. *)
Record sw_wf (s : osm_switch) : Prop := {
  wf_ports : 0 < num_ports s ≤ 255;
  wf_lids : 0 ≤ max_lid_ho s < Z.of_nat (length (hops s));
  wf_rows lid row : hop_row s lid = Some row → length row = Z.to_nat (num_ports s)
}.

Definition lid_in (s : osm_switch) (lid : Z) : Prop := 0 < lid ≤ max_lid_ho s.
Definition port_in (s : osm_switch) (port : Z) : Prop := 0 ≤ port < num_ports s.

Lemma least_hops_eq s lid : osm_switch_get_least_hops s lid = osm_switch_get_hop_count s lid 0.
Proof. done. Qed.

Lemma set_hops_ok s lid port n :
  sw_wf s → lid_in s lid → port_in s port →
  let s' := (osm_switch_set_hops s lid port n).2 in
  sw_wf s' ∧ num_ports s' = num_ports s ∧ max_lid_ho s' = max_lid_ho s
  ∧ ∀ l p, lid_in s l → port_in s p →
    osm_switch_get_hop_count s' l p
    = if decide (l = lid)
      then if decide (p = port) then n
           else if decide (p = 0) then Z.min (osm_switch_get_hop_count s l 0) n
           else osm_switch_get_hop_count s l p
      else osm_switch_get_hop_count s l p.
Proof.
  intros [Hp Hl Hr] Hlid Hport. unfold lid_in, port_in in *. unfold osm_switch_set_hops.
  destruct (Z.eqb_spec lid 0); [lia|]. destruct (Z.ltb_spec (max_lid_ho s) lid); [lia|].
  destruct (Z.leb_spec (num_ports s) port); [lia|]. simpl.
  set (row0 := default _ (hop_row s lid)).
  assert (Hlen : length row0 = Z.to_nat (num_ports s)).
  { subst row0. destruct (hop_row s lid) as [r|] eqn:E; simpl; [by eapply Hr|apply length_replicate]. }
  assert (Hget : ∀ p, 0 ≤ p < num_ports s → osm_switch_get_hop_count s lid p = row0 !!! Z.to_nat p).
  { intros p Hpp. unfold osm_switch_get_hop_count. subst row0.
    destruct (Z.ltb_spec (max_lid_ho s) lid); [lia|].
    destruct (hop_row s lid) as [r|]; simpl; [done|].
    rewrite list_lookup_total_alt, lookup_replicate_2 by lia. done. }
  clearbody row0.
  set (row := if n <? <[Z.to_nat port := n]> row0 !!! 0%nat then _ else _).
  assert (Hrow : length row = Z.to_nat (num_ports s)).
  { subst row. destruct (n <? _); by rewrite ?length_insert. }
  assert (Hcell : ∀ p, 0 ≤ p < num_ports s → row !!! Z.to_nat p
    = if decide (p = port) then n else if decide (p = 0) then Z.min (row0 !!! 0%nat) n
      else row0 !!! Z.to_nat p).
  { intros p Hpp. subst row.
    assert (E0 : <[Z.to_nat port := n]> row0 !!! 0%nat = if decide (port = 0) then n else row0 !!! 0%nat).
    { rewrite lookup_total_insert by lia. repeat case_decide; done || lia. }
    rewrite E0. destruct (Z.ltb_spec n (if decide (port = 0) then n else row0 !!! 0%nat)) as [Hlt|Hge];
      rewrite ?lookup_total_insert by (rewrite ?length_insert; lia);
      repeat case_decide; subst; try done; try lia. change (Z.to_nat 0) with 0%nat. lia. }
  clearbody row.
  assert (Hrow' : ∀ l, 0 ≤ l ≤ max_lid_ho s →
    mjoin (<[Z.to_nat lid := Some row]> (hops s) !! Z.to_nat l)
    = if decide (l = lid) then Some row else hop_row s l).
  { intros l Hll. unfold hop_row. case_decide as E; subst.
    - rewrite list_lookup_insert_eq by lia. done.
    - by rewrite list_lookup_insert_ne by lia. }
  split_and!; [split; simpl|done|done|].
  - done.
  - by rewrite length_insert.
  - intros l r. unfold hop_row. simpl.
    destruct (decide (Z.to_nat l = Z.to_nat lid)) as [->|E].
    + rewrite list_lookup_insert_eq by lia. simpl. by intros [= <-].
    + rewrite list_lookup_insert_ne by done. apply Hr.
  - intros l p Hll Hpp. unfold osm_switch_get_hop_count at 1. unfold hop_row at 1. simpl.
    destruct (Z.ltb_spec (max_lid_ho s) l); [lia|]. rewrite Hrow' by lia.
    case_decide as E; subst.
    + rewrite Hcell by done. rewrite !Hget by lia. done.
    + unfold osm_switch_get_hop_count. destruct (Z.ltb_spec (max_lid_ho s) l); [lia|done].
Qed.

(** ** A rebuild starts from empty tables *)

Lemma alloc_lft_ok s lids :
  0 ≤ lids ≤ 0xBFFF →
  lids < Z.of_nat (length (lft (alloc_lft s lids)))
  ∧ (∀ i x, lft s !! i = Some x → lft (alloc_lft s lids) !! i = Some x).
Proof.
  intros Hl. unfold alloc_lft, IB_SMP_DATA_SIZE.
  pose proof (Z.div_mod lids 64). pose proof (Z.mod_pos_bound lids 64).
  rewrite u16_small by lia.
  destruct (Z.ltb_spec (Z.of_nat (length (lft s))) ((lids / 64 + 1) * 64)); simpl.
  - rewrite length_app, length_replicate. split; [lia|]. intros i x Hi. by apply lookup_app_l_Some.
  - split; [lia|done].
Qed.

Lemma prepare_path_rebuild_step s max_lids :
  0 < num_ports s ≤ 255 → (∀ lid row, hop_row s lid = Some row → length row = Z.to_nat (num_ports s)) →
  0 ≤ max_lids ≤ 0xBFFF →
  let s' := osm_switch_prepare_path_rebuild s max_lids in
  sw_wf s' ∧ num_ports s' = num_ports s ∧ max_lid_ho s' = max_lids
  ∧ (∀ lid port, lid_in s' lid → port_in s' port →
       osm_switch_get_hop_count s' lid port = OSM_NO_PATH)
  ∧ (∀ lid, osm_switch_get_port_by_lid s' lid OSM_NEW_LFT = OSM_NO_PATH)
  ∧ length (new_lft s') = length (lft s') ∧ max_lids < Z.of_nat (length (lft s'))
  ∧ p_prof s' = replicate (Z.to_nat (num_ports s)) 0
  ∧ ∀ i x, lft s !! i = Some x → lft s' !! i = Some x.
Proof.
  intros Hp Hr Hm. destruct (alloc_lft_ok s max_lids Hm) as [Hlen Hkeep].
  unfold osm_switch_prepare_path_rebuild. cbv zeta. set (s1 := alloc_lft s max_lids) in *.
  assert (E1 : hops s1 = hops s ∧ num_ports s1 = num_ports s)
    by (subst s1; unfold alloc_lft; cbv zeta; by case_match).
  clearbody s1. destruct E1 as [Eh En], s1 as [ml np hs pp so l nl]. simpl in *. subst np hs.
  set (clear := replicate (Z.to_nat (num_ports s)) OSM_NO_PATH).
  set (f := λ r : option (list Z), _ <$> r).
  assert (Hrows : ∀ i (row : list Z),
    mjoin ((f <$> hops s ++ replicate (Z.to_nat (max_lids + 1) - length (f <$> hops s)) None) !! i)
      = Some row → row = clear).
  { intros i row. rewrite list_lookup_fmap.
    destruct ((hops s ++ _) !! i) as [[r|]|]; simpl; [|done..]. unfold f. simpl. by intros [= <-]. }
  assert (Hrows' : ∀ i (row : list Z),
    mjoin (((f <$> hops s) ++ replicate (Z.to_nat (max_lids + 1) - length (f <$> hops s)) None) !! i)
      = Some row → row = clear).
  { intros i row. replace (_ ++ replicate _ None)
      with (f <$> hops s ++ replicate (Z.to_nat (max_lids + 1) - length (f <$> hops s)) None);
      [apply Hrows|]. rewrite fmap_app. f_equal. by rewrite fmap_replicate. }
  clear Hrows.
  split_and!; try done.
  - split; simpl; [done| |].
    + rewrite length_app, length_replicate, length_fmap. lia.
    + intros lid row Hrow. unfold hop_row in Hrow. simpl in Hrow.
      apply Hrows' in Hrow as ->. apply length_replicate.
  - intros lid port Hlid Hport. unfold lid_in, port_in in *. simpl in *.
    unfold osm_switch_get_hop_count, hop_row. simpl.
    destruct (max_lids <? lid); [done|].
    destruct (mjoin _) as [row|] eqn:E; [|done]. apply Hrows' in E as ->.
    rewrite list_lookup_total_alt. subst clear. rewrite lookup_replicate_2 by lia. done.
  - intros lid. unfold osm_switch_get_port_by_lid. simpl.
    destruct (Z.eqb_spec lid 0), (Z.ltb_spec max_lids lid); simpl; try done.
    destruct (decide (lid < 0)) as [Hneg|Hpos].
    { replace (Z.to_nat lid) with 0%nat by lia.
      rewrite list_lookup_total_alt, lookup_replicate_2 by lia. done. }
    rewrite list_lookup_total_alt, lookup_replicate_2 by lia. done.
  - apply length_replicate.
Qed.

(** [osm_switch_prepare_path_rebuild] gives a switch whose tables have room
    for every LID: no LID has a path or a route in the new table, every counter is
    0, and the routes the hardware holds are kept. *)
Theorem prepare_path_rebuild_ok s max_lids :
  0 < num_ports s ≤ 255 → (∀ lid row, hop_row s lid = Some row → length row = Z.to_nat (num_ports s)) →
  0 ≤ max_lids ≤ 0xBFFF →
  let s' := osm_switch_prepare_path_rebuild s max_lids in
  sw_wf s' ∧ num_ports s' = num_ports s ∧ max_lid_ho s' = max_lids
  ∧ (∀ lid port, lid_in s' lid → port_in s' port →
       osm_switch_get_hop_count s' lid port = OSM_NO_PATH)
  ∧ (∀ lid, osm_switch_get_port_by_lid s' lid OSM_NEW_LFT = OSM_NO_PATH)
  ∧ length (new_lft s') = length (lft s') ∧ max_lids < Z.of_nat (length (lft s'))
  ∧ p_prof s' = replicate (Z.to_nat (num_ports s)) 0
  ∧ ∀ i x, lft s !! i = Some x → lft s' !! i = Some x.
Proof. exact (prepare_path_rebuild_step s max_lids). Qed.
