(* ===== verification/UcastMgr.v ===== *)
(** * Unicast routing by least hops: [opensm/osm_ucast_mgr.c]

    The lid matrices (a distributed shortest-path computation over the hop tables
    of [Switch.v]) and the forwarding tables chosen from them.  The entries of the
    hop weights file are an argument, in the form [parse_node_map] hands them to
    its callback; so is the order of the ports, and the values of [random ()]. *)

From S2P Require Import Prelude IbTypes CString Switch.

Open Scope Z_scope.

(** ** Hop weights *)

(** Writes a field of the valid physical ports [1 .. num_ports - 1] of a switch. *)
Definition map_sw_physps (f : osm_physp → osm_physp) (num_ports : Z) (n : osm_node) : osm_node :=
  Node (sys_guid n) (node_is_switch n) (port0_base_lid n)
    (imap (λ i p, if (1 <=? Z.of_nat i) && (Z.of_nat i <? num_ports) && negb (pp_port_guid p =? 0)
                  then f p else p) (physp_table n)).

Definition set_default_hop_wf (nodes : gmap Z osm_node) (g : Z) (sw : osm_switch)
    : gmap Z osm_node :=
  alter (map_sw_physps (λ p, p <| hop_wf := 1 |>) (num_ports sw)) g nodes.

(** [set_hop_wf]: one entry of the hop weights file, the GUID and the rest of the
    line, ["port weight"]; the entry is skipped when anything is wrong with it.
    When the line ends after the port number the code looks at the byte behind the
    terminator; the model takes an empty rest there. *)
Definition set_hop_wf {BO : ByteOrder} (sws : gmap Z osm_switch) (nodes : gmap Z osm_node)
    (guid : Z) (p : cstr) : gmap Z osm_node :=
  let g := cl_hton64 guid in
  match sws !! g with
  | None => nodes
  | Some sw =>
      let '(v, e) := strtoull p in
      let port := u32 v in
      if bool_decide (p = []) || (port =? 0) || (num_ports sw <=? port) then nodes
      else
        let p := drop 1 e in
        let wf := u32 (strtoull p).1 in
        if bool_decide (p = []) || (wf =? 0) || (0x100 <=? wf) then nodes
        else
          match (n ← nodes !! g; osm_node_get_physp_ptr n port) with
          | None => nodes
          | Some _ =>
              alter (λ n, Node (sys_guid n) (node_is_switch n) (port0_base_lid n)
                (alter (λ p, p <| hop_wf := wf |>) (Z.to_nat port) (physp_table n))) g nodes
          end
  end.

(** ** The lid matrices *)

Section LidMatrix.
Context {BO : ByteOrder}.
Variable nodes : gmap Z osm_node.
Implicit Types sws : gmap Z osm_switch.

Definition sw_keys sws : list Z := (qmap_items sws).*1.

Definition sw_lid (g : Z) : Z := node_base_lid_ho nodes g.

(** The switch on the other side of a port, with the port; a link from a switch to
    itself does not count. *)
Definition remote_sw sws (g port : Z) : option (osm_physp * Z) :=
  p ← physp_at nodes g port;
  '(r, _) ← p_remote_physp p;
  if bool_decide (r ∈ dom sws) && negb (r =? g) then Some (p, r) else None.

Definition osm_link_is_healthy (p : osm_physp) : bool :=
  match p_remote_physp p with
  | None => true
  | Some (r, rem_port) =>
      healthy p
      && from_option healthy false (n ← nodes !! r; physp_table n !! Z.to_nat rem_port)
  end.

(** The body of the loop over the ports of a switch. *)
Definition hop_1 sws (g : Z) (sw : osm_switch) (i : Z) : osm_switch :=
  match remote_sw sws g i with
  | Some (p, r) => (osm_switch_set_hops sw (sw_lid r) i (hop_wf p)).2
  | None => sw
  end.

Definition ucast_mgr_process_hop_0_1 sws (g : Z) : gmap Z osm_switch :=
  match sws !! g with
  | None => sws
  | Some sw =>
      let sw0 := (osm_switch_set_hops sw (sw_lid g) 0 0).2 in
      <[g := foldl (hop_1 sws g) sw0 (seqZ 1 (num_ports sw - 1))]> sws
  end.

(** The body of the loop over the switches: what [this] learns of the LID of [t]
    from the switch at the other end of its port; the flag is
    [some_hop_count_set]. *)
Definition relax (this remote port : Z) (st : gmap Z osm_switch * bool) (t : Z)
    : gmap Z osm_switch * bool :=
  let '(sws, some_hop_count_set) := st in
  match sws !! this, sws !! remote, physp_at nodes this port with
  | Some p_this_sw, Some p_remote_sw, Some p =>
      let lid_ho := sw_lid t in
      let hops := osm_switch_get_least_hops p_remote_sw lid_ho in
      if hops =? OSM_NO_PATH then st
      else
        let hops := u16 (hops + hop_wf p) in
        if hops <? osm_switch_get_hop_count p_this_sw lid_ho port
        then (<[this := (osm_switch_set_hops p_this_sw lid_ho port (u8 hops)).2]> sws, true)
        else st
  | _, _, _ => st
  end.

Definition ucast_mgr_process_neighbor (this remote port : Z) (st : gmap Z osm_switch * bool)
    : gmap Z osm_switch * bool :=
  foldl (relax this remote port) st (sw_keys st.1).

Definition num_physp (g : Z) : Z :=
  from_option (λ n, u8 (Z.of_nat (length (physp_table n)))) 0 (nodes !! g).

(** The body of the loop over the ports of a switch. *)
Definition neighbor_port (g : Z) (st : gmap Z osm_switch * bool) (port_num : Z)
    : gmap Z osm_switch * bool :=
  match remote_sw st.1 g port_num with
  | Some (p, r) =>
      if osm_link_is_healthy p then ucast_mgr_process_neighbor g r port_num st else st
  | None => st
  end.

Definition ucast_mgr_process_neighbors (st : gmap Z osm_switch * bool) (g : Z)
    : gmap Z osm_switch * bool :=
  foldl (neighbor_port g) st (seqZ 1 (num_physp g - 1)).

(** One iteration over all switches. *)
Definition propagate_once sws : gmap Z osm_switch * bool :=
  foldl ucast_mgr_process_neighbors (sws, false) (sw_keys sws).

(** The [for] loop: [n] iterations at most, as long as the last one set a count. *)
Fixpoint propagate (n : nat) (some_hop_count_set : bool) sws : gmap Z osm_switch :=
  match n with
  | O => sws
  | S n =>
      if some_hop_count_set then
        let '(sws, some_hop_count_set) := propagate_once sws in
        propagate n some_hop_count_set sws
      else sws
  end.

(** The matrices, once the weights are set. *)
Definition build_matrices sws : gmap Z osm_switch :=
  let sws := foldl ucast_mgr_process_hop_0_1 sws (sw_keys sws) in
  propagate (pred (size sws)) true sws.
End LidMatrix.

Definition osm_ucast_mgr_build_lid_matrices {BO : ByteOrder} (hop_weights : list (Z * cstr))
    (nodes : gmap Z osm_node) (sws : gmap Z osm_switch) : gmap Z osm_node * gmap Z osm_switch :=
  let nodes := foldl (λ nodes e, set_default_hop_wf nodes e.1 e.2) nodes (qmap_items sws) in
  let nodes := foldl (λ nodes e, set_hop_wf sws nodes e.1 e.2) nodes hop_weights in
  (nodes, build_matrices nodes sws).

(** ** Correctness of the matrices *)

Section Matrix.
Context {BO : ByteOrder}.
Variable nodes : gmap Z osm_node.
Variable S : gset Z.               (* the switches *)
Implicit Types sws : gmap Z osm_switch.

Notation lid := (sw_lid nodes).
Notation np := (num_physp nodes).

(** No two switches share a base LID. *)
Definition lids_distinct : Prop := ∀ s t, s ∈ S → t ∈ S → lid s = lid t → s = t.

(** The graph: distinct base LIDs, and weights that a hop count can hold. *)
Record graph_ok : Prop := {
  gr_lid_inj : lids_distinct;
  gr_wf s port p :
    s ∈ S → 1 ≤ port < np s → physp_at nodes s port = Some p → 1 ≤ hop_wf p ≤ 255
}.

(** The switches and the sizes of their tables, which no step changes. *)
Record shape sws : Prop := {
  sh_dom : dom sws = S;
  sh_wf s sw : sws !! s = Some sw → sw_wf sw;
  sh_ports s sw : sws !! s = Some sw → num_ports sw = np s;
  sh_lids s sw t : sws !! s = Some sw → t ∈ S → lid_in sw (lid t)
}.

(** The link from switch [s] through [port]: its weight, whether it is healthy,
    and the switch it leads to. *)
Definition link (s port w : Z) (h : bool) (r : Z) : Prop :=
  1 ≤ port < np s ∧ ∃ p rem_port, physp_at nodes s port = Some p
    ∧ p_remote_physp p = Some (r, rem_port) ∧ r ∈ S ∧ r ≠ s
    ∧ w = hop_wf p ∧ h = osm_link_is_healthy nodes p.

Definition hopc sws (s t port : Z) : Z :=
  from_option (λ sw, osm_switch_get_hop_count sw (lid t) port) OSM_NO_PATH (sws !! s).

Lemma shape_lookup sws s : shape sws → s ∈ S → ∃ sw, sws !! s = Some sw.
Proof. intros Hs Hin. rewrite <-(sh_dom _ Hs) in Hin. by apply elem_of_dom in Hin. Qed.

Lemma link_remote sws s port p r :
  shape sws → 1 ≤ port < np s →
  remote_sw nodes sws s port = Some (p, r)
  ↔ ∃ rem_port, physp_at nodes s port = Some p ∧ p_remote_physp p = Some (r, rem_port)
      ∧ r ∈ S ∧ r ≠ s.
Proof.
  intros Hs Hport. unfold remote_sw. rewrite (sh_dom _ Hs).
  destruct (physp_at nodes s port) as [p'|]; simpl; [|naive_solver].
  destruct (p_remote_physp p') as [[r' rp]|] eqn:E; simpl; [|naive_solver].
  destruct (bool_decide_reflect (r' ∈ S)), (Z.eqb_spec r' s); simpl; naive_solver.
Qed.

(** What one [osm_switch_set_hops] does to the matrix. *)
Lemma hopc_set sws s t port n sw :
  lids_distinct → shape sws → sws !! s = Some sw → t ∈ S → 0 ≤ port < np s →
  let sws' := <[s := (osm_switch_set_hops sw (lid t) port n).2]> sws in
  shape sws'
  ∧ ∀ s' t' port', s' ∈ S → t' ∈ S → 0 ≤ port' < np s' →
    hopc sws' s' t' port'
    = if decide (s' = s ∧ t' = t)
      then if decide (port' = port) then n
           else if decide (port' = 0) then Z.min (hopc sws s t 0) n
           else hopc sws s' t' port'
      else hopc sws s' t' port'.
Proof.
  intros Hg Hs Hsw Ht Hport. pose proof (sh_ports _ Hs _ _ Hsw) as Hnp.
  destruct (set_hops_ok sw (lid t) port n) as (Hwf & Hnp' & Hml & Hget).
  { by eapply sh_wf. } { by eapply sh_lids. } { unfold port_in. lia. }
  assert (Hin : s ∈ S) by (rewrite <-(sh_dom _ Hs); by eapply elem_of_dom_2).
  split.
  - split.
    + rewrite dom_insert_L, (sh_dom _ Hs). set_solver.
    + intros s' sw' [[<- <-]|[_ H]]%lookup_insert_Some; [done|by eapply sh_wf].
    + intros s' sw' [[<- <-]|[_ H]]%lookup_insert_Some; [congruence|by eapply sh_ports].
    + intros s' sw' t' [[<- <-]|[_ H]]%lookup_insert_Some Ht'; [|by eapply sh_lids].
      unfold lid_in. rewrite Hml. by eapply sh_lids.
  - intros s' t' port' Hs' Ht' Hp'. unfold hopc.
    destruct (decide (s' = s)) as [-> | Hne].
    2:{ rewrite lookup_insert_ne by done. rewrite (decide_False (P:=s' = s ∧ t' = t)) by naive_solver. done. }
    rewrite lookup_insert_eq, Hsw. simpl.
    rewrite Hget by (by eapply sh_lids || (unfold port_in; lia)).
    destruct (decide (t' = t)) as [-> | Hnt].
    + rewrite decide_True by done. rewrite (decide_True (P:=s = s ∧ t = t)) by done. done.
    + rewrite (decide_False (P:=lid t' = lid t)) by (intros E; by apply Hnt, Hg).
      rewrite (decide_False (P:=s = s ∧ t' = t)) by naive_solver. done.
Qed.

(** The same for a port other than 0: the cell, the least count, and the rest. *)
Lemma hopc_set_port sws s t port n sw :
  lids_distinct → shape sws → s ∈ S → sws !! s = Some sw → t ∈ S → 1 ≤ port < np s →
  let sws' := <[s := (osm_switch_set_hops sw (lid t) port n).2]> sws in
  shape sws' ∧ hopc sws' s t port = n ∧ hopc sws' s t 0 = Z.min (hopc sws s t 0) n
  ∧ ∀ s' t' port', s' ∈ S → t' ∈ S → 0 ≤ port' < np s' →
    ¬ (s' = s ∧ t' = t ∧ (port' = port ∨ port' = 0)) → hopc sws' s' t' port' = hopc sws s' t' port'.
Proof.
  intros Hg Hsh Hs Hsw Ht Hport sws'.
  destruct (hopc_set sws s t port n sw Hg Hsh Hsw Ht ltac:(lia)) as [Hsh' Hget].
  fold sws' in Hsh', Hget. split_and!; [done| | |].
  - rewrite Hget by (done || lia). by rewrite !decide_True.
  - rewrite Hget by (done || lia). rewrite decide_True by done.
    by rewrite decide_False, decide_True by lia.
  - intros s' t' port' Hs' Ht' Hp' Hn. rewrite Hget by done.
    destruct (decide (s' = s ∧ t' = t)) as [[-> ->]|]; [|done].
    by rewrite !decide_False by (intros ->; apply Hn; auto).
Qed.

(** The invariant of the computation: cell 0 is a lower bound that a port attains,
    and a count is the count of a neighbour, as it was or better, plus the weight
    of the link to it. *)
Record matrix_inv sws : Prop := {
  mi_shape : shape sws;
  mi_range s t port : s ∈ S → t ∈ S → 0 ≤ port < np s → 0 ≤ hopc sws s t port ≤ 255;
  mi_least s t port : s ∈ S → t ∈ S → 0 ≤ port < np s → hopc sws s t 0 ≤ hopc sws s t port;
  mi_self t : t ∈ S → hopc sws t t 0 = 0;
  mi_sound s t port : s ∈ S → t ∈ S → 1 ≤ port < np s → hopc sws s t port < 255 →
    ∃ w h r, link s port w h r ∧ (h = true ∨ r = t) ∧ w + hopc sws r t 0 ≤ hopc sws s t port;
  mi_attained s t : s ∈ S → t ∈ S → hopc sws s t 0 < 255 →
    s = t ∨ ∃ port, 1 ≤ port < np s ∧ hopc sws s t port = hopc sws s t 0
}.

(** No count ever grows. *)
Definition mono sws sws' : Prop :=
  ∀ s t port, s ∈ S → t ∈ S → 0 ≤ port < np s → hopc sws' s t port ≤ hopc sws s t port.

Lemma np_pos sws s : shape sws → s ∈ S → 0 < np s ≤ 255.
Proof.
  intros Hs Hin. destruct (shape_lookup sws s Hs Hin) as [sw Hsw].
  rewrite <-(sh_ports _ Hs _ _ Hsw). by apply (sh_wf _ Hs _ _ Hsw).
Qed.

(** One entry lowered to the count through a link. *)
Lemma matrix_inv_lower sws s t port w r sw :
  graph_ok → matrix_inv sws → sws !! s = Some sw → s ∈ S → t ∈ S → link s port w true r →
  w + hopc sws r t 0 < hopc sws s t port →
  let sws' := <[s := (osm_switch_set_hops sw (lid t) port (w + hopc sws r t 0)).2]> sws in
  matrix_inv sws' ∧ mono sws sws'
  ∧ hopc sws' s t port = w + hopc sws r t 0.
Proof.
  intros Hg Hi Hsw Hs Ht Hl Hlt sws'. pose proof Hi as [Hsh Hr Hle Hself Hsound Hatt].
  destruct Hl as (Hport & p & rp & Hp & Hrem & Hrin & Hne & -> & Hh).
  pose proof (np_pos sws s Hsh Hs) as Hnp. pose proof (np_pos sws r Hsh Hrin) as Hnpr.
  pose proof (gr_wf Hg _ _ _ Hs Hport Hp) as Hwf.
  destruct (hopc_set_port sws s t port (hop_wf p + hopc sws r t 0) sw (gr_lid_inj Hg) Hsh Hs Hsw Ht ltac:(lia))
    as (Hsh' & Hv & H0 & Hother).
  fold sws' in Hsh', Hv, H0, Hother. set (v := hop_wf p + hopc sws r t 0) in *.
  pose proof (Hr r t 0 Hrin Ht ltac:(lia)) as Hr0.
  pose proof (Hr s t port Hs Ht ltac:(lia)) as Hrp.
  assert (Hm : mono sws sws').
  { intros s' t' port' Hs' Ht' Hp'.
    destruct (decide (s' = s ∧ t' = t ∧ (port' = port ∨ port' = 0))) as [(-> & -> & [-> | ->])|Hn];
      [lia|lia|by rewrite Hother]. }
  split_and!; [split|done|done].
  - done.
  - intros s' t' port' Hs' Ht' Hp'. split; [|specialize (Hm s' t' port' Hs' Ht' Hp');
      specialize (Hr s' t' port' Hs' Ht' Hp'); lia].
    destruct (decide (s' = s ∧ t' = t ∧ (port' = port ∨ port' = 0))) as [(-> & -> & [-> | ->])|Hn];
      [lia|specialize (Hr s t 0 Hs Ht ltac:(lia)); lia|rewrite Hother by done; by apply Hr].
  - intros s' t' port' Hs' Ht' Hp'.
    destruct (decide (s' = s ∧ t' = t ∧ (port' = port ∨ port' = 0))) as [(-> & -> & [-> | ->])|Hn];
      [lia|lia|]. rewrite (Hother s' t' port') by done.
    etrans; [apply Hm; [done..|lia]|by apply Hle].
  - intros t' Ht'. pose proof (np_pos sws t' Hsh Ht').
    destruct (decide (t' = s ∧ t' = t)) as [[-> <-]|Hn].
    + rewrite H0, (Hself s Hs). lia.
    + rewrite Hother; [by apply Hself|done..|lia|]. intros (-> & -> & _). by apply Hn.
  - intros s' t' port' Hs' Ht' Hp' Hlt'.
    destruct (decide (s' = s ∧ t' = t ∧ port' = port)) as [(-> & -> & ->)|Hn].
    + exists (hop_wf p), true, r. split_and!; [split; [done|]; by exists p, rp|by left|].
      rewrite Hv. specialize (Hm r t 0 Hrin Ht ltac:(lia)). lia.
    + assert (Heq : hopc sws' s' t' port' = hopc sws s' t' port').
      { apply Hother; [done..|lia|]. intros (-> & -> & [-> | ->]); [by apply Hn|lia]. }
      rewrite Heq in Hlt' |- *.
      destruct (Hsound s' t' port' Hs' Ht' Hp' Hlt') as (w' & h' & r' & Hl' & Hh' & Hw').
      exists w', h', r'. split_and!; [done..|].
      destruct Hl' as (_ & _ & _ & _ & _ & Hrin' & _). pose proof (np_pos sws r' Hsh Hrin').
      specialize (Hm r' t' 0 Hrin' Ht' ltac:(lia)). lia.
  - intros s' t' Hs' Ht' Hlt'. destruct (decide (s' = s ∧ t' = t)) as [[-> ->]|Hn].
    + rewrite H0 in *. destruct (Z.min_spec (hopc sws s t 0) v) as [[Hmin E]|[Hmin E]];
        rewrite E in *; [|right; exists port; by split].
      destruct (Hatt s t Hs Ht Hlt') as [->|(port' & Hp' & E')]; [by left|right].
      exists port'. split; [done|]. rewrite Hother; [done..|lia|].
      intros (_ & _ & [-> | ->]); lia.
    + pose proof (np_pos sws s' Hsh Hs').
      assert (Heq : ∀ port', 0 ≤ port' < np s' → hopc sws' s' t' port' = hopc sws s' t' port').
      { intros port' Hp'. apply Hother; [done..|]. intros (-> & -> & _). by apply Hn. }
      rewrite Heq in Hlt' by lia.
      destruct (Hatt s' t' Hs' Ht' Hlt') as [->|(port' & Hp' & E')]; [by left|right].
      exists port'. split; [done|]. by rewrite !Heq by lia.
Qed.

(** *** Steps of the propagation *)

(** A part of an iteration, with the flag: when it set nothing it changed nothing. *)
Definition pstep (st st' : gmap Z osm_switch * bool) : Prop :=
  matrix_inv st'.1 ∧ mono st.1 st'.1 ∧ (st'.2 = false → st' = st).

Lemma mono_refl sws : mono sws sws.
Proof. by intros s t port. Qed.

Lemma mono_trans sws1 sws2 sws3 : mono sws1 sws2 → mono sws2 sws3 → mono sws1 sws3.
Proof. intros H1 H2 s t port Hs Ht Hp. etrans; [by apply H2|by apply H1]. Qed.

#[local] Hint Resolve mono_refl : core.

(** A loop of steps, each of which achieves something that later steps keep. *)
Lemma pstep_fold {A} (f : gmap Z osm_switch * bool → A → gmap Z osm_switch * bool)
    (Q : A → gmap Z osm_switch → gmap Z osm_switch → Prop) l :
  (∀ st x, x ∈ l → matrix_inv st.1 → pstep st (f st x) ∧ Q x st.1 (f st x).1) →
  (∀ x a a' b b', mono a a' → Q x a' b → mono b b' → Q x a b') →
  ∀ st, matrix_inv st.1 → pstep st (foldl f st l) ∧ ∀ x, x ∈ l → Q x st.1 (foldl f st l).1.
Proof.
  intros Hf HQ. induction l as [|x l IH]; intros st Hi; simpl.
  { split; [done|]. intros x Hx. by apply not_elem_of_nil in Hx. }
  destruct (Hf st x ltac:(left) Hi) as [(Hi1 & Hm1 & Hs1) Hq1].
  destruct (IH ltac:(intros st' y Hy; apply Hf; by right) (f st x) Hi1) as [(Hi2 & Hm2 & Hs2) Hq2].
  split; [split_and!; [done|by eapply mono_trans|]|].
  - intros E. rewrite (Hs2 E). apply Hs1. by rewrite <-(Hs2 E).
  - intros y [-> | Hy]%elem_of_cons; 
    [by apply (HQ x st.1 st.1 (f st x).1)|apply (HQ y st.1 (f st x).1 (foldl f (f st x) l).1); auto].
Qed.

Lemma relax_step this remote port w t st :
  graph_ok → this ∈ S → t ∈ S → link this port w true remote → matrix_inv st.1 →
  let st' := relax nodes this remote port st t in
  pstep st st' ∧ hopc st'.1 this t port ≤ w + hopc st.1 remote t 0.
Proof.
  intros Hg Hthis Ht Hl Hi. destruct st as [sws b]. pose proof Hi as [Hsh Hr _ _ _ _]. simpl in *.
  pose proof Hl as (Hport & p & rp & Hp & _ & Hrin & _ & -> & _).
  destruct (shape_lookup sws this Hsh Hthis) as [sw Hsw].
  destruct (shape_lookup sws remote Hsh Hrin) as [rsw Hrsw].
  pose proof (np_pos sws remote Hsh Hrin). pose proof (gr_wf Hg _ _ _ Hthis Hport Hp).
  pose proof (Hr this t port Hthis Ht ltac:(lia)) as Hr1.
  pose proof (Hr remote t 0 Hrin Ht ltac:(lia)) as Hr2.
  assert (E1 : osm_switch_get_least_hops rsw (lid t) = hopc sws remote t 0)
    by (unfold hopc; by rewrite Hrsw).
  assert (E2 : osm_switch_get_hop_count sw (lid t) port = hopc sws this t port)
    by (unfold hopc; by rewrite Hsw).
  unfold relax. rewrite Hsw, Hrsw, Hp, E1, E2. cbv zeta.
  assert (Hsame : hopc sws this t port ≤ hop_wf p + hopc sws remote t 0 →
    pstep (sws, b) (sws, b) ∧ hopc sws this t port ≤ hop_wf p + hopc sws remote t 0).
  { intros Hge. split; [by split_and!|lia]. }
  destruct (Z.eqb_spec (hopc sws remote t 0) OSM_NO_PATH) as [E|E].
  { apply Hsame. unfold OSM_NO_PATH in E. lia. }
  rewrite u16_small by lia. rewrite Z.add_comm.
  destruct (Z.ltb_spec (hop_wf p + hopc sws remote t 0) (hopc sws this t port)) as [Hlt|Hge];
    [|apply Hsame; lia].
  rewrite u8_small by lia.
  destruct (matrix_inv_lower sws this t port (hop_wf p) remote sw Hg Hi Hsw Hthis Ht Hl Hlt)
    as (Hi' & Hm & Hv).
  simpl. split; [by split_and!|]. rewrite Hv. lia.
Qed.

Lemma elem_of_sw_keys sws s : shape sws → s ∈ sw_keys sws ↔ s ∈ S.
Proof.
  intros Hs. unfold sw_keys. rewrite <-(sh_dom _ Hs), elem_of_dom, list_elem_of_fmap. split.
  - intros ([k v] & -> & Hkv%elem_of_qmap_items). by exists v.
  - intros [v Hv]. exists (s, v). split; [done|by apply elem_of_qmap_items].
Qed.

(** What an iteration achieves for a link. *)
Definition relaxed (s port : Z) sws sws' : Prop :=
  ∀ w r t, link s port w true r → t ∈ S → hopc sws' s t port ≤ w + hopc sws r t 0.

Lemma relaxed_mono s port a a' b b' :
  (∀ r, r ∈ S → 0 < np r) → s ∈ S → mono a a' → relaxed s port a' b → mono b b' → relaxed s port a b'.
Proof.
  intros Hnp Hs Ha Hq Hb w r t Hl Ht. pose proof Hl as (Hp & _ & _ & _ & _ & Hr & _).
  specialize (Hq w r t Hl Ht). specialize (Ha r t 0 Hr Ht ltac:(specialize (Hnp r Hr); lia)).
  specialize (Hb s t port Hs Ht ltac:(lia)). lia.
Qed.

Lemma neighbor_port_step s port st :
  graph_ok → s ∈ S → 1 ≤ port < np s → matrix_inv st.1 →
  pstep st (neighbor_port nodes s st port) ∧ relaxed s port st.1 (neighbor_port nodes s st port).1.
Proof.
  intros Hg Hs Hport Hi. unfold neighbor_port.
  pose proof (mi_shape _ Hi) as Hsh.
  destruct (remote_sw nodes st.1 s port) as [[p r]|] eqn:E.
  2:{ split; [by split_and!|]. intros w r t (_ & p & rp & Hp & Hr & Hin & Hne & _).
      assert (Hn : remote_sw nodes st.1 s port = Some (p, r)) by (apply link_remote; eauto).
      congruence. }
  apply link_remote in E as (rp & Hp & Hr & Hin & Hne); [|done..].
  destruct (osm_link_is_healthy nodes p) eqn:Eh.
  2:{ split; [by split_and!|]. intros w r' t (_ & p' & rp' & Hp' & _ & _ & _ & _ & Hh). congruence. }
  assert (Hl : link s port (hop_wf p) true r) by (split; [done|]; by exists p, rp).
  assert (Hnp : ∀ r, r ∈ S → 0 < np r) by (intros r' Hr'; by apply (np_pos st.1)).
  unfold ucast_mgr_process_neighbor.
  destruct (pstep_fold (relax nodes s r port)
    (λ t a b, t ∈ S → hopc b s t port ≤ hop_wf p + hopc a r t 0) (sw_keys st.1)) with (st := st)
    as [Hst Hq].
  { intros st' t Ht%(elem_of_sw_keys st.1 t Hsh) Hi'.
    destruct (relax_step s r port (hop_wf p) t st' Hg Hs Ht Hl Hi'). by split. }
  { intros t a a' b b' Ha Hab Hb Ht. specialize (Hab Ht).
    specialize (Ha r t 0 Hin Ht ltac:(specialize (Hnp r Hin); lia)).
    specialize (Hb s t port Hs Ht ltac:(lia)). lia. }
  { done. }
  split; [done|]. intros w r' t (_ & p' & rp' & Hp' & Hr' & _ & _ & -> & _) Ht.
  assert (p' = p) as -> by congruence. assert (r' = r) as -> by congruence.
  apply Hq; [by apply elem_of_sw_keys|done].
Qed.

(** One iteration over the whole subnet relaxes every healthy link. *)
Lemma propagate_once_step sws :
  graph_ok → matrix_inv sws →
  let '(sws', some) := propagate_once nodes sws in
  matrix_inv sws' ∧ mono sws sws' ∧ (some = false → sws' = sws)
  ∧ ∀ s port, s ∈ S → relaxed s port sws sws'.
Proof.
  intros Hg Hi. pose proof (mi_shape _ Hi) as Hsh.
  assert (Hnp : ∀ r, r ∈ S → 0 < np r) by (intros r' Hr'; by apply (np_pos sws)).
  unfold propagate_once.
  destruct (pstep_fold (ucast_mgr_process_neighbors nodes)
    (λ s a b, s ∈ S → ∀ port, relaxed s port a b) (sw_keys sws)) with (st := (sws, false))
    as [(Hi' & Hm & Hst) Hq].
  { intros st s Hs%(elem_of_sw_keys sws s Hsh) Hi'. unfold ucast_mgr_process_neighbors.
    destruct (pstep_fold (neighbor_port nodes s) (relaxed s) (seqZ 1 (np s - 1))) with (st := st)
      as [Hst Hq].
    - intros st' port Hp%elem_of_seqZ Hi''. apply neighbor_port_step; try done. lia.
    - intros port a a' b b'. by apply relaxed_mono.
    - done.
    - split; [done|]. intros _ port w r t Hl. apply Hq; [|done].
      apply elem_of_seqZ. destruct Hl as [Hl _]. lia. }
  { intros s a a' b b' Ha Hq Hb Hs port. eapply relaxed_mono; eauto. }
  { done. }
  destruct (foldl _ _ _) as [sws' some]. simpl in *. split_and!; try done.
  - intros E. by injection (Hst E).
  - intros s port Hs. apply Hq; [by apply elem_of_sw_keys|done].
Qed.

(** *** The first two hops *)

Definition remote_of (s port : Z) : option (osm_physp * Z) :=
  p ← physp_at nodes s port;
  '(r, _) ← p_remote_physp p;
  if bool_decide (r ∈ S) && negb (r =? s) then Some (p, r) else None.

Lemma remote_sw_of sws s port : shape sws → remote_sw nodes sws s port = remote_of s port.
Proof. intros Hs. unfold remote_sw. by rewrite (sh_dom _ Hs). Qed.

(** The count of a port to the switch at the other end of its link. *)
Definition direct (s t port : Z) : Z :=
  match remote_of s port with
  | Some (p, r) => if decide (r = t) then hop_wf p else OSM_NO_PATH
  | None => OSM_NO_PATH
  end.

Lemma direct_link sws s t port :
  graph_ok → shape sws → s ∈ S → 1 ≤ port < np s →
  1 ≤ direct s t port ≤ 255
  ∧ (direct s t port < 255 → ∃ h, link s port (direct s t port) h t)
  ∧ ∀ w h, link s port w h t → direct s t port = w.
Proof.
  intros Hg Hsh Hs Hp. unfold direct. rewrite <-(remote_sw_of sws) by done.
  destruct (remote_sw nodes sws s port) as [[p r]|] eqn:E.
  - apply link_remote in E as (rp & Hpp & Hr & Hin & Hne); [|done..].
    pose proof (gr_wf Hg _ _ _ Hs Hp Hpp). case_decide as Ht; subst.
    + split_and!; [lia|lia| |].
      * intros _. eexists. split; [done|]. exists p, rp. by split_and!.
      * intros w h (_ & p' & rp' & Hp' & _ & _ & _ & -> & _). congruence.
    + unfold OSM_NO_PATH. split_and!; [lia..|].
      intros w h (_ & p' & rp' & Hp' & Hr' & _). congruence.
  - unfold OSM_NO_PATH. split_and!; [lia..|]. intros w h (_ & p & rp & Hpp & Hr & Hin & Hne & _).
    assert (Hn : remote_sw nodes sws s port = Some (p, t)) by (apply link_remote; eauto).
    congruence.
Qed.

(** A switch of which the ports [seen] were processed: its own LID is at 0 hops,
    cell 0 is the least of the others. *)
Record hops_done (s : Z) (seen : list Z) sws : Prop := {
  hd_shape : shape sws;
  hd_port t port : t ∈ S → 1 ≤ port < np s →
    hopc sws s t port = if decide (port ∈ seen) then direct s t port else OSM_NO_PATH;
  hd_self : hopc sws s s 0 = 0;
  hd_zero t : t ∈ S → t ≠ s → 0 ≤ hopc sws s t 0 ≤ 255;
  hd_least t port : t ∈ S → 1 ≤ port < np s → hopc sws s t 0 ≤ hopc sws s t port;
  hd_attained t : t ∈ S → t ≠ s → hopc sws s t 0 < 255 →
    ∃ port, 1 ≤ port < np s ∧ hopc sws s t port = hopc sws s t 0
}.

(** A switch whose counts are all unset. *)
Definition fresh (s : Z) sws : Prop :=
  ∀ t port, t ∈ S → 0 ≤ port < np s → hopc sws s t port = OSM_NO_PATH.

Lemma hop_1_step s seen port sws sw :
  graph_ok → s ∈ S → 1 ≤ port < np s → port ∉ seen →
  hops_done s seen sws → sws !! s = Some sw →
  let sws' := <[s := hop_1 nodes sws s sw port]> sws in
  hops_done s (seen ++ [port]) sws'
  ∧ ∀ s' t p, s' ∈ S → t ∈ S → 0 ≤ p < np s' → s' ≠ s → hopc sws' s' t p = hopc sws s' t p.
Proof.
  intros Hg Hs Hport Hnd Hd Hsw. pose proof Hd as [Hsh Hp Hself Hzero Hleast Hatt].
  pose proof (np_pos sws s Hsh Hs) as Hnp.
  unfold hop_1. rewrite remote_sw_of by done.
  destruct (remote_of s port) as [[p r]|] eqn:E.
  2:{ rewrite insert_id by done. split; [|done]. split; try done.
      intros t q Ht Hq. rewrite Hp by done.
      destruct (decide (q = port)) as [-> | Hne].
      - rewrite decide_False by done. rewrite decide_True by (apply elem_of_app; right; left).
        unfold direct. by rewrite E.
      - repeat case_decide; try done; set_solver. }
  assert (Hlk : remote_sw nodes sws s port = Some (p, r)) by (by rewrite remote_sw_of).
  apply link_remote in Hlk as (rp & Hpp & Hr & Hin & Hne); [|done..].
  pose proof (gr_wf Hg _ _ _ Hs Hport Hpp) as Hw.
  destruct (hopc_set_port sws s r port (hop_wf p) sw (gr_lid_inj Hg) Hsh Hs Hsw Hin ltac:(lia))
    as (Hsh' & Hv & H0 & Hother).
  set (sws' := <[s := _]> sws) in *.
  assert (Hdir : ∀ t, direct s t port = if decide (r = t) then hop_wf p else OSM_NO_PATH)
    by (intros t; unfold direct; by rewrite E).
  assert (Hold : hopc sws s r port = OSM_NO_PATH)
    by (rewrite Hp by done; by rewrite decide_False).
  split; [split|]; [done| | | | | |].
  - intros t q Ht Hq. destruct (decide (t = r ∧ q = port)) as [[-> ->]|Hn].
    + rewrite Hv, decide_True by (apply elem_of_app; right; left). by rewrite Hdir, decide_True.
    + rewrite Hother; [|done|done|lia|intros (_ & -> & [-> | ->]); [by apply Hn|lia]].
      rewrite Hp by done. destruct (decide (q = port)) as [-> | Hqp].
      * rewrite decide_False by done. rewrite decide_True by (apply elem_of_app; right; left).
        rewrite Hdir, decide_False by naive_solver. done.
      * repeat case_decide; try done; set_solver.
  - rewrite Hother; [done..|lia|]. by intros (_ & -> & _).
  - intros t Ht Hts. destruct (decide (t = r)) as [-> | Hn].
    + rewrite H0. specialize (Hzero r Ht Hts). lia.
    + rewrite Hother; [by apply Hzero|done..|lia|]. by intros (_ & -> & _).
  - intros t q Ht Hq. destruct (decide (t = r)) as [-> | Hn].
    + rewrite H0. destruct (decide (q = port)) as [-> | Hqp]; [rewrite Hv; lia|].
      rewrite Hother; [|done|done|lia|intros (_ & _ & [-> | ->]); [done|lia]].
      specialize (Hleast r q Ht Hq). lia.
    + rewrite !Hother; [by apply Hleast|done|done|lia|by intros (_ & -> & _)|done|done|lia|by intros (_ & -> & _)].
  - intros t Ht Hts. destruct (decide (t = r)) as [-> | Hn].
    + rewrite H0. intros Hlt.
      destruct (Z.min_spec (hopc sws s r 0) (hop_wf p)) as [[Hmin Em]|[Hmin Em]];
        rewrite Em in *; [|exists port; by split].
      destruct (Hatt r Ht Hts Hlt) as (q & Hq & Eq). exists q. split; [done|].
      rewrite Hother; [done|done|done|lia|]. intros (_ & _ & [-> | ->]); [|lia].
      unfold OSM_NO_PATH in Hold. lia.
    + rewrite Hother; [|done|done|lia|by intros (_ & -> & _)]. intros Hlt.
      destruct (Hatt t Ht Hts Hlt) as (q & Hq & Eq). exists q. split; [done|].
      rewrite Hother; [done|done|done|lia|by intros (_ & -> & _)].
  - intros s' t q Hs' Ht Hq Hss. apply Hother; [done..|]. by intros (-> & _).
Qed.

(** Only switch [s] differs. *)
Definition only_at (s : Z) sws sws' : Prop :=
  ∀ s' t port, s' ∈ S → t ∈ S → 0 ≤ port < np s' → s' ≠ s → hopc sws' s' t port = hopc sws s' t port.

Lemma hop_1_loop s l seen sws sw :
  graph_ok → shape sws → s ∈ S → NoDup (seen ++ l) → Forall (λ port, 1 ≤ port < np s) l →
  hops_done s seen (<[s := sw]> sws) →
  let sws' := <[s := foldl (hop_1 nodes sws s) sw l]> sws in
  hops_done s (seen ++ l) sws' ∧ only_at s (<[s := sw]> sws) sws'.
Proof.
  intros Hg Hsh Hs. revert seen sw. induction l as [|port l IH]; intros seen sw Hnd Hl Hd; simpl.
  { rewrite app_nil_r. split; [done|]. by intros ????. }
  apply Forall_cons in Hl as [Hport Hl].
  rewrite cons_middle, app_assoc in Hnd |- *.
  assert (Hni : port ∉ seen).
  { apply NoDup_app in Hnd as [Hnd _]. apply NoDup_app in Hnd as (_ & Hx & _).
    intros Hin. apply (Hx port Hin). left. }
  destruct (hop_1_step s seen port (<[s := sw]> sws) sw Hg Hs Hport Hni Hd
    (lookup_insert_eq _ _ _)) as [Hd' Ho'].
  rewrite insert_insert_eq in Hd', Ho'.
  assert (E : hop_1 nodes (<[s := sw]> sws) s sw port = hop_1 nodes sws s sw port).
  { unfold hop_1. by rewrite !remote_sw_of by (done || by destruct Hd). }
  rewrite E in Hd', Ho'. destruct (IH _ _ Hnd Hl Hd') as [Hd2 Ho2]. split; [done|].
  intros s' t p Hs' Ht Hp Hne. rewrite Ho2 by done. by apply Ho'.
Qed.

Lemma process_hop_0_1_ok s sws :
  graph_ok → shape sws → s ∈ S → fresh s sws →
  let sws' := ucast_mgr_process_hop_0_1 nodes sws s in
  hops_done s (seqZ 1 (np s - 1)) sws' ∧ only_at s sws sws'.
Proof.
  intros Hg Hsh Hs Hf. destruct (shape_lookup sws s Hsh Hs) as [sw Hsw].
  pose proof (np_pos sws s Hsh Hs) as Hnp.
  unfold ucast_mgr_process_hop_0_1. rewrite Hsw. cbv zeta.
  destruct (hopc_set sws s s 0 0 sw (gr_lid_inj Hg) Hsh Hsw Hs ltac:(lia)) as [Hsh' Hget].
  set (sw0 := (osm_switch_set_hops sw (lid s) 0 0).2) in *.
  assert (Hcell : ∀ t port, t ∈ S → 0 ≤ port < np s →
    hopc (<[s := sw0]> sws) s t port = if decide (t = s ∧ port = 0) then 0 else OSM_NO_PATH).
  { intros t port Ht Hp. rewrite Hget by done. rewrite !Hf by (done || lia).
    destruct (decide (port = 0)), (decide (t = s)); subst; repeat case_decide; naive_solver. }
  assert (H0 : hops_done s [] (<[s := sw0]> sws)).
  { unfold OSM_NO_PATH in Hcell. split; [done| | | | |].
    - intros t port Ht Hp. rewrite Hcell by (done || lia).
      rewrite !decide_False by (by intros ?%not_elem_of_nil || lia). done.
    - rewrite Hcell by (done || lia). by rewrite decide_True.
    - intros t Ht Hne. rewrite Hcell by (done || lia). rewrite decide_False by naive_solver. lia.
    - intros t port Ht Hp. rewrite !Hcell by (done || lia). repeat case_decide; naive_solver lia.
    - intros t Ht Hne. rewrite Hcell by (done || lia). rewrite decide_False by naive_solver. lia. }
  rewrite (sh_ports _ Hsh _ _ Hsw).
  destruct (hop_1_loop s (seqZ 1 (np s - 1)) [] sws sw0 Hg Hsh Hs) as [Hd Ho]; simpl; try done.
  - apply NoDup_seqZ.
  - apply Forall_forall. intros port Hp%elem_of_seqZ. lia.
  - split; [done|]. intros s' t port Hs' Ht Hp Hne. rewrite Ho by done.
    rewrite Hget by done. by rewrite decide_False by naive_solver.
Qed.

(** All switches processed. *)
Lemma hop_0_1_all sws :
  graph_ok → shape sws → (∀ s, s ∈ S → fresh s sws) →
  let sws' := foldl (ucast_mgr_process_hop_0_1 nodes) sws (sw_keys sws) in
  shape sws' ∧ ∀ s, s ∈ S → hops_done s (seqZ 1 (np s - 1)) sws'.
Proof.
  intros Hg Hsh Hf.
  assert (Hgen : ∀ l sws, shape sws → NoDup l → (∀ s, s ∈ l → s ∈ S ∧ fresh s sws) →
    let sws' := foldl (ucast_mgr_process_hop_0_1 nodes) sws l in
    shape sws' ∧ (∀ s, s ∈ l → hops_done s (seqZ 1 (np s - 1)) sws')
    ∧ ∀ s t port, s ∈ S → s ∉ l → t ∈ S → 0 ≤ port < np s → hopc sws' s t port = hopc sws s t port).
  { clear sws Hsh Hf. induction l as [|s l IH]; intros sws Hsh Hnd Hl; simpl.
    { split_and!; [done| |done]. intros s Hs. by apply not_elem_of_nil in Hs. }
    apply NoDup_cons in Hnd as [Hni Hnd]. destruct (Hl s ltac:(left)) as [Hs Hfs].
    destruct (process_hop_0_1_ok s sws Hg Hsh Hs Hfs) as [Hd Ho].
    set (sws1 := ucast_mgr_process_hop_0_1 nodes sws s) in *.
    destruct (IH sws1) as (Hsh2 & Hd2 & Ho2); [by destruct Hd|done| |].
    { intros s' Hs'. destruct (Hl s' ltac:(by right)) as [Hin Hf']. split; [done|].
      intros t port Ht Hp. rewrite Ho; [by apply Hf'|done..|]. by intros ->. }
    split_and!; [done| |].
    - intros s' [-> | Hs']%elem_of_cons; [|by apply Hd2].
      (* the cells of [s] are not written again *)
      pose proof (np_pos sws s Hsh Hs).
      assert (Heq : ∀ t port, t ∈ S → 0 ≤ port < np s →
        hopc (foldl (ucast_mgr_process_hop_0_1 nodes) sws1 l) s t port = hopc sws1 s t port)
        by (intros t port Ht Hp; by apply Ho2).
      destruct Hd as [_ D2 D3 D4 D5 D6]. split; [done| | | | |].
      + intros t port Ht Hp. rewrite Heq by (done || lia). by apply D2.
      + by rewrite Heq by (done || lia).
      + intros t Ht Hne. rewrite Heq by (done || lia). by apply D4.
      + intros t port Ht Hp. rewrite !Heq by (done || lia). by apply D5.
      + intros t Ht Hne. rewrite Heq by (done || lia). intros Hlt.
        destruct (D6 t Ht Hne Hlt) as (port & Hp & E). exists port. by rewrite Heq by (done || lia).
    - intros s' t port Hs' [Hne Hni']%not_elem_of_cons Ht Hp. rewrite Ho2 by done. by apply Ho. }
  destruct (Hgen (sw_keys sws) sws Hsh) as (Hsh' & Hd & _).
  { apply qmap_items_NoDup. }
  { intros s Hs%elem_of_sw_keys; auto. }
  split; [done|]. intros s Hs. apply Hd. by apply elem_of_sw_keys.
Qed.

(** The first two hops establish the invariant, and count every link. *)
Lemma matrix_inv_init sws :
  graph_ok → shape sws → (∀ s, s ∈ S → hops_done s (seqZ 1 (np s - 1)) sws) →
  matrix_inv sws ∧ ∀ s port w h t, s ∈ S → link s port w h t → hopc sws s t 0 ≤ w.
Proof.
  intros Hg Hsh Hd.
  assert (Hport : ∀ s t port, s ∈ S → t ∈ S → 1 ≤ port < np s →
    hopc sws s t port = direct s t port).
  { intros s t port Hs Ht Hp. rewrite (hd_port _ _ _ (Hd s Hs)) by done.
    rewrite decide_True; [done|]. apply elem_of_seqZ. lia. }
  assert (Hzero : ∀ s t, s ∈ S → t ∈ S → 0 ≤ hopc sws s t 0 ≤ 255).
  { intros s t Hs Ht. destruct (decide (t = s)) as [-> | Hne];
      [rewrite (hd_self _ _ _ (Hd s Hs)); lia|by apply (hd_zero _ _ _ (Hd s Hs))]. }
  split; [split|].
  - done.
  - intros s t port Hs Ht Hp. destruct (decide (port = 0)) as [-> | Hn]; [by apply Hzero|].
    rewrite Hport by (done || lia).
    destruct (direct_link sws s t port Hg Hsh Hs ltac:(lia)) as [? _]. lia.
  - intros s t port Hs Ht Hp. destruct (decide (port = 0)) as [-> | Hn]; [done|].
    apply (hd_least _ _ _ (Hd s Hs)); [done|lia].
  - intros t Ht. apply (hd_self _ _ _ (Hd t Ht)).
  - intros s t port Hs Ht Hp. rewrite Hport by done. intros Hlt.
    destruct (direct_link sws s t port Hg Hsh Hs Hp) as (_ & Hl & _).
    destruct (Hl Hlt) as [h Hlk]. exists (direct s t port), h, t. split_and!; [done|by right|].
    rewrite (hd_self _ _ _ (Hd t Ht)). lia.
  - intros s t Hs Ht Hlt. destruct (decide (t = s)) as [-> | Hne]; [by left|right].
    by apply (hd_attained _ _ _ (Hd s Hs)).
  - intros s port w h t Hs Hl. pose proof Hl as (Hp & _ & _ & _ & _ & Ht & _).
    destruct (direct_link sws s t port Hg Hsh Hs Hp) as (_ & _ & Hw).
    rewrite <-(Hw w h Hl), <-Hport by done. by apply (hd_least _ _ _ (Hd s Hs)).
Qed.

(** *** Shortest paths *)

(** A walk of weight [w] from [s] to [t] through the switches [l]: every link but
    the last must be healthy, which is what the code asks of them. *)
Inductive walk (t : Z) : Z → list Z → Z → Prop :=
  | walk_last s port w h : s ∈ S → link s port w h t → walk t s [s] w
  | walk_step s port w r l v :
      s ∈ S → link s port w true r → walk t r l v → walk t s (s :: l) (w + v).

Lemma link_pos s port w h r : graph_ok → s ∈ S → link s port w h r → 1 ≤ w.
Proof. intros Hg Hs (Hport & p & rp & Hp & _ & _ & _ & -> & _). by apply (gr_wf Hg s port p). Qed.

Lemma walk_in t s l w : walk t s l w → s ∈ S ∧ ∀ x, x ∈ l → x ∈ S.
Proof.
  induction 1 as [s port w h Hs Hl|s port w r l v Hs Hl Hw [_ IH]]; (split; [done|]).
  - by intros x ->%list_elem_of_singleton.
  - intros x [-> | Hx]%elem_of_cons; auto.
Qed.

(** The rest of a walk from a switch on it. *)
Lemma walk_from t s l w x :
  graph_ok → walk t s l w → x ∈ l → ∃ l' w', walk t x l' w' ∧ l' `suffix_of` l ∧ w' ≤ w.
Proof.
  intros Hg Hw. induction Hw as [s port w h Hs Hl|s port w r l v Hs Hl Hw IH].
  - intros ->%list_elem_of_singleton. exists [s], w. split_and!; [by eapply walk_last|done|lia].
  - intros [-> | Hx]%elem_of_cons.
    + exists (s :: l), (w + v). split_and!; [by eapply walk_step|done|lia].
    + destruct (IH Hx) as (l' & w' & H1 & H2 & H3). exists l', w'.
      split_and!; [done|by apply suffix_cons_r|]. pose proof (link_pos _ _ _ _ _ Hg Hs Hl). lia.
Qed.

(** A walk without repeated switches that is no heavier. *)
Lemma walk_simple t s l w :
  graph_ok → walk t s l w → ∃ l' w', walk t s l' w' ∧ NoDup l' ∧ w' ≤ w.
Proof.
  intros Hg Hw. induction Hw as [s port w h Hs Hl|s port w r l v Hs Hl Hw (l' & v' & H1 & H2 & H3)].
  - exists [s], w. split_and!; [by eapply walk_last|apply NoDup_singleton|lia].
  - pose proof (link_pos _ _ _ _ _ Hg Hs Hl).
    destruct (decide (s ∈ l')) as [Hin|Hni].
    + destruct (walk_from t r l' v' s Hg H1 Hin) as (l2 & v2 & H4 & H5 & H6).
      exists l2, v2. split_and!; [done| |lia]. destruct H5 as [k ->].
      by apply NoDup_app in H2 as (_ & _ & ?).
    + exists (s :: l'), (w + v'). split_and!; [by eapply walk_step| |lia]. by apply NoDup_cons.
Qed.

(** The counts are no greater than the walks through at most [k] switches. *)
Definition bounded (k : nat) sws : Prop :=
  ∀ t s l w, t ∈ S → walk t s l w → (length l ≤ k)%nat → hopc sws s t 0 ≤ w.

Lemma bounded_round k sws :
  graph_ok → matrix_inv sws → bounded k sws → (1 ≤ k)%nat →
  bounded (Datatypes.S k) (propagate_once nodes sws).1.
Proof.
  intros Hg Hi Hb Hk. pose proof (propagate_once_step sws Hg Hi) as Hstep.
  destruct (propagate_once nodes sws) as [sws' some]. destruct Hstep as (Hi' & Hm & _ & Hrel).
  intros t s l w Ht Hw Hlen. pose proof (mi_shape _ Hi) as Hsh.
  destruct (walk_in _ _ _ _ Hw) as [Hs _]. pose proof (np_pos sws s Hsh Hs).
  destruct Hw as [s port w h Hs' Hl|s port w r l v Hs' Hl Hw].
  - etrans; [apply Hm; [done..|lia]|]. apply (Hb t s [s]); [done|by eapply walk_last|simpl; lia].
  - pose proof Hl as (Hp & _ & _ & _ & _ & Hr & _).
    etrans; [apply (mi_least _ Hi' s t port); [done..|lia]|].
    etrans; [by apply (Hrel s port Hs w r t Hl Ht)|].
    specialize (Hb t r l v Ht Hw ltac:(simpl in Hlen; lia)). simpl. lia.
Qed.

(** Counts that an iteration leaves alone are no greater than any walk. *)
Lemma bounded_stable sws :
  graph_ok → matrix_inv sws → bounded 1 sws → (propagate_once nodes sws).1 = sws →
  ∀ k, bounded k sws.
Proof.
  intros Hg Hi Hb E. assert (Hall : ∀ k, bounded (1 + k) sws).
  { induction k as [|k IH]; [done|]. rewrite <-E. apply bounded_round; [done..|lia]. }
  intros k t s l w Ht Hw Hlen. apply (Hall k t s l w Ht Hw). lia.
Qed.

Lemma propagate_ok n : ∀ k some sws,
  graph_ok → matrix_inv sws → bounded k sws → (1 ≤ k)%nat →
  (some = false → ∀ k, bounded k sws) →
  let sws' := propagate nodes n some sws in
  matrix_inv sws' ∧ bounded (k + n) sws'.
Proof.
  induction n as [|n IH]; intros k some sws Hg Hi Hb Hk Hsome; simpl.
  { by rewrite Nat.add_0_r. }
  destruct some; [|split; [done|by apply Hsome]].
  pose proof (propagate_once_step sws Hg Hi) as Hstep.
  pose proof (bounded_round k sws Hg Hi Hb Hk) as Hb'.
  destruct (propagate_once nodes sws) as [sws' some'] eqn:E.
  destruct Hstep as (Hi' & Hm & Hsame & _).
  replace (k + Datatypes.S n)%nat with (Datatypes.S k + n)%nat by lia.
  apply IH; [done..|lia|]. intros ->. specialize (Hsame eq_refl) as ->.
  apply bounded_stable; [done..| |by rewrite E].
  intros t s l w Ht Hw Hlen. apply (Hb t s l w Ht Hw). lia.
Qed.

(** Every count is realised by a walk. *)
Lemma count_walk sws s t :
  graph_ok → matrix_inv sws → s ∈ S → t ∈ S → hopc sws s t 0 < 255 →
  s = t ∨ ∃ l w, walk t s l w ∧ w ≤ hopc sws s t 0.
Proof.
  intros Hg Hi Hs Ht. pose proof (mi_shape _ Hi) as Hsh.
  assert (Hgen : ∀ n s, s ∈ S → hopc sws s t 0 < 255 → (Z.to_nat (hopc sws s t 0) < n)%nat →
    s = t ∨ ∃ l w, walk t s l w ∧ w ≤ hopc sws s t 0); 
    [|intros Hlt; by apply (Hgen _ s Hs Hlt (Nat.lt_succ_diag_r _))].
  clear s Hs. induction n as [|n IH]; intros s Hs Hlt Hn; [lia|].
  destruct (mi_attained _ Hi s t Hs Ht Hlt) as [->|(port & Hp & E)]; [by left|right].
  destruct (mi_sound _ Hi s t port Hs Ht Hp ltac:(lia)) as (w & h & r & Hl & Hh & Hw).
  pose proof (link_pos _ _ _ _ _ Hg Hs Hl). pose proof Hl as (_ & _ & _ & _ & _ & Hr & _).
  pose proof (mi_range _ Hi r t 0 Hr Ht ltac:(pose proof (np_pos sws r Hsh Hr); lia)).
  destruct (decide (r = t)) as [-> | Hrt].
  { exists [s], w. split; [by eapply walk_last|]. rewrite (mi_self _ Hi t Ht) in *. lia. }
  destruct Hh as [-> | ?]; [|done].
  destruct (IH r Hr ltac:(lia) ltac:(lia)) as [?|(l & v & Hwk & Hv)]; [done|].
  exists (s :: l), (w + v). split; [by eapply walk_step|lia].
Qed.

(** The subnet a matrix is computed for: the switches of [S], their tables sized
    and cleared. *)
Record matrix_start sws : Prop := {
  ms_shape : shape sws;
  ms_fresh s : s ∈ S → fresh s sws
}.

Lemma build_matrices_inv sws :
  graph_ok → matrix_start sws →
  matrix_inv (build_matrices nodes sws)
  ∧ ∀ t s l w, t ∈ S → walk t s l w → hopc (build_matrices nodes sws) s t 0 ≤ w.
Proof.
  intros Hg [Hsh Hf]. destruct (hop_0_1_all sws Hg Hsh Hf) as [Hsh1 Hd].
  unfold build_matrices. set (sws1 := foldl _ _ _) in *.
  destruct (matrix_inv_init sws1 Hg Hsh1 Hd) as [Hi1 Hl1].
  assert (Hb1 : bounded 1 sws1).
  { intros t s l w Ht Hw Hlen. destruct Hw as [s port w h Hs Hl|s port w r l v Hs Hl Hw].
    - by eapply Hl1.
    - destruct Hw; simpl in Hlen; lia. }
  destruct (propagate_ok (pred (size sws1)) 1 true sws1 Hg Hi1 Hb1) as [Hi Hb]; [lia|done|].
  split; [done|]. intros t s l w Ht Hw.
  destruct (walk_simple t s l w Hg Hw) as (l' & w' & Hw' & Hnd & Hle).
  transitivity w'; [|done]. apply (Hb t s l' w' Ht Hw').
  (* a walk without repetitions visits at most all switches *)
  assert (Hlen : (length l' ≤ size S)%nat).
  { rewrite <-(size_list_to_set (C:=gset Z) l' Hnd). apply subseteq_size. intros x.
    rewrite elem_of_list_to_set. by apply (walk_in t s l' w' Hw'). }
  rewrite <-(sh_dom _ Hsh1), size_dom in Hlen. lia.
Qed.

(** The counts are the shortest distances. *)
Lemma build_matrices_shortest sws s t :
  graph_ok → matrix_start sws → s ∈ S → t ∈ S →
  let d := hopc (build_matrices nodes sws) s t 0 in
  0 ≤ d ≤ OSM_NO_PATH
  ∧ (s = t → d = 0)
  ∧ (s ≠ t → d < OSM_NO_PATH → ∃ l, walk t s l d)
  ∧ ∀ l w, walk t s l w → d ≤ w.
Proof.
  intros Hg Hst Hs Ht. destruct (build_matrices_inv sws Hg Hst) as [Hi Hb]. cbv zeta.
  pose proof (np_pos _ s (mi_shape _ Hi) Hs).
  split; [apply (mi_range _ Hi); [done..|lia]|].
  split_and!; [intros ->; by apply (mi_self _ Hi)| |by intros l w; apply Hb].
  - intros Hne Hlt. destruct (count_walk _ s t Hg Hi Hs Ht Hlt) as [?|(l & w & Hw & Hle)]; [done|].
    exists l. pose proof (Hb t s l w Ht Hw). 
    assert (E : w = hopc (build_matrices nodes sws) s t 0) by lia. by rewrite <-E.
Qed.

(** What routing by least hops needs of the tables: a port that attains the least
    count leads one step closer to the target. *)
Record descending sws : Prop := {
  ds_shape : shape sws;
  ds_range s t port : s ∈ S → t ∈ S → 0 ≤ port < np s → 0 ≤ hopc sws s t port ≤ 255;
  ds_next s t port :
    s ∈ S → t ∈ S → s ≠ t → 1 ≤ port < np s →
    hopc sws s t port = hopc sws s t 0 → hopc sws s t 0 < 255 →
    ∃ p r rem_port, physp_at nodes s port = Some p ∧ p_remote_physp p = Some (r, rem_port)
      ∧ r ∈ S ∧ hopc sws r t 0 < hopc sws s t 0
}.

Lemma matrix_descending sws : graph_ok → matrix_inv sws → descending sws.
Proof.
  intros Hg Hi. split; [apply Hi|apply Hi|]. intros s t port Hs Ht _ Hp E Hlt.
  destruct (mi_sound _ Hi s t port Hs Ht Hp ltac:(lia)) as (w & h & r & Hl & _ & Hw).
  pose proof (link_pos _ _ _ _ _ Hg Hs Hl).
  destruct Hl as (_ & p & rp & Hpp & Hr & HrS & _). exists p, r, rp. split_and!; [done..|lia].
Qed.
End Matrix.

(** ** Cables *)

Section Cables.
Variable nodes : gmap Z osm_node.
Variable S : gset Z.
Notation np := (num_physp nodes).

(** Port [pn] of switch [s] leads to port [rem] of switch [r]. *)
Definition cable (s pn r rem : Z) : Prop :=
  s ∈ S ∧ 1 ≤ pn < np s ∧ r ∈ S
  ∧ ∃ p, physp_at nodes s pn = Some p ∧ p_remote_physp p = Some (r, rem).

(** Every cable has two ends. *)
Definition cables_ok : Prop := ∀ s pn r rem, cable s pn r rem → cable r rem s pn.

Lemma cable_unique s pn r rem r' rem' :
  cable s pn r rem → cable s pn r' rem' → r = r' ∧ rem = rem'.
Proof.
  intros (_ & _ & _ & p & Hp & Hr) (_ & _ & _ & p' & Hp' & Hr').
  rewrite Hp in Hp'. injection Hp' as <-. rewrite Hr in Hr'. by injection Hr' as <- <-.
Qed.
End Cables.

(** ** The hop weights *)

(** A physical port without its weight. *)
Definition wire (p : osm_physp) : Z * bool * bool * option (Z * Z) :=
  (pp_port_guid p, healthy p, is_prof_ignored p, p_remote_physp p).

(** What routing reads of the nodes, apart from weights. *)
Definition same_graph {BO : ByteOrder} (nodes nodes' : gmap Z osm_node) : Prop :=
  ∀ g, sw_lid nodes' g = sw_lid nodes g ∧ num_physp nodes' g = num_physp nodes g
    ∧ ∀ port, wire <$> physp_at nodes' g port = wire <$> physp_at nodes g port.

(** The weights of the switch ports fit a hop count. *)
Definition weights_ok (sws : gmap Z osm_switch) (nodes : gmap Z osm_node) : Prop :=
  ∀ s sw port p, sws !! s = Some sw → 1 ≤ port < num_ports sw → physp_at nodes s port = Some p →
    1 ≤ hop_wf p ≤ 255.

Section Weights.
Context {BO : ByteOrder}.
Implicit Types nodes : gmap Z osm_node.
Implicit Types sws : gmap Z osm_switch.

Lemma same_graph_alter nodes g f :
  (∀ n, port0_base_lid (f n) = port0_base_lid n
        ∧ ∀ i, wire <$> physp_table (f n) !! i = wire <$> physp_table n !! i) →
  same_graph nodes (alter f g nodes).
Proof.
  intros Hf g'. unfold sw_lid, node_base_lid_ho, num_physp, physp_at, osm_node_get_physp_ptr.
  destruct (decide (g' = g)) as [-> | Hne]; [|by rewrite lookup_alter_ne by done].
  rewrite lookup_alter_eq. destruct (nodes !! g) as [n|]; simpl; [|done].
  destruct (Hf n) as [-> Hw]. split_and!; [done| |].
  - f_equal. f_equal. rewrite <-!(length_fmap wire). f_equal. apply list_eq. intros i.
    by rewrite !list_lookup_fmap.
  - intros port. specialize (Hw (Z.to_nat port)).
    destruct (physp_table (f n) !! _) as [p|], (physp_table n !! _) as [p'|]; simpl in *; try done.
    injection Hw as E1 E2 E3 E4. rewrite <-E1. destruct (pp_port_guid p =? 0); simpl; [done|].
    unfold wire. congruence.
Qed.

Lemma same_graph_trans nodes1 nodes2 nodes3 :
  same_graph nodes1 nodes2 → same_graph nodes2 nodes3 → same_graph nodes1 nodes3.
Proof. intros H1 H2 g. destruct (H1 g) as (<- & <- & E), (H2 g) as (? & ? & E'). split_and!; [done..|].
  intros port. by rewrite E'. Qed.

Lemma set_default_same nodes g sw : same_graph nodes (set_default_hop_wf nodes g sw).
Proof. apply same_graph_alter. intros n. split; [done|]. intros i. simpl.
  rewrite list_lookup_imap. destruct (physp_table n !! i) as [p|]; simpl; [|done]. by case_match. Qed.

Lemma set_hop_wf_same sws nodes guid p : same_graph nodes (set_hop_wf sws nodes guid p).
Proof.
  unfold set_hop_wf. destruct (sws !! _) as [sw|]; [|done]. destruct (strtoull p) as [v e].
  repeat (case_match; [done|]). repeat case_match; try done.
  apply same_graph_alter. intros n. split; [done|]. intros i. simpl.
  destruct (decide (i = Z.to_nat (u32 v))) as [-> | Hne]; [|by rewrite list_lookup_alter_ne].
  rewrite list_lookup_alter_eq. by destruct (physp_table n !! _).
Qed.

(** The default weight is 1, at every valid port of the switch. *)
Lemma set_default_weight nodes g sw s port p :
  physp_at (set_default_hop_wf nodes g sw) s port = Some p →
  (s = g ∧ 1 ≤ port < num_ports sw ∧ hop_wf p = 1) ∨ (s = g ∧ ¬ 1 ≤ port < num_ports sw)
  ∨ (s ≠ g ∧ physp_at nodes s port = Some p).
Proof.
  unfold physp_at, set_default_hop_wf. destruct (decide (s = g)) as [-> | Hne].
  2:{ rewrite lookup_alter_ne by done. auto. }
  destruct (decide (1 ≤ port < num_ports sw)) as [Hp|Hp]; [|auto].
  rewrite lookup_alter_eq. destruct (nodes !! g) as [n|]; simpl; [|done].
  unfold osm_node_get_physp_ptr. simpl. rewrite list_lookup_imap.
  destruct (physp_table n !! Z.to_nat port) as [q|]; simpl; [|done].
  rewrite Z2Nat.id by lia. decide_cmps. simpl.
  destruct (pp_port_guid q =? 0) eqn:E; simpl; rewrite ?E; [done|].
  intros [= <-]. left. done.
Qed.

Lemma default_weights_ok sws nodes :
  weights_ok sws (foldl (λ nodes e, set_default_hop_wf nodes e.1 e.2) nodes (qmap_items sws)).
Proof.
  assert (Hgen : ∀ l nodes, NoDup l.*1 → (∀ e, e ∈ l → sws !! e.1 = Some e.2) →
    let nodes' := foldl (λ nodes e, set_default_hop_wf nodes e.1 e.2) nodes l in
    ∀ s port p, physp_at nodes' s port = Some p →
      (∃ sw, (s, sw) ∈ l ∧ (1 ≤ port < num_ports sw → hop_wf p = 1))
      ∨ (s ∉ l.*1 ∧ physp_at nodes s port = Some p)).
  { induction l as [|[g sw] l IH]; intros nds Hnd Hl; simpl.
    { intros s port p Hp. right. split; [apply not_elem_of_nil|done]. }
    apply NoDup_cons in Hnd as [Hni Hnd]. simpl in Hni.
    intros s port p Hp.
    destruct (IH _ Hnd ltac:(intros e He; apply Hl; by right) s port p Hp)
      as [(sw' & Hin & Hw)|[Hns Hp']]; [left; exists sw'; split; [by right|done]|].
    apply set_default_weight in Hp' as [(-> & H1 & H2)|[[-> H1]|[Hne H1]]].
    - left. exists sw. split; [left|done].
    - left. exists sw. split; [left|by intros ?].
    - right. split; [|done]. by apply not_elem_of_cons. }
  intros s sw port p Hsw Hport Hp.
  destruct (Hgen (qmap_items sws) nodes (qmap_items_NoDup _)
    ltac:(intros [k v]; apply elem_of_qmap_items) s port p Hp) as [(sw' & Hin & Hw)|[Hni _]].
  - apply elem_of_qmap_items in Hin. rewrite Hw; [lia|]. congruence.
  - destruct Hni. apply (list_elem_of_fmap_2 fst _ (s, sw)). by apply elem_of_qmap_items.
Qed.

Lemma set_hop_wf_ok sws nodes guid p :
  weights_ok sws nodes → weights_ok sws (set_hop_wf sws nodes guid p).
Proof.
  intros Hw. unfold set_hop_wf. destruct (sws !! _) as [sw|] eqn:Esw; [|done].
  destruct (strtoull p) as [v e]. case_match; [done|]. cbv zeta.
  set (wf := u32 _). case_match eqn:E; [done|].
  apply orb_false_iff in E as [[_ E1%Z.eqb_neq]%orb_false_iff E2%Z.leb_gt].
  assert (0 ≤ wf) by (unfold wf, u32; by apply Z.mod_pos_bound).
  case_match; [|done]. intros s sw' port q Hs Hport Hq.
  unfold physp_at in Hq. destruct (decide (s = cl_hton64 guid)) as [-> | Hne].
  2:{ rewrite lookup_alter_ne in Hq by done. by eapply Hw. }
  rewrite lookup_alter_eq in Hq. destruct (nodes !! cl_hton64 guid) as [n|] eqn:En; [|done].
  simpl in Hq. unfold osm_node_get_physp_ptr in Hq. simpl in Hq.
  destruct (decide (Z.to_nat port = Z.to_nat (u32 v))) as [Ep|Ep].
  - rewrite Ep, list_lookup_alter_eq in Hq.
    destruct (physp_table n !! _) as [q0|]; simpl in Hq; [|done].
    case_match; [done|]. injection Hq as <-. simpl. lia.
  - rewrite list_lookup_alter_ne in Hq by done. eapply (Hw _ sw' port); [done..|].
    unfold physp_at. rewrite En. simpl. done.
Qed.
End Weights.

Lemma matrix_start_same {BO : ByteOrder} nodes nodes' S sws :
  same_graph nodes nodes' → matrix_start nodes S sws → matrix_start nodes' S sws.
Proof.
  intros Hsame [[H1 H2 H3 H4] Hf]. split; [split|].
  - done.
  - done.
  - intros s sw Hsw. destruct (Hsame s) as (_ & -> & _). by apply H3.
  - intros s sw t Hsw Ht. destruct (Hsame t) as [-> _]. by eapply H4.
  - intros s Hs t port Ht Hp. unfold hopc. destruct (Hsame t) as [-> _], (Hsame s) as (_ & E & _).
    apply (Hf s Hs t port Ht). by rewrite <-E.
Qed.

(** The weights are set and nothing else of the graph changes. *)
Lemma weights_set {BO : ByteOrder} hop_weights nodes sws :
  let nodes' := (osm_ucast_mgr_build_lid_matrices hop_weights nodes sws).1 in
  same_graph nodes nodes' ∧ weights_ok sws nodes'.
Proof.
  unfold osm_ucast_mgr_build_lid_matrices. cbv zeta. simpl.
  set (nodes1 := foldl _ nodes (qmap_items sws)).
  assert (H1 : same_graph nodes nodes1 ∧ weights_ok sws nodes1).
  { split; [|apply default_weights_ok].
    apply (foldl_inv (same_graph nodes)); [|done]. intros nds e _ Hn.
    eapply same_graph_trans; [done|apply set_default_same]. }
  clearbody nodes1.
  apply (foldl_inv (λ nds, same_graph nodes nds ∧ weights_ok sws nds)); [|done].
  intros nds e _ [Hn Hw]. split; [|by apply set_hop_wf_ok].
  eapply same_graph_trans; [done|apply set_hop_wf_same].
Qed.

Lemma build_graph_ok {BO : ByteOrder} hop_weights nodes S sws :
  (∀ s t, s ∈ S → t ∈ S → sw_lid nodes s = sw_lid nodes t → s = t) → matrix_start nodes S sws →
  let nodes' := (osm_ucast_mgr_build_lid_matrices hop_weights nodes sws).1 in
  graph_ok nodes' S ∧ matrix_start nodes' S sws.
Proof.
  intros Hinj Hst nodes'. destruct (weights_set hop_weights nodes sws) as [Hsame Hw].
  fold nodes' in Hsame, Hw.
  pose proof (matrix_start_same nodes nodes' S sws Hsame Hst) as Hst'. split; [|done].
  split.
  - intros s t Hs Ht. destruct (Hsame s) as [-> _], (Hsame t) as [-> _]. by apply Hinj.
  - intros s port p Hs Hp Hpp. destruct Hst' as [Hsh' _].
    destruct (shape_lookup nodes' S sws s Hsh' Hs) as [sw Hsw].
    eapply (Hw s sw port p); [done| |done]. by rewrite (sh_ports _ _ _ Hsh' _ _ Hsw).
Qed.

(** C4. The lid matrices are the shortest distances.  After
    [osm_ucast_mgr_build_lid_matrices] on cleared tables, whatever the hop weights
    file holds, the least hop count from switch [s] to the LID of switch [t] is the
    least weight of a walk from [s] to [t] (0 to itself), and [OSM_NO_PATH] when
    every walk weighs 255 or more: the [n - 1] iterations the loop is given are
    enough, with or without its early exit, and the 8-bit counts never wrap. *)
Theorem lid_matrices_shortest {BO : ByteOrder} hop_weights nodes S sws s t :
  lids_distinct nodes S → matrix_start nodes S sws → s ∈ S → t ∈ S →
  let '(nodes', sws') := osm_ucast_mgr_build_lid_matrices hop_weights nodes sws in
  ∃ sw, sws' !! s = Some sw ∧
  let d := osm_switch_get_least_hops sw (sw_lid nodes' t) in
  0 ≤ d ≤ OSM_NO_PATH
  ∧ (s = t → d = 0)
  ∧ (s ≠ t → d < OSM_NO_PATH → ∃ l, walk nodes' S t s l d)
  ∧ ∀ l w, walk nodes' S t s l w → d ≤ w.
Proof.
  intros Hinj Hst Hs Ht.
  destruct (build_graph_ok hop_weights nodes S sws Hinj Hst) as [Hg Hst'].
  pose proof (build_matrices_shortest _ S sws s t Hg Hst' Hs Ht) as Hd.
  destruct (build_matrices_inv _ S sws Hg Hst') as [Hi _].
  unfold osm_ucast_mgr_build_lid_matrices in *. cbv zeta in *. simpl in *.
  destruct (shape_lookup _ S _ s (mi_shape _ _ _ Hi) Hs) as [sw Hsw].
  exists sw. split; [done|]. unfold hopc in Hd. rewrite Hsw in Hd. exact Hd.
Qed.

(** ** The forwarding tables *)

(** Options and state of the manager that the choice of routes reads. *)
Record route_opts := RouteOpts {
  ro_lmc : Z;
  ro_ignore_existing_lfts : bool;
  ro_is_dor : bool;
  ro_port_shifting : bool;
  ro_port_profile_switch_nodes : bool
}.

(** [find_and_add_remote_sys], with the [forwarded_to++] of its caller. *)
Fixpoint find_and_add_remote_sys (node rem_port : Z) (dor : bool) (r : list osm_remote_node)
    : list osm_remote_node :=
  match r with
  | [] => [RemoteNode node 1 rem_port]
  | e :: r =>
      if (rn_node e =? node) && (negb dor || (rn_port e =? rem_port))
      then RemoteNode (rn_node e) (u32 (rn_forwarded_to e + 1)) (rn_port e) :: r
      else e :: find_and_add_remote_sys node rem_port dor r
  end.

Section Forward.
Context {BO : ByteOrder}.
Variable opt : route_opts.
Variable nodes : gmap Z osm_node.
Variable sw_guids : gset Z.
Variable rnd : Z → nat → Z → Z.    (* of a switch, a port of the list and a LID offset *)

Definition port_lid_range (p : osm_port) : Z * Z :=
  let min_lid_ho := cl_ntoh16 (pt_base_lid p) in
  (min_lid_ho, u16 (min_lid_ho + Z.shiftl 1 (pt_lmc p) - 1)).

(** The route of one LID of a port, in the new table of switch [g]; the ports carry
    their tracking arrays. *)
Definition ucast_mgr_process_port (g lid_offset : Z) (st : osm_switch * list osm_port) (k : nat)
    : osm_switch * list osm_port :=
  let '(p_sw, ports) := st in
  match ports !! k with
  | None => st
  | Some p_port =>
      let '(min_lid_ho, max_lid_ho) := port_lid_range p_port in
      if (min_lid_ho =? 0) || (max_lid_ho =? 0) then st
      else
        let lid_ho := u16 (min_lid_ho + lid_offset) in
        if max_lid_ho <? lid_ho then st
        else
          let start_from :=
            if negb (lid_offset =? 0) && negb (ro_is_dor opt)
            then osm_switch_get_port_by_lid p_sw (lid_ho - 1) OSM_NEW_LFT + 1 else 1 in
          let port :=
            osm_switch_recommend_path nodes sw_guids g p_sw p_port
              (negb (ro_lmc opt =? 0)) (ro_is_dor opt) (ro_port_shifting opt)
              ((lid_offset =? 0) && pt_use_scatter p_port)
              lid_ho start_from (ro_ignore_existing_lfts opt) OSM_LFT (rnd g k lid_offset) in
          let set_route sw := sw <| new_lft := <[Z.to_nat lid_ho := port]> (new_lft sw) |> in
          if port =? OSM_NO_PATH then (set_route p_sw, ports)
          else
            match physp_at nodes g port with
            | None => st
            | Some p =>
                let is_ignored_by_port_prof :=
                  is_prof_ignored p
                  || (negb (ro_port_profile_switch_nodes opt)
                      && from_option node_is_switch false (nodes !! pt_node p_port)) in
                if is_ignored_by_port_prof then (set_route p_sw, ports)
                else
                  let p_sw := osm_switch_count_path (set_route p_sw) port in
                  match pt_priv p_port, p_remote_physp p with
                  | Some r, Some (node, rem_port) =>
                      if 0 <? port then
                        (p_sw, <[k := p_port <| pt_priv :=
                           Some (find_and_add_remote_sys node rem_port (ro_is_dor opt) r) |>]> ports)
                      else (p_sw, ports)
                  | _, _ => (p_sw, ports)
                  end
            end
  end.

(** [alloc_ports_priv] *)
Definition alloc_ports_priv (ports : list osm_port) : list osm_port :=
  (λ p, p <| pt_priv := Some [] |>) <$> ports.

(** The table of one switch: every LID offset, every port in the order of
    [port_order_list]. *)
Definition ucast_mgr_process_tbl (ports : list osm_port) (g : Z) (p_sw : osm_switch) : osm_switch :=
  let n := Z.to_nat (max_lid_ho p_sw + 1) in
  let p_sw := p_sw <| new_lft := replicate n OSM_NO_PATH ++ drop n (new_lft p_sw) |> in
  (foldl (λ st e, ucast_mgr_process_port g e.1 st e.2) (p_sw, alloc_ports_priv ports)
     (i ← seqZ 0 (Z.shiftl 1 (ro_lmc opt)); k ← seq 0 (length ports); [(i, k)])).1.

(** The tables of all switches; each depends on its own switch only. *)
Definition ucast_mgr_build_lfts (ports : list osm_port) (sws : gmap Z osm_switch)
    : gmap Z osm_switch :=
  map_imap (λ g sw, Some (ucast_mgr_process_tbl ports g sw)) sws.
End Forward.

(** Where a packet for [lid] goes from switch [s]. *)
Inductive forwarded :=
  | ToPort (node port_num : Z)     (* out of the switches, to this port *)
  | ToSwitch (s : Z)               (* consumed by the switch *)
  | NoRoute (s : Z)
  | OutOfFuel.

Fixpoint forward (nodes : gmap Z osm_node) (sws : gmap Z osm_switch) (lid : Z) (fuel : nat) (s : Z)
    : forwarded :=
  match fuel with
  | O => OutOfFuel
  | S fuel =>
      match sws !! s with
      | None => NoRoute s
      | Some sw =>
          let port := new_lft sw !!! Z.to_nat lid in
          if port =? OSM_NO_PATH then NoRoute s
          else if port =? 0 then ToSwitch s
          else match physp_at nodes s port ≫= p_remote_physp with
          | None => NoRoute s
          | Some (r, rem_port) =>
              if bool_decide (r ∈ dom sws) then forward nodes sws lid fuel r else ToPort r rem_port
          end
      end
  end.

Section ForwardOk.
Context {BO : ByteOrder}.
Variable opt : route_opts.
Variable nodes : gmap Z osm_node.
Variable sw_guids : gset Z.
Variable rnd : Z → nat → Z → Z.

(** The route to a port that the search chooses: a local answer, a usable port on a
    least-hop path, or no path when no port is. *)
Definition good_route (g : Z) (sw : osm_switch) (q : osm_port) (e : Z) : Prop :=
  match rp_base_lid nodes sw_guids g q with
  | RpReturn r => e = r
  | RpSearch base_lid =>
      (osm_switch_get_least_hops sw base_lid ≠ OSM_NO_PATH ∧ least_hop_port nodes g sw base_lid e)
      ∨ (e = OSM_NO_PATH
         ∧ (osm_switch_get_least_hops sw base_lid ≠ OSM_NO_PATH →
            ∀ p, 1 ≤ p < num_ports sw → ¬ least_hop_port nodes g sw base_lid p))
  end.

Definition in_lids (q : osm_port) (lid : Z) : Prop :=
  (port_lid_range q).1 ≤ lid ≤ (port_lid_range q).2 ∧ (port_lid_range q).1 ≠ 0.

(** What routing reads of a switch, and of a port, does not change. *)
Definition same_hops (sw sw' : osm_switch) : Prop :=
  hops sw' = hops sw ∧ max_lid_ho sw' = max_lid_ho sw ∧ num_ports sw' = num_ports sw
  ∧ search_ordering_ports sw' = search_ordering_ports sw
  ∧ length (new_lft sw') = length (new_lft sw).

Definition untracked (q : osm_port) : osm_port := q <| pt_priv := None |>.

(** A call, a LID offset and a port of the list, that routes [lid] at switch [g];
    a local answer is only taken when its port is valid. *)
Definition targets (g : Z) (ports : list osm_port) (lid : Z) (e : Z * nat) : Prop :=
  ∃ q, ports !! e.2 = Some q ∧ in_lids q lid ∧ lid = (port_lid_range q).1 + e.1
    ∧ ∀ r, rp_base_lid nodes sw_guids g q = RpReturn r →
        r = OSM_NO_PATH ∨ is_Some (physp_at nodes g r).

(** After some [calls] for switch [g], which started from [sw0]. *)
Record routes_inv (g : Z) (sw0 : osm_switch) (ports0 : list osm_port) (calls : list (Z * nat))
    (st : osm_switch * list osm_port) : Prop := {
  ri_same : same_hops sw0 st.1;
  ri_ports : untracked <$> st.2 = untracked <$> ports0;
  ri_counts i : 0 ≤ p_prof st.1 !!! i ≤ Z.of_nat (length calls) + 1;
  ri_room : max_lid_ho sw0 < Z.of_nat (length (new_lft sw0));
  ri_routes lid : 0 ≤ lid ≤ max_lid_ho sw0 →
    (new_lft st.1 !!! Z.to_nat lid = OSM_NO_PATH ∧ ∀ e, e ∈ calls → ¬ targets g ports0 lid e)
    ∨ ∃ q, q ∈ ports0 ∧ in_lids q lid ∧ good_route g sw0 q (new_lft st.1 !!! Z.to_nat lid)
}.

Lemma good_route_same g sw sw' q q' e :
  same_hops sw sw' → untracked q' = untracked q → good_route g sw' q' e → good_route g sw q e.
Proof.
  intros (Eh & Em & En & _) Eq.
  assert (Hget : ∀ lid p, osm_switch_get_hop_count sw' lid p = osm_switch_get_hop_count sw lid p)
    by (intros lid p; unfold osm_switch_get_hop_count, hop_row; by rewrite Eh, Em).
  assert (Hb : rp_base_lid nodes sw_guids g q' = rp_base_lid nodes sw_guids g q)
    by (destruct q, q'; unfold untracked in Eq; simpl in Eq; by injection Eq as -> -> -> -> ->).
  unfold good_route, least_hop_port. rewrite Hb.
  destruct (rp_base_lid nodes sw_guids g q) as [r|base]; [done|].
  rewrite !least_hops_eq, !Hget, En. intros [?|[? Hn]]; [by left|right]. split; [done|].
  intros Hl p Hp. specialize (Hn Hl p Hp). by rewrite Hget in Hn.
Qed.

(** The recommended port is a good route. *)
Lemma recommend_good g sw q lmc dor shift scatter lid start ignore lft_enum x :
  counts_ok sw → dimn_ok sw →
  good_route g sw q (osm_switch_recommend_path nodes sw_guids g sw q lmc dor shift scatter
                       lid start ignore lft_enum x).
Proof.
  intros Hc Hd. unfold good_route.
  destruct (rp_base_lid nodes sw_guids g q) as [r|base] eqn:E.
  - unfold osm_switch_recommend_path. by rewrite E.
  - destruct (recommend_path_step nodes sw_guids g sw q lmc dor shift scatter base lid start ignore
      lft_enum x Hc Hd E) as [?|[-> ?]]; [by left|by right].
Qed.

Definition ports_ok (ports : list osm_port) : Prop :=
  Forall (λ q, 0 ≤ cl_ntoh16 (pt_base_lid q) ≤ 0xBFFF) ports.

(** A state that differs in the route of one LID, and in at most one counter. *)
Lemma routes_inv_set g sw0 ports0 calls st lid port q ports' count e :
  routes_inv g sw0 ports0 calls st → Z.of_nat (length calls) < UINT32_MAX - 1 →
  q ∈ ports0 → in_lids q lid → 0 ≤ lid → good_route g sw0 q port →
  untracked <$> ports' = untracked <$> ports0 →
  (∀ l, targets g ports0 l e → l = lid) →
  let sw' := st.1 <| new_lft := <[Z.to_nat lid := port]> (new_lft st.1) |> in
  routes_inv g sw0 ports0 (calls ++ [e])
    (if count : bool then osm_switch_count_path sw' port else sw', ports').
Proof.
  intros [Hs Hp Hc Hroom Hr] Hn Hq Hin Hlid Hg Hp' He sw'.
  assert (Hl : ∀ l, 0 ≤ l ≤ max_lid_ho sw0 →
    (new_lft sw' !!! Z.to_nat l = OSM_NO_PATH ∧ ∀ e', e' ∈ calls ++ [e] → ¬ targets g ports0 l e')
    ∨ ∃ q, q ∈ ports0 ∧ in_lids q l ∧ good_route g sw0 q (new_lft sw' !!! Z.to_nat l)).
  { intros l Hl. destruct (decide (l = lid)) as [-> | Hne].
    - right. exists q. subst sw'. simpl. destruct Hs as (_ & _ & _ & _ & El).
      by rewrite lookup_total_insert_eq by lia.
    - subst sw'. simpl. rewrite lookup_total_insert_ne by lia.
      destruct (Hr l Hl) as [[Hno Hnt]|?]; [left|by right]. split; [done|].
      intros e' [He'| ->%list_elem_of_singleton]%elem_of_app; [by apply Hnt|].
      intros Ht. by apply Hne, He. }
  assert (Hs' : same_hops sw0 sw').
  { destruct Hs as (? & ? & ? & ? & ?). subst sw'. split_and!; simpl; try done.
    by rewrite length_insert. }
  destruct count; split; simpl; try done.
  - intros i. rewrite length_app, list_lookup_total_alt. simpl.
    destruct (decide (i = Z.to_nat port)) as [-> | Hi].
    + rewrite list_lookup_alter_eq. specialize (Hc (Z.to_nat port)).
      rewrite list_lookup_total_alt in Hc.
      destruct (p_prof st.1 !! Z.to_nat port) as [c|]; simpl in *; [|lia].
      unfold UINT32_MAX in Hn. rewrite u32_small by lia. lia.
    + rewrite list_lookup_alter_ne by done. specialize (Hc i).
      rewrite list_lookup_total_alt in Hc. simpl in Hc. lia.
  - intros i. specialize (Hc i). rewrite length_app. simpl. lia.
Qed.

(** A call that routes nothing. *)
Lemma routes_inv_skip g sw0 ports0 calls st e :
  routes_inv g sw0 ports0 calls st → (∀ l, ¬ targets g ports0 l e) →
  routes_inv g sw0 ports0 (calls ++ [e]) st.
Proof.
  intros [Hs Hp Hc Hroom Hr] He. split; try done.
  - intros i. specialize (Hc i). rewrite length_app. simpl. lia.
  - intros lid Hlid. destruct (Hr lid Hlid) as [[Hno Hnt]|?]; [left|by right]. split; [done|].
    intros e' [He'| ->%list_elem_of_singleton]%elem_of_app; [by apply Hnt|apply He].
Qed.

(** The static fields of a port survive the tracking. *)
Lemma untracked_lookup (ports ports0 : list osm_port) (k : nat) q :
  untracked <$> ports = untracked <$> ports0 → ports !! k = Some q →
  ∃ q0, ports0 !! k = Some q0 ∧ untracked q = untracked q0 ∧ port_lid_range q = port_lid_range q0.
Proof.
  intros Hp Ek.
  assert (E : (untracked <$> ports) !! k = (untracked <$> ports0) !! k) by (by rewrite Hp).
  rewrite !list_lookup_fmap, Ek in E. destruct (ports0 !! k) as [q0|]; [|done].
  apply (inj Some) in E. exists q0. split_and!; [done..|].
  destruct q, q0; unfold untracked in E; simpl in E; by injection E as -> -> -> -> ->.
Qed.

Lemma process_port_step g sw0 ports0 calls lid_offset st k :
  dimn_ok sw0 → ports_ok ports0 → Z.of_nat (length calls) < UINT32_MAX - 1 → 0 ≤ lid_offset < 128 →
  routes_inv g sw0 ports0 calls st →
  routes_inv g sw0 ports0 (calls ++ [(lid_offset, k)])
    (ucast_mgr_process_port opt nodes sw_guids rnd g lid_offset st k).
Proof.
  intros Hd Hpo Hn Hoff Hi. pose proof Hi as [Hs Hp Hc _ _]. destruct st as [sw ports].
  cbn [fst snd] in *. unfold ucast_mgr_process_port. cbv beta iota.
  destruct (ports !! k) as [q|] eqn:Ek.
  2:{ apply routes_inv_skip; [done|]. intros l (q0 & Ek0 & _). simpl in Ek0.
      destruct (untracked_lookup ports0 ports k q0 ltac:(done) Ek0) as (? & ? & _). congruence. }
  destruct (untracked_lookup ports ports0 k q Hp Ek) as (q0 & Ek0 & Eq & ->).
  assert (Hq0 : q0 ∈ ports0) by (by eapply list_elem_of_lookup_2).
  unfold ports_ok in Hpo. rewrite Forall_forall in Hpo. specialize (Hpo q0 Hq0).
  destruct (port_lid_range q0) as [mn mx] eqn:Erange.
  assert (Emn : mn = cl_ntoh16 (pt_base_lid q0)) by (unfold port_lid_range in Erange; congruence).
  assert (Htgt : ∀ l, targets g ports0 l (lid_offset, k) →
    l = mn + lid_offset ∧ mn ≠ 0 ∧ mn ≤ l ≤ mx
    ∧ ∀ r, rp_base_lid nodes sw_guids g q0 = RpReturn r →
        r = OSM_NO_PATH ∨ is_Some (physp_at nodes g r)).
  { intros l (q1 & E1 & [Hr Hz] & Hl & Hv). cbn [fst snd] in E1, Hl. rewrite Ek0 in E1. injection E1 as <-.
    rewrite Erange in Hr, Hz, Hl. simpl in Hr, Hz, Hl. destruct Hr. by split_and!. }
  destruct (Z.eqb_spec mn 0) as [E0|Hmn];
    [apply routes_inv_skip; [done|]; by intros l (_ & ? & _)%Htgt|].
  destruct (Z.eqb_spec mx 0) as [E0|Hmx0];
    [apply routes_inv_skip; [done|]; intros l (_ & _ & ? & _)%Htgt; lia|].
  cbn [orb]. rewrite u16_small by lia.
  destruct (Z.ltb_spec mx (mn + lid_offset)) as [Hlt|Hmx];
    [apply routes_inv_skip; [done|]; intros l (-> & _ & ? & _)%Htgt; lia|].
  assert (Hin : in_lids q0 (mn + lid_offset)).
  { unfold in_lids. rewrite Erange. simpl. lia. }
  set (start := if _ && _ then _ else _).
  set (port := osm_switch_recommend_path _ _ _ _ _ _ _ _ _ _ _ _ _ _).
  assert (Hg : good_route g sw0 q0 port).
  { apply (good_route_same g sw0 sw q0 q port Hs Eq). apply recommend_good.
    - intros i. specialize (Hc (Z.to_nat i)). lia.
    - destruct Hs as (_ & _ & En & Eo & _). unfold dimn_ok. by rewrite En, Eo. }
  clearbody port start.
  pose proof (λ count ports' Hp', routes_inv_set g sw0 ports0 calls (sw, ports) (mn + lid_offset) port
    q0 ports' count (lid_offset, k) Hi Hn Hq0 Hin ltac:(lia) Hg Hp'
    ltac:(by intros l [? _]%Htgt)) as Hset. cbn [fst] in Hset.
  assert (Hadd : ∀ r, untracked <$> <[k := q <| pt_priv := r |>]> ports = untracked <$> ports0).
  { intros r. rewrite list_fmap_insert, <-Hp. apply list_insert_id.
    rewrite list_lookup_fmap, Ek. simpl. f_equal. }
  destruct (Z.eqb_spec port OSM_NO_PATH) as [|Hnp]; [by apply (Hset false)|].
  destruct (physp_at nodes g port) as [p|] eqn:Ep.
  2:{ (* only a local answer can be an invalid port *)
      apply routes_inv_skip; [done|]. intros l (_ & _ & _ & Hv)%Htgt. unfold good_route in Hg.
      destruct (rp_base_lid nodes sw_guids g q0) as [r|base].
      - subst r. destruct (Hv port eq_refl) as [?|[? ?]]; congruence.
      - destruct Hg as [(_ & _ & p & Hp' & _)|[? _]]; congruence. }
  destruct (_ || _); [by apply (Hset false)|].
  destruct (pt_priv q), (p_remote_physp p) as [[node rem_port]|]; try by apply (Hset true).
  destruct (0 <? port); [apply (Hset true), Hadd|by apply (Hset true)].
Qed.

Lemma pairs_length {A B} (l : list A) (l' : list B) :
  length (x ← l; y ← l'; [(x, y)]) = (length l * length l')%nat.
Proof.
  induction l as [|x l IH]; [done|]. cbn [mbind list_bind]. rewrite length_app, IH. simpl. f_equal.
  clear IH. induction l' as [|y l' IH]; [done|]. simpl. f_equal. exact IH.
Qed.

(** The whole table of a switch. *)
Lemma process_tbl_ok g sw0 ports :
  dimn_ok sw0 → ports_ok ports → 0 ≤ ro_lmc opt ≤ 7 →
  p_prof sw0 = replicate (Z.to_nat (num_ports sw0)) 0 →
  128 * Z.of_nat (length ports) < UINT32_MAX - 1 →
  -1 ≤ max_lid_ho sw0 < Z.of_nat (length (new_lft sw0)) →
  let sw := ucast_mgr_process_tbl opt nodes sw_guids rnd ports g sw0 in
  hops sw = hops sw0 ∧ max_lid_ho sw = max_lid_ho sw0 ∧ num_ports sw = num_ports sw0
  ∧ ∀ lid, 0 ≤ lid ≤ max_lid_ho sw0 →
    (new_lft sw !!! Z.to_nat lid = OSM_NO_PATH
     ∧ ∀ i k, 0 ≤ i < Z.shiftl 1 (ro_lmc opt) → ¬ targets g ports lid (i, k))
    ∨ ∃ q, q ∈ ports ∧ in_lids q lid ∧ good_route g sw0 q (new_lft sw !!! Z.to_nat lid).
Proof.
  intros Hd Hpo Hlmc Hprof Hlen Hroom. unfold ucast_mgr_process_tbl. cbv zeta.
  set (sw1 := sw0 <| new_lft := _ |>).
  set (calls := i ← _; k ← _; [(i, k)]).
  assert (Hpow : 1 ≤ Z.shiftl 1 (ro_lmc opt) ≤ 128).
  { rewrite Z.shiftl_1_l. pose proof (Z.pow_le_mono_r 2 (ro_lmc opt) 7).
    pose proof (Z.pow_pos_nonneg 2 (ro_lmc opt)). lia. }
  assert (Hs1 : same_hops sw0 sw1).
  { subst sw1. split_and!; simpl; try done.
    rewrite length_app, length_replicate, length_drop. lia. }
  assert (H1 : routes_inv g sw1 ports [] (sw1, alloc_ports_priv ports)).
  { split; simpl.
    - by split_and!.
    - unfold alloc_ports_priv. rewrite <-list_fmap_compose. by apply list_fmap_ext.
    - intros i. rewrite Hprof. destruct (decide (i < Z.to_nat (num_ports sw0))%nat).
      + rewrite list_lookup_total_alt, lookup_replicate_2 by lia. simpl. lia.
      + rewrite list_lookup_total_alt, lookup_ge_None_2 by (rewrite length_replicate; lia).
        simpl. lia.
    - destruct Hs1 as (_ & _ & _ & _ & El). simpl in El. rewrite El. lia.
    - intros lid Hlid. left. split; [|by intros e ?%not_elem_of_nil].
      rewrite list_lookup_total_alt, lookup_app_l, lookup_replicate_2;
        [done|lia|rewrite length_replicate; lia]. }
  assert (Hcalls : ∀ e, e ∈ calls → 0 ≤ e.1 < 128).
  { intros e (i & (k & He & _)%list_elem_of_bind & Hi%elem_of_seqZ)%list_elem_of_bind.
    apply list_elem_of_singleton in He as ->. simpl. lia. }
  assert (Hclen : Z.of_nat (length calls) < UINT32_MAX - 1).
  { subst calls. rewrite pairs_length, length_seqZ, length_seq. nia. }
  assert (Hloop : ∀ l seen st, (∀ e, e ∈ l → 0 ≤ e.1 < 128) →
    Z.of_nat (length (seen ++ l)) < UINT32_MAX - 1 → routes_inv g sw1 ports seen st →
    routes_inv g sw1 ports (seen ++ l)
      (foldl (λ st e, ucast_mgr_process_port opt nodes sw_guids rnd g e.1 st e.2) st l)).
  { clear Hcalls Hclen H1. induction l as [|[i k] l IH]; intros seen st He Hm Hi; simpl.
    { by rewrite app_nil_r. }
    rewrite cons_middle, app_assoc in Hm |- *.
    apply IH; [intros; apply He; by right|done|].
    apply process_port_step; [by destruct Hs1 as (_ & _ & En & Eo & _); unfold dimn_ok; rewrite En, Eo
      |done|rewrite !length_app in Hm; lia|apply (He (i, k)); left|done]. }
  destruct (Hloop calls [] (sw1, alloc_ports_priv ports) Hcalls Hclen H1)
    as [(E1 & E2 & E3 & _) _ _ _ Hr].
  split_and!; [by rewrite E1|by rewrite E2|by rewrite E3|].
  intros lid Hlid. destruct (Hr lid Hlid) as [[Hno Hnt]|(q & Hq & Hin & Hgr)]; [left|right].
  - split; [done|]. intros i k Hi Ht. apply (Hnt (i, k)); [|done]. simpl.
    destruct Ht as (q & Ek & _). apply lookup_lt_Some in Ek. simpl in Ek.
    subst calls. apply list_elem_of_bind. exists i. split; [|apply elem_of_seqZ; lia].
    apply list_elem_of_bind. exists k. split; [by apply list_elem_of_singleton|apply elem_of_seq; lia].
  - exists q. split_and!; [done..|]. by apply (good_route_same g sw0 sw1 q q).
Qed.
End ForwardOk.

(** ** The matrices leave the rest of the switches alone *)

Definition rest_of (sw : osm_switch) : Z * Z * list Z * option (list Z) * list Z * list Z :=
  (num_ports sw, max_lid_ho sw, p_prof sw, search_ordering_ports sw, lft sw, new_lft sw).

Section Frame.
Context {BO : ByteOrder}.
Variable nodes : gmap Z osm_node.
Implicit Types sws : gmap Z osm_switch.

Definition frame sws sws' : Prop := ∀ g, rest_of <$> sws' !! g = rest_of <$> sws !! g.

Lemma set_hops_rest sw lid port n : rest_of (osm_switch_set_hops sw lid port n).2 = rest_of sw.
Proof. unfold osm_switch_set_hops. by repeat case_match. Qed.

Lemma frame_insert sws0 sws g sw sw' :
  frame sws0 sws → sws !! g = Some sw → rest_of sw' = rest_of sw → frame sws0 (<[g := sw']> sws).
Proof.
  intros Hf Hsw E g'. rewrite <-Hf. destruct (decide (g' = g)) as [-> | Hne].
  - rewrite lookup_insert_eq, Hsw. simpl. by rewrite E.
  - by rewrite lookup_insert_ne by done.
Qed.

Lemma hop_0_1_frame sws0 sws g :
  frame sws0 sws → frame sws0 (ucast_mgr_process_hop_0_1 nodes sws g).
Proof.
  intros Hf. unfold ucast_mgr_process_hop_0_1. destruct (sws !! g) as [sw|] eqn:E; [|done].
  eapply frame_insert; [done..|]. rewrite (foldl_keeps rest_of); [apply set_hops_rest|].
  intros s i. unfold hop_1. destruct (remote_sw nodes sws g i) as [[p r]|]; [apply set_hops_rest|done].
Qed.

Lemma relax_frame sws0 this remote port st t :
  frame sws0 st.1 → frame sws0 (relax nodes this remote port st t).1.
Proof.
  intros Hf. destruct st as [sws b]. unfold relax. simpl in *.
  destruct (sws !! this) as [sw|] eqn:E; [|done]. repeat case_match; try done; simpl.
  all: try (eapply frame_insert; [done..|apply set_hops_rest]).
Qed.

Lemma propagate_frame sws0 n b sws : frame sws0 sws → frame sws0 (propagate nodes n b sws).
Proof.
  revert b sws. induction n as [|n IH]; intros b sws Hf; simpl; [done|]. destruct b; [|done].
  assert (Honce : frame sws0 (propagate_once nodes sws).1).
  { unfold propagate_once. apply (foldl_inv (λ st, frame sws0 st.1)); [|done].
    intros st g _ Hst. apply (foldl_inv (λ st, frame sws0 st.1)); [|done].
    intros st' port _ Hst'. unfold neighbor_port.
    destruct (remote_sw nodes st'.1 g port) as [[p r]|]; [|done].
    destruct (osm_link_is_healthy nodes p); [|done].
    apply (foldl_inv (λ st, frame sws0 st.1)); [|done]. intros st'' t _. apply relax_frame. }
  destruct (propagate_once nodes sws) as [sws' b']. by apply IH.
Qed.

Lemma build_matrices_frame sws : frame sws (build_matrices nodes sws).
Proof.
  apply propagate_frame. apply (foldl_inv (frame sws)); [|done]. intros sws' g _. apply hop_0_1_frame.
Qed.
End Frame.

(** ** Routes without loops *)

Section Delivery.
Context {BO : ByteOrder}.
Variable opt : route_opts.
Variable nodes : gmap Z osm_node.
Variable S : gset Z.
Variable rnd : Z → nat → Z → Z.
Variable ports : list osm_port.
Implicit Types sws : gmap Z osm_switch.

(** The physical side of the graph: no switch has more than 255 ports, and port 0
    is valid and has no link. *)
Definition wires_ok : Prop :=
  ∀ s, s ∈ S → (∀ n, nodes !! s = Some n → (length (physp_table n) ≤ 255)%nat)
    ∧ ∃ p, physp_at nodes s 0 = Some p ∧ p_remote_physp p = None.

(** The tables as [osm_switch_prepare_path_rebuild] leaves them. *)
Definition tables_ok sws : Prop :=
  ∀ s sw, sws !! s = Some sw → dimn_ok sw
    ∧ p_prof sw = replicate (Z.to_nat (num_ports sw)) 0
    ∧ 0 ≤ max_lid_ho sw < Z.of_nat (length (new_lft sw)).

(** The switch a port hangs on: its own, or the one at the other end of its cable,
    whose port leads back to it. *)
Definition attached (q : osm_port) (t : Z) : Prop :=
  t ∈ S ∧
  ((pt_node q = t ∧ cl_ntoh16 (pt_base_lid q) = sw_lid nodes t)
   ∨ (pt_node q ∉ S ∧ ∃ num n p rem_port p',
        pt_physp q = Some num ∧ nodes !! pt_node q = Some n
        ∧ physp_table n !! Z.to_nat num = Some p ∧ p_remote_physp p = Some (t, rem_port)
        ∧ 1 ≤ rem_port < OSM_NO_PATH ∧ physp_at nodes t rem_port = Some p'
        ∧ p_remote_physp p' = Some (pt_node q, num))).

(** Where a packet for the port must end up. *)
Definition destination (q : osm_port) : forwarded :=
  if decide (pt_node q ∈ S) then ToSwitch (pt_node q)
  else ToPort (pt_node q) (default 0 (pt_physp q)).

Lemma attached_target q t g :
  attached q t → g ∈ S →
  rp_base_lid nodes S g q
  = if decide (g = t)
    then RpReturn (if decide (pt_node q ∈ S) then 0
                   else from_option snd 0 (num ← pt_physp q; n ← nodes !! pt_node q;
                          p ← physp_table n !! Z.to_nat num; p_remote_physp p))
    else RpSearch (sw_lid nodes t).
Proof.
  intros [Ht [[Hn Hb]|(Hn & num & n & p & rp & p' & E1 & E2 & E3 & E4 & _)]] Hg; unfold rp_base_lid.
  - subst t. rewrite bool_decide_true by done. rewrite (decide_True (P:=pt_node q ∈ S)) by done.
    destruct (Z.eqb_spec (pt_node q) g) as [-> | Hne]; [by rewrite decide_True|].
    by rewrite Hb, decide_False.
  - rewrite bool_decide_false by done. rewrite (decide_False (P:=pt_node q ∈ S)) by done.
    rewrite E1. simpl. rewrite E2. simpl. rewrite E3. simpl. rewrite E4. simpl.
    rewrite bool_decide_true by done.
    destruct (Z.eqb_spec t g) as [-> | Hne]; [by rewrite decide_True|]. by rewrite decide_False.
Qed.

Lemma tables_ok_frame sws sws' : frame sws sws' → tables_ok sws → tables_ok sws'.
Proof.
  intros Hf Ht s sw' Hsw'. specialize (Hf s). rewrite Hsw' in Hf.
  destruct (sws !! s) as [sw|] eqn:E; [|done]. destruct (Ht s sw E) as (H1 & H2 & H3).
  simpl in Hf. injection Hf as E1 E2 E3 E4 _ E6. unfold dimn_ok.
  by rewrite E1, E2, E3, E4, E6.
Qed.

(** A linked port is one of the ports [1 .. np - 1]. *)
Lemma linked_port_in s port p :
  wires_ok → s ∈ S → physp_at nodes s port = Some p → p_remote_physp p ≠ None →
  1 ≤ port < num_physp nodes s.
Proof.
  intros Hw Hs Hp Hr. destruct (Hw s Hs) as (Hlen & p0 & Hp0 & Hr0).
  assert (Hpos : 1 ≤ port).
  { destruct (decide (1 ≤ port)); [done|]. destruct Hr.
    assert (E : physp_at nodes s port = physp_at nodes s 0).
    { unfold physp_at, osm_node_get_physp_ptr. by replace (Z.to_nat port) with (Z.to_nat 0) by lia. }
    congruence. }
  split; [done|]. unfold physp_at in Hp. unfold num_physp.
  destruct (nodes !! s) as [n|] eqn:En; [|done]. simpl in *. specialize (Hlen n eq_refl).
  unfold osm_node_get_physp_ptr in Hp.
  destruct (physp_table n !! Z.to_nat port) as [p'|] eqn:Ep; [|done].
  apply lookup_lt_Some in Ep. rewrite u8_small by lia. lia.
Qed.

(** The route of a switch to a port: the destination, one step closer to the
    port's switch, or nowhere for want of a usable port. *)
Definition next_hop sws (q : osm_port) (t lid s : Z) (sw : osm_switch) : Prop :=
  let e := new_lft sw !!! Z.to_nat lid in
  (s = t ∧ ((pt_node q ∈ S ∧ e = 0)
            ∨ (pt_node q ∉ S ∧ e ≠ 0 ∧ e ≠ OSM_NO_PATH
               ∧ ∃ p num, pt_physp q = Some num ∧ physp_at nodes s e = Some p
                   ∧ p_remote_physp p = Some (pt_node q, num))))
  ∨ (s ≠ t ∧ e ≠ 0 ∧ e ≠ OSM_NO_PATH ∧ hopc nodes sws s t e = hopc nodes sws s t 0
     ∧ ∃ p r rem_port, physp_at nodes s e = Some p
       ∧ p_remote_physp p = Some (r, rem_port) ∧ r ∈ S
       ∧ hopc nodes sws r t 0 < hopc nodes sws s t 0 < OSM_NO_PATH)
  ∨ (s ≠ t ∧ e = OSM_NO_PATH
     ∧ (hopc nodes sws s t 0 = OSM_NO_PATH
        ∨ ∀ p, 1 ≤ p < num_physp nodes s → ¬ least_hop_port nodes s sw (sw_lid nodes t) p)).

Context (Hlmc : 0 ≤ ro_lmc opt ≤ 7) (Hports : ports_ok ports).
Context (Hcalls : 128 * Z.of_nat (length ports) < UINT32_MAX - 1).

(** The calls of the loop over LID offsets and ports reach every LID of a port. *)
Lemma attached_targets q t lid s k :
  wires_ok → ports !! k = Some q → 0 ≤ pt_lmc q ≤ ro_lmc opt → attached q t → in_lids q lid → s ∈ S →
  0 ≤ lid - (port_lid_range q).1 < Z.shiftl 1 (ro_lmc opt)
  ∧ targets nodes S s ports lid (lid - (port_lid_range q).1, k).
Proof.
  intros Hw Hk Hql Hat Hin Hs. pose proof Hat as [Ht Hat']. split.
  - pose proof Hports as Hpo. unfold ports_ok in Hpo. rewrite Forall_forall in Hpo.
    specialize (Hpo q ltac:(by eapply list_elem_of_lookup_2)).
    destruct Hin as [[Hr1 Hr2] _]. unfold port_lid_range in *. simpl in *.
    rewrite !Z.shiftl_1_l in *. pose proof (Z.pow_le_mono_r 2 (pt_lmc q) (ro_lmc opt)).
    pose proof (Z.pow_le_mono_r 2 (pt_lmc q) 7). pose proof (Z.pow_pos_nonneg 2 (pt_lmc q)).
    rewrite u16_small in Hr2 by lia. lia.
  - exists q. split_and!; [done|done|simpl; lia|]. intros r Er.
    rewrite (attached_target q t s Hat Hs) in Er. right.
    destruct (decide (s = t)) as [-> | Hne]; [|done]. injection Er as <-.
    destruct (decide (pt_node q ∈ S)) as [HqS|HqS].
    + destruct (Hw t Ht) as (_ & p & -> & _). by eexists.
    + destruct Hat' as [[<- _]|(_ & num & n & p & rp & p' & -> & -> & E3 & E4 & _ & E5 & _)]; [done|].
      simpl. rewrite E3. simpl. rewrite E4. simpl. rewrite E5. by eexists.
Qed.

Lemma route_next_hop sws q t lid s sw :
  wires_ok → descending nodes S sws → tables_ok sws →
  q ∈ ports → 0 ≤ pt_lmc q ≤ ro_lmc opt → attached q t → in_lids q lid →
  (∀ q', q' ∈ ports → in_lids q' lid → q' = q) →
  sws !! s = Some sw → lid ≤ max_lid_ho sw →
  next_hop sws q t lid s (ucast_mgr_process_tbl opt nodes S rnd ports s sw).
Proof.
  intros Hw Hi Htb Hq Hql Hat Hin Huniq Hsw Hlid.
  pose proof (ds_shape _ _ _ Hi) as Hsh. pose proof Hat as [Ht Hat'].
  assert (Hs : s ∈ S) by (rewrite <-(sh_dom _ _ _ Hsh); by eapply elem_of_dom_2).
  destruct (Htb s sw Hsw) as (Hd & Hprof & Hroom).
  destruct (process_tbl_ok opt nodes S rnd s sw ports Hd Hports Hlmc Hprof Hcalls ltac:(lia))
    as (Eh & Em & En & Hroutes).
  set (sw' := ucast_mgr_process_tbl opt nodes S rnd ports s sw) in *.
  pose proof Hports as Hpo. unfold ports_ok in Hpo. rewrite Forall_forall in Hpo. specialize (Hpo q Hq).
  assert (Hmn : (port_lid_range q).1 = cl_ntoh16 (pt_base_lid q)) by done.
  pose proof (attached_target q t s Hat Hs) as Etgt.
  destruct (Hroutes lid) as [[_ Hnt]|(q' & Hq' & Hin' & Hgr)].
  { destruct Hin as [Hr _]. rewrite Hmn in Hr. lia. }
  { exfalso. apply list_elem_of_lookup in Hq as [k Hk].
    destruct (attached_targets q t lid s k Hw Hk Hql Hat Hin Hs) as [Hi1 Hi2]. by apply (Hnt _ k Hi1). }
  rewrite (Huniq q' Hq' Hin') in Hgr. unfold good_route in Hgr. rewrite Etgt in Hgr.
  unfold next_hop. set (e := new_lft sw' !!! Z.to_nat lid) in *. cbv zeta.
  destruct (decide (s = t)) as [-> | Hne].
  - left. split; [done|]. destruct (decide (pt_node q ∈ S)) as [HqS|HqS]; [by left|right].
    destruct Hat' as [[<- _]|(_ & num & n0 & p & rp & p' & E1 & E2 & E3 & E4 & Hrp & E5 & E6)]; [done|].
    rewrite E1 in Hgr. simpl in Hgr. rewrite E2 in Hgr. simpl in Hgr. rewrite E3 in Hgr. simpl in Hgr.
    rewrite E4 in Hgr. simpl in Hgr. subst rp. unfold OSM_NO_PATH in *.
    split_and!; [done|lia|lia|]. by exists p', num.
  - right. pose proof (sh_ports _ _ _ Hsh _ _ Hsw) as Enp.
    assert (Eh0 : osm_switch_get_least_hops sw (sw_lid nodes t) = hopc nodes sws s t 0)
      by (unfold hopc; by rewrite Hsw).
    assert (Hget : ∀ p, osm_switch_get_hop_count sw' (sw_lid nodes t) p
                        = osm_switch_get_hop_count sw (sw_lid nodes t) p)
      by (intros p; unfold osm_switch_get_hop_count, hop_row; by rewrite Eh, Em).
    destruct Hgr as [[Hl (Ehop & p & Hp & _ & Hr)]|[He Hno]].
    + left. destruct (linked_port_in s e p Hw Hs Hp Hr) as [He1 He2].
      pose proof (ds_range _ _ _ Hi s t 0 Hs Ht ltac:(lia)) as Hrange.
      rewrite Eh0 in Hl, Ehop. unfold OSM_NO_PATH in *.
      assert (Ehop' : hopc nodes sws s t e = hopc nodes sws s t 0)
        by (unfold hopc at 1; by rewrite Hsw).
      destruct (ds_next _ _ _ Hi s t e Hs Ht Hne ltac:(lia) Ehop' ltac:(lia))
        as (p1 & r & rp & Hp1 & Hr1 & Hin1 & Hlt).
      pose proof (np_pos nodes S sws s Hsh Hs).
      split_and!; [done|lia|lia|done|]. exists p1, r, rp. split_and!; [done..|lia].
    + right. split_and!; [done..|].
      destruct (decide (hopc nodes sws s t 0 = OSM_NO_PATH)) as [?|Hn]; [by left|right].
      rewrite <-Eh0 in Hn. intros p Hp. rewrite <-Enp in Hp. specialize (Hno Hn p Hp).
      unfold least_hop_port in *. by rewrite least_hops_eq, !Hget.
Qed.

(** No healthy and linked port of the switch attains its least hop count to [t]. *)
Definition blocked (sws : gmap Z osm_switch) (t s : Z) : Prop :=
  ∃ sw, sws !! s = Some sw
    ∧ ∀ p, 1 ≤ p < num_physp nodes s → ¬ least_hop_port nodes s sw (sw_lid nodes t) p.

Lemma forward_ok sws q t lid fuel s :
  wires_ok → descending nodes S sws → tables_ok sws →
  q ∈ ports → 0 ≤ pt_lmc q ≤ ro_lmc opt → attached q t → in_lids q lid →
  (∀ q', q' ∈ ports → in_lids q' lid → q' = q) →
  (∀ s sw, sws !! s = Some sw → lid ≤ max_lid_ho sw) →
  s ∈ S → (Z.to_nat (hopc nodes sws s t 0) < fuel)%nat →
  let sws' := ucast_mgr_build_lfts opt nodes S rnd ports sws in
  let r := forward nodes sws' lid fuel s in
  r = destination q
  ∨ ∃ s', s' ∈ S ∧ r = NoRoute s'
      ∧ ((s' = s ∧ hopc nodes sws s t 0 = OSM_NO_PATH)
         ∨ (s' ≠ t ∧ hopc nodes sws s' t 0 ≠ OSM_NO_PATH ∧ blocked sws' t s')).
Proof.
  intros Hw Hi Htb Hq Hql Hat Hin Huniq Hlid Hs. pose proof (ds_shape _ _ _ Hi) as Hsh.
  revert s Hs. induction fuel as [|fuel IH]; intros s Hs Hfuel; [lia|].
  destruct (shape_lookup nodes S sws s Hsh Hs) as [sw Hsw].
  pose proof (route_next_hop sws q t lid s sw Hw Hi Htb Hq Hql Hat Hin Huniq Hsw (Hlid s sw Hsw))
    as Hnext.
  assert (Hsw' : ucast_mgr_build_lfts opt nodes S rnd ports sws !! s
                 = Some (ucast_mgr_process_tbl opt nodes S rnd ports s sw))
    by (unfold ucast_mgr_build_lfts; by rewrite map_lookup_imap, Hsw).
  assert (Hdom : dom (ucast_mgr_build_lfts opt nodes S rnd ports sws) = S).
  { rewrite <-(sh_dom _ _ _ Hsh). apply set_eq. intros g. rewrite !elem_of_dom.
    unfold ucast_mgr_build_lfts. rewrite map_lookup_imap. destruct (sws !! g); simpl; by split. }
  cbv zeta. cbn [forward]. rewrite Hsw'. unfold next_hop in Hnext. cbv zeta in Hnext.
  set (e := new_lft _ !!! Z.to_nat lid) in *.
  destruct Hnext as [(-> & [[HqS He]|(HqS & He & Hn & p & num & E1 & Hp & Hr)])
                    |[(Hne & He & Hn & _ & p & r & rp & Hp & Hr & HrS & Hlt)|(Hne & He & Hwhy)]].
  - left. rewrite He. simpl. destruct Hat as [Ht [[<- _]|[? _]]]; [|done].
    unfold destination. by rewrite decide_True.
  - left. destruct (Z.eqb_spec e OSM_NO_PATH), (Z.eqb_spec e 0); [done..|]. rewrite Hp. simpl.
    rewrite Hr, Hdom, bool_decide_false by done. unfold destination.
    by rewrite decide_False, E1 by done.
  - destruct (Z.eqb_spec e OSM_NO_PATH), (Z.eqb_spec e 0); [done..|]. rewrite Hp. simpl.
    rewrite Hr, Hdom, bool_decide_true by done.
    destruct (IH r HrS) as [?|(s' & Hs' & Hno & Hwhy)]; [|by left|right].
    { pose proof (ds_range _ _ _ Hi r t 0 HrS (proj1 Hat) ltac:(pose proof (np_pos nodes S sws r Hsh HrS); lia)). lia. }
    exists s'. split_and!; [done..|]. destruct Hwhy as [[-> E]|?]; [unfold OSM_NO_PATH in *; lia|by right].
  - right. exists s. rewrite He. simpl. split_and!; [done..|].
    destruct (decide (hopc nodes sws s t 0 = OSM_NO_PATH)) as [?|Hn]; [by left|right].
    destruct Hwhy as [?|Hwhy]; [done|]. split_and!; [done..|]. by eexists.
Qed.
End Delivery.

(** A healthy and linked port that attains the least count unblocks a switch. *)
Lemma not_blocked {BO : ByteOrder} opt nodes S rnd ports sws t s port p :
  0 ≤ ro_lmc opt ≤ 7 → ports_ok ports → 128 * Z.of_nat (length ports) < UINT32_MAX - 1 →
  tables_ok sws → s ∈ dom sws → 1 ≤ port < num_physp nodes s →
  hopc nodes sws s t port = hopc nodes sws s t 0 →
  physp_at nodes s port = Some p → healthy p = true → p_remote_physp p ≠ None →
  ¬ blocked nodes (ucast_mgr_build_lfts opt nodes S rnd ports sws) t s.
Proof.
  intros H1 H2 H3 Htb Hs Hport E Hp Hh Hr (sw' & Hsw' & Hbl). apply (Hbl port Hport).
  apply elem_of_dom in Hs as [sw Hsw].
  unfold ucast_mgr_build_lfts in Hsw'. rewrite map_lookup_imap, Hsw in Hsw'. simpl in Hsw'.
  injection Hsw' as <-. split; [|by exists p].
  destruct (Htb s sw Hsw) as (Hd & Hprof & Hroom).
  destruct (process_tbl_ok opt nodes S rnd s sw ports Hd H2 H1 Hprof H3 ltac:(lia)) as (Eh & Em & _ & _).
  rewrite least_hops_eq. unfold hopc in E. rewrite Hsw in E. simpl in E.
  unfold osm_switch_get_hop_count, hop_row in *. by rewrite Eh, Em.
Qed.

(** What a routed subnet starts from: the graph, cleared tables, and a port list in
    which one port owns the LID. *)
Record routing_ok {BO : ByteOrder} (opt : route_opts) (nodes : gmap Z osm_node) (S : gset Z)
    (ports : list osm_port) (sws : gmap Z osm_switch) (q : osm_port) (t lid : Z) : Prop := {
  ro_lmc_ok : 0 ≤ ro_lmc opt ≤ 7;
  ro_ports_ok : ports_ok ports;
  ro_calls_ok : 128 * Z.of_nat (length ports) < UINT32_MAX - 1;
  ro_graph_ok : graph_ok nodes S;
  ro_wires_ok : wires_ok nodes S;
  ro_start_ok : matrix_start nodes S sws;
  ro_tables_ok : tables_ok sws;
  ro_max_lid s sw : sws !! s = Some sw → lid ≤ max_lid_ho sw;
  ro_port : q ∈ ports;
  ro_port_lmc : 0 ≤ pt_lmc q ≤ ro_lmc opt;
  ro_attached : attached nodes S q t;
  ro_lid : in_lids q lid;
  ro_owner q' : q' ∈ ports → in_lids q' lid → q' = q
}.

Lemma minhop_forward {BO : ByteOrder} opt nodes S rnd ports sws q t lid s :
  routing_ok opt nodes S ports sws q t lid → s ∈ S →
  let sws1 := build_matrices nodes sws in
  let sws2 := ucast_mgr_build_lfts opt nodes S rnd ports sws1 in
  let r := forward nodes sws2 lid 256 s in
  r = destination S q
  ∨ ∃ s', s' ∈ S ∧ r = NoRoute s'
      ∧ ((s' = s ∧ hopc nodes sws1 s t 0 = OSM_NO_PATH)
         ∨ (s' ≠ t ∧ hopc nodes sws1 s' t 0 ≠ OSM_NO_PATH ∧ blocked nodes sws2 t s')).
Proof.
  intros [R1 R2 R3 R4 R5 R6 R7 R8 R9 R10 R11 R12 R13] Hs.
  destruct (build_matrices_inv nodes S sws R4 R6) as [Hi _].
  pose proof (build_matrices_frame nodes sws) as Hf.
  apply (forward_ok opt nodes S rnd ports R1 R2 R3 (build_matrices nodes sws) q t lid 256 s); try done.
  - by apply matrix_descending.
  - by apply (tables_ok_frame sws).
  - intros s' sw' Hsw'. specialize (Hf s'). rewrite Hsw' in Hf.
    destruct (sws !! s') as [sw|] eqn:E; [|done]. simpl in Hf. injection Hf as _ -> _ _ _ _.
    by eapply R8.
  - destruct R11 as [Ht _].
    pose proof (mi_range _ _ _ Hi s t 0 Hs Ht ltac:(pose proof (np_pos nodes S _ s (mi_shape _ _ _ Hi) Hs); lia)).
    lia.
Qed.

(** C15. Routing by least hops has no loops.  With the forwarding tables of
    [ucast_mgr_build_lfts], whatever the options, the order of the ports, the
    existing tables and the random choices, a packet for a LID of a port that
    enters any switch leaves the switches at that port (or is consumed by the
    switch that owns the LID) within 256 hops, unless it is dropped: at its first
    switch when that has no path, or at a switch none of whose ports on a least-hop
    path is healthy and linked. *)
Theorem minhop_loop_free {BO : ByteOrder} opt nodes S rnd ports sws q t lid s :
  routing_ok opt nodes S ports sws q t lid → s ∈ S →
  let sws1 := build_matrices nodes sws in
  let sws2 := ucast_mgr_build_lfts opt nodes S rnd ports sws1 in
  let r := forward nodes sws2 lid 256 s in
  r = destination S q
  ∨ ∃ s', s' ∈ S ∧ r = NoRoute s'
      ∧ ((s' = s ∧ hopc nodes sws1 s t 0 = OSM_NO_PATH)
         ∨ (s' ≠ t ∧ hopc nodes sws1 s' t 0 ≠ OSM_NO_PATH ∧ blocked nodes sws2 t s')).
Proof. exact (minhop_forward opt nodes S rnd ports sws q t lid s). Qed.

(** C16. Routing by least hops reaches every port.  When the ports of the switches
    are healthy, a packet for a LID of a port is delivered from every switch that
    has a walk of weight below 255 to the port's switch. *)
Theorem minhop_delivers {BO : ByteOrder} opt nodes S rnd ports sws q t lid s l w :
  routing_ok opt nodes S ports sws q t lid → s ∈ S →
  (∀ g port p, g ∈ S → physp_at nodes g port = Some p → healthy p = true) →
  s = t ∨ (walk nodes S t s l w ∧ w < OSM_NO_PATH) →
  forward nodes (ucast_mgr_build_lfts opt nodes S rnd ports (build_matrices nodes sws)) lid 256 s
  = destination S q.
Proof.
  intros Hr Hs Hh Hw. pose proof Hr as [_ _ _ Hg _ Hst _ _ _ _ [Ht _] _ _].
  destruct (build_matrices_inv nodes S sws Hg Hst) as [Hi Hb].
  destruct (minhop_forward opt nodes S rnd ports sws q t lid s Hr Hs)
    as [?|(s' & Hs' & _ & Hwhy)]; [done|exfalso].
  destruct Hwhy as [[-> E]|(Hne & Hn & Hbl)].
  { destruct Hw as [-> | [Hw Hlt]]; [by rewrite (mi_self _ _ _ Hi t Ht) in E|].
    specialize (Hb t s l w Ht Hw). lia. }
  (* some port attains the least count, and its link is healthy *)
  pose proof (mi_shape _ _ _ Hi) as Hsh. pose proof (np_pos nodes S _ s' Hsh Hs').
  pose proof (mi_range _ _ _ Hi s' t 0 Hs' Ht ltac:(lia)). unfold OSM_NO_PATH in Hn.
  destruct (mi_attained _ _ _ Hi s' t Hs' Ht ltac:(lia)) as [?|(port & Hp & E)]; [done|].
  destruct (mi_sound _ _ _ Hi s' t port Hs' Ht Hp ltac:(lia)) as (w' & h & r & Hl & _).
  destruct Hl as (_ & p & rp & Hpp & Hrem & _). destruct Hr as [R1 R2 R3 _ _ _ R7 _ _ _ _ _ _].
  revert Hbl. apply (not_blocked _ _ _ _ _ _ _ _ port p); try done.
  - apply (tables_ok_frame sws); [apply build_matrices_frame|done].
  - by rewrite (sh_dom _ _ _ Hsh).
  - by eapply Hh.
  - congruence.
Qed.
