(* ===== verification/McastTbl.v ===== *)
(** * Multicast forwarding tables: [opensm/osm_mcast_tbl.c]

    A table has a row of 16 port masks, of 16 ports each, for every MLID from
    [IB_LID_MCAST_START_HO]; a mask is kept in network order.  The rows are allocated
    in blocks of 32, the unit in which they are sent to the switch.  The array is a
    list of rows; reads and writes outside of it, which the code rules out by
    assertions, find 0 and change nothing here. *)

From S2P Require Import Prelude IbTypes.

Open Scope Z_scope.

Definition IB_LID_MCAST_START_HO : Z := 0xC000.
Definition IB_LID_MCAST_END_HO : Z := 0xFFFE.
Definition IB_MCAST_BLOCK_SIZE : Z := 32.
Definition IB_MCAST_MASK_SIZE : Z := 16.
Definition IB_MCAST_POSITION_MAX : Z := 15.

Definition ROUNDUP (val align : Z) : Z :=
  val / align * align + (if val mod align =? 0 then 0 else align).

Record osm_mcast_tbl := McastTbl {
  mt_num_ports : Z;
  max_position : Z;
  max_block : Z;
  max_block_in_use : Z;
  num_entries : Z;
  max_mlid_ho : Z;
  mft_depth : Z;
  p_mask_tbl : option (list (list Z))    (* [None] before the first allocation *)
}.

#[export] Instance osm_mcast_tbl_eta : Eta osm_mcast_tbl := λ t,
  McastTbl (mt_num_ports t) (max_position t) (max_block t) (max_block_in_use t) (num_entries t)
    (max_mlid_ho t) (mft_depth t) (p_mask_tbl t).

Definition osm_mcast_tbl_init (num_ports capacity : Z) : osm_mcast_tbl :=
  let p_tbl := McastTbl 0 0 0 (-1) 0 0 0 None in
  if capacity =? 0 then p_tbl
  else
    p_tbl <| num_entries := capacity |> <| mt_num_ports := num_ports |>
          <| max_position := u8 (ROUNDUP num_ports IB_MCAST_MASK_SIZE / IB_MCAST_MASK_SIZE - 1) |>
          <| max_block := u16 (ROUNDUP capacity IB_MCAST_BLOCK_SIZE / IB_MCAST_BLOCK_SIZE - 1) |>.

Section Table.
Context {BO : ByteOrder}.
Implicit Types tbl : osm_mcast_tbl.

Definition bit_mask (port : Z) : Z := cl_ntoh16 (u16 (Z.shiftl 1 (port mod IB_MCAST_MASK_SIZE))).

Definition mask_offset (port : Z) : nat := Z.to_nat (port / IB_MCAST_MASK_SIZE).

(** The mask at an offset and a position. *)
Definition mask_at tbl (mlid_offset position : Z) : Z :=
  default 0 (rows ← p_mask_tbl tbl; row ← rows !! Z.to_nat mlid_offset; row !! Z.to_nat position).

Definition osm_mcast_tbl_set tbl (mlid_ho port : Z) : osm_mcast_tbl :=
  let mlid_offset := mlid_ho - IB_LID_MCAST_START_HO in
  let block_num := mlid_offset / IB_MCAST_BLOCK_SIZE in
  let tbl := tbl <| p_mask_tbl :=
    alter (alter (λ m, Z.lor m (bit_mask port)) (mask_offset port)) (Z.to_nat mlid_offset)
      <$> p_mask_tbl tbl |> in
  if max_block_in_use tbl <? block_num then tbl <| max_block_in_use := block_num |> else tbl.

Definition osm_mcast_tbl_realloc tbl (mlid_offset : Z) : osm_mcast_tbl :=
  let tbl :=
    if mlid_offset <? mft_depth tbl then tbl
    else
      let depth := (mlid_offset / IB_MCAST_BLOCK_SIZE + 1) * IB_MCAST_BLOCK_SIZE in
      tbl <| p_mask_tbl := Some (default [] (p_mask_tbl tbl)
               ++ replicate (Z.to_nat (depth - mft_depth tbl))
                    (replicate (Z.to_nat (IB_MCAST_POSITION_MAX + 1)) 0)) |>
          <| mft_depth := u16 depth |> in
  tbl <| max_mlid_ho := u16 (mlid_offset + IB_LID_MCAST_START_HO) |>.

Definition osm_mcast_tbl_is_port tbl (mlid_ho port_num : Z) : bool :=
  match p_mask_tbl tbl with
  | None => false
  | Some _ =>
      Z.land (mask_at tbl (mlid_ho - IB_LID_MCAST_START_HO) (port_num / IB_MCAST_MASK_SIZE))
        (bit_mask port_num) =? bit_mask port_num
  end.

Definition osm_mcast_tbl_is_any_port tbl (mlid_ho : Z) : bool :=
  match p_mask_tbl tbl with
  | None => false
  | Some _ =>
      negb (foldl (λ result position,
              Z.lor result (mask_at tbl (mlid_ho - IB_LID_MCAST_START_HO) position)) 0
              (seqZ 0 (max_position tbl + 1)) =? 0)
  end.

(** The offsets of a block. *)
Definition block_rows (block_num : Z) : list Z :=
  seqZ (u16 (block_num * IB_MCAST_BLOCK_SIZE)) IB_MCAST_BLOCK_SIZE.

(** [None] is [IB_INVALID_PARAMETER]. *)
Definition osm_mcast_tbl_set_block tbl (p_block : list Z) (block_num position : Z)
    : option osm_mcast_tbl :=
  if max_block tbl <? block_num then None
  else if max_position tbl <? position then None
  else if mft_depth tbl <? u16 (block_num * IB_MCAST_BLOCK_SIZE) + IB_MCAST_BLOCK_SIZE - 1 then None
  else
    let tbl := tbl <| p_mask_tbl :=
      (λ rows, foldl (λ rows (e : Z * Z),
        alter (λ row, <[Z.to_nat position := e.2]> row) (Z.to_nat e.1) rows)
        rows (zip (block_rows block_num) p_block)) <$> p_mask_tbl tbl |> in
    Some (if max_block_in_use tbl <? block_num
          then tbl <| max_block_in_use := u16 block_num |> else tbl).

Definition osm_mcast_tbl_clear_mlid tbl (mlid_ho : Z) : osm_mcast_tbl :=
  let mlid_offset := mlid_ho - IB_LID_MCAST_START_HO in
  if mlid_offset <? mft_depth tbl
  then tbl <| p_mask_tbl :=
    alter (λ _, replicate (Z.to_nat (IB_MCAST_POSITION_MAX + 1)) 0) (Z.to_nat mlid_offset)
      <$> p_mask_tbl tbl |>
  else tbl.

(** [None] is [FALSE]. *)
Definition osm_mcast_tbl_get_block tbl (block_num position : Z) : option (list Z) :=
  if max_block_in_use tbl <? block_num then None
  else if max_position tbl <? position
  then Some (replicate (Z.to_nat IB_MCAST_BLOCK_SIZE) 0)
  else Some ((λ i, mask_at tbl i position) <$> block_rows block_num).

(** ** Masks *)

(** The bit of a port in the mask as the host sees it. *)
Definition port_bit (port : Z) : Z :=
  let k := port mod IB_MCAST_MASK_SIZE in
  if cpu_le then (if k <? 8 then k + 8 else k - 8) else k.

Lemma bit_mask_port_bit port : bit_mask port = Z.shiftl 1 (port_bit port).
Proof.
  unfold bit_mask, port_bit, IB_MCAST_MASK_SIZE. pose proof (Z.mod_pos_bound port 16 ltac:(lia)) as Hk.
  set (k := port mod 16) in *. clearbody k. unfold cl_ntoh16.
  assert (Hc : k ∈ seqZ 0 16) by (apply elem_of_seqZ; lia).
  assert (Hall : Forall (λ k,
    (if cpu_le then Z.lor (Z.shiftl (Z.land (u16 (Z.shiftl 1 k)) 0xFF) 8)
                      (Z.shiftr (Z.land (u16 (Z.shiftl 1 k)) 0xFF00) 8)
     else u16 (Z.shiftl 1 k))
    = Z.shiftl 1 (if cpu_le then if k <? 8 then k + 8 else k - 8 else k)) (seqZ 0 16))
    by (destruct cpu_le; by repeat constructor).
  rewrite Forall_forall in Hall. by apply Hall.
Qed.

Lemma port_bit_range port : 0 ≤ port_bit port < 16.
Proof.
  unfold port_bit, IB_MCAST_MASK_SIZE. pose proof (Z.mod_pos_bound port 16 ltac:(lia)).
  destruct cpu_le; [case_match|]; lia.
Qed.

Lemma port_bit_inj p q : p mod 16 ≠ q mod 16 → port_bit p ≠ port_bit q.
Proof.
  unfold port_bit, IB_MCAST_MASK_SIZE. pose proof (Z.mod_pos_bound p 16 ltac:(lia)).
  pose proof (Z.mod_pos_bound q 16 ltac:(lia)). intros Hne.
  destruct cpu_le; [|done]. destruct (Z.ltb_spec (p mod 16) 8), (Z.ltb_spec (q mod 16) 8); lia.
Qed.

Lemma land_bit m b : 0 ≤ b → (Z.land m (Z.shiftl 1 b) =? Z.shiftl 1 b) = Z.testbit m b.
Proof.
  intros Hb. rewrite Z.shiftl_1_l.
  destruct (Z.testbit m b) eqn:E; [apply Z.eqb_eq|apply Z.eqb_neq].
  - apply Z.bits_inj'. intros n Hn. rewrite Z.land_spec, Z.pow2_bits_eqb by done.
    destruct (Z.eqb_spec b n) as [<-|]; by rewrite ?E, ?andb_false_r.
  - intros H. apply (f_equal (λ z, Z.testbit z b)) in H.
    rewrite Z.land_spec, Z.pow2_bits_true, E in H by done. done.
Qed.

Lemma is_port_testbit tbl mlid port :
  p_mask_tbl tbl ≠ None →
  osm_mcast_tbl_is_port tbl mlid port
  = Z.testbit (mask_at tbl (mlid - IB_LID_MCAST_START_HO) (port / IB_MCAST_MASK_SIZE)) (port_bit port).
Proof.
  intros Hn. unfold osm_mcast_tbl_is_port. destruct (p_mask_tbl tbl); [|done].
  rewrite bit_mask_port_bit. apply land_bit. apply port_bit_range.
Qed.

(** ** The invariant *)

(** The sizes of the array, masks of 16 bits, and nothing outside the blocks in use
    and the positions of the switch's ports. *)
Record tbl_wf tbl : Prop := {
  tw_depth : mft_depth tbl = Z.of_nat (length (default [] (p_mask_tbl tbl)));
  tw_blocks : ∃ k, mft_depth tbl = k * IB_MCAST_BLOCK_SIZE ∧ k ≤ 512;
  tw_rows row : row ∈ default [] (p_mask_tbl tbl) → length row = 16%nat;
  tw_mask o pos : 0 ≤ o → 0 ≤ pos → 0 ≤ mask_at tbl o pos < 2 ^ 16;
  tw_used o pos : 0 ≤ o → 0 ≤ pos → mask_at tbl o pos ≠ 0 → o / IB_MCAST_BLOCK_SIZE ≤ max_block_in_use tbl;
  tw_position o pos : 0 ≤ o → 0 ≤ pos → mask_at tbl o pos ≠ 0 → pos ≤ max_position tbl;
  tw_in_use : -1 ≤ max_block_in_use tbl < 512;
  tw_max_position : 0 ≤ max_position tbl ≤ IB_MCAST_POSITION_MAX
}.

(** Ports 0 .. 255 for which the table has positions. *)
Definition port_ok tbl (port : Z) : Prop := 0 ≤ port < (max_position tbl + 1) * IB_MCAST_MASK_SIZE.

Definition offset_ok tbl (o : Z) : Prop := 0 ≤ o < mft_depth tbl.

Lemma bit_mask_range port : 0 < bit_mask port < 2 ^ 16.
Proof.
  rewrite bit_mask_port_bit, Z.shiftl_1_l. pose proof (port_bit_range port).
  split; [apply Z.pow_pos_nonneg; lia|apply Z.pow_lt_mono_r; lia].
Qed.

Lemma tbl_allocated tbl o : tbl_wf tbl → offset_ok tbl o → p_mask_tbl tbl ≠ None.
Proof. intros [Hd _ _ _ _ _ _ _] Ho E. unfold offset_ok in Ho. rewrite Hd, E in Ho. simpl in Ho. lia. Qed.

Lemma set_mask_at tbl mlid port o pos :
  tbl_wf tbl → offset_ok tbl (mlid - IB_LID_MCAST_START_HO) → port_ok tbl port → 0 ≤ o → 0 ≤ pos →
  mask_at (osm_mcast_tbl_set tbl mlid port) o pos
  = if decide (o = mlid - IB_LID_MCAST_START_HO ∧ pos = port / IB_MCAST_MASK_SIZE)
    then Z.lor (mask_at tbl o pos) (bit_mask port) else mask_at tbl o pos.
Proof.
  intros Hwf Ho Hp Ho' Hpos. pose proof (tbl_allocated _ _ Hwf Ho) as Hn.
  destruct Hwf as [Hd _ Hrows _ _ _ _ Hmp]. unfold offset_ok, port_ok, IB_MCAST_MASK_SIZE, IB_MCAST_POSITION_MAX in *.
  set (o0 := mlid - IB_LID_MCAST_START_HO) in *.
  assert (E : mask_at (osm_mcast_tbl_set tbl mlid port) o pos
    = default 0 (rows ← alter (alter (λ m, Z.lor m (bit_mask port)) (mask_offset port)) (Z.to_nat o0)
        <$> p_mask_tbl tbl; row ← rows !! Z.to_nat o; row !! Z.to_nat pos)).
  { unfold mask_at, osm_mcast_tbl_set. cbv zeta. by case_match. }
  rewrite E. unfold mask_at. destruct (p_mask_tbl tbl) as [rows|]; [|done]. simpl in *. clear E.
  assert (Hq : 0 ≤ port / 16) by (apply Z.div_pos; lia).
  assert (Hq' : port / 16 < 16) by (apply Z.div_lt_upper_bound; lia).
  destruct (decide (o = o0)) as [->|Hne].
  2:{ rewrite list_lookup_alter_ne by lia. by rewrite decide_False by naive_solver. }
  rewrite list_lookup_alter_eq.
  destruct (lookup_lt_is_Some_2 rows (Z.to_nat o0)) as [row Hrow]; [lia|]. rewrite Hrow. simpl.
  unfold mask_offset, IB_MCAST_MASK_SIZE. destruct (decide (pos = port / 16)) as [->|Hne].
  - rewrite list_lookup_alter_eq, decide_True by done.
    destruct (lookup_lt_is_Some_2 row (Z.to_nat (port / 16))) as [m Hm].
    { rewrite (Hrows row) by (by eapply list_elem_of_lookup_2). lia. }
    by rewrite Hm.
  - rewrite list_lookup_alter_ne by lia. by rewrite decide_False by naive_solver.
Qed.

Lemma set_fields tbl mlid port :
  let tbl' := osm_mcast_tbl_set tbl mlid port in
  max_position tbl' = max_position tbl ∧ mft_depth tbl' = mft_depth tbl
  ∧ max_block_in_use tbl'
    = Z.max (max_block_in_use tbl) ((mlid - IB_LID_MCAST_START_HO) / IB_MCAST_BLOCK_SIZE)
  ∧ (p_mask_tbl tbl' = None ↔ p_mask_tbl tbl = None).
Proof.
  unfold osm_mcast_tbl_set. cbv zeta.
  change (max_block_in_use (tbl <| p_mask_tbl := _ |>)) with (max_block_in_use tbl).
  destruct (Z.ltb_spec (max_block_in_use tbl) ((mlid - IB_LID_MCAST_START_HO) / IB_MCAST_BLOCK_SIZE));
    simpl; split_and!; try done; try lia; by rewrite fmap_None.
Qed.

Lemma set_wf tbl mlid port :
  tbl_wf tbl → offset_ok tbl (mlid - IB_LID_MCAST_START_HO) → port_ok tbl port →
  tbl_wf (osm_mcast_tbl_set tbl mlid port).
Proof.
  intros Hwf Ho Hp. destruct (set_fields tbl mlid port) as (E1 & E2 & E3 & _).
  pose proof (λ o pos, set_mask_at tbl mlid port o pos Hwf Ho Hp) as Hm.
  pose proof Hwf as [Hd [k [Hk Hk']] Hrows Hmask Hu Hpos Hb Hmp].
  assert (Erows : length (default [] (p_mask_tbl (osm_mcast_tbl_set tbl mlid port)))
    = length (default [] (p_mask_tbl tbl))
    ∧ ∀ row, row ∈ default [] (p_mask_tbl (osm_mcast_tbl_set tbl mlid port)) → length row = 16%nat).
  { assert (E : p_mask_tbl (osm_mcast_tbl_set tbl mlid port)
      = alter (alter (λ m, Z.lor m (bit_mask port)) (mask_offset port))
          (Z.to_nat (mlid - IB_LID_MCAST_START_HO)) <$> p_mask_tbl tbl)
      by (unfold osm_mcast_tbl_set; cbv zeta; by case_match).
    rewrite E. destruct (p_mask_tbl tbl) as [rows|]; simpl in *; [|by split].
    split; [by rewrite length_alter|]. intros row (i & Hi)%list_elem_of_lookup.
    destruct (decide (i = Z.to_nat (mlid - IB_LID_MCAST_START_HO))) as [-> | Hne].
    - rewrite list_lookup_alter_eq in Hi. apply fmap_Some in Hi as (r & Hr & ->).
      rewrite length_alter. apply Hrows. by eapply list_elem_of_lookup_2.
    - rewrite list_lookup_alter_ne in Hi by done. apply Hrows. by eapply list_elem_of_lookup_2. }
  destruct Erows as [El Er]. unfold offset_ok, port_ok, IB_MCAST_MASK_SIZE, IB_MCAST_BLOCK_SIZE in *.
  split; rewrite ?E1, ?E2, ?E3; try done.
  - by rewrite El.
  - by exists k.
  - intros o pos H1 H2. rewrite Hm by done. case_decide; [|by apply Hmask]. pose proof (bit_mask_range port).
    specialize (Hmask o pos H1 H2). apply (ntoh_range 16); [lia| |apply Z.lor_nonneg; lia].
    intros i Hi. rewrite Z.lor_spec, !(testbit_above 16) by lia. done.
  - intros o pos H1 H2. rewrite Hm by done. case_decide as Hc.
    + destruct Hc as [-> _]. unfold IB_MCAST_BLOCK_SIZE. lia.
    + intros H. specialize (Hu o pos H1 H2 H). unfold IB_MCAST_BLOCK_SIZE. lia.
  - intros o pos H1 H2. rewrite Hm by done. case_decide as Hc; [|by apply Hpos].
    destruct Hc as [_ ->]. intros _. assert (port / 16 < max_position tbl + 1); [|lia].
    apply Z.div_lt_upper_bound; lia.
  - unfold IB_MCAST_BLOCK_SIZE. split; [lia|].
    assert ((mlid - IB_LID_MCAST_START_HO) / 32 < 512); [|lia].
    apply Z.div_lt_upper_bound; lia.
Qed.

(** [osm_mcast_tbl_set] adds one port. *)
Lemma set_is_port tbl mlid port mlid' port' :
  tbl_wf tbl → offset_ok tbl (mlid - IB_LID_MCAST_START_HO) → port_ok tbl port →
  IB_LID_MCAST_START_HO ≤ mlid' → 0 ≤ port' →
  osm_mcast_tbl_is_port (osm_mcast_tbl_set tbl mlid port) mlid' port'
  = bool_decide (mlid' = mlid ∧ port' = port) || osm_mcast_tbl_is_port tbl mlid' port'.
Proof.
  intros Hwf Ho Hp Hm Hp'. pose proof (tbl_allocated _ _ Hwf Ho) as Hn.
  destruct (set_fields tbl mlid port) as (_ & _ & _ & E).
  rewrite !is_port_testbit by (by rewrite ?E).
  rewrite set_mask_at by (done || lia || apply Z.div_pos; unfold IB_MCAST_MASK_SIZE; lia).
  unfold IB_MCAST_MASK_SIZE, port_ok in *. case_decide as Hc.
  - destruct Hc as [H1 H2]. rewrite Z.lor_spec, bit_mask_port_bit, Z.shiftl_1_l, Z.pow2_bits_eqb
      by apply port_bit_range. rewrite orb_comm. f_equal.
    pose proof (Z.div_mod port 16 ltac:(lia)). pose proof (Z.div_mod port' 16 ltac:(lia)).
    destruct (decide (port mod 16 = port' mod 16)) as [Em|Em].
    + assert (port = port') as -> by lia. rewrite Z.eqb_refl, bool_decide_true by lia. done.
    + rewrite bool_decide_false by naive_solver. apply Z.eqb_neq. by apply port_bit_inj.
  - rewrite bool_decide_false; [done|]. intros [-> ->]. by apply Hc.
Qed.

(** *** Clearing a row *)

Lemma clear_mask_at tbl mlid o pos :
  tbl_wf tbl → IB_LID_MCAST_START_HO ≤ mlid → 0 ≤ o → 0 ≤ pos →
  mask_at (osm_mcast_tbl_clear_mlid tbl mlid) o pos
  = if decide (o = mlid - IB_LID_MCAST_START_HO) then 0 else mask_at tbl o pos.
Proof.
  intros Hwf Hm Ho Hpos. unfold osm_mcast_tbl_clear_mlid. cbv zeta. set (o0 := mlid - _) in *.
  destruct Hwf as [Hd _ _ _ _ _ _ _]. destruct (Z.ltb_spec o0 (mft_depth tbl)) as [Hlt|Hge].
  - unfold mask_at. simpl. destruct (p_mask_tbl tbl) as [rows|]; simpl in *; [|by case_decide].
    destruct (decide (o = o0)) as [->|Hne].
    + rewrite list_lookup_alter_eq.
      destruct (rows !! Z.to_nat o0) as [row|]; simpl; [|done].
      match goal with |- default 0 ?x = 0 => destruct x as [m|] eqn:E; [|done] end.
      by apply (lookup_replicate 16) in E as [-> _].
    + by rewrite list_lookup_alter_ne by lia.
  - case_decide as Hc; [|done]. subst o. unfold mask_at.
    destruct (p_mask_tbl tbl) as [rows|]; simpl in *; [|done].
    by rewrite lookup_ge_None_2 by lia.
Qed.

Lemma clear_fields tbl mlid :
  let tbl' := osm_mcast_tbl_clear_mlid tbl mlid in
  max_position tbl' = max_position tbl ∧ mft_depth tbl' = mft_depth tbl
  ∧ max_block_in_use tbl' = max_block_in_use tbl ∧ (p_mask_tbl tbl' = None ↔ p_mask_tbl tbl = None).
Proof.
  unfold osm_mcast_tbl_clear_mlid. cbv zeta. case_match; [|done]. simpl.
  split_and!; [done..|by rewrite fmap_None].
Qed.

Lemma clear_tbl_wf tbl mlid :
  tbl_wf tbl → IB_LID_MCAST_START_HO ≤ mlid → tbl_wf (osm_mcast_tbl_clear_mlid tbl mlid).
Proof.
  intros Hwf Hm. destruct (clear_fields tbl mlid) as (E1 & E2 & E3 & _).
  pose proof (λ o pos, clear_mask_at tbl mlid o pos Hwf Hm) as Hma.
  pose proof Hwf as [Hd Hk Hrows Hmask Hu Hpos Hb Hmp].
  assert (Erows : length (default [] (p_mask_tbl (osm_mcast_tbl_clear_mlid tbl mlid)))
    = length (default [] (p_mask_tbl tbl))
    ∧ ∀ row, row ∈ default [] (p_mask_tbl (osm_mcast_tbl_clear_mlid tbl mlid)) → length row = 16%nat).
  { unfold osm_mcast_tbl_clear_mlid. cbv zeta. destruct (_ <? _); [|done]. simpl.
    destruct (p_mask_tbl tbl) as [rows|]; simpl in *; [|by split].
    split; [by rewrite length_alter|]. intros row (i & Hi)%list_elem_of_lookup.
    destruct (decide (i = Z.to_nat (mlid - IB_LID_MCAST_START_HO))) as [-> | Hne].
    - rewrite list_lookup_alter_eq in Hi. by apply fmap_Some in Hi as (r & Hr & ->).
    - rewrite list_lookup_alter_ne in Hi by done. apply Hrows. by eapply list_elem_of_lookup_2. }
  destruct Erows as [El Er]. split; rewrite ?E1, ?E2, ?E3; try done.
  - by rewrite El.
  - intros o pos H1 H2. rewrite Hma by done. case_decide; [lia|by apply Hmask].
  - intros o pos H1 H2. rewrite Hma by done. case_decide; [done|by apply Hu].
  - intros o pos H1 H2. rewrite Hma by done. case_decide; [done|by apply Hpos].
Qed.

Lemma clear_is_port tbl mlid mlid' port :
  tbl_wf tbl → IB_LID_MCAST_START_HO ≤ mlid → IB_LID_MCAST_START_HO ≤ mlid' → 0 ≤ port →
  osm_mcast_tbl_is_port (osm_mcast_tbl_clear_mlid tbl mlid) mlid' port
  = negb (bool_decide (mlid' = mlid)) && osm_mcast_tbl_is_port tbl mlid' port.
Proof.
  intros Hwf Hm Hm' Hp. destruct (clear_fields tbl mlid) as (_ & _ & _ & E).
  destruct (decide (p_mask_tbl tbl = None)) as [Hn|Hn].
  { unfold osm_mcast_tbl_is_port. rewrite (proj2 E Hn), Hn. by rewrite andb_false_r. }
  rewrite !is_port_testbit by (by rewrite ?E).
  rewrite clear_mask_at by (done || lia || apply Z.div_pos; unfold IB_MCAST_MASK_SIZE; lia).
  case_decide as Hc.
  - rewrite Z.bits_0, bool_decide_true by lia. done.
  - rewrite bool_decide_false by lia. done.
Qed.

(** *** Allocating rows *)

Lemma realloc_fields tbl o :
  tbl_wf tbl → 0 ≤ o < 512 * IB_MCAST_BLOCK_SIZE →
  let tbl' := osm_mcast_tbl_realloc tbl o in
  max_position tbl' = max_position tbl ∧ max_block_in_use tbl' = max_block_in_use tbl
  ∧ mft_depth tbl ≤ mft_depth tbl' ∧ offset_ok tbl' o ∧ ∀ o' pos, mask_at tbl' o' pos = mask_at tbl o' pos.
Proof.
  intros [Hd [k [Hk Hk']] _ _ _ _ _ _] Ho. unfold osm_mcast_tbl_realloc, offset_ok. cbv zeta.
  unfold IB_MCAST_BLOCK_SIZE in *.
  destruct (Z.ltb_spec o (mft_depth tbl)) as [Hlt|Hge]; simpl; [split_and!; (done || lia)|].
  pose proof (Z.div_mod o 32 ltac:(lia)). pose proof (Z.mod_pos_bound o 32 ltac:(lia)).
  assert (o / 32 < 512) by (apply Z.div_lt_upper_bound; lia).
  rewrite u16_small by lia. split_and!; [done|done|lia|lia|lia|].
  intros o' pos. unfold mask_at. simpl. destruct (p_mask_tbl tbl) as [rows|]; simpl in *.
  - destruct (decide (Z.to_nat o' < length rows)%nat) as [Hl|Hl]; [by rewrite lookup_app_l|].
    rewrite lookup_app_r, (lookup_ge_None_2 rows) by lia.
    destruct (replicate _ _ !! _) as [row|] eqn:E; simpl; [|done].
    apply lookup_replicate in E as [-> _].
    match goal with |- default 0 ?x = 0 => destruct x as [m|] eqn:E; [|done] end.
    by apply (lookup_replicate 16) in E as [-> _].
  - destruct (replicate _ _ !! _) as [row|] eqn:E; simpl; [|done].
    apply lookup_replicate in E as [-> _].
    match goal with |- default 0 ?x = 0 => destruct x as [m|] eqn:E; [|done] end.
    by apply (lookup_replicate 16) in E as [-> _].
Qed.

Lemma realloc_wf tbl o :
  tbl_wf tbl → 0 ≤ o < 512 * IB_MCAST_BLOCK_SIZE → tbl_wf (osm_mcast_tbl_realloc tbl o).
Proof.
  intros Hwf Ho. destruct (realloc_fields tbl o Hwf Ho) as (E1 & E2 & _ & _ & E3).
  pose proof Hwf as [Hd [k [Hk Hk']] Hrows Hmask Hu Hpos Hb Hmp].
  assert (Hs : mft_depth (osm_mcast_tbl_realloc tbl o)
      = Z.of_nat (length (default [] (p_mask_tbl (osm_mcast_tbl_realloc tbl o))))
    ∧ (∃ k, mft_depth (osm_mcast_tbl_realloc tbl o) = k * IB_MCAST_BLOCK_SIZE ∧ k ≤ 512)
    ∧ ∀ row, row ∈ default [] (p_mask_tbl (osm_mcast_tbl_realloc tbl o)) → length row = 16%nat).
  { unfold osm_mcast_tbl_realloc, IB_MCAST_BLOCK_SIZE in *. cbv zeta.
    destruct (Z.ltb_spec o (mft_depth tbl)) as [Hlt|Hge]; simpl; [split_and!; [done|by exists k|done]|].
    assert (0 ≤ o / 32 < 512) by (split; [apply Z.div_pos; lia|apply Z.div_lt_upper_bound; lia]).
    pose proof (Z.div_mod o 32 ltac:(lia)). pose proof (Z.mod_pos_bound o 32 ltac:(lia)).
    rewrite u16_small by lia. split_and!.
    - rewrite length_app, length_replicate. lia.
    - exists (o / 32 + 1). lia.
    - intros row [Hr|Hr]%elem_of_app; [by apply Hrows|]. by apply elem_of_replicate in Hr as [-> _]. }
  destruct Hs as (S1 & S2 & S3). split; rewrite ?E1, ?E2; try done.
  - intros o' pos. rewrite E3. apply Hmask.
  - intros o' pos. rewrite E3. apply Hu.
  - intros o' pos. rewrite E3. apply Hpos.
Qed.

Lemma realloc_is_port tbl o mlid port :
  tbl_wf tbl → 0 ≤ o < 512 * IB_MCAST_BLOCK_SIZE →
  osm_mcast_tbl_is_port (osm_mcast_tbl_realloc tbl o) mlid port = osm_mcast_tbl_is_port tbl mlid port.
Proof.
  intros Hwf Ho. destruct (realloc_fields tbl o Hwf Ho) as (_ & _ & _ & Hin & E3).
  pose proof (tbl_allocated _ _ (realloc_wf tbl o Hwf Ho) Hin) as Hn.
  rewrite is_port_testbit, E3 by done. destruct (decide (p_mask_tbl tbl = None)) as [Hn'|Hn'].
  - unfold osm_mcast_tbl_is_port, mask_at. rewrite Hn'. simpl. apply Z.bits_0.
  - by rewrite is_port_testbit.
Qed.

Lemma init_wf num_ports capacity :
  0 < num_ports ≤ 255 → tbl_wf (osm_mcast_tbl_init num_ports capacity).
Proof.
  intros Hn. unfold osm_mcast_tbl_init. cbv zeta.
  assert (Hp : 0 ≤ u8 (ROUNDUP num_ports IB_MCAST_MASK_SIZE / IB_MCAST_MASK_SIZE - 1) ≤ 15).
  { unfold ROUNDUP, IB_MCAST_MASK_SIZE. pose proof (Z.div_mod num_ports 16 ltac:(lia)).
    pose proof (Z.mod_pos_bound num_ports 16 ltac:(lia)).
    destruct (Z.eqb_spec (num_ports mod 16) 0) as [E|E].
    - rewrite Z.add_0_r, Z.div_mul by done. rewrite u8_small; lia.
    - replace (num_ports / 16 * 16 + 16) with ((num_ports / 16 + 1) * 16) by lia.
      rewrite Z.div_mul by done. rewrite u8_small; lia. }
  case_match; split; simpl; unfold mask_at, IB_MCAST_POSITION_MAX; simpl;
    try done; try lia; try (by exists 0); by intros ? ?%not_elem_of_nil.
Qed.

(** *** Blocks *)

Lemma init_port_ok num_ports capacity p :
  0 < num_ports ≤ 255 → capacity ≠ 0 → 0 ≤ p < num_ports → port_ok (osm_mcast_tbl_init num_ports capacity) p.
Proof.
  intros Hn Hc Hp. unfold osm_mcast_tbl_init, port_ok. cbv zeta. rewrite (proj2 (Z.eqb_neq _ _)) by done. simpl.
  unfold ROUNDUP, IB_MCAST_MASK_SIZE. pose proof (Z.div_mod num_ports 16 ltac:(lia)).
  pose proof (Z.mod_pos_bound num_ports 16 ltac:(lia)).
  destruct (Z.eqb_spec (num_ports mod 16) 0) as [E|E].
  - rewrite Z.add_0_r, Z.div_mul, u8_small by lia. lia.
  - replace (num_ports / 16 * 16 + 16) with ((num_ports / 16 + 1) * 16) by lia.
    rewrite Z.div_mul, u8_small by lia. lia.
Qed.

Lemma block_rows_lookup block_num i :
  0 ≤ block_num < 512 → 0 ≤ i < 32 →
  block_rows block_num !! Z.to_nat i = Some (block_num * IB_MCAST_BLOCK_SIZE + i).
Proof.
  intros Hb Hi. unfold block_rows, IB_MCAST_BLOCK_SIZE. rewrite u16_small by lia.
  rewrite lookup_seqZ_lt by lia. f_equal. lia.
Qed.

Lemma get_block_lookup tbl block_num position i :
  0 ≤ block_num < 512 → block_num ≤ max_block_in_use tbl → position ≤ max_position tbl → 0 ≤ i < 32 →
  ∃ block, osm_mcast_tbl_get_block tbl block_num position = Some block
    ∧ block !! Z.to_nat i = Some (mask_at tbl (block_num * IB_MCAST_BLOCK_SIZE + i) position).
Proof.
  intros Hb Hu Hp Hi. eexists. split.
  - unfold osm_mcast_tbl_get_block. destruct (Z.ltb_spec (max_block_in_use tbl) block_num); [lia|].
    destruct (Z.ltb_spec (max_position tbl) position); [lia|]. done.
  - by rewrite list_lookup_fmap, block_rows_lookup.
Qed.
End Table.
