(* ===== verification/McastTblSpec.v ===== *)
(** * Multicast tables as sets of ports

    A table is a function from MLIDs and ports to [bool]: the operations of
    [opensm/osm_mcast_tbl.c] refine the ones of [spec_step], and the blocks that
    are read from the table and written to it carry its bits. *)

From S2P Require Import Prelude IbTypes McastTbl.

Open Scope Z_scope.

(** Rows [b], [b + 1], ... with [vals] written at a position. *)
Lemma write_rows (pos : nat) (vals : list Z) : ∀ (b : Z) (rows : list (list Z)) (o : nat),
  0 ≤ b →
  foldl (λ rows (e : Z * Z), alter (λ row, <[pos := e.2]> row) (Z.to_nat e.1) rows) rows
    (zip (seqZ b (Z.of_nat (length vals))) vals) !! o
  = match vals !! (o - Z.to_nat b)%nat with
    | Some v => if decide (b ≤ Z.of_nat o) then (λ row, <[pos := v]> row) <$> rows !! o else rows !! o
    | None => rows !! o
    end.
Proof.
  induction vals as [|v vals IH]; intros b rows o Hb; [done|].
  cbn [length]. rewrite seqZ_cons by lia. replace (Z.pred (Z.of_nat (S (length vals)))) with (Z.of_nat (length vals)) by lia.
  cbn [zip zip_with foldl]. rewrite IH by lia. simpl fst. simpl snd.
  destruct (decide (b ≤ Z.of_nat o)) as [Hle|Hgt].
  - destruct (decide (o = Z.to_nat b)) as [->|Hne].
    + rewrite Nat.sub_diag. simpl. replace (Z.to_nat b - Z.to_nat (Z.succ b))%nat with 0%nat by lia.
      rewrite list_lookup_alter_eq. destruct (vals !! 0%nat); [|done]. by rewrite decide_False by lia.
    + replace (o - Z.to_nat b)%nat with (S (o - Z.to_nat (Z.succ b))) by lia. simpl.
      rewrite list_lookup_alter_ne by lia. case_match; [|done]. by rewrite decide_True by lia.
  - replace (o - Z.to_nat b)%nat with 0%nat by lia. simpl.
    rewrite list_lookup_alter_ne by lia. case_match; [|done]. by rewrite decide_False by lia.
Qed.

Section Spec.
Context {BO : ByteOrder}.
Implicit Types tbl : osm_mcast_tbl.

(** ** Writing a block *)

(** A block of 32 masks. *)
Record block_ok (p_block : list Z) (block_num position : Z) : Prop := {
  bo_length : length p_block = 32%nat;
  bo_masks m : m ∈ p_block → 0 ≤ m < 2 ^ 16;
  bo_num : 0 ≤ block_num < 512;
  bo_position : 0 ≤ position
}.

Lemma set_block_fields tbl p_block block_num position tbl' :
  osm_mcast_tbl_set_block tbl p_block block_num position = Some tbl' →
  max_position tbl' = max_position tbl ∧ mft_depth tbl' = mft_depth tbl
  ∧ (p_mask_tbl tbl' = None ↔ p_mask_tbl tbl = None)
  ∧ position ≤ max_position tbl
  ∧ u16 (block_num * IB_MCAST_BLOCK_SIZE) + IB_MCAST_BLOCK_SIZE - 1 ≤ mft_depth tbl
  ∧ (0 ≤ block_num < 512 → max_block_in_use tbl' = Z.max (max_block_in_use tbl) block_num).
Proof.
  unfold osm_mcast_tbl_set_block.
  destruct (Z.ltb_spec (max_block tbl) block_num); [done|].
  destruct (Z.ltb_spec (max_position tbl) position) as [|Hp]; [done|].
  destruct (Z.ltb_spec (mft_depth tbl) (u16 (block_num * IB_MCAST_BLOCK_SIZE) + IB_MCAST_BLOCK_SIZE - 1)) as [|Hd]; [done|].
  cbv zeta. intros [= <-].
  change (max_block_in_use (tbl <| p_mask_tbl := _ |>)) with (max_block_in_use tbl).
  destruct (Z.ltb_spec (max_block_in_use tbl) block_num);
    simpl; (split_and!; [done|done|by rewrite fmap_None|lia|lia|intros; rewrite ?u16_small by lia; lia]).
Qed.

Lemma set_block_mask_at tbl p_block block_num position tbl' o pos :
  tbl_wf tbl → block_ok p_block block_num position →
  osm_mcast_tbl_set_block tbl p_block block_num position = Some tbl' → 0 ≤ o → 0 ≤ pos →
  mask_at tbl' o pos
  = if decide (o / IB_MCAST_BLOCK_SIZE = block_num ∧ pos = position)
    then default 0 (p_block !! Z.to_nat (o mod IB_MCAST_BLOCK_SIZE)) else mask_at tbl o pos.
Proof.
  intros Hwf [Hl Hm Hb Hpos] E Ho Hp.
  destruct (set_block_fields _ _ _ _ _ E) as (E1 & E2 & E3 & Hmp & Hd & _).
  pose proof Hwf as [Hlen [k [Hk Hk']] Hrows _ _ _ _ Hmax]. unfold IB_MCAST_BLOCK_SIZE, IB_MCAST_POSITION_MAX in *.
  rewrite u16_small in Hd by lia.
  assert (Hm' : mask_at tbl' o pos = default 0 (rows ← p_mask_tbl tbl;
    row ← foldl (λ rows (e : Z * Z), alter (λ row, <[Z.to_nat position := e.2]> row) (Z.to_nat e.1) rows) rows
            (zip (block_rows block_num) p_block) !! Z.to_nat o; row !! Z.to_nat pos)).
  { revert E. unfold osm_mcast_tbl_set_block. do 3 (case_match; [done|]). cbv zeta. intros [= <-].
    unfold mask_at. case_match; simpl; by destruct (p_mask_tbl tbl). }
  rewrite Hm'. clear Hm'. unfold mask_at.
  destruct (p_mask_tbl tbl) as [rows|] eqn:Er; simpl in Hlen, Hrows; [|lia]. cbn [mbind option_bind].
  unfold block_rows, IB_MCAST_BLOCK_SIZE. rewrite u16_small by lia.
  assert (E32 : seqZ (block_num * 32) 32 = seqZ (block_num * 32) (Z.of_nat (length p_block))) by (f_equal; lia).
  rewrite E32, write_rows by lia.
  pose proof (Z.div_mod o 32 ltac:(lia)). pose proof (Z.mod_pos_bound o 32 ltac:(lia)).
  destruct (decide (o / 32 = block_num)) as [Hob|Hob].
  - replace (Z.to_nat o - Z.to_nat (block_num * 32))%nat with (Z.to_nat (o mod 32)) by lia.
    destruct (lookup_lt_is_Some_2 p_block (Z.to_nat (o mod 32))) as [v Hv]; [lia|]. rewrite Hv.
    rewrite (decide_True (P := block_num * 32 ≤ _)) by lia.
    destruct (lookup_lt_is_Some_2 rows (Z.to_nat o)) as [row Hrow]; [lia|]. rewrite Hrow. simpl.
    assert (Hl16 : length row = 16%nat) by (apply Hrows; by eapply list_elem_of_lookup_2).
    destruct (decide (pos = position)) as [->|Hne].
    + rewrite decide_True by done. by rewrite list_lookup_insert_eq by lia.
    + rewrite decide_False by naive_solver. by rewrite list_lookup_insert_ne by lia.
  - rewrite decide_False by naive_solver.
    destruct (p_block !! (Z.to_nat o - Z.to_nat (block_num * 32))%nat) as [v|] eqn:Ev; [|done].
    apply lookup_lt_Some in Ev. rewrite decide_False; [done|]. intros Hle. apply Hob.
    symmetry. apply (Z.div_unique_pos o 32 block_num (o - block_num * 32)); lia.
Qed.

Lemma set_block_wf tbl p_block block_num position tbl' :
  tbl_wf tbl → block_ok p_block block_num position →
  osm_mcast_tbl_set_block tbl p_block block_num position = Some tbl' → tbl_wf tbl'.
Proof.
  intros Hwf Hok E. destruct (set_block_fields _ _ _ _ _ E) as (E1 & E2 & E3 & Hmp & Hd & Eu).
  pose proof Hok as [Hl Hm Hb Hpos]. specialize (Eu Hb).
  pose proof (λ o pos, set_block_mask_at tbl p_block block_num position tbl' o pos Hwf Hok E) as Hma.
  pose proof Hwf as [Hlen Hk Hrows Hmask Hu Hp Hiu Hmax].
  assert (Erows : length (default [] (p_mask_tbl tbl')) = length (default [] (p_mask_tbl tbl))
    ∧ ∀ row, row ∈ default [] (p_mask_tbl tbl') → length row = 16%nat).
  { revert E. unfold osm_mcast_tbl_set_block. do 3 (case_match; [done|]). cbv zeta. intros [= <-].
    case_match; simpl; (destruct (p_mask_tbl tbl) as [rows|]; simpl in *; [|done]);
    (apply (foldl_inv (λ rows', length rows' = length rows ∧ ∀ row, row ∈ rows' → length row = 16%nat)); [|done]);
    intros rows' [o v] _ [E16 Hr]; (split; [by rewrite length_alter|]);
    intros row (i & Hi)%list_elem_of_lookup; rewrite list_lookup_alter in Hi;
    (case_decide; [apply fmap_Some in Hi as (r & Hi & ->); rewrite length_insert|]); apply Hr; by eapply list_elem_of_lookup_2. }
  destruct Erows as [El Er]. split; rewrite ?E1, ?E2, ?Eu; try done.
  - by rewrite El.
  - intros o pos H1 H2. rewrite Hma by done. case_decide; [|by apply Hmask].
    destruct (p_block !! _) as [m|] eqn:Em; simpl; [|lia]. by apply list_elem_of_lookup_2, Hm in Em.
  - intros o pos H1 H2. rewrite Hma by done. case_decide as Hc; [lia|]. intros Hn. specialize (Hu o pos H1 H2 Hn). lia.
  - intros o pos H1 H2. rewrite Hma by done. case_decide as Hc; [lia|by apply Hp].
  - lia.
Qed.

(** ** The specification *)

Inductive tbl_op :=
  | OpSet (mlid_ho port : Z)
  | OpClear (mlid_ho : Z)
  | OpRealloc (mlid_offset : Z)
  | OpSetBlock (p_block : list Z) (block_num position : Z).

(** A failed [osm_mcast_tbl_set_block] leaves the table alone. *)
Definition tbl_step tbl (op : tbl_op) : osm_mcast_tbl :=
  match op with
  | OpSet mlid_ho port => osm_mcast_tbl_set tbl mlid_ho port
  | OpClear mlid_ho => osm_mcast_tbl_clear_mlid tbl mlid_ho
  | OpRealloc mlid_offset => osm_mcast_tbl_realloc tbl mlid_offset
  | OpSetBlock p_block block_num position =>
      default tbl (osm_mcast_tbl_set_block tbl p_block block_num position)
  end.

(** What the operations mean for the ports of the MLIDs. *)
Definition spec_step (f : Z → Z → bool) (op : tbl_op) : Z → Z → bool := λ m p,
  match op with
  | OpSet mlid_ho port => bool_decide (m = mlid_ho ∧ p = port) || f m p
  | OpClear mlid_ho => negb (bool_decide (m = mlid_ho)) && f m p
  | OpRealloc _ => f m p
  | OpSetBlock p_block block_num position =>
      let o := m - IB_LID_MCAST_START_HO in
      if bool_decide (o / IB_MCAST_BLOCK_SIZE = block_num ∧ p / IB_MCAST_MASK_SIZE = position)
      then Z.testbit (default 0 (p_block !! Z.to_nat (o mod IB_MCAST_BLOCK_SIZE))) (port_bit p)
      else f m p
  end.

(** The operations as the code calls them: rows are allocated before they are set, and
    a block fits into the table. *)
Definition op_ok tbl (op : tbl_op) : Prop :=
  match op with
  | OpSet mlid_ho port => offset_ok tbl (mlid_ho - IB_LID_MCAST_START_HO) ∧ port_ok tbl port
  | OpClear mlid_ho => IB_LID_MCAST_START_HO ≤ mlid_ho
  | OpRealloc mlid_offset => 0 ≤ mlid_offset < 512 * IB_MCAST_BLOCK_SIZE
  | OpSetBlock p_block block_num position =>
      block_ok p_block block_num position
      ∧ is_Some (osm_mcast_tbl_set_block tbl p_block block_num position)
  end.

Fixpoint ops_ok tbl (ops : list tbl_op) : Prop :=
  match ops with
  | [] => True
  | op :: ops => op_ok tbl op ∧ ops_ok (tbl_step tbl op) ops
  end.

(** The table has the ports of the specification. *)
Definition tbl_refines tbl (f : Z → Z → bool) : Prop :=
  tbl_wf tbl ∧ ∀ m p, IB_LID_MCAST_START_HO ≤ m → 0 ≤ p → osm_mcast_tbl_is_port tbl m p = f m p.

Lemma step_refines tbl f op : tbl_refines tbl f → op_ok tbl op → tbl_refines (tbl_step tbl op) (spec_step f op).
Proof.
  intros [Hwf Hf]. destruct op as [mlid port|mlid|o|blk b pos]; simpl.
  - intros [Ho Hp]. split; [by apply set_wf|]. intros m p Hm Hpp. by rewrite set_is_port, Hf.
  - intros Hm'. split; [by apply clear_tbl_wf|]. intros m p Hm Hpp. by rewrite clear_is_port, Hf.
  - intros Ho. split; [by apply realloc_wf|]. intros m p Hm Hpp. by rewrite realloc_is_port, Hf.
  - intros [Hok [tbl' E]]. rewrite E. simpl. split; [by eapply set_block_wf|]. intros m p Hm Hpp.
    destruct (set_block_fields _ _ _ _ _ E) as (_ & _ & En & _ & Hd & _).
    pose proof Hok as [_ _ Hb _]. pose proof (tw_depth _ Hwf) as Hlen.
    assert (Hn : p_mask_tbl tbl ≠ None).
    { intros En'. rewrite En' in Hlen. simpl in Hlen. unfold IB_MCAST_BLOCK_SIZE in Hd.
      rewrite u16_small in Hd by lia. lia. }
    rewrite is_port_testbit by (by rewrite En).
    rewrite (set_block_mask_at tbl blk b pos tbl') by
      (done || lia || (apply Z.div_pos; unfold IB_MCAST_MASK_SIZE; lia)).
    unfold spec_step. cbv zeta. case_decide as Hc; [by rewrite bool_decide_true|]. rewrite bool_decide_false by done.
    by rewrite <-Hf, is_port_testbit.
Qed.

Lemma ops_refine ops : ∀ tbl f,
  tbl_refines tbl f → ops_ok tbl ops → tbl_refines (foldl tbl_step tbl ops) (foldl spec_step f ops).
Proof.
  induction ops as [|op ops IH]; intros tbl f Hr Hok; [done|]. destruct Hok as [H1 H2].
  simpl. apply IH; [by apply step_refines|done].
Qed.

Lemma init_refines num_ports capacity :
  0 < num_ports ≤ 255 → tbl_refines (osm_mcast_tbl_init num_ports capacity) (λ _ _, false).
Proof.
  intros Hn. split; [by apply init_wf|]. intros m p _ _. unfold osm_mcast_tbl_is_port, osm_mcast_tbl_init.
  cbv zeta. by destruct (capacity =? 0).
Qed.

(** The block that is read at a position is the specification. *)
Definition block_reads tbl (f : Z → Z → bool) (block_num position : Z) : Prop :=
  ∀ i p, 0 ≤ i < IB_MCAST_BLOCK_SIZE → 0 ≤ p → p / IB_MCAST_MASK_SIZE = position →
    f (IB_LID_MCAST_START_HO + block_num * IB_MCAST_BLOCK_SIZE + i) p
    = match osm_mcast_tbl_get_block tbl block_num position with
      | Some block => Z.testbit (default 0 (block !! Z.to_nat i)) (port_bit p)
      | None => false
      end.

Lemma refines_reads tbl f block_num position :
  tbl_refines tbl f → 0 ≤ block_num < 512 → 0 ≤ position → block_reads tbl f block_num position.
Proof.
  intros [Hwf Hf] Hb Hpos i p Hi Hp Epos. rewrite <-Hf by (unfold IB_MCAST_BLOCK_SIZE in *; lia).
  pose proof (tw_used _ Hwf) as Hu. pose proof (tw_position _ Hwf) as Hmp.
  assert (Eo : IB_LID_MCAST_START_HO + block_num * IB_MCAST_BLOCK_SIZE + i - IB_LID_MCAST_START_HO
    = block_num * IB_MCAST_BLOCK_SIZE + i) by lia.
  set (o := block_num * IB_MCAST_BLOCK_SIZE + i) in *.
  assert (Ho : 0 ≤ o ∧ o / IB_MCAST_BLOCK_SIZE = block_num).
  { unfold o, IB_MCAST_BLOCK_SIZE in *. split; [lia|]. symmetry. apply (Z.div_unique_pos _ 32 block_num i); lia. }
  assert (Hzero : mask_at tbl o position = 0 →
    osm_mcast_tbl_is_port tbl (IB_LID_MCAST_START_HO + block_num * IB_MCAST_BLOCK_SIZE + i) p = false).
  { intros Hz. unfold osm_mcast_tbl_is_port. case_match; [|done]. rewrite Eo, Epos, Hz, Z.land_0_l.
    apply Z.eqb_neq. pose proof (bit_mask_range p). lia. }
  destruct (Z.ltb_spec (max_block_in_use tbl) block_num) as [Hlt|Hge].
  - unfold osm_mcast_tbl_get_block. rewrite (proj2 (Z.ltb_lt _ _) Hlt). apply Hzero.
    destruct (decide (mask_at tbl o position = 0)) as [|Hn]; [done|]. specialize (Hu o position ltac:(lia) Hpos Hn). lia.
  - destruct (Z.ltb_spec (max_position tbl) position) as [Hlt'|Hge'].
    + unfold osm_mcast_tbl_get_block. rewrite (proj2 (Z.ltb_ge _ _) Hge), (proj2 (Z.ltb_lt _ _) Hlt').
      rewrite Hzero. 
      * destruct (_ !! Z.to_nat i) as [v|] eqn:Ev; simpl; [|by rewrite Z.bits_0].
        apply (lookup_replicate 32) in Ev as [-> _]. by rewrite Z.bits_0.
      * destruct (decide (mask_at tbl o position = 0)) as [|Hn]; [done|]. specialize (Hmp o position ltac:(lia) Hpos Hn). lia.
    + destruct (get_block_lookup tbl block_num position i Hb Hge Hge' Hi) as (block & -> & ->). simpl. fold o.
      destruct (decide (p_mask_tbl tbl = None)) as [Hn|Hn].
      * unfold osm_mcast_tbl_is_port, mask_at. rewrite Hn. simpl. by rewrite Z.bits_0.
      * rewrite is_port_testbit by done. by rewrite Eo, Epos.
Qed.

(** C33. A multicast table is a set of ports for every MLID.  After any sequence of
    operations on a fresh table, called as the code calls them, the table is well
    formed, a port is in the row of an MLID exactly if the operations put it there
    last, and every block read from the table has exactly those bits; a block that
    is not read has none. *)
Theorem mcast_tbl_refines num_ports capacity ops :
  0 < num_ports ≤ 255 → ops_ok (osm_mcast_tbl_init num_ports capacity) ops →
  let tbl := foldl tbl_step (osm_mcast_tbl_init num_ports capacity) ops in
  let f := foldl spec_step (λ _ _, false) ops in
  tbl_refines tbl f ∧ ∀ b pos, 0 ≤ b < 512 → 0 ≤ pos → block_reads tbl f b pos.
Proof.
  intros Hn Hok tbl f. pose proof (ops_refine ops _ _ (init_refines num_ports capacity Hn) Hok) as Hr.
  split; [exact Hr|]. intros b pos. by apply refines_reads.
Qed.
End Spec.

(** A table of 20 ports: two rows, of which a block is then overwritten. *)
Lemma mcast_tbl_refines_witness :
  let _ : ByteOrder := true in
  let ops := [OpRealloc 40; OpSet 0xC028 17; OpSet 0xC028 3; OpClear 0xC000; OpSet 0xC001 19;
              OpSetBlock (replicate 32 0x0800) 1 1] in
  let tbl := foldl tbl_step (osm_mcast_tbl_init 20 1024) ops in
  let f := foldl spec_step (λ _ _, false) ops in
  tbl_refines tbl f ∧ ∀ b pos, 0 ≤ b < 512 → 0 ≤ pos → block_reads tbl f b pos.
Proof.
  intros bo ops. apply (mcast_tbl_refines (BO := bo) 20 1024 ops); [lia|].
  unfold ops. cbn [ops_ok op_ok]. split; [unfold IB_MCAST_BLOCK_SIZE; lia|].
  split; [by vm_compute|]. split; [by vm_compute|]. split; [by vm_compute|]. split; [by vm_compute|].
  split; [|done]. split.
  - split; [done| |done|done]. intros m Hm. apply elem_of_replicate_inv in Hm as ->. lia.
  - eexists. by vm_compute.
Defined.
