(* ===== verification/McastMgr.v ===== *)
(** * The multicast manager: [opensm/osm_mcast_mgr.c]

    For every multicast LID the manager builds a spanning tree over the member ports
    of its groups ([mcast_mgr_branch]), sets the ports of the tree in the tables of
    the switches, and sends the tables in blocks, one block of every switch at a
    time ([mcast_mgr_set_mftables]).  [osm_switch_recommend_mcast_path] of
    [opensm/osm_switch.c] and the tree nodes of [opensm/osm_mtree.c] are here too.

    Work objects are elements of lists; allocations succeed.  The engine in use has
    no [mcast_build_stree] of its own. *)

From S2P Require Import Prelude IbTypes Switch UcastMgr McastTbl.

Open Scope Z_scope.

(** ** Tree nodes *)

Inductive osm_mtree_node := MtreeNode (p_sw : Z) (child_array : list mtree_child)
with mtree_child := MtNull | OSM_MTREE_LEAF | MtChild (n : osm_mtree_node).

Definition osm_mtree_node_new (p_sw : Z) (num_ports : Z) : osm_mtree_node :=
  MtreeNode p_sw (replicate (Z.to_nat num_ports) MtNull).

Definition child_array (n : osm_mtree_node) : list mtree_child := let 'MtreeNode _ l := n in l.

(** ** The manager's state *)

(** The groups of an MLID; a group is its table of member ports by port GUID. *)
Record osm_mgrp_box := MgrpBox {
  mlid : Z;
  mgrp_list : list (gmap Z osm_port);
  mb_root : option osm_mtree_node
}.

#[export] Instance osm_mgrp_box_eta : Eta osm_mgrp_box := λ b,
  MgrpBox (mlid b) (mgrp_list b) (mb_root b).

Record osm_sm_mcast := SmMcast {
  mcast_tbls : gmap Z osm_mcast_tbl;        (* [mcast_tbl] of every switch *)
  mboxes : list (option osm_mgrp_box);      (* by the offset of the MLID *)
  mlids_req : list bool;
  mlids_req_max : Z;
  cache_valid : bool;
  force_heavy_sweep : bool
}.

#[export] Instance osm_sm_mcast_eta : Eta osm_sm_mcast := λ s,
  SmMcast (mcast_tbls s) (mboxes s) (mlids_req s) (mlids_req_max s) (cache_valid s)
    (force_heavy_sweep s).

(** A message to a switch: a block of its table, or the top of the table. *)
Inductive mft_msg :=
  | SetMftBlock (sw : Z) (block_num position : Z) (block : list Z)
  | SetMftTop (sw : Z) (mcast_top : Z).

Section McastMgr.
Context {BO : ByteOrder}.
Variable nodes : gmap Z osm_node.
Variable sws : gmap Z osm_switch.
Variable mcast_cap : Z → Z.                 (* of the SwitchInfo of a switch *)
Variable use_ucast_cache : bool.
Implicit Types sm : osm_sm_mcast.
Implicit Types q : osm_port.

Definition osm_switch_supports_mcast (s : Z) : bool := negb (mcast_cap s =? 0).

(** ** The port towards a member *)

Definition osm_switch_recommend_mcast_path (s : Z) (p_sw : osm_switch) (tbl : osm_mcast_tbl) q
    (mlid_ho : Z) (ignore_existing : bool) : Z :=
  match rp_base_lid nodes (dom sws) s q with
  | RpReturn port_num => port_num
  | RpSearch base_lid =>
      let ports := seqZ 1 (num_ports p_sw - 1) in
      let existing :=
        if ignore_existing then None
        else list_find_first (λ port_num, osm_mcast_tbl_is_port tbl mlid_ho port_num
               && negb (osm_switch_get_hop_count p_sw base_lid port_num =? OSM_NO_PATH)) ports in
      match existing with
      | Some port_num => port_num
      | None =>
          let least_hops := osm_switch_get_least_hops p_sw base_lid in
          if least_hops =? OSM_NO_PATH then OSM_NO_PATH
          else default (Z.max 1 (num_ports p_sw))
                 (list_find_first (λ port_num,
                    osm_switch_get_hop_count p_sw base_lid port_num =? least_hops) ports)
      end
  end.

(** ** The member ports and the root *)

(** The body of the loop over the member ports of the groups: the list and the map. *)
Definition mcast_add_port (st : list osm_port * gset Z) (e : Z * osm_port) : list osm_port * gset Z :=
  if bool_decide (e.1 ∈ st.2) then st else (st.1 ++ [e.2], {[ e.1 ]} ∪ st.2).

(** The ports of all groups of the box, each once. *)
Definition osm_mcast_make_port_list_and_map (mbox : osm_mgrp_box) : list osm_port :=
  (foldl mcast_add_port ([], ∅) (mgrp ← mgrp_list mbox; qmap_items mgrp)).1.

(** The switches of the member ports with [num_of_mcm] and [is_mc_member], which are
    0 outside of [mcast_mgr_find_optimal_switch]; [None] when the neighbour of a
    member port has no switch object, which the code dereferences. *)
Definition mgrp_switch_step (m : option (gmap Z (Z * bool))) q : option (gmap Z (Z * bool)) :=
  m ← m;
  if bool_decide (pt_node q ∈ dom sws) then
    Some (<[pt_node q := ((default (0, false) (m !! pt_node q)).1, true)]> m)
  else
    match (num ← pt_physp q; n ← nodes !! pt_node q; p ← physp_table n !! Z.to_nat num;
           p_remote_physp p) with
    | None => Some m
    | Some (r, _) =>
        if bool_decide (r ∈ dom sws)
        then let '(n, b) := default (0, false) (m !! r) in Some (<[r := (u32 (n + 1), b)]> m)
        else None
    end.

Definition create_mgrp_switch_map (port_list : list osm_port) : option (gmap Z (Z * bool)) :=
  foldl mgrp_switch_step (Some ∅) port_list.

Definition mcast_mgr_compute_max_hops (m : gmap Z (Z * bool)) (this_sw : osm_switch) : Z :=
  foldl (λ max_hops (e : Z * (Z * bool)),
    let hops := osm_switch_get_least_hops this_sw (sw_lid nodes e.1) in
    let hops := if e.2.2 then hops else hops + 1 in
    if max_hops <? hops then hops else max_hops) 0 (qmap_items m).

(** The best switch and its hop count. *)
Definition optimal_step (m : gmap Z (Z * bool)) (best : option Z * Z) (e : Z * osm_switch)
    : option Z * Z :=
  if negb (osm_switch_supports_mcast e.1) then best
  else
    let hops := mcast_mgr_compute_max_hops m e.2 in
    if hops <? best.2 then (Some e.1, hops) else best.

(** The best hop count starts at 10000; the counts are small integers, which the
    code's [float] holds exactly. *)
Definition mcast_mgr_find_optimal_switch (list : list osm_port) : option (option Z) :=
  m ← create_mgrp_switch_map list;
  Some (foldl (optimal_step m) (None, 10000) (qmap_items sws)).1.

Definition osm_mcast_mgr_find_root_switch := mcast_mgr_find_optimal_switch.

(** ** The spanning tree *)

(** The list of every port of the switch. *)
Definition mcast_mgr_subdivide (mlid_ho s : Z) (p_sw : osm_switch) (tbl : osm_mcast_tbl)
    (p_list : list osm_port) (array_size : Z) : list (list osm_port) :=
  foldl (λ list_array q,
    let port_num := osm_switch_recommend_mcast_path s p_sw tbl q mlid_ho true in
    if port_num =? OSM_NO_PATH then list_array
    else if array_size <=? port_num then list_array
    else alter (λ l, l ++ [q]) (Z.to_nat port_num) list_array)
    (replicate (Z.to_nat array_size) []) p_list.

Definition mcast_tbl_set_port (s mlid_ho port : Z) sm : osm_sm_mcast :=
  sm <| mcast_tbls := alter (λ t, osm_mcast_tbl_set t mlid_ho port) s (mcast_tbls sm) |>.

(** The end of a route through a disconnected port. *)
Definition mcast_disconnected sm : osm_sm_mcast :=
  if use_ucast_cache && cache_valid sm
  then sm <| cache_valid := false |> <| force_heavy_sweep := true |> else sm.

Definition mcast_remote (s port : Z) : option (Z * Z) := physp_at nodes s port ≫= p_remote_physp.

(** The body of the loop over the ports; [branch] is the recursive call for a
    switch, its list and its upstream port. *)
Definition mcast_branch_port
    (branch : Z → list osm_port → Z → osm_sm_mcast → option osm_mtree_node * osm_sm_mcast)
    (mlid_ho s : Z) (list_array : list (list osm_port)) (st : list mtree_child * osm_sm_mcast) (i : Z)
    : list mtree_child * osm_sm_mcast :=
  let '(children, sm) := st in
  match default [] (list_array !! Z.to_nat i) with
  | [] => st
  | p_port_list =>
      if i =? 0 then (children, mcast_tbl_set_port s mlid_ho i sm)
      else match mcast_remote s i with
      | None => (children, mcast_disconnected sm)
      | Some (r, remote_port) =>
          let sm := mcast_tbl_set_port s mlid_ho i sm in
          if from_option node_is_switch false (nodes !! r) then
            let '(p_mtn, sm) := branch r p_port_list remote_port sm in
            (<[Z.to_nat i := from_option MtChild MtNull p_mtn]> children, sm)
          else (<[Z.to_nat i := OSM_MTREE_LEAF]> children, sm)
      end
  end.

(** The recursion stops at depth 64, so 64 calls are enough fuel. *)
Fixpoint mcast_mgr_branch (fuel : nat) (mlid_ho s : Z) (p_list : list osm_port)
    (depth upstream_port : Z) sm : option osm_mtree_node * osm_sm_mcast :=
  match fuel, sws !! s, mcast_tbls sm !! s with
  | Datatypes.S fuel, Some p_sw, Some tbl =>
      let depth := u8 (depth + 1) in
      if 64 <=? depth then (None, sm)
      else if negb (osm_switch_supports_mcast s) then (None, sm)
      else
        let p_mtn := osm_mtree_node_new s (num_ports p_sw) in
        let max_children := num_ports p_sw in
        let list_array := mcast_mgr_subdivide mlid_ho s p_sw tbl p_list max_children in
        let sm := if 1 <? depth then mcast_tbl_set_port s mlid_ho upstream_port sm else sm in
        let '(children, sm) :=
          foldl (mcast_branch_port (λ r l up sm, mcast_mgr_branch fuel mlid_ho r l depth up sm)
                   mlid_ho s list_array)
            (child_array p_mtn, sm) (seqZ 0 max_children) in
        (Some (MtreeNode s children), sm)
  | _, _, _ => (None, sm)
  end.

(** [None] is the dereference of [create_mgrp_switch_map]. *)
Definition mcast_mgr_build_spanning_tree (mbox : osm_mgrp_box) sm
    : option (ib_api_status * osm_mgrp_box * osm_sm_mcast) :=
  let mbox := mbox <| mb_root := None |> in
  let port_list := osm_mcast_make_port_list_and_map mbox in
  if (length port_list <? 2)%nat then Some (IB_SUCCESS, mbox, sm)
  else
    root ← osm_mcast_mgr_find_root_switch port_list;
    match root with
    | None => Some (IB_ERROR, mbox, sm)
    | Some s =>
        let '(p_mtn, sm) := mcast_mgr_branch 64 (mlid mbox) s port_list 0 0 sm in
        Some (IB_SUCCESS, mbox <| mb_root := p_mtn |>, sm)
    end.

Definition mcast_mgr_clear (mlid_ho : Z) sm : osm_sm_mcast :=
  sm <| mcast_tbls := (λ t, osm_mcast_tbl_clear_mlid t mlid_ho) <$> mcast_tbls sm |>.

Definition mcast_mgr_process_mlid (mlid_ho : Z) sm : option osm_sm_mcast :=
  let sm := mcast_mgr_clear mlid_ho sm in
  let o := Z.to_nat (mlid_ho - IB_LID_MCAST_START_HO) in
  match mjoin (mboxes sm !! o) with
  | None => Some sm
  | Some mbox =>
      '(_, mbox, sm) ← mcast_mgr_build_spanning_tree mbox sm;
      Some (sm <| mboxes := <[o := Some mbox]> (mboxes sm) |>)
  end.

(** ** Sending the tables *)

Variable use_mfttop : bool.
Variable has_mcast_fdb_top : Z → bool.      (* the capability of port 0 of a switch *)
Variable switch_mcast_top : Z → Z.          (* of the SwitchInfo of a switch, network order *)
Variable first_time_master_sweep : bool.
Variable mlids_init_max : Z.

Definition mcast_mgr_set_mfttop (s : Z) (p_tbl : osm_mcast_tbl) : list mft_msg :=
  if use_mfttop && has_mcast_fdb_top s then
    let mcast_top :=
      cl_hton16 (u16
        (if first_time_master_sweep then mlids_init_max
         else if max_block_in_use p_tbl =? -1 then IB_LID_MCAST_START_HO - 1
         else IB_LID_MCAST_START_HO + (max_block_in_use p_tbl + 1) * IB_MCAST_BLOCK_SIZE - 1)) in
    if mcast_top =? switch_mcast_top s then [] else [SetMftTop s mcast_top]
  else [].

Definition mcast_mgr_set_mft_block (s : Z) (p_tbl : osm_mcast_tbl) (block_num position : Z)
    : list mft_msg :=
  match osm_mcast_tbl_get_block p_tbl block_num position with
  | None => []
  | Some block => [SetMftBlock s block_num position block]
  end.

(** The progress of a switch: [mft_block_num] and [mft_position]. *)
Record mft_progress := MftProgress { pg_sw : Z; pg_tbl : osm_mcast_tbl; pg_block : Z; pg_position : Z }.

(** One switch in one pass over the switches. *)
Definition mft_stripe (block_num : Z) (p : mft_progress) : list mft_msg * mft_progress :=
  let '(MftProgress s tbl b pos) := p in
  if b =? block_num then
    (mcast_mgr_set_mft_block s tbl b pos,
     if max_position tbl <? u8 (pos + 1) then MftProgress s tbl (b + 1) 0
     else MftProgress s tbl b (u8 (pos + 1)))
  else ([], p).

(** The [while] loop for a block; [None] when the fuel is used up. *)
Fixpoint mft_stripe_block (fuel : nat) (block_num : Z) (l : list mft_progress)
    : option (list mft_msg * list mft_progress) :=
  if forallb (λ p, negb (pg_block p =? block_num)) l then Some ([], l)
  else
    match fuel with
    | O => None
    | Datatypes.S fuel =>
        let l' := mft_stripe block_num <$> l in
        '(msgs, l'') ← mft_stripe_block fuel block_num l'.*2;
        Some ((e ← l'; e.1) ++ msgs, l'')
    end.

(** Positions go up to 15. *)
Definition stripe_fuel : nat := 16.

Fixpoint mft_stripe_blocks (blocks : list Z) (l : list mft_progress) : option (list mft_msg) :=
  match blocks with
  | [] => Some []
  | b :: blocks =>
      '(msgs, l) ← mft_stripe_block stripe_fuel b l;
      msgs' ← mft_stripe_blocks blocks l;
      Some (msgs ++ msgs')
  end.

(** The messages in order. *)
Definition mcast_mgr_set_mftables sm : option (list mft_msg) :=
  let items := qmap_items (mcast_tbls sm) in
  let tops := e ← items; mcast_mgr_set_mfttop e.1 e.2 in
  let max_block := foldl (λ m (e : Z * osm_mcast_tbl),
    if m <? max_block_in_use e.2 then max_block_in_use e.2 else m) (-1) items in
  msgs ← mft_stripe_blocks (seqZ 0 (max_block + 1))
           ((λ e : Z * osm_mcast_tbl, MftProgress e.1 e.2 0 0) <$> items);
  Some (tops ++ msgs).

(** ** A sweep *)

Variable max_mcast_lid_ho : Z.

(** The highest offset of a group, [None] without one. *)
Definition highest_mbox sm : option Z :=
  list_find_first (λ i, bool_decide (is_Some (mjoin (mboxes sm !! Z.to_nat i))))
    (rev (seqZ 0 (max_mcast_lid_ho - IB_LID_MCAST_START_HO + 1))).

Definition alloc_mfts sm : osm_sm_mcast :=
  match highest_mbox sm with
  | None => sm
  | Some i => sm <| mcast_tbls := (λ t, osm_mcast_tbl_realloc t i) <$> mcast_tbls sm |>
  end.

(** The loop over the requested MLIDs. *)
Definition mcast_process_req (config_all : bool) (sm : option osm_sm_mcast) (i : Z)
    : option osm_sm_mcast :=
  sm ← sm;
  if default false (mlids_req sm !! Z.to_nat i)
     || (config_all && bool_decide (is_Some (mjoin (mboxes sm !! Z.to_nat i))))
  then mcast_mgr_process_mlid (i + IB_LID_MCAST_START_HO)
         (sm <| mlids_req := <[Z.to_nat i := false]> (mlids_req sm) |>)
  else Some sm.

Definition osm_mcast_mgr_process (config_all : bool) sm : option (osm_sm_mcast * list mft_msg) :=
  if bool_decide (sws = ∅) then Some (sm, [])
  else
    let sm := alloc_mfts sm in
    let max_mlid :=
      if config_all then max_mcast_lid_ho - IB_LID_MCAST_START_HO else mlids_req_max sm in
    sm ← foldl (mcast_process_req config_all) (Some sm) (seqZ 0 (max_mlid + 1));
    let sm := sm <| mlids_req_max := 0 |> in
    msgs ← mcast_mgr_set_mftables sm;
    Some (sm, msgs).
End McastMgr.
