(* ===== verification/McastTree.v ===== *)
(** * Multicast trees

    What a switch does with a multicast packet ([flood]), what the multicast manager
    needs of the hop tables ([TreeTables]: the first least-hop port to a switch is
    also the first one to every switch on the way), and that the tables
    [mcast_mgr_branch] leaves carry a packet of one member to every other exactly
    once. *)

From S2P Require Import Prelude IbTypes Switch UcastMgr McastTbl McastMgr.

Open Scope Z_scope.

(** ** The first number of a range *)

Lemma find_first_seqZ (f : Z → bool) b : ∀ n a,
  list_find_first f (seqZ a (Z.of_nat n)) = Some b
  ↔ a ≤ b < a + Z.of_nat n ∧ f b = true ∧ ∀ c, a ≤ c < b → f c = false.
Proof.
  induction n as [|n IH]; intros a.
  { simpl. split; [done|]. intros [? _]. lia. }
  rewrite seqZ_cons by lia. replace (Z.pred (Z.of_nat (Datatypes.S n))) with (Z.of_nat n) by lia.
  cbn [list_find_first]. destruct (f a) eqn:Ea.
  - split.
    + intros [= <-]. split_and!; [lia|lia|done|]. intros c Hc. lia.
    + intros (Hr & Hb & Hc). destruct (decide (b = a)) as [->|]; [done|].
      rewrite Hc in Ea by lia. done.
  - rewrite IH. split; intros (Hr & Hb & Hc).
    + split_and!; [lia|lia|done|]. intros c Hcr. destruct (decide (c = a)) as [->|]; [done|]. apply Hc. lia.
    + assert (b ≠ a) by congruence. split_and!; [lia|lia|done|]. intros c Hcr. apply Hc. lia.
Qed.

(** ** Lists collected from the ports of a switch *)

Section Collect.
Context {A : Type}.
Implicit Types (g : Z → option (list A)) (h : Z → list A) (l : list Z).

Definition collect g l : option (list A) := (λ x, mjoin x) <$> mapM g l.

Lemma collect_perm g h l :
  (∀ p, p ∈ l → ∃ x, g p = Some x ∧ x ≡ₚ h p) → ∃ x, collect g l = Some x ∧ x ≡ₚ l ≫= h.
Proof.
  intros H. unfold collect. induction l as [|p l IH]; [by exists []|].
  destruct (H p ltac:(left)) as (x & Ex & Px). destruct IH as (y & Ey & Py); [intros; apply H; by right|].
  apply fmap_Some in Ey as (ys & Eys & ->). exists (x ++ mjoin ys). split.
  - simpl. rewrite Ex. simpl. by rewrite Eys.
  - simpl. by rewrite Px, Py.
Qed.

Lemma bind_filter_nil h l (P : Z → Prop) `{∀ p, Decision (P p)} :
  (∀ p, p ∈ l → ¬ P p → h p = []) → filter P l ≫= h = l ≫= h.
Proof.
  intros Hn. induction l as [|p l IH]; [done|]. rewrite filter_cons.
  assert (IH' : filter P l ≫= h = l ≫= h) by (apply IH; intros; apply Hn; [by right|done]).
  case_decide; rewrite !bind_cons, IH'; [done|]. by rewrite (Hn p ltac:(left)).
Qed.

Lemma bind_pull h l p : p ∈ l → NoDup l → l ≫= h ≡ₚ h p ++ (filter (λ q, q ≠ p) l ≫= h).
Proof.
  intros Hp Hnd. induction Hnd as [|q l Hq Hnd IH]; [by apply not_elem_of_nil in Hp|].
  rewrite filter_cons. apply elem_of_cons in Hp as [<- | Hp].
  - rewrite decide_False, bind_cons by naive_solver. f_equiv.
    assert (E : filter (λ q, q ≠ p) l = l) by (apply filter_all; intros x Hx ->; done).
    by rewrite E.
  - rewrite decide_True by (intros ->; done). rewrite !bind_cons, (IH Hp), !app_assoc.
    f_equiv. apply Permutation_app_comm.
Qed.
End Collect.

(** A list cut by a key. *)
Lemma partition_perm {A} (key : A → Z) (l : list A) (keys : list Z) :
  NoDup keys → (∀ x, x ∈ l → key x ∈ keys) →
  keys ≫= (λ k, filter (λ x, key x = k) l) ≡ₚ l.
Proof.
  intros Hnd. induction l as [|x l IH]; intros Hk.
  - induction keys as [|k keys IHk]; [done|]. simpl. apply IHk; [by apply NoDup_cons in Hnd as []|].
    intros y Hy. by apply not_elem_of_nil in Hy.
  - transitivity (x :: (keys ≫= (λ k, filter (λ x, key x = k) l)));
      [|f_equiv; apply IH; intros; apply Hk; by right].
    specialize (Hk x ltac:(left)). rewrite !(bind_pull _ keys (key x) Hk Hnd).
    rewrite filter_cons, decide_True by done. simpl. f_equiv. f_equiv. apply reflexive_eq.
    assert (E : ∀ ks, (∀ k, k ∈ ks → k ≠ key x) →
      ks ≫= (λ k, filter (λ y, key y = k) (x :: l)) = ks ≫= (λ k, filter (λ y, key y = k) l)).
    { induction ks as [|k ks IHks]; intros Hne; [done|]. rewrite !bind_cons, IHks by (intros; apply Hne; by right).
      rewrite filter_cons, decide_False; [done|]. intros E. by apply (Hne k); [left|]. }
    apply E. by intros k [? _]%list_elem_of_filter.
Qed.

(** ** The way of a multicast packet *)

Section Flood.
Variable nodes : gmap Z osm_node.
Variable S : gset Z.
Variable is_port : Z → Z → bool.     (* the table of a switch for one MLID *)

(** A switch sends a packet to all ports of its table but the one it came from. The
    result is the list of receivers: a node and its port. *)
Fixpoint flood (fuel : nat) (s in_port : Z) : option (list (Z * Z)) :=
  match fuel with
  | O => None
  | Datatypes.S fuel =>
      collect (λ p,
        if p =? 0 then Some [(s, 0)]
        else match mcast_remote nodes s p with
        | None => Some []
        | Some (r, rem) => if bool_decide (r ∈ S) then flood fuel r rem else Some [(r, rem)]
        end)
        (filter (λ p, is_port s p = true ∧ p ≠ in_port) (seqZ 0 (num_physp nodes s)))
  end.

(** What leaves through one port. *)
Definition send (fuel : nat) (s p : Z) : option (list (Z * Z)) :=
  if p =? 0 then Some [(s, 0)]
  else match mcast_remote nodes s p with
  | None => Some []
  | Some (r, rem) => if bool_decide (r ∈ S) then flood fuel r rem else Some [(r, rem)]
  end.

Lemma flood_node n s in_port (h : Z → list (Z * Z)) :
  in_port ∈ seqZ 0 (num_physp nodes s) →
  (∀ p, p ∈ seqZ 0 (num_physp nodes s) → is_port s p = true → p ≠ in_port →
     ∃ l, send n s p = Some l ∧ l ≡ₚ h p) →
  (∀ p, p ∈ seqZ 0 (num_physp nodes s) → is_port s p = false → p ≠ in_port → h p = []) →
  ∃ l, flood (Datatypes.S n) s in_port = Some l
    ∧ h in_port ++ l ≡ₚ seqZ 0 (num_physp nodes s) ≫= h.
Proof.
  intros Hin Hp Hn.
  destruct (collect_perm (send n s) h
    (filter (λ p, is_port s p = true ∧ p ≠ in_port) (seqZ 0 (num_physp nodes s)))) as (l & El & Pl).
  { intros p [[H1 H2] H3]%list_elem_of_filter. by apply Hp. }
  exists l. split; [exact El|]. rewrite Pl.
  rewrite (bind_pull h _ in_port Hin (NoDup_seqZ _ _)). f_equiv.
  rewrite <-(bind_filter_nil h (filter (λ q, q ≠ in_port) (seqZ 0 (num_physp nodes s)))
    (λ p, is_port s p = true)).
  - by rewrite list_filter_filter.
  - intros p [H1 H2]%list_elem_of_filter H3. apply Hn; [done| |done]. by destruct (is_port s p).
Qed.

(** One hop of a packet from switch to switch, as it arrives. *)
Definition mhop (x y : Z * Z) : Prop :=
  ∃ p, 1 ≤ p < num_physp nodes x.1 ∧ is_port x.1 p = true ∧ p ≠ x.2
    ∧ mcast_remote nodes x.1 p = Some y ∧ y.1 ∈ S.

Lemma flood_none n x y : mhop x y → flood n y.1 y.2 = None → flood (Datatypes.S n) x.1 x.2 = None.
Proof.
  intros (p & Hp & Hi & Hne & Hr & Hy) E. simpl. destruct y as [r rem]. unfold collect.
  apply fmap_None, eq_None_not_Some. intros [l Hl%mapM_Some].
  assert (Hin : p ∈ filter (λ p, is_port x.1 p = true ∧ p ≠ x.2) (seqZ 0 (num_physp nodes x.1)))
    by (apply list_elem_of_filter; split; [done|apply elem_of_seqZ; lia]).
  apply list_elem_of_lookup in Hin as [i Hin]. destruct (Forall2_lookup_l _ _ _ _ _ Hl Hin) as (v & _ & Hv).
  simpl in Hv. destruct (Z.eqb_spec p 0); [lia|]. rewrite Hr, bool_decide_true in Hv by done.
  simpl in E. congruence.
Qed.

(** Packets that can always go on never stop. *)
Lemma flood_circle (X : list (Z * Z)) :
  (∀ x, x ∈ X → ∃ y, y ∈ X ∧ mhop x y) → ∀ n x, x ∈ X → flood n x.1 x.2 = None.
Proof.
  intros HX. induction n as [|n IH]; intros x Hx; [done|].
  destruct (HX x Hx) as (y & Hy & Hh). by apply (flood_none n x y Hh), IH.
Qed.
End Flood.

(** ** Routes by first least-hop ports *)

Section Routes.
Context {BO : ByteOrder}.
Variable nodes : gmap Z osm_node.
Variable S : gset Z.
Variable sws : gmap Z osm_switch.

Notation np := (num_physp nodes).
Notation cable := (cable nodes S).
Notation hopc := (hopc nodes sws).

(** The port of switch [s] towards switch [t]. *)
Definition mroute (s t : Z) : option Z :=
  sw ← sws !! s;
  if osm_switch_get_least_hops sw (sw_lid nodes t) =? OSM_NO_PATH then None
  else list_find_first (λ p, osm_switch_get_hop_count sw (sw_lid nodes t) p
         =? osm_switch_get_least_hops sw (sw_lid nodes t)) (seqZ 1 (num_ports sw - 1)).

(** The port of [mroute] is the first one that attains the least count. *)
Lemma mroute_first s t p :
  shape nodes S sws → s ∈ S → hopc s t 0 < 255 →
  mroute s t = Some p
  ↔ 1 ≤ p < np s ∧ hopc s t p = hopc s t 0 ∧ ∀ p', 1 ≤ p' < p → hopc s t p' ≠ hopc s t 0.
Proof.
  intros Hsh Hs Hlt. destruct (shape_lookup nodes S sws s Hsh Hs) as [sw Hsw].
  pose proof (sh_ports _ _ _ Hsh s sw Hsw) as Hn. pose proof (np_pos nodes S sws s Hsh Hs) as Hnp.
  unfold mroute. rewrite Hsw. cbn [mbind option_bind].
  assert (Ec : ∀ q, hopc s t q = osm_switch_get_hop_count sw (sw_lid nodes t) q)
    by (intros q; unfold UcastMgr.hopc; by rewrite Hsw).
  assert (El : osm_switch_get_least_hops sw (sw_lid nodes t) = hopc s t 0) by (by rewrite Ec).
  rewrite El, (proj2 (Z.eqb_neq _ _)) by (unfold OSM_NO_PATH; lia).
  rewrite Hn. replace (np s - 1) with (Z.of_nat (Z.to_nat (np s - 1))) by lia.
  rewrite find_first_seqZ, Z.eqb_eq.
  assert (E : 1 + Z.of_nat (Z.to_nat (np s - 1)) = np s) by lia. rewrite E.
  rewrite <-Ec. split; intros (H1 & H2 & H3); (split_and!; [lia|lia|done|]); intros c Hcr;
    specialize (H3 c Hcr); rewrite <-?Ec in *; by apply Z.eqb_neq.
Qed.

Lemma mroute_some s t port :
  shape nodes S sws → s ∈ S → 1 ≤ port < np s → hopc s t port = hopc s t 0 → hopc s t 0 < 255 →
  ∃ p, mroute s t = Some p.
Proof.
  intros Hsh Hs Hp E Hlt. destruct (mroute s t) as [p|] eqn:Em; [by exists p|exfalso].
  destruct (shape_lookup nodes S sws s Hsh Hs) as [sw Hsw].
  pose proof (sh_ports _ _ _ Hsh s sw Hsw) as Hn. unfold mroute in Em. rewrite Hsw in Em.
  cbn [mbind option_bind] in Em.
  assert (Ec : ∀ q, hopc s t q = osm_switch_get_hop_count sw (sw_lid nodes t) q)
    by (intros q; unfold UcastMgr.hopc; by rewrite Hsw).
  assert (El : osm_switch_get_least_hops sw (sw_lid nodes t) = hopc s t 0) by (by rewrite Ec).
  rewrite El, (proj2 (Z.eqb_neq _ _)) in Em by (unfold OSM_NO_PATH; lia).
  assert (Hf : hopc s t port =? hopc s t 0 = false); [|by rewrite E, Z.eqb_refl in Hf].
  rewrite Ec. apply (proj1 (list_find_first_None _ _) Em). apply elem_of_seqZ. lia.
Qed.

(** [x] is on the route from [s] to [t]. *)
Inductive on_route (t : Z) : Z → Z → Prop :=
  | or_here s : s ∈ S → on_route t s s
  | or_next s p r rem x :
      s ≠ t → mroute s t = Some p → cable s p r rem → on_route t r x → on_route t s x.

(** What the multicast manager needs of the hop tables. *)
Class TreeTables : Prop := {
  tt_shape : shape nodes S sws;
  tt_cables : cables_ok nodes S;
  tt_range s t : s ∈ S → t ∈ S → 0 ≤ hopc s t 0 ≤ 255;
  tt_port s t : s ∈ S → t ∈ S → s ≠ t → hopc s t 0 < 255 →
    ∃ p r rem, mroute s t = Some p ∧ cable s p r rem ∧ hopc r t 0 < hopc s t 0;
  tt_prefix s t p r rem x :
    t ∈ S → hopc s t 0 < 255 → s ≠ t → mroute s t = Some p → cable s p r rem → on_route t r x →
    mroute s x = Some p
}.

Context {TT : TreeTables}.

Lemma mroute_next s t p : s ∈ S → t ∈ S → s ≠ t → hopc s t 0 < 255 → mroute s t = Some p →
  ∃ r rem, cable s p r rem ∧ hopc r t 0 < hopc s t 0.
Proof.
  intros Hs Ht Hne Hlt E. destruct (tt_port s t Hs Ht Hne Hlt) as (p' & r & rem & E' & Hc & Hd).
  rewrite E in E'. injection E' as <-. by exists r, rem.
Qed.

Lemma on_route_in t s x : s ∈ S → on_route t s x → x ∈ S.
Proof. intros _ H. by induction H. Qed.

Lemma on_route_le t s x :
  t ∈ S → hopc s t 0 < 255 → s ∈ S → on_route t s x → hopc x t 0 ≤ hopc s t 0.
Proof.
  intros Ht Hlt Hs H. induction H as [s _|s p r rem x Hne E Hc H IH]; [done|].
  destruct (mroute_next s t p Hs Ht Hne Hlt E) as (r' & rem' & Hc' & Hd).
  destruct (cable_unique _ _ _ _ _ _ _ _ Hc Hc') as [<- <-].
  specialize (IH ltac:(lia) ltac:(apply Hc)). lia.
Qed.

Lemma next_off_route t s p r rem x :
  t ∈ S → hopc s t 0 < 255 → s ∈ S → s ≠ t → mroute s t = Some p → cable s p r rem →
  on_route t r x → x ≠ s.
Proof.
  intros Ht Hlt Hs Hne E Hc H ->.
  destruct (mroute_next s t p Hs Ht Hne Hlt E) as (r' & rem' & Hc' & Hd).
  destruct (cable_unique _ _ _ _ _ _ _ _ Hc Hc') as [<- <-].
  pose proof (on_route_le t r s Ht ltac:(lia) ltac:(apply Hc) H). lia.
Qed.

(** ** Member ports *)

(** The switch of a port and the port of that switch. *)
Definition home_port (q : osm_port) : Z * Z :=
  if decide (pt_node q ∈ S) then (pt_node q, 0)
  else default (0, 0) (num ← pt_physp q; n ← nodes !! pt_node q; p ← physp_table n !! Z.to_nat num;
         p_remote_physp p).
Notation home q := (home_port q).1.
Notation leaf q := (home_port q).2.

(** How a port is reported as a receiver. *)
Definition endpoint (q : osm_port) : Z * Z :=
  if decide (pt_node q ∈ S) then (pt_node q, 0) else (pt_node q, default 0 (pt_physp q)).

(** The ports of a multicast group. *)
Definition member (q : osm_port) : Prop := ∃ t, attached nodes S q t.

(** Switches are the nodes of type switch, and their port 0 has no cable. *)
Record switches_ok : Prop := {
  so_wires : wires_ok nodes S;
  so_type g n : nodes !! g = Some n → node_is_switch n = true ↔ g ∈ S;
  so_node g : g ∈ S → is_Some (nodes !! g)
}.

Context (Hsw : switches_ok).

Lemma member_home q : member q → attached nodes S q (home q).
Proof.
  intros (t & Ha). assert (E : home q = t); [|by rewrite E].
  destruct Ha as [Ht [[Hn _]|(Hn & num & n & p & rem & p' & E1 & E2 & E3 & E4 & _)]]; unfold home_port.
  - rewrite decide_True by congruence. done.
  - rewrite decide_False by done. rewrite E1. simpl. rewrite E2. simpl. rewrite E3. simpl. by rewrite E4.
Qed.

Lemma home_in q : member q → home q ∈ S.
Proof. intros Hm. by destruct (member_home q Hm). Qed.

(** The port of the member's switch leads to the member. *)
Lemma leaf_send q n f :
  member q → 0 ≤ leaf q < np (home q)
  ∧ send nodes S f n (home q) (leaf q) = Some [endpoint q]
  ∧ (leaf q ≠ 0 → ∃ num, mcast_remote nodes (home q) (leaf q) = Some (pt_node q, num) ∧ pt_node q ∉ S).
Proof.
  intros Hm. destruct (member_home q Hm) as [Ht Ha]. pose proof (np_pos nodes S sws _ tt_shape Ht) as Hnp.
  unfold endpoint, send. destruct (decide (pt_node q ∈ S)) as [Hin|Hni].
  - assert (E : home_port q = (pt_node q, 0)) by (unfold home_port; by rewrite decide_True).
    rewrite E in *. simpl in *. split_and!; [lia|lia|done|done].
  - destruct Ha as [[Hn _]|(_ & num & nd & p & rem & p' & E1 & E2 & E3 & E4 & Hrem & Ep & Er)].
    { destruct Hni. by rewrite Hn. }
    assert (E : home_port q = (home q, rem)).
    { unfold home_port in *. rewrite decide_False in * by done. rewrite E1 in *. simpl in *.
      rewrite E2 in *. simpl in *. rewrite E3 in *. simpl in *. by rewrite E4 in *. }
    assert (El : leaf q = rem) by (by rewrite E). rewrite El, E1. clear E El.
    pose proof (linked_port_in nodes S _ _ _ (so_wires Hsw) Ht Ep ltac:(congruence)).
    assert (Erm : mcast_remote nodes (home q) rem = Some (pt_node q, num))
      by (unfold mcast_remote; by rewrite Ep).
    split_and!; [lia|lia| |].
    + destruct (Z.eqb_spec rem 0); [lia|]. rewrite Erm. by rewrite bool_decide_false.
    + intros _. by exists num.
Qed.
End Routes.

#[global] Arguments tt_shape {BO nodes S sws TreeTables}.
#[global] Arguments tt_cables {BO nodes S sws TreeTables}.
#[global] Arguments tt_range {BO nodes S sws TreeTables}.
#[global] Arguments tt_port {BO nodes S sws TreeTables}.
#[global] Arguments tt_prefix {BO nodes S sws TreeTables}.
