(* ===== verification/McastBranch.v ===== *)
(** * What [mcast_mgr_branch] leaves in the tables

    On hop tables with [TreeTables], the tables of the switches of a branch carry a
    packet that enters the branch from above to every member of its list, and a
    packet of one of these members to the others and out of the branch. *)

From S2P Require Import Prelude IbTypes Switch UcastMgr McastTbl McastMgr McastTree.

Open Scope Z_scope.

Section Branch.
Context {BO : ByteOrder}.
Variable nodes : gmap Z osm_node.
Variable S : gset Z.
Variable sws : gmap Z osm_switch.
Variable mcast_cap : Z → Z.
Variable use_ucast_cache : bool.
Variables mlid hi : Z.     (* the MLID, and the highest offset that has a row *)

Notation np := (num_physp nodes).
Notation cable := (cable nodes S).
Notation hopc := (hopc nodes sws).
Notation mroute := (mroute nodes sws).
Notation on_route := (on_route nodes S sws).
Notation home q := (home_port nodes S q).1.
Notation leaf q := (home_port nodes S q).2.
Notation endpoint := (endpoint S).
Notation member := (member nodes S).

Context {TT : TreeTables nodes S sws} (Hsw : switches_ok nodes S).
Context (Hcap : ∀ s, s ∈ S → mcast_cap s ≠ 0).
Context (Hmlid : IB_LID_MCAST_START_HO ≤ mlid ≤ IB_LID_MCAST_START_HO + hi).

(** ** The list of a port *)

Notation recommend s sw tbl q := (osm_switch_recommend_mcast_path nodes sws s sw tbl q mlid true).

Lemma recommend_port s sw tbl q :
  member q → sws !! s = Some sw → s ∈ S → hopc s (home q) 0 < 255 →
  (s = home q ∧ recommend s sw tbl q = leaf q)
  ∨ (s ≠ home q ∧ mroute s (home q) = Some (recommend s sw tbl q)).
Proof.
  intros Hm Hsws Hs Hlt. pose proof (member_home _ _ q Hm) as Ha.
  unfold osm_switch_recommend_mcast_path. rewrite (sh_dom _ _ _ tt_shape).
  rewrite (attached_target nodes S q (home q) s Ha Hs).
  case_decide as Hsh.
  - left. split; [done|]. clear. unfold home_port. case_decide; [done|].
    match goal with |- from_option _ _ ?x = _ => by destruct x end.
  - right. split; [done|].
    destruct (tt_port s (home q) Hs (proj1 Ha) Hsh Hlt) as (p & _ & _ & E & _).
    rewrite E. f_equal. unfold McastTree.mroute in E. rewrite Hsws in E. simpl in E.
    case_match; [done|]. by rewrite E.
Qed.

Lemma subdivide_lookup s sw tbl L n k :
  (∀ q, q ∈ L → 0 ≤ recommend s sw tbl q < n) → n ≤ 255 → 0 ≤ k < n →
  mcast_mgr_subdivide nodes sws mlid s sw tbl L n !! Z.to_nat k
  = Some (filter (λ q, recommend s sw tbl q = k) L).
Proof.
  intros HL Hn Hk. unfold mcast_mgr_subdivide.
  assert (Hgen : ∀ a (acc : list (list osm_port)), acc !! Z.to_nat k = Some a →
    foldl (λ list_array q,
      let port_num := recommend s sw tbl q in
      if port_num =? OSM_NO_PATH then list_array
      else if n <=? port_num then list_array
      else alter (λ l, l ++ [q]) (Z.to_nat port_num) list_array) acc L !! Z.to_nat k
    = Some (a ++ filter (λ q, recommend s sw tbl q = k) L)).
  { induction L as [|q L IH]; intros a acc Ha; simpl; [by rewrite app_nil_r|].
    pose proof (HL q ltac:(left)) as Hq. unfold OSM_NO_PATH.
    destruct (Z.eqb_spec (recommend s sw tbl q) 255); [lia|].
    destruct (Z.leb_spec n (recommend s sw tbl q)); [lia|]. rewrite filter_cons.
    destruct (decide (recommend s sw tbl q = k)) as [E|E].
    - rewrite (IH ltac:(intros; apply HL; by right) (a ++ [q])); [by rewrite <-app_assoc|].
      by rewrite E, list_lookup_alter_eq, Ha.
    - apply IH; [intros; apply HL; by right|]. rewrite list_lookup_alter_ne by lia. done. }
  rewrite (Hgen []); [done|]. by rewrite lookup_replicate_2 by lia.
Qed.

(** ** The tables *)

(** The ports of a switch for an MLID. *)
Definition port_set (sm : osm_sm_mcast) (m s p : Z) : bool :=
  from_option (λ t, osm_mcast_tbl_is_port t m p) false (mcast_tbls sm !! s).

(** Every switch has a table with rows up to [hi] and positions for its ports. *)
Definition tables_ready (sm : osm_sm_mcast) : Prop :=
  ∀ s, s ∈ S → ∃ t, mcast_tbls sm !! s = Some t ∧ tbl_wf t
    ∧ (∀ o, 0 ≤ o ≤ hi → offset_ok t o) ∧ ∀ p, 0 ≤ p < np s → port_ok t p.

Lemma set_port_ready sm s p :
  tables_ready sm → s ∈ S → 0 ≤ p < np s →
  let sm' := mcast_tbl_set_port s mlid p sm in
  tables_ready sm'
  ∧ (∀ m x p', IB_LID_MCAST_START_HO ≤ m → 0 ≤ p' →
       port_set sm' m x p' = bool_decide (m = mlid ∧ x = s ∧ p' = p) || port_set sm m x p')
  ∧ ∀ x, x ≠ s → mcast_tbls sm' !! x = mcast_tbls sm !! x.
Proof.
  intros Hr Hs Hp sm'. destruct (Hr s Hs) as (t & Et & Hwf & Ho & Hpo).
  assert (Hom : offset_ok t (mlid - IB_LID_MCAST_START_HO)) by (apply Ho; lia).
  assert (E : mcast_tbls sm' = <[s := osm_mcast_tbl_set t mlid p]> (mcast_tbls sm)).
  { exact (alter_as_insert (mcast_tbls sm) (λ t, osm_mcast_tbl_set t mlid p) s t Et). }
  assert (Hne : ∀ x, x ≠ s → mcast_tbls sm' !! x = mcast_tbls sm !! x)
    by (intros x Hx; rewrite E; by rewrite lookup_insert_ne).
  split_and!; [| |done].
  - intros x Hx. destruct (decide (x = s)) as [->|Hxs]; [|rewrite Hne by done; by apply Hr].
    exists (osm_mcast_tbl_set t mlid p). rewrite E, lookup_insert_eq.
    destruct (set_fields t mlid p) as (E1 & E2 & _). unfold offset_ok, port_ok. rewrite E1, E2.
    split; [done|]. split; [by apply set_wf; auto|]. split; [exact Ho|exact Hpo].
  - intros m x p' Hm Hp'. unfold port_set. destruct (decide (x = s)) as [->|Hxs].
    + rewrite E, lookup_insert_eq, Et. simpl. rewrite set_is_port by auto.
      f_equal. apply bool_decide_ext. naive_solver.
    + rewrite Hne by done. rewrite bool_decide_false by naive_solver. done.
Qed.

(** The switches of a branch: those on the routes to its members. *)
Definition region (s : Z) (L : list osm_port) (x : Z) : Prop :=
  ∃ q, q ∈ L ∧ on_route (home q) s x.

Definition agrees (f : Z → Z → bool) (sm : osm_sm_mcast) (s : Z) (L : list osm_port) : Prop :=
  ∀ x p, region s L x → 0 ≤ p < np x → f x p = port_set sm mlid x p.

(** A packet from above reaches all members. *)
Definition delivers_down (n : nat) (sm : osm_sm_mcast) (s : Z) (L : list osm_port) (up : Z) : Prop :=
  ∀ f m, agrees f sm s L → (n ≤ m)%nat →
    ∃ l, flood nodes S f m s up = Some l ∧ l ≡ₚ endpoint <$> L.

(** A packet of a member reaches the others, and what the switches above add. *)
Definition delivers_up (n : nat) (sm : osm_sm_mcast) (s : Z) (L : list osm_port) (up : option Z) : Prop :=
  ∀ f k U, agrees f sm s L →
    (∀ m, (k ≤ m)%nat → ∃ l, from_option (send nodes S f m s) (Some []) up = Some l ∧ l ≡ₚ U) →
    ∀ q m, q ∈ L → (max n k + n ≤ m)%nat →
      ∃ l, flood nodes S f m (home q) (leaf q) = Some l ∧ endpoint q :: l ≡ₚ (endpoint <$> L) ++ U.

Lemma region_in s L x : region s L x → x ∈ S.
Proof. intros (q & _ & Ho). by induction Ho. Qed.

Lemma region_refl s L : s ∈ S → L ≠ [] → region s L s.
Proof. intros Hs HL. destruct L as [|q L]; [done|]. exists q. split; [left|by constructor]. Qed.

Lemma agrees_same f sm sm' s L :
  (∀ x, region s L x → mcast_tbls sm' !! x = mcast_tbls sm !! x) → agrees f sm' s L → agrees f sm s L.
Proof. intros He Ha x p Hx Hp. rewrite (Ha x p Hx Hp). unfold port_set. by rewrite He. Qed.

Lemma delivers_same n sm sm' s L up :
  (∀ x, region s L x → mcast_tbls sm' !! x = mcast_tbls sm !! x) →
  delivers_down n sm s L up ∧ delivers_up n sm s L (Some up) →
  delivers_down n sm' s L up ∧ delivers_up n sm' s L (Some up).
Proof.
  intros He [Hd Hu]. split.
  - intros f m Ha. by apply Hd, (agrees_same f sm sm').
  - intros f k U Ha. by apply Hu, (agrees_same f sm sm').
Qed.

(** What a branch with upstream port [up] does. *)
Record branch_post (n : nat) (sm sm' : osm_sm_mcast) (s : Z) (L : list osm_port) (up : option Z) : Prop := {
  bp_ready : tables_ready sm';
  bp_region x : ¬ region s L x → mcast_tbls sm' !! x = mcast_tbls sm !! x;
  bp_other m x p : IB_LID_MCAST_START_HO ≤ m → m ≠ mlid → 0 ≤ p → port_set sm' m x p = port_set sm m x p;
  bp_rest : sm' = sm <| mcast_tbls := mcast_tbls sm' |>;
  bp_down u : up = Some u → delivers_down n sm' s L u;
  bp_up : delivers_up n sm' s L up
}.

(** ** One switch of the tree *)

Section Node.
Variables (s : Z) (sw : osm_switch) (tbl : osm_mcast_tbl) (L : list osm_port).
Context (Hs : s ∈ S) (Hsws : sws !! s = Some sw).
Context (Hmem : ∀ q, q ∈ L → member q ∧ hopc s (home q) 0 < 255).
Context (Hnd : NoDup (endpoint <$> L)).

Definition part (k : Z) : list osm_port := filter (λ q, recommend s sw tbl q = k) L.

Lemma elem_of_part k q : q ∈ part k ↔ recommend s sw tbl q = k ∧ q ∈ L.
Proof. unfold part. by rewrite list_elem_of_filter. Qed.

Lemma part_at_home k q :
  q ∈ part k → s = home q → part k = [q] ∧ leaf q = k ∧ 0 ≤ k < np s
    ∧ (∀ f n, send nodes S f n s k = Some [endpoint q])
    ∧ (k ≠ 0 → ∃ num, mcast_remote nodes s k = Some (pt_node q, num) ∧ pt_node q ∉ S).
Proof.
  intros [Ek Hq]%elem_of_part Hh. destruct (Hmem q Hq) as [Hm Hlt].
  destruct (recommend_port s sw tbl q Hm Hsws Hs Hlt) as [[_ El]|[? _]]; [|done].
  destruct (leaf_send _ _ _ Hsw q 0 (λ _ _, true) Hm) as (Hr & _ & Hrem).
  assert (Hsend : ∀ f n, send nodes S f n s k = Some [endpoint q]).
  { intros f n. destruct (leaf_send _ _ _ Hsw q n f Hm) as (_ & E & _).
    by rewrite <-Hh, <-El, Ek in E. }
  rewrite <-Hh, <-El, Ek in Hr. rewrite <-Hh, <-El, Ek in Hrem.
  split_and!; [|congruence|lia|lia|done|done].
  assert (Hall : ∀ q', q' ∈ part k → endpoint q' = endpoint q).
  { intros q' [Ek' Hq']%elem_of_part. destruct (Hmem q' Hq') as [Hm' Hlt'].
    destruct (recommend_port s sw tbl q' Hm' Hsws Hs Hlt') as [[Hh' El']|[Hne Er]].
    - destruct (leaf_send _ _ _ Hsw q' 0 (λ _ _, true) Hm') as (_ & E & _).
      rewrite <-Hh', <-El', Ek', Hsend in E. congruence.
    - exfalso. rewrite Ek' in Er. destruct (mroute_next nodes S sws s (home q') k Hs
        (proj1 (member_home _ _ _ Hm')) Hne Hlt' Er) as (r & rem & (_ & Hk & HrS & p & Ep & Er') & _).
      destruct (Hrem ltac:(lia)) as (num & E & Hno). unfold mcast_remote in E. rewrite Ep in E. simpl in E.
      rewrite Er' in E. injection E as -> _. done. }
  assert (Hnp : NoDup (endpoint <$> part k)).
  { apply (sublist_NoDup _ (endpoint <$> L)); [done|]. apply fmap_sublist, sublist_filter. }
  assert (Hin : q ∈ part k) by (by apply elem_of_part).
  destruct (part k) as [|a [|b l]].
  - by apply not_elem_of_nil in Hin.
  - apply list_elem_of_singleton in Hin. by subst.
  - exfalso. rewrite !fmap_cons, !NoDup_cons in Hnp. destruct Hnp as [Ha _]. apply Ha.
    rewrite (Hall a), (Hall b); [left|right; left|left].
Qed.

Lemma part_cases k :
  part k ≠ [] →
  (∃ q, q ∈ L ∧ part k = [q] ∧ s = home q ∧ 0 ≤ k < np s ∧ (∀ f n, send nodes S f n s k = Some [endpoint q])
     ∧ (k ≠ 0 → ∃ num, mcast_remote nodes s k = Some (pt_node q, num) ∧ pt_node q ∉ S))
  ∨ (∃ r rem, cable s k r rem ∧ ∀ q, q ∈ part k → s ≠ home q ∧ mroute s (home q) = Some k
       ∧ hopc r (home q) 0 < hopc s (home q) 0).
Proof.
  intros Hne. destruct (part k) as [|q l] eqn:E; [done|].
  assert (Hq : q ∈ part k) by (rewrite E; left).
  destruct (decide (s = home q)) as [Hh|Hh].
  - left. destruct (part_at_home k q Hq Hh) as (Ep & El & Hk & Hsend & Hrem).
    apply elem_of_part in Hq as [_ Hq]. exists q. by split_and!; try congruence; try lia.
  - right. rewrite <-E. pose proof Hq as [Ek HqL]%elem_of_part. destruct (Hmem q HqL) as [Hm Hlt].
    destruct (recommend_port s sw tbl q Hm Hsws Hs Hlt) as [[? _]|[_ Er]]; [done|]. rewrite Ek in Er.
    destruct (mroute_next nodes S sws s (home q) k Hs (proj1 (member_home _ _ _ Hm)) Hh Hlt Er)
      as (r & rem & Hc & _).
    exists r, rem. split; [done|]. intros q' Hq'. pose proof Hq' as [Ek' HqL']%elem_of_part.
    destruct (Hmem q' HqL') as [Hm' Hlt'].
    destruct (decide (s = home q')) as [Hh'|Hh'].
    + exfalso. destruct (part_at_home k q' Hq' Hh') as (Ep & _). rewrite Ep in Hq.
      apply list_elem_of_singleton in Hq. congruence.
    + destruct (recommend_port s sw tbl q' Hm' Hsws Hs Hlt') as [[? _]|[_ Er']]; [done|]. rewrite Ek' in Er'.
      destruct (mroute_next nodes S sws s (home q') k Hs (proj1 (member_home _ _ _ Hm')) Hh' Hlt' Er')
        as (r' & rem' & Hc' & Hd).
      destruct (cable_unique _ _ _ _ _ _ _ _ Hc Hc') as [<- <-]. done.
Qed.

(** The branches of two ports have no switch in common, nor [s] itself. *)
Lemma child_region k r rem x :
  cable s k r rem → part k ≠ [] → region r (part k) x →
  region s L x ∧ x ≠ s ∧ mroute s x = Some k.
Proof.
  intros Hc Hne (q & Hq & Ho). destruct (part_cases k Hne) as [(q' & HqL' & Ep & Hh & Hk & _ & Hrem)|(r' & rem' & Hc' & Hall)].
  - exfalso. pose proof Hc as (_ & Hk' & HrS & p & Epp & Er). destruct (Hrem ltac:(lia)) as (num & E & Hno).
    unfold mcast_remote in E. rewrite Epp in E. simpl in E. rewrite Er in E. injection E as -> _. done.
  - destruct (cable_unique _ _ _ _ _ _ _ _ Hc Hc') as [<- <-]. destruct (Hall q Hq) as (Hh & Er & Hd).
    apply elem_of_part in Hq as [_ HqL]. destruct (Hmem q HqL) as [Hm Hlt].
    pose proof (proj1 (member_home _ _ _ Hm)) as Ht. split_and!.
    + exists q. split; [done|]. by eapply or_next.
    + by eapply (next_off_route nodes S sws (home q) s k r rem x).
    + by eapply (tt_prefix s (home q) k r rem x).
Qed.

Lemma part_range q : q ∈ L → 0 ≤ recommend s sw tbl q < np s.
Proof.
  intros Hq. assert (Hp : q ∈ part (recommend s sw tbl q)) by (by apply elem_of_part).
  destruct (part_cases (recommend s sw tbl q)) as [(_ & _ & _ & _ & ? & _)|(r & rem & (_ & ? & _) & _)];
    [|lia|lia]. intros E. rewrite E in Hp. by apply not_elem_of_nil in Hp.
Qed.

Lemma parts_perm : seqZ 0 (np s) ≫= part ≡ₚ L.
Proof.
  apply partition_perm; [apply NoDup_seqZ|]. intros q Hq. apply elem_of_seqZ.
  pose proof (part_range q Hq). lia.
Qed.

(** *** The loop over the ports *)

Section Loop.
Variables (n : nat) (sm0 : osm_sm_mcast) (up : option Z) (list_array : list (list osm_port)).
Variable branch : Z → list osm_port → Z → osm_sm_mcast → option osm_mtree_node * osm_sm_mcast.
Context (Harr : ∀ k, 0 ≤ k < np s → default [] (list_array !! Z.to_nat k) = part k).
Context (HL : L ≠ []).
Context (Hchild : ∀ k r rem sm, cable s k r rem → part k ≠ [] → tables_ready sm →
  (∀ x p, region r (part k) x → 0 ≤ p < np x → port_set sm mlid x p = false) →
  ∃ t sm', branch r (part k) rem sm = (Some t, sm') ∧ branch_post n sm sm' r (part k) (Some rem)).

Record loop_inv (seen : list Z) (sm : osm_sm_mcast) : Prop := {
  li_ready : tables_ready sm;
  li_row p : 0 ≤ p < np s →
    port_set sm mlid s p = bool_decide (up = Some p) || bool_decide (p ∈ seen ∧ part p ≠ []);
  li_region x : ¬ region s L x → mcast_tbls sm !! x = mcast_tbls sm0 !! x;
  li_other m x p : IB_LID_MCAST_START_HO ≤ m → m ≠ mlid → 0 ≤ p → port_set sm m x p = port_set sm0 m x p;
  li_rest : sm = sm0 <| mcast_tbls := mcast_tbls sm |>;
  li_fresh k r rem x p : k ∉ seen → cable s k r rem → part k ≠ [] → region r (part k) x → 0 ≤ p < np x →
    port_set sm mlid x p = false;
  li_done k r rem : k ∈ seen → cable s k r rem → part k ≠ [] →
    delivers_down n sm r (part k) rem ∧ delivers_up n sm r (part k) (Some rem)
}.

(** The bit of port [k] is set. *)
Lemma loop_set seen sm k :
  loop_inv seen sm → 0 ≤ k < np s → part k ≠ [] →
  let sm' := mcast_tbl_set_port s mlid k sm in
  (∀ k' r rem x, cable s k' r rem → part k' ≠ [] → region r (part k') x →
     mcast_tbls sm' !! x = mcast_tbls sm !! x)
  ∧ (∀ k', (∀ r rem, ¬ cable s k' r rem) → k' = k → loop_inv (seen ++ [k]) sm')
  ∧ tables_ready sm'
  ∧ (∀ p, 0 ≤ p < np s →
       port_set sm' mlid s p = bool_decide (up = Some p) || bool_decide (p ∈ seen ++ [k] ∧ part p ≠ []))
  ∧ (∀ x, ¬ region s L x → mcast_tbls sm' !! x = mcast_tbls sm0 !! x)
  ∧ (∀ m x p, IB_LID_MCAST_START_HO ≤ m → m ≠ mlid → 0 ≤ p → port_set sm' m x p = port_set sm0 m x p)
  ∧ sm' = sm0 <| mcast_tbls := mcast_tbls sm' |>.
Proof.
  intros [Jr Jrow Jreg Joth Jrest Jf Jd] Hk Hne sm'.
  destruct (set_port_ready sm s k Jr Hs Hk) as (Hr & Hp & Hx). fold sm' in Hr, Hp, Hx.
  assert (Hch : ∀ k' r rem x, cable s k' r rem → part k' ≠ [] → region r (part k') x →
    mcast_tbls sm' !! x = mcast_tbls sm !! x).
  { intros k' r rem x Hc Hne' Hin. apply Hx. by apply (child_region k' r rem x Hc Hne' Hin). }
  assert (Hrow : ∀ p, 0 ≤ p < np s →
    port_set sm' mlid s p = bool_decide (up = Some p) || bool_decide (p ∈ seen ++ [k] ∧ part p ≠ [])).
  { intros p Hpr. rewrite Hp, Jrow by (done || lia).
    destruct (decide (p = k)) as [->|Hpk].
    - rewrite bool_decide_true by done. simpl. rewrite (bool_decide_true (k ∈ seen ++ [k] ∧ _)).
      + by rewrite orb_true_r.
      + split; [apply elem_of_app; right; left|done].
    - rewrite bool_decide_false by naive_solver. simpl. f_equal. apply bool_decide_ext. set_solver. }
  assert (Hreg : ∀ x, ¬ region s L x → mcast_tbls sm' !! x = mcast_tbls sm0 !! x).
  { intros x Hnr. rewrite Hx; [by apply Jreg|]. intros ->. apply Hnr. by apply region_refl. }
  assert (Hoth : ∀ m x p, IB_LID_MCAST_START_HO ≤ m → m ≠ mlid → 0 ≤ p → port_set sm' m x p = port_set sm0 m x p).
  { intros m x p Hm Hmn Hp'. rewrite Hp, bool_decide_false by naive_solver. by apply Joth. }
  assert (Hrest : sm' = sm0 <| mcast_tbls := mcast_tbls sm' |>).
  { unfold sm', mcast_tbl_set_port. rewrite Jrest. done. }
  split_and!; try done. intros k' Hnc ->. split; try done.
  - intros k' r rem x p Hni Hc Hne' Hin Hpx. unfold port_set. rewrite (Hch k' r rem x Hc Hne' Hin).
    apply (Jf k' r rem); try done. intros Hs'. apply Hni, elem_of_app. by left.
  - intros k' r rem [Hin | ->%list_elem_of_singleton]%elem_of_app Hc Hne'; [|by destruct (Hnc r rem)].
    apply (delivers_same n sm); [|by apply Jd]. intros x Hx'. by apply (Hch k' r rem).
Qed.

Lemma loop_skip seen sm k : loop_inv seen sm → part k = [] → loop_inv (seen ++ [k]) sm.
Proof.
  intros [Jr Jrow Jreg Joth Jrest Jf Jd] E. split; try done.
  - intros p Hp. rewrite Jrow by done. f_equal. apply bool_decide_ext. rewrite elem_of_app.
    split; [naive_solver|]. intros [[?| ->%list_elem_of_singleton] ?]; [done|congruence].
  - intros k' r rem x p Hni. apply Jf. intros ?. apply Hni, elem_of_app. by left.
  - intros k' r rem [Hin | ->%list_elem_of_singleton]%elem_of_app; [by apply Jd|congruence].
Qed.

Lemma loop_step seen st k :
  loop_inv seen st.2 → 0 ≤ k < np s → k ∉ seen →
  loop_inv (seen ++ [k]) (mcast_branch_port nodes use_ucast_cache branch mlid s list_array st k).2.
Proof.
  destruct st as [ch sm]. intros Hi Hk Hni. simpl in Hi. unfold mcast_branch_port. rewrite Harr by done.
  destruct (decide (part k = [])) as [E|Hne]; [rewrite E; by apply loop_skip|].
  destruct (loop_set seen sm k Hi Hk Hne) as (Hch & Hleaf & Hr & Hrow & Hreg & Hoth & Hrest).
  destruct (part k) as [|q0 l0] eqn:Epk in |- *; [done|]. rewrite <-Epk.
  destruct (part_cases k Hne) as [(q & Hq & Ep & Hh & _ & _ & Hrem)|(r & rem & Hc & Hall)].
  - assert (Hnc : ∀ r rem, ¬ cable s k r rem).
    { intros r rem (_ & Hk1 & HrS & p & Epp & Er). destruct (Hrem ltac:(lia)) as (num & E & Hno).
      unfold mcast_remote in E. rewrite Epp in E. simpl in E. rewrite Er in E. injection E as -> _. done. }
    destruct (Z.eqb_spec k 0) as [E0|E0]; [by apply (Hleaf k)|].
    destruct (Hrem E0) as (num & E & Hno). rewrite E.
    assert (Ht : from_option node_is_switch false (nodes !! pt_node q) = false).
    { destruct (nodes !! pt_node q) as [nd|] eqn:En; [|done]. simpl.
      destruct (node_is_switch nd) eqn:Ei; [|done]. by apply (so_type _ _ Hsw _ _ En) in Ei. }
    rewrite Ht. by apply (Hleaf k).
  - pose proof Hc as (_ & Hk1 & HrS & p & Epp & Er). rewrite (proj2 (Z.eqb_neq k 0)) by lia.
    assert (E : mcast_remote nodes s k = Some (r, rem)) by (unfold mcast_remote; by rewrite Epp).
    rewrite E. assert (Ht : from_option node_is_switch false (nodes !! r) = true).
    { destruct (so_node _ _ Hsw r HrS) as [nd En]. rewrite En. simpl. by apply (so_type _ _ Hsw _ _ En). }
    rewrite Ht. set (sm1 := mcast_tbl_set_port s mlid k sm) in *.
    destruct (Hchild k r rem sm1 Hc Hne Hr) as (t & sm2 & Eb & [Br Breg Both Brest Bd Bu]).
    { intros x p' Hx Hp'. unfold port_set. rewrite (Hch k r rem x Hc Hne Hx).
      by apply (li_fresh _ _ Hi k r rem x p' Hni Hc Hne Hx Hp'). }
    rewrite Eb. simpl.
    assert (Hout : ∀ k' r' rem' x, k' ≠ k → cable s k' r' rem' → part k' ≠ [] → region r' (part k') x →
      mcast_tbls sm2 !! x = mcast_tbls sm !! x).
    { intros k' r' rem' x Hkk Hc' Hne' Hx. rewrite Breg; [by apply (Hch k' r' rem')|]. intros Hx'.
      destruct (child_region k' r' rem' x Hc' Hne' Hx) as (_ & _ & E1).
      destruct (child_region k r rem x Hc Hne Hx') as (_ & _ & E2). congruence. }
    assert (Hs_out : ¬ region r (part k) s).
    { intros Hx. by destruct (child_region k r rem s Hc Hne Hx) as (_ & ? & _). }
    split.
    + done.
    + intros p' Hp'. unfold port_set. rewrite Breg by done. by apply Hrow.
    + intros x Hx. rewrite Breg; [by apply Hreg|]. intros Hx'. apply Hx.
      by apply (child_region k r rem x Hc Hne Hx').
    + intros m x p' Hm Hmn Hp'. rewrite Both by done. by apply Hoth.
    + rewrite Brest, Hrest. done.
    + intros k' r' rem' x p' Hni' Hc' Hne' Hx Hp'.
      assert (k' ≠ k) by (intros ->; apply Hni', elem_of_app; right; left).
      unfold port_set. rewrite (Hout k' r' rem' x) by done.
      apply (li_fresh _ _ Hi k' r' rem' x p'); try done. intros ?. apply Hni', elem_of_app. by left.
    + intros k' r' rem' [Hin | ->%list_elem_of_singleton]%elem_of_app Hc' Hne'.
      * apply (delivers_same n sm); [|by apply (li_done _ _ Hi)]. intros x Hx.
        apply (Hout k' r' rem' x); try done. by intros ->.
      * destruct (cable_unique _ _ _ _ _ _ _ _ Hc Hc') as [<- <-]. split; [by apply Bd|done].
Qed.

Lemma loop_all st :
  loop_inv [] st.2 →
  loop_inv (seqZ 0 (np s))
    (foldl (mcast_branch_port nodes use_ucast_cache branch mlid s list_array) st (seqZ 0 (np s))).2.
Proof.
  assert (Hgen : ∀ todo seen st, seen ++ todo = seqZ 0 (np s) → loop_inv seen st.2 →
    loop_inv (seen ++ todo)
      (foldl (mcast_branch_port nodes use_ucast_cache branch mlid s list_array) st todo).2).
  { induction todo as [|k todo IH]; intros seen st' E Hi; simpl; [by rewrite app_nil_r|].
    rewrite cons_middle, app_assoc in E |- *. apply IH; [done|].
    pose proof (NoDup_seqZ 0 (np s)) as Hnd'. rewrite <-E in Hnd'. apply NoDup_app in Hnd' as [Hnd' _].
    apply loop_step; [done| |].
    - assert (k ∈ seqZ 0 (np s)) as Hk%elem_of_seqZ; [|lia]. rewrite <-E. set_solver.
    - apply NoDup_app in Hnd' as (_ & Hd & _). intros Hin. apply (Hd k Hin). left. }
  intros Hi. by apply (Hgen (seqZ 0 (np s)) []).
Qed.

(** *** The switch after the loop *)

Section Done.
Variable sm : osm_sm_mcast.
Context (Hdone : loop_inv (seqZ 0 (np s)) sm).
Context (Hup : ∀ u, up = Some u → 0 ≤ u < np s ∧ part u = []).

Lemma part_row f p :
  agrees f sm s L → 0 ≤ p < np s → f s p = bool_decide (up = Some p) || bool_decide (part p ≠ []).
Proof.
  intros Ha Hp. rewrite Ha by (done || by apply region_refl). rewrite (li_row _ _ Hdone) by done.
  f_equal. apply bool_decide_ext. rewrite elem_of_seqZ. split; [naive_solver|]. intros ?. split; [lia|done].
Qed.

Lemma child_agrees f k r rem :
  agrees f sm s L → cable s k r rem → part k ≠ [] → agrees f sm r (part k).
Proof. intros Ha Hc Hne x p Hx Hp. apply Ha; [|done]. by apply (child_region k r rem x Hc Hne Hx). Qed.

Lemma part_send f m p :
  agrees f sm s L → (n ≤ m)%nat → part p ≠ [] →
  ∃ l, send nodes S f m s p = Some l ∧ l ≡ₚ endpoint <$> part p.
Proof.
  intros Ha Hm Hne. destruct (part_cases p Hne) as [(q & Hq & Ep & Hh & _ & Hsend & _)|(r & rem & Hc & _)].
  - exists [endpoint q]. by rewrite Hsend, Ep.
  - pose proof Hc as (_ & Hp1 & HrS & pp & Epp & Er). unfold send.
    rewrite (proj2 (Z.eqb_neq p 0)) by lia. unfold mcast_remote. rewrite Epp. simpl. rewrite Er.
    rewrite bool_decide_true by done.
    destruct (li_done _ _ Hdone p r rem ltac:(apply elem_of_seqZ; lia) Hc Hne) as [Hd _].
    apply Hd; [by apply (child_agrees f p r rem)|done].
Qed.

(** What leaves through a port, with [U] for the upstream port. *)
Definition share (U : list (Z * Z)) (p : Z) : list (Z * Z) :=
  if decide (up = Some p) then U else endpoint <$> part p.

Lemma bind_endpoint (l : list Z) : l ≫= (λ p, endpoint <$> part p) = endpoint <$> (l ≫= part).
Proof. induction l as [|p l IH]; [done|]. by rewrite !bind_cons, fmap_app, IH. Qed.

Lemma share_total U : (up = None → U = []) → seqZ 0 (np s) ≫= share U ≡ₚ (endpoint <$> L) ++ U.
Proof.
  intros HU. pose proof parts_perm as HL'. apply (fmap_Permutation endpoint) in HL'.
  rewrite <-bind_endpoint in HL'. rewrite <-HL'. destruct (decide (up = None)) as [E|E].
  - rewrite (HU E), app_nil_r. apply reflexive_eq. apply list_bind_ext; [|done].
    intros p. unfold share. by rewrite E.
  - destruct up as [u|] eqn:Eu; [|done]. destruct (Hup u eq_refl) as [Hu Epu].
    assert (Hin : u ∈ seqZ 0 (np s)) by (apply elem_of_seqZ; lia).
    rewrite (bind_pull (share U) _ u Hin (NoDup_seqZ _ _)).
    rewrite (bind_pull (λ p, endpoint <$> part p) _ u Hin (NoDup_seqZ _ _)). rewrite Epu. simpl.
    rewrite Permutation_app_comm. apply reflexive_eq. f_equal.
    + assert (Hgen : ∀ l, (∀ p, p ∈ l → p ≠ u) → l ≫= share U = l ≫= (λ p, endpoint <$> part p)).
      { induction l as [|p l IH]; intros Hl; [done|]. rewrite !bind_cons, IH by (intros; apply Hl; by right).
        f_equal. unfold share. rewrite Eu, decide_False; [done|]. intros [= ->]. by apply (Hl p); [left|]. }
      apply Hgen. by intros p [? _]%list_elem_of_filter.
    + unfold share. by rewrite Eu, decide_True.
Qed.

(** A packet that enters through [k]. *)
Lemma node_flood f k U m :
  agrees f sm s L → 0 ≤ k < np s → (n ≤ m)%nat →
  (up = Some k ∨ ∃ l, from_option (send nodes S f m s) (Some []) up = Some l ∧ l ≡ₚ U) →
  ∃ l, flood nodes S f (Datatypes.S m) s k = Some l
    ∧ share U k ++ l ≡ₚ seqZ 0 (np s) ≫= share U.
Proof.
  intros Ha Hk Hm HU. apply flood_node.
  - apply elem_of_seqZ. lia.
  - intros p Hp%elem_of_seqZ Ef Hpk. rewrite part_row in Ef by (done || lia). unfold share.
    destruct (decide (up = Some p)) as [E|E].
    + destruct HU as [?|HU]; [congruence|]. by rewrite E in HU.
    + rewrite (bool_decide_false _ E) in Ef. simpl in Ef. apply bool_decide_eq_true in Ef.
      by apply part_send.
  - intros p Hp%elem_of_seqZ Ef Hpk. rewrite part_row in Ef by (done || lia). unfold share.
    apply orb_false_iff in Ef as [E1%bool_decide_eq_false E2%bool_decide_eq_false].
    rewrite decide_False by done. destruct (decide (part p = [])) as [->|?]; [done|]. by destruct E2.
Qed.

Lemma done_down u : up = Some u → delivers_down (Datatypes.S n) sm s L u.
Proof.
  intros Eu f m Ha Hm. destruct m as [|m]; [lia|]. destruct (Hup u Eu) as [Hu Epu].
  destruct (node_flood f u [] m Ha Hu ltac:(lia) ltac:(by left)) as (l & El & Hl). exists l. split; [done|].
  rewrite share_total in Hl by congruence. rewrite app_nil_r in Hl. rewrite <-Hl. unfold share.
  by rewrite decide_True.
Qed.

Lemma done_up : delivers_up (Datatypes.S n) sm s L up.
Proof.
  intros f kb U Ha HU q m Hq Hm.
  assert (HUn : up = None → U = []).
  { intros E. destruct (HU kb ltac:(done)) as (l & El & Hl). rewrite E in El. injection El as <-.
    by apply Permutation_nil in Hl. }
  set (k := recommend s sw tbl q). assert (Hpk : q ∈ part k) by (by apply elem_of_part).
  assert (Hne : part k ≠ []) by (intros E; rewrite E in Hpk; by apply not_elem_of_nil in Hpk).
  assert (Hk : 0 ≤ k < np s) by (by apply part_range).
  assert (Eku : share U k = endpoint <$> part k).
  { unfold share. rewrite decide_False; [done|]. intros E. by destruct (Hup k E). }
  assert (Hflood : ∀ m, (max n kb ≤ m)%nat → ∃ l, flood nodes S f (Datatypes.S m) s k = Some l
    ∧ (endpoint <$> part k) ++ l ≡ₚ (endpoint <$> L) ++ U).
  { intros m' Hm'. destruct (node_flood f k U m' Ha Hk ltac:(lia)) as (l & El & Hl).
    - right. apply HU. lia.
    - exists l. split; [done|]. by rewrite <-Eku, Hl, share_total. }
  destruct (decide (s = home q)) as [Hh|Hh].
  - destruct (part_at_home k q Hpk Hh) as (Ep & El & _). rewrite <-Hh, El.
    destruct m as [|m]; [lia|]. destruct (Hflood m ltac:(lia)) as (l & Ef & Hl). exists l.
    split; [done|]. by rewrite Ep in Hl.
  - destruct (part_cases k Hne) as [(q' & _ & Ep & Hh' & _)|(r & rem & Hc & _)].
    { rewrite Ep in Hpk. apply list_elem_of_singleton in Hpk. congruence. }
    destruct (li_done _ _ Hdone k r rem ltac:(apply elem_of_seqZ; lia) Hc Hne) as [_ Hdu].
    destruct (Hflood (max n kb) ltac:(lia)) as (U' & _ & HU').
    destruct (Hdu f (Datatypes.S (max n kb)) U' (child_agrees f k r rem Ha Hc Hne)) with (q := q) (m := m)
      as (l & El & Hl); [|done|lia|].
    + intros m' Hm'. simpl. pose proof (tt_cables _ _ _ _ Hc) as (_ & Hrem & _ & p' & Ep' & Er').
      unfold send. rewrite (proj2 (Z.eqb_neq rem 0)) by lia. unfold mcast_remote. rewrite Ep'. simpl.
      rewrite Er', bool_decide_true by done. destruct m' as [|m']; [lia|].
      destruct (Hflood m' ltac:(lia)) as (l & El & Hl). exists l. split; [done|].
      apply (Permutation_app_inv_l (endpoint <$> part k)). by rewrite Hl, HU'.
    + exists l. split; [done|]. by rewrite Hl, HU'.
Qed.

Lemma loop_post : branch_post (Datatypes.S n) sm0 sm s L up.
Proof.
  destruct Hdone as [H1 H2 H3 H4 H5 H6 H7].
  split; try done; [exact done_down|exact done_up].
Qed.
End Done.
End Loop.
End Node.

(** ** The recursion *)

Definition clear_in (sm : osm_sm_mcast) (s : Z) (L : list osm_port) : Prop :=
  ∀ x p, region s L x → 0 ≤ p < np x → port_set sm mlid x p = false.

Definition upstream (depth up : Z) : option Z := if 0 <? depth then Some up else None.

(** The branch above, on which the members are further away. *)
Definition upstream_ok (s : Z) (L : list osm_port) (up : option Z) : Prop :=
  ∀ u, up = Some u → ∃ ps pp, cable s u ps pp ∧ ∀ q, q ∈ L → hopc s (home q) 0 < hopc ps (home q) 0.

(** The loop starts with the upstream port set. *)
Lemma loop_start s sw tbl L n sm up :
  s ∈ S → sws !! s = Some sw → (∀ q, q ∈ L → member q ∧ hopc s (home q) 0 < 255) →
  NoDup (endpoint <$> L) → L ≠ [] → tables_ready sm → clear_in sm s L → upstream_ok s L up →
  loop_inv s sw tbl L n sm up []
    (from_option (λ u, mcast_tbl_set_port s mlid u sm) sm up).
Proof.
  intros Hs Hsws Hmem Hnd HL Hr Hcl Hup.
  assert (Hch : ∀ k r rem x p, cable s k r rem → part s sw tbl L k ≠ [] → region r (part s sw tbl L k) x →
    0 ≤ p < np x → x ≠ s ∧ port_set sm mlid x p = false).
  { intros k r rem x p Hc Hne Hx Hp.
    destruct (child_region s sw tbl L Hs Hsws Hmem Hnd k r rem x Hc Hne Hx) as (Hx' & ? & _).
    split; [done|]. by apply Hcl. }
  assert (Hnil : ∀ p, bool_decide (p ∈ [] ∧ part s sw tbl L p ≠ []) = false).
  { intros p. apply bool_decide_false. intros [Hp _]. by apply not_elem_of_nil in Hp. }
  destruct up as [u|]; simpl.
  - destruct (Hup u eq_refl) as (ps & pp & (_ & Hu & _) & _).
    destruct (set_port_ready sm s u Hr Hs ltac:(lia)) as (Hr' & Hp' & Hx'). split; try done.
    + intros p Hp. rewrite Hp' by (done || lia). rewrite Hcl by (done || by apply region_refl).
      rewrite Hnil, !orb_false_r. apply bool_decide_ext. naive_solver.
    + intros x Hx. apply Hx'. intros ->. by apply Hx, region_refl.
    + intros m x p Hm Hne Hp. by rewrite Hp', bool_decide_false by naive_solver.
    + intros k r rem x p _ Hc Hne Hx Hp. destruct (Hch k r rem x p Hc Hne Hx Hp) as [Hxs E].
      unfold port_set. by rewrite Hx'.
    + intros k r rem Hin. by apply not_elem_of_nil in Hin.
  - split; try done.
    + intros p Hp. rewrite Hcl by (done || by apply region_refl). by rewrite Hnil.
    + by destruct sm.
    + intros k r rem x p _ Hc Hne Hx Hp. by apply (Hch k r rem x p Hc Hne Hx Hp).
    + intros k r rem Hin. by apply not_elem_of_nil in Hin.
Qed.

(** No member is reached through the upstream port. *)
Lemma upstream_unused s sw tbl L up u :
  s ∈ S → sws !! s = Some sw → (∀ q, q ∈ L → member q ∧ hopc s (home q) 0 < 255) →
  NoDup (endpoint <$> L) → upstream_ok s L up → up = Some u →
  0 ≤ u < np s ∧ part s sw tbl L u = [].
Proof.
  intros Hs Hsws Hmem Hnd Hup Eu. destruct (Hup u Eu) as (ps & pp & Hc & Hfar).
  pose proof Hc as (_ & Hu & HpS & p & Ep & Er). split; [lia|].
  destruct (decide (part s sw tbl L u = [])) as [|Hne]; [done|exfalso].
  destruct (part_cases s sw tbl L Hs Hsws Hmem Hnd u Hne) as [(q & _ & _ & _ & _ & _ & Hrem)|(r & rem & Hc' & Hall)].
  - destruct (Hrem ltac:(lia)) as (num & E & Hno). unfold mcast_remote in E. rewrite Ep in E. simpl in E.
    rewrite Er in E. injection E as -> _. done.
  - destruct (cable_unique _ _ _ _ _ _ _ _ Hc Hc') as [<- <-].
    destruct (part s sw tbl L u) as [|q l] eqn:E; [done|]. destruct (Hall q ltac:(left)) as (_ & _ & Hlt).
    assert (Hq : q ∈ part s sw tbl L u) by (rewrite E; left). apply elem_of_part in Hq as [_ Hq].
    specialize (Hfar q Hq). lia.
Qed.

Lemma branch_ok n : ∀ s L depth up sm,
  Z.of_nat n = 64 - depth → 0 ≤ depth → s ∈ S → L ≠ [] →
  (∀ q, q ∈ L → member q ∧ hopc s (home q) 0 + depth ≤ 62) → NoDup (endpoint <$> L) →
  tables_ready sm → clear_in sm s L → upstream_ok s L (upstream depth up) →
  ∃ t sm', mcast_mgr_branch nodes sws mcast_cap use_ucast_cache n mlid s L depth up sm = (Some t, sm')
    ∧ branch_post n sm sm' s L (upstream depth up).
Proof.
  induction n as [|n IH]; intros s L depth up sm Hn Hd Hs HL Hmem Hnd Hr Hcl Hup.
  { destruct L as [|q L]; [done|]. destruct (Hmem q ltac:(left)) as [Hm Hle].
    pose proof (tt_range s (home q) Hs (proj1 (member_home _ _ _ Hm))). lia. }
  assert (Hdle : depth ≤ 62).
  { destruct L as [|q L]; [done|]. destruct (Hmem q ltac:(left)) as [Hm Hle].
    pose proof (tt_range s (home q) Hs (proj1 (member_home _ _ _ Hm))). lia. }
  destruct (shape_lookup nodes S sws s tt_shape Hs) as [sw Hsws].
  destruct (Hr s Hs) as (tbl & Etbl & _).
  assert (Hmem' : ∀ q, q ∈ L → member q ∧ hopc s (home q) 0 < 255)
    by (intros q Hq; destruct (Hmem q Hq); split; [done|lia]).
  pose proof (np_pos nodes S sws s tt_shape Hs) as Hnp.
  pose proof (sh_ports _ _ _ tt_shape _ _ Hsws) as Enp.
  cbn [mcast_mgr_branch]. rewrite Hsws, Etbl, u8_small by lia.
  destruct (Z.leb_spec 64 (depth + 1)); [lia|].
  unfold osm_switch_supports_mcast. rewrite (proj2 (Z.eqb_neq _ 0) (Hcap s Hs)). simpl negb. cbv iota zeta.
  assert (Eset : (if 1 <? depth + 1 then mcast_tbl_set_port s mlid up sm else sm)
    = from_option (λ u, mcast_tbl_set_port s mlid u sm) sm (upstream depth up)).
  { unfold upstream. destruct (Z.ltb_spec 1 (depth + 1)), (Z.ltb_spec 0 depth); (lia || done). }
  rewrite Eset, Enp.
  set (branch := λ r l up' sm', mcast_mgr_branch nodes sws mcast_cap use_ucast_cache n mlid r l (depth + 1) up' sm').
  set (la := mcast_mgr_subdivide nodes sws mlid s sw tbl L (np s)).
  pose proof (loop_start s sw tbl L n sm (upstream depth up) Hs Hsws Hmem' Hnd HL Hr Hcl Hup) as Hstart.
  assert (Harr : ∀ k, 0 ≤ k < np s → default [] (la !! Z.to_nat k) = part s sw tbl L k).
  { intros k Hk. unfold la. rewrite subdivide_lookup; [done| |lia|lia].
    intros q Hq. by apply (part_range s sw tbl L). }
  assert (Hchild : ∀ k r rem sm, cable s k r rem → part s sw tbl L k ≠ [] → tables_ready sm →
    (∀ x p, region r (part s sw tbl L k) x → 0 ≤ p < np x → port_set sm mlid x p = false) →
    ∃ t sm', branch r (part s sw tbl L k) rem sm = (Some t, sm')
      ∧ branch_post n sm sm' r (part s sw tbl L k) (Some rem)).
  { intros k r rem sm' Hc Hne Hr' Hcl'.
    destruct (part_cases s sw tbl L Hs Hsws Hmem' Hnd k Hne) as [(q & _ & _ & _ & _ & _ & Hrem)|(r' & rem' & Hc' & Hall)].
    { exfalso. pose proof Hc as (_ & Hk & HrS & p & Ep & Er). destruct (Hrem ltac:(lia)) as (num & E & Hno).
      unfold mcast_remote in E. rewrite Ep in E. simpl in E. rewrite Er in E. injection E as -> _. done. }
    destruct (cable_unique _ _ _ _ _ _ _ _ Hc Hc') as [<- <-].
    assert (Eup : upstream (depth + 1) rem = Some rem)
      by (unfold upstream; destruct (Z.ltb_spec 0 (depth + 1)); [done|lia]).
    destruct (IH r (part s sw tbl L k) (depth + 1) rem sm') as (t & sm2 & E & Hpost); rewrite ?Eup; try done.
    - lia.
    - lia.
    - apply Hc.
    - intros q Hq. destruct (Hall q Hq) as (_ & _ & Hlt). apply elem_of_part in Hq as [_ Hq].
      destruct (Hmem q Hq). split; [done|lia].
    - apply (sublist_NoDup _ (endpoint <$> L)); [done|]. apply fmap_sublist, sublist_filter.
    - intros u [= <-]. exists s, k. split; [by apply tt_cables|]. intros q Hq. by apply Hall.
    - exists t, sm2. split; [done|]. by rewrite Eup in Hpost. }
  pose proof (loop_all s sw tbl L Hs Hsws Hmem' Hnd n sm (upstream depth up) la branch Harr HL Hchild
    (child_array (osm_mtree_node_new s (np s)), _) Hstart) as Hall.
  destruct (foldl _ _ _) as [children sm']. simpl in Hall. exists (MtreeNode s children), sm'. split; [done|].
  apply (loop_post s sw tbl L Hs Hsws Hmem' Hnd n sm (upstream depth up) HL sm' Hall).
  intros u Eu. by apply (upstream_unused s sw tbl L (upstream depth up) u).
Qed.
End Branch.
