(* ===== verification/McastMgrOk.v ===== *)
(** * The multicast manager delivers

    The member lists, the root, the sweep over all MLIDs and the messages that carry
    the tables to the switches. *)

From S2P Require Import Prelude IbTypes Switch UcastMgr McastTbl McastMgr McastTree McastBranch.

Open Scope Z_scope.

(** ** The member ports of a box *)

(** Every port of every group of the box. *)
Definition box_port (mbox : osm_mgrp_box) (g : Z) (q : osm_port) : Prop :=
  ∃ mgrp, mgrp ∈ mgrp_list mbox ∧ mgrp !! g = Some q.

(** The groups hold the ports of [ports], by GUID. *)
Definition box_ports_ok (ports : gmap Z osm_port) (mbox : osm_mgrp_box) : Prop :=
  ∀ g q, box_port mbox g q → ports !! g = Some q.

Lemma port_list_spec ports mbox :
  box_ports_ok ports mbox →
  ∃ gs : list Z, NoDup gs ∧ (∀ g, g ∈ gs ↔ ∃ q, box_port mbox g q)
    ∧ Forall2 (λ g q, ports !! g = Some q) gs (osm_mcast_make_port_list_and_map mbox).
Proof.
  intros Hok. unfold osm_mcast_make_port_list_and_map.
  set (items := mgrp_list mbox ≫= qmap_items).
  assert (Hitems : ∀ e, e ∈ items → ports !! e.1 = Some e.2).
  { intros [g q] (mgrp & He & Hin)%list_elem_of_bind. apply Hok. exists mgrp. split; [done|].
    by apply elem_of_qmap_items. }
  assert (Hgen : ∀ l (st : list osm_port * gset Z) gs, (∀ e, e ∈ l → ports !! e.1 = Some e.2) →
    NoDup gs → (∀ g, g ∈ gs ↔ g ∈ st.2) → Forall2 (λ g q, ports !! g = Some q) gs st.1 →
    ∃ gs', NoDup gs' ∧ (∀ g, g ∈ gs' ↔ g ∈ gs ∨ ∃ q, (g, q) ∈ l)
      ∧ Forall2 (λ g q, ports !! g = Some q) gs' (foldl mcast_add_port st l).1).
  { induction l as [|[g q] l IH]; intros st gs Hl Hnd Hin Hf; simpl.
    - exists gs. split_and!; [done| |done]. intros g. split; [by left|]. intros [?|(q & Hq)]; [done|].
      by apply not_elem_of_nil in Hq.
    - unfold mcast_add_port at 2. simpl. case_bool_decide as Hd.
      + destruct (IH st gs ltac:(intros; apply Hl; by right) Hnd Hin Hf) as (gs' & H1 & H2 & H3).
        exists gs'. split_and!; [done| |done]. intros x. rewrite H2. apply Hin in Hd. split.
        * intros [?|(q' & ?)]; [by left|right; exists q'; by right].
        * intros [?|(q' & [[= -> ->]|?]%elem_of_cons)]; [by left|by left|right; by exists q'].
      + destruct (IH (st.1 ++ [q], {[ g ]} ∪ st.2) (gs ++ [g])) as (gs' & H1 & H2 & H3); simpl.
        * intros; apply Hl; by right.
        * apply NoDup_app. split_and!; [done| |apply NoDup_singleton].
          intros x Hx ->%list_elem_of_singleton. by apply Hd, Hin.
        * intros x. rewrite elem_of_app, list_elem_of_singleton, Hin. set_solver.
        * apply Forall2_app; [done|]. constructor; [|constructor]. by apply (Hl (g, q)); left.
        * exists gs'. split_and!; [done| |done]. intros x.
          rewrite H2, elem_of_app, list_elem_of_singleton. split.
          -- intros [[?| ->]|(q' & ?)]; [by left|right; exists q; by left|right; exists q'; by right].
          -- intros [?|(q' & [[= -> ->]|?]%elem_of_cons)]; [by left; left|by left; right|right; by exists q']. }
  destruct (Hgen items ([], ∅) [] Hitems) as (gs & H1 & H2 & H3).
  - constructor.
  - intros g. simpl. split; [by intros ?%not_elem_of_nil|set_solver].
  - constructor.
  - exists gs. split_and!; [done| |done]. intros g. rewrite H2. split.
    + intros [?%not_elem_of_nil|(q & (mgrp & He & Hin)%list_elem_of_bind)]; [done|].
      exists q, mgrp. split; [done|]. by apply elem_of_qmap_items.
    + intros (q & mgrp & Hin & He). right. exists q. apply list_elem_of_bind.
      exists mgrp. split; [by apply elem_of_qmap_items|done].
Qed.

Section Manager.
Context {BO : ByteOrder}.
Variable nodes : gmap Z osm_node.
Variable S : gset Z.
Variable sws : gmap Z osm_switch.
Variable mcast_cap : Z → Z.
Variable use_ucast_cache : bool.
Variable ports : gmap Z osm_port.       (* [port_guid_tbl] *)
Variable max_mcast_lid_ho : Z.

Notation np := (num_physp nodes).
Notation hopc := (hopc nodes sws).
Notation home q := (home_port nodes S q).1.
Notation leaf q := (home_port nodes S q).2.
Notation endpoint := (endpoint S).
Notation member := (member nodes S).
Variable hi : Z.                        (* the highest offset that has rows *)
Notation ready := (tables_ready nodes S hi).

(** The subnet: hop tables whose first least-hop ports form trees, switches that
    support multicast, one of them at most 61 hops from all ports, and ports with ends
    of their own. *)
Record mcast_subnet : Prop := {
  mn_trees : TreeTables nodes S sws;
  mn_switches : switches_ok nodes S;
  mn_cap s : s ∈ S → mcast_cap s ≠ 0;
  mn_near : ∃ s, s ∈ S ∧ ∀ g q, ports !! g = Some q → hopc s (home q) 0 ≤ 61;
  mn_ports g q : ports !! g = Some q → member q;
  mn_ends g g' q q' : ports !! g = Some q → ports !! g' = Some q' → endpoint q = endpoint q' → g = g'
}.

Context (Hsub : mcast_subnet).

Lemma port_list_members mbox :
  box_ports_ok ports mbox →
  let l := osm_mcast_make_port_list_and_map mbox in
  NoDup (endpoint <$> l) ∧ (∀ q, q ∈ l ↔ ∃ g, box_port mbox g q) ∧ ∀ q, q ∈ l → member q.
Proof.
  intros Hok l. destruct (port_list_spec ports mbox Hok) as (gs & Hnd & Hgs & Hf). fold l in Hf.
  split_and!.
  - clear Hgs. induction Hf as [|g q gs' l' Hq Hf IH]; [constructor|].
    apply NoDup_cons in Hnd as [Hni Hnd]. rewrite fmap_cons. apply NoDup_cons. split; [|by apply IH].
    intros (q' & E & Hin)%list_elem_of_fmap. apply list_elem_of_lookup in Hin as [i Hi].
    destruct (Forall2_lookup_r _ _ _ _ _ Hf Hi) as (g' & Hg' & Hq').
    apply Hni. rewrite (mn_ends Hsub g g' q q' Hq Hq' E). by eapply list_elem_of_lookup_2.
  - intros q. split.
    + intros [i Hi]%list_elem_of_lookup. destruct (Forall2_lookup_r _ _ _ _ _ Hf Hi) as (g & Hg & Hq).
      exists g. apply list_elem_of_lookup_2, Hgs in Hg as (q' & Hq'). pose proof (Hok g q' Hq'). congruence.
    + intros (g & Hb). assert (g ∈ gs) as [i Hi]%list_elem_of_lookup by (apply Hgs; by exists q).
      destruct (Forall2_lookup_l _ _ _ _ _ Hf Hi) as (q' & Hq' & Eq'). pose proof (Hok g q Hb).
      assert (q' = q) as -> by congruence. by eapply list_elem_of_lookup_2.
  - intros q [i Hi]%list_elem_of_lookup. destruct (Forall2_lookup_r _ _ _ _ _ Hf Hi) as (g & _ & Hq).
    by apply (mn_ports Hsub g).
Qed.

(** ** The root *)

(** The map has the switches of the ports. *)
Lemma switch_map_ok l :
  (∀ q, q ∈ l → member q) →
  ∃ m, create_mgrp_switch_map nodes sws l = Some m ∧ ∀ t, t ∈ dom m ↔ ∃ q, q ∈ l ∧ t = home q.
Proof.
  intros Hm. pose proof (sh_dom _ _ _ (tt_shape (TreeTables := mn_trees Hsub))) as Hdom.
  assert (Hgen : ∀ m : gmap Z (Z * bool), ∃ m', foldl (mgrp_switch_step nodes sws) (Some m) l = Some m'
    ∧ ∀ t, t ∈ dom m' ↔ t ∈ dom m ∨ ∃ q, q ∈ l ∧ t = home q).
  2:{ destruct (Hgen ∅) as (m & E & Hd). exists m. split; [exact E|]. intros t. rewrite Hd. set_solver. }
  induction l as [|q l IH]; intros m.
  { exists m. split; [done|]. intros t. split; [by left|]. intros [?|(q & Hq & _)]; [done|].
    by apply not_elem_of_nil in Hq. }
  cbn [foldl].
  assert (Hstep : ∃ m', mgrp_switch_step nodes sws (Some m) q = Some m' ∧ dom m' = {[ home q ]} ∪ dom m).
  { unfold mgrp_switch_step. rewrite Hdom. simpl. destruct (member_home nodes S q (Hm q ltac:(left))) as [Ht Ha].
    case_bool_decide as Hq.
    - assert (E : home q = pt_node q) by (unfold home_port; by rewrite decide_True).
      rewrite E. eexists. split; [done|]. by rewrite dom_insert_L.
    - destruct Ha as [[E _]|(_ & num & n & p & rem & p' & E1 & E2 & E3 & E4 & _)]; [congruence|].
      rewrite E1. simpl. rewrite E2. simpl. rewrite E3. simpl. rewrite E4, bool_decide_true by done.
      destruct (default _ _) as [c b]. eexists. split; [done|]. by rewrite dom_insert_L. }
  destruct Hstep as (m1 & -> & Hd1). destruct (IH ltac:(intros; apply Hm; by right) m1) as (m' & -> & Hd').
  exists m'. split; [done|]. intros t. rewrite Hd', Hd1. set_unfold. naive_solver.
Qed.

(** The most hops to the switches of the map, between the counts and one more. *)
Lemma max_hops_spec m s sw :
  sws !! s = Some sw →
  let h := mcast_mgr_compute_max_hops nodes m sw in
  (∀ t, t ∈ dom m → hopc s t 0 ≤ h) ∧ ∀ b, 0 ≤ b → (∀ t, t ∈ dom m → hopc s t 0 + 1 ≤ b) → h ≤ b.
Proof.
  intros Hsw. unfold mcast_mgr_compute_max_hops. cbv zeta.
  assert (E : ∀ t, osm_switch_get_least_hops sw (sw_lid nodes t) = hopc s t 0)
    by (intros t; unfold UcastMgr.hopc; by rewrite Hsw).
  assert (Hgen : ∀ (items : list (Z * (Z * bool))) h0,
    let h := foldl (λ max_hops (e : Z * (Z * bool)),
      let hops := osm_switch_get_least_hops sw (sw_lid nodes e.1) in
      let hops := if e.2.2 then hops else hops + 1 in
      if max_hops <? hops then hops else max_hops) h0 items in
    h0 ≤ h ∧ (∀ e, e ∈ items → hopc s e.1 0 ≤ h)
    ∧ ∀ b, h0 ≤ b → (∀ e, e ∈ items → hopc s e.1 0 + 1 ≤ b) → h ≤ b).
  { induction items as [|e items IH]; intros h0 h.
    - split_and!; [done| |by intros]. by intros e ?%not_elem_of_nil.
    - subst h. cbn [foldl]. rewrite E. set (h1 := if _ <? _ then _ else h0).
      destruct (IH h1) as (H1 & H2 & H3).
      assert (Hh1 : h0 ≤ h1 ∧ hopc s e.1 0 ≤ h1 ∧ ∀ b, h0 ≤ b → hopc s e.1 0 + 1 ≤ b → h1 ≤ b).
      { unfold h1. destruct e.2.2; case_match; split_and!; intros; lia. }
      destruct Hh1 as (Hh1 & Hh2 & Hh3). split_and!.
      + etrans; [exact Hh1|exact H1].
      + intros e' [->|He]%elem_of_cons; [etrans; [exact Hh2|exact H1]|by apply H2].
      + intros b Hb Hall. apply H3; [apply Hh3; [done|apply Hall; left]|]. intros; apply Hall; by right. }
  destruct (Hgen (qmap_items m) 0) as (H1 & H2 & H3). split.
  - intros t [v Hv]%elem_of_dom. apply (H2 (t, v)). by apply elem_of_qmap_items.
  - intros b Hb Hall. apply H3; [done|]. intros [t v] He%elem_of_qmap_items. apply Hall. by eapply elem_of_dom_2.
Qed.

(** The search for the root ends at a switch that does not have more hops than any
    other. *)
Lemma find_best_spec m (items : list (Z * osm_switch)) : ∀ best : option Z * Z,
  (∀ e, e ∈ items → e.1 ∈ S) →
  let r := foldl (optimal_step nodes mcast_cap m) best items in
  r.2 ≤ best.2 ∧ (∀ e, e ∈ items → r.2 ≤ mcast_mgr_compute_max_hops nodes m e.2)
  ∧ (r = best ∨ ∃ e, e ∈ items ∧ r = (Some e.1, mcast_mgr_compute_max_hops nodes m e.2)).
Proof.
  induction items as [|e items IH]; intros best Hin r.
  { split_and!; [done| |by left]. by intros e ?%not_elem_of_nil. }
  subst r. cbn [foldl]. set (b1 := optimal_step nodes mcast_cap m best e).
  destruct (IH b1 ltac:(intros; apply Hin; by right)) as (H1 & H2 & H3).
  assert (Hb1 : b1.2 ≤ best.2 ∧ b1.2 ≤ mcast_mgr_compute_max_hops nodes m e.2
    ∧ (b1 = best ∨ b1 = (Some e.1, mcast_mgr_compute_max_hops nodes m e.2))).
  { unfold b1, optimal_step, osm_switch_supports_mcast.
    rewrite (proj2 (Z.eqb_neq _ 0) (mn_cap Hsub e.1 (Hin e ltac:(left)))). simpl.
    destruct (Z.ltb_spec (mcast_mgr_compute_max_hops nodes m e.2) best.2);
      [simpl; split_and!; [lia|done|by right]|split_and!; [done|done|by left]]. }
  destruct Hb1 as (B1 & B2 & B3). split_and!.
  - etrans; [exact H1|exact B1].
  - intros e' [->|He]%elem_of_cons; [etrans; [exact H1|exact B2]|by apply H2].
  - destruct H3 as [->|(e' & He & ->)]; [|right; exists e'; split; [by right|done]].
    destruct B3 as [->| ->]; [by left|right; exists e; split; [left|done]].
Qed.

Lemma find_root_ok l :
  (∀ q, q ∈ l → ∃ g, ports !! g = Some q) →
  ∃ s, osm_mcast_mgr_find_root_switch nodes sws mcast_cap l = Some (Some s) ∧ s ∈ S
    ∧ ∀ q, q ∈ l → hopc s (home q) 0 ≤ 62.
Proof.
  intros Hp. assert (Hm : ∀ q, q ∈ l → member q).
  { intros q Hq. destruct (Hp q Hq) as [g Hg]. by apply (mn_ports Hsub g). }
  destruct (switch_map_ok l Hm) as (m & Em & Hd).
  unfold osm_mcast_mgr_find_root_switch, mcast_mgr_find_optimal_switch. rewrite Em. cbn [mbind option_bind].
  pose proof (sh_dom _ _ _ (tt_shape (TreeTables := mn_trees Hsub))) as Hdom.
  destruct (mn_near Hsub) as (s0 & Hs0 & Hnear).
  destruct (shape_lookup nodes S sws s0 (tt_shape (TreeTables := mn_trees Hsub)) Hs0) as [sw0 Hsw0].
  assert (Hb0 : mcast_mgr_compute_max_hops nodes m sw0 ≤ 62).
  { apply (max_hops_spec m s0 sw0 Hsw0); [done|]. intros t (q & Hq & ->)%Hd.
    destruct (Hp q Hq) as [g Hg]. specialize (Hnear g q Hg). lia. }
  destruct (find_best_spec m (qmap_items sws) (None, 10000)) as (_ & Hle & Hr).
  { intros [s sw] He%elem_of_qmap_items. rewrite <-Hdom. by eapply elem_of_dom_2. }
  assert (He0 : (s0, sw0) ∈ qmap_items sws) by (by apply elem_of_qmap_items).
  specialize (Hle _ He0). cbn [fst snd] in Hle.
  destruct Hr as [E|([s sw] & He & E)]; rewrite E in Hle |- *; cbn [fst snd] in *; [lia|].
  apply elem_of_qmap_items in He. exists s. split_and!; [done|rewrite <-Hdom; by eapply elem_of_dom_2|].
  intros q Hq. destruct (max_hops_spec m s sw He) as [Hmax _].
  specialize (Hmax (home q) ltac:(apply Hd; by exists q)). lia.
Qed.

(** ** One MLID *)

(** A packet of a member reaches each of the others once. *)
Definition box_delivers (f : Z → Z → bool) (l : list osm_port) : Prop :=
  ∀ q n, q ∈ l → (128 ≤ n)%nat →
    ∃ r, flood nodes S f n (home q) (leaf q) = Some r ∧ endpoint q :: r ≡ₚ endpoint <$> l.

(** [f] is the ports that the tables have for an MLID. *)
Definition reads (f : Z → Z → bool) (sm : osm_sm_mcast) (m : Z) : Prop :=
  ∀ s p, s ∈ S → 0 ≤ p < np s → f s p = port_set sm m s p.

(** What the work on one MLID changes. *)
Record mlid_step (m : Z) (sm sm' : osm_sm_mcast) : Prop := {
  st_ready : ready sm';
  st_dom : dom (mcast_tbls sm') = dom (mcast_tbls sm);
  st_other m' s p : IB_LID_MCAST_START_HO ≤ m' → m' ≠ m → 0 ≤ p → port_set sm' m' s p = port_set sm m' s p
}.

Lemma empty_flood f n s p : (∀ p, 0 ≤ p < np s → f s p = false) → (0 < n)%nat → flood nodes S f n s p = Some [].
Proof.
  intros Hf Hn. destruct n as [|n]; [lia|]. simpl.
  destruct (filter (λ q, f s q = true ∧ q ≠ p) (seqZ 0 (np s))) as [|q l] eqn:E; [done|].
  assert (Hq : q ∈ filter (λ q, f s q = true ∧ q ≠ p) (seqZ 0 (np s))) by (rewrite E; left).
  apply list_elem_of_filter in Hq as [[Hq _] Hin%elem_of_seqZ]. rewrite Hf in Hq; [done|lia].
Qed.

Lemma build_ok m mbox sm :
  IB_LID_MCAST_START_HO ≤ m ≤ IB_LID_MCAST_START_HO + hi → mlid mbox = m → box_ports_ok ports mbox →
  ready sm →
  (∀ s p, s ∈ S → 0 ≤ p < np s → port_set sm m s p = false) →
  ∃ status mbox' sm',
    mcast_mgr_build_spanning_tree nodes sws mcast_cap use_ucast_cache mbox sm = Some (status, mbox', sm')
    ∧ mlid mbox' = m ∧ mgrp_list mbox' = mgrp_list mbox ∧ mlid_step m sm sm'
    ∧ sm' = sm <| mcast_tbls := mcast_tbls sm' |>
    ∧ ∀ f, reads f sm' m → box_delivers f (osm_mcast_make_port_list_and_map mbox).
Proof.
  intros Hm Em Hok Hr Hcl. unfold mcast_mgr_build_spanning_tree. cbv zeta.
  change (osm_mcast_make_port_list_and_map (mbox <| mb_root := None |>))
    with (osm_mcast_make_port_list_and_map mbox).
  change (mlid (mbox <| mb_root := None |>)) with (mlid mbox).
  destruct (port_list_members mbox Hok) as (Hnd & Hbox & Hmem).
  set (L := osm_mcast_make_port_list_and_map mbox) in *.
  destruct (Nat.ltb_spec (length L) 2) as [Hlt|Hge].
  - eexists _, _, sm. split; [done|]. split_and!; [done|done|by split|by destruct sm|].
    intros f Hf q n Hq Hn. destruct L as [|q' [|q'' L]]; [by apply not_elem_of_nil in Hq| |simpl in Hlt; lia].
    apply list_elem_of_singleton in Hq as ->. exists []. split; [|done].
    apply empty_flood; [|lia]. intros p Hp. rewrite Hf; [|by apply home_in, Hmem; left|done].
    apply Hcl; [|done]. by apply home_in, Hmem; left.
  - destruct (find_root_ok L) as (s & Es & Hs & Hnear).
    { intros q (g & Hq)%Hbox. exists g. by apply Hok. }
    rewrite Es. cbn [mbind option_bind].
    assert (HL : L ≠ []) by (intros E; rewrite E in Hge; simpl in Hge; lia).
    pose proof (mn_trees Hsub) as TT.
    destruct (branch_ok nodes S sws mcast_cap use_ucast_cache m hi (mn_switches Hsub) (mn_cap Hsub) Hm
      64 s L 0 0 sm) as (t & sm' & Eb & [Br Breg Bo Brest _ Bu]); try done.
    + intros q Hq. split; [by apply Hmem|]. specialize (Hnear q Hq). lia.
    + intros x p Hx Hp. apply Hcl; [|done]. by apply (region_in nodes S sws s L).
    + rewrite Em, Eb. eexists _, _, sm'. split; [done|]. split_and!; [done|done| |done|].
      * split; [done| |done]. apply set_eq. intros x. rewrite !elem_of_dom.
        destruct (decide (x ∈ S)) as [Hx|Hx].
        -- destruct (Br x Hx) as (t1 & -> & _), (Hr x Hx) as (t2 & -> & _). by split; eexists.
        -- rewrite Breg; [done|]. intros Hx'. by apply Hx, (region_in nodes S sws s L).
      * intros f Hf q n Hq Hn. destruct (Bu f 0%nat []) with (q := q) (m := n) as (l & El & Hl);
          [|by intros; exists []|done|lia|].
        -- intros x p Hx Hp. apply Hf; [|done]. by apply (region_in nodes S sws s L).
        -- exists l. split; [done|]. by rewrite app_nil_r in Hl.
Qed.

Lemma clear_ok m sm :
  IB_LID_MCAST_START_HO ≤ m → dom (mcast_tbls sm) = S → ready sm →
  let sm' := mcast_mgr_clear m sm in
  mlid_step m sm sm' ∧ ∀ s p, s ∈ S → 0 ≤ p < np s → port_set sm' m s p = false.
Proof.
  intros Hm Hd Hr sm'.
  assert (E : ∀ s, mcast_tbls sm' !! s = (λ t, osm_mcast_tbl_clear_mlid t m) <$> mcast_tbls sm !! s)
    by (intros s; apply lookup_fmap).
  split; [split|].
  - intros s Hs. destruct (Hr s Hs) as (t & Et & Hwf & Ho & Hp). rewrite E, Et. eexists. split; [done|].
    destruct (clear_fields t m) as (E1 & E2 & _). unfold offset_ok, port_ok. rewrite E1, E2.
    split; [by apply clear_tbl_wf|]. split; [exact Ho|exact Hp].
  - simpl. by rewrite dom_fmap_L.
  - intros m' s p Hm' Hne Hp. unfold port_set. rewrite E.
    destruct (mcast_tbls sm !! s) as [t|] eqn:Et; [|done]. simpl.
    assert (Hs : s ∈ S) by (rewrite <-Hd; by eapply elem_of_dom_2).
    destruct (Hr s Hs) as (t' & Et' & Hwf & _). rewrite Et in Et'. injection Et' as <-.
    by rewrite clear_is_port, bool_decide_false.
  - intros s p Hs Hp. unfold port_set. rewrite E. destruct (Hr s Hs) as (t & -> & Hwf & _). simpl.
    by rewrite clear_is_port, bool_decide_true by (done || lia).
Qed.

Lemma mlid_step_trans m sm1 sm2 sm3 : mlid_step m sm1 sm2 → mlid_step m sm2 sm3 → mlid_step m sm1 sm3.
Proof.
  intros [R1 D1 O1] [R2 D2 O2]. split; [done|by rewrite D2|]. intros m' s p Hm Hne Hp.
  rewrite O2 by done. by apply O1.
Qed.

(** The boxes: each at the offset of its MLID, with ports of the subnet. *)
Definition boxes_ok (boxes : list (option osm_mgrp_box)) : Prop :=
  ∀ i mbox, boxes !! i = Some (Some mbox) →
    Z.of_nat i ≤ hi ∧ mlid mbox = IB_LID_MCAST_START_HO + Z.of_nat i ∧ box_ports_ok ports mbox.

(** The groups of the boxes. *)
Definition groups (boxes : list (option osm_mgrp_box)) : list (option (list (gmap Z osm_port))) :=
  (λ b : option osm_mgrp_box, mgrp_list <$> b) <$> boxes.

Lemma make_port_list_groups mbox mbox' :
  mgrp_list mbox = mgrp_list mbox' →
  osm_mcast_make_port_list_and_map mbox = osm_mcast_make_port_list_and_map mbox'.
Proof. intros E. unfold osm_mcast_make_port_list_and_map. by rewrite E. Qed.

Lemma process_mlid_ok (i : nat) sm :
  dom (mcast_tbls sm) = S → ready sm → boxes_ok (mboxes sm) →
  let m := IB_LID_MCAST_START_HO + Z.of_nat i in
  ∃ sm', mcast_mgr_process_mlid nodes sws mcast_cap use_ucast_cache m sm = Some sm'
    ∧ mlid_step m sm sm' ∧ boxes_ok (mboxes sm') ∧ groups (mboxes sm') = groups (mboxes sm)
    ∧ mlids_req sm' = mlids_req sm
    ∧ ∀ f mbox, mboxes sm !! i = Some (Some mbox) → reads f sm' m →
        box_delivers f (osm_mcast_make_port_list_and_map mbox).
Proof.
  intros Hd Hr Hb m. assert (Hm : IB_LID_MCAST_START_HO ≤ m) by (unfold m; lia).
  destruct (clear_ok m sm Hm Hd Hr) as [Hs1 Hcl]. unfold mcast_mgr_process_mlid.
  set (sm1 := mcast_mgr_clear m sm) in *. cbv zeta.
  assert (Eo : Z.to_nat (m - IB_LID_MCAST_START_HO) = i) by (unfold m; lia). rewrite Eo.
  change (mboxes sm1) with (mboxes sm).
  destruct (mboxes sm !! i) as [[mbox|]|] eqn:Ei; cbn [mjoin option_join].
  2-3: by exists sm1; split_and!.
  destruct (Hb i mbox Ei) as (Hi & Em & Hok).
  destruct (build_ok m mbox sm1 ltac:(unfold m; lia) Em Hok (st_ready _ _ _ Hs1) Hcl)
    as (status & mbox' & sm2 & E & Em' & Eg & Hs2 & Erest & Hdel).
  rewrite E. cbn [mbind option_bind]. eexists. split; [done|].
  assert (Hb2 : mboxes sm2 = mboxes sm) by (rewrite Erest; done).
  split_and!.
  - apply (mlid_step_trans m sm sm1); [done|]. destruct Hs2 as [R D O]. by split.
  - simpl. rewrite Hb2. intros j b. destruct (decide (j = i)) as [->|Hne].
    + rewrite list_lookup_insert_eq by (by eapply lookup_lt_Some). intros [= <-].
      split_and!; [done|by rewrite Em'|]. intros g q (mgrp & Hg & Hq). apply Hok.
      exists mgrp. by rewrite <-Eg.
    + rewrite list_lookup_insert_ne by done. apply Hb.
  - simpl. rewrite Hb2. unfold groups. rewrite list_fmap_insert. simpl. rewrite Eg.
    apply list_insert_id. by rewrite list_lookup_fmap, Ei.
  - simpl. rewrite Erest. done.
  - intros f b [= <-] Hf. by apply Hdel.
Qed.

(** ** The loop over the MLIDs *)

Notation mlid_of i := (IB_LID_MCAST_START_HO + i).

Section Loop.
Variable boxes : list (option osm_mgrp_box).     (* at the start *)

Record sweep_inv (sm : osm_sm_mcast) : Prop := {
  sv_dom : dom (mcast_tbls sm) = S;
  sv_ready : ready sm;
  sv_boxes : boxes_ok (mboxes sm);
  sv_groups : groups (mboxes sm) = groups boxes
}.

Definition delivered (sm : osm_sm_mcast) (i : Z) : Prop :=
  ∀ f mbox, boxes !! Z.to_nat i = Some (Some mbox) → reads f sm (mlid_of i) →
    box_delivers f (osm_mcast_make_port_list_and_map mbox).

Lemma groups_lookup bs (i : nat) mbox :
  groups bs = groups boxes → boxes !! i = Some (Some mbox) →
  ∃ mbox', bs !! i = Some (Some mbox') ∧ mgrp_list mbox' = mgrp_list mbox.
Proof.
  intros E Hi. apply (f_equal (λ l : list (option (list (gmap Z osm_port))), l !! i)) in E.
  unfold groups in E. rewrite !list_lookup_fmap, Hi in E.
  destruct (bs !! i) as [[b|]|]; simpl in E; try done. injection E as E. by exists b.
Qed.

Lemma req_step sm i :
  sweep_inv sm → 0 ≤ i →
  ∃ sm', mcast_process_req nodes sws mcast_cap use_ucast_cache true (Some sm) i = Some sm'
    ∧ sweep_inv sm' ∧ delivered sm' i ∧ ∀ j, 0 ≤ j → delivered sm j → delivered sm' j.
Proof.
  intros [Hd Hr Hb Hg] Hi. unfold mcast_process_req. cbn [mbind option_bind].
  destruct (default false (mlids_req sm !! Z.to_nat i)
    || true && bool_decide (is_Some (mjoin (mboxes sm !! Z.to_nat i)))) eqn:Ec.
  - set (sm1 := sm <| mlids_req := _ |>).
    destruct (process_mlid_ok (Z.to_nat i) sm1 Hd Hr Hb) as (sm' & E & [R D O] & Hb' & Hg' & _ & Hdel).
    rewrite Z2Nat.id in * by done. rewrite (Z.add_comm i). exists sm'. split; [exact E|]. split_and!.
    + split; [by rewrite D|done|done|by rewrite Hg'].
    + intros f mbox Hm Hf. destruct (groups_lookup (mboxes sm) _ mbox Hg Hm) as (mbox' & Hm' & Eg).
      rewrite <-(make_port_list_groups _ _ Eg). by apply Hdel.
    + intros j Hj Hdj. destruct (decide (j = i)) as [->|Hne].
      * intros f mbox Hm Hf. destruct (groups_lookup (mboxes sm) _ mbox Hg Hm) as (mbox' & Hm' & Eg).
        rewrite <-(make_port_list_groups _ _ Eg). by apply Hdel.
      * intros f mbox Hm Hf. apply Hdj; [done|]. intros s p Hs Hp. rewrite Hf by done.
        rewrite O by lia. done.
  - exists sm. split; [done|]. split_and!; [done| |done]. intros f mbox Hm.
    destruct (groups_lookup (mboxes sm) _ mbox Hg Hm) as (mbox' & Hm' & _).
    rewrite Hm' in Ec. simpl in Ec. by rewrite orb_true_r in Ec.
Qed.

Lemma req_loop l : ∀ sm,
  sweep_inv sm → (∀ i, i ∈ l → 0 ≤ i) →
  ∃ sm', foldl (mcast_process_req nodes sws mcast_cap use_ucast_cache true) (Some sm) l = Some sm'
    ∧ sweep_inv sm' ∧ (∀ i, i ∈ l → delivered sm' i) ∧ ∀ j, 0 ≤ j → delivered sm j → delivered sm' j.
Proof.
  induction l as [|i l IH]; intros sm Hv Hl.
  { exists sm. split_and!; try done. intros i Hi. by apply not_elem_of_nil in Hi. }
  cbn [foldl]. destruct (req_step sm i Hv (Hl i ltac:(left))) as (sm1 & -> & Hv1 & Hi & Hk).
  destruct (IH sm1 Hv1 ltac:(intros; apply Hl; by right)) as (sm' & -> & Hv' & Hall & Hk').
  exists sm'. split_and!; [done|done| |by auto].
  intros j [->|Hj]%elem_of_cons; [|by apply Hall]. apply Hk'; [by apply Hl; left|done].
Qed.
End Loop.
End Manager.
