(* ===== verification/McastSweep.v ===== *)
(** * A sweep of the multicast manager

    The messages of [mcast_mgr_set_mftables] carry every block in use of every
    switch, and after a sweep the tables of the switches deliver the packets of every
    multicast group. *)

From S2P Require Import Prelude IbTypes Switch UcastMgr McastTbl McastMgr McastTree McastBranch McastMgrOk.

Open Scope Z_scope.

(** ** The messages *)

(** What a switch has been told about a block, the last message first. *)
Fixpoint told (msgs : list mft_msg) (s b pos : Z) : option (list Z) :=
  match msgs with
  | [] => None
  | SetMftBlock s' b' pos' block :: msgs =>
      match told msgs s b pos with
      | Some block => Some block
      | None => if bool_decide (s' = s ∧ b' = b ∧ pos' = pos) then Some block else None
      end
  | SetMftTop _ _ :: msgs => told msgs s b pos
  end.

(** The ports a switch forwards an MLID to; a block it has not been told is empty. *)
Definition switch_ports {BO : ByteOrder} (msgs : list mft_msg) (m s p : Z) : bool :=
  let o := m - IB_LID_MCAST_START_HO in
  match told msgs s (o / IB_MCAST_BLOCK_SIZE) (p / IB_MCAST_MASK_SIZE) with
  | None => false
  | Some block =>
      Z.land (default 0 (block !! Z.to_nat (o mod IB_MCAST_BLOCK_SIZE))) (bit_mask p) =? bit_mask p
  end.

Section Messages.
Context {BO : ByteOrder}.

(** A message about a block says what the table has. *)
Definition true_msg (tbls : gmap Z osm_mcast_tbl) (e : mft_msg) : Prop :=
  match e with
  | SetMftBlock s b pos block =>
      ∃ t, tbls !! s = Some t ∧ osm_mcast_tbl_get_block t b pos = Some block
  | SetMftTop _ _ => True
  end.

Lemma told_true tbls msgs s b pos block :
  (∀ e, e ∈ msgs → true_msg tbls e) → told msgs s b pos = Some block →
  ∃ t, tbls !! s = Some t ∧ osm_mcast_tbl_get_block t b pos = Some block.
Proof.
  induction msgs as [|e msgs IH]; intros Ht E; [done|].
  specialize (IH ltac:(intros; apply Ht; by right)). specialize (Ht e ltac:(left)).
  destruct e as [s' b' pos' bl|]; simpl in E; [|by apply IH].
  destruct (told msgs s b pos) as [bl'|]; [by apply IH|]. case_bool_decide as Hc; [|done].
  destruct Hc as (<- & <- & <-). injection E as <-. exact Ht.
Qed.

Lemma told_some msgs s b pos block :
  SetMftBlock s b pos block ∈ msgs → is_Some (told msgs s b pos).
Proof.
  induction msgs as [|e msgs IH]; intros Hin; [by apply not_elem_of_nil in Hin|].
  apply elem_of_cons in Hin as [<-|Hin]; simpl.
  - destruct (told msgs s b pos); [done|]. by rewrite bool_decide_true.
  - destruct (IH Hin) as [bl E]. rewrite E. by destruct e.
Qed.

(** The progress of a switch in the passes for block [b]. *)
Definition progress (b k : Z) (e : Z * osm_mcast_tbl) : mft_progress :=
  if k <=? max_position e.2 then MftProgress e.1 e.2 b k else MftProgress e.1 e.2 (b + 1) 0.

Lemma stripe_progress b k e :
  0 ≤ k ≤ 15 → max_position e.2 ≤ 15 →
  mft_stripe b (progress b k e)
  = (if k <=? max_position e.2 then mcast_mgr_set_mft_block e.1 e.2 b k else [], progress b (k + 1) e).
Proof.
  intros Hk Hm. unfold progress, mft_stripe.
  destruct (Z.leb_spec k (max_position e.2)) as [Hle|Hgt].
  - rewrite Z.eqb_refl, u8_small by lia. f_equal.
    destruct (Z.ltb_spec (max_position e.2) (k + 1)), (Z.leb_spec (k + 1) (max_position e.2)); (done || lia).
  - rewrite (proj2 (Z.eqb_neq (b + 1) b)) by lia.
    destruct (Z.leb_spec (k + 1) (max_position e.2)); [lia|done].
Qed.

Lemma stripe_block b (items : list (Z * osm_mcast_tbl)) :
  (∀ e, e ∈ items → 0 ≤ max_position e.2 ≤ 15) →
  ∀ fuel k, 0 ≤ k → 16 - k = Z.of_nat fuel →
  ∃ msgs, mft_stripe_block fuel b (progress b k <$> items) = Some (msgs, progress (b + 1) 0 <$> items)
    ∧ ∀ m, m ∈ msgs ↔ ∃ e pos, e ∈ items ∧ k ≤ pos ≤ max_position e.2
                        ∧ m ∈ mcast_mgr_set_mft_block e.1 e.2 b pos.
Proof.
  intros Hitems.
  assert (Hfin : ∀ k, (∀ e, e ∈ items → max_position e.2 < k) → progress b k <$> items = progress (b + 1) 0 <$> items).
  { intros k Hk. apply list_fmap_ext. intros i e He. apply list_elem_of_lookup_2 in He. unfold progress.
    specialize (Hk e He). destruct (Hitems e He).
    destruct (Z.leb_spec k (max_position e.2)), (Z.leb_spec 0 (max_position e.2)); (done || lia). }
  induction fuel as [|fuel IH]; intros k Hk0 Hf; cbn [mft_stripe_block];
    destruct (forallb (λ p, negb (pg_block p =? b)) (progress b k <$> items)) eqn:Ea.
  1, 3: exists []; rewrite forallb_forall in Ea;
    (assert (Hall : ∀ e, e ∈ items → max_position e.2 < k);
     [intros e He; specialize (Ea (progress b k e) ltac:(apply list_elem_of_In, list_elem_of_fmap; by exists e));
      unfold progress in Ea; destruct (Z.leb_spec k (max_position e.2)); [|done];
      simpl in Ea; by rewrite Z.eqb_refl in Ea|]);
    rewrite Hfin by done; (split; [done|]); intros m; (split; [by intros ?%not_elem_of_nil|]);
    intros (e & pos & He & Hp & _); specialize (Hall e He); lia.
  - exfalso. apply not_true_iff_false in Ea. apply Ea, forallb_forall. intros p Hp.
    apply list_elem_of_In, list_elem_of_fmap in Hp as (e & -> & He). destruct (Hitems e He).
    unfold progress. destruct (Z.leb_spec k (max_position e.2)); [lia|]. simpl.
    rewrite (proj2 (Z.eqb_neq (b + 1) b)) by lia. done.
  - assert (Est : mft_stripe b <$> (progress b k <$> items)
      = (λ e, (if k <=? max_position e.2 then mcast_mgr_set_mft_block e.1 e.2 b k else [],
               progress b (k + 1) e)) <$> items).
    { rewrite <-list_fmap_compose. apply list_fmap_ext. intros i e He. apply list_elem_of_lookup_2 in He.
      destruct (Hitems e He). apply stripe_progress; lia. }
    rewrite Est.
    assert (E2 : ∀ g : Z * osm_mcast_tbl → list mft_msg,
      ((λ e, (g e, progress b (k + 1) e)) <$> items).*2 = progress b (k + 1) <$> items)
      by (intros g; by rewrite <-list_fmap_compose).
    rewrite E2. destruct (IH (k + 1) ltac:(lia) ltac:(lia)) as (msgs & -> & Hm). cbn [mbind option_bind].
    eexists. split; [done|]. intros m. rewrite elem_of_app, Hm, list_elem_of_bind. split.
    + intros [(y & Hy & (e & -> & He)%list_elem_of_fmap)|(e & pos & He & Hp & Hin)].
      * simpl in Hy. destruct (Z.leb_spec k (max_position e.2)); [|by apply not_elem_of_nil in Hy].
        exists e, k. split_and!; (done || lia).
      * exists e, pos. split_and!; (done || lia).
    + intros (e & pos & He & Hp & Hin). destruct (decide (pos = k)) as [->|Hne].
      * left. exists (mcast_mgr_set_mft_block e.1 e.2 b k, progress b (k + 1) e). split; [done|].
        apply list_elem_of_fmap. exists e. split; [|done]. by rewrite (proj2 (Z.leb_le k _)) by lia.
      * right. exists e, pos. split_and!; (done || lia).
Qed.

Lemma stripe_blocks n (items : list (Z * osm_mcast_tbl)) :
  (∀ e, e ∈ items → 0 ≤ max_position e.2 ≤ 15) →
  ∀ b, ∃ msgs, mft_stripe_blocks (seqZ b (Z.of_nat n)) (progress b 0 <$> items) = Some msgs
    ∧ ∀ m, m ∈ msgs ↔ ∃ e b' pos, e ∈ items ∧ b ≤ b' < b + Z.of_nat n ∧ 0 ≤ pos ≤ max_position e.2
                        ∧ m ∈ mcast_mgr_set_mft_block e.1 e.2 b' pos.
Proof.
  intros Hitems. induction n as [|n IH]; intros b.
  - exists []. split; [done|]. intros m. split; [by intros ?%not_elem_of_nil|].
    intros (e & b' & pos & _ & Hb & _). lia.
  - rewrite seqZ_cons by lia. cbn [mft_stripe_blocks].
    destruct (stripe_block b items Hitems stripe_fuel 0 ltac:(done) ltac:(done)) as (msgs & -> & Hm).
    cbn [mbind option_bind]. destruct (IH (Z.succ b)) as (msgs' & E & Hm').
    replace (Z.pred (Z.of_nat (Datatypes.S n))) with (Z.of_nat n) by lia.
    change (b + 1) with (Z.succ b). rewrite E. cbn [mbind option_bind].
    eexists. split; [done|]. intros m. rewrite elem_of_app, Hm, Hm'. split.
    + intros [(e & pos & He & Hp & Hin)|(e & b' & pos & He & Hb & Hp & Hin)].
      * exists e, b, pos. split_and!; (done || lia).
      * exists e, b', pos. split_and!; (done || lia).
    + intros (e & b' & pos & He & Hb & Hp & Hin). destruct (decide (b' = b)) as [->|Hne].
      * left. exists e, pos. split_and!; (done || lia).
      * right. exists e, b', pos. split_and!; (done || lia).
Qed.

Lemma max_block_ge (l : list (Z * osm_mcast_tbl)) : ∀ m,
  let step := λ m (e : Z * osm_mcast_tbl), if m <? max_block_in_use e.2 then max_block_in_use e.2 else m in
  m ≤ foldl step m l ∧ ∀ e, e ∈ l → max_block_in_use e.2 ≤ foldl step m l.
Proof.
  induction l as [|e l IH]; intros m step; simpl.
  { split; [done|]. by intros e ?%not_elem_of_nil. }
  fold step. destruct (IH (step m e)) as [H1 H2].
  assert (m ≤ step m e ∧ max_block_in_use e.2 ≤ step m e) as [H3 H4]
    by (unfold step; destruct (Z.ltb_spec m (max_block_in_use e.2)); lia).
  split; [etrans; [exact H3|exact H1]|]. intros e' [->|He]%elem_of_cons; [|by apply H2].
  etrans; [exact H4|exact H1].
Qed.

(** The messages say what the tables have. *)
Lemma set_mftables_ok umt hcap top first init sm :
  (∀ s t, mcast_tbls sm !! s = Some t → tbl_wf t) →
  ∃ msgs, mcast_mgr_set_mftables umt hcap top first init sm = Some msgs
    ∧ ∀ m s p t, IB_LID_MCAST_START_HO ≤ m < IB_LID_MCAST_START_HO + 512 * IB_MCAST_BLOCK_SIZE →
        mcast_tbls sm !! s = Some t → port_ok t p →
        switch_ports msgs m s p = osm_mcast_tbl_is_port t m p.
Proof.
  intros Hwf. unfold mcast_mgr_set_mftables. set (items := qmap_items (mcast_tbls sm)).
  set (max_block := foldl _ (-1) items).
  assert (Hitems : ∀ e, e ∈ items → mcast_tbls sm !! e.1 = Some e.2).
  { intros [s t] He%elem_of_qmap_items. done. }
  destruct (max_block_ge items (-1)) as [Hge Hmax]. fold max_block in Hge, Hmax.
  destruct (stripe_blocks (Z.to_nat (max_block + 1)) items) with (b := 0) as (msgs & E & Hm).
  { intros e He. specialize (Hwf _ _ (Hitems e He)).
    pose proof (tw_max_position _ Hwf). unfold IB_MCAST_POSITION_MAX in *. lia. }
  rewrite Z2Nat.id in E, Hm by lia.
  assert (Einit : ((λ e : Z * osm_mcast_tbl, MftProgress e.1 e.2 0 0) <$> items) = progress 0 0 <$> items).
  { apply list_fmap_ext. intros i e He. apply list_elem_of_lookup_2 in He. unfold progress.
    specialize (Hwf _ _ (Hitems e He)). pose proof (tw_max_position _ Hwf).
    destruct (Z.leb_spec 0 (max_position e.2)); [done|lia]. }
  rewrite Einit, E. cbn [mbind option_bind]. eexists. split; [done|].
  intros m s p t Hml Ht Hp.
  set (all := _ ++ msgs). assert (Hall : ∀ e, e ∈ all ↔
    (∃ x, x ∈ items ∧ e ∈ mcast_mgr_set_mfttop umt hcap top first init x.1 x.2) ∨ e ∈ msgs).
  { intros e. unfold all. rewrite elem_of_app, list_elem_of_bind. naive_solver. }
  assert (Htrue : ∀ e, e ∈ all → true_msg (mcast_tbls sm) e).
  { intros e [(x & Hx & He)|He]%Hall.
    - unfold mcast_mgr_set_mfttop in He. destruct (umt && hcap x.1); [|by apply not_elem_of_nil in He].
      cbv zeta in He. revert He. case_match; [by intros ?%not_elem_of_nil|].
      by intros ->%list_elem_of_singleton.
    - apply Hm in He as (x & b & pos & Hx & Hb & Hpos & He). unfold mcast_mgr_set_mft_block in He.
      destruct (osm_mcast_tbl_get_block x.2 b pos) as [bl|] eqn:Eb; [|by apply not_elem_of_nil in He].
      apply list_elem_of_singleton in He as ->. exists x.2. split; [by apply Hitems|done]. }
  pose proof (Hwf s t Ht) as Hwt.
  unfold switch_ports. set (o := m - IB_LID_MCAST_START_HO) in *.
  assert (Ho : 0 ≤ o < 512 * 32) by (unfold o, IB_MCAST_BLOCK_SIZE in *; lia).
  unfold port_ok, IB_MCAST_MASK_SIZE, IB_MCAST_BLOCK_SIZE in *.
  assert (Hpos : 0 ≤ p / 16 ≤ max_position t).
  { split; [apply Z.div_pos; lia|]. apply Z.lt_succ_r, Z.div_lt_upper_bound; lia. }
  assert (Hb : 0 ≤ o / 32 < 512) by (split; [apply Z.div_pos; lia|apply Z.div_lt_upper_bound; lia]).
  pose proof (Z.mod_pos_bound o 32 ltac:(lia)) as Hmod. pose proof (Z.div_mod o 32 ltac:(lia)) as Hdm.
  destruct (told all s (o / 32) (p / 16)) as [bl|] eqn:Et.
  - destruct (told_true _ _ _ _ _ _ Htrue Et) as (t' & Ht' & Eb). rewrite Ht in Ht'. injection Ht' as <-.
    assert (Hu : o / 32 ≤ max_block_in_use t).
    { unfold osm_mcast_tbl_get_block in Eb. destruct (Z.ltb_spec (max_block_in_use t) (o / 32)); [done|lia]. }
    destruct (get_block_lookup t (o / 32) (p / 16) (o mod 32) Hb Hu ltac:(lia) Hmod) as (bl' & Eb' & El).
    rewrite Eb in Eb'. injection Eb' as <-. rewrite El. simpl. unfold IB_MCAST_BLOCK_SIZE.
    replace (o / 32 * 32 + o mod 32) with o by lia.
    unfold osm_mcast_tbl_is_port. fold o. destruct (p_mask_tbl t) eqn:Ep; [done|].
    assert (Ez : mask_at t o (p / 16) = 0) by (unfold mask_at; by rewrite Ep).
    rewrite Ez, Z.land_0_l. apply Z.eqb_neq. pose proof (bit_mask_range p). lia.
  - destruct (decide (o / 32 ≤ max_block_in_use t)) as [Hu|Hu].
    + exfalso. destruct (get_block_lookup t (o / 32) (p / 16) (o mod 32) Hb Hu ltac:(lia) Hmod) as (bl & Eb & _).
      destruct (told_some all s (o / 32) (p / 16) bl) as [bl' E']; [|congruence]. apply Hall. right. apply Hm.
      assert (Hin : (s, t) ∈ items) by (by apply elem_of_qmap_items).
      exists (s, t), (o / 32), (p / 16). pose proof (Hmax _ Hin). simpl in *.
      split_and!; try (done || lia). unfold mcast_mgr_set_mft_block. rewrite Eb. left.
    + symmetry. unfold osm_mcast_tbl_is_port. fold o. destruct (p_mask_tbl t) eqn:Ep; [|done].
      assert (Ez : mask_at t o (p / IB_MCAST_MASK_SIZE) = 0).
      { destruct (decide (mask_at t o (p / IB_MCAST_MASK_SIZE) = 0)) as [|Hnz]; [done|]. exfalso. apply Hu.
        apply (tw_used t Hwt o (p / 16)); [lia|lia|exact Hnz]. }
      rewrite Ez. apply Z.eqb_neq. pose proof (bit_mask_range p). rewrite Z.land_0_l. lia.
Qed.
End Messages.

(** ** The sweep *)

Section Sweep.
Context {BO : ByteOrder}.
Variable nodes : gmap Z osm_node.
Variable S : gset Z.
Variable sws : gmap Z osm_switch.
Variable mcast_cap : Z → Z.
Variable use_ucast_cache : bool.
Variable ports : gmap Z osm_port.
Variable max_mcast_lid_ho : Z.

Notation np := (num_physp nodes).
Notation home q := (home_port nodes S q).1.
Notation leaf q := (home_port nodes S q).2.

(** The tables and the groups at the start. *)
Record mcast_start (sm : osm_sm_mcast) : Prop := {
  mt_dom : dom (mcast_tbls sm) = S;
  mt_tbl s t : mcast_tbls sm !! s = Some t → tbl_wf t ∧ ∀ p, 0 ≤ p < np s → port_ok t p;
  mt_max : max_mcast_lid_ho ≤ IB_LID_MCAST_END_HO;
  mt_boxes i mbox : mboxes sm !! i = Some (Some mbox) →
    mlid mbox = IB_LID_MCAST_START_HO + Z.of_nat i ∧ IB_LID_MCAST_START_HO + Z.of_nat i ≤ max_mcast_lid_ho
    ∧ box_ports_ok ports mbox
}.

Lemma find_rev_seqZ (f : Z → bool) n :
  (∀ i, 0 ≤ i < Z.of_nat n → f i = true →
     ∃ h, list_find_first f (rev (seqZ 0 (Z.of_nat n))) = Some h ∧ i ≤ h < Z.of_nat n)
  ∧ ∀ h, list_find_first f (rev (seqZ 0 (Z.of_nat n))) = Some h → 0 ≤ h < Z.of_nat n.
Proof.
  induction n as [|n [IH1 IH2]]; [split; [lia|done]|].
  rewrite seqZ_S, rev_app_distr. simpl. rewrite Z.add_0_l. split.
  - intros i Hi Hf. destruct (f (Z.of_nat n)) eqn:E; [exists (Z.of_nat n); split; [done|lia]|].
    assert (i ≠ Z.of_nat n) by congruence. destruct (IH1 i ltac:(lia) Hf) as (h & Eh & Hh).
    exists h. split; [done|lia].
  - intros h. destruct (f (Z.of_nat n)); [intros [= <-]; lia|]. intros Eh. specialize (IH2 h Eh). lia.
Qed.

(** The highest offset with rows after [alloc_mfts]. *)
Definition rows_hi (sm : osm_sm_mcast) : Z := default (-1) (highest_mbox max_mcast_lid_ho sm).

Lemma alloc_ok sm :
  mcast_start sm →
  let sm' := alloc_mfts max_mcast_lid_ho sm in
  dom (mcast_tbls sm') = S ∧ tables_ready nodes S (rows_hi sm) sm'
  ∧ boxes_ok ports (rows_hi sm) (mboxes sm').
Proof.
  intros [Hd Ht Hmax Hb] sm'. set (n := Z.to_nat (max_mcast_lid_ho - IB_LID_MCAST_START_HO + 1)).
  unfold IB_LID_MCAST_START_HO, IB_LID_MCAST_END_HO in *.
  destruct (find_rev_seqZ (λ i, bool_decide (is_Some (mjoin (mboxes sm !! Z.to_nat i)))) n) as [F1 F2].
  assert (Eh : highest_mbox max_mcast_lid_ho sm
    = list_find_first (λ i, bool_decide (is_Some (mjoin (mboxes sm !! Z.to_nat i)))) (rev (seqZ 0 (Z.of_nat n)))).
  { unfold highest_mbox, n, IB_LID_MCAST_START_HO.
    destruct (decide (0 ≤ max_mcast_lid_ho - 49152 + 1)); [by rewrite Z2Nat.id|].
    assert (Hz : ∀ a, a ≤ 0 → seqZ 0 a = []) by (intros a Ha; unfold seqZ; by destruct a).
    by rewrite !Hz by lia. }
  assert (Eb : mboxes sm' = mboxes sm).
  { unfold sm', alloc_mfts. by case_match. }
  assert (Hbox : ∀ i mbox, mboxes sm !! i = Some (Some mbox) → Z.of_nat i ≤ rows_hi sm).
  { intros i mbox Hi. destruct (Hb i mbox Hi) as (Em & Hle & _).
    destruct (F1 (Z.of_nat i)) as (h & E & Hh).
    - unfold n. lia.
    - rewrite Nat2Z.id, Hi. by rewrite bool_decide_true by (by eexists).
    - unfold rows_hi. rewrite Eh, E. simpl. lia. }
  split_and!.
  - unfold sm', alloc_mfts. case_match; [|done]. simpl. by rewrite dom_fmap_L.
  - intros s Hs. rewrite <-Hd in Hs. apply elem_of_dom in Hs as [t Et].
    destruct (Ht s t Et) as [Hwf Hp]. unfold sm', alloc_mfts, rows_hi.
    destruct (highest_mbox max_mcast_lid_ho sm) as [h|] eqn:E.
    + symmetry in Eh. apply F2 in Eh.
      assert (Hh : 0 ≤ h < 512 * IB_MCAST_BLOCK_SIZE) by (unfold IB_MCAST_BLOCK_SIZE, n in *; lia).
      destruct (realloc_fields t h Hwf Hh) as (E1 & _ & _ & Ho & _).
      exists (osm_mcast_tbl_realloc t h). simpl. split; [by rewrite lookup_fmap, Et|].
      split; [by apply realloc_wf|]. split.
      * intros o Hor. unfold offset_ok in *. lia.
      * intros p Hpp. unfold port_ok. rewrite E1. by apply Hp.
    + exists t. simpl. split_and!; [done|done|lia|done].
  - rewrite Eb. intros i mbox Hi. destruct (Hb i mbox Hi) as (Em & Hle & Hok).
    split_and!; [by eapply Hbox|done|done].
Qed.

Section Options.
Variable use_mfttop : bool.
Variable has_mcast_fdb_top : Z → bool.
Variable switch_mcast_top : Z → Z.
Variable first_time_master_sweep : bool.
Variable mlids_init_max : Z.

Lemma sweep_ok sm :
  mcast_subnet nodes S sws mcast_cap ports → mcast_start sm →
  ∃ sm' msgs,
    osm_mcast_mgr_process nodes sws mcast_cap use_ucast_cache use_mfttop has_mcast_fdb_top switch_mcast_top
      first_time_master_sweep mlids_init_max max_mcast_lid_ho true sm = Some (sm', msgs)
    ∧ ∀ i mbox, mboxes sm !! i = Some (Some mbox) →
        box_delivers nodes S (switch_ports msgs (IB_LID_MCAST_START_HO + Z.of_nat i))
          (osm_mcast_make_port_list_and_map mbox).
Proof.
  intros Hsub Hst. destruct (alloc_ok sm Hst) as (Ad & Ar & Ab). unfold osm_mcast_mgr_process.
  rewrite bool_decide_false.
  2:{ intros E. destruct (mn_near _ _ _ _ _ Hsub) as (s0 & Hs0 & _). pose proof (mn_trees _ _ _ _ _ Hsub) as TT.
      rewrite <-(sh_dom _ _ _ tt_shape), E, dom_empty_L in Hs0. set_solver. }
  cbv zeta. set (sm1 := alloc_mfts max_mcast_lid_ho sm) in *.
  assert (Eb : mboxes sm1 = mboxes sm) by (unfold sm1, alloc_mfts; by case_match).
  destruct (req_loop nodes S sws mcast_cap use_ucast_cache ports (rows_hi sm) Hsub (mboxes sm1)
    (seqZ 0 (max_mcast_lid_ho - IB_LID_MCAST_START_HO + 1)) sm1) as (sm2 & E & [Sd Sr Sb Sg] & Hdel & _).
  { by split. } { intros i Hi%elem_of_seqZ. lia. }
  rewrite E. cbn [mbind option_bind].
  set (sm3 := sm2 <| mlids_req_max := 0 |>).
  destruct (set_mftables_ok use_mfttop has_mcast_fdb_top switch_mcast_top first_time_master_sweep mlids_init_max
    sm3) as (msgs & Em & Hports).
  { intros s t Ht. assert (Hs : s ∈ S) by (rewrite <-Sd; by eapply elem_of_dom_2).
    destruct (Sr s Hs) as (t' & Et & Hwf & _). change (mcast_tbls sm3) with (mcast_tbls sm2) in Ht.
    congruence. }
  rewrite Em. cbn [mbind option_bind]. exists sm3, msgs. split; [done|].
  intros i mbox Hi. destruct Hst as [_ _ Hmax Hb]. destruct (Hb i mbox Hi) as (Eml & Hle & _).
  unfold IB_LID_MCAST_END_HO in Hmax.
  apply (Hdel (Z.of_nat i)); [|by rewrite Nat2Z.id, Eb|].
  - apply elem_of_seqZ. lia.
  - intros s p Hs Hp. destruct (Sr s Hs) as (t & Et & _ & _ & Hpo). unfold port_set. rewrite Et. simpl.
    apply Hports; [unfold IB_LID_MCAST_START_HO, IB_MCAST_BLOCK_SIZE in *; lia|done|by apply Hpo].
Qed.

(** Multicast packets reach each member once, on hop tables whose first least-hop
    ports form trees. *)
Lemma sweep_delivers sm i mbox g q :
  mcast_subnet nodes S sws mcast_cap ports → mcast_start sm →
  mboxes sm !! i = Some (Some mbox) → box_port mbox g q →
  ∃ sm' msgs r,
    osm_mcast_mgr_process nodes sws mcast_cap use_ucast_cache use_mfttop has_mcast_fdb_top switch_mcast_top
      first_time_master_sweep mlids_init_max max_mcast_lid_ho true sm = Some (sm', msgs)
    ∧ flood nodes S (switch_ports msgs (IB_LID_MCAST_START_HO + Z.of_nat i)) 128 (home q) (leaf q) = Some r
    ∧ NoDup r ∧ ∀ e, e ∈ r ↔ ∃ g' q', box_port mbox g' q' ∧ q' ≠ q ∧ e = endpoint S q'.
Proof.
  intros Hsub Hst Hi Hb. destruct (sweep_ok sm Hsub Hst) as (sm' & msgs & E & Hdel).
  destruct (mt_boxes _ Hst i mbox Hi) as (_ & _ & Hok).
  destruct (port_list_members nodes S sws mcast_cap ports Hsub mbox Hok) as (Hnd & Hin & _).
  set (l := osm_mcast_make_port_list_and_map mbox) in *.
  assert (Hq : q ∈ l) by (apply Hin; by exists g).
  destruct (Hdel i mbox Hi q 128%nat Hq ltac:(done)) as (r & Er & Hr). fold l in Hr.
  exists sm', msgs, r. split; [done|]. split; [done|].
  assert (Hnd' : NoDup (endpoint S q :: r)) by (by rewrite Hr).
  apply NoDup_cons in Hnd' as [Hni Hndr]. split; [done|]. intros e. split.
  - intros He. assert (He' : e ∈ endpoint S <$> l) by (rewrite <-Hr; by right).
    apply list_elem_of_fmap in He' as (q' & -> & Hq'). apply Hin in Hq' as (g' & Hg').
    exists g', q'. split_and!; [done| |done]. by intros ->.
  - intros (g' & q' & Hg' & Hne & ->).
    assert (He : endpoint S q' ∈ endpoint S q :: r).
    { rewrite Hr. apply list_elem_of_fmap. exists q'. split; [done|]. apply Hin. by exists g'. }
    apply elem_of_cons in He as [He|He]; [|done]. exfalso. apply Hne.
    pose proof (Hok g q Hb) as P1. pose proof (Hok g' q' Hg') as P2.
    assert (g' = g) as -> by (by eapply (mn_ends _ _ _ _ _ Hsub)). congruence.
Qed.
End Options.
End Sweep.

(** The switches support multicast, and the ports have ends of their own. *)
Record mcast_hosts {BO : ByteOrder} (nodes : gmap Z osm_node) (S : gset Z) (mcast_cap : Z → Z) (ports : gmap Z osm_port) : Prop := {
  mh_switches : switches_ok nodes S;
  mh_cap s : s ∈ S → mcast_cap s ≠ 0;
  mh_ports g q : ports !! g = Some q → member nodes S q;
  mh_ends g g' q q' : ports !! g = Some q → ports !! g' = Some q' → endpoint S q = endpoint S q' → g = g'
}.

Lemma mcast_subnet_intro {BO : ByteOrder} nodes S sws mcast_cap ports s0 :
  TreeTables nodes S sws → mcast_hosts nodes S mcast_cap ports → s0 ∈ S →
  (∀ g q, ports !! g = Some q → hopc nodes sws s0 (home_port nodes S q).1 0 ≤ 61) →
  mcast_subnet nodes S sws mcast_cap ports.
Proof. intros HT [H1 H2 H3 H4] Hs0 Hnear. split; try done. by exists s0. Qed.
