(* ===== verification/McastMinHop.v ===== *)
(** * Least-hop routes as multicast trees

    The hop tables of the unicast manager ([UcastMgr.v]) make the first least-hop
    ports form trees ([TreeTables]) when every link between switches is healthy: the
    counts of all ports are exact, so a port that is first for a switch is first for
    every switch on the way to it. *)

From S2P Require Import Prelude IbTypes Switch UcastMgr McastTbl McastMgr McastTree.
From S2P Require Import McastBranch McastMgrOk McastSweep.

Open Scope Z_scope.

Section MinHop.
Context {BO : ByteOrder}.
Variable nodes : gmap Z osm_node.
Variable S : gset Z.
Implicit Types sws : gmap Z osm_switch.

Notation np := (num_physp nodes).
Notation link := (link nodes S).
Notation walk := (walk nodes S).
Notation hopc := (hopc nodes).
Notation inv := (matrix_inv nodes S).

Context (Hg : graph_ok nodes S).

(** ** The counts of all ports *)

(** The last iteration relaxes every link, from counts that are no greater than the
    walks through [k + n - 1] switches. *)
Lemma propagate_relaxed n : ∀ k some sws,
  inv sws → bounded nodes S k sws → (1 ≤ k)%nat → (1 ≤ n)%nat →
  (some = false → (∀ k, bounded nodes S k sws) ∧ ∀ s port, s ∈ S → relaxed nodes S s port sws sws) →
  ∃ prev, inv prev ∧ bounded nodes S (k + n - 1) prev
    ∧ ∀ s port, s ∈ S → relaxed nodes S s port prev (propagate nodes n some sws).
Proof.
  induction n as [|n IH]; intros k some sws Hi Hb Hk Hn Hsome; [lia|]. cbn [propagate].
  destruct some.
  2:{ destruct (Hsome eq_refl) as [Hall Hrel]. by exists sws. }
  pose proof (propagate_once_step nodes S sws Hg Hi) as Hstep.
  pose proof (bounded_round nodes S k sws Hg Hi Hb Hk) as Hb'.
  destruct (propagate_once nodes sws) as [sws' some'] eqn:E. destruct Hstep as (Hi' & Hm & Hsame & Hrel).
  assert (Hfix : some' = false → (∀ k, bounded nodes S k sws') ∧ ∀ s port, s ∈ S → relaxed nodes S s port sws' sws').
  { intros ->. specialize (Hsame eq_refl) as ->. split; [|exact Hrel].
    apply bounded_stable; [done..| |by rewrite E].
    intros t s l w Ht Hw Hlen. apply (Hb t s l w Ht Hw). lia. }
  destruct (decide (n = 0)%nat) as [->|Hn0].
  - exists sws. split_and!; [done|by replace (k + 1 - 1)%nat with k by lia|exact Hrel].
  - replace (k + Datatypes.S n - 1)%nat with (Datatypes.S k + n - 1)%nat by lia.
    apply IH; (done || lia).
Qed.

Lemma walk_weight t s l w : walk t s l w → 1 ≤ w.
Proof.
  induction 1 as [s port w h Hs Hl|s port w r l v Hs Hl Hw IH];
    pose proof (link_pos nodes S _ _ _ _ _ Hg Hs Hl); lia.
Qed.

(** A walk that ends at its first visit of the target. *)
Lemma walk_avoid t s l w :
  walk t s l w → s ≠ t → ∃ l' w', walk t s l' w' ∧ t ∉ l' ∧ l' `prefix_of` l ∧ w' ≤ w.
Proof.
  intros Hw. induction Hw as [s port w h Hs Hl|s port w r l v Hs Hl Hw IH]; intros Hne.
  - exists [s], w. split_and!; [by eapply walk_last|by intros ?%list_elem_of_singleton|done|lia].
  - destruct (decide (r = t)) as [->|Hrt].
    + exists [s], w. split_and!; [by eapply walk_last|by intros ?%list_elem_of_singleton|by exists l|].
      pose proof (walk_weight t t l v Hw). lia.
    + destruct (IH Hrt) as (l' & w' & H1 & H2 & [k Hk] & H4). exists (s :: l'), (w + w').
      split_and!; [by eapply walk_step| |exists k; by rewrite Hk|lia]. by apply not_elem_of_cons.
Qed.

Lemma link_unique s port w h r w' h' r' : link s port w h r → link s port w' h' r' → w = w' ∧ r = r'.
Proof.
  intros (_ & p & rp & Hp & Hr & _ & _ & -> & _) (_ & p' & rp' & Hp' & Hr' & _ & _ & -> & _).
  rewrite Hp in Hp'. injection Hp' as <-. rewrite Hr in Hr'. by injection Hr' as <- <-.
Qed.

Lemma link_ends s port w h r : link s port w h r → r ∈ S ∧ r ≠ s ∧ 1 ≤ port < np s.
Proof. by intros (Hp & _ & _ & _ & _ & Hr & Hne & _). Qed.

Lemma link_cable s port w h r : s ∈ S → link s port w h r → ∃ rem, cable nodes S s port r rem.
Proof.
  intros Hs (Hp & p & rem & Hpp & Hr & Hin & _). exists rem. split_and!; (done || lia || by exists p).
Qed.

Section Built.
Variable sws0 : gmap Z osm_switch.
Context (Hst : matrix_start nodes S sws0).
Notation sws := (build_matrices nodes sws0).
Notation D s t := (hopc sws s t 0).

Lemma built_inv : inv sws.
Proof. apply (build_matrices_inv nodes S sws0 Hg Hst). Qed.

Lemma built_walk s t l w : t ∈ S → walk t s l w → D s t ≤ w.
Proof. apply (build_matrices_inv nodes S sws0 Hg Hst). Qed.

Lemma built_range s t port : s ∈ S → t ∈ S → 0 ≤ port < np s → 0 ≤ hopc sws s t port ≤ 255.
Proof. apply (mi_range _ _ _ built_inv). Qed.

Lemma built_zero s t : s ∈ S → t ∈ S → 0 ≤ D s t ≤ 255.
Proof.
  intros Hs Ht. apply built_range; [done..|].
  pose proof (np_pos nodes S sws s (mi_shape _ _ _ built_inv) Hs). lia.
Qed.

(** A count below 255 is the weight of a walk. *)
Lemma built_shortest s t : s ∈ S → t ∈ S → s ≠ t → D s t < 255 → ∃ l, walk t s l (D s t).
Proof. intros Hs Ht Hne Hlt. by apply (build_matrices_shortest nodes S sws0 s t Hg Hst). Qed.

(** The last iteration starts from exact counts. *)
Lemma last_iteration r s :
  r ∈ S → s ∈ S → r ≠ s →
  ∃ prev, inv prev ∧ bounded nodes S (size S - 1) prev ∧ ∀ s port, s ∈ S → relaxed nodes S s port prev sws.
Proof.
  intros Hr Hs Hne. assert (Hsize : (2 ≤ size S)%nat).
  { transitivity (size ({[ r; s ]} : gset Z)); [|apply subseteq_size; set_solver].
    rewrite size_union, !size_singleton by set_solver. lia. }
  pose proof Hst as [Hsh Hf]. destruct (hop_0_1_all nodes S sws0 Hg Hsh Hf) as [Hsh1 Hd].
  unfold build_matrices. set (sws1 := foldl _ _ _) in *.
  destruct (matrix_inv_init nodes S sws1 Hg Hsh1 Hd) as [Hi1 Hl1].
  assert (Hb1 : bounded nodes S 1 sws1).
  { intros t x l w Ht Hw Hlen. destruct Hw as [x port w h Hx Hl|x port w y l v Hx Hl Hw].
    - by eapply Hl1.
    - destruct Hw; simpl in Hlen; lia. }
  assert (Hn : size sws1 = size S) by (by rewrite <-(sh_dom _ _ _ Hsh1), size_dom).
  destruct (propagate_relaxed (pred (size sws1)) 1 true sws1 Hi1 Hb1) as (prev & H1 & H2 & H3); [lia..|done|].
  exists prev. split_and!; [done| |done]. by replace (size S - 1)%nat with (1 + pred (size sws1) - 1)%nat by lia.
Qed.

(** The count of a port is the one of the switch behind its link plus its weight. *)
Lemma cell_upper s port w r t :
  link s port w true r → s ∈ S → t ∈ S → hopc sws s t port ≤ w + D r t.
Proof.
  intros Hl Hs Ht. destruct (link_ends _ _ _ _ _ Hl) as (Hr & Hne & Hp).
  pose proof (link_pos nodes S _ _ _ _ _ Hg Hs Hl) as Hw.
  pose proof (built_range s t port Hs Ht ltac:(lia)) as Hrng. pose proof (built_zero r t Hr Ht) as Hz.
  destruct (decide (D r t < 255)) as [Hlt|]; [|lia].
  destruct (last_iteration r s Hr Hs Hne) as (prev & Hip & Hb & Hrel).
  pose proof (Hrel s port Hs w r t Hl Ht) as Hle.
  etrans; [exact Hle|].
  destruct (decide (r = t)) as [->|Hrt].
  { rewrite (mi_self _ _ _ Hip t Ht), (mi_self _ _ _ built_inv t Ht) in *. lia. }
  destruct (built_shortest r t Hr Ht Hrt Hlt) as (l & Hw1).
  destruct (walk_simple nodes S t r l _ Hg Hw1) as (l1 & v1 & Hw2 & Hnd & Hv1).
  destruct (walk_avoid t r l1 v1 Hw2 Hrt) as (l2 & v2 & Hw3 & Hni & [k Hk] & Hv2).
  assert (Hlen : (length (t :: l2) ≤ size S)%nat).
  { rewrite <-(size_list_to_set (C:=gset Z) (t :: l2)).
    - apply subseteq_size. intros x [->|Hx]%elem_of_list_to_set%elem_of_cons; [done|].
      by apply (walk_in nodes S _ _ _ _ Hw3).
    - apply NoDup_cons. split; [done|]. rewrite Hk in Hnd. by apply NoDup_app in Hnd as [Hnd _]. }
  specialize (Hb t r l2 v2 Ht Hw3 ltac:(simpl in Hlen; lia)). lia.
Qed.

Lemma D_link s port w r t : link s port w true r → s ∈ S → t ∈ S → D s t ≤ w + D r t.
Proof.
  intros Hl Hs Ht. destruct (link_ends _ _ _ _ _ Hl) as (_ & _ & Hp).
  etrans; [apply (mi_least _ _ _ built_inv s t port); (done || lia)|by apply cell_upper].
Qed.

(** ** Routes as trees *)

(** Every link between switches is healthy. *)
Definition links_healthy : Prop := ∀ s port w h r, s ∈ S → link s port w h r → h = true.

Context (Hh : links_healthy) (Hc : cables_ok nodes S).

(** Walks can be put together when their last links are healthy. *)
Lemma walk_app x t s l w l' w' : walk x s l w → walk t x l' w' → walk t s (l ++ l') (w + w').
Proof.
  intros Hw Hw'. induction Hw as [s port w h Hs Hl|s port w r l v Hs Hl Hw IH].
  - pose proof (Hh _ _ _ _ _ Hs Hl) as ->. by eapply walk_step.
  - rewrite <-Z.add_assoc. simpl. by eapply walk_step.
Qed.

Lemma D_triangle s x t :
  s ∈ S → x ∈ S → t ∈ S → D s t ≤ D s x + D x t.
Proof.
  intros Hs Hx Ht. pose proof (built_zero s t Hs Ht). pose proof (built_zero s x Hs Hx).
  pose proof (built_zero x t Hx Ht).
  destruct (decide (s = x)) as [->|Hsx]; [lia|]. destruct (decide (x = t)) as [->|Hxt]; [lia|].
  destruct (decide (D s x < 255)) as [L1|]; [|lia]. destruct (decide (D x t < 255)) as [L2|]; [|lia].
  destruct (built_shortest s x Hs Hx Hsx L1) as (l & Hw).
  destruct (built_shortest x t Hx Ht Hxt L2) as (l' & Hw').
  apply (built_walk s t (l ++ l')); [done|by eapply walk_app].
Qed.

(** A link that attains the count of its switch. *)
Lemma first_link s t p :
  s ∈ S → t ∈ S → 1 ≤ p < np s → hopc sws s t p = D s t → D s t < 255 →
  ∃ w r, link s p w true r ∧ D s t = w + D r t.
Proof.
  intros Hs Ht Hp E Hlt. destruct (mi_sound _ _ _ built_inv s t p Hs Ht Hp ltac:(lia)) as (w & h & r & Hl & _ & Hw).
  pose proof (Hh _ _ _ _ _ Hs Hl) as ->. exists w, r. split; [done|].
  pose proof (cell_upper s p w r t Hl Hs Ht). lia.
Qed.

Lemma built_route s t p :
  s ∈ S → D s t < 255 →
  mroute nodes sws s t = Some p
  ↔ 1 ≤ p < np s ∧ hopc sws s t p = D s t ∧ ∀ p', 1 ≤ p' < p → hopc sws s t p' ≠ D s t.
Proof. apply mroute_first, (mi_shape _ _ _ built_inv). Qed.

(** A switch on the way splits the count. *)
Lemma on_route_split t s x :
  t ∈ S → s ∈ S → D s t < 255 → on_route nodes S sws t s x → D s t = D s x + D x t.
Proof.
  intros Ht Hs Hlt H. induction H as [s _|s p r rem x Hne Em Hcb H IH].
  { by rewrite (mi_self _ _ _ built_inv). }
  apply built_route in Em as (Hp & Ep & _); [|done..].
  destruct (first_link s t p Hs Ht Hp Ep Hlt) as (w & r' & Hl & Ed).
  destruct (link_cable s p w true r' Hs Hl) as (rem' & Hcb').
  destruct (cable_unique nodes S _ _ _ _ _ _ Hcb Hcb') as [<- _].
  destruct (link_ends _ _ _ _ _ Hl) as (Hr & Hrs & _).
  pose proof (link_pos nodes S _ _ _ _ _ Hg Hs Hl).
  pose proof (built_zero s t Hs Ht). pose proof (built_zero r t Hr Ht).
  assert (Hx : x ∈ S) by (by eapply on_route_in).
  specialize (IH Hr ltac:(lia)).
  pose proof (D_triangle s x t Hs Hx Ht). 
  pose proof (D_link s p w r x Hl Hs Hx). lia.
Qed.

Lemma minhop_prefix s t p r rem x :
  t ∈ S → D s t < 255 → s ≠ t → mroute nodes sws s t = Some p → cable nodes S s p r rem →
  on_route nodes S sws t r x → mroute nodes sws s x = Some p.
Proof.
  intros Ht Hlt Hne Em Hcb H. pose proof Hcb as (Hs & _).
  apply built_route in Em as (Hp & Ep & Hfirst); [|done..].
  destruct (first_link s t p Hs Ht Hp Ep Hlt) as (w & r' & Hl & Ed).
  destruct (link_cable s p w true r' Hs Hl) as (rem' & Hcb').
  destruct (cable_unique nodes S _ _ _ _ _ _ Hcb Hcb') as [<- _].
  destruct (link_ends _ _ _ _ _ Hl) as (Hr & Hrs & _).
  pose proof (link_pos nodes S _ _ _ _ _ Hg Hs Hl).
  assert (Hx : x ∈ S) by (by eapply on_route_in).
  pose proof (built_zero s t Hs Ht). pose proof (built_zero r t Hr Ht). pose proof (built_zero x t Hx Ht).
  pose proof (on_route_split t r x Ht Hr ltac:(lia) H) as Esplit.
  pose proof (D_triangle s x t Hs Hx Ht). pose proof (D_link s p w r x Hl Hs Hx).
  apply built_route; [done|lia|]. split_and!; [lia|lia| |].
  - pose proof (cell_upper s p w r x Hl Hs Hx).
    pose proof (mi_least _ _ _ built_inv s x p Hs Hx ltac:(lia)). lia.
  - intros p' Hp' E'.
    destruct (first_link s x p' Hs Hx ltac:(lia) E' ltac:(lia)) as (w' & r' & Hl' & Ed').
    destruct (link_ends _ _ _ _ _ Hl') as (Hr' & _ & _).
    pose proof (cell_upper s p' w' r' t Hl' Hs Ht). pose proof (D_triangle r' x t Hr' Hx Ht).
    pose proof (mi_least _ _ _ built_inv s t p' Hs Ht ltac:(lia)). apply (Hfirst p' Hp'). lia.
Qed.

Lemma minhop_port s t :
  s ∈ S → t ∈ S → s ≠ t → D s t < 255 →
  ∃ p r rem, mroute nodes sws s t = Some p ∧ cable nodes S s p r rem ∧ D r t < D s t.
Proof.
  intros Hs Ht Hne Hlt. destruct (mi_attained _ _ _ built_inv s t Hs Ht Hlt) as [?|(port & Hp & E)]; [done|].
  destruct (mroute_some nodes S sws s t port (mi_shape _ _ _ built_inv) Hs Hp E Hlt) as (p & Em).
  pose proof Em as (Hp' & Ep & _)%built_route; [|done..].
  destruct (first_link s t p Hs Ht Hp' Ep Hlt) as (w & r & Hl & Ed).
  destruct (link_cable s p w true r Hs Hl) as (rem & Hcb).
  pose proof (link_pos nodes S _ _ _ _ _ Hg Hs Hl). exists p, r, rem. split_and!; (done || lia).
Qed.

#[export] Instance minhop_trees : TreeTables nodes S sws.
Proof.
  split.
  - apply (mi_shape _ _ _ built_inv).
  - exact Hc.
  - exact built_zero.
  - exact minhop_port.
  - exact minhop_prefix.
Qed.
End Built.
End MinHop.

(** ** Multicast over least-hop tables *)

(** What the hop tables are built on: a graph with healthy links. *)
Record minhop_subnet {BO : ByteOrder} (nodes : gmap Z osm_node) (S : gset Z) (sws0 : gmap Z osm_switch) : Prop := {
  mh_graph : graph_ok nodes S;
  mh_start : matrix_start nodes S sws0;
  mh_cables : cables_ok nodes S;
  mh_healthy : links_healthy nodes S
}.

(** Switch [s] is at most 61 hops from the switches of all ports. *)
Definition minhop_near {BO : ByteOrder} (nodes : gmap Z osm_node) (S : gset Z) (ports : gmap Z osm_port)
    (s : Z) : Prop :=
  ∀ g q, ports !! g = Some q →
    s = (home_port nodes S q).1 ∨ ∃ l w, walk nodes S (home_port nodes S q).1 s l w ∧ w ≤ 61.

(** C5. Multicast packets reach each member once.  On the hop tables of
    [build_matrices], when the links between the switches are healthy, the switches
    support multicast and one of them is at most 61 hops from all ports,
    [osm_mcast_mgr_process] returns for any requests and options, and the blocks it sends make the switches carry a
    packet from any member of a group's MLID to every other member, to each exactly
    once, and to nobody else; no packet loops. *)
Theorem minhop_multicast {BO : ByteOrder} nodes S sws0 mcast_cap use_ucast_cache ports max_mcast_lid_ho
    use_mfttop has_mcast_fdb_top switch_mcast_top first_time_master_sweep mlids_init_max sm i mbox g q s0 :
  minhop_subnet nodes S sws0 → mcast_hosts nodes S mcast_cap ports →
  s0 ∈ S → minhop_near nodes S ports s0 → mcast_start nodes S ports max_mcast_lid_ho sm →
  mboxes sm !! i = Some (Some mbox) → box_port mbox g q →
  ∃ sm' msgs r,
    osm_mcast_mgr_process nodes (build_matrices nodes sws0) mcast_cap use_ucast_cache use_mfttop
      has_mcast_fdb_top switch_mcast_top first_time_master_sweep mlids_init_max max_mcast_lid_ho true sm
    = Some (sm', msgs)
    ∧ flood nodes S (switch_ports msgs (IB_LID_MCAST_START_HO + Z.of_nat i)) 128
        (home_port nodes S q).1 (home_port nodes S q).2 = Some r
    ∧ NoDup r ∧ ∀ e, e ∈ r ↔ ∃ g' q', box_port mbox g' q' ∧ q' ≠ q ∧ e = endpoint S q'.
Proof.
  intros [H1 H2 H3 H4] Hh Hs0 Hnear Hst Hi Hb.
  apply (sweep_delivers nodes S _ mcast_cap use_ucast_cache ports) with (mbox := mbox) (g := g); [|done..].
  apply (mcast_subnet_intro _ _ _ _ _ s0); [by apply minhop_trees|done..|].
  intros g' q' Hq'. destruct (build_matrices_inv nodes S sws0 H1 H2) as [Hinv Hw].
  assert (Ht : (home_port nodes S q').1 ∈ S) by (apply home_in; by apply (mh_ports _ _ _ _ Hh g')).
  destruct (Hnear g' q' Hq') as [->|(l & w & Hlw & Hle)]; [by rewrite (mi_self _ _ _ Hinv _ Ht)|].
  specialize (Hw _ s0 l w Ht Hlw). lia.
Qed.
