(* ===== verification/RouteEx.v ===== *)
(** * A subnet of two switches

    Switches 1 and 2 with two cables between them, and a channel adapter, node 3,
    on port 3 of switch 2: the witnesses of the theorems of [Switch.v] and
    [UcastMgr.v]. *)

From S2P Require Import Prelude IbTypes CString Switch UcastMgr.

Open Scope Z_scope.

#[local] Instance ex_byte_order : ByteOrder := false.

Definition ex_physp (remote : option (Z * Z)) : osm_physp := Physp 7 true 1 false remote.

Definition ex_nodes : gmap Z osm_node :=
  {[ 1 := Node 1 true 1 [ex_physp None; ex_physp (Some (2, 1)); ex_physp (Some (2, 2))];
     2 := Node 2 true 2 [ex_physp None; ex_physp (Some (1, 1)); ex_physp (Some (1, 2));
                         ex_physp (Some (3, 1))];
     3 := Node 3 false 0 [Physp 0 true 1 false None; ex_physp (Some (2, 3))] ]}.

(** A discovered switch, and the same with its tables prepared for LIDs up to 3. *)
Definition ex_switch (n : Z) : osm_switch := Switch 0 n [] (replicate (Z.to_nat n) 0) None [] [].
Definition prepared (n max_lid : Z) : osm_switch :=
  osm_switch_prepare_path_rebuild (ex_switch n) max_lid.
Definition ex_prepared (n : Z) : osm_switch := prepared n 3.

Definition ex_sws : gmap Z osm_switch := {[ 1 := ex_prepared 3; 2 := ex_prepared 4 ]}.
Definition ex_guids : gset Z := {[ 1; 2 ]}.

Definition ex_port : osm_port := Port 3 (Some 1) 3 0 false None.
Definition ex_ports : list osm_port :=
  [Port 1 (Some 0) 1 0 false None; Port 2 (Some 0) 2 0 false None; ex_port].

Definition ex_opts : route_opts := RouteOpts 0 true false false false.

Lemma ex_switch_rows n lid row :
  hop_row (ex_switch n) lid = Some row → length row = Z.to_nat (num_ports (ex_switch n)).
Proof. by unfold hop_row. Qed.

Lemma prepared_ok n max_lid :
  0 < n ≤ 255 → 0 ≤ max_lid ≤ 0xBFFF →
  let sw := prepared n max_lid in
  sw_wf sw ∧ num_ports sw = n ∧ max_lid_ho sw = max_lid
  ∧ (∀ lid port, 1 ≤ lid ≤ max_lid → 0 ≤ port < n → osm_switch_get_hop_count sw lid port = OSM_NO_PATH)
  ∧ dimn_ok sw ∧ p_prof sw = replicate (Z.to_nat n) 0
  ∧ max_lid_ho sw < Z.of_nat (length (new_lft sw)).
Proof.
  intros Hn Hm. cbv zeta.
  destruct (prepare_path_rebuild_step (ex_switch n) max_lid Hn (ex_switch_rows n) Hm)
    as (H1 & H2 & H3 & H4 & _ & H6 & H7 & H8 & _).
  fold (prepared n max_lid) in *. split_and!; try done.
  - intros lid port Hl Hp. apply H4; unfold lid_in, port_in; rewrite ?H2, ?H3; simpl; lia.
  - assert (E : search_ordering_ports (prepared n max_lid) = None).
    { unfold prepared, osm_switch_prepare_path_rebuild, alloc_lft. cbv zeta. by case_match. }
    unfold dimn_ok. rewrite E, H2. by split.
  - lia.
Qed.

Lemma ex_prepared_ok n :
  0 < n ≤ 255 →
  sw_wf (ex_prepared n) ∧ num_ports (ex_prepared n) = n ∧ max_lid_ho (ex_prepared n) = 3
  ∧ (∀ lid port, 1 ≤ lid ≤ 3 → 0 ≤ port < n →
       osm_switch_get_hop_count (ex_prepared n) lid port = OSM_NO_PATH)
  ∧ dimn_ok (ex_prepared n)
  ∧ p_prof (ex_prepared n) = replicate (Z.to_nat n) 0
  ∧ max_lid_ho (ex_prepared n) < Z.of_nat (length (new_lft (ex_prepared n))).
Proof. intros Hn. by apply prepared_ok. Qed.

Lemma ex_sws_cases s sw :
  ex_sws !! s = Some sw → (s = 1 ∧ sw = ex_prepared 3) ∨ (s = 2 ∧ sw = ex_prepared 4).
Proof.
  unfold ex_sws. intros [[<- <-]|[_ [<- <-]%lookup_singleton_Some]]%lookup_insert_Some; auto.
Qed.

Lemma ex_guids_cases s : s ∈ ex_guids → s = 1 ∨ s = 2.
Proof. unfold ex_guids. set_solver. Qed.

Lemma ex_lid_inj s t :
  s ∈ ex_guids → t ∈ ex_guids → sw_lid ex_nodes s = sw_lid ex_nodes t → s = t.
Proof. by intros [-> | ->]%ex_guids_cases [-> | ->]%ex_guids_cases. Qed.

Lemma ex_num_physp : num_physp ex_nodes 1 = 3 ∧ num_physp ex_nodes 2 = 4.
Proof. done. Qed.

Lemma ex_start : matrix_start ex_nodes ex_guids ex_sws.
Proof.
  destruct (ex_prepared_ok 3 ltac:(lia)) as (W3 & N3 & M3 & F3 & _).
  destruct (ex_prepared_ok 4 ltac:(lia)) as (W4 & N4 & M4 & F4 & _).
  split; [split|].
  - unfold ex_sws, ex_guids. rewrite dom_insert_L, dom_singleton_L. done.
  - by intros s sw [[-> ->]|[-> ->]]%ex_sws_cases.
  - by intros s sw [[-> ->]|[-> ->]]%ex_sws_cases.
  - intros s sw t [[-> ->]|[-> ->]]%ex_sws_cases [-> | ->]%ex_guids_cases;
      unfold lid_in; rewrite ?M3, ?M4; by vm_compute.
  - intros s [-> | ->]%ex_guids_cases t port [-> | ->]%ex_guids_cases Hp; unfold hopc.
    + change (ex_sws !! 1) with (Some (ex_prepared 3)). apply F3; [by vm_compute|exact Hp].
    + change (ex_sws !! 1) with (Some (ex_prepared 3)). apply F3; [by vm_compute|exact Hp].
    + change (ex_sws !! 2) with (Some (ex_prepared 4)). apply F4; [by vm_compute|exact Hp].
    + change (ex_sws !! 2) with (Some (ex_prepared 4)). apply F4; [by vm_compute|exact Hp].
Qed.

(** Every valid port is healthy and weighs 1. *)
Lemma ex_physp_at g port p :
  g ∈ ex_guids → physp_at ex_nodes g port = Some p → healthy p = true ∧ hop_wf p = 1.
Proof.
  assert (Hall : ∀ l, Forall (λ p, healthy p = true ∧ hop_wf p = 1) l →
    ∀ n, physp_table n = l → osm_node_get_physp_ptr n port = Some p → healthy p = true ∧ hop_wf p = 1).
  { intros l Hl n <-. unfold osm_node_get_physp_ptr.
    destruct (physp_table n !! Z.to_nat port) as [q|] eqn:E; simpl; [|done].
    case_match; [done|]. intros [= ->]. rewrite Forall_forall in Hl.
    eapply Hl, list_elem_of_lookup_2, E. }
  intros [-> | ->]%ex_guids_cases; (eapply Hall; [|done]); by repeat constructor.
Qed.

Lemma ex_graph : graph_ok ex_nodes ex_guids.
Proof.
  split; [exact ex_lid_inj|]. intros s port p Hs _ Hp. destruct (ex_physp_at s port p Hs Hp). lia.
Qed.

Lemma ex_routing : routing_ok ex_opts ex_nodes ex_guids ex_ports ex_sws ex_port 2 3.
Proof.
  destruct (ex_prepared_ok 3 ltac:(lia)) as (W3 & N3 & M3 & F3 & D3 & P3 & L3).
  destruct (ex_prepared_ok 4 ltac:(lia)) as (W4 & N4 & M4 & F4 & D4 & P4 & L4).
  split.
  - simpl. lia.
  - unfold ports_ok, ex_ports. repeat constructor; by vm_compute.
  - by vm_compute.
  - apply ex_graph.
  - intros s [-> | ->]%ex_guids_cases;
      (split; [intros n Hn; vm_compute in Hn; injection Hn as <-; cbn; lia|]);
      by exists (ex_physp None).
  - apply ex_start.
  - intros s sw [[-> ->]|[-> ->]]%ex_sws_cases.
    + rewrite N3, M3. rewrite M3 in L3. split; [done|split; [done|lia]].
    + rewrite N4, M4. rewrite M4 in L4. split; [done|split; [done|lia]].
  - intros s sw [[-> ->]|[-> ->]]%ex_sws_cases; rewrite ?M3, ?M4; lia.
  - unfold ex_ports. set_solver.
  - simpl. lia.
  - split; [unfold ex_guids; set_solver|]. right.
    split; [unfold ex_guids; simpl; set_solver|].
    exists 1, (Node 3 false 0 [Physp 0 true 1 false None; ex_physp (Some (2, 3))]),
      (ex_physp (Some (2, 3))), 3, (ex_physp (Some (3, 1))).
    unfold OSM_NO_PATH. split_and!; done || lia.
  - split; by vm_compute.
  - intros q [-> | [-> | [-> | Hq]%elem_of_cons]%elem_of_cons]%elem_of_cons Hin; try done.
    + by destruct Hin as [[_ Hin] _]; vm_compute in Hin.
    + by destruct Hin as [[_ Hin] _]; vm_compute in Hin.
    + by apply not_elem_of_nil in Hq.
Qed.

Lemma ex_link : link ex_nodes ex_guids 1 1 1 true 2.
Proof.
  split; [by vm_compute|]. exists (ex_physp (Some (2, 1))), 1.
  split_and!; done.
Qed.

Lemma ex_walk : walk ex_nodes ex_guids 2 1 [1] 1.
Proof. eapply walk_last; [unfold ex_guids; set_solver|apply ex_link]. Qed.

Lemma prepare_path_rebuild_ok_witness :
  let s' := osm_switch_prepare_path_rebuild (ex_switch 3) 3 in
  sw_wf s' ∧ max_lid_ho s' = 3.
Proof.
  destruct (prepare_path_rebuild_ok (ex_switch 3) 3 ltac:(simpl; lia) (ex_switch_rows 3) ltac:(lia))
    as (H1 & _ & H3 & _). by split.
Defined.

(** The hop weights file gives port 1 of switch 1 the weight 5. *)
Lemma lid_matrices_shortest_witness :
  let '(nodes', sws') :=
    osm_ucast_mgr_build_lid_matrices [(1, str "1 5")] ex_nodes ex_sws in
  ∃ sw, sws' !! 1 = Some sw
    ∧ ∀ l w, walk nodes' ex_guids 2 1 l w → osm_switch_get_least_hops sw (sw_lid nodes' 2) ≤ w.
Proof.
  pose proof (lid_matrices_shortest [(1, str "1 5")] ex_nodes ex_guids ex_sws 1 2 ex_lid_inj ex_start
    ltac:(unfold ex_guids; set_solver) ltac:(unfold ex_guids; set_solver)) as H.
  destruct (osm_ucast_mgr_build_lid_matrices _ _ _) as [nodes' sws'].
  destruct H as (sw & Hsw & _ & _ & _ & Hw). by exists sw.
Defined.

Lemma ex_destination : destination ex_guids ex_port = ToPort 3 1.
Proof. by vm_compute. Qed.

Lemma ex_in : 1 ∈ ex_guids.
Proof. unfold ex_guids. set_solver. Qed.

Lemma minhop_loop_free_witness :
  let sws1 := build_matrices ex_nodes ex_sws in
  let sws2 := ucast_mgr_build_lfts ex_opts ex_nodes ex_guids (λ _ _ _, 0) ex_ports sws1 in
  forward ex_nodes sws2 3 256 1 = ToPort 3 1
  ∨ ∃ s', s' ∈ ex_guids ∧ forward ex_nodes sws2 3 256 1 = NoRoute s'.
Proof.
  pose proof (minhop_loop_free ex_opts ex_nodes ex_guids (λ _ _ _, 0) ex_ports ex_sws ex_port 2 3 1
    ex_routing ex_in) as H.
  cbv zeta in H |- *. rewrite ex_destination in H.
  destruct H as [H|(s' & Hs' & H & _)]; [left; exact H|right; exists s'; exact (conj Hs' H)].
Defined.

Lemma minhop_delivers_witness :
  forward ex_nodes
    (ucast_mgr_build_lfts ex_opts ex_nodes ex_guids (λ _ _ _, 0) ex_ports
       (build_matrices ex_nodes ex_sws)) 3 256 1 = ToPort 3 1.
Proof.
  rewrite <-ex_destination.
  exact (minhop_delivers ex_opts ex_nodes ex_guids (λ _ _ _, 0) ex_ports ex_sws ex_port 2 3 1 [1] 1
    ex_routing ex_in (λ g port p Hg Hp, proj1 (ex_physp_at g port p Hg Hp))
    (or_intror (conj ex_walk eq_refl))).
Defined.

(** Switch 1 in the middle of a rebuild: both cables to switch 2 are on a least-hop
    path, and port 1 carries a route already. *)
Definition ex_routed : osm_switch :=
  Switch 3 3 [None; None; Some [1; 1; 1]; None] [0; 1; 0] None (replicate 64 255) (replicate 64 255).

Lemma ex_counts : counts_ok ex_routed.
Proof.
  intros i. unfold ex_routed. simpl. destruct (Z.to_nat i) as [|[|[|n]]]; simpl; by vm_compute.
Qed.

Lemma recommend_path_ok_witness :
  let r := osm_switch_recommend_path ex_nodes ex_guids 1 ex_routed ex_port true false true false
             3 1 false OSM_LFT 0 in
  r ≠ OSM_NO_PATH ∧ least_hop_port ex_nodes 1 ex_routed 2 r.
Proof.
  destruct (recommend_path_ok ex_nodes ex_guids 1 ex_routed ex_port true false true false 2 3 1 false
    OSM_LFT 0 ex_counts ltac:(by split) eq_refl) as [[_ H]|[_ H]].
  - split; [by vm_compute|done].
  - exfalso. apply (H ltac:(by vm_compute) 1 ltac:(by vm_compute)).
    split; [done|]. by exists (ex_physp (Some (2, 1))).
Defined.

Lemma recommend_path_balanced_witness :
  let r := osm_switch_recommend_path ex_nodes ex_guids 1 ex_routed ex_port false false false false
             3 1 true OSM_LFT 0 in
  r = 2 ∧ path_count ex_routed r ≤ path_count ex_routed 1.
Proof.
  split; [by vm_compute|].
  apply (recommend_path_balanced ex_nodes ex_guids 1 ex_routed ex_port false false false false 2 3 1
    OSM_LFT 0 1 eq_refl eq_refl eq_refl eq_refl ex_counts ltac:(by split) eq_refl);
    [by vm_compute|by vm_compute|].
  split; [done|]. by exists (ex_physp (Some (2, 1))).
Defined.

(** ** An unhealthy link hides a path

    Three switches in a triangle; the cable between 1 and 2 is unhealthy.  The
    first step of the matrices counts it all the same, so the healthy path through
    switch 3 is not a least-hop path. *)

Definition tri_physp (ok : bool) (remote : option (Z * Z)) : osm_physp := Physp 7 ok 1 false remote.

Definition tri_nodes : gmap Z osm_node :=
  {[ 1 := Node 1 true 1 [tri_physp true None; tri_physp false (Some (2, 1)); tri_physp true (Some (3, 1))];
     2 := Node 2 true 2 [tri_physp true None; tri_physp false (Some (1, 1)); tri_physp true (Some (3, 2))];
     3 := Node 3 true 3 [tri_physp true None; tri_physp true (Some (1, 2)); tri_physp true (Some (2, 2))] ]}.

Definition tri_sws : gmap Z osm_switch :=
  {[ 1 := ex_prepared 3; 2 := ex_prepared 3; 3 := ex_prepared 3 ]}.

Definition tri_ports : list osm_port :=
  [Port 1 (Some 0) 1 0 false None; Port 2 (Some 0) 2 0 false None; Port 3 (Some 0) 3 0 false None].

(** On a triangle of switches whose link between 1 and 2 is unhealthy, switch
    1 gets no route to switch 2, although both other links are healthy: a packet
    that enters at switch 3 arrives, one that enters at switch 1 is dropped. *)
Theorem unhealthy_link_hides_path :
  let sws := ucast_mgr_build_lfts ex_opts tri_nodes {[ 1; 2; 3 ]} (λ _ _ _, 0) tri_ports
               (build_matrices tri_nodes tri_sws) in
  walk tri_nodes {[ 1; 2; 3 ]} 2 1 [1; 3] 2
  ∧ forward tri_nodes sws 2 256 1 = NoRoute 1
  ∧ forward tri_nodes sws 2 256 3 = ToSwitch 2.
Proof.
  split; [|split; by vm_compute].
  apply (walk_step _ _ _ 1 2 1 3 [3] 1); [set_solver| |eapply (walk_last _ _ _ 3 2 1 true); [set_solver|]];
    (split; [by vm_compute|]).
  - exists (tri_physp true (Some (3, 1))), 1. split_and!; done || set_solver.
  - exists (tri_physp true (Some (2, 2))), 2. split_and!; done || set_solver.
Qed.
