(* ===== verification/Updn.v ===== *)
(** * Up/Down routing: [opensm/osm_ucast_updn.c]

    The switches are ranked by their distance to the root switches; a link leads
    up to the switch of the lower rank.  The hop tables of [Switch.v] are filled by a
    breadth-first search from every switch that never goes up after it has gone
    down, and the forwarding tables are then chosen by [UcastMgr.v].

    [updn_node] is the [priv] record of a switch; a list item of the search is the
    GUID of its switch.  The entries of the root and identifier files are
    arguments, in the form [parse_node_map] hands them to its callbacks, with the
    status it returns. *)

From S2P Require Import Prelude IbTypes CString NodeMap Switch UcastMgr.

Open Scope Z_scope.

Inductive updn_switch_dir := UP | DOWN.

#[export] Instance updn_switch_dir_eq_dec : EqDecision updn_switch_dir.
Proof. solve_decision. Defined.

Record updn_node := UpdnNode {
  un_id : Z;
  un_dir : updn_switch_dir;
  un_rank : Z;
  un_visited : bool
}.

#[export] Instance updn_node_eta : Eta updn_node := λ u,
  UpdnNode (un_id u) (un_dir u) (un_rank u) (un_visited u).

Definition NO_RANK : Z := 0xffffffff.

Definition updn_get_dir (cur_rank rem_rank cur_id rem_id : Z) : updn_switch_dir :=
  if (cur_rank =? 0) && (rem_rank =? 0) then UP
  else if cur_rank <? rem_rank then DOWN
  else if rem_rank <? cur_rank then UP
  else if rem_id <? cur_id then UP else DOWN.

Section Updn.
Context {BO : ByteOrder}.
Variable nodes : gmap Z osm_node.
Implicit Types sws : gmap Z osm_switch.
Implicit Types us : gmap Z updn_node.

(** [osm_node_get_remote_node], when the remote node is a switch: the switch and
    its port. *)
Definition remote_switch sws (g pn : Z) : option (Z * Z) :=
  p ← physp_at nodes g pn;
  '(r, pn_rem) ← p_remote_physp p;
  if bool_decide (r ∈ dom sws) then Some (r, pn_rem) else None.

(** ** Hop counts from one switch *)

Record bfs_state := Bfs {
  bfs_sws : gmap Z osm_switch;
  bfs_us : gmap Z updn_node;
  bfs_list : list Z
}.

(** The body of the loop over the ports of [g], taken from the list in direction
    [current_dir]. *)
Definition bfs_port (lid g : Z) (current_dir : updn_switch_dir) (st : bfs_state) (pn : Z)
    : bfs_state :=
  let '(Bfs sws us l) := st in
  match remote_switch sws g pn with
  | None => st
  | Some (r, pn_rem) =>
      match sws !! g, sws !! r, us !! g, us !! r with
      | Some sw, Some p_remote_sw, Some u, Some rem_u =>
          let next_dir := updn_get_dir (un_rank u) (un_rank rem_u) (un_id u) (un_id rem_u) in
          if bool_decide (current_dir = DOWN) && bool_decide (next_dir = UP) then st
          else
            let current_min_hop := osm_switch_get_least_hops sw lid in
            let remote_min_hop := osm_switch_get_hop_count p_remote_sw lid pn_rem in
            if current_min_hop + 1 <? remote_min_hop then
              let sws :=
                <[r := (osm_switch_set_hops p_remote_sw lid pn_rem (u8 (current_min_hop + 1))).2]> sws in
              if un_visited rem_u then Bfs sws us l
              else Bfs sws (<[r := rem_u <| un_dir := next_dir |> <| un_visited := true |>]> us) (l ++ [r])
            else st
      | _, _, _, _ => st
      end
  end.

(** One iteration of the [while] loop, with the list's head removed. *)
Definition bfs_visit (lid g : Z) (st : bfs_state) : bfs_state :=
  let '(Bfs sws us l) := st in
  match sws !! g, us !! g with
  | Some sw, Some u =>
      foldl (bfs_port lid g (un_dir u))
        (Bfs sws (<[g := u <| un_visited := false |>]> us) l) (seqZ 1 (num_ports sw - 1))
  | _, _ => st
  end.

(** The loop; [None] is "the list is not empty when the fuel is used up". *)
Fixpoint bfs_loop (fuel : nat) (lid : Z) (st : bfs_state) : option bfs_state :=
  match bfs_list st with
  | [] => Some st
  | g :: l =>
      match fuel with
      | O => None
      | Datatypes.S fuel => bfs_loop fuel lid (bfs_visit lid g (Bfs (bfs_sws st) (bfs_us st) l))
      end
  end.

(** Every iteration but the first follows a count that went down. *)
Definition bfs_fuel sws : nat :=
  Z.to_nat (2 + 255 * foldr (λ e n, num_ports e.2 + n) 0 (map_to_list sws)).

Definition updn_bfs_by_node (g : Z) (st : gmap Z osm_switch * gmap Z updn_node)
    : option (gmap Z osm_switch * gmap Z updn_node) :=
  let '(sws, us) := st in
  match sws !! g, us !! g with
  | Some p_sw, Some u =>
      let lid := sw_lid nodes g in
      let sws' := <[g := (osm_switch_set_hops p_sw lid 0 0).2]> sws in
      let us := <[g := u <| un_dir := UP |>]> us in
      st ← bfs_loop (bfs_fuel sws) lid (Bfs sws' us [g]);
      Some (bfs_sws st, bfs_us st)
  | _, _ => Some st
  end.

(** ** Ranks *)

(** The body of the loop over the ports of [g]. *)
Definition rank_port sws (g : Z) (st : gmap Z updn_node * list Z) (port_num : Z)
    : gmap Z updn_node * list Z :=
  let '(us, l) := st in
  match remote_switch sws g port_num with
  | None => st
  | Some (r, _) =>
      match us !! g, us !! r with
      | Some u, Some remote_u =>
          if u32 (un_rank u + 1) <? un_rank remote_u
          then (<[r := remote_u <| un_rank := u32 (un_rank u + 1) |>]> us, l ++ [r])
          else st
      | _, _ => st
      end
  end.

Definition rank_visit sws (g : Z) (st : gmap Z updn_node * list Z) : gmap Z updn_node * list Z :=
  match sws !! g with
  | Some p_sw => foldl (rank_port sws g) st (seqZ 1 (num_ports p_sw - 1))
  | None => st
  end.

Fixpoint rank_loop (fuel : nat) sws (us : gmap Z updn_node) (l : list Z)
    : option (gmap Z updn_node) :=
  match l with
  | [] => Some us
  | g :: l =>
      match fuel with
      | O => None
      | Datatypes.S fuel => let '(us, l) := rank_visit sws g (us, l) in rank_loop fuel sws us l
      end
  end.

Definition updn_subn_rank sws us : option (gmap Z updn_node) :=
  let roots := filter (λ g, un_rank <$> us !! g = Some 0) (sw_keys sws) in
  rank_loop (size sws) sws us roots.

(** ** The hop tables *)

(** A node of the list of ports by LID that is a switch of rank 0. *)
Definition is_root us (g : option Z) : bool :=
  match g with
  | None => false
  | Some g => from_option (λ u, un_rank u =? 0) false (us !! g)
  end.

(** [port_nodes]: the node of [osm_get_port_by_lid_ho (i)]. *)
Definition updn_clear_non_root_hops (port_nodes : list (option Z)) us (sw : osm_switch) : osm_switch :=
  sw <| hops := imap (λ i (r : option (list Z)),
    if is_root us (mjoin (port_nodes !! i)) then r
    else const (replicate (Z.to_nat (num_ports sw)) OSM_NO_PATH) <$> r) (hops sw) |>.

Fixpoint bfs_all (l : list Z) (st : gmap Z osm_switch * gmap Z updn_node)
    : option (gmap Z osm_switch * gmap Z updn_node) :=
  match l with
  | [] => Some st
  | g :: l => st ← updn_bfs_by_node g st; bfs_all l st
  end.

Definition updn_set_min_hop_table (connect_roots : bool) (port_nodes : list (option Z)) sws us
    : option (gmap Z osm_switch * gmap Z updn_node) :=
  let sws :=
    (if connect_roots then updn_clear_non_root_hops port_nodes us else osm_switch_clear_hops)
    <$> sws in
  bfs_all (sw_keys sws) (sws, us).

(** The status, and the state when the loops end. *)
Definition updn_build_lid_matrices (connect_roots : bool) (port_nodes : list (option Z))
    (num_roots : Z) sws us : option (Z * gmap Z osm_switch * gmap Z updn_node) :=
  if num_roots =? 0 then Some (-1, sws, us)
  else if bool_decide (sws = ∅) then Some (-1, sws, us)
  else
    us ← updn_subn_rank sws us;
    '(sws, us) ← updn_set_min_hop_table connect_roots port_nodes sws us;
    Some (0, sws, us).
End Updn.

(** ** Roots and identifiers *)

Section Setup.
Context {BO : ByteOrder}.
Implicit Types sws : gmap Z osm_switch.
Implicit Types us : gmap Z updn_node.

Definition create_updn_node (g : Z) : updn_node := UpdnNode (cl_ntoh64 g) UP NO_RANK false.

(** The callback of the root file; the state is the nodes and [num_roots]. *)
Definition rank_root_node sws (st : gmap Z updn_node * Z) (guid : Z) (p : cstr)
    : Z * (gmap Z updn_node * Z) :=
  let g := cl_hton64 guid in
  if bool_decide (g ∈ dom sws)
  then (0, (alter (λ u, u <| un_rank := 0 |>) g st.1, u32 (st.2 + 1))) else (0, st).

(** The callback of the identifier file. *)
Definition update_id sws us (guid : Z) (p : cstr) : Z * gmap Z updn_node :=
  let g := cl_hton64 guid in
  if bool_decide (g ∈ dom sws) then
    let '(id, e) := strtoull p in
    match e with
    | c :: _ => if is_space c then (0, alter (λ u, u <| un_id := id |>) g us) else (-1, us)
    | [] => (0, alter (λ u, u <| un_id := id |>) g us)
    end
  else (0, us).

Definition IB_SUBNET_PATH_HOPS_MAX : Z := 64.

(** The LID of the switch next to a port that is not a switch's own. *)
Definition ca_switch_lid (nodes : gmap Z osm_node) sws (q : osm_port) : option Z :=
  if bool_decide (pt_node q ∈ dom sws) then None
  else
    '(r, _) ← (num ← pt_physp q; n ← nodes !! pt_node q; p ← physp_table n !! Z.to_nat num;
               p_remote_physp p);
    if bool_decide (r ∈ dom sws) then Some (sw_lid nodes r) else None.

(** The number of channel adapters behind each LID, in an array of [size] cells. *)
Definition count_cas (size : Z) (lids : list Z) : list Z :=
  foldl (λ a lid, alter (λ c, u32 (c + 1)) (Z.to_nat lid) a) (replicate (Z.to_nat size) 0) lids.

(** The histogram of the hop counts of a switch over the channel adapters. *)
Definition hop_hist (cas_per_sw : list Z) (sw : osm_switch) : list Z :=
  foldl (λ h lid,
    let n := cas_per_sw !!! Z.to_nat lid in
    let hop_val := osm_switch_get_least_hops sw lid in
    if (n =? 0) || (IB_SUBNET_PATH_HOPS_MAX <=? hop_val) then h
    else alter (λ c, u32 (c + n)) (Z.to_nat hop_val) h)
    (replicate (Z.to_nat IB_SUBNET_PATH_HOPS_MAX) 0) (seqZ 1 (max_lid_ho sw)).

(** One bar above 90% of the channel adapters and no other above 5%.  The code
    compares with the doubles [cas_num * 0.9] and [cas_num * 0.05]: these are the
    exact products when the products are integers, so the comparisons of integers
    with them are the ones below. *)
Definition is_spine (cas_num : Z) (hist : list Z) : bool :=
  bool_decide (length (filter (λ h : Z, 9 * cas_num < 10 * h) hist) = 1%nat)
  && bool_decide (length (filter (λ h : Z, cas_num < 20 * h) hist) = 1%nat).

Definition updn_find_root_nodes_by_min_hop (nodes : gmap Z osm_node) (port_lid_tbl_size : Z)
    (ports : list osm_port) sws (st : gmap Z updn_node * Z) : gmap Z updn_node * Z :=
  let lids := omap (ca_switch_lid nodes sws) ports in
  let cas_per_sw := count_cas (u16 (port_lid_tbl_size + 1)) lids in
  let cas_num := u32 (Z.of_nat (length lids)) in
  foldl (λ st e,
    if is_spine cas_num (hop_hist cas_per_sw e.2)
    then (alter (λ u, u <| un_rank := 0 |>) e.1 st.1, u32 (st.2 + 1)) else st)
    st (qmap_items sws).

(** [None] is an option that is not set; the file of an option that is set is what
    [parse_node_map] reads. *)
Record updn_opts := UpdnOpts {
  root_guid_file : option (option cstr);
  ids_guid_file : option (option cstr);
  opt_connect_roots : bool;
  opt_hop_weights : list (Z * cstr);   (* the entries of the hop weights file *)
  subn_ports : list osm_port;          (* [port_guid_tbl] *)
  subn_port_nodes : list (option Z)    (* the nodes of [port_lid_tbl] *)
}.

(** The roots, from the file or by the minimum hop counts: the graph and the tables,
    which [osm_ucast_mgr_build_lid_matrices] may have changed, the nodes and
    [num_roots]. *)
Definition updn_roots (opt : updn_opts) (nodes : gmap Z osm_node) sws us
    : gmap Z osm_node * gmap Z osm_switch * (gmap Z updn_node * Z) :=
  let min_hop := osm_ucast_mgr_build_lid_matrices (opt_hop_weights opt) nodes sws in
  let find st :=
    (min_hop, updn_find_root_nodes_by_min_hop min_hop.1 (Z.of_nat (length (subn_port_nodes opt)))
                (subn_ports opt) min_hop.2 st) in
  match root_guid_file opt with
  | None => find (us, 0)
  | Some file =>
      let '(ret, st) := parse_node_map (rank_root_node sws) file (us, 0) in
      if negb (ret =? 0) then find st
      else if opt_connect_roots opt && (1 <? st.2) then (min_hop, st)
      else (nodes, sws, st)
  end.

Definition updn_ids (opt : updn_opts) sws us : gmap Z updn_node :=
  match ids_guid_file opt with
  | None => us
  | Some file => (parse_node_map (update_id sws) file us).2
  end.

(** Everything before the algorithm. *)
Definition updn_setup (opt : updn_opts) (nodes : gmap Z osm_node) sws
    : gmap Z osm_node * gmap Z osm_switch * (gmap Z updn_node * Z) :=
  let us := map_imap (λ g _, Some (create_updn_node g)) sws in
  let '(nodes, sws, (us, num_roots)) := updn_roots opt nodes sws us in
  (nodes, sws, (updn_ids opt sws us, num_roots)).

Definition updn_lid_matrices (opt : updn_opts) (nodes : gmap Z osm_node) sws
    : option (Z * gmap Z osm_node * gmap Z osm_switch) :=
  let '(nodes, sws, (us, num_roots)) := updn_setup opt nodes sws in
  '(ret, sws, _) ← updn_build_lid_matrices nodes (opt_connect_roots opt) (subn_port_nodes opt)
                     num_roots sws us;
  Some (ret, nodes, sws).
End Setup.
