(* ===== verification/UpdnSearch.v ===== *)
(** * The search of Up/Down routing

    Invariants of [updn_bfs_by_node], for any ranks: its list holds every switch at
    most once, the loop ends within its fuel, and the hop counts it leaves descend
    to the switch it started from. *)

From S2P Require Import Prelude IbTypes CString NodeMap Switch UcastMgr Updn.

Open Scope Z_scope.

Section Search.
Context {BO : ByteOrder}.
Variable nodes : gmap Z osm_node.
Variable S : gset Z.
Implicit Types sws : gmap Z osm_switch.
Implicit Types us : gmap Z updn_node.

Notation np := (num_physp nodes).
Notation lid := (sw_lid nodes).
Notation cable := (cable nodes S).
Notation cables_ok := (cables_ok nodes S).

(** ** Cables *)

Lemma remote_switch_cable sws s pn r rem :
  shape nodes S sws → s ∈ S → 1 ≤ pn < np s →
  remote_switch nodes sws s pn = Some (r, rem) ↔ cable s pn r rem.
Proof.
  intros Hsh Hs Hpn. unfold remote_switch, cable. rewrite (sh_dom _ _ _ Hsh).
  destruct (physp_at nodes s pn) as [p|]; simpl; [|naive_solver].
  destruct (p_remote_physp p) as [[r' rem']|] eqn:E; simpl; [|naive_solver].
  destruct (bool_decide_reflect (r' ∈ S)); naive_solver.
Qed.

(** ** The counts to one switch *)

(** The counts to [t] descend: a count is more than the least count of the switch
    its port leads to. *)
Record col_ok sws (t : Z) : Prop := {
  co_range s p : s ∈ S → 0 ≤ p < np s → 0 ≤ hopc nodes sws s t p ≤ 255;
  co_least s p : s ∈ S → 0 ≤ p < np s → hopc nodes sws s t 0 ≤ hopc nodes sws s t p;
  co_desc s p :
    s ∈ S → 1 ≤ p < np s → hopc nodes sws s t p < 255 →
    ∃ r rem, cable s p r rem ∧ hopc nodes sws r t 0 + 1 ≤ hopc nodes sws s t p;
  co_att s :
    s ∈ S → hopc nodes sws s t 0 < 255 →
    s = t ∨ ∃ p, 1 ≤ p < np s ∧ hopc nodes sws s t p = hopc nodes sws s t 0
}.

(** ** The nodes *)

Variable us0 : gmap Z updn_node.   (* the nodes with their final ranks *)

Definition key us (g : Z) : option (Z * Z) := (λ u, (un_id u, un_rank u)) <$> us !! g.

Definition nodes_ok us : Prop := dom us = S ∧ ∀ g, key us g = key us0 g.

Definition rank_of (g : Z) : Z := from_option un_rank NO_RANK (us0 !! g).
Definition id_of (g : Z) : Z := from_option un_id 0 (us0 !! g).

(** The direction of a step between switches. *)
Definition step_dir (s r : Z) : updn_switch_dir :=
  updn_get_dir (rank_of s) (rank_of r) (id_of s) (id_of r).

Lemma nodes_lookup us g :
  nodes_ok us → g ∈ S → ∃ u, us !! g = Some u ∧ un_rank u = rank_of g ∧ un_id u = id_of g.
Proof.
  intros [Hd Hk] Hg. rewrite <-Hd in Hg. apply elem_of_dom in Hg as [u Hu]. exists u.
  split; [done|]. specialize (Hk g). unfold key, rank_of, id_of in *. rewrite Hu in Hk.
  destruct (us0 !! g) as [u0|]; simpl in *; [|done]. by injection Hk as -> ->.
Qed.

Lemma nodes_insert us g u u' :
  nodes_ok us → us !! g = Some u → un_id u' = un_id u → un_rank u' = un_rank u →
  nodes_ok (<[g := u']> us).
Proof.
  intros [Hd Hk] Hu Hi Hr. split.
  - rewrite dom_insert_L, Hd. assert (g ∈ S) by (rewrite <-Hd; by eapply elem_of_dom_2). set_solver.
  - intros g'. rewrite <-Hk. unfold key. destruct (decide (g' = g)) as [-> | Hne].
    + rewrite lookup_insert_eq, Hu. simpl. by rewrite Hi, Hr.
    + by rewrite lookup_insert_ne by done.
Qed.

(** ** One port *)

Record bfs_inv (t : Z) (st : bfs_state) : Prop := {
  bi_shape : shape nodes S (bfs_sws st);
  bi_col : col_ok (bfs_sws st) t;
  bi_self : hopc nodes (bfs_sws st) t t 0 = 0;
  bi_nodes : nodes_ok (bfs_us st);
  bi_list x : x ∈ bfs_list st → x ∈ S;
  bi_nodup : NoDup (bfs_list st);
  bi_visited x u : bfs_us st !! x = Some u → un_visited u = true ↔ x ∈ bfs_list st
}.

(** The step taken through a port: the count at the far end goes down to one more
    than the least count at the near end. *)
Record port_step (t g : Z) (current_dir : updn_switch_dir) (st st' : bfs_state) (r rem : Z)
    : Prop := {
  ps_legal : ¬ (current_dir = DOWN ∧ step_dir g r = UP);
  ps_less : hopc nodes (bfs_sws st) g t 0 + 1 < hopc nodes (bfs_sws st) r t rem;
  ps_shape : shape nodes S (bfs_sws st');
  ps_new : hopc nodes (bfs_sws st') r t rem = hopc nodes (bfs_sws st) g t 0 + 1;
  ps_least : hopc nodes (bfs_sws st') r t 0
             = Z.min (hopc nodes (bfs_sws st) r t 0) (hopc nodes (bfs_sws st) g t 0 + 1);
  ps_other s' t' p' :
    s' ∈ S → t' ∈ S → 0 ≤ p' < np s' → ¬ (s' = r ∧ t' = t ∧ (p' = rem ∨ p' = 0)) →
    hopc nodes (bfs_sws st') s' t' p' = hopc nodes (bfs_sws st) s' t' p';
  ps_list :
    (r ∈ bfs_list st ∧ bfs_us st' = bfs_us st ∧ bfs_list st' = bfs_list st)
    ∨ (r ∉ bfs_list st ∧ bfs_list st' = bfs_list st ++ [r]
       ∧ ∃ u, bfs_us st !! r = Some u
           ∧ bfs_us st' = <[r := u <| un_dir := step_dir g r |> <| un_visited := true |>]> (bfs_us st))
}.

Context (Hlid : lids_distinct nodes S) (Hcab : cables_ok).

Lemma bfs_port_cases t st g current_dir pn :
  bfs_inv t st → t ∈ S → g ∈ S → 1 ≤ pn < np g →
  let st' := bfs_port nodes (lid t) g current_dir st pn in
  (st' = st ∧ ∀ r rem, cable g pn r rem →
     (current_dir = DOWN ∧ step_dir g r = UP)
     ∨ hopc nodes (bfs_sws st) r t rem ≤ hopc nodes (bfs_sws st) g t 0 + 1)
  ∨ ∃ r rem, cable g pn r rem ∧ port_step t g current_dir st st' r rem.
Proof.
  intros Hi Ht Hg Hpn. destruct st as [sws us l]. pose proof Hi as [Hsh Hcol _ Hn _ _ Hvis].
  simpl in *. unfold bfs_port.
  destruct (remote_switch nodes sws g pn) as [[r rem]|] eqn:Er.
  2:{ left. split; [done|]. intros r rem Hc. apply remote_switch_cable with (sws := sws) in Hc; congruence. }
  apply remote_switch_cable in Er; [|done..]. pose proof (Hcab _ _ _ _ Er) as Ec.
  pose proof Er as (_ & _ & Hr & _). destruct Ec as (_ & Hrem & _).
  destruct (shape_lookup nodes S sws g Hsh Hg) as [sw Hsw].
  destruct (shape_lookup nodes S sws r Hsh Hr) as [rsw Hrsw].
  destruct (nodes_lookup us g Hn Hg) as (u & Hu & Eur & Eui).
  destruct (nodes_lookup us r Hn Hr) as (ru & Hru & Erur & Erui).
  rewrite Hsw, Hrsw, Hu, Hru, Eur, Eui, Erur, Erui. fold (step_dir g r).
  assert (Em : osm_switch_get_least_hops sw (lid t) = hopc nodes sws g t 0)
    by (unfold hopc; by rewrite Hsw).
  assert (Ec : osm_switch_get_hop_count rsw (lid t) rem = hopc nodes sws r t rem)
    by (unfold hopc; by rewrite Hrsw).
  rewrite Em, Ec.
  destruct (bool_decide_reflect (current_dir = DOWN)) as [Hcd|Hcd],
    (bool_decide_reflect (step_dir g r = UP)) as [Hd|Hd]; simpl;
    [left; split; [done|]; intros r' rem' Hc';
       destruct (cable_unique _ _ _ _ _ _ _ _ Er Hc') as [<- <-]; by left|..].
  all: destruct (Z.ltb_spec (hopc nodes sws g t 0 + 1) (hopc nodes sws r t rem)) as [Hlt|Hge];
    [|left; split; [done|]; intros r' rem' Hc';
      destruct (cable_unique _ _ _ _ _ _ _ _ Er Hc') as [<- <-]; by right].
  all: right; exists r, rem; split; [done|].
  all: pose proof (np_pos nodes S sws g Hsh Hg); pose proof (np_pos nodes S sws r Hsh Hr).
  all: pose proof (co_range _ _ Hcol g 0 Hg ltac:(lia)); pose proof (co_range _ _ Hcol r rem Hr ltac:(lia)).
  all: rewrite u8_small by lia.
  all: destruct (hopc_set_port nodes S sws r t rem (hopc nodes sws g t 0 + 1) rsw Hlid Hsh Hr Hrsw Ht
    ltac:(lia)) as (Hsh' & Hnew & Hleast & Hother).
  all: pose proof (Hvis r ru Hru) as Hv; destruct (un_visited ru); split; simpl; try done;
    try (intros [? ?]; done); try (left; split_and!; [by apply Hv|done|done]);
    try (right; split_and!; [intros Hin; by apply Hv in Hin|done|by exists ru]).
Qed.

Lemma port_step_mono t g cd st st' r rem s' p' :
  port_step t g cd st st' r rem → t ∈ S → s' ∈ S → 0 ≤ p' < np s' →
  hopc nodes (bfs_sws st') s' t p' ≤ hopc nodes (bfs_sws st) s' t p'.
Proof.
  intros Hst Ht Hs Hp.
  destruct (decide (s' = r ∧ t = t ∧ (p' = rem ∨ p' = 0))) as [(-> & _ & [-> | ->])|Hn].
  - rewrite (ps_new _ _ _ _ _ _ _ Hst). pose proof (ps_less _ _ _ _ _ _ _ Hst). lia.
  - rewrite (ps_least _ _ _ _ _ _ _ Hst). lia.
  - by rewrite (ps_other _ _ _ _ _ _ _ Hst).
Qed.

Lemma port_step_col t g cd st st' pn r rem :
  bfs_inv t st → cable g pn r rem → t ∈ S → port_step t g cd st st' r rem →
  col_ok (bfs_sws st') t.
Proof.
  intros Hi Hc Ht Hst. pose proof Hi as [Hsh [Hr Hle Hd Ha] _ _ _ _ _].
  pose proof (Hcab _ _ _ _ Hc) as Hc'. pose proof Hc as (Hg & Hpn & HrS & _).
  pose proof Hc' as (_ & Hrem & _).
  pose proof (fun s' p' => port_step_mono t g cd st st' r rem s' p' Hst Ht) as Hm.
  pose proof (np_pos nodes S _ r Hsh HrS) as Hnpr. pose proof (np_pos nodes S _ g Hsh Hg) as Hnpg.
  pose proof (ps_new _ _ _ _ _ _ _ Hst) as Hnew. pose proof (ps_least _ _ _ _ _ _ _ Hst) as Hmin.
  pose proof (ps_less _ _ _ _ _ _ _ Hst) as Hless.
  pose proof (Hr g 0 Hg ltac:(lia)). pose proof (Hr r 0 HrS ltac:(lia)). pose proof (Hr r rem HrS ltac:(lia)).
  assert (Hsame : ∀ s p, s ∈ S → 0 ≤ p < np s → ¬ (s = r ∧ (p = rem ∨ p = 0)) →
    hopc nodes (bfs_sws st') s t p = hopc nodes (bfs_sws st) s t p).
  { intros s p Hs Hp Hn. apply (ps_other _ _ _ _ _ _ _ Hst); [done..|]. intros (-> & _ & ?). by apply Hn. }
  split.
  - intros s p Hs Hp. split; [|specialize (Hm s p Hs Hp); specialize (Hr s p Hs Hp); lia].
    destruct (decide (s = r ∧ (p = rem ∨ p = 0))) as [(-> & [-> | ->])|Hn]; [lia|lia|].
    rewrite Hsame by done. by apply Hr.
  - intros s p Hs Hp.
    destruct (decide (s = r ∧ (p = rem ∨ p = 0))) as [(-> & [-> | ->])|Hn]; [lia|lia|].
    rewrite (Hsame s p) by done. etrans; [apply Hm; [done|lia]|by apply Hle].
  - intros s p Hs Hp Hlt. destruct (decide (s = r ∧ p = rem)) as [[-> ->]|Hn].
    + exists g, pn. split; [done|]. rewrite Hnew. specialize (Hm g 0 Hg ltac:(lia)). lia.
    + rewrite Hsame in Hlt |- * by (done || lia || (intros [-> [-> | ->]]; [by apply Hn|lia])).
      destruct (Hd s p Hs Hp Hlt) as (r' & rem' & Hc2 & Hw). exists r', rem'. split; [done|].
      pose proof Hc2 as (_ & _ & Hr' & _). specialize (Hm r' 0 Hr' ltac:(pose proof (np_pos nodes S _ r' Hsh Hr'); lia)). lia.
  - intros s Hs Hlt. destruct (decide (s = r)) as [-> | Hne].
    + rewrite Hmin in Hlt |- *.
      destruct (Z.min_spec (hopc nodes (bfs_sws st) r t 0) (hopc nodes (bfs_sws st) g t 0 + 1))
        as [[Hlt' E]|[Hge E]]; rewrite E in *; [|right; by exists rem].
      destruct (Ha r HrS Hlt) as [->|(p & Hp & E')]; [by left|right]. exists p. split; [done|].
      rewrite Hsame; [done..|lia|]. intros [_ [-> | ->]]; lia.
    + rewrite Hsame in Hlt |- * by (done || (pose proof (np_pos nodes S _ s Hsh Hs); lia) || naive_solver).
      destruct (Ha s Hs Hlt) as [->|(p & Hp & E')]; [by left|right]. exists p. split; [done|].
      rewrite Hsame; [done..|lia|naive_solver].
Qed.

Lemma port_step_inv t g cd st st' pn r rem :
  bfs_inv t st → cable g pn r rem → t ∈ S → port_step t g cd st st' r rem → bfs_inv t st'.
Proof.
  intros Hi Hc Ht Hst. pose proof Hi as [Hsh Hcol Hself Hn Hl Hnd Hv].
  pose proof Hc as (_ & _ & HrS & _).
  pose proof (port_step_col _ _ _ _ _ _ _ _ Hi Hc Ht Hst) as Hcol'.
  pose proof (np_pos nodes S _ t Hsh Ht).
  split; [apply Hst|done| | | | |].
  - pose proof (port_step_mono t g cd st st' r rem t 0 Hst Ht Ht ltac:(lia)).
    pose proof (co_range _ _ Hcol' t 0 Ht ltac:(lia)). lia.
  - destruct (ps_list _ _ _ _ _ _ _ Hst) as [(_ & -> & _)|(_ & _ & u & Hu & ->)]; [done|].
    by eapply nodes_insert.
  - intros x. destruct (ps_list _ _ _ _ _ _ _ Hst) as [(_ & _ & ->)|(_ & -> & _)]; [apply Hl|].
    intros [Hx | ->%list_elem_of_singleton]%elem_of_app; [by apply Hl|done].
  - destruct (ps_list _ _ _ _ _ _ _ Hst) as [(_ & _ & ->)|(Hni & -> & _)]; [done|].
    apply NoDup_app. split_and!; [done| |apply NoDup_singleton].
    by intros x Hx ->%list_elem_of_singleton.
  - intros x u. destruct (ps_list _ _ _ _ _ _ _ Hst) as [(_ & -> & ->)|(Hni & -> & u' & Hu' & ->)];
      [apply Hv|].
    rewrite elem_of_app, list_elem_of_singleton.
    intros [[<- <-]|[Hne Hx]]%lookup_insert_Some; simpl; [by split; [right|]|].
    rewrite (Hv x u Hx). split; [by left|]. intros [?|?]; [done|congruence].
Qed.

(** ** Termination *)

(** The cells of the hop tables that the search of one LID may set. *)
Definition cells sws0 : list (Z * Z) :=
  e ← map_to_list sws0; p ← seqZ 1 (num_ports e.2 - 1); [(e.1, p)].

Lemma elem_of_cells sws0 s p :
  shape nodes S sws0 → (s, p) ∈ cells sws0 ↔ s ∈ S ∧ 1 ≤ p < np s.
Proof.
  intros Hsh. unfold cells. rewrite list_elem_of_bind. split.
  - intros ([s' sw] & Hin & Hsw%elem_of_map_to_list). rewrite list_elem_of_bind in Hin.
    destruct Hin as (p' & [= -> ->]%list_elem_of_singleton & Hp%elem_of_seqZ). simpl in *.
    rewrite (sh_ports _ _ _ Hsh _ _ Hsw) in Hp. split; [|lia].
    rewrite <-(sh_dom _ _ _ Hsh). by eapply elem_of_dom_2.
  - intros [Hs Hp]. destruct (shape_lookup nodes S sws0 s Hsh Hs) as [sw Hsw].
    exists (s, sw). split; [|by apply elem_of_map_to_list]. rewrite list_elem_of_bind. exists p.
    split; [by apply list_elem_of_singleton|]. apply elem_of_seqZ. simpl.
    rewrite (sh_ports _ _ _ Hsh _ _ Hsw). lia.
Qed.

Definition potential sws0 (t : Z) (st : bfs_state) : Z :=
  sum_over (λ e, hopc nodes (bfs_sws st) e.1 t e.2) (cells sws0) + Z.of_nat (length (bfs_list st)).

Lemma port_step_potential sws0 t g cd st st' pn r rem :
  shape nodes S sws0 → cable g pn r rem → t ∈ S → port_step t g cd st st' r rem →
  potential sws0 t st' ≤ potential sws0 t st.
Proof.
  intros Hsh Hc Ht Hst. pose proof (Hcab _ _ _ _ Hc) as (Hr & Hrem & _).
  unfold potential.
  assert (Hsum : sum_over (λ e, hopc nodes (bfs_sws st') e.1 t e.2) (cells sws0) + 1
                 ≤ sum_over (λ e, hopc nodes (bfs_sws st) e.1 t e.2) (cells sws0)).
  { apply (sum_over_lt _ _ _ (r, rem)).
    - intros [s p] [Hs Hp]%elem_of_cells; [|done]. simpl.
      eapply port_step_mono; [done..|lia].
    - by apply elem_of_cells.
    - simpl. rewrite (ps_new _ _ _ _ _ _ _ Hst). pose proof (ps_less _ _ _ _ _ _ _ Hst). lia. }
  destruct (ps_list _ _ _ _ _ _ _ Hst) as [(_ & _ & ->)|(_ & -> & _)]; [lia|].
  rewrite length_app. simpl. lia.
Qed.

(** ** One switch, and the loop *)

(** The state when [g] has been taken from the list. *)
Definition popped (st : bfs_state) (g : Z) (l : list Z) : bfs_state :=
  Bfs (bfs_sws st) (alter (λ u, u <| un_visited := false |>) g (bfs_us st)) l.

Lemma popped_inv t st g l : bfs_inv t st → bfs_list st = g :: l → bfs_inv t (popped st g l).
Proof.
  intros [Hsh Hcol Hself Hn Hl Hnd Hv] E. rewrite E in *. apply NoDup_cons in Hnd as [Hg Hnd].
  split; simpl; try done.
  - destruct (bfs_us st !! g) as [u|] eqn:Hu.
    + rewrite (alter_as_insert _ _ _ _ Hu). by eapply nodes_insert.
    + by rewrite alter_id by (intros x; by rewrite Hu).
  - intros x Hx. apply Hl. by right.
  - intros x u. destruct (decide (x = g)) as [-> | Hne].
    + rewrite lookup_alter_eq. intros (u' & _ & ->)%fmap_Some. simpl. by split.
    + rewrite lookup_alter_ne by done. intros Hx. rewrite (Hv x u Hx), elem_of_cons. naive_solver.
Qed.

Lemma bfs_visit_popped t st g l :
  bfs_inv t st → bfs_list st = g :: l → g ∈ S →
  ∃ u, bfs_us st !! g = Some u
    ∧ bfs_visit nodes (lid t) g (Bfs (bfs_sws st) (bfs_us st) l)
      = foldl (bfs_port nodes (lid t) g (un_dir u)) (popped st g l) (seqZ 1 (np g - 1)).
Proof.
  intros Hi E Hg. destruct (nodes_lookup _ g (bi_nodes _ _ Hi) Hg) as (u & Hu & _).
  destruct (shape_lookup nodes S _ g (bi_shape _ _ Hi) Hg) as [sw Hsw].
  exists u. split; [done|]. unfold bfs_visit, popped.
  rewrite Hsw, Hu, (sh_ports _ _ _ (bi_shape _ _ Hi) _ _ Hsw). by rewrite (alter_as_insert _ _ _ _ Hu).
Qed.

(** An invariant of the steps through the ports of a switch. *)
Lemma visit_ports t g current_dir st ports (J : bfs_state → Prop) :
  t ∈ S → g ∈ S → (∀ pn, pn ∈ ports → 1 ≤ pn < np g) →
  (∀ st st' pn r rem, pn ∈ ports → bfs_inv t st → cable g pn r rem →
     port_step t g current_dir st st' r rem → J st → J st') →
  bfs_inv t st → J st →
  let st' := foldl (bfs_port nodes (lid t) g current_dir) st ports in
  bfs_inv t st' ∧ J st'.
Proof.
  intros Ht Hg Hp HJ Hi Hj. cbv zeta.
  apply (foldl_inv (λ st, bfs_inv t st ∧ J st)); [|done].
  clear st Hi Hj. intros st pn Hpn [Hi Hj].
  destruct (bfs_port_cases t st g current_dir pn Hi Ht Hg (Hp pn Hpn)) as [[-> _]|(r & rem & Hc & Hst)];
    [done|]. split; [by eapply port_step_inv|by eapply HJ].
Qed.

Lemma in_ports g pn : pn ∈ seqZ 1 (np g - 1) → 1 ≤ pn < np g.
Proof. intros H%elem_of_seqZ. lia. Qed.

Lemma bfs_loop_rule sws0 t (J : bfs_state → Prop) :
  shape nodes S sws0 → t ∈ S →
  (∀ st g l, bfs_inv t st → bfs_list st = g :: l → J st →
     J (bfs_visit nodes (lid t) g (Bfs (bfs_sws st) (bfs_us st) l))) →
  ∀ fuel st, bfs_inv t st → J st → potential sws0 t st < Z.of_nat fuel →
  ∃ st', bfs_loop nodes fuel (lid t) st = Some st' ∧ bfs_inv t st' ∧ bfs_list st' = [] ∧ J st'.
Proof.
  intros Hsh Ht HJ. induction fuel as [|fuel IH]; intros st Hi Hj Hpot.
  { assert (0 ≤ potential sws0 t st); [|lia]. unfold potential.
    pose proof (sum_over_pos (λ e, hopc nodes (bfs_sws st) e.1 t e.2) (cells sws0)). 
    assert (0 ≤ sum_over (λ e, hopc nodes (bfs_sws st) e.1 t e.2) (cells sws0)); [|lia].
    apply H. intros [s p] [Hs Hp]%elem_of_cells; [|done]. simpl.
    apply (co_range _ _ (bi_col _ _ Hi)); [done|lia]. }
  cbn [bfs_loop]. destruct (bfs_list st) as [|g l] eqn:E; [by exists st|].
  assert (Hg : g ∈ S) by (apply (bi_list _ _ Hi); rewrite E; left).
  pose proof (HJ st g l Hi E Hj) as Hj'.
  destruct (bfs_visit_popped t st g l Hi E Hg) as (u & Hu & Ev). rewrite Ev in Hj' |- *.
  pose proof (popped_inv t st g l Hi E) as Hi'.
  destruct (visit_ports t g (un_dir u) (popped st g l) (seqZ 1 (np g - 1))
    (λ st', potential sws0 t st' ≤ potential sws0 t (popped st g l)) Ht Hg (in_ports g)) as [Hi2 Hpot'];
    [|done|done|].
  { intros st1 st2 pn r rem _ Hi1 Hc Hst Hle. etrans; [|exact Hle]. by eapply port_step_potential. }
  apply IH; [done..|]. assert (potential sws0 t (popped st g l) + 1 = potential sws0 t st); [|lia].
  unfold potential, popped. rewrite E. simpl length. simpl bfs_sws. lia.
Qed.

(** ** The search from a switch *)

Definition unvisited us : Prop := ∀ x u, us !! x = Some u → un_visited u = false.

(** The state of the first iteration, with the flag that marks a listed switch. *)
Definition started sws us (t : Z) : bfs_state :=
  Bfs (alter (λ sw, (osm_switch_set_hops sw (lid t) 0 0).2) t sws)
      (alter (λ u, u <| un_dir := UP |> <| un_visited := true |>) t us) [t].

Lemma started_self sws us t :
  shape nodes S sws → t ∈ S →
  shape nodes S (bfs_sws (started sws us t))
  ∧ ∀ s' t' p, s' ∈ S → t' ∈ S → 0 ≤ p < np s' →
    hopc nodes (bfs_sws (started sws us t)) s' t' p
    = if decide (s' = t ∧ t' = t ∧ p = 0) then 0 else hopc nodes sws s' t' p.
Proof.
  intros Hsh Ht. destruct (shape_lookup nodes S sws t Hsh Ht) as [sw Hsw].
  pose proof (np_pos nodes S sws t Hsh Ht). unfold started. simpl.
  rewrite (alter_as_insert _ _ _ _ Hsw).
  destruct (hopc_set nodes S sws t t 0 0 sw Hlid Hsh Hsw Ht ltac:(lia)) as [Hsh' Hget].
  split; [done|]. intros s' t' p Hs' Ht' Hp. rewrite Hget by done.
  repeat case_decide; naive_solver.
Qed.

Lemma started_inv sws us t :
  shape nodes S sws → col_ok sws t → nodes_ok us → unvisited us → t ∈ S →
  bfs_inv t (started sws us t).
Proof.
  intros Hsh [Hr Hle Hd Ha] Hn Hu Ht. destruct (started_self sws us t Hsh Ht) as [Hsh' Hget].
  pose proof (np_pos nodes S sws t Hsh Ht) as Hnp.
  assert (Hlow : ∀ s p, s ∈ S → 0 ≤ p < np s →
    hopc nodes (bfs_sws (started sws us t)) s t p ≤ hopc nodes sws s t p).
  { intros s p Hs Hp. rewrite Hget by done. case_decide as E; [|done].
    destruct E as (-> & _ & ->). by apply Hr. }
  split; [done| | | | | |].
  - split.
    + intros s p Hs Hp. rewrite Hget by done. specialize (Hr s p Hs Hp). case_decide; lia.
    + intros s p Hs Hp. rewrite !Hget by (done || lia). specialize (Hr s p Hs Hp).
      specialize (Hle s p Hs Hp). repeat case_decide; (lia || naive_solver).
    + intros s p Hs Hp. rewrite Hget by (done || lia). rewrite decide_False by lia. intros Hlt.
      destruct (Hd s p Hs Hp Hlt) as (r & rem & Hc & Hw). exists r, rem. split; [done|].
      pose proof Hc as (_ & _ & HrS & _). pose proof (np_pos nodes S sws r Hsh HrS).
      specialize (Hlow r 0 HrS ltac:(lia)). lia.
    + intros s Hs Hlt. pose proof (np_pos nodes S sws s Hsh Hs). rewrite Hget in Hlt |- * by (done || lia).
      case_decide as E; [left; naive_solver|].
      destruct (Ha s Hs Hlt) as [?|(p & Hp & Ep)]; [by left|right]. exists p. split; [done|].
      rewrite Hget by (done || lia). by rewrite decide_False by lia.
  - rewrite Hget by (done || lia). by rewrite decide_True.
  - simpl. destruct (nodes_lookup us t Hn Ht) as (u & Hut & _). rewrite (alter_as_insert _ _ _ _ Hut).
    by eapply nodes_insert.
  - by intros x ->%list_elem_of_singleton.
  - apply NoDup_singleton.
  - simpl. intros x u. rewrite list_elem_of_singleton. destruct (decide (x = t)) as [-> | Hne].
    + rewrite lookup_alter_eq. intros (u' & _ & ->)%fmap_Some. by split.
    + rewrite lookup_alter_ne by done. intros Hx%Hu. rewrite Hx. by split.
Qed.

Lemma cells_bound sws0 :
  shape nodes S sws0 →
  sum_over (λ _, 255) (cells sws0) ≤ 255 * foldr (λ e n, num_ports e.2 + n) 0 (map_to_list sws0).
Proof.
  intros Hsh. assert (Hpos : ∀ e, e ∈ map_to_list sws0 → 0 < num_ports e.2).
  { intros [g sw] Hsw%elem_of_map_to_list. simpl.
    apply (wf_ports _ (sh_wf _ _ _ Hsh _ _ Hsw)). }
  unfold cells. revert Hpos. induction (map_to_list sws0) as [|[g sw] l IH]; intros Hpos; [done|].
  change (foldr _ 0 ((g, sw) :: l)) with (num_ports sw + foldr (λ e n, num_ports e.2 + n) 0 l).
  assert (Hone : ∀ ps : list Z, sum_over (λ _ : Z * Z, 255) (p ← ps; [(g, p)]) = 255 * Z.of_nat (length ps)).
  { induction ps as [|p ps IHp]; [done|]. rewrite bind_cons, sum_over_app, IHp. simpl length.
    change (sum_over (λ _ : Z * Z, 255) [(g, p)]) with 255. lia. }
  rewrite bind_cons, sum_over_app, Hone, length_seqZ.
  specialize (IH ltac:(intros e He; apply Hpos; by right)).
  pose proof (Hpos (g, sw) ltac:(left)). simpl in *. lia.
Qed.

Lemma started_potential sws us t :
  shape nodes S sws → col_ok sws t → nodes_ok us → unvisited us → t ∈ S →
  potential sws t (started sws us t) < Z.of_nat (bfs_fuel sws).
Proof.
  intros Hsh Hc Hn Hu Ht. pose proof (started_inv sws us t Hsh Hc Hn Hu Ht) as Hi.
  pose proof (cells_bound sws Hsh) as Hb. unfold potential, bfs_fuel. simpl length.
  assert (sum_over (λ e, hopc nodes (bfs_sws (started sws us t)) e.1 t e.2) (cells sws)
          ≤ sum_over (λ _, 255) (cells sws)); [|lia].
  apply sum_over_le. intros [s p] [Hs Hp]%elem_of_cells; [|done]. simpl.
  apply (co_range _ _ (bi_col _ _ Hi)); [done|lia].
Qed.

Lemma bfs_by_node_total sws us t (J : bfs_state → Prop) :
  shape nodes S sws → col_ok sws t → nodes_ok us → unvisited us → t ∈ S →
  (∀ st g l, bfs_inv t st → bfs_list st = g :: l → J st →
     J (bfs_visit nodes (lid t) g (Bfs (bfs_sws st) (bfs_us st) l))) →
  J (started sws us t) →
  ∃ sws' us', updn_bfs_by_node nodes t (sws, us) = Some (sws', us')
    ∧ bfs_inv t (Bfs sws' us' []) ∧ J (Bfs sws' us' []).
Proof.
  intros Hsh Hc Hn Hu Ht HJ Hj.
  destruct (bfs_loop_rule sws t J Hsh Ht HJ (bfs_fuel sws) (started sws us t))
    as ([sws' us' l] & E & Hi & El & Hj'); [by apply started_inv|done|by apply started_potential|].
  simpl in El. subst l. exists sws', us'. split; [|done].
  destruct (shape_lookup nodes S sws t Hsh Ht) as [sw Hsw].
  destruct (nodes_lookup us t Hn Ht) as (u & Hut & _).
  unfold updn_bfs_by_node. rewrite Hsw, Hut. unfold started in E.
  rewrite (alter_as_insert _ _ _ _ Hsw), (alter_as_insert _ _ _ _ Hut) in E.
  assert (Hf : ∃ n, bfs_fuel sws = Datatypes.S n).
  { exists (pred (bfs_fuel sws)). unfold bfs_fuel.
    assert (0 ≤ foldr (λ e n, num_ports e.2 + n) 0 (map_to_list sws)); [|lia].
    apply (sum_over_pos (λ e : Z * osm_switch, num_ports e.2)).
    intros [g sw'] Hg%elem_of_map_to_list. simpl.
    pose proof (wf_ports _ (sh_wf _ _ _ Hsh _ _ Hg)). lia. }
  destruct Hf as [n Hf]. rewrite Hf in E |- *. cbn [bfs_loop bfs_list bfs_sws bfs_us] in E |- *.
  unfold bfs_visit in E |- *. rewrite lookup_insert_eq in E |- *.
  rewrite lookup_insert_eq in E |- *. rewrite insert_insert_eq in E |- *.
  change (un_dir (u <| un_dir := UP |> <| un_visited := true |>)) with UP in E.
  change (un_dir (u <| un_dir := UP |>)) with UP.
  change (u <| un_dir := UP |> <| un_visited := true |> <| un_visited := false |>)
    with (u <| un_dir := UP |> <| un_visited := false |>) in E.
  rewrite E. done.
Qed.
(** What the search leaves alone: the other columns and the other tables. *)
Definition same_col sws sws' (t : Z) : Prop :=
  ∀ s p, s ∈ S → 0 ≤ p < np s → hopc nodes sws' s t p = hopc nodes sws s t p.

Definition other_cols sws (t : Z) (st : bfs_state) : Prop :=
  frame sws (bfs_sws st) ∧ ∀ t', t' ∈ S → t' ≠ t → same_col sws (bfs_sws st) t'.

Lemma bfs_port_frame sws0 l g current_dir st pn :
  frame sws0 (bfs_sws st) → frame sws0 (bfs_sws (bfs_port nodes l g current_dir st pn)).
Proof.
  intros Hf. destruct st as [sws us q]. unfold bfs_port. simpl in *.
  destruct (remote_switch nodes sws g pn) as [[r rem]|]; [|done].
  destruct (sws !! g), (sws !! r) as [rsw|] eqn:E, (us !! g), (us !! r); try done.
  repeat case_match; try done; simpl; (eapply frame_insert; [done..|apply set_hops_rest]).
Qed.

Lemma visit_other_cols sws0 t st g l :
  t ∈ S → bfs_inv t st → bfs_list st = g :: l → other_cols sws0 t st →
  other_cols sws0 t (bfs_visit nodes (lid t) g (Bfs (bfs_sws st) (bfs_us st) l)).
Proof.
  intros Ht Hi E [Hf Ho]. assert (Hg : g ∈ S) by (apply (bi_list _ _ Hi); rewrite E; left).
  destruct (bfs_visit_popped t st g l Hi E Hg) as (u & _ & ->). split.
  - apply (foldl_inv (λ st, frame sws0 (bfs_sws st))); [|done].
    intros st' pn _. apply bfs_port_frame.
  - destruct (visit_ports t g (un_dir u) (popped st g l) (seqZ 1 (np g - 1))
      (λ st', ∀ t', t' ∈ S → t' ≠ t → same_col sws0 (bfs_sws st') t') Ht Hg (in_ports g)) as [_ H];
      [|by apply popped_inv|done|done].
    intros st1 st2 pn r rem _ Hi1 Hc Hst H t' Ht' Hne s p Hs Hp.
    rewrite <-(H t' Ht' Hne s p Hs Hp). apply (ps_other _ _ _ _ _ _ _ Hst); [done..|]. naive_solver.
Qed.

Lemma started_other_cols sws us t :
  shape nodes S sws → t ∈ S → other_cols sws t (started sws us t).
Proof.
  intros Hsh Ht. destruct (started_self sws us t Hsh Ht) as [_ Hget]. split.
  - unfold started. simpl. destruct (shape_lookup nodes S sws t Hsh Ht) as [sw Hsw].
    rewrite (alter_as_insert _ _ _ _ Hsw). eapply frame_insert; [done..|apply set_hops_rest].
  - intros t' Ht' Hne s p Hs Hp. rewrite Hget by done. by rewrite decide_False by naive_solver.
Qed.

Lemma bfs_by_node_rule sws us t (J : bfs_state → Prop) :
  shape nodes S sws → col_ok sws t → nodes_ok us → unvisited us → t ∈ S →
  (∀ st g l, bfs_inv t st → bfs_list st = g :: l → J st →
     J (bfs_visit nodes (lid t) g (Bfs (bfs_sws st) (bfs_us st) l))) →
  J (started sws us t) →
  ∃ sws' us', updn_bfs_by_node nodes t (sws, us) = Some (sws', us')
    ∧ bfs_inv t (Bfs sws' us' []) ∧ other_cols sws t (Bfs sws' us' []) ∧ J (Bfs sws' us' []).
Proof.
  intros Hsh Hc Hn Hu Ht HJ Hj.
  apply (bfs_by_node_total sws us t (λ st, other_cols sws t st ∧ J st)); try done.
  - intros st g l Hi E [Ho Hj']. split; [by apply visit_other_cols|by apply HJ].
  - split; [by apply started_other_cols|done].
Qed.

(** ** All switches *)

Lemma col_ok_same sws sws' t : shape nodes S sws → same_col sws sws' t → col_ok sws t → col_ok sws' t.
Proof.
  intros Hsh Hsame [Hr Hle Hd Ha].
  assert (Hz : ∀ s, s ∈ S → 0 ≤ 0 < np s) by (intros s Hs; pose proof (np_pos nodes S sws s Hsh Hs); lia).
  split.
  - intros s p Hs Hp. rewrite Hsame by done. by apply Hr.
  - intros s p Hs Hp. rewrite !Hsame by auto. by apply Hle.
  - intros s p Hs Hp. rewrite Hsame by (done || lia). intros Hlt.
    destruct (Hd s p Hs Hp Hlt) as (r & rem & Hc & Hw). exists r, rem. split; [done|].
    pose proof Hc as (_ & _ & HrS & _). by rewrite (Hsame r 0 HrS (Hz r HrS)), Hsame by (done || lia).
  - intros s Hs. rewrite Hsame by auto. intros Hlt.
    destruct (Ha s Hs Hlt) as [?|(p & Hp & E)]; [by left|right]. exists p. split; [done|].
    by rewrite !Hsame by (auto || lia).
Qed.

(** [P] and [Q]: what is known of a column before and after its search. *)
Lemma bfs_all_rule (P Q : Z → gmap Z osm_switch → Prop) l sws us :
  (∀ sws sws' t, same_col sws sws' t → P t sws → P t sws') →
  (∀ sws sws' t, same_col sws sws' t → Q t sws → Q t sws') →
  (∀ sws us t, shape nodes S sws → col_ok sws t → P t sws → nodes_ok us → unvisited us → t ∈ S →
     ∃ sws' us', updn_bfs_by_node nodes t (sws, us) = Some (sws', us')
       ∧ bfs_inv t (Bfs sws' us' []) ∧ other_cols sws t (Bfs sws' us' []) ∧ Q t sws') →
  NoDup l → (∀ t, t ∈ l → t ∈ S) → shape nodes S sws → nodes_ok us → unvisited us →
  (∀ t, t ∈ S → col_ok sws t ∧ (t ∈ l → P t sws)) →
  ∃ sws' us', bfs_all nodes l (sws, us) = Some (sws', us')
    ∧ shape nodes S sws' ∧ frame sws sws' ∧ nodes_ok us'
    ∧ ∀ t, t ∈ S → col_ok sws' t ∧ (t ∈ l → hopc nodes sws' t t 0 = 0 ∧ Q t sws')
                 ∧ (t ∉ l → same_col sws sws' t).
Proof.
  intros HP HQ Hstep Hnd Hl. revert sws us.
  induction l as [|t l IH]; intros sws us Hsh Hn Hu Hcol.
  { exists sws, us. split_and!; try done. intros t Ht. split_and!; [by apply Hcol| |done].
    by intros ?%not_elem_of_nil. }
  apply NoDup_cons in Hnd as [Hni Hnd]. assert (Ht : t ∈ S) by (apply Hl; left).
  destruct (Hcol t Ht) as [Hct HPt]. specialize (HPt ltac:(left)).
  destruct (Hstep sws us t Hsh Hct HPt Hn Hu Ht) as (sws1 & us1 & E & Hi & [Hf Ho] & HQt).
  pose proof Hi as [Hsh1 Hc1 Hself1 Hn1 _ _ Hv1]. simpl in *.
  destruct (IH Hnd ltac:(intros t' Ht'; apply Hl; by right) sws1 us1 Hsh1 Hn1)
    as (sws2 & us2 & E2 & Hsh2 & Hf2 & Hn2 & Hall).
  { intros x u Hx. destruct (un_visited u) eqn:Ev; [|done]. apply (Hv1 x u Hx) in Ev.
    by apply not_elem_of_nil in Ev. }
  { intros t' Ht'. destruct (decide (t' = t)) as [-> | Hne]; [by split|].
    destruct (Hcol t' Ht') as [H1 H2]. specialize (Ho t' Ht' Hne).
    split; [by apply (col_ok_same sws)|]. intros Hin. eapply HP; [done|]. apply H2. by right. }
  exists sws2, us2. split; [cbn [bfs_all]; by rewrite E|]. split; [done|].
  split; [intros g; by rewrite Hf2|]. split; [done|].
  intros t' Ht'. destruct (Hall t' Ht') as (H1 & H2 & H3). split; [done|].
  destruct (decide (t' = t)) as [-> | Hne].
  - specialize (H3 Hni). split; [|intros Hn'; destruct Hn'; left]. intros _.
    pose proof (np_pos nodes S sws t Hsh Ht). split; [|by eapply HQ].
    by rewrite H3 by (done || lia).
  - split; [intros [?|Hin]%elem_of_cons; [done|by apply H2]|].
    intros Hn'. rewrite not_elem_of_cons in Hn'. intros s p Hs Hp.
    rewrite H3 by (done || naive_solver). by apply Ho.
Qed.

Lemma cols_descending sws :
  shape nodes S sws → (∀ t, t ∈ S → col_ok sws t) → descending nodes S sws.
Proof.
  intros Hsh Hc. split; [done| |].
  - intros s t p Hs Ht Hp. by apply (co_range _ _ (Hc t Ht)).
  - intros s t p Hs Ht Hne Hp E Hlt.
    destruct (co_desc _ _ (Hc t Ht) s p Hs Hp ltac:(lia)) as (r & rem & Hcb & Hw).
    destruct Hcb as (_ & _ & Hr & p' & Hp' & Hrem). exists p', r, rem. split_and!; [done..|lia].
Qed.

(** ** Clearing the tables *)

Lemma clear_wf (f : Z → option (list Z) → option (list Z)) sw :
  (∀ i r, (f i r = r) ∨ f i r = (const (replicate (Z.to_nat (num_ports sw)) OSM_NO_PATH) <$> r)) →
  sw_wf sw → sw_wf (sw <| hops := imap (λ i r, f (Z.of_nat i) r) (hops sw) |>).
Proof.
  intros Hf [Hp Hl Hr]. split; simpl; [done|by rewrite length_imap|].
  intros l row. unfold hop_row. simpl. rewrite list_lookup_imap.
  destruct (hops sw !! Z.to_nat l) as [r|] eqn:E; simpl; [|done].
  destruct (Hf (Z.of_nat (Z.to_nat l)) r) as [-> | ->].
  - intros ->. apply (Hr l row). unfold hop_row. by rewrite E.
  - destruct r; simpl; [|done]. intros [= <-]. apply length_replicate.
Qed.

(** The tables of [updn_set_min_hop_table] before the searches: per column, as
    they were or cleared. *)
Definition clear_sw (connect_roots : bool) (port_nodes : list (option Z)) us : osm_switch → osm_switch :=
  if connect_roots then updn_clear_non_root_hops port_nodes us else osm_switch_clear_hops.

(** A column that [clear_sw] keeps. *)
Definition kept (connect_roots : bool) (port_nodes : list (option Z)) us (l : Z) : bool :=
  connect_roots && is_root us (mjoin (port_nodes !! Z.to_nat l)).

Lemma clear_sw_eq connect_roots port_nodes us sw :
  clear_sw connect_roots port_nodes us sw
  = sw <| hops := imap (λ i r, if kept connect_roots port_nodes us (Z.of_nat i) then r
            else const (replicate (Z.to_nat (num_ports sw)) OSM_NO_PATH) <$> r) (hops sw) |>.
Proof.
  destruct sw as [ml n hs pp so l nl]. unfold clear_sw, kept. destruct connect_roots; simpl.
  - unfold updn_clear_non_root_hops. simpl. f_equal.
    apply (f_equal (λ x _, x)), imap_ext. intros i x _. by rewrite Nat2Z.id.
  - unfold osm_switch_clear_hops. simpl. f_equal.
    apply (f_equal (λ x _, x)), list_eq. intros i.
    rewrite list_lookup_imap, list_lookup_fmap. by destruct (hs !! i).
Qed.

Lemma clear_sw_count connect_roots port_nodes us sw l p :
  0 ≤ l → 0 ≤ p < num_ports sw →
  osm_switch_get_hop_count (clear_sw connect_roots port_nodes us sw) l p
  = if kept connect_roots port_nodes us l then osm_switch_get_hop_count sw l p else OSM_NO_PATH.
Proof.
  intros Hl Hp. rewrite clear_sw_eq. unfold osm_switch_get_hop_count, hop_row. simpl.
  rewrite list_lookup_imap. destruct (max_lid_ho sw <? l); [by case_match|].
  destruct (hops sw !! Z.to_nat l) as [r|]; simpl; [|by case_match].
  rewrite Z2Nat.id by lia. destruct (kept _ _ _ l); [done|].
  destruct r; simpl; [|done]. rewrite list_lookup_total_alt, lookup_replicate_2 by lia. done.
Qed.

Lemma clear_all connect_roots port_nodes us sws :
  shape nodes S sws →
  let sws' := clear_sw connect_roots port_nodes us <$> sws in
  shape nodes S sws' ∧ frame sws sws'
  ∧ ∀ t, t ∈ S →
    if kept connect_roots port_nodes us (lid t) then same_col sws sws' t
    else ∀ s p, s ∈ S → 0 ≤ p < np s → hopc nodes sws' s t p = OSM_NO_PATH.
Proof.
  intros Hsh sws'. pose proof Hsh as [Hd Hw Hp Hl].
  assert (Hget : ∀ s t p, s ∈ S → t ∈ S → 0 ≤ p < np s →
    hopc nodes sws' s t p = if kept connect_roots port_nodes us (lid t) then hopc nodes sws s t p
                            else OSM_NO_PATH).
  { intros s t p Hs Ht Hpp. destruct (shape_lookup nodes S sws s Hsh Hs) as [sw Hsw].
    unfold hopc, sws'. rewrite lookup_fmap, Hsw. simpl.
    destruct (Hl s sw t Hsw Ht). apply clear_sw_count; [lia|]. by rewrite (Hp s sw Hsw). }
  split; [split|split].
  - unfold sws'. by rewrite dom_fmap_L.
  - intros s sw'. unfold sws'. rewrite lookup_fmap. intros (sw & Hsw & ->)%fmap_Some.
    rewrite clear_sw_eq. apply (clear_wf (λ i r, if kept connect_roots port_nodes us i then r
      else const (replicate (Z.to_nat (num_ports sw)) OSM_NO_PATH) <$> r)); [|by eapply Hw].
    intros i r. destruct (kept _ _ _ i); auto.
  - intros s sw'. unfold sws'. rewrite lookup_fmap. intros (sw & Hsw & ->)%fmap_Some.
    rewrite clear_sw_eq. simpl. by apply Hp.
  - intros s sw' t. unfold sws'. rewrite lookup_fmap. intros (sw & Hsw & ->)%fmap_Some Ht.
    rewrite clear_sw_eq. by apply (Hl s sw t Hsw Ht).
  - intros g. unfold sws'. rewrite lookup_fmap. destruct (sws !! g) as [sw|]; simpl; [|done].
    by rewrite clear_sw_eq.
  - intros t Ht. destruct (kept _ _ _ _) eqn:Ek; intros s p Hs Hpp; by rewrite Hget, Ek.
Qed.

Lemma fresh_col_ok sws t :
  shape nodes S sws → (∀ s p, s ∈ S → 0 ≤ p < np s → hopc nodes sws s t p = OSM_NO_PATH) →
  col_ok sws t.
Proof.
  intros Hsh Hf. unfold OSM_NO_PATH in Hf.
  assert (Hz : ∀ s, s ∈ S → 0 < np s) by (intros s Hs; pose proof (np_pos nodes S sws s Hsh Hs); lia).
  split.
  - intros s p Hs Hp. rewrite Hf by done. lia.
  - intros s p Hs Hp. specialize (Hz s Hs). rewrite !Hf by (done || lia). lia.
  - intros s p Hs Hp. rewrite Hf by (done || lia). lia.
  - intros s Hs. specialize (Hz s Hs). rewrite Hf by (done || lia). lia.
Qed.

(** The counts of a minimum-hop matrix descend too. *)
Lemma matrix_col_ok sws t : graph_ok nodes S → matrix_inv nodes S sws → t ∈ S → col_ok sws t.
Proof.
  intros Hg Hi Ht. split.
  - intros s p Hs Hp. by apply (mi_range _ _ _ Hi).
  - intros s p Hs Hp. by apply (mi_least _ _ _ Hi).
  - intros s p Hs Hp Hlt. destruct (mi_sound _ _ _ Hi s t p Hs Ht Hp Hlt) as (w & h & r & Hl & _ & Hw).
    pose proof (link_pos _ _ _ _ _ _ _ Hg Hs Hl). destruct Hl as (_ & p' & rem & Hp' & Hrem & Hr & _).
    exists r, rem. split; [|lia]. split_and!; [done|lia..|done|by exists p'].
  - intros s Hs Hlt. by apply (mi_attained _ _ _ Hi).
Qed.

Lemma sw_keys_NoDup sws : NoDup (sw_keys sws).
Proof. apply qmap_items_NoDup. Qed.

(** The tables of [updn_set_min_hop_table]; [Q] is what a search establishes of its
    column when it starts from [P]. *)
Lemma set_min_hop_table_rule (P Q : Z → gmap Z osm_switch → Prop) connect_roots port_nodes sws us :
  (∀ sws sws' t, same_col sws sws' t → P t sws → P t sws') →
  (∀ sws sws' t, same_col sws sws' t → Q t sws → Q t sws') →
  (∀ sws us t, shape nodes S sws → col_ok sws t → P t sws → nodes_ok us → unvisited us → t ∈ S →
     ∃ sws' us', updn_bfs_by_node nodes t (sws, us) = Some (sws', us')
       ∧ bfs_inv t (Bfs sws' us' []) ∧ other_cols sws t (Bfs sws' us' []) ∧ Q t sws') →
  shape nodes S sws → nodes_ok us → unvisited us →
  (∀ t, t ∈ S → kept connect_roots port_nodes us (lid t) = true → col_ok sws t) →
  (∀ t, t ∈ S → P t (clear_sw connect_roots port_nodes us <$> sws)) →
  ∃ sws' us', updn_set_min_hop_table nodes connect_roots port_nodes sws us = Some (sws', us')
    ∧ shape nodes S sws' ∧ frame sws sws'
    ∧ ∀ t, t ∈ S → col_ok sws' t ∧ hopc nodes sws' t t 0 = 0 ∧ Q t sws'.
Proof.
  intros HP HQ Hstep Hsh Hn Hu Hc HP0.
  destruct (clear_all connect_roots port_nodes us sws Hsh) as (Hsh1 & Hf1 & Hcol1).
  unfold updn_set_min_hop_table.
  change (if connect_roots then updn_clear_non_root_hops port_nodes us else osm_switch_clear_hops)
    with (clear_sw connect_roots port_nodes us).
  set (sws1 := clear_sw connect_roots port_nodes us <$> sws) in *.
  assert (Hk : ∀ t, t ∈ sw_keys sws1 ↔ t ∈ S)
    by (intros t; by rewrite (elem_of_sw_keys nodes S _ _ Hsh1)).
  destruct (bfs_all_rule P Q (sw_keys sws1) sws1 us HP HQ Hstep (sw_keys_NoDup _)
    ltac:(intros t Ht; by apply Hk) Hsh1 Hn Hu) as (sws' & us' & E & Hsh' & Hf' & _ & Hall).
  { intros t Ht. split; [|intros _; by apply HP0]. specialize (Hcol1 t Ht).
    destruct (kept _ _ _ _) eqn:Ek; [by apply (col_ok_same sws); [..|apply Hc]|by apply fresh_col_ok]. }
  exists sws', us'. split; [done|]. split; [done|]. split; [intros g; by rewrite Hf'|].
  intros t Ht. destruct (Hall t Ht) as (H1 & H2 & _). split; [done|]. by apply H2, Hk.
Qed.
End Search.
