(* ===== verification/UpdnRank.v ===== *)
(** * The ranks of Up/Down routing

    [updn_subn_rank] gives every switch its distance from the nearest root: the
    invariant of its breadth-first search, level by level. *)

From S2P Require Import Prelude IbTypes CString NodeMap Switch UcastMgr Updn UpdnSearch.

Open Scope Z_scope.

Section Rank.
Context {BO : ByteOrder}.
Variable nodes : gmap Z osm_node.
Variable S : gset Z.
Variable sws : gmap Z osm_switch.
Implicit Types us : gmap Z updn_node.

Notation np := (num_physp nodes).
Notation cable := (cable nodes S).
Notation rk us g := (rank_of us g).

(** A walk of [n] cables from a root. *)
Inductive root_walk (root : Z → Prop) : Z → Z → Prop :=
  | rw_root g : g ∈ S → root g → root_walk root g 0
  | rw_step s n pn r rem : root_walk root s n → cable s pn r rem → root_walk root r (n + 1).

(** The fields the ranking does not touch. *)
Definition same_but_rank us us' : Prop :=
  ∀ g, (λ u, (un_id u, un_dir u, un_visited u)) <$> us' !! g
     = (λ u, (un_id u, un_dir u, un_visited u)) <$> us !! g.

Definition unranked us : Z := sum_over (λ g, if decide (rk us g = NO_RANK) then 1 else 0) (elements S).

(** The far ends of the cables of [g] through the ports of [seen]. *)
Definition near us (g : Z) (seen : list Z) : Prop :=
  ∀ pn r rem, pn ∈ seen → cable g pn r rem → rk us r ≤ rk us g + 1.

(** The search at level [v]: [l1] holds switches of that level, [l2] of the next;
    [busy] is the switch whose ports are being looked at. *)
Record rank_inv us0 (v : Z) (busy : Z → Prop) (l1 l2 : list Z) us : Prop := {
  ri_dom : dom us = S;
  ri_same : same_but_rank us0 us;
  ri_l1 x : x ∈ l1 → x ∈ S ∧ rk us x = v;
  ri_l2 x : x ∈ l2 → x ∈ S ∧ rk us x = v + 1;
  ri_nodup : NoDup (l1 ++ l2);
  ri_range x : x ∈ S → 0 ≤ rk us x ∧ (rk us x ≤ v + 1 ∨ rk us x = NO_RANK);
  ri_near x : x ∈ S → rk us x < NO_RANK → x ∉ l1 ++ l2 → ¬ busy x → near us x (seqZ 1 (np x - 1));
  ri_walk x : x ∈ S → rk us x < NO_RANK → root_walk (λ g, rk us0 g = 0) x (rk us x);
  ri_root x : x ∈ S → rk us0 x = 0 → rk us x = 0;
  ri_level : 0 ≤ v ∧ v + unranked us + (if decide (l2 = []) then 0 else 1) ≤ Z.of_nat (size S)
}.

Context (Hsh : shape nodes S sws) (Hsize : Z.of_nat (size S) < NO_RANK - 2).

Lemma rk_lookup us g u : us !! g = Some u → rk us g = un_rank u.
Proof. intros Hu. unfold rank_of. by rewrite Hu. Qed.

Lemma rk_insert us g u x : rk (<[g := u]> us) x = if decide (x = g) then un_rank u else rk us x.
Proof.
  unfold rank_of. case_decide as E; [subst; by rewrite lookup_insert_eq|].
  by rewrite lookup_insert_ne by done.
Qed.

Lemma unranked_pos us : 0 ≤ unranked us.
Proof. apply sum_over_pos. intros x _. case_decide; lia. Qed.

(** One unranked switch gets a rank. *)
Lemma unranked_insert us r u :
  r ∈ S → rk us r = NO_RANK → un_rank u ≠ NO_RANK → unranked (<[r := u]> us) + 1 ≤ unranked us.
Proof.
  intros Hr Hrk Hu. unfold unranked. apply (sum_over_lt _ _ _ r).
  - intros y _. rewrite rk_insert. repeat case_decide; subst; lia || done.
  - by apply elem_of_elements.
  - rewrite rk_insert. rewrite (decide_True (P:=r = r)) by done.
    rewrite decide_False by done. by rewrite decide_True by done.
Qed.

Lemma rank_port_step us0 v g l1 l2 us seen pn :
  rank_inv us0 v (eq g) l1 l2 us → g ∈ S → g ∉ l1 ++ l2 → rk us g = v → near us g seen →
  1 ≤ pn < np g →
  ∃ l2', rank_port nodes sws g (us, l1 ++ l2) pn = ((rank_port nodes sws g (us, l1 ++ l2) pn).1, l1 ++ l2')
    ∧ let us' := (rank_port nodes sws g (us, l1 ++ l2) pn).1 in
      rank_inv us0 v (eq g) l1 l2' us' ∧ g ∉ l1 ++ l2' ∧ rk us' g = v ∧ near us' g (seen ++ [pn])
      ∧ unranked us' + Z.of_nat (length l2') ≤ unranked us + Z.of_nat (length l2).
Proof.
  intros Hi Hg Hgl Hv Hn Hpn. pose proof Hi as [Hd Hs H1 H2 Hnd Hr Hnear Hw Hroot [Hv0 Hlev]].
  pose proof (unranked_pos us) as Hup.
  assert (Hk : 0 ≤ if decide (l2 = []) then 0 else 1) by (case_decide; lia).
  set (k := if decide (l2 = []) then 0 else 1) in Hk, Hlev. clearbody k.
  assert (Hvs : v < NO_RANK - 1) by lia.
  assert (Hkeep : (∀ r rem, cable g pn r rem → rk us r ≤ v + 1) → near us g (seen ++ [pn])).
  { intros H pn' r rem [Hin | ->%list_elem_of_singleton]%elem_of_app Hc; [by eapply Hn|].
    rewrite Hv. by eapply H. }
  unfold rank_port. destruct (remote_switch nodes sws g pn) as [[r rem]|] eqn:Er.
  2:{ exists l2. split_and!; try done. apply Hkeep. intros r rem Hc.
      apply (remote_switch_cable _ _ sws) in Hc; congruence. }
  apply (remote_switch_cable _ S) in Er; [|done..]. pose proof Er as (_ & _ & HrS & _).
  assert (Hu : ∃ u, us !! g = Some u) by (rewrite <-Hd in Hg; by apply elem_of_dom in Hg).
  assert (Hru : ∃ u, us !! r = Some u) by (rewrite <-Hd in HrS; by apply elem_of_dom in HrS).
  destruct Hu as [u Hu], Hru as [ru Hru]. rewrite Hu, Hru.
  pose proof (rk_lookup us g u Hu) as Eu. pose proof (rk_lookup us r ru Hru) as Eru.
  rewrite <-Eu, <-Eru, Hv, u32_small by (unfold NO_RANK in *; lia).
  destruct (Z.ltb_spec (v + 1) (rk us r)) as [Hlt|Hge].
  2:{ exists l2. split_and!; try done. apply Hkeep. intros r' rem' Hc.
      destruct (cable_unique _ _ _ _ _ _ _ _ Er Hc) as [<- _]. done. }
  destruct (Hr r HrS) as [_ [?|Hno]]; [lia|].
  set (ru' := ru <| un_rank := v + 1 |>). exists (l2 ++ [r]). simpl. rewrite (assoc_L (++)).
  assert (Hgr : r ≠ g) by (intros ->; lia).
  assert (Hrl : r ∉ l1 ++ l2) by (intros [?%H1|?%H2]%elem_of_app; lia).
  assert (Hrk : ∀ x, rk (<[r := ru']> us) x = if decide (x = r) then v + 1 else rk us x)
    by (intros x; by rewrite rk_insert).
  assert (Hle : ∀ x, rk (<[r := ru']> us) x ≤ rk us x) by (intros x; rewrite Hrk; case_decide as E; [rewrite E|]; lia).
  assert (Hl : ∀ x, x ∈ l1 ++ l2 → rk (<[r := ru']> us) x = rk us x)
    by (intros x Hx; rewrite Hrk, decide_False by (intros ->; done); done).
  pose proof (unranked_insert us r ru' HrS Hno ltac:(simpl; lia)) as Hun.
  assert (Hgv : rk (<[r := ru']> us) g = v) by (rewrite Hrk, decide_False by done; done).
  split_and!; [done|split| | | |].
  - rewrite dom_insert_L, Hd. set_solver.
  - intros x. rewrite <-Hs. destruct (decide (x = r)) as [-> | Hne].
    + by rewrite lookup_insert_eq, Hru.
    + by rewrite lookup_insert_ne by done.
  - intros x Hx. rewrite Hl by set_solver. by apply H1.
  - intros x [Hx | ->%list_elem_of_singleton]%elem_of_app; [rewrite Hl by set_solver; by apply H2|].
    split; [done|]. by rewrite Hrk, decide_True.
  - rewrite (assoc_L (++)). apply NoDup_app. split_and!; [done| |apply NoDup_singleton].
    by intros x Hx ->%list_elem_of_singleton.
  - intros x Hx. rewrite Hrk. case_decide; [lia|by apply Hr].
  - intros x Hx Hf Hni Hb. rewrite (assoc_L (++)), not_elem_of_app in Hni. destruct Hni as [Hni Hxr].
    assert (x ≠ r) by (intros ->; apply Hxr; by apply list_elem_of_singleton).
    assert (E : rk (<[r := ru']> us) x = rk us x) by (by rewrite Hrk, decide_False).
    rewrite E in Hf. intros pn' r' rem' Hin Hc. rewrite E.
    etrans; [apply Hle|]. by eapply Hnear.
  - intros x Hx. rewrite Hrk. case_decide as E; [rewrite E; clear x Hx E|by apply Hw]. intros _.
    rewrite <-Hv. eapply rw_step; [|exact Er]. apply Hw; [done|lia].
  - intros x Hx H0. rewrite Hrk. case_decide as E; [|by apply Hroot].
    specialize (Hroot x Hx H0). rewrite E in Hroot. lia.
  - split; [done|]. rewrite decide_False by (by destruct l2). lia.
  - rewrite not_elem_of_app. split; [done|]. by intros ->%list_elem_of_singleton.
  - done.
  - intros pn' r' rem' [Hin | ->%list_elem_of_singleton]%elem_of_app Hc; rewrite Hgv.
    + etrans; [apply Hle|]. rewrite <-Hv. by eapply Hn.
    + destruct (cable_unique _ _ _ _ _ _ _ _ Er Hc) as [<- _]. rewrite Hrk, decide_True by done. lia.
  - rewrite length_app. simpl. lia.
Qed.

Lemma rank_ports us0 v g l1 l2 us ports seen :
  rank_inv us0 v (eq g) l1 l2 us → g ∈ S → g ∉ l1 ++ l2 → rk us g = v → near us g seen →
  (∀ pn, pn ∈ ports → 1 ≤ pn < np g) →
  ∃ us' l2', foldl (rank_port nodes sws g) (us, l1 ++ l2) ports = (us', l1 ++ l2')
    ∧ rank_inv us0 v (eq g) l1 l2' us' ∧ g ∉ l1 ++ l2' ∧ rk us' g = v ∧ near us' g (seen ++ ports)
    ∧ unranked us' + Z.of_nat (length l2') ≤ unranked us + Z.of_nat (length l2).
Proof.
  revert l2 us seen. induction ports as [|pn ports IH]; intros l2 us seen Hi Hg Hgl Hv Hn Hp.
  { exists us, l2. rewrite app_nil_r. by split_and!. }
  destruct (rank_port_step us0 v g l1 l2 us seen pn Hi Hg Hgl Hv Hn ltac:(apply Hp; left))
    as (l2' & E & Hi' & Hgl' & Hv' & Hn' & Hm). cbn [foldl]. rewrite E.
  set (us1 := (rank_port nodes sws g (us, l1 ++ l2) pn).1) in *. clearbody us1.
  destruct (IH l2' us1 (seen ++ [pn]) Hi' Hg Hgl' Hv' Hn') as (us' & l2'' & E' & Hi2 & H3 & H4 & H5 & H6).
  { intros q Hq. apply Hp. by right. }
  exists us', l2''. rewrite <-(assoc_L (++)) in H5. split_and!; try done. lia.
Qed.

(** Taking the next switch, at this level or the next. *)
Lemma rank_pop us0 v g l us l1 l2 :
  rank_inv us0 v (λ _, False) l1 l2 us → l1 ++ l2 = g :: l →
  ∃ v' l1' l2', l = l1' ++ l2' ∧ rank_inv us0 v' (eq g) l1' l2' us ∧ g ∈ S ∧ g ∉ l1' ++ l2'
    ∧ rk us g = v'.
Proof.
  intros [Hd Hs H1 H2 Hnd Hr Hnear Hw Hroot [Hv0 Hlev]] E. pose proof (unranked_pos us).
  destruct l1 as [|g' l1]; simpl in *.
  - subst l2. apply NoDup_cons in Hnd as [Hgl Hnd]. rewrite decide_False in Hlev by done.
    exists (v + 1), l, []. rewrite app_nil_r. destruct (H2 g ltac:(left)) as [Hg Hgv].
    split_and!; try done. split; rewrite ?app_nil_r; try done.
    + intros x Hx. apply H2. by right.
    + intros x Hx. by apply not_elem_of_nil in Hx.
    + intros x Hx. destruct (Hr x Hx) as [? [?|?]]; split; lia || auto.
    + intros x Hx Hf Hni Hb. apply Hnear; [done..| |by intros []].
      rewrite not_elem_of_cons. split; [|done]. intros ->. by apply Hb.
    + split; [lia|]. rewrite decide_True by done. lia.
  - injection E as -> <-. apply NoDup_cons in Hnd as [Hgl Hnd].
    exists v, l1, l2. destruct (H1 g ltac:(left)) as [Hg Hgv]. split_and!; try done.
    split; try done.
    + intros x Hx. apply H1. by right.
    + intros x Hx Hf Hni Hb. apply Hnear; [done..| |by intros []].
      rewrite not_elem_of_cons. split; [|done]. intros ->. by apply Hb.
Qed.

Lemma rank_visit_step us0 v g l1 l2 us :
  rank_inv us0 v (eq g) l1 l2 us → g ∈ S → g ∉ l1 ++ l2 → rk us g = v →
  ∃ us' l2', rank_visit nodes sws g (us, l1 ++ l2) = (us', l1 ++ l2')
    ∧ rank_inv us0 v (λ _, False) l1 l2' us'
    ∧ unranked us' + Z.of_nat (length l2') ≤ unranked us + Z.of_nat (length l2).
Proof.
  intros Hi Hg Hgl Hv. destruct (shape_lookup nodes S sws g Hsh Hg) as [sw Hsw].
  unfold rank_visit. rewrite Hsw, (sh_ports _ _ _ Hsh _ _ Hsw).
  destruct (rank_ports us0 v g l1 l2 us (seqZ 1 (np g - 1)) [] Hi Hg Hgl Hv)
    as (us' & l2' & E & Hi' & Hgl' & Hv' & Hn & Hm).
  { intros pn r rem Hin. by apply not_elem_of_nil in Hin. }
  { apply in_ports. }
  exists us', l2'. split_and!; [done| |done]. destruct Hi' as [A1 A2 A3 A4 A5 A6 A7 A8 A9 A10].
  split; try done. intros x Hx Hf Hni _.
  destruct (decide (x = g)) as [-> | Hne]; [done|]. by apply A7; [..|congruence].
Qed.

Lemma rank_loop_ok us0 fuel : ∀ us v l1 l2,
  rank_inv us0 v (λ _, False) l1 l2 us →
  unranked us + Z.of_nat (length (l1 ++ l2)) ≤ Z.of_nat fuel →
  ∃ us' v', rank_loop nodes fuel sws us (l1 ++ l2) = Some us'
    ∧ rank_inv us0 v' (λ _, False) [] [] us'.
Proof.
  induction fuel as [|fuel IH]; intros us v l1 l2 Hi Hf; pose proof (unranked_pos us).
  - destruct l1; [destruct l2|]; simpl in *; [|lia..]. by exists us, v.
  - destruct (l1 ++ l2) as [|g l] eqn:E.
    { apply app_nil in E as [-> ->]. by exists us, v. }
    destruct (rank_pop us0 v g l us l1 l2 Hi E) as (v' & l1' & l2' & -> & Hi' & Hg & Hgl & Hv).
    destruct (rank_visit_step us0 v' g l1' l2' us Hi' Hg Hgl Hv) as (us1 & l2'' & Ev & Hi1 & Hm).
    cbn [rank_loop]. rewrite Ev. eapply IH; [done|]. simpl in Hf. rewrite length_app in *. lia.
Qed.

(** ** The result *)

(** Nodes as [create_updn_node] and the choice of roots leave them. *)
Record ranks_start us : Prop := {
  rs_dom : dom us = S;
  rs_rank g : g ∈ S → rk us g = 0 ∨ rk us g = NO_RANK
}.

(** The rank is the distance from the nearest root, [NO_RANK] without one. *)
Record ranks_ok us0 us : Prop := {
  ro_nodes : dom us = S;
  ro_same : same_but_rank us0 us;
  ro_range g : g ∈ S → 0 ≤ rk us g ≤ NO_RANK;
  ro_walk g : g ∈ S → rk us g < NO_RANK → root_walk (λ x, rk us0 x = 0) g (rk us g);
  ro_least g n : root_walk (λ x, rk us0 x = 0) g n → rk us g < NO_RANK ∧ rk us g ≤ n
}.

Lemma unranked_le us : unranked us ≤ Z.of_nat (size S).
Proof.
  unfold unranked, size, set_size. simpl. induction (elements S) as [|x l IH]; simpl; [done|].
  case_decide; lia.
Qed.

(** Each root is listed once and is ranked. *)
Lemma unranked_roots us l :
  NoDup l → (∀ x, x ∈ l → x ∈ S ∧ rk us x = 0) →
  unranked us + Z.of_nat (length l) ≤ Z.of_nat (size S).
Proof.
  intros Hnd Hl. unfold unranked.
  assert (Hsub : ∀ x, x ∈ l → x ∈ elements S ∧ rk us x = 0)
    by (intros x Hx; rewrite elem_of_elements; by apply Hl).
  unfold size, set_size. simpl. pose proof (NoDup_elements S) as HndS.
  revert l Hnd Hl Hsub HndS. induction (elements S) as [|y e IH]; intros l Hnd Hl Hsub HndS; simpl.
  { destruct l as [|x l]; [done|]. destruct (Hsub x ltac:(left)) as [Hx _].
    by apply not_elem_of_nil in Hx. }
  apply NoDup_cons in HndS as [Hy HndS].
  specialize (IH (filter (.≠ y) l) ltac:(by apply NoDup_filter)).
  assert (Hlen : (length l ≤ length (filter (.≠ y) l) + (if decide (y ∈ l) then 1 else 0))%nat).
  { clear -Hnd. induction l as [|x l IHl]; simpl; [lia|].
    apply NoDup_cons in Hnd as [Hx Hnd]. specialize (IHl Hnd). rewrite filter_cons.
    destruct (decide (x ≠ y)) as [Hne|Heq].
    - simpl. repeat case_decide; try lia. exfalso. set_solver.
    - assert (x = y) as -> by (by destruct (decide (x = y))).
      rewrite (decide_False (P:=y ∈ l)) in IHl by done.
      rewrite decide_True by (by left). lia. }
  assert (IH' : sum_over (λ g, if decide (rk us g = NO_RANK) then 1 else 0) e
                + Z.of_nat (length (filter (.≠ y) l)) ≤ Z.of_nat (length e)).
  { apply IH; [| |done].
    - intros x [_ Hx]%list_elem_of_filter. by apply Hl.
    - intros x [Hne Hx]%list_elem_of_filter. destruct (Hsub x Hx) as [Hin ?]. split; [|done].
      by apply elem_of_cons in Hin as [?|?]. }
  destruct (decide (y ∈ l)) as [Hin|Hni]; [|case_decide; lia].
  destruct (Hsub y Hin) as [_ E0]. rewrite decide_False by (rewrite E0; done). lia.
Qed.

Lemma updn_subn_rank_spec us :
  ranks_start us → ∃ us', updn_subn_rank nodes sws us = Some us' ∧ ranks_ok us us'.
Proof.
  intros [Hd Hst]. unfold updn_subn_rank.
  set (roots := filter (λ g, un_rank <$> us !! g = Some 0) (sw_keys sws)).
  assert (Hroots : ∀ g, g ∈ roots ↔ g ∈ S ∧ rk us g = 0).
  { intros g. unfold roots. rewrite list_elem_of_filter, (elem_of_sw_keys nodes S _ _ Hsh).
    unfold rank_of. destruct (us !! g) as [u|]; simpl.
    - split; [intros [[= E] Hg]|intros [Hg E]]; split; congruence.
    - split; [by intros [? _]|by intros [_ ?]]. }
  assert (Hnd : NoDup roots) by apply NoDup_filter, sw_keys_NoDup.
  pose proof (unranked_roots us roots Hnd ltac:(intros x; apply Hroots)) as Hfuel.
  assert (Hi : rank_inv us 0 (λ _, False) roots [] us).
  { split; rewrite ?app_nil_r; try done.
    - intros x Hx. by apply Hroots.
    - intros x Hx. by apply not_elem_of_nil in Hx.
    - intros x Hx. destruct (Hst x Hx) as [-> | ->]; split; try done; auto; lia.
    - intros x Hx Hf Hni. destruct (Hst x Hx) as [E|E]; [|lia]. exfalso. by apply Hni, Hroots.
    - intros x Hx Hf. destruct (Hst x Hx) as [E|E]; [|lia]. rewrite E. by constructor.
    - split; [done|]. rewrite decide_True by done. lia. }
  destruct (rank_loop_ok us (size sws) us 0 roots [] Hi) as (us' & v & E & Hi').
  { rewrite app_nil_r. by rewrite <-size_dom, (sh_dom _ _ _ Hsh). }
  rewrite app_nil_r in E. exists us'. split; [done|].
  destruct Hi' as [A1 A2 _ _ _ A6 A7 A8 A9 [A10 A11]]. pose proof (unranked_pos us').
  rewrite decide_True in A11 by done. split; try done.
  - intros g Hg. destruct (A6 g Hg); lia.
  - intros g n Hw. induction Hw as [g Hg H0|s n pn r rem Hw [IH1 IH2] Hc].
    + rewrite (A9 g Hg H0). done.
    + pose proof Hc as (Hs & Hpn & Hr & _).
      assert (rk us' r ≤ rk us' s + 1).
      { apply (A7 s Hs IH1 ltac:(apply not_elem_of_nil) ltac:(tauto) pn r rem); [|done].
        apply elem_of_seqZ. lia. }
      destruct (A6 s Hs). unfold NO_RANK in *. lia.
Qed.
End Rank.

(** The ranking finds the distance from the nearest root: whatever switches are
    roots, [updn_subn_rank] ends, the rank of a switch is the length of the shortest
    walk from a root, and a switch no root reaches keeps the rank [0xffffffff]. *)
Theorem updn_subn_rank_ok {BO : ByteOrder} nodes S sws us :
  shape nodes S sws → Z.of_nat (size S) < NO_RANK - 2 → ranks_start S us →
  ∃ us', updn_subn_rank nodes sws us = Some us' ∧ same_but_rank us us'
    ∧ ∀ g, g ∈ S →
      (∀ n, root_walk nodes S (λ x, rank_of us x = 0) g n → rank_of us' g ≤ n)
      ∧ ((∃ n, root_walk nodes S (λ x, rank_of us x = 0) g n) →
         root_walk nodes S (λ x, rank_of us x = 0) g (rank_of us' g))
      ∧ ((¬ ∃ n, root_walk nodes S (λ x, rank_of us x = 0) g n) → rank_of us' g = NO_RANK).
Proof.
  intros Hsh Hsz Hr. destruct (updn_subn_rank_spec nodes S sws Hsh Hsz us Hr) as (us' & E & [_ Hs Hrg Hw Hl]).
  exists us'. split_and!; [done..|]. intros g Hg. pose proof (Hrg g Hg). split_and!.
  - intros n Hn. by apply Hl.
  - intros (n & Hn). apply Hw; [done|]. by destruct (Hl g n Hn).
  - intros Hno. destruct (decide (rank_of us' g < NO_RANK)) as [Hlt|]; [|lia].
    destruct Hno. eexists. by apply Hw.
Qed.
