(* ===== verification/UpdnLegal.v ===== *)
(** * Up/Down routing on a hierarchy

    When no cable joins two switches of the same rank, the search of
    [UpdnSearch.v] finds exactly the shortest paths that go up and then down, and a
    packet that follows least hop counts never goes up after it went down. *)

From S2P Require Import Prelude IbTypes CString NodeMap Switch UcastMgr Updn UpdnSearch UpdnRank.

Open Scope Z_scope.

Section Legal.
Context {BO : ByteOrder}.
Variable nodes : gmap Z osm_node.
Variable S : gset Z.
Variable us0 : gmap Z updn_node.

Notation np := (num_physp nodes).
Notation lid := (sw_lid nodes).
Notation cable := (cable nodes S).
Notation R g := (rank_of us0 g).
Notation step_dir := (step_dir us0).
Notation bfs_inv := (bfs_inv nodes S us0).
Notation port_step := (port_step nodes S us0).
Notation col_ok := (col_ok nodes S).
Notation count st := (hopc nodes (bfs_sws st)).

(** Every cable leads one rank up or down. *)
Definition hierarchy : Prop :=
  ∀ s pn r rem, cable s pn r rem → 0 ≤ R s ∧ (R r = R s + 1 ∨ R s = R r + 1).

Context (Hlid : lids_distinct nodes S) (Hcab : cables_ok nodes S) (Hh : hierarchy).

Lemma step_dir_rank s pn r rem : cable s pn r rem → step_dir s r = UP ↔ R r < R s.
Proof.
  intros Hc. destruct (Hh _ _ _ _ Hc) as [H0 Hr]. unfold UpdnSearch.step_dir, updn_get_dir.
  destruct (Z.eqb_spec (R s) 0), (Z.eqb_spec (R r) 0); simpl; try lia;
    (destruct (Z.ltb_spec (R s) (R r)); [split; [done|lia]|]);
    (destruct (Z.ltb_spec (R r) (R s)); [by split|lia]).
Qed.

Lemma down_rank s pn r rem : cable s pn r rem → step_dir s r = DOWN ↔ R s < R r.
Proof.
  intros Hc. pose proof (step_dir_rank _ _ _ _ Hc) as Hu. destruct (Hh _ _ _ _ Hc) as [_ Hr].
  destruct (step_dir s r); split; try done; try lia.
  - intros ?. destruct Hu as [Hu _]. specialize (Hu eq_refl). lia.
  - intros _. destruct Hr as [?|?]; [lia|]. destruct Hu as [_ Hu]. specialize (Hu ltac:(lia)). done.
Qed.

(** A count is at least the difference of the ranks. *)
Lemma rank_lower sws t s :
  shape nodes S sws → col_ok sws t → t ∈ S → s ∈ S → hopc nodes sws s t 0 < 255 →
  Z.abs (R t - R s) ≤ hopc nodes sws s t 0.
Proof.
  intros Hsh Hc Ht. assert (Hgen : ∀ n s, s ∈ S → hopc nodes sws s t 0 < 255 →
    (Z.to_nat (hopc nodes sws s t 0) < n)%nat → Z.abs (R t - R s) ≤ hopc nodes sws s t 0);
    [|intros Hs Hlt; by apply (Hgen _ s Hs Hlt (Nat.lt_succ_diag_r _))].
  clear s. induction n as [|n IH]; intros s Hs Hlt Hn; [lia|].
  pose proof (co_range _ _ _ _ Hc s 0 Hs ltac:(pose proof (np_pos nodes S sws s Hsh Hs); lia)).
  destruct (co_att _ _ _ _ Hc s Hs Hlt) as [->|(p & Hp & E)]; [lia|].
  destruct (co_desc _ _ _ _ Hc s p Hs Hp ltac:(lia)) as (r & rem & Hcb & Hw).
  pose proof Hcb as (_ & _ & Hr & _). destruct (Hh _ _ _ _ Hcb) as [_ Hrk].
  pose proof (co_range _ _ _ _ Hc r 0 Hr ltac:(pose proof (np_pos nodes S sws r Hsh Hr); lia)).
  specialize (IH r Hr ltac:(lia) ltac:(lia)). lia.
Qed.

(** ** The invariant of the search, level by level *)

(** [x] has been reached on the way up. *)
Definition climbed (t : Z) (sws : gmap Z osm_switch) (x : Z) : Prop :=
  hopc nodes sws x t 0 = R t - R x.

(** The far ends of the cables of [x] through [ports] that the search may follow
    have been reached. *)
Definition closed (t : Z) (sws : gmap Z osm_switch) (x : Z) (ports : list Z) : Prop :=
  ∀ pn r rem, pn ∈ ports → cable x pn r rem → climbed t sws x ∨ R x < R r →
    hopc nodes sws r t rem ≤ hopc nodes sws x t 0 + 1.

Definition all_ports (x : Z) : list Z := seqZ 1 (np x - 1).

Definition dir_of (st : bfs_state) (x : Z) : option updn_switch_dir := un_dir <$> bfs_us st !! x.

(** A switch listed at level [v]. *)
Definition entry (t v : Z) (st : bfs_state) (x : Z) : Prop :=
  count st x t 0 ≤ v
  ∧ (count st x t 0 = v → climbed t (bfs_sws st) x → dir_of st x = Some UP)
  ∧ (count st x t 0 < v → closed t (bfs_sws st) x (all_ports x)).

Record level_inv (t v : Z) (busy : Z → Prop) (l1 l2 : list Z) (st : bfs_state) : Prop := {
  lv_list : bfs_list st = l1 ++ l2;
  lv_le s p : s ∈ S → 0 ≤ p < np s → count st s t p < 255 → count st s t p ≤ v + 1;
  lv_l1 x : x ∈ l1 → entry t v st x;
  lv_l2 x : x ∈ l2 → entry t (v + 1) st x;
  lv_closed x :
    x ∈ S → count st x t 0 < 255 → x ∉ l1 ++ l2 → ¬ busy x → closed t (bfs_sws st) x (all_ports x);
  lv_up s p r rem :
    cable s p r rem → count st s t p < 255 → R s < R r → climbed t (bfs_sws st) r;
  lv_dir x : x ∈ l1 ++ l2 → dir_of st x = Some UP → climbed t (bfs_sws st) x
}.

(** What the visit of [g] from level [v] keeps; [seen] are the ports done. *)
Record visit_inv (t v g : Z) (current_dir : updn_switch_dir) (l1 l2 seen : list Z)
    (st : bfs_state) : Prop := {
  vi_level : level_inv t v (eq g) l1 l2 st;
  vi_out : g ∉ l1 ++ l2;
  vi_count : count st g t 0 ≤ v;
  vi_up : current_dir = UP → climbed t (bfs_sws st) g;
  vi_dir : count st g t 0 = v → climbed t (bfs_sws st) g → current_dir = UP;
  vi_seen : closed t (bfs_sws st) g seen;
  vi_done : count st g t 0 < v → closed t (bfs_sws st) g (all_ports g)
}.

Lemma elem_of_all_ports x pn : pn ∈ all_ports x ↔ 1 ≤ pn < np x.
Proof. unfold all_ports. rewrite elem_of_seqZ. lia. Qed.

(** One step through a port of a switch that is listed at its own level. *)
Section Step.
Variables (t v g pn r rem : Z) (cd : updn_switch_dir) (l1 l2 seen : list Z) (st st' : bfs_state).
Context (Ht : t ∈ S) (Hi : bfs_inv t st) (Hi' : bfs_inv t st').
Context (Hv : visit_inv t v g cd l1 l2 seen st).
Context (Hc : cable g pn r rem) (Hst : port_step t g cd st st' r rem).

Lemma step_up_climbed : step_dir g r = UP → climbed t (bfs_sws st) g.
Proof.
  intros E. apply (vi_up _ _ _ _ _ _ _ _ Hv). pose proof (ps_legal _ _ _ _ _ _ _ _ _ _ Hst) as Hl.
  destruct cd; [done|]. exfalso. by apply Hl.
Qed.

Lemma step_open : climbed t (bfs_sws st) g ∨ R g < R r.
Proof.
  destruct (step_dir g r) eqn:E; [left; by apply step_up_climbed|right].
  by apply (down_rank _ _ _ _ Hc).
Qed.

Lemma step_at_level : count st g t 0 = v.
Proof.
  pose proof (vi_count _ _ _ _ _ _ _ _ Hv). pose proof (ps_less _ _ _ _ _ _ _ _ _ _ Hst).
  destruct (decide (count st g t 0 = v)) as [?|Hne]; [done|exfalso].
  pose proof Hc as (_ & Hpn & _).
  pose proof (vi_done _ _ _ _ _ _ _ _ Hv ltac:(lia) pn r rem ltac:(by apply elem_of_all_ports) Hc step_open).
  lia.
Qed.

Lemma step_r_in : r ∈ S ∧ 1 ≤ rem < np r.
Proof. pose proof (Hcab _ _ _ _ Hc) as (? & ? & _). done. Qed.

Lemma step_fresh : count st r t rem = 255.
Proof.
  destruct step_r_in as [Hr Hrem].
  pose proof (co_range _ _ _ _ (bi_col _ _ _ _ _ Hi) r rem Hr ltac:(lia)).
  pose proof (ps_less _ _ _ _ _ _ _ _ _ _ Hst). pose proof step_at_level.
  destruct (decide (count st r t rem < 255)) as [Hlt|]; [|lia].
  pose proof (lv_le _ _ _ _ _ _ (vi_level _ _ _ _ _ _ _ _ Hv) r rem Hr ltac:(lia) Hlt). lia.
Qed.

Lemma step_least : count st' r t 0 = Z.min (count st r t 0) (v + 1).
Proof. rewrite (ps_least _ _ _ _ _ _ _ _ _ _ Hst), step_at_level. done. Qed.

Lemma step_keeps x : x ∈ S → count st x t 0 < 255 → count st' x t 0 = count st x t 0.
Proof.
  intros Hx Hlt. pose proof (np_pos nodes S _ x (bi_shape _ _ _ _ _ Hi) Hx).
  destruct (decide (x = r)) as [-> | Hne].
  - rewrite step_least.
    pose proof (lv_le _ _ _ _ _ _ (vi_level _ _ _ _ _ _ _ _ Hv) r 0 Hx ltac:(lia) Hlt). lia.
  - apply (ps_other _ _ _ _ _ _ _ _ _ _ Hst); [done..|lia|naive_solver].
Qed.

Lemma step_cell s p :
  s ∈ S → 0 ≤ p < np s → count st' s t p < 255 →
  (s = r ∧ (p = rem ∨ p = 0) ∧ count st' s t p ≤ v + 1) ∨ count st' s t p = count st s t p.
Proof.
  intros Hs Hp Hlt. destruct (decide (s = r ∧ (p = rem ∨ p = 0))) as [(-> & Hrp)|Hn].
  - left. split_and!; [done|done|]. destruct Hrp as [-> | ->].
    + rewrite (ps_new _ _ _ _ _ _ _ _ _ _ Hst), step_at_level. done.
    + rewrite step_least. lia.
  - right. apply (ps_other _ _ _ _ _ _ _ _ _ _ Hst); [done..|naive_solver].
Qed.

Lemma step_closed x ports :
  x ∈ S → count st x t 0 < 255 → closed t (bfs_sws st) x ports → closed t (bfs_sws st') x ports.
Proof.
  intros Hx Hlt Hcl pn' r' rem' Hin Hc' Hor. unfold climbed in Hor. rewrite step_keeps in Hor |- * by done.
  etrans; [|by eapply Hcl]. pose proof (Hcab _ _ _ _ Hc') as (Hr' & Hrem' & _).
  eapply (port_step_mono nodes S us0); [exact Hst|done..|lia].
Qed.

Lemma step_dir_of x : x ∈ bfs_list st → dir_of st' x = dir_of st x.
Proof.
  intros Hx. unfold dir_of.
  destruct (ps_list _ _ _ _ _ _ _ _ _ _ Hst) as [(_ & -> & _)|(Hr & _ & u & Hu & ->)]; [done|].
  rewrite lookup_insert_ne; [done|]. by intros ->.
Qed.

Lemma step_entry w x : v ≤ w ≤ v + 1 → x ∈ bfs_list st → count st x t 0 < 255 → entry t w st x → entry t w st' x.
Proof.
  intros Hw Hx Hlt (H1 & H2 & H3). pose proof (bi_list _ _ _ _ _ Hi x Hx) as HxS.
  unfold entry, climbed. rewrite step_keeps, step_dir_of by done. split_and!; [done..|].
  intros ?. apply step_closed; auto.
Qed.

(** The switch at the far end has been climbed to when it is as near as its rank
    allows. *)
Lemma step_r_climbs :
  count st' r t 0 = v + 1 → climbed t (bfs_sws st') r → step_dir g r = UP.
Proof.
  intros E Hcl. pose proof Hc as (Hg & _). unfold climbed in Hcl. rewrite E in Hcl.
  apply (step_dir_rank _ _ _ _ Hc). destruct (Hh _ _ _ _ Hc) as [_ Hrk].
  pose proof step_at_level as Hm. pose proof (ps_less _ _ _ _ _ _ _ _ _ _ Hst).
  pose proof step_fresh.
  pose proof (rank_lower _ t g (bi_shape _ _ _ _ _ Hi) (bi_col _ _ _ _ _ Hi) Ht Hg ltac:(lia)). lia.
Qed.

Lemma step_climbs_r : step_dir g r = UP → climbed t (bfs_sws st') r.
Proof.
  intros E. pose proof (step_up_climbed E) as Hcl. unfold climbed in *.
  apply (step_dir_rank _ _ _ _ Hc) in E. destruct (Hh _ _ _ _ Hc) as [_ Hrk].
  destruct step_r_in as [Hr Hrem]. pose proof step_at_level. pose proof step_fresh.
  pose proof (ps_less _ _ _ _ _ _ _ _ _ _ Hst). pose proof step_least as Hl.
  pose proof (rank_lower _ t r (bi_shape _ _ _ _ _ Hi') (bi_col _ _ _ _ _ Hi') Ht Hr ltac:(lia)). lia.
Qed.

Lemma step_climbed x : x ∈ S → climbed t (bfs_sws st) x → count st x t 0 < 255 → climbed t (bfs_sws st') x.
Proof. intros Hx Hcl Hlt. unfold climbed in *. by rewrite step_keeps. Qed.

(** A switch listed for the first time, at the next level. *)
Lemma step_new_entry :
  r ∉ bfs_list st → dir_of st' r = Some (step_dir g r) → entry t (v + 1) st' r.
Proof.
  intros Hr Hd. destruct step_r_in as [HrS Hrem]. pose proof step_least as Hl. unfold entry.
  split_and!.
  - lia.
  - intros E Hcl. rewrite Hd. by rewrite step_r_climbs.
  - intros Hlt. assert (Hfin : count st r t 0 < 255).
    { pose proof step_at_level. pose proof (ps_less _ _ _ _ _ _ _ _ _ _ Hst).
      pose proof step_fresh. lia. }
    apply step_closed; [done..|]. pose proof (vi_level _ _ _ _ _ _ _ _ Hv) as Hlev.
    rewrite (lv_list _ _ _ _ _ _ Hlev) in Hr.
    apply (lv_closed _ _ _ _ _ _ Hlev); [done..|]. intros <-. destruct (Hh _ _ _ _ Hc). lia.
Qed.

Lemma step_new_dir u :
  bfs_us st' = <[r := u <| un_dir := step_dir g r |> <| un_visited := true |>]> (bfs_us st) →
  dir_of st' r = Some (step_dir g r).
Proof. intros E. unfold dir_of. by rewrite E, lookup_insert_eq. Qed.

(** Every listed switch has been reached. *)
Lemma listed_reached x : x ∈ l1 ++ l2 → count st x t 0 < 255.
Proof.
  pose proof (vi_level _ _ _ _ _ _ _ _ Hv) as Hlev. pose proof step_fresh.
  pose proof (ps_less _ _ _ _ _ _ _ _ _ _ Hst). pose proof step_at_level.
  intros [Hx|Hx]%elem_of_app; [apply (lv_l1 _ _ _ _ _ _ Hlev) in Hx|apply (lv_l2 _ _ _ _ _ _ Hlev) in Hx];
    destruct Hx; lia.
Qed.

Lemma visit_step : ∃ l2', visit_inv t v g cd l1 l2' (seen ++ [pn]) st'.
Proof.
  pose proof (vi_level _ _ _ _ _ _ _ _ Hv) as Hlev. pose proof Hlev as [Ll Lle L1 L2 Lc Lu Ld].
  pose proof Hc as (Hg & Hpn & _). destruct step_r_in as [Hr Hrem].
  pose proof step_at_level as Hm. pose proof step_fresh as Hfresh.
  pose proof (ps_less _ _ _ _ _ _ _ _ _ _ Hst) as Hless.
  assert (Hgf : count st g t 0 < 255) by lia.
  assert (Hgk : count st' g t 0 = count st g t 0) by (by apply step_keeps).
  assert (Hrest : ∃ l2', bfs_list st' = l1 ++ l2' ∧ g ∉ l1 ++ l2'
     ∧ (∀ x, x ∈ l1 ++ l2 → x ∈ l1 ++ l2')
     ∧ (∀ x, x ∈ l2' → x ∈ l2 ∨ (x = r ∧ r ∉ bfs_list st ∧ dir_of st' r = Some (step_dir g r)))
     ∧ r ∈ l1 ++ l2').
  { destruct (ps_list _ _ _ _ _ _ _ _ _ _ Hst) as [(Hin & _ & ->)|(Hni & -> & u & Hu & Eu)];
      rewrite Ll in *.
    - exists l2. split_and!; try done; [apply (vi_out _ _ _ _ _ _ _ _ Hv)|auto].
    - exists (l2 ++ [r]). rewrite (assoc_L (++)). split_and!; [done| |set_solver| |set_solver].
      + rewrite not_elem_of_app, list_elem_of_singleton.
        split; [apply (vi_out _ _ _ _ _ _ _ _ Hv)|]. intros ->. destruct (Hh _ _ _ _ Hc). lia.
      + intros x [Hx | ->%list_elem_of_singleton]%elem_of_app; [by left|right].
        split_and!; [done..|]. by eapply step_new_dir. }
  destruct Hrest as (l2' & El & Hgl & Hsub & Hnew & Hrl). exists l2'.
  split; [split|done|rewrite Hgk; lia| | | |].
  - done.
  - intros s p Hs Hp Hlt. destruct (step_cell s p Hs Hp Hlt) as [(_ & _ & ?)|E]; [done|].
    rewrite E in *. by apply Lle.
  - intros x Hx. apply step_entry; [lia| | |by apply L1].
    + rewrite Ll. set_solver.
    + apply listed_reached. set_solver.
  - intros x Hx. destruct (Hnew x Hx) as [Hx2|(-> & Hni & Hd)]; [|by apply step_new_entry].
    apply step_entry; [lia| | |by apply L2].
    + rewrite Ll. set_solver.
    + apply listed_reached. set_solver.
  - intros x Hx Hlt Hni Hb. pose proof (np_pos nodes S _ x (bi_shape _ _ _ _ _ Hi) Hx).
    assert (E : count st' x t 0 = count st x t 0).
    { destruct (step_cell x 0 Hx ltac:(lia) Hlt) as [(-> & _)|E]; done. }
    rewrite E in Hlt. apply step_closed; [done..|]. apply Lc; [done..| |done].
    intros Hin. by apply Hni, Hsub.
  - intros s p x rem' Hcx Hlt Hrk. pose proof Hcx as (Hs & Hp & Hx & _).
    destruct (step_cell s p Hs ltac:(lia) Hlt) as [(-> & [-> | ->] & _)|E]; [|lia|].
    + destruct (cable_unique _ _ _ _ _ _ _ _ Hcx (Hcab _ _ _ _ Hc)) as [-> ->].
      apply step_climbed; [done| |done]. apply step_up_climbed. by apply (step_dir_rank _ _ _ _ Hc).
    + rewrite E in Hlt. apply step_climbed; [done|by eapply Lu|].
      destruct (co_desc _ _ _ _ (bi_col _ _ _ _ _ Hi) s p Hs Hp Hlt) as (x' & rem2 & Hc2 & Hw).
      destruct (cable_unique _ _ _ _ _ _ _ _ Hcx Hc2) as [<- _]. lia.
  - intros x Hx Hd. apply elem_of_app in Hx.
    destruct (decide (x ∈ bfs_list st)) as [Hin|Hni].
    + rewrite step_dir_of in Hd by done. rewrite Ll in Hin. apply step_climbed;
        [apply (bi_list _ _ _ _ _ Hi); by rewrite Ll|by apply Ld|by apply listed_reached].
    + destruct Hx as [Hx|Hx]; [rewrite Ll in Hni; set_solver|].
      destruct (Hnew x Hx) as [Hx2|(-> & _ & Hd')]; [rewrite Ll in Hni; set_solver|].
      apply step_climbs_r. congruence.
  - intros E. apply step_climbed; [done| |done]. by apply (vi_up _ _ _ _ _ _ _ _ Hv).
  - intros _ Hcl. unfold climbed in Hcl. rewrite Hgk in Hcl. by apply (vi_dir _ _ _ _ _ _ _ _ Hv).
  - intros pn' r' rem' [Hin | ->%list_elem_of_singleton]%elem_of_app Hc' Hor.
    + apply (step_closed g seen Hg Hgf (vi_seen _ _ _ _ _ _ _ _ Hv) pn' r' rem' Hin Hc' Hor).
    + destruct (cable_unique _ _ _ _ _ _ _ _ Hc' Hc) as [-> ->].
      rewrite (ps_new _ _ _ _ _ _ _ _ _ _ Hst). lia.
  - rewrite Hgk. lia.
Qed.
End Step.

Lemma visit_skip t v g cd l1 l2 seen pn st :
  bfs_inv t st → t ∈ S → g ∈ S → 1 ≤ pn < np g → visit_inv t v g cd l1 l2 seen st →
  (∀ r rem, cable g pn r rem → (cd = DOWN ∧ step_dir g r = UP) ∨ count st r t rem ≤ count st g t 0 + 1) →
  visit_inv t v g cd l1 l2 (seen ++ [pn]) st.
Proof.
  intros Hi Ht Hg Hpn [V1 V2 V3 V4 V5 V6 V7] H. split; try done.
  intros pn' r rem [Hin | ->%list_elem_of_singleton]%elem_of_app Hc Hor; [by eapply V6|].
  destruct (H r rem Hc) as [[Hcd Hd]|?]; [|done].
  pose proof Hd as Hrk. apply (step_dir_rank _ _ _ _ Hc) in Hrk.
  destruct Hor as [Hcl|?]; [|lia].
  destruct (decide (count st g t 0 = v)) as [E|Hne].
  - rewrite (V5 E Hcl) in Hcd. done.
  - apply (V7 ltac:(lia) pn r rem); [by apply elem_of_all_ports|done|by left].
Qed.

Lemma visit_all t v g cd l1 ports : ∀ l2 seen st,
  t ∈ S → g ∈ S → (∀ pn, pn ∈ ports → 1 ≤ pn < np g) →
  bfs_inv t st → visit_inv t v g cd l1 l2 seen st →
  let st' := foldl (bfs_port nodes (lid t) g cd) st ports in
  ∃ l2', visit_inv t v g cd l1 l2' (seen ++ ports) st'.
Proof.
  induction ports as [|pn ports IH]; intros l2 seen st Ht Hg Hp Hi Hv; cbn [foldl].
  { exists l2. by rewrite app_nil_r. }
  assert (Hpn : 1 ≤ pn < np g) by (apply Hp; left).
  assert (Hnext : ∃ l2', bfs_inv t (bfs_port nodes (lid t) g cd st pn)
    ∧ visit_inv t v g cd l1 l2' (seen ++ [pn]) (bfs_port nodes (lid t) g cd st pn)).
  { destruct (bfs_port_cases nodes S us0 Hlid Hcab t st g cd pn Hi Ht Hg Hpn)
      as [[-> H]|(r & rem & Hc & Hst)].
    - exists l2. split; [done|]. by apply visit_skip.
    - pose proof (port_step_inv _ _ _ Hcab _ _ _ _ _ _ _ _ Hi Hc Ht Hst) as Hi'.
      destruct (visit_step t v g pn r rem cd l1 l2 seen st _ Ht Hi Hi' Hv Hc Hst) as [l2' ?]. by exists l2'. }
  destruct Hnext as (l2' & Hi' & Hv').
  destruct (IH l2' (seen ++ [pn]) _ Ht Hg ltac:(intros q Hq; apply Hp; by right) Hi' Hv') as [l2'' H].
  exists l2''. by rewrite <-(assoc_L (++)) in H.
Qed.

(** Taking the head of the list, at this level or the next. *)
Lemma level_pop t v l1 l2 st g l :
  bfs_inv t st → level_inv t v (λ _, False) l1 l2 st → bfs_list st = g :: l →
  ∃ v' l1' l2', level_inv t v' (eq g) l1' l2' (popped st g l) ∧ entry t v' st g
    ∧ (dir_of st g = Some UP → climbed t (bfs_sws st) g).
Proof.
  intros Hi [Ll Lle L1 L2 Lc Lu Ld] E.
  assert (Hd : ∀ x, x ≠ g → dir_of (popped st g l) x = dir_of st x).
  { intros x Hx. unfold dir_of, popped. simpl. by rewrite lookup_alter_ne. }
  pose proof (bi_nodup _ _ _ _ _ Hi) as Hnd. rewrite E in Hnd. apply NoDup_cons in Hnd as [Hgl _].
  assert (He : ∀ w x, x ≠ g → entry t w st x → entry t w (popped st g l) x).
  { intros w x Hx (H1 & H2 & H3). unfold entry. rewrite Hd by done. by split_and!. }
  assert (Hlev : ∀ v' l1' l2', l = l1' ++ l2' → v ≤ v' → (∀ x, x ∈ l1' → entry t v' st x) →
    (∀ x, x ∈ l2' → entry t (v' + 1) st x) → level_inv t v' (eq g) l1' l2' (popped st g l)).
  { intros v' l1' l2' -> Hv' H1 H2. rewrite not_elem_of_app in Hgl. destruct Hgl as [Hg1 Hg2]. split; simpl.
    - done.
    - intros s p Hs Hp Hlt. specialize (Lle s p Hs Hp Hlt). lia.
    - intros x Hx. apply He; [by intros ->|by apply H1].
    - intros x Hx. apply He; [by intros ->|by apply H2].
    - intros x Hx Hlt Hni Hb. apply Lc; [done..| |by intros []].
      rewrite <-Ll, E, not_elem_of_cons. split; [congruence|done].
    - done.
    - intros x Hx. rewrite Hd by (intros ->; set_solver). apply Ld. rewrite <-Ll, E. by right. }
  rewrite Ll in E. destruct l1 as [|g' l1]; simpl in E.
  - subst l2. exists (v + 1), l, []. split; [|split; [apply L2; left|apply Ld; left]].
    apply Hlev; [by rewrite app_nil_r|lia|intros x Hx; apply L2; by right|].
    intros x Hx. by apply not_elem_of_nil in Hx.
  - injection E as -> <-. exists v, l1, l2. split; [|split; [apply L1; left|apply Ld; left]].
    apply Hlev; [done|lia|intros x Hx; apply L1; by right|done].
Qed.

Definition leveled (t : Z) (st : bfs_state) : Prop :=
  ∃ v l1 l2, level_inv t v (λ _, False) l1 l2 st.

Lemma visit_leveled t st g l :
  t ∈ S → bfs_inv t st → bfs_list st = g :: l → leveled t st →
  leveled t (bfs_visit nodes (lid t) g (Bfs (bfs_sws st) (bfs_us st) l)).
Proof.
  intros Ht Hi E (v & l1 & l2 & Hlev).
  assert (Hg : g ∈ S) by (apply (bi_list _ _ _ _ _ Hi); rewrite E; left).
  destruct (level_pop t v l1 l2 st g l Hi Hlev E) as (v' & l1' & l2' & Hlev' & (He1 & He2 & He3) & Hd).
  destruct (bfs_visit_popped _ _ _ _ _ _ _ Hi E Hg) as (u & Hu & ->).
  pose proof (popped_inv _ _ _ _ _ _ _ Hi E) as Hi'.
  assert (Hdir : dir_of st g = Some (un_dir u)) by (unfold dir_of; by rewrite Hu).
  assert (Hgl : g ∉ l1' ++ l2').
  { rewrite <-(lv_list _ _ _ _ _ _ Hlev'). simpl. pose proof (bi_nodup _ _ _ _ _ Hi) as Hnd.
    rewrite E in Hnd. by apply NoDup_cons in Hnd as [? _]. }
  destruct (visit_all t v' g (un_dir u) l1' (seqZ 1 (np g - 1)) l2' [] (popped st g l) Ht Hg
    (in_ports nodes g) Hi') as (l2'' & Hv).
  { split; try done.
    - intros Eu. apply Hd. by rewrite Hdir, Eu.
    - intros Ec Hcl. specialize (He2 Ec Hcl). congruence.
    - intros pn r rem Hin. by apply not_elem_of_nil in Hin. }
  exists v', l1', l2''. destruct Hv as [[Ll Lle L1 L2 Lc Lu Ld] V2 V3 V4 V5 V6 V7].
  split; try done. intros x Hx Hlt Hni _. destruct (decide (x = g)) as [-> | Hne]; [done|].
  by apply Lc; [..|congruence].
Qed.

Lemma started_leveled sws us t :
  shape nodes S sws → t ∈ S → nodes_ok S us0 us →
  (∀ s p, s ∈ S → 0 ≤ p < np s → hopc nodes sws s t p = OSM_NO_PATH) →
  leveled t (started nodes sws us t).
Proof.
  intros Hsh Ht Hn Hf. destruct (started_self nodes S Hlid sws us t Hsh Ht) as [_ Hget].
  pose proof (np_pos nodes S sws t Hsh Ht) as Hnp. unfold OSM_NO_PATH in Hf.
  assert (H0 : count (started nodes sws us t) t t 0 = 0)
    by (rewrite Hget by (done || lia); by rewrite decide_True).
  assert (Hfin : ∀ s p, s ∈ S → 0 ≤ p < np s → count (started nodes sws us t) s t p < 255 → s = t ∧ p = 0).
  { intros s p Hs Hp. rewrite Hget by done. case_decide as E; [naive_solver|].
    rewrite Hf by done. lia. }
  assert (Hct : climbed t (bfs_sws (started nodes sws us t)) t) by (unfold climbed; rewrite H0; lia).
  assert (Hdir : dir_of (started nodes sws us t) t = Some UP).
  { unfold dir_of, started. simpl. rewrite lookup_alter_eq.
    destruct (nodes_lookup _ _ _ _ Hn Ht) as (u & -> & _). done. }
  exists 0, [t], []. split.
  - done.
  - intros s p Hs Hp Hlt. destruct (Hfin s p Hs Hp Hlt) as [-> ->]. lia.
  - intros x ->%list_elem_of_singleton. unfold entry. rewrite H0. split_and!; [done|done|lia].
  - intros x Hx. by apply not_elem_of_nil in Hx.
  - intros x Hx Hlt Hni _. pose proof (np_pos nodes S sws x Hsh Hx).
    destruct (Hfin x 0 Hx ltac:(lia) Hlt) as [-> _]. exfalso. apply Hni. left.
  - intros s p r rem (Hs & Hp & _) Hlt. destruct (Hfin s p Hs ltac:(lia) Hlt). lia.
  - by intros x ->%list_elem_of_singleton.
Qed.

(** What the search leaves in its column. *)
Record legal_col (t : Z) (sws : gmap Z osm_switch) : Prop := {
  lc_up s p r rem : cable s p r rem → hopc nodes sws s t p < 255 → R s < R r → climbed t sws r;
  lc_closed x : x ∈ S → hopc nodes sws x t 0 < 255 → closed t sws x (all_ports x)
}.

Lemma legal_col_same sws sws' t :
  (∀ s, s ∈ S → 0 < np s) → same_col nodes S sws sws' t → legal_col t sws → legal_col t sws'.
Proof.
  intros Hz Hsame [Hup Hcl].
  assert (H0 : ∀ s, s ∈ S → hopc nodes sws' s t 0 = hopc nodes sws s t 0)
    by (intros s Hs; apply Hsame; [done|specialize (Hz s Hs); lia]).
  split.
  - intros s p r rem Hc Hlt Hrk. pose proof Hc as (Hs & Hp & Hr & _). unfold climbed.
    rewrite H0 by done. rewrite Hsame in Hlt by (done || lia). by eapply Hup.
  - intros x Hx Hlt pn r rem Hin Hc Hor. pose proof (Hcab _ _ _ _ Hc) as (Hr & Hrem & _).
    unfold climbed in Hor. rewrite H0 in Hlt, Hor |- * by done. rewrite Hsame by (done || lia).
    by eapply Hcl.
Qed.

Lemma leveled_done t sws us : leveled t (Bfs sws us []) → legal_col t sws.
Proof.
  intros (v & l1 & l2 & [Ll Lle L1 L2 Lc Lu Ld]). simpl in Ll. symmetry in Ll.
  apply app_nil in Ll as [-> ->]. split; [exact Lu|]. intros x Hx Hlt. apply Lc; [done..| |by intros []].
  intros Hin. by apply not_elem_of_nil in Hin.
Qed.

(** ** Paths that go up and then down *)

(** A path of [n] cables from [t], still going up or on the way down. *)
Inductive updown (t : Z) : updn_switch_dir → Z → Z → Prop :=
  | ud_start : t ∈ S → updown t UP t 0
  | ud_up s n pn r rem :
      updown t UP s n → cable s pn r rem → step_dir s r = UP → updown t UP r (n + 1)
  | ud_down d s n pn r rem :
      updown t d s n → cable s pn r rem → step_dir s r = DOWN → updown t DOWN r (n + 1).

(** The tables of a finished search. *)
Record searched (sws : gmap Z osm_switch) (t : Z) : Prop := {
  se_shape : shape nodes S sws;
  se_col : col_ok sws t;
  se_self : hopc nodes sws t t 0 = 0;
  se_legal : legal_col t sws
}.

Lemma updown_bound sws t d s n :
  searched sws t → t ∈ S → updown t d s n →
  s ∈ S ∧ 0 ≤ n ∧ hopc nodes sws s t 0 ≤ n ∧ (d = UP → n = R t - R s).
Proof.
  intros [Hsh Hc Hself [_ Hcl]] Ht Hud.
  assert (Hstep : ∀ s n pn r rem, s ∈ S → 0 ≤ n → hopc nodes sws s t 0 ≤ n → cable s pn r rem →
    (hopc nodes sws s t 0 < 255 → climbed t sws s ∨ R s < R r) → hopc nodes sws r t 0 ≤ n + 1).
  { intros s' m pn r rem Hs Hm Hle Hcb Hor. pose proof Hcb as (_ & Hpn & Hr & _).
    pose proof (Hcab _ _ _ _ Hcb) as (_ & Hrem & _).
    pose proof (co_least _ _ _ _ Hc r rem Hr ltac:(lia)).
    pose proof (co_range _ _ _ _ Hc r rem Hr ltac:(lia)).
    destruct (decide (hopc nodes sws s' t 0 < 255)) as [Hlt|Hge].
    - pose proof (Hcl s' Hs Hlt pn r rem ltac:(by apply elem_of_all_ports) Hcb (Hor Hlt)). lia.
    - lia. }
  induction Hud as [HtS|s n pn r rem Hud (Hs & Hn & Hle & Hk) Hcb Hd|d s n pn r rem Hud (Hs & Hn & Hle & Hk) Hcb Hd].
  - split_and!; [done|done|lia|lia].
  - pose proof Hcb as (_ & _ & Hr & _). specialize (Hk eq_refl).
    pose proof Hd as Hrk. apply (step_dir_rank _ _ _ _ Hcb) in Hrk.
    destruct (Hh _ _ _ _ Hcb) as [_ Hrk']. split_and!; [done|lia| |lia].
    apply (Hstep s n pn r rem); [done..|]. intros Hlt. left.
    pose proof (rank_lower sws t s Hsh Hc Ht Hs Hlt). unfold climbed. lia.
  - pose proof Hcb as (_ & _ & Hr & _). apply (down_rank _ _ _ _ Hcb) in Hd.
    split_and!; [done|lia| |done]. apply (Hstep s n pn r rem); [done..|]. by right.
Qed.

Lemma climbed_path sws t s :
  searched sws t → t ∈ S → s ∈ S → hopc nodes sws s t 0 < 255 → climbed t sws s →
  updown t UP s (hopc nodes sws s t 0).
Proof.
  intros [Hsh Hc Hself Hl] Ht. assert (Hgen : ∀ n s, s ∈ S → hopc nodes sws s t 0 < 255 →
    climbed t sws s → (Z.to_nat (hopc nodes sws s t 0) < n)%nat → updown t UP s (hopc nodes sws s t 0));
    [|intros Hs Hlt Hcl; by apply (Hgen _ s Hs Hlt Hcl (Nat.lt_succ_diag_r _))].
  clear s. induction n as [|n IH]; intros s Hs Hlt Hcl Hn; [lia|].
  destruct (co_att _ _ _ _ Hc s Hs Hlt) as [->|(p & Hp & E)]; [rewrite Hself; by constructor|].
  destruct (co_desc _ _ _ _ Hc s p Hs Hp ltac:(lia)) as (r & rem & Hcb & Hw).
  pose proof (Hcab _ _ _ _ Hcb) as Hcb'. pose proof Hcb as (_ & _ & Hr & _).
  pose proof (co_range _ _ _ _ Hc r 0 Hr ltac:(pose proof (np_pos nodes S sws r Hsh Hr); lia)).
  pose proof (rank_lower sws t r Hsh Hc Ht Hr ltac:(lia)) as Hlow.
  destruct (Hh _ _ _ _ Hcb) as [_ Hrk]. unfold climbed in *.
  assert (Hr1 : R r = R s + 1) by lia.
  replace (hopc nodes sws s t 0) with (hopc nodes sws r t 0 + 1) by lia.
  eapply ud_up; [apply IH; [done|lia|lia|lia]|exact Hcb'|].
  apply (step_dir_rank _ _ _ _ Hcb'). lia.
Qed.

(** The least count is the length of the shortest such path. *)
Lemma searched_shortest sws t s :
  searched sws t → t ∈ S → s ∈ S →
  (∀ d n, updown t d s n → hopc nodes sws s t 0 ≤ n)
  ∧ (hopc nodes sws s t 0 < 255 → ∃ d, updown t d s (hopc nodes sws s t 0)).
Proof.
  intros Hse Ht Hs. split.
  { intros d n Hud. by destruct (updown_bound sws t d s n Hse Ht Hud) as (_ & _ & ? & _). }
  pose proof Hse as [Hsh Hc Hself [Hup _]].
  assert (Hgen : ∀ n s, s ∈ S → hopc nodes sws s t 0 < 255 →
    (Z.to_nat (hopc nodes sws s t 0) < n)%nat → ∃ d, updown t d s (hopc nodes sws s t 0));
    [|intros Hlt; by apply (Hgen _ s Hs Hlt (Nat.lt_succ_diag_r _))].
  clear s Hs. induction n as [|n IH]; intros s Hs Hlt Hn; [lia|].
  destruct (co_att _ _ _ _ Hc s Hs Hlt) as [->|(p & Hp & E)]; [exists UP; rewrite Hself; by constructor|].
  destruct (co_desc _ _ _ _ Hc s p Hs Hp ltac:(lia)) as (r & rem & Hcb & Hw).
  pose proof (Hcab _ _ _ _ Hcb) as Hcb'. pose proof Hcb as (_ & _ & Hr & _).
  pose proof (co_range _ _ _ _ Hc r 0 Hr ltac:(pose proof (np_pos nodes S sws r Hsh Hr); lia)).
  assert (Hpath : ∃ d, updown t d s (hopc nodes sws r t 0 + 1)).
  { destruct (Hh _ _ _ _ Hcb) as [_ [Hrk|Hrk]].
    - exists UP. eapply ud_up; [|exact Hcb'|apply (step_dir_rank _ _ _ _ Hcb'); lia].
      apply climbed_path; [done..|lia|]. eapply Hup; [exact Hcb|lia|lia].
    - destruct (IH r Hr ltac:(lia) ltac:(lia)) as [d Hd]. exists DOWN.
      eapply ud_down; [exact Hd|exact Hcb'|apply (down_rank _ _ _ _ Hcb'); lia]. }
  destruct Hpath as [d Hd]. exists d.
  destruct (updown_bound sws t d s _ Hse Ht Hd) as (_ & _ & Hle & _).
  by replace (hopc nodes sws s t 0) with (hopc nodes sws r t 0 + 1) by lia.
Qed.

(** ** No turn from down to up *)

(** Two least-hop ports in a row: after a step down comes a step down. *)
Lemma searched_turn sws t s e r rem e' r' rem' :
  searched sws t → t ∈ S → cable s e r rem → cable r e' r' rem' →
  hopc nodes sws s t e < 255 →
  hopc nodes sws r t e' = hopc nodes sws r t 0 → hopc nodes sws r t 0 < 255 →
  R s < R r → R r < R r'.
Proof.
  intros [Hsh Hc Hself [Hup _]] Ht Hcb Hcb' Hlt E Hlt' Hrk.
  pose proof (Hup s e r rem Hcb Hlt Hrk) as Hcl. unfold climbed in Hcl.
  pose proof Hcb' as (Hr & Hp & Hr' & _).
  destruct (co_desc _ _ _ _ Hc r e' Hr Hp ltac:(lia)) as (r2 & rem2 & Hcb2 & Hw).
  destruct (cable_unique _ _ _ _ _ _ _ _ Hcb' Hcb2) as [<- _].
  pose proof (rank_lower sws t r' Hsh Hc Ht Hr' ltac:(lia)). destruct (Hh _ _ _ _ Hcb'). lia.
Qed.
End Legal.
