(* ===== verification/UpdnRoute.v ===== *)
(** * Routing by Up/Down

    The hop tables of [updn_build_lid_matrices] with the forwarding tables of
    [UcastMgr.v]: packets do not loop and arrive, and on a hierarchy the channels
    of the fabric do not depend on each other in a cycle. *)

From S2P Require Import Prelude IbTypes CString NodeMap Switch UcastMgr Updn UpdnSearch UpdnRank UpdnLegal.

Open Scope Z_scope.

(** ** The tables *)

Section Build.
Context {BO : ByteOrder}.
Variable nodes : gmap Z osm_node.
Variable S : gset Z.

(** The subnet as [updn_build_lid_matrices] finds it, its roots chosen. *)
Record updn_start (sws : gmap Z osm_switch) (us : gmap Z updn_node) : Prop := {
  us_lids : lids_distinct nodes S;
  us_cables : cables_ok nodes S;
  us_shape : shape nodes S sws;
  us_ranks : ranks_start S us;
  us_unvisited : unvisited us;
  us_size : 0 < Z.of_nat (size S) < NO_RANK - 2
}.

(** No cable joins switches of one rank. *)
Definition ranks_differ (us : gmap Z updn_node) : Prop :=
  ∀ s pn r rem, cable nodes S s pn r rem → rank_of us s ≠ rank_of us r.

Lemma ranks_hierarchy us0 us :
  cables_ok nodes S → ranks_ok nodes S us0 us → ranks_differ us → hierarchy nodes S us.
Proof.
  intros Hcab [_ _ Hr Hw Hl] Hd s pn r rem Hc. pose proof (Hd _ _ _ _ Hc) as Hne.
  pose proof Hc as (Hs & _ & HrS & _). pose proof (Hr s Hs). pose proof (Hr r HrS).
  split; [lia|].
  assert (Hstep : ∀ a pa b pb, cable nodes S a pa b pb → rank_of us a < NO_RANK →
    rank_of us b ≤ rank_of us a + 1).
  { intros a pa b pb Hab Hf. pose proof Hab as (Ha & _).
    apply (Hl b). eapply rw_step; [by apply Hw|exact Hab]. }
  destruct (decide (rank_of us s < NO_RANK)) as [Hf|Hf].
  - pose proof (Hstep _ _ _ _ Hc Hf).
    destruct (decide (rank_of us r < NO_RANK)) as [Hf'|Hf'].
    + pose proof (Hstep _ _ _ _ (Hcab _ _ _ _ Hc) Hf'). lia.
    + pose proof (Hl r (rank_of us s + 1)) as Hb. destruct Hb; [|lia].
      eapply rw_step; [by apply Hw|exact Hc].
  - destruct (decide (rank_of us r < NO_RANK)) as [Hf'|Hf']; [|lia].
    pose proof (Hl s (rank_of us r + 1)) as Hb. destruct Hb; [|lia].
    eapply rw_step; [by apply Hw|exact (Hcab _ _ _ _ Hc)].
Qed.

Lemma ranked_start us0 us :
  unvisited us0 → ranks_ok nodes S us0 us → nodes_ok S us us ∧ unvisited us.
Proof.
  intros Hu [Hd Hs _ _ _]. split; [by split|]. intros x u Hx. specialize (Hs x). rewrite Hx in Hs.
  destruct (us0 !! x) as [u0|] eqn:E; [|done]. simpl in Hs. injection Hs as _ _ E2.
  rewrite E2. by apply (Hu x).
Qed.

(** The tables, with [P] and [Q] as in [set_min_hop_table_rule]. *)
Lemma build_rule (P Q : gmap Z updn_node → Z → gmap Z osm_switch → Prop)
    connect_roots port_nodes num_roots sws us :
  updn_start sws us → num_roots ≠ 0 →
  (∀ us1, ranks_ok nodes S us us1 →
    (∀ sws sws' t, same_col nodes S sws sws' t → P us1 t sws → P us1 t sws')
    ∧ (∀ sws sws' t, same_col nodes S sws sws' t → Q us1 t sws → Q us1 t sws')
    ∧ (∀ sws us t, shape nodes S sws → col_ok nodes S sws t → P us1 t sws →
         nodes_ok S us1 us → unvisited us → t ∈ S →
         ∃ sws' us', updn_bfs_by_node nodes t (sws, us) = Some (sws', us')
           ∧ bfs_inv nodes S us1 t (Bfs sws' us' [])
           ∧ other_cols nodes S sws t (Bfs sws' us' []) ∧ Q us1 t sws')
    ∧ (∀ t, t ∈ S → kept connect_roots port_nodes us1 (sw_lid nodes t) = true → col_ok nodes S sws t)
    ∧ (∀ t, t ∈ S → P us1 t (clear_sw connect_roots port_nodes us1 <$> sws))) →
  ∃ us1, updn_subn_rank nodes sws us = Some us1 ∧ ranks_ok nodes S us us1
  ∧ ∃ sws' us', updn_build_lid_matrices nodes connect_roots port_nodes num_roots sws us = Some (0, sws', us')
    ∧ shape nodes S sws' ∧ frame sws sws'
    ∧ ∀ t, t ∈ S → col_ok nodes S sws' t ∧ hopc nodes sws' t t 0 = 0 ∧ Q us1 t sws'.
Proof.
  intros [Hlid Hcab Hsh Hrs Hu Hsize] Hnum HPQ.
  destruct (updn_subn_rank_spec nodes S sws Hsh ltac:(lia) us Hrs) as (us1 & Er & Hr).
  destruct (HPQ us1 Hr) as (HP & HQ & Hstep & Hc & HP0).
  destruct (ranked_start us us1 Hu Hr) as [Hn1 Hu1].
  destruct (set_min_hop_table_rule nodes S us1 (P us1) (Q us1) connect_roots port_nodes sws us1
    HP HQ Hstep Hsh Hn1 Hu1 Hc HP0) as (sws' & us' & E & Hsh' & Hf & Hall).
  exists us1. split; [done|]. split; [done|]. exists sws', us'. split; [|by split_and!].
  unfold updn_build_lid_matrices. destruct (Z.eqb_spec num_roots 0); [done|].
  rewrite bool_decide_false.
  - rewrite Er. simpl. by rewrite E.
  - intros ->. pose proof (sh_dom _ _ _ Hsh) as Hd. rewrite dom_empty_L in Hd. subst S.
    rewrite size_empty in Hsize. lia.
Qed.

(** Any ranks: the tables descend. *)
Lemma build_descending connect_roots port_nodes num_roots sws us :
  updn_start sws us → num_roots ≠ 0 → (∀ t, t ∈ S → col_ok nodes S sws t) →
  ∃ sws' us', updn_build_lid_matrices nodes connect_roots port_nodes num_roots sws us = Some (0, sws', us')
    ∧ frame sws sws' ∧ descending nodes S sws' ∧ ∀ t, t ∈ S → hopc nodes sws' t t 0 = 0.
Proof.
  intros Hst Hnum Hc. pose proof Hst as [Hlid Hcab _ _ _ _].
  destruct (build_rule (λ _ _ _, True) (λ _ _ _, True) connect_roots port_nodes num_roots sws us Hst Hnum)
    as (us1 & _ & _ & sws' & us' & E & Hsh' & Hf & Hall).
  { intros us1 _. split_and!; try done; [|by intros t Ht _; apply Hc]. intros sws1 us2 t Hsh1 Hc1 _ Hn2 Hu2 Ht.
    by apply (bfs_by_node_rule nodes S us1 Hlid Hcab sws1 us2 t (λ _, True)). }
  exists sws', us'. split_and!; try done.
  - apply cols_descending; [done|]. intros t Ht. by apply Hall.
  - intros t Ht. by apply Hall.
Qed.

(** A hierarchy: every column is the result of a search in which ranks differ. *)
Lemma build_searched port_nodes num_roots sws us us1 :
  updn_start sws us → num_roots ≠ 0 →
  updn_subn_rank nodes sws us = Some us1 → ranks_differ us1 →
  hierarchy nodes S us1
  ∧ ∃ sws' us', updn_build_lid_matrices nodes false port_nodes num_roots sws us = Some (0, sws', us')
    ∧ frame sws sws' ∧ ∀ t, t ∈ S → searched nodes S us1 sws' t.
Proof.
  intros Hst Hnum Er Hd. pose proof Hst as [Hlid Hcab Hsh Hrs Hu Hsize].
  destruct (updn_subn_rank_spec nodes S sws Hsh ltac:(lia) us Hrs) as (us1' & Er' & Hr).
  rewrite Er in Er'. injection Er' as <-.
  pose proof (ranks_hierarchy _ _ Hcab Hr Hd) as Hh. split; [done|].
  destruct (build_rule
    (λ _ t sws, ∀ s p, s ∈ S → 0 ≤ p < num_physp nodes s → hopc nodes sws s t p = OSM_NO_PATH)
    (λ us1 t sws, ranks_differ us1 → legal_col nodes S us1 t sws)
    false port_nodes num_roots sws us Hst Hnum) as (us2 & Er2 & _ & sws' & us' & E & Hsh' & Hf & Hall).
  { intros us2 Hr2. split_and!.
    - intros s1 s2 t Hsame Hp s p Hs Hpp. rewrite Hsame by done. by apply Hp.
    - intros s1 s2 t Hsame Hq Hd2. apply (legal_col_same nodes S us2 Hcab s1 s2 t); [|done|by apply Hq].
      intros s Hs. by apply (np_pos nodes S sws s Hsh Hs).
    - intros sws1 us3 t Hsh1 Hc1 Hp1 Hn3 Hu3 Ht.
      destruct (bfs_by_node_rule nodes S us2 Hlid Hcab sws1 us3 t
        (λ st, ranks_differ us2 → leveled nodes S us2 t st) Hsh1 Hc1 Hn3 Hu3 Ht)
        as (sws2 & us4 & E & Hi & Ho & Hlev).
      { intros st g l Hi El Hl Hd2. pose proof (ranks_hierarchy _ _ Hcab Hr2 Hd2) as Hh2.
        apply (visit_leveled nodes S us2 Hlid Hcab Hh2); auto. }
      { intros Hd2. by apply started_leveled. }
      exists sws2, us4. split_and!; try done. intros Hd2. by apply leveled_done with (us := us4), Hlev.
    - by intros t Ht ?.
    - intros t Ht s p Hs Hp. destruct (clear_all nodes S false port_nodes us2 sws Hsh) as (_ & _ & Hcl).
      specialize (Hcl t Ht). simpl in Hcl. by apply Hcl. }
  rewrite Er in Er2. injection Er2 as <-. exists sws', us'. split_and!; [done..|].
  intros t Ht. destruct (Hall t Ht) as (H1 & H2 & H3). split; [done..|]. by apply H3.
Qed.
End Build.

(** ** The setup *)

Section Setup.
Context {BO : ByteOrder}.
Variable S : gset Z.

(** The nodes the algorithm starts from. *)
Definition nodes_start (us : gmap Z updn_node) : Prop := ranks_start S us ∧ unvisited us.

Lemma nodes_start_alter us g f :
  (∀ u, un_visited (f u) = un_visited u ∧ (un_rank (f u) = 0 ∨ un_rank (f u) = un_rank u)) →
  nodes_start us → nodes_start (alter f g us).
Proof.
  intros Hf [[Hd Hr] Hv]. split; [split|].
  - by rewrite dom_alter_L.
  - intros x Hx. specialize (Hr x Hx). unfold rank_of in *.
    destruct (decide (x = g)) as [-> | Hne]; [|by rewrite lookup_alter_ne].
    rewrite lookup_alter_eq. destruct (us !! g) as [u|]; simpl in *; [|by right].
    destruct (Hf u) as [_ [-> | ->]]; auto.
  - intros x u. destruct (decide (x = g)) as [-> | Hne].
    + rewrite lookup_alter_eq. intros (u' & Hu' & ->)%fmap_Some. destruct (Hf u') as [-> _]. by apply (Hv g).
    + rewrite lookup_alter_ne by done. apply Hv.
Qed.

Lemma create_nodes_start (sws : gmap Z osm_switch) :
  dom sws = S → nodes_start (map_imap (λ g _, Some (create_updn_node g)) sws).
Proof.
  intros Hd. assert (Hl : ∀ g, map_imap (λ g _, Some (create_updn_node g)) sws !! g
    = (λ _, create_updn_node g) <$> sws !! g)
    by (intros g; rewrite map_lookup_imap; by destruct (sws !! g)).
  split; [split|].
  - rewrite <-Hd. apply set_eq. intros g. rewrite !elem_of_dom, Hl. by rewrite fmap_is_Some.
  - intros g _. right. unfold rank_of. rewrite Hl. by destruct (sws !! g).
  - intros g u. rewrite Hl. by intros (? & _ & ->)%fmap_Some.
Qed.

Lemma rank_root_node_start sws st guid p :
  nodes_start st.1 → nodes_start (rank_root_node sws st guid p).2.1.
Proof.
  intros H. unfold rank_root_node. case_match; [|done]. by apply nodes_start_alter; [intros u; auto|].
Qed.

Lemma update_id_start sws us guid p : nodes_start us → nodes_start (update_id sws us guid p).2.
Proof.
  intros H. unfold update_id. case_match; [|done]. destruct (strtoull p) as [id e].
  destruct e as [|c e]; [|destruct (is_space c)]; simpl; try done; (apply nodes_start_alter; [intros u; auto|done]).
Qed.

Lemma find_roots_start nodes size ports sws st :
  nodes_start st.1 → nodes_start (updn_find_root_nodes_by_min_hop nodes size ports sws st).1.
Proof.
  intros H. unfold updn_find_root_nodes_by_min_hop. cbv zeta.
  apply (foldl_inv (λ st : gmap Z updn_node * Z, nodes_start st.1)); [|done].
  intros st' e _ H'. case_match; [|done]. by apply nodes_start_alter; [intros u; auto|].
Qed.

(** The subnet a routing engine is called on. *)
Record updn_subnet (nodes : gmap Z osm_node) (sws : gmap Z osm_switch) : Prop := {
  un_lids : lids_distinct nodes S;
  un_cables : cables_ok nodes S;
  un_start : matrix_start nodes S sws;
  un_size : 0 < Z.of_nat (size S) < NO_RANK - 2
}.

Lemma cables_same nodes nodes' s pn r rem :
  same_graph nodes nodes' → cable nodes' S s pn r rem ↔ cable nodes S s pn r rem.
Proof.
  intros Hsame. destruct (Hsame s) as (_ & En & Ew). unfold cable. rewrite En. specialize (Ew pn).
  assert (E : (∃ p, physp_at nodes' s pn = Some p ∧ p_remote_physp p = Some (r, rem))
              ↔ ∃ p, physp_at nodes s pn = Some p ∧ p_remote_physp p = Some (r, rem)); [|by rewrite E].
  destruct (physp_at nodes' s pn) as [p'|], (physp_at nodes s pn) as [p|]; simpl in Ew; try done.
  injection Ew as _ _ _ E. split; intros (q & [= <-] & Hq); eexists; split; [done|congruence|done|congruence].
Qed.

(** What every outcome of the setup has. *)
Record setup_ok (nodes : gmap Z osm_node) (sws0 sws : gmap Z osm_switch) (us : gmap Z updn_node)
    : Prop := {
  so_start : updn_start nodes S sws us;
  so_cols t : t ∈ S → col_ok nodes S sws t;
  so_frame : frame sws0 sws
}.

Lemma setup_plain nodes sws us : updn_subnet nodes sws → nodes_start us → setup_ok nodes sws sws us.
Proof.
  intros [Hl Hc [Hsh Hf] Hs] [Hr Hv]. split; [by split| |done].
  intros t Ht. apply fresh_col_ok; [done|]. intros s p Hs' Hp. by apply (Hf s).
Qed.

Lemma setup_min_hop hop_weights nodes sws us :
  updn_subnet nodes sws → nodes_start us →
  let r := osm_ucast_mgr_build_lid_matrices hop_weights nodes sws in
  setup_ok r.1 sws r.2 us.
Proof.
  intros [Hl Hc Hst Hs] [Hr Hv] r.
  destruct (build_graph_ok hop_weights nodes S sws Hl Hst) as [Hg Hst'].
  destruct (weights_set hop_weights nodes sws) as [Hsame _].
  destruct (build_matrices_inv r.1 S sws Hg Hst') as [Hi _].
  assert (Er : r.2 = build_matrices r.1 sws) by done.
  split; [split|..].
  - apply Hg.
  - intros s pn r' rem. rewrite !(cables_same nodes r.1) by done. apply Hc.
  - rewrite Er. apply Hi.
  - done.
  - done.
  - done.
  - intros t Ht. rewrite Er. by apply matrix_col_ok.
  - rewrite Er. apply build_matrices_frame.
Qed.

Lemma updn_ids_ok opt nodes sws0 sws us :
  setup_ok nodes sws0 sws us → nodes_start us → setup_ok nodes sws0 sws (updn_ids opt sws us).
Proof.
  intros [[A1 A2 A3 _ _ A6] B C] Hn. unfold updn_ids.
  assert (Hn' : nodes_start (match ids_guid_file opt with
    | None => us | Some file => (parse_node_map (update_id sws) file us).2 end)).
  { destruct (ids_guid_file opt) as [file|]; [|done].
    apply parse_node_map_inv; [intros; by apply update_id_start|done]. }
  destruct Hn'. split; [by split|done..].
Qed.

Lemma updn_roots_ok opt nodes sws us :
  updn_subnet nodes sws → nodes_start us →
  let r := updn_roots opt nodes sws us in setup_ok r.1.1 sws r.1.2 r.2.1 ∧ nodes_start r.2.1.
Proof.
  intros Hok H0. unfold updn_roots. cbv zeta.
  set (mh := osm_ucast_mgr_build_lid_matrices (opt_hop_weights opt) nodes sws).
  pose proof (λ us, setup_min_hop (opt_hop_weights opt) nodes sws us Hok) as Hm. fold mh in Hm.
  assert (Hfind : ∀ st, nodes_start st.1 →
    let st' := updn_find_root_nodes_by_min_hop mh.1 (Z.of_nat (length (subn_port_nodes opt)))
                 (subn_ports opt) mh.2 st in setup_ok mh.1 sws mh.2 st'.1 ∧ nodes_start st'.1).
  { intros st Hn st'. pose proof (find_roots_start mh.1 (Z.of_nat (length (subn_port_nodes opt)))
      (subn_ports opt) mh.2 st Hn). split; [by apply Hm|done]. }
  destruct (root_guid_file opt) as [file|]; [|by apply (Hfind (us, 0))].
  assert (Hp : nodes_start (parse_node_map (rank_root_node sws) file (us, 0)).2.1)
    by (apply (parse_node_map_inv _ (λ st : gmap Z updn_node * Z, nodes_start st.1));
        [intros; by apply rank_root_node_start|done]).
  destruct (parse_node_map _ file _) as [ret st]. simpl in Hp.
  destruct (negb (ret =? 0)); [by apply (Hfind st)|].
  destruct (opt_connect_roots opt && (1 <? st.2)); simpl; (split; [|done]).
  - by apply Hm.
  - by apply setup_plain.
Qed.

Lemma updn_setup_spec opt nodes sws :
  updn_subnet nodes sws →
  let '(nodes', sws', (us, _)) := updn_setup opt nodes sws in setup_ok nodes' sws sws' us.
Proof.
  intros Hok. pose proof Hok as [_ _ [Hsh _] _].
  pose proof (create_nodes_start sws (sh_dom _ _ _ Hsh)) as H0. unfold updn_setup.
  destruct (updn_roots_ok opt nodes sws _ Hok H0) as [Hs Hn].
  destruct (updn_roots _ _ _ _) as [[nodes' sws'] [us n]]. by apply updn_ids_ok.
Qed.
End Setup.

(** The engine returns, and its tables descend. *)
Lemma engine_returns {BO : ByteOrder} opt nodes S sws :
  updn_subnet S nodes sws →
  ∃ ret nodes' sws', updn_lid_matrices opt nodes sws = Some (ret, nodes', sws')
    ∧ (ret = 0 ∨ ret = -1) ∧ frame sws sws' ∧ descending nodes' S sws'
    ∧ (ret = 0 → ∀ t, t ∈ S → hopc nodes' sws' t t 0 = 0).
Proof.
  intros Hok. pose proof (updn_setup_spec S opt nodes sws Hok) as Hs. unfold updn_lid_matrices.
  destruct (updn_setup opt nodes sws) as [[nodes1 sws1] [us num_roots]].
  destruct Hs as [Hst Hc Hf].
  assert (Hds : descending nodes1 S sws1) by (apply cols_descending; [apply Hst|done]).
  destruct (decide (num_roots = 0)) as [-> | Hnum].
  { exists (-1), nodes1, sws1. split_and!; try done. by right. }
  destruct (build_descending nodes1 S (opt_connect_roots opt) (subn_port_nodes opt) num_roots sws1 us
    Hst Hnum Hc) as (sws' & us' & E & Hf' & Hd & Hself).
  exists 0, nodes1, sws'. rewrite E. split_and!; try done; [by left|]. intros g. by rewrite Hf'.
Qed.

(** ** Routes *)

(** What the forwarding tables need beside the hop tables: sane ports, each with
    LIDs of its own and attached to a switch, and prepared tables. *)
Record ports_routed {BO : ByteOrder} (opt : route_opts) (nodes : gmap Z osm_node) (S : gset Z)
    (ports : list osm_port) (sws : gmap Z osm_switch) : Prop := {
  pr_lmc : 0 ≤ ro_lmc opt ≤ 7;
  pr_ports : ports_ok ports;
  pr_calls : 128 * Z.of_nat (length ports) < UINT32_MAX - 1;
  pr_wires : wires_ok nodes S;
  pr_tables : tables_ok sws;
  pr_port q : q ∈ ports → 0 ≤ pt_lmc q ≤ ro_lmc opt ∧ ∃ t, attached nodes S q t;
  pr_owner q q' lid : q ∈ ports → q' ∈ ports → in_lids q lid → in_lids q' lid → q' = q;
  pr_max_lid q lid s sw : q ∈ ports → in_lids q lid → sws !! s = Some sw → lid ≤ max_lid_ho sw
}.

Section Routes.
Context {BO : ByteOrder}.
Variable ropt : route_opts.
Variable nodes : gmap Z osm_node.
Variable S : gset Z.
Variable rnd : Z → nat → Z → Z.
Variable ports : list osm_port.
Implicit Types sws : gmap Z osm_switch.

Lemma frame_max_lid sws sws' lid :
  frame sws sws' → (∀ s sw, sws !! s = Some sw → lid ≤ max_lid_ho sw) →
  ∀ s sw, sws' !! s = Some sw → lid ≤ max_lid_ho sw.
Proof.
  intros Hf Hm s sw' Hsw'. specialize (Hf s). rewrite Hsw' in Hf.
  destruct (sws !! s) as [sw|] eqn:E; [|done]. simpl in Hf. injection Hf as _ -> _ _ _ _.
  by eapply Hm.
Qed.

(** Tables that descend route without loops. *)
Lemma descending_forward sws sws' q t lid s :
  ports_routed ropt nodes S ports sws → frame sws sws' → descending nodes S sws' →
  q ∈ ports → attached nodes S q t → in_lids q lid → s ∈ S →
  let sws2 := ucast_mgr_build_lfts ropt nodes S rnd ports sws' in
  let r := forward nodes sws2 lid 256 s in
  r = destination S q
  ∨ ∃ s', s' ∈ S ∧ r = NoRoute s'
      ∧ ((s' = s ∧ hopc nodes sws' s t 0 = OSM_NO_PATH)
         ∨ (s' ≠ t ∧ hopc nodes sws' s' t 0 ≠ OSM_NO_PATH ∧ blocked nodes sws2 t s')).
Proof.
  intros [H1 H2 H3 H4 H5 H6 H7 H8] Hf Hd Hq Hat Hin Hs. pose proof Hat as [Ht _].
  apply (forward_ok ropt nodes S rnd ports H1 H2 H3 sws' q t lid 256 s); try done.
  - by apply (tables_ok_frame sws).
  - by apply H6.
  - intros q' Hq' Hin'. by eapply H7.
  - apply (frame_max_lid sws); [done|]. intros s' sw Hsw. by eapply H8.
  - pose proof (ds_range _ _ _ Hd s t 0 Hs Ht
      ltac:(pose proof (np_pos nodes S _ s (ds_shape _ _ _ Hd) Hs); lia)). lia.
Qed.

(** A route that leads to a switch uses a least-hop port. *)
Lemma route_least sws sws' q t lid s sw2 r rem :
  ports_routed ropt nodes S ports sws → frame sws sws' → descending nodes S sws' →
  q ∈ ports → attached nodes S q t → in_lids q lid →
  ucast_mgr_build_lfts ropt nodes S rnd ports sws' !! s = Some sw2 →
  let e := new_lft sw2 !!! Z.to_nat lid in
  cable nodes S s e r rem →
  s ≠ t ∧ hopc nodes sws' s t e = hopc nodes sws' s t 0 ∧ hopc nodes sws' s t 0 < 255.
Proof.
  intros [H1 H2 H3 H4 H5 H6 H7 H8] Hf Hd Hq Hat Hin Hsw2 e Hc.
  pose proof Hc as (Hs & He & Hr & p & Hp & Hrem). pose proof (ds_shape _ _ _ Hd) as Hsh.
  destruct (shape_lookup nodes S sws' s Hsh Hs) as [sw Hsw].
  unfold ucast_mgr_build_lfts in Hsw2. rewrite map_lookup_imap, Hsw in Hsw2. injection Hsw2 as <-.
  pose proof (route_next_hop ropt nodes S rnd ports H1 H2 H3 sws' q t lid s sw H4 Hd
    (tables_ok_frame _ _ Hf H5) Hq (proj1 (H6 q Hq)) Hat Hin
    ltac:(intros q' Hq' Hin'; by eapply H7) Hsw
    (frame_max_lid sws sws' lid Hf ltac:(intros s' sw' Hsw'; by eapply H8) s sw Hsw)) as Hn.
  unfold next_hop in Hn. fold e in Hn. cbv zeta in Hn.
  pose proof (np_pos nodes S sws' s Hsh Hs).
  destruct Hn as [(_ & [[_ E]|(HqS & _ & _ & p' & num & _ & Hp' & Hr')])
                 |[(Hne & _ & _ & E & p' & r' & rp & Hp' & Hr' & _ & Hlt)|(_ & E & _)]].
  - lia.
  - exfalso. rewrite Hp in Hp'. injection Hp' as <-. rewrite Hrem in Hr'. injection Hr' as -> _. done.
  - split_and!; [done|done|]. unfold OSM_NO_PATH in Hlt. lia.
  - unfold OSM_NO_PATH in E. lia.
Qed.

(** The channels [(switch, port)]: the second is requested by a packet that holds
    the first, on the route to a LID of a port. *)
Definition channel_dep sws2 (c1 c2 : Z * Z) : Prop :=
  ∃ q lid sw1 sw2 rem1 r2 rem2,
    q ∈ ports ∧ in_lids q lid
    ∧ sws2 !! c1.1 = Some sw1 ∧ new_lft sw1 !!! Z.to_nat lid = c1.2
    ∧ cable nodes S c1.1 c1.2 c2.1 rem1
    ∧ sws2 !! c2.1 = Some sw2 ∧ new_lft sw2 !!! Z.to_nat lid = c2.2
    ∧ cable nodes S c2.1 c2.2 r2 rem2.

(** The height of a channel: dependencies only lead to greater ones. *)
Definition channel_height (us : gmap Z updn_node) (c : Z * Z) : Z :=
  match (p ← physp_at nodes c.1 c.2; p_remote_physp p) with
  | Some (r, _) => if rank_of us r <? rank_of us c.1 then - rank_of us c.1 else 1 + rank_of us c.1
  | None => 0
  end.

Lemma channel_height_cable us s e r rem :
  cable nodes S s e r rem →
  channel_height us (s, e) = if rank_of us r <? rank_of us s then - rank_of us s else 1 + rank_of us s.
Proof. intros (_ & _ & _ & p & Hp & Hr). unfold channel_height. simpl. rewrite Hp. simpl. by rewrite Hr. Qed.

Lemma channel_dep_height us sws sws' c1 c2 :
  ports_routed ropt nodes S ports sws → frame sws sws' → cables_ok nodes S → hierarchy nodes S us →
  shape nodes S sws' → (∀ t, t ∈ S → searched nodes S us sws' t) →
  channel_dep (ucast_mgr_build_lfts ropt nodes S rnd ports sws') c1 c2 →
  channel_height us c1 < channel_height us c2.
Proof.
  intros Hp Hf Hcab Hh Hsh Hse (q & lid & sw1 & sw2 & rem1 & r2 & rem2 & Hq & Hin & Hsw1 & E1 & C1 & Hsw2 & E2 & C2).
  destruct c1 as [s e], c2 as [r e']. simpl in *.
  assert (Hd : descending nodes S sws')
    by (apply cols_descending; [done|]; intros t Ht; by apply Hse).
  destruct (pr_port _ _ _ _ _ Hp q Hq) as (_ & t & Hat). pose proof Hat as [Ht _].
  destruct (route_least sws sws' q t lid s sw1 r rem1 Hp Hf Hd Hq Hat Hin Hsw1
    ltac:(by rewrite E1)) as (_ & L1 & L1').
  destruct (route_least sws sws' q t lid r sw2 r2 rem2 Hp Hf Hd Hq Hat Hin Hsw2
    ltac:(by rewrite E2)) as (_ & L2 & L2').
  rewrite E1 in L1. rewrite E2 in L2.
  rewrite (channel_height_cable us s e r rem1 C1), (channel_height_cable us r e' r2 rem2 C2).
  pose proof (searched_turn nodes S us Hh sws' t s e r rem1 e' r2 rem2 (Hse t Ht) Ht C1 C2
    ltac:(lia) L2 L2') as Hturn.
  destruct (Hh _ _ _ _ C1) as [Z1 R1], (Hh _ _ _ _ C2) as [Z2 R2].
  destruct (Z.ltb_spec (rank_of us r) (rank_of us s)), (Z.ltb_spec (rank_of us r2) (rank_of us r)); lia.
Qed.
End Routes.

(** ** What the engine promises *)

(** The graph and the ranks the engine works with; [None] when it finds no root. *)
Definition engine_ranks {BO : ByteOrder} (opt : updn_opts) (nodes : gmap Z osm_node)
    (sws : gmap Z osm_switch) : option (gmap Z osm_node * gmap Z updn_node) :=
  let '(nodes, sws, (us, num_roots)) := updn_setup opt nodes sws in
  if num_roots =? 0 then None else us ← updn_subn_rank nodes sws us; Some (nodes, us).

(** The engine on a hierarchy. *)
Record engine_ok {BO : ByteOrder} (opt : updn_opts) (nodes : gmap Z osm_node) (S : gset Z)
    (sws : gmap Z osm_switch) (nodes1 : gmap Z osm_node) (us : gmap Z updn_node) : Prop := {
  en_subnet : updn_subnet S nodes sws;
  en_connect : opt_connect_roots opt = false;
  en_ranks : engine_ranks opt nodes sws = Some (nodes1, us);
  en_differ : ranks_differ nodes1 S us
}.

Lemma engine_searched {BO : ByteOrder} opt nodes S sws nodes1 us :
  engine_ok opt nodes S sws nodes1 us →
  cables_ok nodes1 S ∧ hierarchy nodes1 S us
  ∧ ∃ sws', updn_lid_matrices opt nodes sws = Some (0, nodes1, sws')
    ∧ frame sws sws' ∧ shape nodes1 S sws' ∧ ∀ t, t ∈ S → searched nodes1 S us sws' t.
Proof.
  intros [Hok Hcr Er Hd]. pose proof (updn_setup_spec S opt nodes sws Hok) as Hs.
  unfold engine_ranks, updn_lid_matrices in *.
  destruct (updn_setup opt nodes sws) as [[nodes2 sws1] [us0 num_roots]].
  destruct (Z.eqb_spec num_roots 0) as [|Hnum]; [done|].
  destruct (updn_subn_rank nodes2 sws1 us0) as [us1|] eqn:Eu; [|done]. simpl in Er.
  injection Er as -> ->. destruct Hs as [Hst _ Hf]. rewrite Hcr.
  destruct (build_searched nodes1 S (subn_port_nodes opt) num_roots sws1 us0 us Hst Hnum Eu Hd)
    as (Hh & sws' & us' & E & Hf' & Hse).
  split; [apply Hst|]. split; [done|]. exists sws'. rewrite E. simpl. split_and!; [done| | |done].
  - intros g. by rewrite Hf'.
  - destruct Hst as [_ _ Hsh _ _ Hsz]. destruct (decide (S = ∅)) as [-> | Hne].
    { rewrite size_empty in Hsz. lia. }
    apply set_choose_L in Hne as [t Ht]. by apply (Hse t Ht).
Qed.

(** C14. Up/Down finds the shortest legal paths.  When no cable joins two switches of
    the same rank, and without [--connect_roots], the least hop count from switch [s] to the LID of switch [t] is
    the length of the shortest path from [t] to [s] that goes up and then down, and
    [OSM_NO_PATH] when there is none of fewer than 255 hops. *)
Theorem updn_shortest_legal {BO : ByteOrder} opt nodes S sws nodes1 us s t :
  engine_ok opt nodes S sws nodes1 us → s ∈ S → t ∈ S →
  ∃ sws' sw, updn_lid_matrices opt nodes sws = Some (0, nodes1, sws') ∧ sws' !! s = Some sw
    ∧ let d := osm_switch_get_least_hops sw (sw_lid nodes1 t) in
      0 ≤ d ≤ OSM_NO_PATH
      ∧ (∀ dir n, updown nodes1 S us t dir s n → d ≤ n)
      ∧ (d < OSM_NO_PATH → ∃ dir, updown nodes1 S us t dir s d).
Proof.
  intros He Hs Ht. destruct (engine_searched _ _ _ _ _ _ He) as (Hcab & Hh & sws' & E & _ & Hsh & Hse).
  destruct (shape_lookup nodes1 S sws' s Hsh Hs) as [sw Hsw].
  pose proof (np_pos nodes1 S sws' s Hsh Hs).
  assert (Hd : osm_switch_get_least_hops sw (sw_lid nodes1 t) = hopc nodes1 sws' s t 0)
    by (unfold hopc; by rewrite Hsw).
  exists sws', sw. split_and!; [done..|]. cbv zeta. rewrite Hd. unfold OSM_NO_PATH. split.
  - apply (co_range _ _ _ _ (se_col _ _ _ _ _ (Hse t Ht)) s 0 Hs). lia.
  - by apply (searched_shortest nodes1 S us Hcab Hh sws' t s (Hse t Ht) Ht Hs).
Qed.

(** C3. Up/Down is free of deadlocks on a hierarchy.  When no cable joins two
    switches of the same rank, with the forwarding tables built from the engine's
    hop tables without [--connect_roots], which is off by default and about which the
    manual warns, whatever the other routing options, the existing tables and the random
    choices, no channel depends on itself, through the routes to the LIDs of all ports:
    no set of packets can wait for each other in a circle. *)
Theorem updn_deadlock_free {BO : ByteOrder} opt nodes S sws nodes1 us ropt rnd ports :
  engine_ok opt nodes S sws nodes1 us → ports_routed ropt nodes1 S ports sws →
  ∃ sws', updn_lid_matrices opt nodes sws = Some (0, nodes1, sws')
    ∧ ∀ c, ¬ tc (channel_dep nodes1 S ports (ucast_mgr_build_lfts ropt nodes1 S rnd ports sws')) c c.
Proof.
  intros He Hp. destruct (engine_searched _ _ _ _ _ _ He) as (Hcab & Hh & sws' & E & Hf & Hsh & Hse).
  exists sws'. split; [done|]. set (dep := channel_dep _ _ _ _).
  assert (Hinc : ∀ c1 c2, tc dep c1 c2 → channel_height nodes1 us c1 < channel_height nodes1 us c2).
  { induction 1 as [c1 c2 Hd|c1 c2 c3 Hd _ IH];
      pose proof (channel_dep_height ropt nodes1 S rnd ports us sws sws' c1 c2 Hp Hf Hcab Hh Hsh Hse Hd); lia. }
  intros c Hc. specialize (Hinc c c Hc). lia.
Qed.

(** Routing by Up/Down has no loops, for any ranks: with the forwarding tables
    built from the engine's hop tables, a packet for a LID of a port is delivered
    within 256 hops, or dropped at its first switch when that has no path, or at a
    switch none of whose least-hop ports is healthy and linked. *)
Theorem updn_loop_free {BO : ByteOrder} opt nodes S sws ropt rnd ports :
  updn_subnet S nodes sws →
  ∃ ret nodes1 sws1, updn_lid_matrices opt nodes sws = Some (ret, nodes1, sws1)
    ∧ (ports_routed ropt nodes1 S ports sws → ∀ q t lid s,
       q ∈ ports → attached nodes1 S q t → in_lids q lid → s ∈ S →
       let sws2 := ucast_mgr_build_lfts ropt nodes1 S rnd ports sws1 in
       let r := forward nodes1 sws2 lid 256 s in
       r = destination S q
       ∨ ∃ s', s' ∈ S ∧ r = NoRoute s'
           ∧ ((s' = s ∧ hopc nodes1 sws1 s t 0 = OSM_NO_PATH)
              ∨ (s' ≠ t ∧ hopc nodes1 sws1 s' t 0 ≠ OSM_NO_PATH ∧ blocked nodes1 sws2 t s'))).
Proof.
  intros Hok. destruct (engine_returns opt nodes S sws Hok) as (ret & nodes1 & sws1 & E & _ & Hf & Hd & _).
  exists ret, nodes1, sws1. split; [done|]. intros Hp q t lid s Hq Hat Hin Hs.
  by apply (descending_forward ropt nodes1 S rnd ports sws sws1 q t lid s).
Qed.

(** C29. Up/Down delivers on a hierarchy, without [--connect_roots]: when the ports of the switches are healthy,
    a packet for a LID of a port attached to switch [t] arrives from every switch
    that a path of fewer than 255 hops, up and then down, joins to [t]. *)
Theorem updn_delivers {BO : ByteOrder} opt nodes S sws nodes1 us ropt rnd ports q t lid s dir n :
  engine_ok opt nodes S sws nodes1 us → ports_routed ropt nodes1 S ports sws →
  (∀ g port p, g ∈ S → physp_at nodes1 g port = Some p → healthy p = true) →
  q ∈ ports → attached nodes1 S q t → in_lids q lid →
  updown nodes1 S us t dir s n → n < OSM_NO_PATH →
  ∃ sws1, updn_lid_matrices opt nodes sws = Some (0, nodes1, sws1)
    ∧ forward nodes1 (ucast_mgr_build_lfts ropt nodes1 S rnd ports sws1) lid 256 s = destination S q.
Proof.
  intros He Hp Hhl Hq Hat Hin Hud Hn. unfold OSM_NO_PATH in Hn. pose proof Hat as [Ht _].
  destruct (engine_searched _ _ _ _ _ _ He) as (Hcab & Hh & sws1 & E & Hf & Hsh & Hse).
  exists sws1. split; [done|].
  destruct (updown_bound nodes1 S us Hcab Hh sws1 t dir s n (Hse t Ht) Ht Hud) as (Hs & _ & Hle & _).
  assert (Hd : descending nodes1 S sws1) by (apply cols_descending; [done|]; intros x Hx; by apply Hse).
  destruct (descending_forward ropt nodes1 S rnd ports sws sws1 q t lid s Hp Hf Hd Hq Hat Hin Hs)
    as [?|(s' & Hs' & _ & [[-> E0]|(Hne & Hn' & Hbl)])]; [done|unfold OSM_NO_PATH in E0; lia|exfalso].
  pose proof (np_pos nodes1 S sws1 s' Hsh Hs'). destruct (Hse t Ht) as [_ Hc _ _].
  pose proof (co_range _ _ _ _ Hc s' 0 Hs' ltac:(lia)). unfold OSM_NO_PATH in Hn'.
  destruct (co_att _ _ _ _ Hc s' Hs' ltac:(lia)) as [?|(port & Hport & Ep)]; [done|].
  destruct (co_desc _ _ _ _ Hc s' port Hs' Hport ltac:(lia)) as (r & rem & (_ & _ & _ & p & Hpp & Hrem) & _).
  revert Hbl. destruct Hp as [P1 P2 P3 P4 P5 _ _ _]. apply (not_blocked _ _ _ _ _ _ _ _ port p); try done.
  - by apply (tables_ok_frame sws).
  - by rewrite (sh_dom _ _ _ Hsh).
  - by eapply Hhl.
  - congruence.
Qed.

(** The Up/Down engine always returns: whatever the root and identifier files
    hold, the ranking and every search end within their fuel.  Whether it was
    applied (0) or not (-1), every least-hop port leads one step closer to its
    target, and nothing but the hop tables has changed. *)
Theorem updn_lid_matrices_total {BO : ByteOrder} opt nodes S sws :
  updn_subnet S nodes sws →
  ∃ ret nodes' sws', updn_lid_matrices opt nodes sws = Some (ret, nodes', sws')
    ∧ (ret = 0 ∨ ret = -1) ∧ frame sws sws' ∧ descending nodes' S sws'
    ∧ (ret = 0 → ∀ t, t ∈ S → hopc nodes' sws' t t 0 = 0).
Proof. exact (engine_returns opt nodes S sws). Qed.
