(* ===== verification/McastUpdn.v ===== *)
(** * Up/Down routes as multicast trees

    On a hierarchy the hop tables of Up/Down ([UpdnRoute.v]) make the first least-hop
    ports form trees ([TreeTables]), so the multicast manager delivers over them. *)

From S2P Require Import Prelude IbTypes CString NodeMap Switch UcastMgr.
From S2P Require Import McastTbl McastMgr McastTree McastBranch McastMgrOk McastSweep.
From S2P Require Import Updn UpdnSearch UpdnRank UpdnLegal UpdnRoute.

Open Scope Z_scope.

Section Tree.
Context {BO : ByteOrder}.
Variable nodes : gmap Z osm_node.
Variable S : gset Z.
Variable us : gmap Z updn_node.
Variable sws : gmap Z osm_switch.

Notation np := (num_physp nodes).
Notation cable := (cable nodes S).
Notation updown := (updown nodes S us).
Notation R g := (rank_of us g).
Notation cell s t p := (hopc nodes sws s t p).
Notation D s t := (hopc nodes sws s t 0).
Notation climbed t x := (climbed nodes us t sws x).

Context (Hcab : cables_ok nodes S) (Hh : hierarchy nodes S us) (Hsh : shape nodes S sws).
Context (Hse : ∀ t, t ∈ S → searched nodes S us sws t).

Lemma ud_zero s t : s ∈ S → t ∈ S → 0 ≤ D s t ≤ 255.
Proof.
  intros Hs Ht. apply (co_range _ _ _ _ (se_col _ _ _ _ _ (Hse t Ht))); [done|].
  pose proof (np_pos nodes S sws s Hsh Hs). lia.
Qed.

Lemma ud_rank s t : s ∈ S → t ∈ S → D s t < 255 → Z.abs (R t - R s) ≤ D s t.
Proof. intros Hs Ht Hlt. by apply (rank_lower nodes S us Hh); [|apply Hse|..]. Qed.

Lemma ud_cable s p r rem : cable s p r rem → s ∈ S ∧ r ∈ S ∧ 1 ≤ p < np s ∧ (R r = R s + 1 ∨ R s = R r + 1).
Proof. intros Hc. pose proof Hc as (Hs & Hp & Hr & _). destruct (Hh _ _ _ _ Hc) as [_ Hrk]. done. Qed.

(** A count and the switch behind its port. *)
Lemma ud_desc s t p r rem : cable s p r rem → t ∈ S → cell s t p < 255 → D r t + 1 ≤ cell s t p.
Proof.
  intros Hc Ht Hlt. destruct (ud_cable _ _ _ _ Hc) as (Hs & _ & Hp & _).
  destruct (co_desc _ _ _ _ (se_col _ _ _ _ _ (Hse t Ht)) s p Hs Hp Hlt) as (r' & rem' & Hc' & Hw).
  by destruct (cable_unique nodes S _ _ _ _ _ _ Hc Hc') as [<- _].
Qed.

Lemma ud_closed s t p r rem :
  cable s p r rem → t ∈ S → D r t < 255 → climbed t r ∨ R r < R s → cell s t p ≤ D r t + 1.
Proof.
  intros Hc Ht Hlt Hor. pose proof (Hcab _ _ _ _ Hc) as Hc'.
  destruct (ud_cable _ _ _ _ Hc') as (Hr & Hs & Hrem & _).
  apply (lc_closed _ _ _ _ _ (se_legal _ _ _ _ _ (Hse t Ht)) r Hr Hlt rem s p); [|done..].
  by apply elem_of_all_ports.
Qed.

Lemma ud_down_climbed s t p r rem : cable s p r rem → t ∈ S → cell s t p < 255 → R s < R r → climbed t r.
Proof. intros Hc Ht. by apply (lc_up _ _ _ _ _ (se_legal _ _ _ _ _ (Hse t Ht)) s p r rem). Qed.

Lemma ud_least s t p : s ∈ S → t ∈ S → 0 ≤ p < np s → D s t ≤ cell s t p.
Proof. intros Hs Ht. by apply (co_least _ _ _ _ (se_col _ _ _ _ _ (Hse t Ht))). Qed.

(** A port that attains the least count is one hop from the end of its cable. *)
Lemma ud_step s t p r rem :
  cable s p r rem → t ∈ S → cell s t p = D s t → D s t < 255 → D s t = D r t + 1.
Proof.
  intros Hc Ht E Hlt. destruct (ud_cable _ _ _ _ Hc) as (Hs & Hr & Hp & Hrk).
  pose proof (ud_desc _ _ _ _ _ Hc Ht ltac:(lia)).
  assert (cell s t p ≤ D r t + 1); [|lia]. apply (ud_closed _ _ _ _ _ Hc Ht); [lia|].
  destruct Hrk as [?|?]; [left|right; lia]. apply (ud_down_climbed _ _ _ _ _ Hc Ht); lia.
Qed.

(** ** Paths put together *)

Lemma updown_ends t d s n : updown t d s n → t ∈ S → s ∈ S ∧ 0 ≤ n ∧ D s t ≤ n ∧ (d = UP → n = R t - R s).
Proof. intros Hu Ht. by apply (updown_bound nodes S us Hcab Hh sws t d s n (Hse t Ht)). Qed.

Lemma updown_rank t d s n : updown t d s n → R s - R t ≤ n ∧ R t - R s ≤ n.
Proof.
  induction 1 as [|s n pn r rem _ IH Hc _|d s n pn r rem _ IH Hc _]; [lia|..];
    destruct (ud_cable _ _ _ _ Hc) as (_ & _ & _ & Hrk); lia.
Qed.

(** Behind a path that only goes up anything can follow. *)
Lemma updown_app_up t x a d s m : updown t UP x a → updown x d s m → updown t d s (a + m).
Proof.
  intros Hu Hd. induction Hd as [Hx|s n pn r rem _ IH Hc Hs|d s n pn r rem _ IH Hc Hs].
  - by rewrite Z.add_0_r.
  - rewrite Z.add_assoc. by eapply ud_up.
  - rewrite Z.add_assoc. by eapply ud_down.
Qed.

(** A path that only goes down can follow anything. *)
Lemma updown_app_down t d0 x a d s m :
  updown t d0 x a → updown x d s m → R s - R x = m → ∃ d', updown t d' s (a + m).
Proof.
  intros Hu Hd. induction Hd as [Hx|s n pn r rem Hd _ Hc Hs|d s n pn r rem Hd IH Hc Hs]; intros E.
  - exists d0. by rewrite Z.add_0_r.
  - pose proof (updown_rank _ _ _ _ Hd). destruct (ud_cable _ _ _ _ Hc) as (_ & _ & _ & Hrk).
    pose proof (proj1 (step_dir_rank nodes S us Hh _ _ _ _ Hc) Hs). lia.
  - destruct (ud_cable _ _ _ _ Hc) as (_ & _ & _ & Hrk).
    pose proof (proj1 (down_rank nodes S us Hh _ _ _ _ Hc) Hs).
    destruct (IH ltac:(lia)) as [d' Hd']. exists DOWN. rewrite Z.add_assoc. by eapply ud_down.
Qed.

Lemma ud_shortest s t : s ∈ S → t ∈ S → D s t < 255 → ∃ d, updown t d s (D s t).
Proof. intros Hs Ht. by apply (searched_shortest nodes S us Hcab Hh sws t s (Hse t Ht) Ht Hs). Qed.

Lemma ud_climbed_path s t : s ∈ S → t ∈ S → D s t < 255 → climbed t s → updown t UP s (D s t).
Proof. intros Hs Ht. by apply (climbed_path nodes S us Hcab Hh sws t s (Hse t Ht) Ht Hs). Qed.

(** ** Routes *)

Lemma ud_route s t p :
  s ∈ S → D s t < 255 →
  mroute nodes sws s t = Some p
  ↔ 1 ≤ p < np s ∧ cell s t p = D s t ∧ ∀ p', 1 ≤ p' < p → cell s t p' ≠ D s t.
Proof. by apply mroute_first. Qed.

(** A switch [x] on the route from [s] to [t], at [n] hops: the way to it is a path of
    its own, and it is all up or the rest is all down. *)
Record on_way (t x s : Z) (n : Z) : Prop := {
  ow_path : ∃ d, updown x d s n ∧ (climbed t s → d = UP);
  ow_split : D s t = n + D x t;
  ow_turn : climbed t x ∨ n = R s - R x
}.

Lemma on_way_route t s x :
  t ∈ S → s ∈ S → D s t < 255 → on_route nodes S sws t s x → ∃ n, on_way t x s n.
Proof.
  intros Ht Hs Hlt H. induction H as [s _|s p r rem x Hne Em Hc H IH].
  { exists 0. split; [exists UP; split; [by constructor|done]|lia|right; lia]. }
  apply ud_route in Em as (Hp & Ep & _); [|done..].
  pose proof (ud_step _ _ _ _ _ Hc Ht Ep Hlt) as Ed. destruct (ud_cable _ _ _ _ Hc) as (_ & Hr & _ & Hrk).
  assert (Hx : x ∈ S) by (by eapply on_route_in).
  destruct (IH Hr ltac:(lia)) as (n & [(d & Hu & Hd) Esp Hturn]).
  destruct (updown_ends _ _ _ _ Hu Hx) as (_ & Hn & _ & Hup). pose proof (Hcab _ _ _ _ Hc) as Hc'.
  pose proof (ud_zero r t Hr Ht). pose proof (ud_zero x t Hx Ht).
  pose proof (ud_rank r t Hr Ht ltac:(lia)). pose proof (ud_rank x t Hx Ht ltac:(lia)).
  unfold UpdnLegal.climbed in *. exists (n + 1). destruct Hrk as [Hrk|Hrk].
  - (* down to [r], and down from there *)
    pose proof (ud_down_climbed _ _ _ _ _ Hc Ht ltac:(lia) ltac:(lia)) as Hcl. unfold UpdnLegal.climbed in Hcl.
    specialize (Hd Hcl) as ->. specialize (Hup eq_refl). split; [|lia|].
    + exists UP. split; [|done]. eapply ud_up; [done|exact Hc'|].
      apply (step_dir_rank nodes S us Hh _ _ _ _ Hc'). lia.
    + left. unfold UpdnLegal.climbed. destruct Hturn as [?|?]; lia.
  - split; [|lia|destruct Hturn; [by left|right; lia]]. exists DOWN. split; [|intros Hcs; unfold UpdnLegal.climbed in Hcs; lia].
    eapply ud_down; [done|exact Hc'|]. apply (down_rank nodes S us Hh _ _ _ _ Hc'). lia.
Qed.

(** The way to [x] is a shortest one. *)
Lemma on_way_count t x s n :
  t ∈ S → x ∈ S → s ∈ S → D s t < 255 → on_way t x s n → D s x = n.
Proof.
  intros Ht Hx Hs Hlt [(d & Hu & _) Esp Hturn].
  destruct (updown_ends _ _ _ _ Hu Hx) as (_ & Hn & Hle & _). pose proof (ud_zero x t Hx Ht).
  pose proof (ud_zero s x Hs Hx). destruct Hturn as [Hcl| ->].
  - destruct (ud_shortest s x Hs Hx ltac:(lia)) as [d' Hd'].
    pose proof (updown_app_up _ _ _ _ _ _ (ud_climbed_path x t Hx Ht ltac:(lia) Hcl) Hd') as Hj.
    destruct (updown_ends _ _ _ _ Hj Ht) as (_ & _ & ? & _). lia.
  - pose proof (ud_rank s x Hs Hx ltac:(lia)). lia.
Qed.

Lemma updn_prefix s t p r rem x :
  t ∈ S → D s t < 255 → s ≠ t → mroute nodes sws s t = Some p → cable s p r rem →
  on_route nodes S sws t r x → mroute nodes sws s x = Some p.
Proof.
  intros Ht Hlt Hne Em Hc H. pose proof Hc as (Hs & _ & Hr & _).
  assert (Hx : x ∈ S) by (by eapply on_route_in).
  assert (Hrt : on_route nodes S sws t s x) by (by eapply or_next).
  pose proof Em as (Hp & Ep & Hfirst)%ud_route; [|done..].
  pose proof (ud_step _ _ _ _ _ Hc Ht Ep Hlt) as Ed.
  pose proof (ud_zero r t Hr Ht). pose proof (ud_zero x t Hx Ht).
  destruct (on_way_route t s x Ht Hs Hlt Hrt) as (n & Hw).
  destruct (on_way_route t r x Ht Hr ltac:(lia) H) as (m & Hw').
  pose proof (on_way_count t x s n Ht Hx Hs Hlt Hw) as En.
  pose proof (on_way_count t x r m Ht Hx Hr ltac:(lia) Hw') as Em'.
  destruct Hw as [_ Esp Hturn], Hw' as [(d & Hu & Hd) Esp' _].
  destruct (updown_ends _ _ _ _ Hu Hx) as (_ & Hm & _ & Hup).
  apply ud_route; [done|lia|]. split_and!; [lia|lia| |].
  - assert (cell s x p ≤ D r x + 1); [|pose proof (ud_least s x p Hs Hx ltac:(lia)); lia].
    apply (ud_closed _ _ _ _ _ Hc Hx); [lia|].
    destruct (ud_cable _ _ _ _ Hc) as (_ & _ & _ & [Hrk|Hrk]); [left|right; lia].
    unfold UpdnLegal.climbed. rewrite Em'. apply Hup, Hd.
    apply (ud_down_climbed _ _ _ _ _ Hc Ht); lia.
  - intros p' Hp' E'. apply (Hfirst p' Hp').
    destruct (co_desc _ _ _ _ (se_col _ _ _ _ _ (Hse x Hx)) s p' Hs ltac:(lia) ltac:(lia)) as (r' & rem' & Hc2 & Hw2).
    destruct (ud_cable _ _ _ _ Hc2) as (_ & Hr' & _ & Hrk').
    pose proof (ud_zero r' x Hr' Hx). pose proof (ud_least s t p' Hs Ht ltac:(lia)).
    destruct (ud_shortest r' x Hr' Hx ltac:(lia)) as [d' Hd'].
    assert (Hclose : D r' t + 1 ≤ D s t ∧ (climbed t r' ∨ R r' < R s)).
    { destruct Hturn as [Hcl|Hupw].
      - pose proof (updown_app_up _ _ _ _ _ _ (ud_climbed_path x t Hx Ht ltac:(lia) Hcl) Hd') as Hj.
        destruct (updown_ends _ _ _ _ Hj Ht) as (_ & _ & ? & _). split; [lia|].
        destruct Hrk' as [Hrk'|?]; [left|right; lia].
        pose proof (ud_down_climbed _ _ _ _ _ Hc2 Hx ltac:(lia) ltac:(lia)) as Hcl'.
        unfold UpdnLegal.climbed in *. pose proof (ud_rank r' t Hr' Ht ltac:(lia)). lia.
      - pose proof (ud_rank r' x Hr' Hx ltac:(lia)). split; [|right; lia].
        destruct (ud_shortest x t Hx Ht ltac:(lia)) as [d0 Hd0].
        destruct (updown_app_down _ _ _ _ _ _ _ Hd0 Hd' ltac:(lia)) as [d1 Hd1].
        destruct (updown_ends _ _ _ _ Hd1 Ht) as (_ & _ & ? & _). lia. }
    destruct Hclose as [Hle Hor]. pose proof (ud_closed _ _ _ _ _ Hc2 Ht ltac:(lia) Hor). lia.
Qed.

Lemma updn_port s t :
  s ∈ S → t ∈ S → s ≠ t → D s t < 255 →
  ∃ p r rem, mroute nodes sws s t = Some p ∧ cable s p r rem ∧ D r t < D s t.
Proof.
  intros Hs Ht Hne Hlt.
  destruct (co_att _ _ _ _ (se_col _ _ _ _ _ (Hse t Ht)) s Hs Hlt) as [?|(port & Hp & E)]; [done|].
  destruct (mroute_some nodes S sws s t port Hsh Hs Hp E Hlt) as (p & Em).
  pose proof Em as (Hp' & Ep & _)%ud_route; [|done..].
  destruct (co_desc _ _ _ _ (se_col _ _ _ _ _ (Hse t Ht)) s p Hs Hp' ltac:(lia)) as (r & rem & Hc & Hw).
  exists p, r, rem. split_and!; (done || lia).
Qed.

#[export] Instance updn_trees : TreeTables nodes S sws.
Proof. split; [exact Hsh|exact Hcab|exact ud_zero|exact updn_port|exact updn_prefix]. Qed.
End Tree.

(** ** Multicast over Up/Down tables *)

(** C6. Multicast over Up/Down, without [--connect_roots], reaches each member once.  When
    no cable joins two switches of the same rank, some switch has a path up and then down of at most
    61 hops to all ports, and the switches support multicast, [osm_mcast_mgr_process] on the
    engine's hop tables returns for any requests and options, and the blocks it
    sends make the switches carry a packet from any member of a group's MLID to
    every other member, to each exactly once, and to nobody else; no packet loops. *)
Theorem updn_multicast {BO : ByteOrder} opt nodes S sws nodes1 us mcast_cap use_ucast_cache ports
    max_mcast_lid_ho use_mfttop has_mcast_fdb_top switch_mcast_top first_time_master_sweep mlids_init_max
    sm i mbox g q s0 :
  engine_ok opt nodes S sws nodes1 us → mcast_hosts nodes1 S mcast_cap ports →
  s0 ∈ S →
  (∀ g q, ports !! g = Some q → ∃ d n, updown nodes1 S us (home_port nodes1 S q).1 d s0 n ∧ n ≤ 61) →
  mcast_start nodes1 S ports max_mcast_lid_ho sm →
  mboxes sm !! i = Some (Some mbox) → box_port mbox g q →
  ∃ sws' sm' msgs r,
    updn_lid_matrices opt nodes sws = Some (0, nodes1, sws')
    ∧ osm_mcast_mgr_process nodes1 sws' mcast_cap use_ucast_cache use_mfttop has_mcast_fdb_top
        switch_mcast_top first_time_master_sweep mlids_init_max max_mcast_lid_ho true sm = Some (sm', msgs)
    ∧ flood nodes1 S (switch_ports msgs (IB_LID_MCAST_START_HO + Z.of_nat i)) 128
        (home_port nodes1 S q).1 (home_port nodes1 S q).2 = Some r
    ∧ NoDup r ∧ ∀ e, e ∈ r ↔ ∃ g' q', box_port mbox g' q' ∧ q' ≠ q ∧ e = endpoint S q'.
Proof.
  intros He Hm Hs0 Hnear Hst Hi Hb.
  destruct (engine_searched _ _ _ _ _ _ He) as (Hcab & Hh & sws' & E & _ & Hsh & Hse). exists sws'.
  destruct (sweep_delivers nodes1 S sws' mcast_cap use_ucast_cache ports max_mcast_lid_ho use_mfttop
    has_mcast_fdb_top switch_mcast_top first_time_master_sweep mlids_init_max sm i mbox g q)
    as (sm' & msgs & r & H); [|done..|by exists sm', msgs, r].
  apply (mcast_subnet_intro _ _ _ _ _ s0); [by apply (updn_trees nodes1 S us)|done..|].
  intros g' q' Hq'. destruct (Hnear g' q' Hq') as (d & n & Hu & Hn).
  assert (Ht : (home_port nodes1 S q').1 ∈ S) by (apply home_in; by apply (mh_ports _ _ _ _ Hm g')).
  destruct (updown_bound nodes1 S us Hcab Hh sws' _ d s0 n (Hse _ Ht) Ht Hu) as (_ & _ & ? & _). lia.
Qed.
