(* ===== verification/UpdnEx.v ===== *)
(** * Subnets for Up/Down routing

    Checks that turn the assumptions on a subnet into computations, a tree for the
    witnesses of [UpdnRoute.v], and a subnet of one root in which Up/Down leaves a
    cycle of channels. *)

From S2P Require Import Prelude IbTypes CString NodeMap Switch UcastMgr RouteEx.
From S2P Require Import Updn UpdnSearch UpdnRank UpdnLegal UpdnRoute.

Open Scope Z_scope.

#[local] Instance ex_big_endian : ByteOrder := false.

(** ** Checks *)

Section Check.
Variable nodes : gmap Z osm_node.
Variable gs : list Z.      (* the switches *)
Variable max_lid : Z.

Definition guids : gset Z := list_to_set gs.
Definition table : gmap Z osm_switch :=
  list_to_map ((λ g, (g, prepared (num_physp nodes g) max_lid)) <$> gs).

Lemma elem_of_guids g : g ∈ guids ↔ g ∈ gs.
Proof. apply elem_of_list_to_set. Qed.

Lemma table_lookup g sw :
  table !! g = Some sw → g ∈ gs ∧ sw = prepared (num_physp nodes g) max_lid.
Proof.
  unfold table. intros H%elem_of_list_to_map_2.
  apply list_elem_of_fmap in H as (g' & [= -> ->] & Hg). done.
Qed.

Lemma table_dom : dom table = guids.
Proof.
  unfold table, guids. rewrite dom_list_to_map_L. f_equal. rewrite <-list_fmap_compose.
  by rewrite list_fmap_id.
Qed.

Definition sizes_check : bool :=
  (0 <=? max_lid) && (max_lid <=? 0xBFFF)
  && forallb (λ g, (0 <? num_physp nodes g) && (num_physp nodes g <=? 255)
                   && (0 <? sw_lid nodes g) && (sw_lid nodes g <=? max_lid)) gs
  && bool_decide (NoDup (sw_lid nodes <$> gs)).

Lemma sizes_check_spec :
  sizes_check = true →
  0 ≤ max_lid ≤ 0xBFFF ∧ (∀ g, g ∈ gs → 0 < num_physp nodes g ≤ 255 ∧ 0 < sw_lid nodes g ≤ max_lid)
  ∧ lids_distinct nodes guids.
Proof.
  unfold sizes_check. rewrite !andb_true_iff, !Z.leb_le, forallb_forall, bool_decide_eq_true.
  intros [[[H1 H2] H3] H4]. split_and!; [done|done| |].
  - intros g Hg. apply list_elem_of_In in Hg. specialize (H3 g Hg).
    rewrite !andb_true_iff, !Z.leb_le, !Z.ltb_lt in H3. lia.
  - intros s t Hs%elem_of_guids Ht%elem_of_guids E.
    apply list_elem_of_lookup in Hs as [i Hi]. apply list_elem_of_lookup in Ht as [j Hj].
    assert (i = j) as ->; [|congruence].
    apply (NoDup_lookup _ i j (sw_lid nodes s) H4); rewrite list_lookup_fmap.
    + by rewrite Hi.
    + rewrite Hj. simpl. by rewrite E.
Qed.

Lemma table_start : sizes_check = true → matrix_start nodes guids table ∧ tables_ok table.
Proof.
  intros (Hm & Hg & _)%sizes_check_spec. split; [split; [split|]|].
  - apply table_dom.
  - intros s sw [Hs ->]%table_lookup. by apply prepared_ok; [apply Hg|].
  - intros s sw [Hs ->]%table_lookup. by apply prepared_ok; [apply Hg|].
  - intros s sw t [Hs ->]%table_lookup Ht%elem_of_guids.
    destruct (prepared_ok (num_physp nodes s) max_lid ltac:(by apply Hg) Hm) as (_ & _ & E & _).
    unfold lid_in. rewrite E. by apply Hg.
  - intros s Hs t port Ht Hp. unfold hopc. rewrite <-table_dom in Hs.
    apply elem_of_dom in Hs as [sw Hsw]. rewrite Hsw. simpl. apply table_lookup in Hsw as [Hs ->].
    apply elem_of_guids in Ht. pose proof (Hg t Ht) as [_ Hl].
    apply prepared_ok; [by apply Hg|done|lia|done].
  - intros s sw [Hs ->]%table_lookup.
    destruct (prepared_ok (num_physp nodes s) max_lid ltac:(by apply Hg) Hm)
      as (_ & E1 & E2 & _ & H4 & H5 & H6). rewrite E1. split_and!; [done|done| |done]. lia.
Qed.

(** Every cable of a switch passes a test. *)
Definition cables_check (f : Z → Z → Z → Z → bool) : bool :=
  forallb (λ s, forallb (λ pn,
    match (p ← physp_at nodes s pn; p_remote_physp p) with
    | Some (r, rem) => negb (bool_decide (r ∈ gs)) || f s pn r rem
    | None => true
    end) (seqZ 1 (num_physp nodes s - 1))) gs.

Lemma cables_check_spec f s pn r rem :
  cables_check f = true → cable nodes guids s pn r rem → f s pn r rem = true.
Proof.
  unfold cables_check. rewrite forallb_forall. intros H (Hs%elem_of_guids & Hpn & Hr%elem_of_guids & p & Hp & Hrem).
  specialize (H s ltac:(by apply list_elem_of_In)). rewrite forallb_forall in H.
  specialize (H pn ltac:(apply list_elem_of_In, elem_of_seqZ; lia)). rewrite Hp in H. simpl in H.
  rewrite Hrem in H. by rewrite bool_decide_true in H.
Qed.

Definition back_check (s pn r rem : Z) : bool :=
  (1 <=? rem) && (rem <? num_physp nodes r)
  && bool_decide ((p ← physp_at nodes r rem; p_remote_physp p) = Some (s, pn)).

Lemma cables_ok_check : cables_check back_check = true → cables_ok nodes guids.
Proof.
  intros H s pn r rem Hc. pose proof (cables_check_spec _ _ _ _ _ H Hc) as Hb. unfold back_check in Hb.
  rewrite !andb_true_iff, bool_decide_eq_true, Z.leb_le, Z.ltb_lt in Hb.
  destruct Hb as [Hrem (p & Hp & Hr)%bind_Some]. destruct Hc as (Hs & Hpn & HrS & _).
  split_and!; [done|lia|lia|done|by exists p].
Qed.

Lemma ranks_differ_check us :
  cables_check (λ s _ r _, negb (rank_of us s =? rank_of us r)) = true → ranks_differ nodes guids us.
Proof.
  intros H s pn r rem Hc. pose proof (cables_check_spec _ _ _ _ _ H Hc) as Hb.
  apply negb_true_iff, Z.eqb_neq in Hb. done.
Qed.

Lemma subnet_check :
  sizes_check = true → cables_check back_check = true → 0 < Z.of_nat (size guids) < NO_RANK - 2 →
  updn_subnet guids nodes table.
Proof.
  intros H1 H2 H3. split; [by apply sizes_check_spec|by apply cables_ok_check|by apply table_start|done].
Qed.

(** The switch a port hangs on. *)
Definition attached_check (q : osm_port) : bool :=
  if bool_decide (pt_node q ∈ gs) then cl_ntoh16 (pt_base_lid q) =? sw_lid nodes (pt_node q)
  else
    match (num ← pt_physp q; n ← nodes !! pt_node q; p ← physp_table n !! Z.to_nat num; p_remote_physp p) with
    | Some (t, rem) =>
        bool_decide (t ∈ gs) && (1 <=? rem) && (rem <? OSM_NO_PATH)
        && bool_decide ((p' ← physp_at nodes t rem; p_remote_physp p')
                        = (num ← pt_physp q; Some (pt_node q, num)))
    | None => false
    end.

Lemma attached_check_spec q : attached_check q = true → ∃ t, attached nodes guids q t.
Proof.
  unfold attached_check. destruct (bool_decide_reflect (pt_node q ∈ gs)) as [Hq|Hq].
  - intros E%Z.eqb_eq. exists (pt_node q). split; [by apply elem_of_guids|]. left. done.
  - destruct (pt_physp q) as [num|] eqn:E1; simpl; [|done].
    destruct (nodes !! pt_node q) as [n|] eqn:E2; simpl; [|done].
    destruct (physp_table n !! Z.to_nat num) as [p|] eqn:E3; simpl; [|done].
    destruct (p_remote_physp p) as [[t rem]|] eqn:E4; [|done].
    rewrite !andb_true_iff, !bool_decide_eq_true, Z.leb_le, Z.ltb_lt.
    intros [[[Ht H1] H2] (p' & Hp' & Hr)%bind_Some]. exists t. split; [by apply elem_of_guids|].
    right. split; [by rewrite elem_of_guids|]. exists num, n, p, rem, p'. by split_and!.
Qed.

Variable ports : list osm_port.
Variable ropt : route_opts.

Definition ports_check : bool :=
  (ro_lmc ropt =? 0) && (128 * Z.of_nat (length ports) <? UINT32_MAX - 1)
  && forallb (λ q, (pt_lmc q =? 0) && (0 <? cl_ntoh16 (pt_base_lid q))
                   && (cl_ntoh16 (pt_base_lid q) <=? max_lid) && attached_check q) ports
  && bool_decide (NoDup ((λ q, cl_ntoh16 (pt_base_lid q)) <$> ports))
  && forallb (λ g, match nodes !! g, physp_at nodes g 0 with
                   | Some n, Some p => (Z.of_nat (length (physp_table n)) <=? 255)
                                       && bool_decide (p_remote_physp p = None)
                   | _, _ => false
                   end) gs.

Lemma in_lids_single q lid :
  pt_lmc q = 0 → 0 < cl_ntoh16 (pt_base_lid q) ≤ 0xBFFF → in_lids q lid →
  lid = cl_ntoh16 (pt_base_lid q).
Proof.
  intros E Hb [[H1 H2] _]. unfold port_lid_range in *. simpl in *. rewrite E in H2.
  change (Z.shiftl 1 0) with 1 in H2. rewrite u16_small in H2 by lia. lia.
Qed.

Lemma ports_routed_check :
  sizes_check = true → ports_check = true → ports_routed ropt nodes guids ports table.
Proof.
  intros Hs Hp. destruct (table_start Hs) as [_ Ht]. apply sizes_check_spec in Hs as (Hm & Hg & _).
  unfold ports_check in Hp. rewrite !andb_true_iff, Z.eqb_eq, Z.ltb_lt, bool_decide_eq_true, !forallb_forall in Hp.
  destruct Hp as [[[[E0 Hn] Hq] Hnd] Hw].
  assert (Hq' : ∀ q, q ∈ ports → pt_lmc q = 0 ∧ 0 < cl_ntoh16 (pt_base_lid q) ≤ max_lid
    ∧ attached_check q = true).
  { intros q Hin. apply list_elem_of_In in Hin. specialize (Hq q Hin).
    rewrite !andb_true_iff, Z.eqb_eq, Z.ltb_lt, Z.leb_le in Hq. tauto. }
  split.
  - lia.
  - apply Forall_forall. intros q Hin. destruct (Hq' q Hin). lia.
  - done.
  - intros s Hs%elem_of_guids. specialize (Hw s ltac:(by apply list_elem_of_In)).
    destruct (nodes !! s) as [n|]; [|done]. destruct (physp_at nodes s 0) as [p|]; [|done].
    rewrite andb_true_iff, Z.leb_le, bool_decide_eq_true in Hw. destruct Hw as [Hl Hr].
    split; [intros n' [= <-]; lia|]. by exists p.
  - done.
  - intros q Hin. destruct (Hq' q Hin) as (-> & _ & Ha). split; [lia|]. by apply attached_check_spec.
  - intros q q' lid Hin Hin' Hl Hl'. destruct (Hq' q Hin) as (E1 & B1 & _), (Hq' q' Hin') as (E2 & B2 & _).
    apply in_lids_single in Hl; [|done|lia]. apply in_lids_single in Hl'; [|done|lia].
    apply list_elem_of_lookup in Hin as [i Hi]. apply list_elem_of_lookup in Hin' as [j Hj].
    assert (j = i) as ->; [|congruence].
    apply (NoDup_lookup _ j i lid Hnd); rewrite list_lookup_fmap.
    + rewrite Hj. simpl. by rewrite Hl'.
    + rewrite Hi. simpl. by rewrite Hl.
  - intros q lid s sw Hin Hl [Hs ->]%table_lookup. destruct (Hq' q Hin) as (E1 & B1 & _).
    apply in_lids_single in Hl; [|done|lia].
    destruct (prepared_ok (num_physp nodes s) max_lid ltac:(by apply Hg) Hm) as (_ & _ & -> & _). lia.
Qed.
End Check.

(** ** A tree

    Leaf switches 1 and 2, root switches 3 and 4, a channel adapter, node 5, on
    leaf 1. *)

Definition wired (r rem : Z) : osm_physp := Physp 7 true 1 false (Some (r, rem)).
Definition port0 : osm_physp := Physp 7 true 1 false None.

Definition tree_nodes : gmap Z osm_node :=
  {[ 1 := Node 1 true 1 [port0; wired 3 1; wired 4 1; wired 5 1];
     2 := Node 2 true 2 [port0; wired 3 2; wired 4 2];
     3 := Node 3 true 3 [port0; wired 1 1; wired 2 1];
     4 := Node 4 true 4 [port0; wired 1 2; wired 2 2];
     5 := Node 5 false 0 [Physp 0 true 1 false None; wired 1 3] ]}.

Definition tree_gs : list Z := [1; 2; 3; 4].
Definition tree_table : gmap Z osm_switch := table tree_nodes tree_gs 5.
Definition tree_ca : osm_port := Port 5 (Some 1) 5 0 false None.
Definition tree_ports : list osm_port :=
  ((λ g, Port g (Some 0) g 0 false None) <$> tree_gs) ++ [tree_ca].

(** The root file names switches 3 and 4. *)
Definition tree_opt : updn_opts :=
  UpdnOpts (Some (Some (str "0x3
0x4"))) None false [] tree_ports [].

(** The nodes with their ranks. *)
Definition tree_us : gmap Z updn_node :=
  {[ 1 := UpdnNode 1 UP 1 false; 2 := UpdnNode 2 UP 1 false;
     3 := UpdnNode 3 UP 0 false; 4 := UpdnNode 4 UP 0 false ]}.

Lemma tree_engine : engine_ok tree_opt tree_nodes (guids tree_gs) tree_table tree_nodes tree_us.
Proof.
  split.
  - by apply subnet_check; vm_compute.
  - done.
  - by vm_compute.
  - by apply ranks_differ_check; vm_compute.
Qed.

Lemma tree_routed : ports_routed ex_opts tree_nodes (guids tree_gs) tree_ports tree_table.
Proof. by apply ports_routed_check; vm_compute. Qed.


Lemma tree_subnet : updn_subnet (guids tree_gs) tree_nodes tree_table.
Proof. exact (en_subnet _ _ _ _ _ _ tree_engine). Qed.

Lemma tree_shape : shape tree_nodes (guids tree_gs) tree_table.
Proof. by destruct (un_start _ _ _ tree_subnet). Qed.

Lemma tree_healthy g port p :
  g ∈ guids tree_gs → physp_at tree_nodes g port = Some p → healthy p = true.
Proof.
  assert (H : map_Forall (λ _ n, Forall (λ p, healthy p = true) (physp_table n)) (delete 5 tree_nodes))
    by (eapply (bool_decide_unpack _); by vm_compute).
  intros Hg Hp. assert (g ≠ 5).
  { intros ->. apply elem_of_guids, list_elem_of_In in Hg. simpl in Hg. lia. }
  unfold physp_at in Hp. destruct (tree_nodes !! g) as [n|] eqn:E; [|done]. simpl in Hp.
  assert (Hn : delete 5 tree_nodes !! g = Some n) by (by rewrite lookup_delete_ne).
  specialize (H g n Hn). rewrite Forall_forall in H. unfold osm_node_get_physp_ptr in Hp.
  destruct (physp_table n !! Z.to_nat port) as [q|] eqn:E2; simpl in Hp; [|done].
  case_match; [done|]. injection Hp as ->. eapply H, list_elem_of_lookup_2, E2.
Qed.

Lemma tree_attached : attached tree_nodes (guids tree_gs) tree_ca 1.
Proof.
  split; [by apply elem_of_guids, list_elem_of_In; left|]. right. split.
  - rewrite elem_of_guids. unfold tree_gs. simpl. set_solver.
  - by exists 1, (Node 5 false 0 [Physp 0 true 1 false None; wired 1 3]), (wired 1 3), 3, (wired 5 1).
Qed.

Lemma tree_in_lids : in_lids tree_ca 5.
Proof. split; [split; by vm_compute|by vm_compute]. Qed.

Ltac in_guids := apply elem_of_guids, list_elem_of_In; simpl; tauto.

Lemma tree_cable s pn r rem p :
  s ∈ tree_gs → 1 ≤ pn < num_physp tree_nodes s → r ∈ tree_gs →
  physp_at tree_nodes s pn = Some p → p_remote_physp p = Some (r, rem) →
  cable tree_nodes (guids tree_gs) s pn r rem.
Proof. intros Hs Hpn Hr Hp Hrem. split_and!; [by apply elem_of_guids|lia|lia|by apply elem_of_guids|by exists p]. Qed.

(** From leaf 1 up to root 3 and down to leaf 2. *)
Lemma tree_path : updown tree_nodes (guids tree_gs) tree_us 1 DOWN 2 2.
Proof.
  apply (ud_down _ _ _ 1 UP 3 1 2 2 1); [|apply (tree_cable 3 2 2 1 (wired 2 1)); unfold tree_gs; try set_solver; by vm_compute|done].
  apply (ud_up _ _ _ 1 1 0 1 3 1); [|apply (tree_cable 1 1 3 1 (wired 3 1)); unfold tree_gs; try set_solver; by vm_compute|done].
  apply ud_start. in_guids.
Qed.

(** The nodes before the ranking. *)
Definition tree_us0 : gmap Z updn_node :=
  {[ 1 := UpdnNode 1 UP NO_RANK false; 2 := UpdnNode 2 UP NO_RANK false;
     3 := UpdnNode 3 UP 0 false; 4 := UpdnNode 4 UP 0 false ]}.

Lemma tree_ranks_start : ranks_start (guids tree_gs) tree_us0.
Proof.
  split; [by vm_compute|]. intros g [<- | [<- | [<- | [<- | []]]]]%elem_of_guids%list_elem_of_In;
    vm_compute; auto.
Qed.

Lemma updn_subn_rank_ok_witness :
  ∃ us', updn_subn_rank tree_nodes tree_table tree_us0 = Some us' ∧ rank_of us' 1 ≤ 1.
Proof.
  destruct (updn_subn_rank_ok tree_nodes (guids tree_gs) tree_table tree_us0 tree_shape
    ltac:(by vm_compute) tree_ranks_start) as (us' & E & _ & H).
  exists us'. split; [done|]. apply (H 1); [in_guids|].
  apply (rw_step _ _ _ 3 0 1 1 1); [apply rw_root; [in_guids|done]|].
  apply (tree_cable 3 1 1 1 (wired 1 1)); unfold tree_gs; try set_solver; by vm_compute.
Defined.

Lemma updn_shortest_legal_witness :
  ∃ sws' sw, updn_lid_matrices tree_opt tree_nodes tree_table = Some (0, tree_nodes, sws')
    ∧ sws' !! 2 = Some sw ∧ osm_switch_get_least_hops sw 1 ≤ 2.
Proof.
  destruct (updn_shortest_legal tree_opt tree_nodes (guids tree_gs) tree_table tree_nodes tree_us 2 1
    tree_engine ltac:(in_guids) ltac:(in_guids)) as (sws' & sw & E & Hsw & _ & Hle & _).
  exists sws', sw. split_and!; [done..|]. exact (Hle DOWN 2 tree_path).
Defined.

Lemma updn_deadlock_free_witness :
  ∃ sws', updn_lid_matrices tree_opt tree_nodes tree_table = Some (0, tree_nodes, sws')
    ∧ ∀ c, ¬ tc (channel_dep tree_nodes (guids tree_gs) tree_ports
                  (ucast_mgr_build_lfts ex_opts tree_nodes (guids tree_gs) (λ _ _ _, 0) tree_ports sws')) c c.
Proof.
  exact (updn_deadlock_free tree_opt tree_nodes (guids tree_gs) tree_table tree_nodes tree_us ex_opts
    (λ _ _ _, 0) tree_ports tree_engine tree_routed).
Defined.

Lemma tree_ca_port : tree_ca ∈ tree_ports.
Proof. apply list_elem_of_In. simpl. tauto. Qed.

Lemma updn_loop_free_witness :
  ∃ ret nodes1 sws1, updn_lid_matrices tree_opt tree_nodes tree_table = Some (ret, nodes1, sws1)
    ∧ (ports_routed ex_opts nodes1 (guids tree_gs) tree_ports tree_table →
       attached nodes1 (guids tree_gs) tree_ca 1 →
       let sws2 := ucast_mgr_build_lfts ex_opts nodes1 (guids tree_gs) (λ _ _ _, 0) tree_ports sws1 in
       let r := forward nodes1 sws2 5 256 2 in
       r = destination (guids tree_gs) tree_ca
       ∨ ∃ s', s' ∈ guids tree_gs ∧ r = NoRoute s'
           ∧ ((s' = 2 ∧ hopc nodes1 sws1 2 1 0 = OSM_NO_PATH)
              ∨ (s' ≠ 1 ∧ hopc nodes1 sws1 s' 1 0 ≠ OSM_NO_PATH ∧ blocked nodes1 sws2 1 s'))).
Proof.
  destruct (updn_loop_free tree_opt tree_nodes (guids tree_gs) tree_table ex_opts (λ _ _ _, 0) tree_ports
    tree_subnet) as (ret & nodes1 & sws1 & E & H).
  exists ret, nodes1, sws1. split; [done|]. intros Hp Hat.
  exact (H Hp tree_ca 1 5 2 tree_ca_port Hat tree_in_lids ltac:(in_guids)).
Defined.

Lemma updn_delivers_witness :
  ∃ sws1, updn_lid_matrices tree_opt tree_nodes tree_table = Some (0, tree_nodes, sws1)
    ∧ forward tree_nodes
        (ucast_mgr_build_lfts ex_opts tree_nodes (guids tree_gs) (λ _ _ _, 0) tree_ports sws1) 5 256 2
      = destination (guids tree_gs) tree_ca.
Proof.
  apply (updn_delivers tree_opt tree_nodes (guids tree_gs) tree_table tree_nodes tree_us ex_opts
    (λ _ _ _, 0) tree_ports tree_ca 1 5 2 DOWN 2 tree_engine tree_routed).
  - exact tree_healthy.
  - exact tree_ca_port.
  - exact tree_attached.
  - exact tree_in_lids.
  - exact tree_path.
  - done.
Defined.

Lemma updn_lid_matrices_total_witness :
  ∃ ret nodes' sws', updn_lid_matrices tree_opt tree_nodes tree_table = Some (ret, nodes', sws')
    ∧ (ret = 0 ∨ ret = -1) ∧ frame tree_table sws' ∧ descending nodes' (guids tree_gs) sws'
    ∧ (ret = 0 → ∀ t, t ∈ guids tree_gs → hopc nodes' sws' t t 0 = 0).
Proof. exact (updn_lid_matrices_total tree_opt tree_nodes (guids tree_gs) tree_table tree_subnet). Defined.

(** ** A cycle of channels

    Switch 3 is the only root.  Switches 1 and 4 have rank 1, 2 and 6 and 5 rank 2
    or 3, and two cables join switches of the same rank.  The search from a switch
    keeps one direction and one hop count per switch: a switch first reached going
    down passes its count on as if it could be extended upwards. *)

Definition loop_nodes : gmap Z osm_node :=
  {[ 1 := Node 1 true 1 [port0; wired 2 2; wired 3 1];
     2 := Node 2 true 2 [port0; wired 4 1; wired 1 1; wired 5 1];
     3 := Node 3 true 3 [port0; wired 1 2; wired 4 2];
     4 := Node 4 true 4 [port0; wired 2 1; wired 3 2; wired 6 2; wired 5 2];
     5 := Node 5 true 5 [port0; wired 2 3; wired 4 4; wired 6 1];
     6 := Node 6 true 6 [port0; wired 5 3; wired 4 3] ]}.

Definition loop_gs : list Z := [1; 2; 3; 4; 5; 6].
Definition loop_ports : list osm_port := (λ g, Port g (Some 0) g 0 false None) <$> loop_gs.
Definition loop_opt : updn_opts := UpdnOpts (Some (Some (str "0x3"))) None false [] loop_ports [].
Definition loop_lfts : gmap Z osm_switch :=
  match updn_lid_matrices loop_opt loop_nodes (table loop_nodes loop_gs 6) with
  | Some (_, nodes, sws) =>
      ucast_mgr_build_lfts ex_opts nodes (guids loop_gs) (λ _ _ _, 0) loop_ports sws
  | None => ∅
  end.

Definition dep_check (lfts : gmap Z osm_switch) (lid s e r e' : Z) : bool :=
  bool_decide ((λ sw, new_lft sw !!! Z.to_nat lid) <$> lfts !! s = Some e)
  && bool_decide ((λ sw, new_lft sw !!! Z.to_nat lid) <$> lfts !! r = Some e').

Definition cable_check (s e r : Z) : bool :=
  bool_decide (s ∈ loop_gs) && (1 <=? e) && (e <? num_physp loop_nodes s) && bool_decide (r ∈ loop_gs)
  && match p ← physp_at loop_nodes s e; p_remote_physp p with Some (r', _) => r' =? r | None => false end.

Lemma cable_check_spec s e r :
  cable_check s e r = true → ∃ rem, cable loop_nodes (guids loop_gs) s e r rem.
Proof.
  unfold cable_check. rewrite !andb_true_iff, !bool_decide_eq_true, Z.leb_le, Z.ltb_lt.
  intros [[[[Hs H1] H2] Hr] H]. destruct (physp_at loop_nodes s e) as [p|] eqn:Ep; simpl in H; [|done].
  destruct (p_remote_physp p) as [[r' rem]|] eqn:Er; [|done]. apply Z.eqb_eq in H as ->.
  exists rem. split_and!; [by apply elem_of_guids|lia|lia|by apply elem_of_guids|by exists p].
Qed.

Lemma dep_check_spec lfts lid s e r e' r2 :
  lid ∈ loop_gs → dep_check lfts lid s e r e' = true → cable_check s e r = true → cable_check r e' r2 = true →
  channel_dep loop_nodes (guids loop_gs) loop_ports lfts (s, e) (r, e').
Proof.
  intros Hl H C1 C2. unfold dep_check in H. rewrite andb_true_iff, !bool_decide_eq_true in H.
  destruct H as [(sw1 & Hsw1 & E1)%fmap_Some (sw2 & Hsw2 & E2)%fmap_Some].
  apply cable_check_spec in C1 as [rem1 C1]. apply cable_check_spec in C2 as [rem2 C2].
  exists (Port lid (Some 0) lid 0 false None), lid, sw1, sw2, rem1, r2, rem2.
  split; [apply list_elem_of_fmap; by exists lid|]. split.
  - apply list_elem_of_In in Hl as [<- | [<- | [<- | [<- | [<- | [<- | []]]]]]]; split; [split| |split| |split| |split| |split| |split|]; by vm_compute.
  - exact (conj Hsw1 (conj (eq_sym E1) (conj C1 (conj Hsw2 (conj (eq_sym E2) C2))))).
Qed.

Lemma loop_engine : ∃ sws',
  updn_lid_matrices loop_opt loop_nodes (table loop_nodes loop_gs 6) = Some (0, loop_nodes, sws')
  ∧ loop_lfts = ucast_mgr_build_lfts ex_opts loop_nodes (guids loop_gs) (λ _ _ _, 0) loop_ports sws'.
Proof.
  assert (Hr : (λ x : Z * gmap Z osm_node * gmap Z osm_switch, (x.1.1, x.1.2)) <$>
    updn_lid_matrices loop_opt loop_nodes (table loop_nodes loop_gs 6) = Some (0, loop_nodes))
    by (by vm_compute).
  unfold loop_lfts. revert Hr.
  destruct (updn_lid_matrices loop_opt loop_nodes (table loop_nodes loop_gs 6)) as [[[ret nodes'] sws']|].
  - intros Hr. exists sws'. cbn in Hr. by simplify_eq.
  - intros Hr. by inversion Hr.
Qed.

(** Up/Down leaves a credit loop.  On six switches with one root, healthy links
    and two cables between switches of the same rank, the engine applies Up/Down (0)
    and the forwarding tables make a channel depend on itself: the route to LID 2
    goes from switch 3 to 1 to 2, to LID 6 from 1 to 2 to 4, to LID 3 from 2 to 4 to
    3 and to LID 1 from 4 to 3 to 1; the second turns up after going down. *)
Theorem updn_credit_loop :
  (∃ sws', updn_lid_matrices loop_opt loop_nodes (table loop_nodes loop_gs 6) = Some (0, loop_nodes, sws')
     ∧ loop_lfts = ucast_mgr_build_lfts ex_opts loop_nodes (guids loop_gs) (λ _ _ _, 0) loop_ports sws')
  ∧ updn_subnet (guids loop_gs) loop_nodes (table loop_nodes loop_gs 6)
  ∧ ports_routed ex_opts loop_nodes (guids loop_gs) loop_ports (table loop_nodes loop_gs 6)
  ∧ tc (channel_dep loop_nodes (guids loop_gs) loop_ports loop_lfts) (3, 1) (3, 1).
Proof.
  split_and!.
  - exact loop_engine.
  - by apply subnet_check; vm_compute.
  - by apply ports_routed_check; vm_compute.
  - assert (Hl : ∀ l, bool_decide (l ∈ loop_gs) = true → l ∈ loop_gs) by (intros l; by apply bool_decide_eq_true).
    apply (tc_l _ _ (1, 1)); [by apply (dep_check_spec loop_lfts 2 3 1 1 1 2); [apply Hl|..]; vm_compute|].
    apply (tc_l _ _ (2, 1)); [by apply (dep_check_spec loop_lfts 6 1 1 2 1 4); [apply Hl|..]; vm_compute|].
    apply (tc_l _ _ (4, 2)); [by apply (dep_check_spec loop_lfts 3 2 1 4 2 3); [apply Hl|..]; vm_compute|].
    apply tc_once. by apply (dep_check_spec loop_lfts 1 4 2 3 1 1); [apply Hl|..]; vm_compute.
Qed.
