(* ===== verification/McastEx.v ===== *)
(** * Subnets for multicast

    Checks for the assumptions of the multicast manager, a tree for the witnesses of
    [McastMinHop.v] and [McastUpdn.v], and two subnets on which the tables the
    manager builds carry packets around in circles. *)

From S2P Require Import Prelude IbTypes CString NodeMap Switch UcastMgr RouteEx.
From S2P Require Import McastTbl McastMgr McastTree McastBranch McastMgrOk McastSweep McastMinHop.
From S2P Require Import Updn UpdnSearch UpdnRank UpdnLegal UpdnRoute McastUpdn UpdnEx.

Open Scope Z_scope.

#[local] Existing Instance ex_big_endian.

(** ** Checks *)

Section Check.
Variable nodes : gmap Z osm_node.
Variable gs : list Z.
Variable ports : gmap Z osm_port.

Notation S := (guids gs).

Definition wires_check (g : Z) : bool :=
  match nodes !! g with
  | Some n => (length (physp_table n) <=? 255)%nat
              && match physp_at nodes g 0 with Some p => bool_decide (p_remote_physp p = None) | None => false end
  | None => false
  end.

Definition hosts_check : bool :=
  forallb wires_check gs
  && bool_decide (map_Forall (λ g n, node_is_switch n = bool_decide (g ∈ gs)) nodes)
  && bool_decide (map_Forall (λ _ q, attached_check nodes gs q = true) ports)
  && bool_decide (NoDup ((λ e : Z * osm_port, endpoint S e.2) <$> map_to_list ports)).

Lemma hosts_check_spec cap : hosts_check = true → (∀ s, cap s ≠ 0) → mcast_hosts nodes S cap ports.
Proof.
  unfold hosts_check. rewrite !andb_true_iff, !bool_decide_eq_true, forallb_forall.
  intros [[[Hw Hty] Hp] He] Hcap.
  assert (Hg : ∀ g, g ∈ S → ∃ n, nodes !! g = Some n ∧ (length (physp_table n) ≤ 255)%nat
    ∧ ∃ p, physp_at nodes g 0 = Some p ∧ p_remote_physp p = None).
  { intros g Hin%elem_of_guids%list_elem_of_In. specialize (Hw g Hin). unfold wires_check in Hw.
    destruct (nodes !! g) as [n|] eqn:En; [|done]. apply andb_true_iff in Hw as [Hl Hp0].
    exists n. split; [done|]. split; [by apply Nat.leb_le|].
    destruct (physp_at nodes g 0) as [p|]; [|done]. exists p. split; [done|]. by apply bool_decide_eq_true in Hp0. }
  split.
  - split.
    + intros g Hin. destruct (Hg g Hin) as (n & En & Hl & Hp0). split; [|done]. intros n' En'. congruence.
    + intros g n En. rewrite (Hty g n En), bool_decide_eq_true. by rewrite elem_of_guids.
    + intros g Hin. destruct (Hg g Hin) as (n & En & _). by exists n.
  - intros s _. apply Hcap.
  - intros g q Hq. apply attached_check_spec with (gs := gs), (Hp g q Hq).
  - intros g g' q q' Hq Hq' E. apply elem_of_map_to_list in Hq, Hq'.
    apply list_elem_of_lookup in Hq as [i Hi]. apply list_elem_of_lookup in Hq' as [j Hj].
    assert (i = j) as ->; [|congruence]. apply (NoDup_lookup _ i j (endpoint S q) He); rewrite list_lookup_fmap.
    + by rewrite Hi.
    + rewrite Hj. simpl. by rewrite E.
Qed.

(** Empty tables of 1024 entries, and one MLID with one group. *)
Definition mbox : osm_mgrp_box := MgrpBox IB_LID_MCAST_START_HO [ports] None.
Definition start : osm_sm_mcast :=
  SmMcast (list_to_map ((λ g, (g, osm_mcast_tbl_init (num_physp nodes g) 1024)) <$> gs)) [Some mbox]
    [true] 0 false false.

Lemma start_ok :
  (∀ g, g ∈ gs → 0 < num_physp nodes g ≤ 255) → mcast_start nodes S ports 0xC3FF start.
Proof.
  intros Hnp. split.
  - simpl. rewrite dom_list_to_map_L. unfold guids. f_equal. rewrite <-list_fmap_compose. by rewrite list_fmap_id.
  - simpl. intros s t Ht%elem_of_list_to_map_2. apply list_elem_of_fmap in Ht as (g & [= -> ->] & Hg).
    specialize (Hnp g Hg). split; [by apply init_wf|]. intros p Hp. by apply init_port_ok.
  - done.
  - intros [|i] b Hi; [|destruct i; discriminate Hi]. injection Hi as <-. split_and!; [done|done|].
    intros g q (mgrp & Hm & Hq). apply list_elem_of_singleton in Hm as ->. done.
Qed.
End Check.

(** ** Checks on the graph *)

Section Graph.
Variable nodes : gmap Z osm_node.
Variable gs : list Z.
Variable max_lid : Z.

Notation S := (guids gs).

Definition weights_check : bool :=
  forallb (λ g, forallb (λ pn,
    match physp_at nodes g pn with Some p => (1 <=? hop_wf p) && (hop_wf p <=? 255) | None => true end)
    (seqZ 1 (num_physp nodes g - 1))) gs.

Definition healthy_check (s pn r rem : Z) : bool :=
  match physp_at nodes s pn with Some p => osm_link_is_healthy nodes p | None => false end.

Variable ports : gmap Z osm_port.

Definition near_check (sws : gmap Z osm_switch) (s : Z) : bool :=
  bool_decide (map_Forall (λ _ q, (hopc nodes sws s (home_port nodes S q).1 0 <=? 61) = true) ports).

Lemma near_check_spec sws s g q :
  near_check sws s = true → ports !! g = Some q → hopc nodes sws s (home_port nodes S q).1 0 ≤ 61.
Proof. intros H%bool_decide_eq_true Hq. apply Z.leb_le, (H g q Hq). Qed.

Lemma graph_check : sizes_check nodes gs max_lid = true → weights_check = true → graph_ok nodes S.
Proof.
  intros (_ & _ & Hl)%sizes_check_spec Hw. split; [done|]. intros s port p Hs%elem_of_guids%list_elem_of_In Hp Hpp.
  unfold weights_check in Hw. rewrite forallb_forall in Hw. specialize (Hw s Hs). rewrite forallb_forall in Hw.
  specialize (Hw port ltac:(apply list_elem_of_In, elem_of_seqZ; lia)). rewrite Hpp in Hw. lia.
Qed.

Lemma healthy_check_spec : cables_check nodes gs healthy_check = true → links_healthy nodes S.
Proof.
  intros H s port w h r Hs Hl. destruct (link_cable nodes S s port w h r Hs Hl) as (rem & Hc).
  pose proof (cables_check_spec _ _ _ _ _ _ _ H Hc) as Hb. unfold healthy_check in Hb.
  destruct Hl as (_ & p & rp & Hp & _ & _ & _ & _ & ->). by rewrite Hp in Hb.
Qed.

Lemma minhop_check :
  sizes_check nodes gs max_lid = true → weights_check = true → cables_check nodes gs (back_check nodes) = true →
  cables_check nodes gs healthy_check = true → minhop_subnet nodes S (table nodes gs max_lid).
Proof.
  intros H1 H2 H3 H4. split; [by apply graph_check|by apply table_start|by apply cables_ok_check|].
  by apply healthy_check_spec.
Qed.

Lemma minhop_near_check s :
  minhop_subnet nodes S (table nodes gs max_lid) → (∀ g q, ports !! g = Some q → member nodes S q) → s ∈ S →
  near_check (build_matrices nodes (table nodes gs max_lid)) s = true → minhop_near nodes S ports s.
Proof.
  intros [Hg Hst _ _] Hm Hs Hn g q Hq. pose proof (near_check_spec _ _ _ _ Hn Hq) as Hle.
  destruct (decide (s = (home_port nodes S q).1)) as [|Hne]; [by left|right].
  assert (Ht : (home_port nodes S q).1 ∈ S) by (apply home_in; by apply (Hm g)).
  destruct (build_matrices_shortest nodes S _ s _ Hg Hst Hs Ht) as (_ & _ & Hw & _).
  destruct (Hw Hne) as [l Hl]; [unfold OSM_NO_PATH; lia|]. by eexists l, _.
Qed.
End Graph.

(** ** A tree

    The adapter, leaf 2 and root 4 of the tree of [UpdnEx.v] are members. *)

Definition member_ports : gmap Z osm_port :=
  {[ 5 := tree_ca; 2 := Port 2 (Some 0) 2 0 false None; 4 := Port 4 (Some 0) 4 0 false None ]}.

Lemma tree_hosts : mcast_hosts tree_nodes (guids tree_gs) (λ _, 1024) member_ports.
Proof. by apply hosts_check_spec; [vm_compute|]. Qed.

Lemma tree_start : mcast_start tree_nodes (guids tree_gs) member_ports 0xC3FF (start tree_nodes tree_gs member_ports).
Proof.
  apply start_ok. intros g Hg.
  assert (H : sizes_check tree_nodes tree_gs 5 = true) by (by vm_compute).
  by apply sizes_check_spec in H as (_ & H & _); apply H.
Qed.

Lemma tree_box : mboxes (start tree_nodes tree_gs member_ports) !! 0%nat = Some (Some (mbox member_ports)).
Proof. done. Qed.

Lemma tree_minhop : minhop_subnet tree_nodes (guids tree_gs) tree_table.
Proof. by apply minhop_check; vm_compute. Qed.

Lemma tree_one : 1 ∈ guids tree_gs.
Proof. by apply elem_of_guids, list_elem_of_In; left. Qed.

Lemma tree_near : minhop_near tree_nodes (guids tree_gs) member_ports 1.
Proof.
  apply (minhop_near_check _ _ _ _ _ tree_minhop); [apply (mh_ports _ _ _ _ tree_hosts)|apply tree_one|].
  by vm_compute.
Qed.

Lemma tree_member : box_port (mbox member_ports) 5 tree_ca.
Proof. exists member_ports. by split; [left|]. Qed.

Lemma minhop_multicast_witness :
  ∃ sm' msgs r,
    osm_mcast_mgr_process tree_nodes (build_matrices tree_nodes tree_table) (λ _, 1024) false false
      (λ _, false) (λ _, 0) true 0 0xC3FF true (start tree_nodes tree_gs member_ports) = Some (sm', msgs)
    ∧ flood tree_nodes (guids tree_gs) (switch_ports msgs (IB_LID_MCAST_START_HO + Z.of_nat 0)) 128
        (home_port tree_nodes (guids tree_gs) tree_ca).1 (home_port tree_nodes (guids tree_gs) tree_ca).2 = Some r
    ∧ NoDup r ∧ ∀ e, e ∈ r ↔ ∃ g' q', box_port (mbox member_ports) g' q' ∧ q' ≠ tree_ca ∧ e = endpoint (guids tree_gs) q'.
Proof.
  pose proof (minhop_multicast tree_nodes (guids tree_gs) tree_table (λ _, 1024) false member_ports 0xC3FF
    false (λ _, false) (λ _, 0) true 0 (start tree_nodes tree_gs member_ports) 0 (mbox member_ports) 5 tree_ca 1) as H.
  exact (H tree_minhop tree_hosts tree_one tree_near tree_start tree_box tree_member).
Defined.

Lemma tree_updn_table :
  from_option (λ x : Z * gmap Z osm_node * gmap Z osm_switch, near_check tree_nodes tree_gs member_ports x.2 1) false
    (updn_lid_matrices tree_opt tree_nodes tree_table) = true.
Proof. by vm_compute. Qed.

Lemma tree_updn_near g q :
  member_ports !! g = Some q →
  ∃ d n, updown tree_nodes (guids tree_gs) tree_us (home_port tree_nodes (guids tree_gs) q).1 d 1 n ∧ n ≤ 61.
Proof.
  intros Hq. destruct (engine_searched _ _ _ _ _ _ tree_engine) as (Hcab & Hh & sws' & E & _ & Hsh & Hse).
  pose proof tree_updn_table as Hn. rewrite E in Hn. cbn in Hn.
  pose proof (near_check_spec _ _ _ _ _ _ _ Hn Hq) as Hle.
  assert (Ht : (home_port tree_nodes (guids tree_gs) q).1 ∈ guids tree_gs)
    by (apply home_in; by apply (mh_ports _ _ _ _ tree_hosts g)).
  destruct (searched_shortest tree_nodes (guids tree_gs) tree_us Hcab Hh sws' _ 1 (Hse _ Ht) Ht tree_one) as [_ Hp].
  destruct (Hp (Z.le_lt_trans _ 61 255 Hle eq_refl)) as [d Hd]. exact (ex_intro _ d (ex_intro _ _ (conj Hd Hle))).
Qed.

Lemma updn_multicast_witness :
  ∃ sws' sm' msgs r,
    updn_lid_matrices tree_opt tree_nodes tree_table = Some (0, tree_nodes, sws')
    ∧ osm_mcast_mgr_process tree_nodes sws' (λ _, 1024) false false (λ _, false) (λ _, 0) true 0 0xC3FF true
        (start tree_nodes tree_gs member_ports) = Some (sm', msgs)
    ∧ flood tree_nodes (guids tree_gs) (switch_ports msgs (IB_LID_MCAST_START_HO + Z.of_nat 0)) 128
        (home_port tree_nodes (guids tree_gs) tree_ca).1 (home_port tree_nodes (guids tree_gs) tree_ca).2 = Some r
    ∧ NoDup r ∧ ∀ e, e ∈ r ↔ ∃ g' q', box_port (mbox member_ports) g' q' ∧ q' ≠ tree_ca ∧ e = endpoint (guids tree_gs) q'.
Proof.
  pose proof (updn_multicast tree_opt tree_nodes (guids tree_gs) tree_table tree_nodes tree_us (λ _, 1024) false
    member_ports 0xC3FF false (λ _, false) (λ _, 0) true 0 (start tree_nodes tree_gs member_ports) 0
    (mbox member_ports) 5 tree_ca 1) as H.
  exact (H tree_engine tree_hosts tree_one tree_updn_near tree_start tree_box tree_member).
Defined.

(** ** Packets in circles *)

(** The receivers of a packet that starts at port 0 of a switch. *)
Section Circle.
Variable nodes : gmap Z osm_node.
Variable gs : list Z.

Definition mhop_check (f : Z → Z → bool) (x y : Z * Z) : bool :=
  existsb (λ p, f x.1 p && negb (p =? x.2) && bool_decide (mcast_remote nodes x.1 p = Some y)
                && bool_decide (y.1 ∈ gs)) (seqZ 1 (num_physp nodes x.1 - 1)).

Definition circle_check (f : Z → Z → bool) (X : list (Z * Z)) : bool :=
  forallb (λ x, existsb (mhop_check f x) X) X.

Lemma circle_check_spec f X :
  circle_check f X = true → ∀ n x, x ∈ X → flood nodes (guids gs) f n x.1 x.2 = None.
Proof.
  unfold circle_check. rewrite forallb_forall. intros H. apply flood_circle. intros x Hx%list_elem_of_In.
  specialize (H x Hx). apply existsb_exists in H as (y & Hy & (p & Hp & Hh)%existsb_exists).
  exists y. split; [by apply list_elem_of_In|]. rewrite !andb_true_iff, !bool_decide_eq_true, negb_true_iff, Z.eqb_neq in Hh.
  destruct Hh as [[[H1 H2] H3] H4]. apply list_elem_of_In, elem_of_seqZ in Hp.
  exists p. split_and!; (done || lia || by apply elem_of_guids).
Qed.
End Circle.

Definition circle_nodes : gmap Z osm_node :=
  {[ 1 := Node 1 true 1 [port0; wired 2 1; wired 5 2; wired 4 1];
     2 := Node 2 true 2 [port0; wired 1 1; wired 6 2; wired 3 1];
     3 := Node 3 true 3 [port0; wired 2 3; wired 6 4; wired 7 1];
     4 := Node 4 true 4 [port0; wired 1 3; wired 6 1];
     5 := Node 5 true 5 [port0; wired 8 1; wired 1 2];
     6 := Node 6 true 6 [port0; wired 4 2; wired 2 2; wired 7 2; wired 3 2];
     7 := Node 7 true 7 [port0; wired 3 3; wired 6 3];
     8 := Node 8 true 8 [port0; wired 5 1] ]}.
Definition circle_gs : list Z := [1; 2; 3; 4; 5; 6; 7; 8].
Definition switch_port (g : Z) : osm_port := Port g (Some 0) g 0 false None.
Definition circle_opt : updn_opts :=
  UpdnOpts (Some (Some (str "0x4"))) None false [] (switch_port <$> circle_gs) [].
Definition circle_ports : gmap Z osm_port :=
  list_to_map ((λ g, (g, switch_port g)) <$> [1; 3; 6; 7; 8]).
(** The packets that go around: as they leave the members, and as they arrive. *)
Definition circle_states : list (Z * Z) :=
  [(1, 0); (3, 0); (6, 0); (7, 0); (8, 0); (2, 1); (6, 2); (4, 2); (1, 3); (5, 1); (1, 2); (2, 3); (6, 3)].

Definition circle_run_check : bool :=
  match updn_lid_matrices circle_opt circle_nodes (table circle_nodes circle_gs 8) with
  | Some (_, sws) =>
      match osm_mcast_mgr_process circle_nodes sws (λ _, 1024) false false (λ _, false) (λ _, 0) true 0 0xC3FF
              true (start circle_nodes circle_gs circle_ports) with
      | Some (_, msgs) =>
          circle_check circle_nodes circle_gs (switch_ports msgs (IB_LID_MCAST_START_HO + Z.of_nat 0)) circle_states
      | None => false
      end
  | None => false
  end.

Lemma circle_runs :
  (λ x : Z * gmap Z osm_node * gmap Z osm_switch, (x.1.1, x.1.2)) <$>
    updn_lid_matrices circle_opt circle_nodes (table circle_nodes circle_gs 8) = Some (0, circle_nodes) →
  circle_run_check = true →
  ∃ sws' sm' msgs,
    updn_lid_matrices circle_opt circle_nodes (table circle_nodes circle_gs 8) = Some (0, circle_nodes, sws')
    ∧ osm_mcast_mgr_process circle_nodes sws' (λ _, 1024) false false (λ _, false) (λ _, 0) true 0 0xC3FF true
        (start circle_nodes circle_gs circle_ports) = Some (sm', msgs)
    ∧ ∀ n x, x ∈ circle_states →
        flood circle_nodes (guids circle_gs) (switch_ports msgs (IB_LID_MCAST_START_HO + Z.of_nat 0)) n x.1 x.2 = None.
Proof.
  unfold circle_run_check.
  destruct (updn_lid_matrices circle_opt circle_nodes (table circle_nodes circle_gs 8)) as [[[ret nodes'] sws']|];
    [|discriminate].
  intros Hr H. cbn in Hr. simplify_eq. exists sws'. revert H.
  destruct (osm_mcast_mgr_process circle_nodes sws' (λ _, 1024) false false (λ _, false) (λ _, 0) true 0 0xC3FF true
    (start circle_nodes circle_gs circle_ports)) as [[sm' msgs]|]; [|discriminate].
  intros H. exists sm', msgs. split; [exact eq_refl|]. split; [exact eq_refl|]. exact (circle_check_spec _ _ _ _ H).
Qed.

Lemma circle_hosts : mcast_hosts circle_nodes (guids circle_gs) (λ _, 1024) circle_ports.
Proof. by apply hosts_check_spec; [vm_compute|]. Qed.

Lemma circle_start :
  mcast_start circle_nodes (guids circle_gs) circle_ports 0xC3FF (start circle_nodes circle_gs circle_ports).
Proof.
  apply start_ok. intros g Hg.
  assert (H : sizes_check circle_nodes circle_gs 8 = true) by (by vm_compute).
  by apply sizes_check_spec in H as (_ & H & _); apply H.
Qed.

(** Multicast over Up/Down can loop.  On eight switches with one root, healthy
    links and cables between switches of the same rank, all of which support
    multicast, the tables the manager builds for a group of five switches carry the
    packets of every member around the cables of switches 1, 2, 6 and 4 for ever,
    although every switch forwards by its first least-hop port. *)
Theorem updn_multicast_loop :
  updn_subnet (guids circle_gs) circle_nodes (table circle_nodes circle_gs 8)
  ∧ links_healthy circle_nodes (guids circle_gs)
  ∧ mcast_hosts circle_nodes (guids circle_gs) (λ _, 1024) circle_ports
  ∧ mcast_start circle_nodes (guids circle_gs) circle_ports 0xC3FF (start circle_nodes circle_gs circle_ports)
  ∧ ∃ sws' sm' msgs,
    updn_lid_matrices circle_opt circle_nodes (table circle_nodes circle_gs 8) = Some (0, circle_nodes, sws')
    ∧ osm_mcast_mgr_process circle_nodes sws' (λ _, 1024) false false (λ _, false) (λ _, 0) true 0 0xC3FF true
        (start circle_nodes circle_gs circle_ports) = Some (sm', msgs)
    ∧ ∀ g, g ∈ [1; 3; 6; 7; 8] →
        box_port (mbox circle_ports) g (switch_port g)
        ∧ home_port circle_nodes (guids circle_gs) (switch_port g) = (g, 0)
        ∧ ∀ n, flood circle_nodes (guids circle_gs) (switch_ports msgs (IB_LID_MCAST_START_HO + Z.of_nat 0)) n g 0
               = None.
Proof.
  split; [by apply subnet_check; vm_compute|]. split; [apply healthy_check_spec; by vm_compute|].
  split; [exact circle_hosts|]. split; [exact circle_start|].
  destruct (circle_runs ltac:(by vm_compute) ltac:(by vm_compute)) as (sws' & sm' & msgs & E1 & E2 & Hf).
  exists sws', sm', msgs. split; [exact E1|]. split; [exact E2|]. intros g Hg. split; [|split].
  - exists circle_ports. split; [by left|].
    apply list_elem_of_In in Hg as [<- |[<- |[<- |[<- |[<- |[]]]]]]; by vm_compute.
  - apply list_elem_of_In in Hg as [<- |[<- |[<- |[<- |[<- |[]]]]]]; by vm_compute.
  - intros n. apply (Hf n (g, 0)). unfold circle_states.
    apply list_elem_of_In in Hg as [<- |[<- |[<- |[<- |[<- |[]]]]]]; by apply list_elem_of_In; simpl; tauto.
Qed.

(** ** An unhealthy link

    The cable between switches 1 and 3 is unhealthy; the count of switch 1 to its
    neighbour 3 is set all the same, but no count beyond it. *)

Definition sick (r rem : Z) : osm_physp := Physp 7 false 1 false (Some (r, rem)).

Definition sick_nodes : gmap Z osm_node :=
  {[ 1 := Node 1 true 1 [port0; wired 2 1; sick 3 3; wired 5 1];
     2 := Node 2 true 2 [port0; wired 1 1; wired 3 1];
     3 := Node 3 true 3 [port0; wired 2 2; wired 4 1; sick 1 2];
     4 := Node 4 true 4 [port0; wired 3 2];
     5 := Node 5 true 5 [port0; wired 1 3; wired 6 1];
     6 := Node 6 true 6 [port0; wired 5 2; wired 7 1];
     7 := Node 7 true 7 [port0; wired 6 2] ]}.
Definition sick_gs : list Z := [1; 2; 3; 4; 5; 6; 7].
Definition sick_ports : gmap Z osm_port := list_to_map ((λ g, (g, switch_port g)) <$> [3; 4; 7]).
Definition sick_states : list (Z * Z) :=
  [(3, 0); (4, 0); (7, 0); (3, 2); (6, 2); (5, 2); (1, 3); (2, 1); (3, 1); (1, 2); (2, 2); (1, 1); (3, 3)].

Definition sick_run : option (osm_sm_mcast * list mft_msg) :=
  osm_mcast_mgr_process sick_nodes (build_matrices sick_nodes (table sick_nodes sick_gs 7)) (λ _, 1024) false
    false (λ _, false) (λ _, 0) true 0 0xC3FF true (start sick_nodes sick_gs sick_ports).

(** Multicast by least hops can loop over an unhealthy link: the packets of all
    members go around switches 1, 2 and 3. *)
Theorem minhop_multicast_loop :
  graph_ok sick_nodes (guids sick_gs) ∧ matrix_start sick_nodes (guids sick_gs) (table sick_nodes sick_gs 7)
  ∧ cables_ok sick_nodes (guids sick_gs)
  ∧ mcast_hosts sick_nodes (guids sick_gs) (λ _, 1024) sick_ports
  ∧ ∃ sm' msgs, sick_run = Some (sm', msgs)
    ∧ ∀ g, g ∈ [3; 4; 7] →
        home_port sick_nodes (guids sick_gs) (switch_port g) = (g, 0)
        ∧ ∀ n, flood sick_nodes (guids sick_gs) (switch_ports msgs (IB_LID_MCAST_START_HO + Z.of_nat 0)) n g 0 = None.
Proof.
  assert (H1 : sizes_check sick_nodes sick_gs 7 = true) by (by vm_compute).
  split; [by apply (graph_check _ _ 7 H1); vm_compute|]. split; [by apply table_start|].
  split; [by apply cables_ok_check; vm_compute|]. split; [by apply hosts_check_spec; [vm_compute|]|].
  assert (H : from_option (λ x : osm_sm_mcast * list mft_msg,
    circle_check sick_nodes sick_gs (switch_ports x.2 (IB_LID_MCAST_START_HO + Z.of_nat 0)) sick_states) false
    sick_run = true) by (by vm_compute).
  destruct sick_run as [[sm' msgs]|]; [|discriminate H]. exists sm', msgs. split; [exact eq_refl|].
  intros g Hg. split.
  - apply list_elem_of_In in Hg as [<- |[<- |[<- |[]]]]; by vm_compute.
  - intros n. apply (circle_check_spec _ _ _ _ H n (g, 0)). unfold sick_states.
    apply list_elem_of_In in Hg as [<- |[<- |[<- |[]]]]; by apply list_elem_of_In; simpl; tauto.
Qed.
