(* ===== verification/Lash.v ===== *)
(** * LASH routing: [opensm/osm_ucast_lash.c]

    LASH routes along shortest paths and assigns every pair of switches to a virtual
    lane, so that on each lane the channels the routes use do not wait for each other
    in a circle.  For every lane the engine keeps the channel dependency graph (CDG):
    a vertex per channel in use, an edge where a route goes from one channel to the
    next.  A pair is tried on the lanes in turn; [cycle_exists] decides.

    The switches are numbered as in the code; [switches] of [lash_t] is a list.  The
    vertices of a lane live in a store of their own ([verts]), their addresses are
    numbers that are never used again, and the cells of [cdg_vertex_matrix] hold
    addresses.  The result [None] is a use of memory outside an array, of a null
    pointer or of a freed vertex, or a loop that does not end within its fuel.
    Allocations succeed; the option [do_mesh_analysis] is off, except that
    [connect_switches] has both branches. *)

From S2P Require Import Prelude IbTypes Switch UcastMgr.

Open Scope nat_scope.

(** ** Data *)

Definition MAX_INT : Z := 9999.
Definition NONE : Z := MAX_INT.
Definition IB_MAX_NUM_VLS : nat := 16.
Definition OSM_DEFAULT_SL : Z := 0.

Inductive q_state := UNQUEUED | Q_MEMBER | MST_MEMBER.

#[export] Instance q_state_eq_dec : EqDecision q_state.
Proof. solve_decision. Defined.

(** A link of a switch ([osm_mesh.h]); [num_ports] is the length of [l_ports]. *)
Record link_t := Link {
  l_switch_id : nat;
  l_link_id : Z;
  l_next_port : nat;
  l_ports : list Z
}.

#[export] Instance link_t_eta : Eta link_t := λ l,
  Link (l_switch_id l) (l_link_id l) (l_next_port l) (l_ports l).

(** A switch: the links in use (the first [num_links] slots of [node->links]) and an
    [out_link] and a [lane] for every switch. *)
Record switch_t := LashSwitch {
  sw_id : nat;
  used_channels : nat;
  dij_channels : list nat;
  q_st : q_state;
  links : list link_t;
  link_slots : nat;
  routing_table : list (Z * Z)
}.

#[export] Instance switch_t_eta : Eta switch_t := λ s,
  LashSwitch (sw_id s) (used_channels s) (dij_channels s) (q_st s) (links s) (link_slots s)
    (routing_table s).

(** A vertex of the CDG; [deps] has [num_switches - 1] slots. *)
Record cdg_vertex_t := CdgVertex {
  v_from : nat;
  v_to : nat;
  seen : bool;
  temp : bool;
  visiting_number : nat;
  v_next : option nat;
  num_temp_depend : nat;
  num_using_vertex : nat;
  num_deps : nat;
  deps : list (option nat * nat)
}.

#[export] Instance cdg_vertex_t_eta : Eta cdg_vertex_t := λ v,
  CdgVertex (v_from v) (v_to v) (seen v) (temp v) (visiting_number v) (v_next v)
    (num_temp_depend v) (num_using_vertex v) (num_deps v) (deps v).

(** One lane: the store, the next address, and the cells that are not null. *)
Record cdg := Cdg {
  verts : gmap nat cdg_vertex_t;
  next_ptr : nat;
  matrix : gmap (nat * nat) nat
}.

#[export] Instance cdg_eta : Eta cdg := λ c, Cdg (verts c) (next_ptr c) (matrix c).

Definition cdg_empty : cdg := Cdg ∅ 0 ∅.

(** [virtual_location] is zero where the map has no entry; [allocated] says that
    [cdg_vertex_matrix] and [virtual_location] are not freed. *)
Record lash_t := Lash {
  vl_min : nat;
  balance_limit : Z;
  switches : list switch_t;
  cdg_vertex_matrix : list cdg;
  num_mst_in_lane : list Z;
  virtual_location : gmap (nat * nat * nat) Z;
  allocated : bool
}.

#[export] Instance lash_t_eta : Eta lash_t := λ p,
  Lash (vl_min p) (balance_limit p) (switches p) (cdg_vertex_matrix p) (num_mst_in_lane p)
    (virtual_location p) (allocated p).

Notation chan := (nat * nat)%type.

(** Runs a body that may fail over a list. *)
Fixpoint foldM {A S} (f : S → A → option S) (l : list A) (s : S) : option S :=
  match l with
  | [] => Some s
  | a :: l => s ← f s a; foldM f l s
  end.

(** A bound of an array, or an assumption on a pointer. *)
Definition check (b : bool) : option unit := if b then Some () else None.

(** ** Links *)

Section Connect.
Variable do_mesh_analysis : bool.

Definition connect_switches (sws : list switch_t) (sw1 sw2 : nat) (phy_port_1 : Z)
    : option (list switch_t) :=
  s1 ← sws !! sw1;
  match (if do_mesh_analysis then
           if sw1 =? sw2 then Some sws
           else
             '(i, l) ← list_find (λ l, l_switch_id l = sw2) (links s1);
             Some (<[sw1 := s1 <| links := <[i := l <| l_ports := l_ports l ++ [phy_port_1] |>]>
                                             (links s1) |>]> sws)
         else None) with
  | Some sws => Some sws
  | None =>
      let num := length (links s1) in
      _ ← check (num <? link_slots s1);
      let sws1 := <[sw1 := s1 <| links := links s1 ++ [Link sw2 (-1) 0 [phy_port_1]] |>]> sws in
      s2 ← sws !! sw2;
      match list_find (λ l, l_switch_id l = sw1) (links s2) with
      | None => Some sws1
      | Some (i, l2) =>
          s2 ← sws1 !! sw2;
          let sws2 := <[sw2 := s2 <| links := <[i := l2 <| l_link_id := Z.of_nat num |>]>
                                                (links s2) |>]> sws1 in
          s1 ← sws2 !! sw1;
          l ← links s1 !! num;
          Some (<[sw1 := s1 <| links := <[num := l <| l_link_id := Z.of_nat i |>]> (links s1) |>]> sws2)
      end
  end.
End Connect.

(** ** The routing tables *)

Definition out_link (sws : list switch_t) (sw dest : nat) : option Z :=
  s ← sws !! sw; e ← routing_table s !! dest; Some e.1.

Definition get_next_switch (sws : list switch_t) (sw : nat) (link : Z) : option nat :=
  s ← sws !! sw; l ← links s !! Z.to_nat link; Some (l_switch_id l).

(** The first link to the switch, or the number of links. *)
Definition get_phys_connection (sw : switch_t) (switch_to : nat) : Z :=
  match list_find (λ l, l_switch_id l = switch_to) (links sw) with
  | Some (i, _) => Z.of_nat i
  | None => Z.of_nat (length (links sw))
  end.

Definition enqueue (st : list switch_t * list nat) (sw : nat) : option (list switch_t * list nat) :=
  s ← st.1 !! sw;
  Some (<[sw := s <| q_st := Q_MEMBER |>]> st.1, st.2 ++ [sw]).

(** The body of the loop over the links of a dequeued switch. *)
Definition path_link (sw : nat) (st : list switch_t * list nat) (l : link_t)
    : option (list switch_t * list nat) :=
  swi ← st.1 !! l_switch_id l;
  if decide (q_st swi = UNQUEUED) then
    '(sws, bfsq) ← enqueue st (l_switch_id l);
    s ← sws !! sw;
    _ ← check (used_channels s <? length (dij_channels s));
    Some (<[sw := s <| dij_channels := <[used_channels s := sw_id swi]> (dij_channels s) |>
                    <| used_channels := S (used_channels s) |>]> sws, bfsq)
  else Some st.

Fixpoint path_loop (fuel : nat) (st : list switch_t * list nat) : option (list switch_t) :=
  match fuel with
  | O => None
  | S fuel =>
      match st.2 with
      | [] => Some st.1
      | sw :: bfsq =>
          s ← st.1 !! sw;
          let sws := <[sw := s <| q_st := MST_MEMBER |>]> st.1 in
          st ← foldM (path_link sw) (links s) (sws, bfsq);
          path_loop fuel st
      end
  end.

Definition shortest_path (sws : list switch_t) (ir : nat) : option (list switch_t) :=
  st ← enqueue (sws, []) ir;
  path_loop (S (length sws)) st.

(** Sets the links to the destinations of a subtree that have none yet. *)
Definition route_dest (sw next_switch : nat) (sws : list switch_t) (d : nat) : option (list switch_t) :=
  s ← sws !! sw;
  e ← routing_table s !! d;
  if (e.1 =? NONE)%Z then
    Some (<[sw := s <| routing_table :=
            <[d := (get_phys_connection s next_switch, e.2)]> (routing_table s) |>]> sws)
  else Some sws.

(** The destinations in the tree below [sw]; a subtree comes before those of the
    children already done. *)
Fixpoint generate_routing_func_for_mst (fuel : nat) (sws : list switch_t) (sw : nat)
    : option (list switch_t * list nat) :=
  match fuel with
  | O => None
  | S fuel =>
      s ← sws !! sw;
      '(sws, concat_dest) ← foldM (λ '(sws, concat_dest) next_switch,
          '(sws, dest) ← generate_routing_func_for_mst fuel sws next_switch;
          sws ← foldM (route_dest sw next_switch) dest sws;
          Some (sws, dest ++ concat_dest))
        (take (used_channels s) (dij_channels s)) (sws, []);
      Some (sws, sw_id s :: concat_dest)
  end.

(** The first loop of [lash_core]. *)
Definition route_from (sws : list switch_t) (i : nat) : option (list switch_t) :=
  sws ← shortest_path sws i;
  '(sws, _) ← generate_routing_func_for_mst (S (length sws)) sws i;
  Some (map (λ s, s <| used_channels := 0 |> <| q_st := UNQUEUED |>) sws).

Definition lash_routes (sws : list switch_t) : option (list switch_t) :=
  foldM route_from (seq 0 (length sws)) sws.

(** ** The channel dependency graph

    A cell of the matrix outside [num_switches × num_switches] does not exist. *)

Section Cdg.
Variable n : nat.                       (* [num_switches] *)
Variable sws : list switch_t.           (* with their routing tables *)

Definition cell (c : cdg) (ch : chan) : option (option nat) :=
  _ ← check ((ch.1 <? n) && (ch.2 <? n)); Some (matrix c !! ch).

Definition put_vertex (c : cdg) (p : nat) (v : cdg_vertex_t) : cdg :=
  c <| verts := <[p := v]> (verts c) |>.

(** The loop shared by the functions below: [body] for every channel of the route
    from [sw] to [dest_switch]. *)
Fixpoint for_sp {S} (body : S → chan → option S) (fuel sw dest_switch : nat) (st : S) : option S :=
  match fuel with
  | O => None
  | S fuel =>
      if sw =? dest_switch then Some st
      else
        output_link ← out_link sws sw dest_switch;
        next_switch ← get_next_switch sws sw output_link;
        st ← body st (sw, next_switch);
        for_sp body fuel next_switch dest_switch st
  end.

(** [calloc]: a new vertex for the channel. *)
Definition new_vertex (c : cdg) (ch : chan) : nat * cdg :=
  (next_ptr c,
   Cdg (<[next_ptr c := CdgVertex ch.1 ch.2 false true 0 None 0 0 0 (replicate (n - 1) (None, 0))]>
          (verts c))
     (S (next_ptr c)) (<[ch := next_ptr c]> (matrix c))).

(** The dependency of [prev] on the vertex at [v]. *)
Definition add_dep (prev : cdg_vertex_t) (v : nat) : option cdg_vertex_t :=
  let k := num_deps prev in
  _ ← check (k <=? length (deps prev));
  if decide (Some v ∈ (take k (deps prev)).*1) then
    Some (prev <| deps := map (λ e, if decide (e.1 = Some v) then (e.1, S e.2) else e) (take k (deps prev))
                          ++ drop k (deps prev) |>)
  else
    e ← deps prev !! k;
    Some (prev <| deps := <[k := (Some v, S e.2)]> (deps prev) |>
               <| num_deps := S k |>
               <| num_temp_depend := if temp prev then num_temp_depend prev
                                     else S (num_temp_depend prev) |>).

(** The vertex of a channel, new if there is none, with one use more. *)
Definition touch_vertex (c : cdg) (ch : chan) : option (nat * cdg) :=
  o ← cell c ch;
  let '(p, c) := match o with Some p => (p, c) | None => new_vertex c ch end in
  v ← verts c !! p;
  Some (p, put_vertex c p (v <| num_using_vertex := S (num_using_vertex v) |>)).

Definition generate_step (st : cdg * option nat) (ch : chan) : option (cdg * option nat) :=
  '(p, c) ← touch_vertex st.1 ch;
  match st.2 with
  | None => Some (c, Some p)
  | Some q =>
      vq ← verts c !! q;
      vq ← add_dep vq p;
      Some (put_vertex c q vq, Some p)
  end.

Definition generate_cdg_for_sp (c : cdg) (sw dest_switch : nat) : option cdg :=
  '(c, _) ← for_sp generate_step (S n) sw dest_switch (c, None);
  Some c.

(** The vertex of a channel is changed, or freed and its cell cleared. *)
Definition update_vertex (f : cdg_vertex_t → option (option cdg_vertex_t)) (c : cdg) (ch : chan)
    : option cdg :=
  o ← cell c ch;
  p ← o;
  v ← verts c !! p;
  r ← f v;
  match r with
  | None => Some (Cdg (delete p (verts c)) (next_ptr c) (delete ch (matrix c)))
  | Some v => Some (put_vertex c p v)
  end.

Definition set_permanent (v : cdg_vertex_t) : option (option cdg_vertex_t) :=
  Some (Some (if temp v then v <| temp := false |> else v <| num_temp_depend := 0 |>)).

Definition set_temp_depend_to_permanent_for_sp (c : cdg) (sw dest_switch : nat) : option cdg :=
  for_sp (update_vertex set_permanent) (S n) sw dest_switch c.

Definition remove_temp (v : cdg_vertex_t) : option (option cdg_vertex_t) :=
  if temp v then Some None
  else
    _ ← check (num_temp_depend v <=? num_deps v);
    let k := num_deps v - num_temp_depend v in
    Some (Some (v <| num_deps := k |> <| num_temp_depend := 0 |>
                  <| num_using_vertex := num_using_vertex v - 1 |>
                  <| deps := take k (deps v) ++ map (λ e, (e.1, 0)) (drop k (deps v)) |>)).

Definition remove_temp_depend_for_sp (c : cdg) (sw dest_switch : nat) : option cdg :=
  for_sp (update_vertex remove_temp) (S n) sw dest_switch c.

(** One use less of the dependency on the pointer [q]; the last entry that has it
    counts, and a dependency without uses is shifted out. *)
Definition drop_dep (v : cdg_vertex_t) (q : option nat) : option cdg_vertex_t :=
  let k := num_deps v in
  _ ← check (k <=? length (deps v));
  let depend := foldl (λ depend i, if decide (fst <$> deps v !! i = Some q) then i else depend)
                  0 (seq 0 k) in
  e ← deps v !! depend;
  if e.2 =? 1 then
    Some (v <| deps := take depend (deps v) ++ take (k - 1 - depend) (drop (S depend) (deps v))
                       ++ drop (k - 1) (deps v) |>
            <| num_deps := k - 1 |>)
  else Some (v <| deps := <[depend := (e.1, e.2 - 1)]> (deps v) |>).

Definition remove_semipermanent (c : cdg) (dest_switch : nat) (ch : chan) (v : cdg_vertex_t)
    : option (option cdg_vertex_t) :=
  if num_using_vertex v =? 1 then Some None
  else
    let v := v <| num_using_vertex := num_using_vertex v - 1 |> in
    if ch.2 =? dest_switch then Some (Some v)
    else
      next_link ← out_link sws ch.2 dest_switch;
      i_next_next_switch ← get_next_switch sws ch.2 next_link;
      q ← cell c (ch.2, i_next_next_switch);
      v ← drop_dep v q;
      Some (Some v).

Definition remove_semipermanent_depend_for_sp (c : cdg) (sw dest_switch : nat) : option cdg :=
  for_sp (λ c ch, update_vertex (remove_semipermanent c dest_switch ch) c ch) (S n) sw dest_switch c.

(** ** The search for a cycle *)

Definition visit (c : cdg) (current : nat) (visit_num : nat) (prev : option nat) : option cdg :=
  v ← verts c !! current;
  let c := put_vertex c current (v <| visiting_number := visit_num |>) in
  match prev with
  | None => Some c
  | Some p => vp ← verts c !! p; Some (put_vertex c p (vp <| v_next := Some current |>))
  end.

Definition leave (c : cdg) (current : nat) (prev : option nat) : option cdg :=
  v ← verts c !! current;
  let c := put_vertex c current (v <| seen := true |>) in
  match prev with
  | None => Some c
  | Some p => vp ← verts c !! p; Some (put_vertex c p (vp <| v_next := None |>))
  end.

(** The loop over [current->deps], from index [i] on; it ends with the first cycle. *)
Fixpoint deps_loop (rec : nat → cdg → option (bool * cdg)) (k : nat) (current i : nat) (c : cdg)
    : option (bool * cdg) :=
  match k with
  | O => Some (false, c)
  | S k =>
      v ← verts c !! current;
      e ← deps v !! i;
      q ← e.1;
      '(cycle_found, c) ← rec q c;
      if (cycle_found : bool) then Some (true, c) else deps_loop rec k current (S i) c
  end.

(** The branch for a vertex that is not visited yet. *)
Definition explore (rec : nat → cdg → option (bool * cdg)) (prev : option nat) (visit_num : nat)
    (c : cdg) (current : nat) : option (bool * cdg) :=
  c ← visit c current visit_num prev;
  v ← verts c !! current;
  '(cycle_found, c) ← deps_loop rec (num_deps v) current 0 c;
  c ← leave c current prev;
  Some (cycle_found, c).

(** A call with [current] null starts at [start], whether it was visited or not. *)
Fixpoint cycle_exists (fuel : nat) (start : nat) (current prev : option nat) (visit_num : nat) (c : cdg)
    : option (bool * cdg) :=
  match fuel with
  | O => None
  | S fuel =>
      let rec p q c := cycle_exists fuel start (Some q) (Some p) (S visit_num) c in
      match current with
      | None => explore (rec start) prev visit_num c start
      | Some p =>
          v ← verts c !! p;
          if 0 <? visiting_number v then
            Some ((visiting_number v <? visit_num) && negb (seen v), c)
          else explore (rec p) prev visit_num c p
      end
  end.

(** One visit for every vertex, and the call that finds the last one visited. *)
Definition cycle_fuel (c : cdg) : nat := S (S (size (verts c))).

(** The loop that resets the marks of a lane. *)
Definition clear_cell (c : cdg) (ch : chan) : option cdg :=
  o ← cell c ch;
  match o with
  | None => Some c
  | Some p => v ← verts c !! p; Some (put_vertex c p (v <| visiting_number := 0 |> <| seen := false |>))
  end.

Definition clear_marks (c : cdg) : option cdg :=
  foldM clear_cell (list_prod (seq 0 n) (seq 0 n)) c.
End Cdg.

(** ** The assignment of lanes *)

Section Lanes.
Variable n : nat.                       (* [num_switches] *)
Variable start_vl : Z.                  (* [lash_start_vl] *)

(** The routes in both directions tried on one lane: the steps that [lash_core] and
    [balance_virtual_lanes] share. *)
Definition try_lane (sws : list switch_t) (c : cdg) (i dest_switch : nat) : option (bool * cdg) :=
  c ← generate_cdg_for_sp n sws c i dest_switch;
  c ← generate_cdg_for_sp n sws c dest_switch i;
  output_link ← out_link sws i dest_switch;
  output_link2 ← out_link sws dest_switch i;
  i_next_switch ← get_next_switch sws i output_link;
  i_next_switch2 ← get_next_switch sws dest_switch output_link2;
  o ← cell n c (i, i_next_switch); p ← o;
  '(cycle_found, c) ← cycle_exists (cycle_fuel c) p None None 1 c;
  o ← cell n c (dest_switch, i_next_switch2); p ← o;
  '(cycle_found2, c) ← cycle_exists (cycle_fuel c) p None None 1 c;
  c ← clear_marks n c;
  Some (cycle_found || cycle_found2, c).

Definition remove_pair (sws : list switch_t) (c : cdg) (i dest_switch : nat) : option cdg :=
  c ← remove_temp_depend_for_sp n sws c i dest_switch;
  remove_temp_depend_for_sp n sws c dest_switch i.

Definition keep_pair (sws : list switch_t) (c : cdg) (i dest_switch : nat) : option cdg :=
  c ← set_temp_depend_to_permanent_for_sp n sws c i dest_switch;
  set_temp_depend_to_permanent_for_sp n sws c dest_switch i.

Definition set_lane (sws : list switch_t) (sw dest : nat) (lane : Z) : option (list switch_t) :=
  s ← sws !! sw;
  e ← routing_table s !! dest;
  Some (<[sw := s <| routing_table := <[dest := (e.1, lane)]> (routing_table s) |>]> sws).

Definition set_lanes (p_lash : lash_t) (i dest_switch : nat) (lane : Z) : option lash_t :=
  sws ← set_lane (switches p_lash) i dest_switch lane;
  sws ← set_lane sws dest_switch i lane;
  Some (p_lash <| switches := sws |>).

Definition put_cdg (p_lash : lash_t) (lane : nat) (c : cdg) : lash_t :=
  p_lash <| cdg_vertex_matrix := <[lane := c]> (cdg_vertex_matrix p_lash) |>.

(** [num_mst_in_lane[lane]] changes by [k]. *)
Definition count_lane (p_lash : lash_t) (lane : nat) (k : Z) : option lash_t :=
  m ← num_mst_in_lane p_lash !! lane;
  Some (p_lash <| num_mst_in_lane := <[lane := (m + k)%Z]> (num_mst_in_lane p_lash) |>).

Definition location (p_lash : lash_t) (src dest lane : nat) : option Z :=
  _ ← check ((src <? n) && (dest <? n) && (lane <? vl_min p_lash));
  Some (default 0%Z (virtual_location p_lash !! (src, dest, lane))).

Definition set_location (p_lash : lash_t) (src dest lane : nat) (x : Z) : option lash_t :=
  _ ← check ((src <? n) && (dest <? n) && (lane <? vl_min p_lash));
  Some (p_lash <| virtual_location := <[(src, dest, lane) := x]> (virtual_location p_lash) |>).

Definition set_locations (p_lash : lash_t) (src dest lane : nat) (x : Z) : option lash_t :=
  p_lash ← set_location p_lash src dest lane x;
  set_location p_lash dest src lane x.

(** The loop over the lanes from [v_lane] on, [k] of them left; it gives the lane
    reached and [cycle_found == 1 || cycle_found2 == 1]. *)
Fixpoint lane_loop (k : nat) (p_lash : lash_t) (i dest_switch v_lane : nat) (cycle_found : bool)
    : option (lash_t * nat * bool) :=
  match k with
  | O => Some (p_lash, v_lane, cycle_found)
  | S k =>
      c ← cdg_vertex_matrix p_lash !! v_lane;
      '(cycle_found, c) ← try_lane (switches p_lash) c i dest_switch;
      if (cycle_found : bool) then
        c ← remove_pair (switches p_lash) c i dest_switch;
        lane_loop k (put_cdg p_lash v_lane c) i dest_switch (S v_lane) cycle_found
      else
        c ← keep_pair (switches p_lash) c i dest_switch;
        p_lash ← count_lane (put_cdg p_lash v_lane c) v_lane 2;
        Some (p_lash, v_lane, cycle_found)
  end.

Inductive lanes_result :=
  | LanesOk (p_lash : lash_t) (lanes_needed : nat) (switch_bitmap : gset (nat * nat))
  | NotEnoughLanes (p_lash : lash_t).

(** The body of the loops over the pairs of switches. *)
Definition assign_pair (p_lash : lash_t) (lanes_needed : nat) (switch_bitmap : gset (nat * nat))
    (i dest_switch : nat) : option lanes_result :=
  if bool_decide (dest_switch ≠ i) && bool_decide ((i, dest_switch) ∉ switch_bitmap) then
    '(p_lash, v_lane, cycle_found) ← lane_loop lanes_needed p_lash i dest_switch 0 false;
    p_lash ← set_lanes p_lash i dest_switch (Z.of_nat v_lane + start_vl);
    let mark p_lash lanes_needed :=
      p_lash ← set_locations p_lash i dest_switch v_lane 1;
      Some (LanesOk p_lash lanes_needed ({[(i, dest_switch); (dest_switch, i)]} ∪ switch_bitmap)) in
    if (cycle_found : bool) then
      let lanes_needed := S lanes_needed in
      if vl_min p_lash <? lanes_needed then Some (NotEnoughLanes p_lash)
      else
        c ← cdg_vertex_matrix p_lash !! v_lane;
        c ← generate_cdg_for_sp n (switches p_lash) c i dest_switch;
        c ← generate_cdg_for_sp n (switches p_lash) c dest_switch i;
        c ← keep_pair (switches p_lash) c i dest_switch;
        p_lash ← count_lane (put_cdg p_lash v_lane c) v_lane 2;
        mark p_lash lanes_needed
    else mark p_lash lanes_needed
  else Some (LanesOk p_lash lanes_needed switch_bitmap).

Fixpoint assign_pairs (l : list (nat * nat)) (p_lash : lash_t) (lanes_needed : nat)
    (switch_bitmap : gset (nat * nat)) : option lanes_result :=
  match l with
  | [] => Some (LanesOk p_lash lanes_needed switch_bitmap)
  | (i, dest_switch) :: l =>
      r ← assign_pair p_lash lanes_needed switch_bitmap i dest_switch;
      match r with
      | LanesOk p_lash lanes_needed switch_bitmap => assign_pairs l p_lash lanes_needed switch_bitmap
      | NotEnoughLanes _ => Some r
      end
  end.

(** The loops over the pairs, from one lane on. *)
Definition assign_lanes (p_lash : lash_t) : option lanes_result :=
  assign_pairs (list_prod (seq 0 n) (seq 0 n)) p_lash 1 ∅.

(** ** Balancing *)

Variable rnd : nat → Z.                 (* the results of [rand] *)

Definition incr_mod (d : nat) : nat := if d =? n - 1 then 0 else S d.

(** The inner search: the next destination whose cell is 1, or [start] again. *)
Fixpoint scan_dest (fuel : nat) (p_lash : lash_t) (src dest start lane : nat) : option nat :=
  match fuel with
  | O => None
  | S fuel =>
      if dest =? start then Some dest
      else
        x ← location p_lash src dest lane;
        if (x =? 1)%Z then Some dest else scan_dest fuel p_lash src (incr_mod dest) start lane
  end.

Fixpoint scan_pair (fuel : nat) (p_lash : lash_t) (src dest lane : nat) : option (nat * nat) :=
  match fuel with
  | O => None
  | S fuel =>
      x ← location p_lash src dest lane;
      if (x =? 1)%Z then Some (src, dest)
      else
        let start := dest in
        dest ← scan_dest (S n) p_lash src (incr_mod dest) start lane;
        x ← location p_lash src dest lane;
        scan_pair fuel p_lash (if (x =? 1)%Z then src else incr_mod src) dest lane
  end.

(** The variables of the loop; [r] results of [rand] were used. *)
Record balance_state := Balance {
  b_lash : lash_t;
  min_filled_lane : nat;
  max_filled_lane : nat;
  trials : Z;
  rand_used : nat;
  stop : bool
}.

#[export] Instance balance_state_eta : Eta balance_state := λ b,
  Balance (b_lash b) (min_filled_lane b) (max_filled_lane b) (trials b) (rand_used b) (stop b).

(** The pair is moved from the fullest lane to the emptiest, or marked as tried. *)
Definition balance_move (b : balance_state) (src dest : nat) : option balance_state :=
  let p_lash := b_lash b in
  let lmin := min_filled_lane b in
  let lmax := max_filled_lane b in
  let sws := switches p_lash in
  c ← cdg_vertex_matrix p_lash !! lmin;
  '(cycle_found, c) ← try_lane sws c src dest;
  if (cycle_found : bool) then
    c ← remove_pair sws c src dest;
    p_lash ← set_locations (put_cdg p_lash lmin c) src dest lmax 2;
    Some (b <| b_lash := p_lash |> <| trials := (trials b - 2)%Z |>)
  else
    c ← keep_pair sws c src dest;
    p_lash ← count_lane (put_cdg p_lash lmin c) lmax (-2);
    p_lash ← count_lane p_lash lmin 2;
    c ← cdg_vertex_matrix p_lash !! lmax;
    c ← remove_semipermanent_depend_for_sp n sws c src dest;
    c ← remove_semipermanent_depend_for_sp n sws c dest src;
    p_lash ← set_locations (put_cdg p_lash lmax c) src dest lmax 0;
    p_lash ← set_locations p_lash src dest lmin 1;
    p_lash ← set_lanes p_lash src dest (Z.of_nat lmin + start_vl);
    Some (b <| b_lash := p_lash |>).

(** The scans for the emptiest and the fullest lane. *)
Definition emptiest (m : list Z) (lanes_needed old : nat) : nat :=
  (foldl (λ '(x, lane) i, if (m !!! i <? x)%Z then (m !!! i, i) else (x, lane))
     (MAX_INT, old) (seq 0 lanes_needed)).2.

Definition fullest (m : list Z) (lanes_needed old : nat) : nat :=
  (foldl (λ '(x, lane) i, if (x <? m !!! i)%Z then (m !!! i, i) else (x, lane))
     (0%Z, old) (seq 0 lanes_needed)).2.

(** The cells of a lane that are 2 become 1. *)
Definition untry_lane (p_lash : lash_t) (lane : nat) : lash_t :=
  p_lash <| virtual_location :=
    map_imap (λ k x, Some (if decide (k.2 = lane ∧ x = 2%Z) then 1%Z else x)) (virtual_location p_lash) |>.

Definition balance_lanes (lanes_needed : nat) (b : balance_state) : balance_state :=
  let m := num_mst_in_lane (b_lash b) in
  let done :=
    if (trials b =? 0)%Z then true
    else (m !!! max_filled_lane b - m !!! min_filled_lane b <? balance_limit (b_lash b))%Z in
  let new_min := emptiest m lanes_needed (min_filled_lane b) in
  let new_max := fullest m lanes_needed (max_filled_lane b) in
  let b1 :=
    if min_filled_lane b =? new_min then b
    else b <| trials := m !!! new_max |> <| b_lash := untry_lane (b_lash b) new_max |> in
  let b2 :=
    if max_filled_lane b =? new_max then b1
    else b1 <| trials := m !!! new_max |> <| b_lash := untry_lane (b_lash b1) (max_filled_lane b) |> in
  b2 <| min_filled_lane := new_min |> <| max_filled_lane := new_max |> <| stop := done |>.

Definition balance_step (lanes_needed : nat) (b : balance_state) : option balance_state :=
  let src := Z.to_nat (Z.abs (rnd (rand_used b)) mod Z.of_nat n) in
  let dest := Z.to_nat (Z.abs (rnd (S (rand_used b))) mod Z.of_nat n) in
  '(src, dest) ← scan_pair (S (S n)) (b_lash b) src dest (max_filled_lane b);
  b ← balance_move (b <| rand_used := S (S (rand_used b)) |>) src dest;
  Some (balance_lanes lanes_needed b).

Fixpoint balance_loop (fuel : nat) (lanes_needed : nat) (b : balance_state) : option balance_state :=
  if stop b then Some b
  else
    match fuel with
    | O => None
    | S fuel => b ← balance_step lanes_needed b; balance_loop fuel lanes_needed b
    end.

Definition balance_virtual_lanes (fuel : nat) (p_lash : lash_t) (lanes_needed : nat) : option lash_t :=
  m ← num_mst_in_lane p_lash !! 0;
  b ← balance_loop fuel lanes_needed
        (Balance p_lash (lanes_needed - 1) 0 m 0 (lanes_needed =? 1));
  Some (b_lash b).

(** [lash_core]: status and engine; -1 when the lanes do not suffice. *)
Definition lash_core (fuel : nat) (p_lash : lash_t) : option (Z * lash_t) :=
  sws ← lash_routes (switches p_lash);
  r ← assign_lanes (p_lash <| switches := sws |>);
  match r with
  | NotEnoughLanes p_lash => Some ((-1)%Z, p_lash)
  | LanesOk p_lash lanes_needed _ =>
      p_lash ← balance_virtual_lanes fuel p_lash lanes_needed;
      Some (0%Z, p_lash)
  end.
End Lanes.

(** ** The engine's callbacks *)

Section Process.
Context {BO : ByteOrder}.
Variable nodes : gmap Z osm_node.
Variable op_vls : Z → Z → Z.            (* [ib_port_info_get_op_vls] of a port of a switch *)
Variable port_lid_tbl : list (option osm_port).
Variable do_mesh_analysis : bool.
Variable start_vl : Z.
Variable rnd : nat → Z.
Implicit Types sws : gmap Z osm_switch.

(** The number of a switch; [p_sw->priv] leads to it. *)
Definition get_lash_id sws (g : Z) : option nat := fst <$> list_find (λ k, k = g) (sw_keys sws).

Definition switch_create (num_switches : nat) (id : nat) (p_sw : osm_switch) : switch_t :=
  LashSwitch id 0 (replicate (Z.to_nat (num_ports p_sw)) 0) UNQUEUED [] (Z.to_nat (num_ports p_sw))
    (replicate num_switches (NONE, NONE)).

(** The least number of operational VLs, as the field of the PortInfo encodes it. *)
Definition min_op_vls sws : Z :=
  foldl (λ vl_min g,
    foldl (λ vl_min i,
      match physp_at nodes g i ≫= p_remote_physp with
      | None => vl_min
      | Some _ =>
          let port_vl_min := op_vls g i in
          if negb (port_vl_min =? 0)%Z && (port_vl_min <? vl_min)%Z then port_vl_min else vl_min
      end) vl_min (seqZ 1 (num_physp nodes g - 1))) 5%Z (sw_keys sws).

(** Status and engine. *)
Definition discover_network_properties sws (p_lash : lash_t) : Z * lash_t :=
  let num_switches := length (sw_keys sws) in
  let p_lash := p_lash <| switches :=
    imap (λ id g, switch_create num_switches id (default (Switch 0 0 [] [] None [] []) (sws !! g)))
      (sw_keys sws) |> in
  let vl := u8 (Z.shiftl 1 (min_op_vls sws - 1)) in
  let vl := if (15 <? vl)%Z then 15%Z else vl in
  if (vl <=? start_vl)%Z then ((-1)%Z, p_lash)
  else (0%Z, p_lash <| vl_min := Z.to_nat (vl - start_vl) |>).

Definition init_lash_structures (p_lash : lash_t) : lash_t :=
  p_lash <| cdg_vertex_matrix := replicate (vl_min p_lash) cdg_empty |>
         <| virtual_location := ∅ |>
         <| num_mst_in_lane := replicate IB_MAX_NUM_VLS 0%Z |>
         <| allocated := true |>.

Definition osm_lash_process_switch sws (l : list switch_t) (g : Z) : option (list switch_t) :=
  switch_a_lash_id ← get_lash_id sws g;
  foldM (λ l i,
    match physp_at nodes g i ≫= p_remote_physp with
    | Some (r, _) =>
        match get_lash_id sws r with
        | Some switch_b_lash_id => connect_switches do_mesh_analysis l switch_a_lash_id switch_b_lash_id i
        | None => Some l
        end
    | None => Some l
    end) (seqZ 1 (num_physp nodes g - 1)) l.

Definition process_switches sws (l : list switch_t) : option (list switch_t) :=
  foldM (osm_lash_process_switch sws) (sw_keys sws) l.

(** The physical port for a packet on a link; parallel ports take turns. *)
Definition get_next_port (sw : switch_t) (link : nat) : option (Z * switch_t) :=
  l ← links sw !! link;
  port ← l_ports l !! l_next_port l;
  let next := S (l_next_port l) in
  let next := if length (l_ports l) <=? next then 0 else next in
  Some (port, sw <| links := <[link := l <| l_next_port := next |>]> (links sw) |>).

Definition osm_get_port_by_lid_ho (lid : Z) : option osm_port := mjoin (port_lid_tbl !! Z.to_nat lid).

(** The switch of a port, with the port of the switch that leads to it. *)
Definition get_osm_switch_from_port sws (q : osm_port) : option (Z * Z) :=
  if bool_decide (pt_node q ∈ dom sws) then Some (pt_node q, 0%Z)
  else
    num ← pt_physp q;
    n ← nodes !! pt_node q;
    p ← physp_table n !! Z.to_nat num;
    '(g, rem_port) ← p_remote_physp p;
    if bool_decide (g ∈ dom sws) then Some (g, rem_port) else None.

(** One LID in the table of switch [g]. *)
Definition populate_lid sws (g : Z) (st : list Z * switch_t) (lid : Z) : option (list Z * switch_t) :=
  let '(tbl, sw) := st in
  match osm_get_port_by_lid_ho lid ≫= get_osm_switch_from_port sws with
  | None => Some st
  | Some (p_dst_sw, egress_port) =>
      _ ← check (Z.to_nat lid <? length tbl);
      if (p_dst_sw =? g)%Z then Some (<[Z.to_nat lid := egress_port]> tbl, sw)
      else
        dst_lash_switch_id ← get_lash_id sws p_dst_sw;
        e ← routing_table sw !! dst_lash_switch_id;
        '(physical_egress_port, sw) ← get_next_port sw (Z.to_nat (u8 e.1));
        Some (<[Z.to_nat lid := physical_egress_port]> tbl, sw)
  end.

Definition populate_switch sws0 (st : list switch_t * gmap Z osm_switch) (g : Z)
    : option (list switch_t * gmap Z osm_switch) :=
  p_sw ← st.2 !! g;
  id ← get_lash_id sws0 g;
  sw ← st.1 !! id;
  '(tbl, sw) ← foldM (populate_lid sws0 g) (seqZ 1 (max_lid_ho p_sw))
                     (replicate (length (lft p_sw)) OSM_NO_PATH, sw);
  Some (<[id := sw]> st.1, <[g := p_sw <| new_lft := tbl |>]> st.2).

Definition populate_fwd_tbls sws (l : list switch_t) : option (list switch_t * gmap Z osm_switch) :=
  foldM (populate_switch sws) (sw_keys sws) (l, sws).

(** The arrays are freed; reading them again is an error. *)
Definition free_lash_structures (p_lash : lash_t) : option lash_t :=
  if allocated p_lash then Some (p_lash <| allocated := false |>) else None.

(** The end of [lash_process]. *)
Definition lash_exit (status : Z) (p_lash : lash_t) sws : option (Z * lash_t * gmap Z osm_switch) :=
  if vl_min p_lash =? 0 then Some (status, p_lash, sws)
  else p_lash ← free_lash_structures p_lash; Some (status, p_lash, sws).

Definition lash_process (fuel : nat) sws (p_lash : lash_t) : option (Z * lash_t * gmap Z osm_switch) :=
  let p_lash := p_lash <| balance_limit := 6%Z |> <| switches := [] |> in
  let '(status, p_lash) := discover_network_properties sws p_lash in
  if negb (status =? 0)%Z then lash_exit status p_lash sws
  else
    let p_lash := init_lash_structures p_lash in
    l ← process_switches sws (switches p_lash);
    '(status, p_lash) ← lash_core (length l) start_vl rnd fuel (p_lash <| switches := l |>);
    if negb (status =? 0)%Z then lash_exit status p_lash sws
    else
      '(l, sws) ← populate_fwd_tbls sws (switches p_lash);
      lash_exit status (p_lash <| switches := l |>) sws.

Definition lash_create : lash_t := Lash 0 0 [] [] (replicate IB_MAX_NUM_VLS 0%Z) ∅ false.

(** The service level of a path; [engine_used] says that LASH routed the subnet. *)
Definition get_lash_sl sws (engine_used : bool) (p_lash : lash_t) (slid dlid : Z) : Z :=
  let ids :=
    p_src_port ← osm_get_port_by_lid_ho (cl_ntoh16 slid);
    p_dst_port ← osm_get_port_by_lid_ho (cl_ntoh16 dlid);
    '(d, _) ← get_osm_switch_from_port sws p_dst_port;
    dst_id ← get_lash_id sws d;
    '(s, _) ← get_osm_switch_from_port sws p_src_port;
    src_id ← get_lash_id sws s;
    Some (src_id, dst_id) in
  match engine_used, ids with
  | true, Some (src_id, dst_id) =>
      if src_id =? dst_id then start_vl
      else u8 (from_option snd 0%Z (s ← switches p_lash !! src_id; routing_table s !! dst_id))
  | _, _ => OSM_DEFAULT_SL
  end.
End Process.
