(* ===== verification/LashCycle.v ===== *)
(** * The cycle search of LASH

    [cycle_exists] of [Lash.v] is a depth-first search that numbers the vertices it
    visits; a vertex is finished once [seen] is set.  The search leaves the graph
    alone, ends, and finds a cycle exactly if one can be reached from its start. *)

From S2P Require Import Prelude IbTypes Switch UcastMgr Lash.
From stdpp Require Import relations.

Open Scope nat_scope.

(** ** The graph and the marks of a lane *)

(** The pointers of a vertex to its dependencies. *)
Definition succs (v : cdg_vertex_t) : list (option nat) := (take (num_deps v) (deps v)).*1.

Definition edge (c : cdg) (p q : nat) : Prop := ∃ v, verts c !! p = Some v ∧ Some q ∈ succs v.

Definition visited (c : cdg) (p : nat) : Prop := ∃ v, verts c !! p = Some v ∧ 0 < visiting_number v.
Definition black (c : cdg) (p : nat) : Prop :=
  ∃ v, verts c !! p = Some v ∧ 0 < visiting_number v ∧ seen v = true.
(** On the stack of the search, with its number. *)
Definition gray (c : cdg) (p num : nat) : Prop :=
  ∃ v, verts c !! p = Some v ∧ visiting_number v = num ∧ 0 < num ∧ seen v = false.

(** A vertex without the fields the search writes. *)
Definition skeleton (v : cdg_vertex_t) : nat * nat * bool * nat * nat * nat * list (option nat * nat) :=
  (v_from v, v_to v, temp v, num_temp_depend v, num_using_vertex v, num_deps v, deps v).

(** The same graph with other marks. *)
Definition same_cdg (c c' : cdg) : Prop :=
  matrix c' = matrix c ∧ next_ptr c' = next_ptr c
  ∧ ∀ p, skeleton <$> verts c' !! p = skeleton <$> verts c !! p.

#[export] Instance same_cdg_refl : Reflexive same_cdg.
Proof. done. Qed.

#[export] Instance same_cdg_trans : Transitive same_cdg.
Proof. intros c1 c2 c3 (A1 & A2 & A3) (B1 & B2 & B3). split_and!; congruence. Qed.

#[export] Instance same_cdg_sym : Symmetric same_cdg.
Proof. intros c1 c2 (A1 & A2 & A3). split_and!; congruence. Qed.

Lemma same_cdg_lookup c c' p v :
  same_cdg c c' → verts c !! p = Some v → ∃ v', verts c' !! p = Some v' ∧ skeleton v' = skeleton v.
Proof.
  intros (_ & _ & H) E. specialize (H p). rewrite E in H.
  destruct (verts c' !! p) as [v'|]; [|done]. apply (inj Some) in H. eauto.
Qed.

Lemma skeleton_succs v v' : skeleton v = skeleton v' → succs v = succs v' ∧ num_deps v = num_deps v'.
Proof. intros H. injection H as ???????. unfold succs. split; congruence. Qed.

Lemma same_cdg_edge c c' p q : same_cdg c c' → edge c p q → edge c' p q.
Proof.
  intros H (v & E & Hq). destruct (same_cdg_lookup c c' p v H E) as (v' & E' & Hs).
  exists v'. split; [done|]. by rewrite (proj1 (skeleton_succs _ _ Hs)).
Qed.

Lemma same_cdg_edges c c' p q : same_cdg c c' → edge c p q ↔ edge c' p q.
Proof. split; apply same_cdg_edge; done. Qed.

Lemma same_cdg_tc c c' p q : same_cdg c c' → tc (edge c) p q → tc (edge c') p q.
Proof. intros H. apply tc_congruence with (f := id). intros ??. by apply same_cdg_edge. Qed.

Lemma same_cdg_rtc c c' p q : same_cdg c c' → rtc (edge c) p q → rtc (edge c') p q.
Proof. intros H. apply rtc_congruence with (f := id). intros ??. by apply same_cdg_edge. Qed.

(** Writing marks. *)
Lemma put_same c p v v' :
  verts c !! p = Some v → skeleton v' = skeleton v → same_cdg c (put_vertex c p v').
Proof.
  intros E Hs. split_and!; [done..|]. intros q. simpl.
  destruct (decide (p = q)) as [<-|?].
  - rewrite lookup_insert_eq, E. simpl. by rewrite Hs.
  - by rewrite lookup_insert_ne.
Qed.

Lemma put_lookup c p v q :
  verts (put_vertex c p v) !! q = if decide (p = q) then Some v else verts c !! q.
Proof. simpl. case_decide; subst; [apply lookup_insert_eq|by apply lookup_insert_ne]. Qed.

(** ** One step of the search *)

(** What [visit] and [leave] do to the marks: [f] at the vertex, and nothing but the
    field [next] elsewhere. *)
Definition marks_at (f : cdg_vertex_t → nat * bool) (p : nat) (c c' : cdg) : Prop :=
  same_cdg c c'
  ∧ ∀ q, (λ v, (visiting_number v, seen v)) <$> verts c' !! q
         = (λ v, if decide (p = q) then f v else (visiting_number v, seen v)) <$> verts c !! q.

Lemma marks_at_prev f p c c1 (prev : option nat) (x : option nat) c' :
  marks_at f p c c1 →
  (match prev with
   | None => Some c1
   | Some p => vp ← verts c1 !! p; Some (put_vertex c1 p (vp <| v_next := x |>))
   end) = Some c' →
  marks_at f p c c'.
Proof.
  intros [Hs Hm]. destruct prev as [r|]; [|by intros [= <-]].
  destruct (verts c1 !! r) as [vp|] eqn:Er; [|done]. simpl. intros [= <-]. split.
  - etrans; [exact Hs|]. by apply put_same with vp.
  - intros q. rewrite put_lookup, <- Hm. destruct (decide (r = q)) as [<-|?]; [|done]. by rewrite Er.
Qed.

Lemma visit_marks c p num prev c' :
  visit c p num prev = Some c' → marks_at (λ v, (num, seen v)) p c c' ∧ is_Some (verts c !! p).
Proof.
  unfold visit. destruct (verts c !! p) as [v|] eqn:E; [|done]. cbn [mbind option_bind].
  intros H. split; [|eauto]. eapply marks_at_prev; [|exact H]. split; [by apply put_same with v|].
  intros q. rewrite put_lookup. destruct (decide (p = q)) as [<-|?].
  - by rewrite E.
  - by destruct (verts c !! q).
Qed.

Lemma leave_marks c p prev c' :
  leave c p prev = Some c' → marks_at (λ v, (visiting_number v, true)) p c c' ∧ is_Some (verts c !! p).
Proof.
  unfold leave. destruct (verts c !! p) as [v|] eqn:E; [|done]. cbn [mbind option_bind].
  intros H. split; [|eauto]. eapply marks_at_prev; [|exact H]. split; [by apply put_same with v|].
  intros q. rewrite put_lookup. destruct (decide (p = q)) as [<-|?].
  - by rewrite E.
  - by destruct (verts c !! q).
Qed.

Lemma prev_total c c1 (prev x : option nat) :
  same_cdg c c1 → (∀ r, prev = Some r → is_Some (verts c !! r)) →
  is_Some (match prev with
   | None => Some c1
   | Some p => vp ← verts c1 !! p; Some (put_vertex c1 p (vp <| v_next := x |>))
   end).
Proof.
  intros Hs Hp. destruct prev as [r|]; [|eauto]. destruct (Hp r eq_refl) as [v Ev].
  destruct (same_cdg_lookup _ _ _ _ Hs Ev) as (v' & -> & _). simpl. eauto.
Qed.

(** ** What a call achieves *)

(** Only visited vertices are finished. *)
Definition marks_ok (c : cdg) : Prop :=
  ∀ p v, verts c !! p = Some v → seen v = true → 0 < visiting_number v.

(** Marks only grow, and the stack is as before. *)
Record marks_grow (c c' : cdg) : Prop := {
  mg_same : same_cdg c c';
  mg_visited : ∀ p, visited c p → visited c' p;
  mg_black : ∀ p, black c p → black c' p;
  mg_gray : ∀ p num, gray c' p num → gray c p num;
  mg_marks : marks_ok c → marks_ok c'
}.

#[export] Instance marks_grow_refl : Reflexive marks_grow.
Proof. done. Qed.

#[export] Instance marks_grow_trans : Transitive marks_grow.
Proof.
  intros c1 c2 c3 [A1 A2 A3 A4 A5] [B1 B2 B3 B4 B5]. split; [by transitivity c2|..]; intros; eauto.
Qed.

(** No infinite path starts at the vertex. *)
Definition safe (c : cdg) (p : nat) : Prop := Acc (λ q p, edge c p q) p.

Lemma same_cdg_safe c c' p : same_cdg c c' → safe c p → safe c' p.
Proof.
  intros Hs H. induction H as [p _ IH]. constructor. intros q Hq. apply IH.
  by apply (same_cdg_edge c' c).
Qed.

Lemma safe_no_cycle c p : safe c p → ¬ tc (edge c) p p.
Proof.
  intros H. induction H as [p _ IH]. intros Hc.
  inversion Hc as [? ? He|? q ? He Hq]; subst; [by apply (IH p He); constructor|].
  apply (IH q He). eapply tc_r; [exact Hq|exact He].
Qed.

Definition blacks_safe (c : cdg) : Prop := ∀ p, black c p → safe c p.

(** The outcome of a call that explores from [p]. *)
Definition outcome (c : cdg) (p : nat) (b : bool) (c' : cdg) : Prop :=
  if b then ∃ x, rtc (edge c) p x ∧ tc (edge c) x x
  else blacks_safe c → blacks_safe c' ∧ safe c' p.

(** Every vertex on the stack has a lower number and leads to [p]. *)
Definition stack_ok (c : cdg) (num p : nat) : Prop :=
  ∀ g k, gray c g k → k < num ∧ tc (edge c) g p.

Lemma marks_lookup f p c c' q v' :
  marks_at f p c c' → verts c' !! q = Some v' →
  ∃ v, verts c !! q = Some v
    ∧ (visiting_number v', seen v') = if decide (p = q) then f v else (visiting_number v, seen v).
Proof.
  intros [_ H] E. specialize (H q). rewrite E in H. destruct (verts c !! q) as [v|]; [|done].
  apply (inj Some) in H. eauto.
Qed.

Lemma marks_lookup_l f p c c' q v :
  marks_at f p c c' → verts c !! q = Some v →
  ∃ v', verts c' !! q = Some v'
    ∧ (visiting_number v', seen v') = if decide (p = q) then f v else (visiting_number v, seen v).
Proof.
  intros [_ H] E. specialize (H q). rewrite E in H. destruct (verts c' !! q) as [v'|]; [|done].
  apply (inj Some) in H. eauto.
Qed.

(** Entering [p] puts it on the stack, unless it is already finished. *)
Lemma visit_ok c p num prev c' :
  visit c p num prev = Some c' → 0 < num →
  same_cdg c c' ∧ visited c' p
  ∧ (∀ q, visited c q → visited c' q) ∧ (∀ q, black c q → black c' q)
  ∧ (marks_ok c → marks_ok c' ∧ ∀ q, black c' q → black c q)
  ∧ (∀ q k, gray c' q k → q = p ∧ k = num ∨ gray c q k).
Proof.
  intros H Hn. destruct (visit_marks _ _ _ _ _ H) as [Hm [vp Ep]].
  split_and!.
  - exact (proj1 Hm).
  - destruct (marks_lookup_l _ _ _ _ _ _ Hm Ep) as (v' & E' & Ev). rewrite decide_True in Ev by done.
    injection Ev as Ev _. exists v'. split; [done|lia].
  - intros q (v & E & Hv). destruct (marks_lookup_l _ _ _ _ _ _ Hm E) as (v' & E' & Ev).
    exists v'. split; [done|]. case_decide; injection Ev as -> _; lia.
  - intros q (v & E & Hv & Hs). destruct (marks_lookup_l _ _ _ _ _ _ Hm E) as (v' & E' & Ev).
    exists v'. split; [done|]. case_decide; injection Ev as -> ->; split; [lia|done|lia|done].
  - intros Hok. split.
    + intros q v' E' Hs. destruct (marks_lookup _ _ _ _ _ _ Hm E') as (v & E & Ev).
      case_decide; injection Ev as Ev1 Ev2; [lia|].
      rewrite Ev1. apply (Hok q v E). congruence.
    + intros q (v' & E' & Hv & Hs). destruct (marks_lookup _ _ _ _ _ _ Hm E') as (v & E & Ev).
      exists v. assert (seen v = true) by (case_decide; congruence).
      split_and!; [done|by apply (Hok q)|done].
  - intros q k (v' & E' & Hv & Hk & Hs). destruct (marks_lookup _ _ _ _ _ _ Hm E') as (v & E & Ev).
    case_decide; injection Ev as Ev1 Ev2; [left; split; [done|lia]|].
    right. exists v. split_and!; [done|lia|lia|congruence].
Qed.

(** Leaving [p] finishes it. *)
Lemma leave_ok c p prev c' :
  leave c p prev = Some c' → visited c p →
  same_cdg c c' ∧ black c' p
  ∧ (∀ q, visited c q → visited c' q) ∧ (∀ q, black c q → black c' q)
  ∧ (∀ q, q ≠ p → black c' q → black c q) ∧ (∀ q k, gray c' q k → q ≠ p ∧ gray c q k)
  ∧ (marks_ok c → marks_ok c').
Proof.
  intros H Hvis. destruct (leave_marks _ _ _ _ H) as [Hm [vp Ep]].
  split_and!.
  - exact (proj1 Hm).
  - destruct Hvis as (v & E & Hv). destruct (marks_lookup_l _ _ _ _ _ _ Hm E) as (v' & E' & Ev).
    rewrite decide_True in Ev by done. injection Ev as Ev1 Ev2. exists v'. split_and!; [done|lia|done].
  - intros q (v & E & Hv). destruct (marks_lookup_l _ _ _ _ _ _ Hm E) as (v' & E' & Ev).
    exists v'. split; [done|]. case_decide; injection Ev as -> _; lia.
  - intros q (v & E & Hv & Hs). destruct (marks_lookup_l _ _ _ _ _ _ Hm E) as (v' & E' & Ev).
    exists v'. split; [done|]. case_decide; injection Ev as -> ->; done.
  - intros q Hne (v' & E' & Hv & Hs). destruct (marks_lookup _ _ _ _ _ _ Hm E') as (v & E & Ev).
    rewrite decide_False in Ev by done. injection Ev as Ev1 Ev2. exists v.
    split_and!; [done|lia|congruence].
  - intros q k (v' & E' & Hv & Hk & Hs). destruct (marks_lookup _ _ _ _ _ _ Hm E') as (v & E & Ev).
    case_decide; injection Ev as Ev1 Ev2; [congruence|].
    split; [done|]. exists v. split_and!; [done|lia|lia|congruence].
  - intros Hok q v' E' Hs. destruct (marks_lookup _ _ _ _ _ _ Hm E') as (v & E & Ev).
    case_decide as Hpq; injection Ev as Ev1 Ev2.
    + subst q. destruct Hvis as (w & Ew & Hw). replace w with v in Hw by congruence. lia.
    + rewrite Ev1. apply (Hok q v E). congruence.
Qed.

Lemma stack_ok_grow c c' num p : marks_grow c c' → stack_ok c num p → stack_ok c' num p.
Proof.
  intros Hg H g k Hk. destruct (H g k (mg_gray _ _ Hg _ _ Hk)) as [Hlt Htc]. split; [done|].
  revert Htc. apply same_cdg_tc, Hg.
Qed.

Lemma elem_of_succs v o : o ∈ succs v ↔ ∃ i, i < num_deps v ∧ fst <$> deps v !! i = Some o.
Proof.
  unfold succs. rewrite list_elem_of_lookup. apply exist_proper. intros i.
  rewrite list_lookup_fmap. destruct (decide (i < num_deps v)) as [?|?].
  - rewrite lookup_take_lt by done. tauto.
  - rewrite lookup_take_ge by lia. simpl. split; [done|lia].
Qed.

Lemma succs_lookup v i e :
  i < num_deps v → deps v !! i = Some e → e.1 ∈ succs v.
Proof.
  intros Hi E. apply elem_of_succs. exists i. by rewrite E.
Qed.

(** A call for a dependency of [p]. *)
Definition call_ok (num p : nat) (rec : nat → cdg → option (bool * cdg)) : Prop :=
  ∀ q c b c', rec q c = Some (b, c') → edge c p q → marks_ok c → stack_ok c (S num) q →
  marks_grow c c' ∧ outcome c q b c'.

Lemma deps_loop_ok num p rec k : call_ok num p rec → ∀ i c b c' v,
  deps_loop rec k p i c = Some (b, c') → verts c !! p = Some v → i + k = num_deps v → marks_ok c →
  (∀ q, edge c p q → stack_ok c (S num) q) →
  marks_grow c c'
  ∧ if b then ∃ x, rtc (edge c) p x ∧ tc (edge c) x x
    else blacks_safe c → blacks_safe c'
         ∧ ∀ j q, i ≤ j < num_deps v → fst <$> deps v !! j = Some (Some q) → safe c' q.
Proof.
  intros Hrec. induction k as [|k IH]; intros i c b c' v H Ev Hi Hok Hst.
  { injection H as <- <-. split; [done|]. intros Hb. split; [done|]. lia. }
  cbn [deps_loop] in H. rewrite Ev in H. cbn [mbind option_bind] in H.
  destruct (deps v !! i) as [[o n]|] eqn:Ei; [|done]. cbn [mbind option_bind] in H.
  destruct o as [q|]; [|done]. cbn [fst mbind option_bind] in H.
  destruct (rec q c) as [[b1 c1]|] eqn:Er; [|done]. cbn [mbind option_bind] in H.
  assert (He : edge c p q).
  { exists v. split; [done|]. apply (succs_lookup v i (Some q, n)); [lia|done]. }
  destruct (Hrec _ _ _ _ Er He Hok (Hst q He)) as [Hg Ho].
  destruct b1.
  { injection H as <- <-. split; [done|]. destruct Ho as (x & Hx & Hc). exists x. split; [|done].
    by apply rtc_l with q. }
  destruct (same_cdg_lookup _ _ _ _ (mg_same _ _ Hg) Ev) as (v1 & Ev1 & Hs1).
  destruct (skeleton_succs _ _ Hs1) as [_ Hnd].
  assert (Hd : deps v1 = deps v) by (by injection Hs1).
  assert (Hst1 : ∀ q, edge c1 p q → stack_ok c1 (S num) q).
  { intros r Hr. apply (stack_ok_grow c); [done|]. apply Hst.
    apply (same_cdg_edges c c1), Hr. apply Hg. }
  destruct (IH (S i) c1 b c' v1 H Ev1 ltac:(lia) (mg_marks _ _ Hg Hok) Hst1) as [Hg' Ho'].
  split; [by transitivity c1|]. destruct b.
  - destruct Ho' as (x & Hx & Hc). exists x. split.
    + revert Hx. apply same_cdg_rtc. symmetry. apply Hg.
    + revert Hc. apply same_cdg_tc. symmetry. apply Hg.
  - intros Hb. destruct (Ho Hb) as [Hb1 Hsafe]. destruct (Ho' Hb1) as [Hb' Hrest].
    split; [done|]. intros j r Hj Hr. destruct (decide (j = i)) as [->|?].
    + rewrite Ei in Hr. injection Hr as <-. apply (same_cdg_safe c1); [apply Hg'|done].
    + apply (Hrest j r); [lia|by rewrite Hd].
Qed.

Lemma explore_ok rec prev num c p b c' :
  explore rec prev num c p = Some (b, c') → call_ok num p rec → 0 < num → marks_ok c →
  stack_ok c num p → (∀ k, ¬ gray c p k) →
  marks_grow c c' ∧ outcome c p b c'.
Proof.
  intros H Hrec Hn Hok Hst Hng. unfold explore in H.
  destruct (visit c p num prev) as [c1|] eqn:E1; [|done]. cbn [mbind option_bind] in H.
  destruct (visit_ok _ _ _ _ _ E1 Hn) as (A1 & A2 & A3 & A4 & A5 & A6).
  destruct (A5 Hok) as [Hok1 Hb1].
  destruct (verts c1 !! p) as [v|] eqn:Ev; [|done]. cbn [mbind option_bind] in H.
  destruct (deps_loop _ _ _ _ _) as [[b2 c2]|] eqn:E2; [|done]. cbn [mbind option_bind] in H.
  assert (Hst1 : ∀ q, edge c1 p q → stack_ok c1 (S num) q).
  { intros q He g k Hk. destruct (A6 g k Hk) as [[-> ->]|Hk'].
    - split; [lia|]. by apply tc_once.
    - destruct (Hst g k Hk') as [Hlt Htc]. split; [lia|]. eapply tc_r; [|exact He].
      by apply (same_cdg_tc c). }
  apply (deps_loop_ok num) with (v := v) in E2 as [G2 O2]; [|done..|lia|done|done].
  destruct (leave c2 p prev) as [c3|] eqn:E3; [|done]. injection H as <- <-.
  destruct (leave_ok _ _ _ _ E3 (mg_visited _ _ G2 _ A2)) as (B1 & B2 & B3 & B4 & B5 & B6 & B7).
  assert (S12 : same_cdg c c2) by (etrans; [exact A1|apply G2]).
  split.
  - split.
    + by etrans.
    + intros q Hq. by apply B3, G2, A3.
    + intros q Hq. by apply B4, G2, A4.
    + intros q k Hq. destruct (B6 q k Hq) as [Hne Hq2].
      destruct (A6 q k (mg_gray _ _ G2 _ _ Hq2)) as [[? _]|?]; done.
    + intros _. apply B7, G2, Hok1.
  - destruct b2; simpl.
    + destruct O2 as (x & Hx & Hc). exists x.
      split; [apply (same_cdg_rtc c1)|apply (same_cdg_tc c1)]; done.
    + intros Hb.
      assert (blacks_safe c1) as Hbs1.
      { intros q Hq. apply (same_cdg_safe c); [done|]. by apply Hb, Hb1. }
      destruct (O2 Hbs1) as [Hbs2 Hdeps].
      assert (safe c2 p) as Hp.
      { constructor. intros q He. apply (same_cdg_edges c1 c2) in He; [|apply G2].
        destruct He as (v' & Ev' & Hq). rewrite Ev in Ev'. injection Ev' as <-.
        apply elem_of_succs in Hq as (j & Hj & Hq). apply (Hdeps j q); [lia|done]. }
      split; [|by apply (same_cdg_safe c2)].
      intros q Hq. apply (same_cdg_safe c2); [done|].
      destruct (decide (q = p)) as [->|?]; [done|]. by apply Hbs2, B5.
Qed.

Lemma cycle_exists_ok fuel : ∀ start current prev num c b c',
  cycle_exists fuel start current prev num c = Some (b, c') → 0 < num → marks_ok c →
  stack_ok c num (default start current) →
  (current = None → ∀ g k, ¬ gray c g k) →
  marks_grow c c' ∧ outcome c (default start current) b c'.
Proof.
  induction fuel as [|fuel IH]; [done|].
  intros start current prev num c b c' H Hn Hok Hst Htop. cbn [cycle_exists] in H.
  assert (Hrec : ∀ p, call_ok num p
            (λ q c, cycle_exists fuel start (Some q) (Some p) (S num) c)).
  { intros p q d b0 d' Hd He Hokd Hstd.
    by destruct (IH start (Some q) (Some p) (S num) d b0 d' Hd ltac:(lia) Hokd Hstd ltac:(done)). }
  destruct current as [p|].
  - destruct (verts c !! p) as [v|] eqn:Ev; [|done]. cbn [mbind option_bind] in H.
    destruct (Nat.ltb_spec 0 (visiting_number v)) as [Hvis|Hvis].
    + injection H as <- <-. split; [done|]. simpl.
      destruct (seen v) eqn:Es; simpl.
      * rewrite andb_false_r. intros Hb. split; [done|]. apply Hb. exists v. done.
      * rewrite andb_true_r. assert (gray c p (visiting_number v)) as Hgr by (by exists v).
        destruct (Hst p _ Hgr) as [Hlt Htc]. replace (_ <? _) with true by (symmetry; by apply Nat.ltb_lt).
        exists p. split; [done|]. exact Htc.
    + eapply explore_ok; [exact H|done..|]. intros k (v' & E' & Hk & Hpos & _).
      simpl in E'. rewrite Ev in E'.
      injection E' as <-. lia.
  - eapply explore_ok; [exact H|done..|]. intros k. by apply Htop.
Qed.

(** ** The search ends *)

(** Every dependency is a vertex. *)
Definition live (c : cdg) : Prop :=
  ∀ p v, verts c !! p = Some v →
  ∀ i, i < num_deps v → ∃ q, fst <$> deps v !! i = Some (Some q) ∧ is_Some (verts c !! q).

Definition unvisited_of (c : cdg) : gmap nat cdg_vertex_t :=
  filter (λ e, visiting_number e.2 = 0) (verts c).

Lemma elem_unvisited c p v :
  unvisited_of c !! p = Some v ↔ verts c !! p = Some v ∧ visiting_number v = 0.
Proof. apply map_lookup_filter_Some. Qed.

Lemma unvisited_le c : size (unvisited_of c) ≤ size (verts c).
Proof. apply map_subseteq_size. unfold unvisited_of. apply map_filter_subseteq. Qed.

Lemma unvisited_grow c c' :
  same_cdg c c' → (∀ q, visited c q → visited c' q) →
  dom (unvisited_of c') ⊆@{gset nat} dom (unvisited_of c).
Proof.
  intros Hs Hv p [v' E']%elem_of_dom. apply elem_unvisited in E' as [E' H0].
  destruct (same_cdg_lookup c' c p v') as (v & E & _); [by symmetry|done|].
  apply elem_of_dom. exists v. apply elem_unvisited. split; [done|].
  destruct (decide (visiting_number v = 0)) as [?|Hne]; [done|].
  destruct (Hv p) as (w & Ew & Hw); [exists v; split; [done|lia]|].
  rewrite E' in Ew. injection Ew as <-. lia.
Qed.

Lemma unvisited_grow_size c c' :
  same_cdg c c' → (∀ q, visited c q → visited c' q) →
  size (unvisited_of c') ≤ size (unvisited_of c).
Proof.
  intros Hs Hv. by apply (dom_subseteq_size (D:=gset nat)), unvisited_grow.
Qed.

Lemma unvisited_visit c c' p :
  same_cdg c c' → (∀ q, visited c q → visited c' q) → visited c' p →
  is_Some (unvisited_of c !! p) → size (unvisited_of c') < size (unvisited_of c).
Proof.
  intros Hs Hv (w & Ew & Hw) Hp. apply (dom_subset_size (D:=gset nat)). split.
  - by apply unvisited_grow.
  - intros Hsub. apply elem_of_dom in Hp. apply Hsub, elem_of_dom in Hp as [v Ev].
    apply elem_unvisited in Ev as [Ev ?]. rewrite Ew in Ev. injection Ev as <-. lia.
Qed.

Lemma live_same c c' : same_cdg c c' → live c → live c'.
Proof.
  intros Hs Hl p v' E' i Hi. destruct (same_cdg_lookup c' c p v') as (v & E & Hsk); [by symmetry|done|].
  destruct (skeleton_succs _ _ Hsk) as [_ Hn]. assert (Hd : deps v = deps v') by (by injection Hsk).
  destruct (Hl p v E i ltac:(lia)) as (q & Hq & [w Ew]). exists q. split; [congruence|].
  destruct (same_cdg_lookup _ _ _ _ Hs Ew) as (w' & -> & _). eauto.
Qed.

Lemma same_cdg_dom c c' p : same_cdg c c' → is_Some (verts c !! p) → is_Some (verts c' !! p).
Proof. intros Hs [v Ev]. destruct (same_cdg_lookup _ _ _ _ Hs Ev) as (v' & -> & _). eauto. Qed.

Lemma visit_total c p num prev :
  is_Some (verts c !! p) → (∀ r, prev = Some r → is_Some (verts c !! r)) →
  is_Some (visit c p num prev).
Proof.
  intros [v Ev] Hp. unfold visit. rewrite Ev. apply (prev_total c); [|done].
  by apply put_same with v.
Qed.

Lemma leave_total c p prev :
  is_Some (verts c !! p) → (∀ r, prev = Some r → is_Some (verts c !! r)) →
  is_Some (leave c p prev).
Proof.
  intros [v Ev] Hp. unfold leave. rewrite Ev. apply (prev_total c); [|done].
  by apply put_same with v.
Qed.

(** A call for a dependency of [p], where at most [k] vertices are not visited. *)
Definition call_total (k num p : nat) (rec : nat → cdg → option (bool * cdg)) : Prop :=
  ∀ q c, edge c p q → live c → marks_ok c → stack_ok c (S num) q →
  size (unvisited_of c) ≤ k → is_Some (rec q c).

Lemma deps_loop_total s num p rec k : call_ok num p rec → call_total s num p rec → ∀ i c v,
  verts c !! p = Some v → i + k = num_deps v → live c → marks_ok c →
  (∀ q, edge c p q → stack_ok c (S num) q) → size (unvisited_of c) ≤ s →
  is_Some (deps_loop rec k p i c).
Proof.
  intros Hrec Htot. induction k as [|k IH]; intros i c v Ev Hi Hl Hok Hst Hs; [eexists; done|].
  destruct (Hl p v Ev i ltac:(lia)) as (q & Hq & Hdq).
  cbn [deps_loop]. rewrite Ev. cbn [mbind option_bind].
  destruct (deps v !! i) as [[o n]|] eqn:Ei; [|done]. injection Hq as ->. cbn [fst mbind option_bind].
  assert (He : edge c p q).
  { exists v. split; [done|]. apply (succs_lookup v i (Some q, n)); [lia|done]. }
  destruct (Htot q c He Hl Hok (Hst q He) Hs) as [[b1 c1] Er]. rewrite Er. cbn [mbind option_bind].
  destruct b1; [by eexists|].
  destruct (Hrec _ _ _ _ Er He Hok (Hst q He)) as [Hg _].
  destruct (same_cdg_lookup _ _ _ _ (mg_same _ _ Hg) Ev) as (v1 & Ev1 & Hs1).
  destruct (skeleton_succs _ _ Hs1) as [_ Hnd].
  apply (IH (S i) c1 v1); [done|lia|..].
  - by apply (live_same c), Hl; apply Hg.
  - by apply Hg.
  - intros r Hr. apply (stack_ok_grow c); [done|]. apply Hst.
    apply (same_cdg_edges c c1), Hr. apply Hg.
  - etrans; [|exact Hs]. apply unvisited_grow_size; apply Hg.
Qed.

Lemma explore_total s rec prev num c p :
  call_ok num p rec → call_total s num p rec → 0 < num → live c → marks_ok c → stack_ok c num p →
  is_Some (verts c !! p) → (∀ r, prev = Some r → is_Some (verts c !! r)) →
  (size (unvisited_of c) ≤ s ∨ is_Some (unvisited_of c !! p) ∧ size (unvisited_of c) ≤ S s) →
  is_Some (explore rec prev num c p).
Proof.
  intros Hrec Htot Hn Hl Hok Hst Hp Hprev Hs. unfold explore.
  destruct (visit_total c p num prev Hp Hprev) as [c1 E1]. rewrite E1. cbn [mbind option_bind].
  destruct (visit_ok _ _ _ _ _ E1 Hn) as (A1 & A2 & A3 & A4 & A5 & A6).
  destruct (same_cdg_dom _ _ _ A1 Hp) as [v Ev]. rewrite Ev. cbn [mbind option_bind].
  assert (Hst1 : ∀ q, edge c1 p q → stack_ok c1 (S num) q).
  { intros q He g k Hk. destruct (A6 g k Hk) as [[-> ->]|Hk'].
    - split; [lia|]. by apply tc_once.
    - destruct (Hst g k Hk') as [Hlt Htc]. split; [lia|]. eapply tc_r; [|exact He].
      by apply (same_cdg_tc c). }
  assert (Hs1 : size (unvisited_of c1) ≤ s).
  { destruct Hs as [Hs|[Hu Hs]].
    - etrans; [|exact Hs]. by apply unvisited_grow_size.
    - pose proof (unvisited_visit _ _ _ A1 A3 A2 Hu). lia. }
  destruct (deps_loop_total s num p rec (num_deps v) Hrec Htot 0 c1 v) as [[b2 c2] E2];
    [done|lia|by apply (live_same c)|by apply A5|done|done|].
  rewrite E2. cbn [mbind option_bind].
  apply (deps_loop_ok num) with (v := v) in E2 as [G2 _]; [|done..|lia|by apply A5|done].
  assert (S12 : same_cdg c c2) by (etrans; [exact A1|apply G2]).
  destruct (leave_total c2 p prev) as [c3 E3].
  - by apply (same_cdg_dom c).
  - intros r Hr. apply (same_cdg_dom c); [done|]. by apply Hprev.
  - rewrite E3. by eexists.
Qed.

Lemma cycle_exists_total fuel : ∀ start current prev num c,
  0 < num → live c → marks_ok c → stack_ok c num (default start current) →
  (current = None → ∀ g k, ¬ gray c g k) →
  is_Some (verts c !! default start current) → (∀ r, prev = Some r → is_Some (verts c !! r)) →
  size (unvisited_of c) + match current with None => 2 | Some _ => 1 end ≤ fuel →
  is_Some (cycle_exists fuel start current prev num c).
Proof.
  induction fuel as [|fuel IH]; intros start current prev num c Hn Hl Hok Hst Htop Hp Hprev Hf;
    [destruct current; lia|].
  cbn [cycle_exists].
  assert (Hrec : ∀ p, call_ok num p
            (λ q c, cycle_exists fuel start (Some q) (Some p) (S num) c)).
  { intros p q d b0 d' Hd He Hokd Hstd.
    by destruct (cycle_exists_ok fuel start (Some q) (Some p) (S num) d b0 d' Hd ltac:(lia) Hokd Hstd
                   ltac:(done)). }
  assert (Htot : 1 ≤ fuel → ∀ p, call_total (fuel - 1) num p
            (λ q c, cycle_exists fuel start (Some q) (Some p) (S num) c)).
  { intros Hpos p q d He Hld Hokd Hstd Hsd. destruct He as (v & Ev & Hq).
    apply elem_of_succs in Hq as (i & Hi & Hq). destruct (Hld p v Ev i Hi) as (q' & Hq' & Hdq).
    assert (q' = q) as -> by congruence.
    apply IH; [lia|done|done|done|done|done| |lia].
    intros r [= <-]. by eexists. }
  destruct current as [p|].
  - simpl in Hp. destruct Hp as [v Ev]. rewrite Ev. cbn [mbind option_bind].
    destruct (Nat.ltb_spec 0 (visiting_number v)) as [?|Hvis]; [by eexists|].
    assert (is_Some (unvisited_of c !! p)) as Hu.
    { exists v. apply elem_unvisited. split; [done|lia]. }
    assert (size (unvisited_of c) ≠ 0).
    { intros E%map_size_empty_inv. rewrite E, lookup_empty in Hu. by destruct Hu. }
    eapply explore_total; [done|by apply Htot; lia|done..|by eexists|done|].
    right. split; [done|lia].
  - eapply explore_total; [done|by apply Htot; lia|done..|]. left. lia.
Qed.

(** ** The searches of a lane *)

Definition cycle_from (c : cdg) (p : nat) : Prop := ∃ x, rtc (edge c) p x ∧ tc (edge c) x x.

Lemma safe_rtc c p x : rtc (edge c) p x → safe c p → safe c x.
Proof. induction 1 as [|p q x He _ IH]; [done|]. intros H. apply IH. by apply H. Qed.

Lemma safe_no_cycle_from c p : safe c p → ¬ cycle_from c p.
Proof. intros H (x & Hx & Hc). by apply (safe_no_cycle c x); [apply (safe_rtc c p)|]. Qed.

(** No vertex carries a mark. *)
Definition unmarked (c : cdg) : Prop :=
  ∀ p v, verts c !! p = Some v → visiting_number v = 0 ∧ seen v = false.

Lemma unmarked_facts c :
  unmarked c → marks_ok c ∧ (∀ p k, ¬ gray c p k) ∧ ∀ p, ¬ black c p.
Proof.
  intros H. split_and!.
  - intros p v E Hs. destruct (H p v E). congruence.
  - intros p k (v & E & Hv & Hk & _). destruct (H p v E). lia.
  - intros p (v & E & Hv & _). destruct (H p v E). lia.
Qed.

Lemma no_gray_stack c num p : (∀ g k, ¬ gray c g k) → stack_ok c num p.
Proof. intros H g k Hg. by destruct (H g k). Qed.

Lemma search_total c start :
  live c → marks_ok c → (∀ p k, ¬ gray c p k) → is_Some (verts c !! start) →
  is_Some (cycle_exists (cycle_fuel c) start None None 1 c).
Proof.
  intros Hl Hok Hg Hs. apply cycle_exists_total; [lia|done|done|by apply no_gray_stack|done|done|done|].
  unfold cycle_fuel. pose proof (unvisited_le c). lia.
Qed.

Lemma same_cdg_cycle_from c c' p : same_cdg c c' → cycle_from c p → cycle_from c' p.
Proof. intros Hs (x & Hx & Hc). exists x. split; [by apply (same_cdg_rtc c)|by apply (same_cdg_tc c)]. Qed.

(** The two searches of a pair, the second on the marks of the first. *)
Lemma searches_ok c p1 p2 f1 f2 b1 b2 c1 c2 :
  unmarked c →
  cycle_exists f1 p1 None None 1 c = Some (b1, c1) →
  cycle_exists f2 p2 None None 1 c1 = Some (b2, c2) →
  same_cdg c c2 ∧ if b1 || b2 then cycle_from c p1 ∨ cycle_from c p2 else safe c p1 ∧ safe c p2.
Proof.
  intros Hu H1 H2. destruct (unmarked_facts c Hu) as (Hok & Hg & Hb).
  destruct (cycle_exists_ok _ _ _ _ _ _ _ _ H1 ltac:(lia) Hok (no_gray_stack _ _ _ Hg) ltac:(done)) as [G1 O1].
  assert (Hg1 : ∀ p k, ¬ gray c1 p k) by (intros p k ?%G1; by apply (Hg p k)).
  destruct (cycle_exists_ok _ _ _ _ _ _ _ _ H2 ltac:(lia) (mg_marks _ _ G1 Hok)
              (no_gray_stack _ _ _ Hg1) ltac:(done)) as [G2 O2].
  split; [etrans; [apply G1|apply G2]|].
  destruct b1; [by left|]. destruct b2; simpl in *.
  - right. apply (same_cdg_cycle_from c1); [symmetry; apply G1|done].
  - destruct O1 as [Hb1 Hs1]; [by intros q ?%Hb|]. destruct (O2 Hb1) as [_ Hs2].
    pose proof (symmetry (mg_same _ _ G1)) as S1. pose proof (symmetry (mg_same _ _ G2)) as S2.
    split; [exact (same_cdg_safe _ _ _ S1 Hs1)|].
    exact (same_cdg_safe _ _ _ S1 (same_cdg_safe _ _ _ S2 Hs2)).
Qed.

Lemma searches_total c p1 p2 :
  unmarked c → live c → is_Some (verts c !! p1) → is_Some (verts c !! p2) →
  ∃ b1 c1 b2 c2,
    cycle_exists (cycle_fuel c) p1 None None 1 c = Some (b1, c1)
    ∧ same_cdg c c1
    ∧ cycle_exists (cycle_fuel c1) p2 None None 1 c1 = Some (b2, c2).
Proof.
  intros Hu Hl Hp1 Hp2. destruct (unmarked_facts c Hu) as (Hok & Hg & Hb).
  destruct (search_total c p1 Hl Hok Hg Hp1) as [[b1 c1] H1].
  destruct (cycle_exists_ok _ _ _ _ _ _ _ _ H1 ltac:(lia) Hok (no_gray_stack _ _ _ Hg) ltac:(done)) as [G1 O1].
  assert (Hg1 : ∀ p k, ¬ gray c1 p k) by (intros p k ?%G1; by apply (Hg p k)).
  destruct (search_total c1 p2) as [[b2 c2] H2]; [|by apply G1|done|..].
  - apply (live_same c); [apply G1|done].
  - apply (same_cdg_dom c); [apply G1|done].
  - exists b1, c1, b2, c2. split_and!; [done|apply G1|done].
Qed.

(** The search for circles is exact.  On a graph without marks, whose dependencies
    all lead to vertices, the search from a vertex ends within its fuel, changes nothing
    but marks, and answers with success exactly if a circle of dependencies can be
    reached from the vertex. *)
Theorem cycle_exists_exact c start :
  unmarked c → live c → is_Some (verts c !! start) →
  ∃ b c', cycle_exists (cycle_fuel c) start None None 1 c = Some (b, c')
    ∧ same_cdg c c' ∧ (b = true ↔ cycle_from c start).
Proof.
  intros Hu Hl Hs. destruct (unmarked_facts c Hu) as (Hok & Hg & Hb).
  destruct (search_total c start Hl Hok Hg Hs) as [[b c'] H].
  destruct (cycle_exists_ok _ _ _ _ _ _ _ _ H ltac:(lia) Hok (no_gray_stack _ _ _ Hg) ltac:(done)) as [G O].
  exists b, c'. split_and!; [done|apply G|]. destruct b; simpl in O; [by split|].
  split; [done|]. intros Hc. destruct O as [_ Hsafe]; [by intros q ?%Hb|].
  exfalso. apply (safe_no_cycle_from c' start); [done|].
  apply (same_cdg_cycle_from c); [apply G|done].
Qed.

Lemma cell_in n c ch : ch.1 < n → ch.2 < n → cell n c ch = Some (matrix c !! ch).
Proof. intros H1%Nat.ltb_lt H2%Nat.ltb_lt. unfold cell. by rewrite H1, H2. Qed.

Lemma cell_Some n c ch o : cell n c ch = Some o → o = matrix c !! ch ∧ ch.1 < n ∧ ch.2 < n.
Proof.
  unfold cell. destruct (Nat.ltb_spec ch.1 n), (Nat.ltb_spec ch.2 n); try done.
  by intros [= <-].
Qed.

(** [clear_marks] resets the marks of the vertices that have a cell. *)
Lemma clear_step_same n c ch c' :
  clear_cell n c ch = Some c' →
  same_cdg c c' ∧ (∀ q v', verts c' !! q = Some v' →
    (visiting_number v' = 0 ∧ seen v' = false) ∨ (matrix c !! ch ≠ Some q ∧ verts c !! q = Some v')).
Proof.
  unfold clear_cell, cell. destruct (check _); [|done]. cbn [mbind option_bind].
  destruct (matrix c !! ch) as [p|].
  - destruct (verts c !! p) as [v|] eqn:E; [|done]. intros [= <-]. split; [by apply put_same with v|].
    intros q v'. rewrite put_lookup. case_decide as Hd; [intros [= <-]; by left|].
    intros Hq. right. split; [congruence|done].
  - intros [= <-]. split; [done|]. intros q v' E. right. split; [congruence|done].
Qed.

Lemma clear_marks_ok n c c' :
  clear_marks n c = Some c' → same_cdg c c' ∧
  ((∀ p, is_Some (verts c !! p) → ∃ ch, ch.1 < n ∧ ch.2 < n ∧ matrix c !! ch = Some p) → unmarked c').
Proof.
  unfold clear_marks.
  assert (Hgen : ∀ l c0, foldM (clear_cell n) l c0 = Some c' → same_cdg c0 c' ∧
    ∀ q v', verts c' !! q = Some v' →
      (visiting_number v' = 0 ∧ seen v' = false)
      ∨ (∀ ch, ch ∈ l → matrix c0 !! ch ≠ Some q) ∧ verts c0 !! q = Some v');
    [|intros [Hs Hm]%Hgen; split; [done|]].
  - intros l. induction l as [|ch l IH]; intros c0 H.
    { injection H as <-. split; [done|]. intros q v' E. right. split; [|done]. intros ? []%elem_of_nil. }
    cbn [foldM] in H. destruct (clear_cell n c0 ch) as [c1|] eqn:E1; [|done]. cbn [mbind option_bind] in H.
    apply clear_step_same in E1 as [S1 M1]. destruct (IH _ H) as [S2 M2].
    split; [by transitivity c1|]. intros q v' E. destruct (M2 q v' E) as [?|[Hl Hv]]; [by left|].
    destruct (M1 q v' Hv) as [?|[Hch Hv0]]; [by left|]. right. split; [|done].
    intros ch' [->|Hin]%elem_of_cons; [done|]. destruct S1 as [<- _]. by apply Hl.
  - intros Hcells q v' E. destruct (Hm q v' E) as [?|[Hl Hv]]; [done|].
    destruct (Hcells q) as (ch & H1 & H2 & Hc); [by eexists|].
    exfalso. apply (Hl ch); [|done]. destruct ch as [a b]. apply list_elem_of_In, in_prod; apply in_seq;
      simpl in *; lia.
Qed.

Lemma clear_marks_total n c :
  (∀ ch p, matrix c !! ch = Some p → is_Some (verts c !! p)) → is_Some (clear_marks n c).
Proof.
  unfold clear_marks. intros H.
  assert (Hgen : ∀ l c0, same_cdg c c0 → Forall (λ ch, ch.1 < n ∧ ch.2 < n) l → is_Some (foldM (clear_cell n) l c0));
    [|apply Hgen; [done|]].
  - intros l. induction l as [|ch l IH]; intros c0 Hs Hl; [by eexists|].
    apply Forall_cons in Hl as [[H1 H2] Hl]. cbn [foldM].
    assert (∃ c1, clear_cell n c0 ch = Some c1) as [c1 E1].
    { unfold clear_cell. rewrite cell_in by done. cbn [mbind option_bind].
      destruct (matrix c0 !! ch) as [p|] eqn:Ep; [|by eexists].
      destruct (same_cdg_dom c c0 p Hs) as [v ->]; [apply (H ch); by destruct Hs as [<- _]|].
      by eexists. }
    rewrite E1. apply IH; [|done]. etrans; [exact Hs|]. by apply (clear_step_same n c0 ch).
  - apply Forall_forall. intros [a b] Hin. apply list_elem_of_In, in_prod_iff in Hin.
    rewrite !in_seq in Hin. simpl. lia.
Qed.
