(* ===== verification/LashRoute.v ===== *)
(** * The routes of LASH are shortest paths

    [shortest_path] of [Lash.v] grows a tree from one switch, breadth first;
    [generate_routing_func_for_mst] turns the tree into table entries.  An entry is
    written once, by the first tree that needs it; every tree of shortest paths
    writes a next hop on a shortest path, so the entries fit together. *)

From S2P Require Import Prelude IbTypes Switch UcastMgr Lash.
From stdpp Require Import relations.

Open Scope nat_scope.

(** ** Runs over lists *)

Lemma foldM_app {A S} (f : S → A → option S) l1 l2 s :
  foldM f (l1 ++ l2) s = s ← foldM f l1 s; foldM f l2 s.
Proof.
  revert s. induction l1 as [|a l1 IH]; intros s; [done|]. simpl.
  destruct (f s a); [|done]. apply IH.
Qed.

(** An invariant of the elements done so far makes the run succeed. *)
Lemma foldM_rule {A S} (f : S → A → option S) (J : list A → S → Prop) l s :
  J [] s →
  (∀ l1 a l2 s, l = l1 ++ a :: l2 → J l1 s → ∃ s', f s a = Some s' ∧ J (l1 ++ [a]) s') →
  ∃ s', foldM f l s = Some s' ∧ J l s'.
Proof.
  intros H0 Hstep.
  assert (Hgen : ∀ l2 l1 s, l = l1 ++ l2 → J l1 s → ∃ s', foldM f l2 s = Some s' ∧ J l s').
  { intros l2. induction l2 as [|a l2 IH]; intros l1 s1 E H1.
    - exists s1. rewrite app_nil_r in E. by subst.
    - destruct (Hstep l1 a l2 s1 E H1) as (s2 & E2 & H2). simpl. rewrite E2. simpl.
      apply (IH (l1 ++ [a])); [|done]. by rewrite <- app_assoc. }
  by apply (Hgen l []).
Qed.

(** The same where the run succeeds only under [E]. *)
Lemma foldM_rule_if {A S} (E : Prop) (f : S → A → option S) (J : list A → S → Prop) l s :
  J [] s →
  (∀ l1 a l2 s, l = l1 ++ a :: l2 → J l1 s →
     (E → is_Some (f s a)) ∧ ∀ s', f s a = Some s' → J (l1 ++ [a]) s') →
  (E → is_Some (foldM f l s)) ∧ ∀ s', foldM f l s = Some s' → J l s'.
Proof.
  intros H0 Hstep.
  assert (Hgen : ∀ l2 l1 s, l = l1 ++ l2 → J l1 s →
     (E → is_Some (foldM f l2 s)) ∧ ∀ s', foldM f l2 s = Some s' → J l s').
  { intros l2. induction l2 as [|a l2 IH]; intros l1 s1 El H1.
    - split; [by eexists|]. intros s' [= <-]. rewrite app_nil_r in El. by subst.
    - destruct (Hstep l1 a l2 s1 El H1) as [Ht Hj]. simpl.
      destruct (f s1 a) as [s2|] eqn:Ef; simpl.
      + apply (IH (l1 ++ [a])); [by rewrite <- app_assoc|by apply Hj].
      + split; [|done]. intros HE. by destruct (Ht HE). }
  by apply (Hgen l []).
Qed.

(** ** The graph *)

(** What the routing never changes of a switch. *)
Definition shape (s : switch_t) : nat * nat * list link_t * nat :=
  (sw_id s, length (dij_channels s), links s, length (routing_table s)).

Definition shapes (sws : list switch_t) : list (nat * nat * list link_t * nat) := shape <$> sws.

Lemma shapes_length sws sws' : shapes sws' = shapes sws → length sws' = length sws.
Proof. intros H%(f_equal length). unfold shapes in H. by rewrite !length_fmap in H. Qed.

Lemma shapes_lookup sws sws' i s :
  shapes sws' = shapes sws → sws !! i = Some s → ∃ s', sws' !! i = Some s' ∧ shape s' = shape s.
Proof.
  intros H E. apply (f_equal (.!! i)) in H. unfold shapes in H. rewrite !list_lookup_fmap, E in H.
  destruct (sws' !! i) as [s'|]; [|done]. apply (inj Some) in H. eauto.
Qed.

Lemma shapes_insert sws i s s' :
  sws !! i = Some s → shape s' = shape s → shapes (<[i := s']> sws) = shapes sws.
Proof.
  intros E Hs. unfold shapes. rewrite list_fmap_insert, Hs. apply list_insert_id.
  by rewrite list_lookup_fmap, E.
Qed.

Definition adj (sws : list switch_t) (a b : nat) : Prop :=
  ∃ s l, sws !! a = Some s ∧ l ∈ links s ∧ l_switch_id l = b.

(** Numbers and links of the switches as [discover_network_properties] and
    [process_switches] leave them. *)
Definition switch_ok (n i : nat) (s : switch_t) : Prop :=
  sw_id s = i ∧ length (routing_table s) = n ∧ length (links s) ≤ length (dij_channels s)
  ∧ length (links s) < 256 ∧ ∀ l, l ∈ links s → l_switch_id l < n.

Definition switches_ok (sws : list switch_t) : Prop :=
  ∀ i s, sws !! i = Some s → switch_ok (length sws) i s.

Lemma switches_ok_shapes sws sws' : shapes sws' = shapes sws → switches_ok sws → switches_ok sws'.
Proof.
  intros Hs Hok i s' E'. destruct (shapes_lookup sws' sws i s') as (s & E & Es); [done|done|].
  rewrite (shapes_length _ _ Hs). injection Es as E1 E2 E3 E4.
  unfold switch_ok. rewrite <- E1, <- E2, <- E3, <- E4. by apply Hok.
Qed.

Lemma adj_shapes sws sws' a b : shapes sws' = shapes sws → adj sws a b → adj sws' a b.
Proof.
  intros Hs (s & l & E & Hl & Hb). destruct (shapes_lookup _ _ _ _ Hs E) as (s' & E' & Es).
  injection Es as _ _ E3 _. exists s', l. by rewrite E3.
Qed.

(** The length of the shortest walks from [a] to [b]. *)
Definition dist (sws : list switch_t) (k a b : nat) : Prop :=
  nsteps (adj sws) k a b ∧ ∀ m, nsteps (adj sws) m a b → k ≤ m.

Lemma dist_shapes sws sws' k a b : shapes sws' = shapes sws → dist sws k a b → dist sws' k a b.
Proof.
  intros Hs [H Hmin]. split.
  - revert H. apply nsteps_congruence with (f := id). intros ??. by apply adj_shapes.
  - intros m Hm. apply Hmin. revert Hm. apply nsteps_congruence with (f := id). intros ??.
    by apply adj_shapes.
Qed.

Lemma dist_unique sws k k' a b : dist sws k a b → dist sws k' a b → k = k'.
Proof. intros [H Hm] [H' Hm']. apply Nat.le_antisymm; auto. Qed.

(** ** The search from one switch *)

(** The channels to the children of a switch in the tree. *)
Definition children (s : switch_t) : list nat := take (used_channels s) (dij_channels s).

Section Search.
Variable sws0 : list switch_t.
Hypothesis Hok : switches_ok sws0.
Variable r : nat.
Notation n := (length sws0).

(** [A]: the switch whose links are walked, if any, and the queue; [walked]: the
    links seen of each switch; [dep]: the depths of the switches reached. *)
Record bfs_depths (A : list nat) (walked : nat → list link_t) (dep : gmap nat nat) : Prop := {
  bd_range : ∀ a d, dep !! a = Some d → a < n ∧ d < size dep;
  bd_root : dep !! r = Some 0;
  bd_walk : ∀ a d, dep !! a = Some d → nsteps (adj sws0) d r a;
  bd_active : ∀ a, a ∈ A → is_Some (dep !! a);
  bd_sorted : ∀ i j a b da db, i ≤ j → A !! i = Some a → A !! j = Some b →
                dep !! a = Some da → dep !! b = Some db → da ≤ db;
  bd_front : ∀ a b da db, a ∈ A → dep !! a = Some da → dep !! b = Some db → db ≤ S da;
  bd_walked : ∀ a l da, l ∈ walked a → dep !! a = Some da →
                ∃ db, dep !! l_switch_id l = Some db ∧ db ≤ S da;
  bd_finished : ∀ a s, is_Some (dep !! a) → a ∉ A → sws0 !! a = Some s → walked a = links s;
  bd_new : ∀ a, dep !! a = None → walked a = []
}.

(** The tree built so far, in the channels of the switches. *)
Record bfs_tree (walked : nat → list link_t) (sws : list switch_t) (dep : gmap nat nat) : Prop := {
  bt_shapes : shapes sws = shapes sws0;
  bt_tables : routing_table <$> sws = routing_table <$> sws0;
  bt_dom : ∀ a s, sws !! a = Some s → (q_st s = UNQUEUED ↔ dep !! a = None);
  bt_used : ∀ a s, sws !! a = Some s → used_channels s ≤ length (walked a);
  bt_child : ∀ a s b, sws !! a = Some s → b ∈ children s →
               ∃ da, dep !! a = Some da ∧ adj sws0 a b ∧ dep !! b = Some (S da);
  bt_parent : ∀ b d, dep !! b = Some d → b ≠ r → ∃ a s, sws !! a = Some s ∧ b ∈ children s
}.

(** One more link of [x] is walked. *)
Definition walk_link (walked : nat → list link_t) (x : nat) (l : link_t) (a : nat) : list link_t :=
  if decide (a = x) then walked x ++ [l] else walked a.

Lemma walk_link_length walked x l a : length (walked a) ≤ length (walk_link walked x l a).
Proof. unfold walk_link. case_decide; [subst; rewrite length_app; lia|done]. Qed.

(** The depths when the link leads to a switch reached before. *)
Lemma depths_seen x q walked dep l :
  bfs_depths (x :: q) walked dep → is_Some (dep !! l_switch_id l) →
  bfs_depths (x :: q) (walk_link walked x l) dep.
Proof.
  intros H [dl Edl]. destruct (bd_active _ _ _ H x) as [dx Edx]; [left|].
  assert (Hfront : dl ≤ S dx) by (apply (bd_front _ _ _ H x (l_switch_id l)); [left|done|done]).
  destruct H. split; try done; unfold walk_link.
  - intros a l' da Hin Ea. case_decide as Hax; [|by apply (bd_walked0 a)].
    subst a. apply elem_of_app in Hin as [Hin|Hin]; [by apply (bd_walked0 x)|].
    apply list_elem_of_singleton in Hin as ->. rewrite Edx in Ea. injection Ea as <-. eauto.
  - intros a s' Ha HA Es'. case_decide; [subst; set_solver|]. by apply bd_finished0.
  - intros a Ea. case_decide; [subst; congruence|]. by apply bd_new0.
Qed.

Lemma tree_seen x walked sws dep l :
  bfs_tree walked sws dep → bfs_tree (walk_link walked x l) sws dep.
Proof.
  intros []. split; try done. intros a s' Ea. etrans; [by apply bt_used0|]. apply walk_link_length.
Qed.

(** Its depths when the switch is new: it goes to the end of the queue. *)
Lemma depths_new x q walked dep l s dx :
  bfs_depths (x :: q) walked dep → sws0 !! x = Some s → l ∈ links s →
  dep !! x = Some dx → dep !! l_switch_id l = None →
  bfs_depths ((x :: q) ++ [l_switch_id l]) (walk_link walked x l) (<[l_switch_id l := S dx]> dep).
Proof.
  intros H Es Hl Edx Ey. set (y := l_switch_id l) in *.
  assert (Hxy : x ≠ y) by congruence.
  destruct (Hok x s Es) as (_ & _ & _ & _ & Hids).
  assert (Hadj : adj sws0 x y) by (by exists s, l).
  assert (Hsize : size (<[y := S dx]> dep) = S (size dep)) by (by rewrite map_size_insert_None).
  assert (Hkeep : ∀ b db, dep !! b = Some db → <[y := S dx]> dep !! b = Some db).
  { intros b db Hb. rewrite lookup_insert_ne; [done|]. intros <-. congruence. }
  assert (Hle : ∀ b db, <[y := S dx]> dep !! b = Some db → db ≤ S dx).
  { intros b db [[_ <-]|[_ Hb]]%lookup_insert_Some; [done|].
    apply (bd_front _ _ _ H x b); [left|done|done]. }
  assert (Hnin : ∀ a, a ∈ x :: q → a ≠ y).
  { intros a Ha ->. destruct (bd_active _ _ _ H y Ha). congruence. }
  destruct H. split.
  - intros a d [[<- <-]|[Hne Ha]]%lookup_insert_Some; rewrite Hsize.
    + destruct (bd_range0 x dx Edx). split; [by apply Hids|lia].
    + destruct (bd_range0 a d Ha). lia.
  - by apply Hkeep.
  - intros a d [[<- <-]|[Hne Ha]]%lookup_insert_Some; [|by apply bd_walk0].
    apply nsteps_r with x; auto.
  - intros a [Ha|Ha%list_elem_of_singleton]%elem_of_app.
    + destruct (bd_active0 a Ha) as [d Hd]. rewrite (Hkeep _ _ Hd). eauto.
    + subst. by rewrite lookup_insert_eq; eauto.
  - intros i j a b da db Hij Ei Ej Ea Eb.
    apply lookup_app_Some in Ej as [Ej|[Hj Ej]].
    + apply lookup_app_Some in Ei as [Ei|[Hi Ei]]; [|apply lookup_lt_Some in Ej; lia].
      rewrite lookup_insert_ne in Ea by (symmetry; by eapply Hnin, list_elem_of_lookup_2).
      rewrite lookup_insert_ne in Eb by (symmetry; by eapply Hnin, list_elem_of_lookup_2).
      by apply (bd_sorted0 i j a b).
    + apply list_lookup_singleton_Some in Ej as [_ <-]. rewrite lookup_insert_eq in Eb.
      injection Eb as <-. by apply (Hle a).
  - intros a b da db Ha Ea Eb. apply Hle in Eb.
    apply elem_of_app in Ha as [Ha|Ha%list_elem_of_singleton].
    + rewrite lookup_insert_ne in Ea by (symmetry; by apply Hnin).
      apply list_elem_of_lookup in Ha as [j Ej].
      assert (dx ≤ da) by (apply (bd_sorted0 0 j x a); [lia|done..]). lia.
    + subst a. rewrite lookup_insert_eq in Ea. injection Ea as <-. lia.
  - intros a l' da Hin [[<- <-]|[Hne Ea]]%lookup_insert_Some; unfold walk_link in Hin.
    + rewrite decide_False, bd_new0 in Hin by done. by apply elem_of_nil in Hin.
    + case_decide as Hax.
      * subst a. apply elem_of_app in Hin as [Hin|Hin%list_elem_of_singleton].
        -- destruct (bd_walked0 x l' da Hin Ea) as (db & Hdb & ?). eauto.
        -- subst l'. exists (S dx). rewrite lookup_insert_eq. split; [done|].
           rewrite Edx in Ea. by injection Ea as <-.
      * destruct (bd_walked0 a l' da Hin Ea) as (db & Hdb & ?). eauto.
  - intros a s' Ha HA Es1. unfold walk_link. rewrite decide_False by set_solver.
    rewrite lookup_insert_ne in Ha by set_solver. apply bd_finished0; [done|set_solver|done].
  - intros a [Ea ?]%lookup_insert_None. unfold walk_link. rewrite decide_False by congruence.
    by apply bd_new0.
Qed.

(** The switches after [y] is queued as a child of [x]. *)
Definition pushed (x y : nat) (sws sws' : list switch_t) : Prop :=
  shapes sws' = shapes sws ∧ routing_table <$> sws' = routing_table <$> sws
  ∧ ∀ a, match sws !! a, sws' !! a with
         | Some s, Some s' =>
             q_st s' = (if decide (a = y) then Q_MEMBER else q_st s)
             ∧ used_channels s' = (if decide (a = x) then S (used_channels s) else used_channels s)
             ∧ ∀ b, b ∈ children s' ↔ b ∈ children s ∨ (a = x ∧ b = y)
         | None, None => True
         | _, _ => False
         end.

Lemma elem_children_push s id b :
  used_channels s < length (dij_channels s) →
  b ∈ children (s <| dij_channels := <[used_channels s := id]> (dij_channels s) |>
                  <| used_channels := S (used_channels s) |>)
  ↔ b ∈ children s ∨ b = id.
Proof.
  intros Hlt. unfold children. simpl. rewrite (take_S_r _ _ id).
  - rewrite take_insert_ge, elem_of_app, list_elem_of_singleton by lia. done.
  - by rewrite list_lookup_insert_eq.
Qed.

Lemma push_ok x y sx sy sws :
  sws !! x = Some sx → sws !! y = Some sy → x ≠ y → used_channels sx < length (dij_channels sx) →
  pushed x y sws
    (<[x := sx <| dij_channels := <[used_channels sx := y]> (dij_channels sx) |>
               <| used_channels := S (used_channels sx) |>]>
       (<[y := sy <| q_st := Q_MEMBER |>]> sws)).
Proof.
  intros Ex Ey Hxy Hroom. split_and!.
  - erewrite shapes_insert, shapes_insert; [done|done|done| |].
    + by rewrite list_lookup_insert_ne.
    + unfold shape. simpl. by rewrite length_insert.
  - rewrite !list_fmap_insert. simpl.
    rewrite list_insert_id; [|rewrite list_lookup_insert_ne, list_lookup_fmap, Ex by done; done].
    by rewrite list_insert_id; [|rewrite list_lookup_fmap, Ey].
  - intros a. destruct (decide (a = x)) as [->|Hax].
    + rewrite list_lookup_insert_eq by (rewrite length_insert; by apply lookup_lt_Some in Ex).
      rewrite Ex, decide_False by done. split_and!; [done..|].
      intros b. rewrite elem_children_push by done. naive_solver.
    + rewrite list_lookup_insert_ne by done. destruct (decide (a = y)) as [->|Hay].
      * rewrite list_lookup_insert_eq by (by apply lookup_lt_Some in Ey).
        rewrite Ey. split_and!; [done..|]. intros b. naive_solver.
      * rewrite list_lookup_insert_ne by done. destruct (sws !! a); [|done].
        split_and!; [done..|]. intros b. naive_solver.
Qed.

Lemma pushed_l x y sws sws' a s :
  pushed x y sws sws' → sws !! a = Some s →
  ∃ s', sws' !! a = Some s' ∧ ∀ b, b ∈ children s' ↔ b ∈ children s ∨ (a = x ∧ b = y).
Proof.
  intros (_ & _ & H) E. specialize (H a). rewrite E in H. destruct (sws' !! a) as [s'|]; [|done].
  naive_solver.
Qed.

Lemma pushed_r x y sws sws' a s' :
  pushed x y sws sws' → sws' !! a = Some s' →
  ∃ s, sws !! a = Some s ∧ q_st s' = (if decide (a = y) then Q_MEMBER else q_st s)
   ∧ used_channels s' = (if decide (a = x) then S (used_channels s) else used_channels s)
   ∧ ∀ b, b ∈ children s' ↔ b ∈ children s ∨ (a = x ∧ b = y).
Proof.
  intros (_ & _ & H) E. specialize (H a). rewrite E in H. destruct (sws !! a) as [s|]; [|done].
  naive_solver.
Qed.

Lemma tree_new x q walked sws dep l dx sws' :
  bfs_depths (x :: q) walked dep → bfs_tree walked sws dep → adj sws0 x (l_switch_id l) →
  dep !! x = Some dx → dep !! l_switch_id l = None →
  pushed x (l_switch_id l) sws sws' →
  bfs_tree (walk_link walked x l) sws' (<[l_switch_id l := S dx]> dep).
Proof.
  intros Hd H Hadj Edx Ey Hp. set (y := l_switch_id l) in *.
  assert (Hxy : x ≠ y) by congruence.
  assert (Hkeep : ∀ b db, dep !! b = Some db → <[y := S dx]> dep !! b = Some db).
  { intros b db Hb. rewrite lookup_insert_ne; [done|]. intros <-. congruence. }
  destruct H. split.
  - rewrite <- bt_shapes0. apply Hp.
  - rewrite <- bt_tables0. apply Hp.
  - intros a s1 E1. destruct (pushed_r _ _ _ _ _ _ Hp E1) as (s0 & E0 & -> & _).
    case_decide as Hay.
    + subst. rewrite lookup_insert_eq. done.
    + rewrite lookup_insert_ne by done. by apply bt_dom0.
  - intros a s1 E1. destruct (pushed_r _ _ _ _ _ _ Hp E1) as (s0 & E0 & _ & -> & _).
    specialize (bt_used0 a s0 E0). unfold walk_link. case_decide; [|done].
    subst. rewrite length_app. simpl. lia.
  - intros a s1 b E1 Hb. destruct (pushed_r _ _ _ _ _ _ Hp E1) as (s0 & E0 & _ & _ & Hc).
    destruct (proj1 (Hc b) Hb) as [Hb0|[Ha Hy]].
    + destruct (bt_child0 a s0 b E0 Hb0) as (da & Ea & ? & Eb). exists da. auto.
    + rewrite Ha, Hy. exists dx. rewrite lookup_insert_eq. auto.
  - intros b d [[<- <-]|[Hne Eb]]%lookup_insert_Some Hr.
    + assert (x < length sws) as [sx Ex]%lookup_lt_is_Some.
      { rewrite (shapes_length _ _ bt_shapes0). by apply (bd_range _ _ _ Hd x dx). }
      destruct (pushed_l _ _ _ _ _ _ Hp Ex) as (s' & E' & Hc). exists x, s'.
      split; [done|]. apply Hc. by right.
    + destruct (bt_parent0 b d Eb Hr) as (a & s & Ea & Hb).
      destruct (pushed_l _ _ _ _ _ _ Hp Ea) as (s' & E' & Hc). exists a, s'.
      split; [done|]. apply Hc. by left.
Qed.

Lemma depths_size A walked dep : bfs_depths A walked dep → size dep ≤ n.
Proof.
  intros H. assert (dom dep ⊆ (list_to_set (seq 0 n) : gset nat)) as Hsub%subseteq_size;
    [|by rewrite size_dom, size_list_to_set, length_seq in Hsub by apply NoDup_seq].
  intros a [d Hd]%elem_of_dom. apply elem_of_list_to_set, elem_of_seq.
  destruct (bd_range _ _ _ H a d Hd). lia.
Qed.

Lemma tree_lookup walked sws dep a :
  bfs_tree walked sws dep → a < n → ∃ s, sws !! a = Some s ∧ switch_ok n a s
    ∧ ∃ s0, sws0 !! a = Some s0 ∧ links s = links s0.
Proof.
  intros H Ha. rewrite <- (shapes_length _ _ (bt_shapes _ _ _ H)) in Ha |- *.
  apply lookup_lt_is_Some in Ha as [s E]. exists s. split; [done|]. split.
  - by apply (switches_ok_shapes sws0 sws (bt_shapes _ _ _ H) Hok).
  - destruct (shapes_lookup sws sws0 a s) as (s0 & E0 & Es); [by rewrite (bt_shapes _ _ _ H)|done|].
    exists s0. split; [done|]. by injection Es.
Qed.

(** What is left: the switches not reached, and the queue. *)
Definition bfs_measure (q : list nat) (dep : gmap nat nat) : nat := n - size dep + length q.

(** The switches of the queue are not walked yet. *)
Definition queue_new (x : nat) (q : list nat) (walked : nat → list link_t) : Prop :=
  NoDup (x :: q) ∧ ∀ a, a ∈ q → walked a = [].

Lemma queue_new_walk x q walked l : queue_new x q walked → queue_new x q (walk_link walked x l).
Proof.
  intros [Hn Hw]. split; [done|]. intros a Ha. unfold walk_link. rewrite decide_False; [by apply Hw|].
  intros ->. by apply NoDup_cons in Hn as [? _].
Qed.

Lemma queue_new_snoc x q walked y :
  queue_new x q walked → y ∉ x :: q → walked y = [] → queue_new x (q ++ [y]) walked.
Proof.
  intros [Hn Hw] Hy Hwy. split.
  - change (NoDup ((x :: q) ++ [y])). apply NoDup_app. split_and!; [done|set_solver|apply NoDup_singleton].
  - intros a [?|Ha%list_elem_of_singleton]%elem_of_app; subst; auto.
Qed.

Lemma path_link_ok x q walked sws dep l s :
  bfs_depths (x :: q) walked dep → bfs_tree walked sws dep → queue_new x q walked →
  sws0 !! x = Some s → l ∈ links s → length (walked x) < length (links s) →
  ∃ sws' q' dep', path_link x (sws, q) l = Some (sws', q')
    ∧ bfs_depths (x :: q') (walk_link walked x l) dep' ∧ bfs_tree (walk_link walked x l) sws' dep'
    ∧ queue_new x q' (walk_link walked x l) ∧ bfs_measure q' dep' ≤ bfs_measure q dep.
Proof.
  intros Hd Ht Hq Es Hl Hlen. destruct (bd_active _ _ _ Hd x) as [dx Edx]; [left|].
  destruct (Hok x s Es) as (_ & _ & _ & _ & Hids).
  destruct (tree_lookup _ _ _ _ Ht (Hids l Hl)) as (sy & Ey & Hsy & _).
  unfold path_link. cbn [fst snd]. rewrite Ey. cbn [mbind option_bind].
  destruct (decide (q_st sy = UNQUEUED)) as [Hu|Hu].
  - assert (Edy : dep !! l_switch_id l = None) by (by apply (bt_dom _ _ _ Ht _ sy)).
    assert (Hne : x ≠ l_switch_id l) by congruence.
    unfold enqueue. cbn [fst snd]. rewrite Ey. cbn [mbind option_bind].
    destruct (tree_lookup _ _ _ x Ht) as (sx & Ex & Hsx & s0 & Es0 & Els);
      [by apply (bd_range _ _ _ Hd x dx)|].
    rewrite Es in Es0. injection Es0 as <-.
    rewrite list_lookup_insert_ne by done. rewrite Ex. cbn [mbind option_bind].
    pose proof (bt_used _ _ _ Ht x sx Ex) as Hused.
    destruct Hsx as (_ & _ & Hroom & _). rewrite Els in Hroom.
    unfold check. replace (used_channels sx <? _) with true by (symmetry; apply Nat.ltb_lt; lia).
    cbn [mbind option_bind]. destruct Hsy as (-> & _).
    eexists _, _, (<[l_switch_id l := S dx]> dep). split; [done|].
    pose proof (depths_new x q walked dep l s dx Hd Es Hl Edx Edy) as Hd'.
    split_and!; [exact Hd'| | |].
    + apply (tree_new x q walked sws dep l dx); [done|done|by exists s, l|done|done|].
      apply push_ok; [done|done|done|lia].
    + apply queue_new_walk, queue_new_snoc; [done| |by apply (bd_new _ _ _ Hd)].
      intros Hin. destruct (bd_active _ _ _ Hd _ Hin). congruence.
    + apply depths_size in Hd'. rewrite map_size_insert_None in Hd' by done.
      unfold bfs_measure. rewrite map_size_insert_None by done.
      rewrite length_app. simpl. lia.
  - exists sws, q, dep. split_and!; [done| |by apply tree_seen|by apply queue_new_walk|done].
    apply depths_seen; [done|]. destruct (dep !! l_switch_id l) eqn:E; [by eexists|].
    destruct Hu. by apply (bt_dom _ _ _ Ht (l_switch_id l) sy).
Qed.

(** All links of the switch at the head of the queue. *)
Lemma path_links_ok x q walked sws dep s :
  bfs_depths (x :: q) walked dep → bfs_tree walked sws dep → queue_new x q walked →
  sws0 !! x = Some s → walked x = [] →
  ∃ sws' q' walked' dep', foldM (path_link x) (links s) (sws, q) = Some (sws', q')
    ∧ bfs_depths (x :: q') walked' dep' ∧ bfs_tree walked' sws' dep' ∧ queue_new x q' walked'
    ∧ walked' x = links s ∧ bfs_measure q' dep' ≤ bfs_measure q dep.
Proof.
  intros Hd Ht Hq Es Hw.
  destruct (foldM_rule (path_link x)
    (λ done st, ∃ walked' dep', bfs_depths (x :: st.2) walked' dep' ∧ bfs_tree walked' st.1 dep'
       ∧ queue_new x st.2 walked' ∧ walked' x = done ∧ bfs_measure st.2 dep' ≤ bfs_measure q dep) (links s) (sws, q))
    as ([sws' q'] & E & walked' & dep' & ? & ? & ? & ? & ?).
  - exists walked, dep. done.
  - intros l1 l l2 [sws1 q1] El (w1 & d1 & Hd1 & Ht1 & Hq1 & Hw1 & Hm1). simpl in *.
    destruct (path_link_ok x q1 w1 sws1 d1 l s) as (sws2 & q2 & d2 & E2 & Hd2 & Ht2 & Hq2 & Hm2);
      [done|done|done|done|rewrite El; set_solver|rewrite Hw1, El, length_app; simpl; lia|].
    exists (sws2, q2). split; [done|]. exists (walk_link w1 x l), d2. split_and!; [done|done|done| |simpl; lia].
    unfold walk_link. by rewrite decide_True, Hw1.
  - by exists sws', q', walked', dep'.
Qed.

(** A switch is taken from the queue. *)
Lemma tree_mark x walked sws dep s :
  bfs_tree walked sws dep → sws !! x = Some s → is_Some (dep !! x) →
  bfs_tree walked (<[x := s <| q_st := MST_MEMBER |>]> sws) dep.
Proof.
  intros H E Hx.
  assert (Hl : ∀ a s', <[x := s <| q_st := MST_MEMBER |>]> sws !! a = Some s' →
     ∃ s0, sws !! a = Some s0 ∧ used_channels s' = used_channels s0 ∧ children s' = children s0
      ∧ (q_st s' = UNQUEUED ↔ a ≠ x ∧ q_st s0 = UNQUEUED)).
  { intros a s' [(<- & <- & _)|[Hne E']]%list_lookup_insert_Some; [by exists s; naive_solver|].
    exists s'. naive_solver. }
  destruct H. split.
  - rewrite <- bt_shapes0. by apply shapes_insert with s.
  - rewrite <- bt_tables0, list_fmap_insert. apply list_insert_id. by rewrite list_lookup_fmap, E.
  - intros a s' (s0 & E0 & _ & _ & ->)%Hl. rewrite (bt_dom0 a s0 E0). split; [naive_solver|].
    intros Ha. split; [|done]. intros ->. rewrite Ha in Hx. by destruct Hx.
  - intros a s' (s0 & E0 & -> & _)%Hl. by apply bt_used0.
  - intros a s' b (s0 & E0 & _ & -> & _)%Hl. by apply bt_child0.
  - intros b d Hb Hr. destruct (bt_parent0 b d Hb Hr) as (a & s0 & E0 & Hc).
    destruct (decide (x = a)) as [->|Hne].
    + exists a. eexists. rewrite list_lookup_insert_eq by (by apply lookup_lt_Some in E0).
      split; [done|]. rewrite E in E0. by injection E0 as ->.
    + exists a, s0. by rewrite list_lookup_insert_ne.
Qed.

(** Its links done, the switch leaves the front. *)
Lemma depths_pop x q walked dep s :
  bfs_depths (x :: q) walked dep → sws0 !! x = Some s → walked x = links s →
  bfs_depths q walked dep.
Proof.
  intros H Es Hw. destruct H. split; try done.
  - intros a Ha. apply bd_active0. by right.
  - intros i j a b da db Hij Ei Ej. apply (bd_sorted0 (S i) (S j)); [lia|done|done].
  - intros a b da db Ha. apply bd_front0. by right.
  - intros a s' Ha HA Es'. destruct (decide (a = x)) as [->|?]; [congruence|].
    apply bd_finished0; [done|set_solver|done].
Qed.

Lemma path_loop_ok fuel : ∀ q walked sws dep,
  bfs_depths q walked dep → bfs_tree walked sws dep → NoDup q → (∀ a, a ∈ q → walked a = []) →
  bfs_measure q dep < fuel →
  ∃ sws' walked' dep', path_loop fuel (sws, q) = Some sws'
    ∧ bfs_depths [] walked' dep' ∧ bfs_tree walked' sws' dep'.
Proof.
  induction fuel as [|fuel IH]; intros q walked sws dep Hd Ht Hn Hw Hm; [lia|].
  destruct q as [|x q]; [by exists sws, walked, dep|]. cbn [path_loop fst snd].
  destruct (bd_active _ _ _ Hd x) as [dx Edx]; [left|].
  destruct (tree_lookup _ _ _ x Ht) as (sx & Ex & _ & s & Es & Els); [by apply (bd_range _ _ _ Hd x dx)|].
  rewrite Ex. cbn [mbind option_bind]. rewrite Els.
  destruct (path_links_ok x q walked (<[x := sx <| q_st := MST_MEMBER |>]> sws) dep s)
    as (sws1 & q1 & w1 & d1 & E1 & Hd1 & Ht1 & Hq1 & Hw1 & Hm1).
  - done.
  - apply tree_mark; [done|done|by eexists].
  - split; [done|]. intros a Ha. apply Hw. by right.
  - done.
  - apply Hw. left.
  - rewrite E1. apply (IH q1 w1 sws1 d1).
    + by apply (depths_pop x q1 w1 d1 s).
    + done.
    + by destruct Hq1 as [[_ ?]%NoDup_cons _].
    + apply Hq1.
    + unfold bfs_measure in *. simpl in *. lia.
Qed.

(** The switches before a search. *)
Definition at_rest (sws : list switch_t) : Prop :=
  ∀ a s, sws !! a = Some s → q_st s = UNQUEUED ∧ used_channels s = 0.

(** The tree found: its depths are the distances, and it has all that can be
    reached. *)
Record search_tree (sws : list switch_t) (dep : gmap nat nat) : Prop := {
  st_shapes : shapes sws = shapes sws0;
  st_tables : routing_table <$> sws = routing_table <$> sws0;
  st_range : ∀ a d, dep !! a = Some d → a < n ∧ d < n;
  st_root : dep !! r = Some 0;
  st_dist : ∀ a d, dep !! a = Some d → dist sws0 d r a;
  st_reach : ∀ m b, nsteps (adj sws0) m r b → is_Some (dep !! b);
  st_child : ∀ a s b, sws !! a = Some s → b ∈ children s →
               ∃ da, dep !! a = Some da ∧ adj sws0 a b ∧ dep !! b = Some (S da);
  st_parent : ∀ b d, dep !! b = Some d → b ≠ r → ∃ a s, sws !! a = Some s ∧ b ∈ children s
}.

Lemma depths_reach walked sws dep m b :
  bfs_depths [] walked dep → bfs_tree walked sws dep → nsteps (adj sws0) m r b →
  ∃ d, dep !! b = Some d ∧ d ≤ m.
Proof.
  intros Hd Ht. revert b. induction m as [|m IH]; intros b Hm.
  - inversion Hm; subst. exists 0. split; [apply (bd_root _ _ _ Hd)|done].
  - apply nsteps_inv_r in Hm as (a & Ha & s & l & Es & Hl & <-).
    destruct (IH a Ha) as (da & Eda & ?).
    rewrite <- (bd_finished _ _ _ Hd a s ltac:(by eexists) ltac:(by apply not_elem_of_nil) Es) in Hl.
    destruct (bd_walked _ _ _ Hd a l da Hl Eda) as (db & Edb & ?). exists db. split; [done|lia].
Qed.

Lemma shortest_path_ok :
  at_rest sws0 → r < n → ∃ sws dep, shortest_path sws0 r = Some sws ∧ search_tree sws dep.
Proof.
  intros Hrest Hr. destruct (lookup_lt_is_Some_2 sws0 r Hr) as [sr Er].
  unfold shortest_path, enqueue. cbn [fst snd]. rewrite Er. cbn [mbind option_bind app].
  destruct (path_loop_ok (S n) [r] (λ _, []) (<[r := sr <| q_st := Q_MEMBER |>]> sws0) {[r := 0]})
    as (sws & w & dep & E & Hd & Ht).
  - split.
    + intros a d [<- <-]%lookup_singleton_Some. rewrite map_size_singleton. split; [done|lia].
    + apply lookup_singleton_eq.
    + intros a d [<- <-]%lookup_singleton_Some. constructor.
    + intros a Ha%list_elem_of_singleton. subst. rewrite lookup_singleton_eq. by eexists.
    + intros i j a b da db _ _ _ [_ <-]%lookup_singleton_Some _. lia.
    + intros a b da db _ _ [_ <-]%lookup_singleton_Some. lia.
    + intros a l da []%elem_of_nil.
    + intros a s [d [<- _]%lookup_singleton_Some] Ha. by destruct Ha; left.
    + done.
  - assert (Hl : ∀ a s', <[r := sr <| q_st := Q_MEMBER |>]> sws0 !! a = Some s' → used_channels s' = 0
       ∧ (q_st s' = UNQUEUED ↔ a ≠ r)).
    { intros a s' [(<- & <- & _)|[Hne E']]%list_lookup_insert_Some.
      - destruct (Hrest r sr Er). naive_solver.
      - destruct (Hrest a s' E'). naive_solver. }
    split.
    + by apply shapes_insert with sr.
    + rewrite list_fmap_insert. apply list_insert_id. by rewrite list_lookup_fmap, Er.
    + intros a s' [_ ->]%Hl. rewrite lookup_singleton_None. naive_solver.
    + intros a s' [-> _]%Hl. lia.
    + intros a s' b [H _]%Hl Hb. unfold children in Hb. rewrite H in Hb. by apply elem_of_nil in Hb.
    + intros b d [<- _]%lookup_singleton_Some Hb. done.
  - apply NoDup_singleton.
  - done.
  - unfold bfs_measure. rewrite map_size_singleton. simpl. lia.
  - exists sws, dep. split; [done|].
    pose proof (depths_size _ _ _ Hd) as Hsz.
    split; try apply Ht; try apply Hd.
    + intros a d Ha. destruct (bd_range _ _ _ Hd a d Ha). lia.
    + intros a d Ha. split; [by apply (bd_walk _ _ _ Hd)|]. intros m Hm.
      destruct (depths_reach w sws dep m a Hd Ht Hm) as (d' & Ha' & ?). congruence.
    + intros m b Hm. destruct (depths_reach w sws dep m b Hd Ht Hm) as (d & -> & _). by eexists.
Qed.
End Search.

(** ** From the tree to table entries *)

(** All of a switch but its links to destinations. *)
Definition spine (s : switch_t) : nat * nat * list nat * q_state * list link_t * nat * list Z :=
  (sw_id s, used_channels s, dij_channels s, q_st s, links s, link_slots s, (routing_table s).*2).

Definition spines (sws : list switch_t) := spine <$> sws.

Lemma spines_shapes sws sws' : spines sws' = spines sws → shapes sws' = shapes sws.
Proof.
  intros H. unfold spines in H.
  assert (E : shapes sws = (λ '(i, _, dij, _, l, _, t), (i, length dij, l, length t)) <$> (spine <$> sws)).
  { unfold shapes. rewrite <- list_fmap_compose. apply list_fmap_ext. intros i s _.
    unfold shape, spine, compose. by rewrite length_fmap. }
  rewrite E, <- H. unfold shapes. rewrite <- list_fmap_compose. apply list_fmap_ext. intros i s _.
  unfold shape, spine, compose. by rewrite length_fmap.
Qed.

Lemma spines_lookup sws sws' i s :
  spines sws' = spines sws → sws !! i = Some s → ∃ s', sws' !! i = Some s' ∧ spine s' = spine s.
Proof.
  intros H E. apply (f_equal (.!! i)) in H. unfold spines in H. rewrite !list_lookup_fmap, E in H.
  destruct (sws' !! i) as [s'|]; [|done]. apply (inj Some) in H. eauto.
Qed.

Lemma spines_insert sws i s s' :
  sws !! i = Some s → spine s' = spine s → spines (<[i := s']> sws) = spines sws.
Proof.
  intros E Hs. unfold spines. rewrite list_fmap_insert, Hs. apply list_insert_id.
  by rewrite list_lookup_fmap, E.
Qed.

Definition child (sws : list switch_t) (a b : nat) : Prop := ∃ s, sws !! a = Some s ∧ b ∈ children s.

Lemma child_spines sws sws' a b : spines sws' = spines sws → child sws a b → child sws' a b.
Proof.
  intros Hs (s & E & Hb). destruct (spines_lookup _ _ _ _ Hs E) as (s' & E' & Es).
  injection Es as _ E2 E3 _ _ _. exists s'. unfold children. by rewrite E2, E3.
Qed.

(** Link [e] of [a] leads one step closer to [d]. *)
Definition good_link (sws : list switch_t) (a d : nat) (e : Z) : Prop :=
  (0 ≤ e < 256)%Z ∧ ∃ t k, get_next_switch sws a e = Some t ∧ dist sws (S k) a d ∧ dist sws k t d.

Lemma good_some sws a d e : good_link sws a d e → e ≠ NONE.
Proof. intros [? _]. unfold NONE, MAX_INT. lia. Qed.

Section Tables.
Variable sws0 : list switch_t.
Hypothesis Hok : switches_ok sws0.
Notation n := (length sws0).

Definition tables_good (sws : list switch_t) : Prop :=
  ∀ a d e, out_link sws a d = Some e → e ≠ NONE → good_link sws0 a d e.

Definition routed (sws : list switch_t) (a d : nat) : Prop :=
  ∃ e, out_link sws a d = Some e ∧ e ≠ NONE.

(** Entries are added, and only good ones. *)
Record table_step (sws sws' : list switch_t) : Prop := {
  ts_spines : spines sws' = spines sws;
  ts_good : tables_good sws → tables_good sws';
  ts_keep : ∀ a d, routed sws a d → routed sws' a d
}.

#[local] Instance table_step_refl : Reflexive table_step.
Proof. done. Qed.

#[local] Instance table_step_trans : Transitive table_step.
Proof. intros s1 s2 s3 [A1 A2 A3] [B1 B2 B3]. split; [congruence|auto|auto]. Qed.

Variable r : nat.
Variable swsT : list switch_t.
Variable dep : gmap nat nat.
Hypothesis HT : search_tree sws0 r swsT dep.
Notation child := (child swsT).

Lemma child_dep a b : child a b → ∃ da, dep !! a = Some da ∧ adj sws0 a b ∧ dep !! b = Some (S da).
Proof. intros (s & E & Hb). by apply (st_child _ _ _ _ HT a s). Qed.

Lemma below_steps k a d da :
  nsteps child k a d → dep !! a = Some da → nsteps (adj sws0) k a d ∧ dep !! d = Some (da + k).
Proof.
  intros H. revert da. induction H as [a|k a b d Hab _ IH]; intros da Ea.
  - split; [constructor|]. by rewrite Nat.add_0_r.
  - destruct (child_dep a b Hab) as (da' & Ea' & Hadj & Eb). rewrite Ea in Ea'. injection Ea' as <-.
    destruct (IH _ Eb) as [H1 H2]. split; [by apply nsteps_l with b|]. rewrite H2. f_equal. lia.
Qed.

(** In the tree the path down to [d] is a shortest one. *)
Lemma below_dist k a d da : nsteps child k a d → dep !! a = Some da → dist sws0 k a d.
Proof.
  intros H Ea. destruct (below_steps k a d da H Ea) as [Hk Ed]. split; [done|].
  intros m Hm. destruct (st_dist _ _ _ _ HT a da Ea) as [Hra _].
  destruct (st_dist _ _ _ _ HT d _ Ed) as [_ Hmin].
  specialize (Hmin (da + m) (nsteps_trans _ _ _ _ _ Hra Hm)). lia.
Qed.

Lemma phys_connection s c :
  c ∈ l_switch_id <$> links s →
  ∃ l, links s !! Z.to_nat (get_phys_connection s c) = Some l ∧ l_switch_id l = c
       ∧ (0 ≤ get_phys_connection s c < Z.of_nat (length (links s)))%Z.
Proof.
  intros (l & -> & Hl)%list_elem_of_fmap. unfold get_phys_connection.
  destruct (list_find _ _) as [[i l']|] eqn:E.
  - apply list_find_Some in E as (Hi & Hid & _). exists l'. rewrite Nat2Z.id.
    split; [done|]. split; [done|]. apply lookup_lt_Some in Hi. lia.
  - apply list_find_None in E. rewrite Forall_forall in E. by destruct (E l Hl).
Qed.

Lemma out_link_insert sws a s t b d :
  sws !! a = Some s →
  out_link (<[a := s <| routing_table := t |>]> sws) b d
  = if decide (b = a) then (e ← t !! d; Some e.1) else out_link sws b d.
Proof.
  intros E. unfold out_link. case_decide as Hb.
  - subst. by rewrite list_lookup_insert_eq by (by apply lookup_lt_Some in E).
  - by rewrite list_lookup_insert_ne.
Qed.

Lemma route_dest_ok a c d sws :
  spines sws = spines swsT → child a c → rtc child c d →
  ∃ sws', route_dest a c sws d = Some sws' ∧ table_step sws sws' ∧ routed sws' a d.
Proof.
  intros Hsp Hc Hd. destruct (child_dep a c Hc) as (da & Ea & Hadj & Ec).
  apply rtc_nsteps in Hd as [k Hk].
  destruct (below_steps k c d _ Hk Ec) as [_ Ed]. destruct (st_range _ _ _ _ HT d _ Ed) as [Hd _].
  destruct (st_range _ _ _ _ HT a _ Ea) as [Ha _].
  assert (Hsh : shapes sws = shapes sws0).
  { rewrite <- (st_shapes _ _ _ _ HT). by apply spines_shapes. }
  destruct (lookup_lt_is_Some_2 sws a) as [s Es]; [by rewrite (shapes_length _ _ Hsh)|].
  pose proof (switches_ok_shapes sws0 sws Hsh Hok a s Es) as (_ & Hlen & _ & Hshort & _).
  rewrite (shapes_length _ _ Hsh) in Hlen.
  destruct (lookup_lt_is_Some_2 (routing_table s) d) as [e Ee]; [by rewrite Hlen|].
  unfold route_dest. rewrite Es. cbn [mbind option_bind]. rewrite Ee. cbn [mbind option_bind].
  destruct (Z.eqb_spec e.1 NONE) as [Hn|Hn].
  - destruct (shapes_lookup sws sws0 a s) as (s0 & Es0 & Esh); [by symmetry|done|].
    injection Esh as _ _ El _.
    destruct (phys_connection s c) as (l & Hl & Hlc & Hrange).
    { destruct Hadj as (s1 & l & E1 & Hl & Hlc). rewrite Es0 in E1. injection E1 as <-.
      apply list_elem_of_fmap. exists l. by rewrite <- El. }
    assert (Hgood : good_link sws0 a d (get_phys_connection s c)).
    { split; [lia|]. exists c, k. split_and!.
      - unfold get_next_switch. rewrite Es0. cbn [mbind option_bind]. rewrite El, Hl. simpl. by rewrite Hlc.
      - apply (below_dist (S k) a d da); [by apply nsteps_l with c|done].
      - by apply (below_dist k c d (S da)). }
    eexists. split; [done|]. split; [split|].
    + apply spines_insert with s; [done|]. unfold spine. simpl. f_equal.
      rewrite list_fmap_insert. apply list_insert_id. by rewrite list_lookup_fmap, Ee.
    + intros Hg b d' e'. rewrite out_link_insert by done. case_decide as Hb; [|apply Hg].
      subst b. destruct (decide (d' = d)) as [->|Hd'].
      * rewrite list_lookup_insert_eq by (by rewrite Hlen). by intros [= <-] _.
      * rewrite list_lookup_insert_ne by done. intros He. apply Hg. unfold out_link. by rewrite Es.
    + intros b d' (e' & He' & Hne). unfold routed. rewrite out_link_insert by done.
      case_decide as Hb; [|by exists e']. subst b. destruct (decide (d' = d)) as [->|Hd'].
      * rewrite list_lookup_insert_eq by (by rewrite Hlen). eexists. split; [done|]. by apply (good_some _ _ _ _ Hgood).
      * rewrite list_lookup_insert_ne by done. exists e'. split; [|done].
        unfold out_link in He'. by rewrite Es in He'.
    + unfold routed. rewrite out_link_insert, decide_True, list_lookup_insert_eq by (done || by rewrite Hlen).
      eexists. split; [done|]. by apply (good_some _ _ _ _ Hgood).
  - exists sws. split_and!; [done|done|]. exists e.1. split; [|done]. unfold out_link.
    rewrite Es. cbn [mbind option_bind]. by rewrite Ee.
Qed.

Lemma route_dests_ok a c l sws :
  spines sws = spines swsT → child a c → (∀ d, d ∈ l → rtc child c d) →
  ∃ sws', foldM (route_dest a c) l sws = Some sws' ∧ table_step sws sws' ∧ ∀ d, d ∈ l → routed sws' a d.
Proof.
  intros Hsp Hc Hl.
  apply (foldM_rule (route_dest a c)
    (λ done sws', table_step sws sws' ∧ ∀ d, d ∈ done → routed sws' a d)).
  - split; [done|]. intros d []%elem_of_nil.
  - intros l1 d l2 sws1 El [Hs1 Hr1].
    destruct (route_dest_ok a c d sws1) as (sws2 & E2 & Hs2 & Hr2).
    + rewrite <- Hsp. apply Hs1.
    + done.
    + apply Hl. rewrite El. set_solver.
    + exists sws2. split_and!; [done|by transitivity sws1|].
      intros d' [Hd'|Hd'%list_elem_of_singleton]%elem_of_app; [by apply Hs2, Hr1|by subst].
Qed.

(** The subtree of [a]: its destinations are what lies below [a] in the tree, and
    [a] has a route to each of them. *)
Lemma generate_routes_ok fuel : ∀ sws a da,
  spines sws = spines swsT → dep !! a = Some da → n ≤ da + fuel →
  ∃ sws' l, generate_routing_func_for_mst fuel sws a = Some (sws', l)
    ∧ table_step sws sws' ∧ (∀ d, d ∈ l ↔ rtc child a d) ∧ ∀ d, tc child a d → routed sws' a d.
Proof.
  induction fuel as [|fuel IH]; intros sws a da Hsp Ea Hf.
  { destruct (st_range _ _ _ _ HT a da Ea). lia. }
  assert (Ha : a < n) by (by destruct (st_range _ _ _ _ HT a da Ea)).
  assert (Hsh : shapes sws = shapes sws0).
  { rewrite <- (st_shapes _ _ _ _ HT). by apply spines_shapes. }
  destruct (lookup_lt_is_Some_2 sws a) as [s Es]; [by rewrite (shapes_length _ _ Hsh)|].
  pose proof (switches_ok_shapes sws0 sws Hsh Hok a s Es) as (Hid & _).
  assert (Hch : ∀ c, c ∈ children s → child a c).
  { intros c Hc. apply (child_spines sws); [by symmetry|]. by exists s. }
  assert (Hch' : ∀ c, child a c → c ∈ children s).
  { intros c Hc. apply (child_spines swsT sws) in Hc; [|done]. destruct Hc as (s' & Es' & Hc).
    rewrite Es in Es'. by injection Es' as <-. }
  cbn [generate_routing_func_for_mst]. rewrite Es. cbn [mbind option_bind].
  match goal with |- context [foldM ?f (take _ _) _] => set (g := f) end.
  destruct (foldM_rule g
    (λ done st, table_step sws st.1 ∧ (∀ d, d ∈ st.2 ↔ ∃ c, c ∈ done ∧ rtc child c d)
       ∧ ∀ d, d ∈ st.2 → routed st.1 a d) (children s) (sws, []))
    as ([sws' l] & E & Hs & Hl & Hr).
  - split_and!; [done| |by intros d []%elem_of_nil]. intros d. split; [by intros []%elem_of_nil|].
    intros (c & []%elem_of_nil & _).
  - intros l1 c l2 [sws1 cc] El (Hs1 & Hl1 & Hr1). simpl in *.
    assert (Hc : child a c) by (apply Hch; rewrite El; set_solver).
    destruct (child_dep a c Hc) as (da' & Ea' & _ & Ec). rewrite Ea in Ea'. injection Ea' as <-.
    assert (Hsp1 : spines sws1 = spines swsT) by (rewrite <- Hsp; apply Hs1).
    destruct (IH sws1 c (S da) Hsp1 Ec ltac:(lia)) as (sws2 & l & E2 & Hs2 & Hl2 & _).
    rewrite E2. cbn [mbind option_bind].
    destruct (route_dests_ok a c l sws2) as (sws3 & E3 & Hs3 & Hr3); [|done|by intros d ?%Hl2|].
    { rewrite <- Hsp1. apply Hs2. }
    rewrite E3. eexists. split; [done|]. simpl. split_and!.
    + transitivity sws1; [done|]. by transitivity sws2.
    + intros d. rewrite elem_of_app, Hl1, Hl2. set_solver.
    + intros d [Hd|Hd]%elem_of_app; [by apply Hr3|]. by apply Hs3, Hs2, Hr1.
  - unfold children in E. rewrite E. eexists _, _. split; [done|]. simpl in *. split_and!; [done| |].
    + intros d. rewrite elem_of_cons, Hid, Hl. split.
      * intros [->|(c & Hc%Hch & Hd)]; [done|]. by apply rtc_l with c.
      * intros Hd. inversion Hd as [|? c ? Hac Hcd]; subst; [by left|]. right. exists c. auto.
    + intros d Hd. apply Hr, Hl. inversion Hd as [? ? Hac|? c ? Hac Hcd]; subst.
      * exists d. split; [by apply Hch'|done].
      * exists c. split; [by apply Hch'|]. by apply tc_rtc.
Qed.

(** Everything the search reached lies below its root. *)
Lemma below_root d : is_Some (dep !! d) → rtc child r d.
Proof.
  intros [dd Ed]. revert d Ed. induction dd as [dd IH] using lt_wf_ind. intros d Ed.
  destruct (decide (d = r)) as [->|Hr]; [done|].
  destruct (st_parent _ _ _ _ HT d dd Ed Hr) as (a & s & Es & Hc).
  destruct (st_child _ _ _ _ HT a s d Es Hc) as (da & Ea & _ & Ed'). rewrite Ed in Ed'. injection Ed' as ->.
  apply rtc_r with a; [by apply (IH da ltac:(lia))|]. by exists s.
Qed.
End Tables.

(** ** All trees *)

Lemma tables_good_graph sws0 sws1 sws :
  shapes sws1 = shapes sws0 → tables_good sws0 sws → tables_good sws1 sws.
Proof.
  intros Hs H a d e He Hne. destruct (H a d e He Hne) as (Hr & t & k & Ht & Hd1 & Hd2).
  split; [done|]. exists t, k. split_and!; [|by apply (dist_shapes sws0)|by apply (dist_shapes sws0)].
  unfold get_next_switch in *. destruct (sws0 !! a) as [s|] eqn:E; [|done].
  destruct (shapes_lookup sws0 sws1 a s Hs E) as (s' & -> & Es). injection Es as _ _ El _.
  cbn [mbind option_bind] in *. by rewrite El.
Qed.

Lemma out_link_tables sws sws' a d :
  routing_table <$> sws' = routing_table <$> sws → out_link sws' a d = out_link sws a d.
Proof.
  intros H. apply (f_equal (.!! a)) in H. rewrite !list_lookup_fmap in H. unfold out_link.
  destruct (sws' !! a), (sws !! a); simplify_eq/=; congruence.
Qed.

Lemma tables_good_tables sws0 sws sws' :
  routing_table <$> sws' = routing_table <$> sws → tables_good sws0 sws → tables_good sws0 sws'.
Proof. intros H Hg a d e. rewrite (out_link_tables _ _ _ _ H). apply Hg. Qed.

Lemma routed_tables sws sws' a d :
  routing_table <$> sws' = routing_table <$> sws → routed sws a d → routed sws' a d.
Proof. intros H. unfold routed. by rewrite (out_link_tables _ _ _ _ H). Qed.

Definition rest (s : switch_t) : switch_t := s <| used_channels := 0 |> <| q_st := UNQUEUED |>.

Lemma rest_facts sws :
  shapes (map rest sws) = shapes sws ∧ routing_table <$> map rest sws = routing_table <$> sws
  ∧ at_rest (map rest sws).
Proof.
  split_and!.
  - unfold shapes. rewrite <- list_fmap_compose. by apply list_fmap_ext.
  - rewrite <- list_fmap_compose. by apply list_fmap_ext.
  - intros a s. change (map rest sws) with (rest <$> sws). rewrite list_lookup_fmap.
    destruct (sws !! a); [|done]. by intros [= <-].
Qed.

(** What holds between two trees. *)
Record routing_inv (sws0 : list switch_t) (roots : list nat) (sws : list switch_t) : Prop := {
  ri_shapes : shapes sws = shapes sws0;
  ri_rest : at_rest sws;
  ri_good : tables_good sws0 sws;
  ri_routed : ∀ a d, a ∈ roots → a ≠ d → rtc (adj sws0) a d → routed sws a d;
  ri_near : ∀ a d, a ∈ roots → rtc (adj sws0) a d → ∃ k, k < length sws0 ∧ dist sws0 k a d
}.

Lemma route_from_ok sws0 roots sws i :
  switches_ok sws0 → routing_inv sws0 roots sws → i < length sws0 →
  ∃ sws', route_from sws i = Some sws' ∧ routing_inv sws0 (roots ++ [i]) sws'.
Proof.
  intros Hok [Hs Hrest Hg Hr Hnear] Hi.
  pose proof (switches_ok_shapes _ _ Hs Hok) as Hok'.
  assert (Hi' : i < length sws) by (by rewrite (shapes_length _ _ Hs)).
  destruct (shortest_path_ok sws Hok' i Hrest Hi') as (swsT & dep & E1 & HT).
  destruct (generate_routes_ok sws Hok' i swsT dep HT (S (length swsT)) swsT i 0)
    as (sws2 & l & E2 & [Hsp Hgood Hkeep] & _ & Hbelow).
  { done. }
  { by apply HT. }
  { rewrite (shapes_length _ _ (st_shapes _ _ _ _ HT)). lia. }
  unfold route_from. rewrite E1. cbn [mbind option_bind]. rewrite E2. cbn [mbind option_bind].
  eexists. split; [done|]. change (map _ sws2) with (map rest sws2).
  destruct (rest_facts sws2) as (R1 & R2 & R3).
  assert (Hs2 : shapes sws2 = shapes sws0).
  { rewrite (spines_shapes _ _ Hsp), <- Hs. apply HT. }
  assert (Hreached : ∀ d, rtc (adj sws0) i d → ∃ k, dep !! d = Some k).
  { intros d [m Hm]%rtc_nsteps. destruct (st_reach _ _ _ _ HT m d) as [k Hk]; [|by exists k].
    revert Hm. apply nsteps_congruence with (f := id). intros ??. by apply adj_shapes. }
  split; [congruence|done| | |].
  - apply (tables_good_tables _ sws2); [done|]. apply (tables_good_graph sws); [done|].
    apply Hgood, (tables_good_tables _ sws); [apply HT|]. by apply (tables_good_graph sws0).
  - intros a d [Ha|Ha%list_elem_of_singleton]%elem_of_app Hne Hreach;
      apply (routed_tables sws2); try done.
    + apply Hkeep, (routed_tables sws); [apply HT|]. by apply Hr.
    + subst a. apply Hbelow. destruct (Hreached d Hreach) as [k Hk].
      assert (is_Some (dep !! d)) as Hd by (by eexists).
      apply (below_root _ _ _ _ HT) in Hd. inversion Hd as [|? c ? Hic Hcd]; subst; [done|].
      eapply tc_rtc_r; [by apply tc_once|done].
  - intros a d [Ha|Ha%list_elem_of_singleton]%elem_of_app Hreach; [by apply Hnear|]. subst a.
    destruct (Hreached d Hreach) as [k Hk]. exists k. rewrite <- (shapes_length _ _ Hs).
    split; [by apply (st_range _ _ _ _ HT d)|]. apply (dist_shapes sws); [by symmetry|].
    by apply (st_dist _ _ _ _ HT).
Qed.

Definition connected (sws : list switch_t) : Prop :=
  ∀ a b, a < length sws → b < length sws → rtc (adj sws) a b.

(** Every switch has a link on a shortest path to every other switch. *)
Definition routes_ok (sws : list switch_t) : Prop :=
  ∀ a d, a < length sws → d < length sws →
  (∃ k, k < length sws ∧ dist sws k a d)
  ∧ (a ≠ d → ∃ e, out_link sws a d = Some e ∧ good_link sws a d e).

Definition no_routes (sws : list switch_t) : Prop := ∀ a d e, out_link sws a d = Some e → e = NONE.

Lemma lash_routes_ok sws :
  switches_ok sws → at_rest sws → no_routes sws → connected sws →
  ∃ sws', lash_routes sws = Some sws' ∧ shapes sws' = shapes sws ∧ at_rest sws' ∧ routes_ok sws'.
Proof.
  intros Hok Hrest Hnone Hconn.
  destruct (foldM_rule route_from (routing_inv sws) (seq 0 (length sws)) sws)
    as (sws' & E & [Hs Hr Hg Ha Hnear]).
  - split; [done|done| | |].
    + intros a d e He Hne. by destruct Hne; apply (Hnone a d).
    + intros a d []%elem_of_nil.
    + intros a d []%elem_of_nil.
  - intros l1 i l2 sws1 El H1. apply route_from_ok; [done|done|].
    assert (Hin : i ∈ seq 0 (length sws)) by (rewrite El; set_solver).
    apply elem_of_seq in Hin. lia.
  - exists sws'. split_and!; [done|done|done|]. intros a d Hla Hld.
    rewrite (shapes_length _ _ Hs) in Hla, Hld |- *.
    assert (Hin : a ∈ seq 0 (length sws)) by (apply elem_of_seq; lia). split.
    + destruct (Hnear a d Hin) as (k & ? & ?); [by apply Hconn|]. exists k.
      split; [done|]. by apply (dist_shapes sws).
    + intros Hne. destruct (Ha a d) as (e & He & Hn); [done|done|by apply Hconn|].
      exists e. split; [done|]. apply (tables_good_graph sws sws' sws' Hs Hg a d e He Hn).
Qed.

(** On a connected subnet the routing ends, and each switch has for every other one a
    link on a shortest path; the links and the numbers of the switches stay. *)
Theorem lash_routes_shortest sws :
  switches_ok sws → at_rest sws → no_routes sws → connected sws →
  ∃ sws', lash_routes sws = Some sws' ∧ shapes sws' = shapes sws ∧ at_rest sws' ∧ routes_ok sws'.
Proof. exact (lash_routes_ok sws). Qed.
