(* ===== verification/LashCdg.v ===== *)
(** * The dependency graph of a lane, as a multiset of routes

    A lane is described by how often its routes use a channel ([use]) and go from one
    channel straight to another ([fol]).  [lane_rep] says that the vertices of the
    lane count just that; [base] is the part that is permanent.  The walks of
    [Lash.v] over a route ([generate_cdg_for_sp] and the functions that undo it or
    make it permanent) are shown to add and subtract routes. *)

From S2P Require Import Prelude IbTypes Switch UcastMgr Lash LashCycle LashRoute.
From stdpp Require Import relations.

Open Scope nat_scope.

(** ** Routes as counts *)

Record spec := Spec { use : chan → nat; fol : chan → chan → nat }.

Definition spec_empty : spec := Spec (λ _, 0) (λ _ _, 0).

Definition occ (l : list chan) (u : chan) : nat := length (filter (λ x, x = u) l).

(** How often [w] comes right after [u]. *)
Fixpoint occ2 (l : list chan) (u w : chan) : nat :=
  match l with
  | x :: l' => (if decide (x = u ∧ head l' = Some w) then 1 else 0) + occ2 l' u w
  | [] => 0
  end.

Definition spec_add (s : spec) (l : list chan) : spec :=
  Spec (λ u, use s u + occ l u) (λ u w, fol s u w + occ2 l u w).

Definition spec_sub (s : spec) (l : list chan) : spec :=
  Spec (λ u, use s u - occ l u) (λ u w, fol s u w - occ2 l u w).

Definition spec_eq (s s' : spec) : Prop :=
  (∀ u, use s u = use s' u) ∧ ∀ u w, fol s u w = fol s' u w.

#[export] Instance spec_eq_equivalence : Equivalence spec_eq.
Proof.
  split; [done| |].
  - intros s1 s2 [A B]. split; congruence.
  - intros s1 s2 s3 [A B] [C D]. split; congruence.
Qed.

#[export] Instance spec_add_proper : Proper (spec_eq ==> (=) ==> spec_eq) spec_add.
Proof. intros s s' [A B] l ? <-. split; intros; simpl; congruence. Qed.

#[export] Instance spec_sub_proper : Proper (spec_eq ==> (=) ==> spec_eq) spec_sub.
Proof. intros s s' [A B] l ? <-. split; intros; simpl; congruence. Qed.

Lemma spec_add_nil s : spec_eq (spec_add s []) s.
Proof. split; intros; simpl; apply Nat.add_0_r. Qed.

Lemma spec_add_comm s l1 l2 : spec_eq (spec_add (spec_add s l1) l2) (spec_add (spec_add s l2) l1).
Proof. split; intros; simpl; lia. Qed.

Lemma spec_add_sub s l : spec_eq (spec_sub (spec_add s l) l) s.
Proof. split; intros; simpl; lia. Qed.

Lemma spec_sub_add_comm s l1 l2 :
  spec_eq (spec_sub (spec_add (spec_add s l1) l2) l1) (spec_add s l2).
Proof. split; intros; simpl; lia. Qed.

Lemma occ_snoc l u x : occ (l ++ [x]) u = occ l u + if decide (x = u) then 1 else 0.
Proof.
  unfold occ. rewrite filter_app, length_app. f_equal. rewrite filter_cons, filter_nil.
  by case_decide.
Qed.

Lemma occ2_snoc l u w x :
  occ2 (l ++ [x]) u w = occ2 l u w + if decide (last l = Some u ∧ x = w) then 1 else 0.
Proof.
  induction l as [|y l IH]; [simpl; case_decide; naive_solver|].
  simpl. rewrite IH. destruct l as [|z l]; simpl.
  - repeat case_decide; naive_solver.
  - lia.
Qed.

Lemma occ_pos l u : 0 < occ l u ↔ u ∈ l.
Proof.
  unfold occ. split.
  - intros H. destruct (filter _ l) as [|x k] eqn:E; [simpl in H; lia|].
    assert (x ∈ filter (λ x, x = u) l) as Hx by (rewrite E; left).
    apply list_elem_of_filter in Hx as [-> ?]. done.
  - intros H. assert (u ∈ filter (λ x, x = u) l) as Hx by (by apply list_elem_of_filter).
    destruct (filter _ l); [by apply elem_of_nil in Hx|simpl; lia].
Qed.

Lemma occ_zero l u : u ∉ l → occ l u = 0.
Proof. intros H. destruct (occ l u) eqn:E; [done|]. destruct H. apply occ_pos. lia. Qed.

Lemma occ_NoDup l u : NoDup l → u ∈ l → occ l u = 1.
Proof.
  induction 1 as [|x l Hx _ IH]; intros Hu; [by apply elem_of_nil in Hu|].
  unfold occ. rewrite filter_cons. case_decide as Hxu.
  - subst. simpl. f_equal. apply (occ_zero l u Hx).
  - apply IH. by apply elem_of_cons in Hu as [->|?].
Qed.

Lemma occ2_pos l u w : 0 < occ2 l u w ↔ ∃ l1 l2, l = l1 ++ u :: w :: l2.
Proof.
  induction l as [|x l IH]; simpl.
  - split; [lia|]. intros (l1 & l2 & E). by destruct l1.
  - case_decide as Hd.
    + split; [|lia]. intros _. destruct Hd as [-> Hh]. destruct l as [|y l]; [done|].
      injection Hh as ->. by exists [], l.
    + split.
      * intros (l1 & l2 & ->)%IH. by exists (x :: l1), l2.
      * intros (l1 & l2 & E). apply IH. destruct l1 as [|y l1]; simplify_eq/=; [naive_solver|by exists l1, l2].
Qed.

Lemma occ2_elem l u w : 0 < occ2 l u w → u ∈ l ∧ w ∈ l.
Proof. intros (l1 & l2 & ->)%occ2_pos. set_solver. Qed.

Lemma occ2_zero l u w : u ∉ l → occ2 l u w = 0.
Proof. intros H. destruct (occ2 l u w) eqn:E; [done|]. destruct H. apply (occ2_elem l u w). lia. Qed.

(** The channel after [u], where no channel occurs twice. *)
Lemma occ2_NoDup l1 u l2 w :
  NoDup (l1 ++ u :: l2) → occ2 (l1 ++ u :: l2) u w = if decide (head l2 = Some w) then 1 else 0.
Proof.
  induction l1 as [|x l1 IH]; simpl; intros Hn.
  - apply NoDup_cons in Hn as [Hu _]. rewrite (occ2_zero l2 u w Hu). repeat case_decide; naive_solver.
  - apply NoDup_cons in Hn as [Hx Hn]. rewrite decide_False; [by apply IH|].
    intros [-> _]. apply Hx. set_solver.
Qed.

(** Each channel starts where the one before it ends. *)
Definition spec_ok (n : nat) (s : spec) : Prop :=
  (∀ u, 0 < use s u → u.1 < n ∧ u.2 < n ∧ u.1 ≠ u.2)
  ∧ ∀ u w, 0 < fol s u w → 0 < use s u ∧ 0 < use s w ∧ w.1 = u.2.

Definition spec_le (s s' : spec) : Prop := (∀ u, use s u ≤ use s' u) ∧ ∀ u w, fol s u w ≤ fol s' u w.

(** ** The representation *)

Section Rep.
Variable n : nat.
Variable exact : Prop.

(** The vertex at [v] of channel [u].  The first [num_deps - num_temp_depend]
    dependencies are permanent.  When the lane is not [exact], dependencies may be
    left over whose target was freed. *)
Record vertex_rep (base cur : spec) (c : cdg) (u : chan) (v : cdg_vertex_t) : Prop := {
  vr_ends : (v_from v, v_to v) = u;
  vr_temp : temp v = true ↔ use base u = 0;
  vr_using : num_using_vertex v = use cur u;
  vr_slots : length (deps v) = n - 1;
  vr_deps : num_deps v ≤ n - 1;
  vr_extra : num_temp_depend v ≤ num_deps v;
  vr_extra_pos : 0 < num_temp_depend v → ∃ w, fol base u w < fol cur u w;
  vr_extra_temp : temp v = true → num_temp_depend v = 0;
  vr_nodup : NoDup (succs v);
  vr_ptr : ∀ o, o ∈ succs v → ∃ q, o = Some q ∧ q < next_ptr c;
  vr_base : ∀ w, 0 < fol base u w →
              ∃ q, matrix c !! w = Some q ∧ Some q ∈ (take (num_deps v - num_temp_depend v) (deps v)).*1;
  vr_cur : ∀ w, 0 < fol cur u w → ∃ q, matrix c !! w = Some q ∧ Some q ∈ succs v;
  vr_count : ∀ i q k w, i < num_deps v → deps v !! i = Some (Some q, k) → matrix c !! w = Some q →
               fol cur u w ≤ k;
  vr_exact : exact → ∀ q, Some q ∈ succs v → ∃ w, matrix c !! w = Some q ∧ 0 < fol cur u w;
  vr_exact_base : exact → temp v = false →
    ∀ q, Some q ∈ (take (num_deps v - num_temp_depend v) (deps v)).*1 →
    ∃ w, matrix c !! w = Some q ∧ 0 < fol base u w
}.

Record lane_rep (base cur : spec) (c : cdg) : Prop := {
  lr_base : spec_ok n base;
  lr_cur : spec_ok n cur;
  lr_le : spec_le base cur;
  lr_fresh : ∀ p v, verts c !! p = Some v → p < next_ptr c;
  lr_used : ∀ u, is_Some (matrix c !! u) ↔ 0 < use cur u;
  lr_cell : ∀ u p, matrix c !! u = Some p → ∃ v, verts c !! p = Some v ∧ vertex_rep base cur c u v;
  lr_vert : ∀ p v, verts c !! p = Some v → matrix c !! (v_from v, v_to v) = Some p
}.

Lemma rep_inj base cur c u u' p :
  lane_rep base cur c → matrix c !! u = Some p → matrix c !! u' = Some p → u = u'.
Proof.
  intros H E E'. destruct (lr_cell _ _ _ H u p E) as (v & Ev & Hv).
  destruct (lr_cell _ _ _ H u' p E') as (v' & Ev' & Hv'). rewrite Ev in Ev'. injection Ev' as <-.
  by rewrite <- (vr_ends _ _ _ _ _ Hv), <- (vr_ends _ _ _ _ _ Hv').
Qed.

Lemma rep_matrix_fresh base cur c u p : lane_rep base cur c → matrix c !! u = Some p → p < next_ptr c.
Proof. intros H E. destruct (lr_cell _ _ _ H u p E) as (v & Ev & _). by apply (lr_fresh _ _ _ H p v). Qed.

(** Only the counts matter. *)
Lemma vertex_rep_eq base cur base' cur' c u v :
  spec_eq base base' → spec_eq cur cur' → vertex_rep base cur c u v → vertex_rep base' cur' c u v.
Proof.
  intros [A B] [C D] []. split; try done; intros *; rewrite <- ?A, <- ?B, <- ?C, <- ?D; eauto.
  - intros Hp. destruct (vr_extra_pos0 Hp) as (w & Hw). exists w. by rewrite <- B, <- D.
  - intros He q Hq. destruct (vr_exact0 He q Hq) as (w & Hw & Hf). exists w. by rewrite <- D.
  - intros He Ht q Hq. destruct (vr_exact_base0 He Ht q Hq) as (w & Hw & Hf). exists w. by rewrite <- B.
Qed.

#[export] Instance lane_rep_proper : Proper (spec_eq ==> spec_eq ==> (=) ==> impl) lane_rep.
Proof.
  intros base base' Hb cur cur' Hc c ? <- H. pose proof Hb as [A B]. pose proof Hc as [C D].
  destruct H as [[L1 L2] [L3 L4] [L5 L6] L7 L8 L9 L10]. split; try done.
  - split; intros *; rewrite <- ?A, <- ?B; auto.
  - split; intros *; rewrite <- ?C, <- ?D; auto.
  - split; intros *; rewrite <- ?A, <- ?B, <- ?C, <- ?D; auto.
  - intros u. by rewrite L8, C.
  - intros u p E. destruct (L9 u p E) as (v & Ev & Hv). exists v. split; [done|].
    by apply (vertex_rep_eq base cur).
Qed.

(** Marks do not matter either. *)
Lemma vertex_rep_skeleton base cur c c' u v v' :
  matrix c' = matrix c → next_ptr c' = next_ptr c → skeleton v' = skeleton v →
  vertex_rep base cur c u v → vertex_rep base cur c' u v'.
Proof.
  intros Hm Hn Hs. injection Hs as E1 E2 E3 E4 E5 E6 E7. intros [].
  unfold succs in *. split; unfold succs; rewrite ?Hm, ?Hn, ?E1, ?E2, ?E3, ?E4, ?E5, ?E6, ?E7; done.
Qed.

Lemma lane_rep_same base cur c c' : same_cdg c c' → lane_rep base cur c → lane_rep base cur c'.
Proof.
  intros Hs H. pose proof Hs as (Hm & Hn & _). destruct H as [L1 L2 L3 L4 L5 L6 L7].
  split; try done.
  - intros p v' E'. destruct (same_cdg_lookup c' c p v') as (v & E & _); [by symmetry|done|].
    rewrite Hn. by apply (L4 p v).
  - intros u. by rewrite Hm.
  - intros u p E. rewrite Hm in E. destruct (L6 u p E) as (v & Ev & Hv).
    destruct (same_cdg_lookup _ _ _ _ Hs Ev) as (v' & Ev' & Esk). exists v'. split; [done|].
    by apply (vertex_rep_skeleton base cur c c' u v v').
  - intros p v' E'. destruct (same_cdg_lookup c' c p v') as (v & E & Esk); [by symmetry|done|].
    injection Esk as <- <- _ _ _ _ _. rewrite Hm. by apply L7.
Qed.

Lemma lane_rep_empty : lane_rep spec_empty spec_empty cdg_empty.
Proof.
  split; try done.
  - split; simpl; lia.
  - split; simpl; lia.
  - intros u. simpl. rewrite lookup_empty. split; [by intros []|lia].
Qed.

(** ** One more use of a channel *)

Definition spec_use1 (s : spec) (u : chan) : spec :=
  Spec (λ x, use s x + if decide (u = x) then 1 else 0) (fol s).

(** A vertex keeps its meaning when cells are added for fresh addresses. *)
Lemma vertex_rep_grow base cur cur' c c' u v :
  vertex_rep base cur c u v → next_ptr c ≤ next_ptr c' →
  (∀ w q, matrix c !! w = Some q → matrix c' !! w = Some q) →
  (∀ w q, matrix c' !! w = Some q → q < next_ptr c → matrix c !! w = Some q) →
  use cur' u = use cur u → (∀ w, fol cur' u w = fol cur u w) →
  vertex_rep base cur' c' u v.
Proof.
  intros [] Hn Hg Hb Hu Hf. split; try done.
  - by rewrite Hu.
  - intros Hp. destruct (vr_extra_pos0 Hp) as (w & Hw). exists w. by rewrite Hf.
  - intros o Ho. destruct (vr_ptr0 o Ho) as (q & -> & ?). exists q. split; [done|lia].
  - intros w Hw. destruct (vr_base0 w Hw) as (q & ? & ?). eauto.
  - intros w Hw. rewrite Hf in Hw. destruct (vr_cur0 w Hw) as (q & ? & ?). eauto.
  - intros i q k w Hi Hk Hw. rewrite Hf. apply (vr_count0 i q k w Hi Hk). apply Hb; [done|].
    destruct (vr_ptr0 (Some q)) as (q' & [= <-] & ?); [|done].
    apply elem_of_succs. exists i. by rewrite Hk.
  - intros He q Hq. destruct (vr_exact0 He q Hq) as (w & Hw & Hp). exists w. rewrite Hf. auto.
  - intros He Ht q Hq. destruct (vr_exact_base0 He Ht q Hq) as (w & Hw & Hp). exists w. auto.
Qed.

Lemma spec_use1_ok s u :
  spec_ok n s → u.1 < n → u.2 < n → u.1 ≠ u.2 → spec_ok n (spec_use1 s u).
Proof.
  intros [H1 H2] ? ? ?. split; simpl.
  - intros x Hx. case_decide; [by subst|]. apply H1. lia.
  - intros x w Hw. destruct (H2 x w Hw) as (? & ? & ?). split_and!; [lia|lia|done].
Qed.

Lemma touch_old base cur c u p v :
  lane_rep base cur c → matrix c !! u = Some p → verts c !! p = Some v → vertex_rep base cur c u v →
  spec_ok n (spec_use1 cur u) →
  lane_rep base (spec_use1 cur u)
    (put_vertex c p (v <| num_using_vertex := S (num_using_vertex v) |>)).
Proof.
  intros H Eu Ev Hv Hok. pose proof H as []. destruct lr_le0 as [Hle1 Hle2].
  split; try done.
  - split; intros *; simpl; [specialize (Hle1 u0); lia|done].
  - intros q v'. rewrite put_lookup. case_decide; [intros _; subst; by apply (lr_fresh0 q v)|].
    apply lr_fresh0.
  - intros x. simpl. rewrite lr_used0. case_decide; [|by rewrite Nat.add_0_r].
    subst. split; [lia|]. intros _. apply lr_used0. by eexists.
  - intros x q E. simpl in E. destruct (lr_cell0 x q E) as (v' & Ev' & Hv').
    rewrite put_lookup. destruct (decide (p = q)) as [<-|Hne].
    + assert (x = u) as -> by (by apply (rep_inj base cur c) with p).
      eexists. split; [done|]. destruct Hv. split; try done.
      simpl. rewrite decide_True by done. lia.
    + exists v'. split; [done|]. apply (vertex_rep_grow base cur _ c); try done.
      simpl. rewrite decide_False; [lia|]. intros ->. congruence.
  - intros q v'. rewrite put_lookup. case_decide; [intros [= <-]; subst; by apply (lr_vert0 q v)|].
    apply lr_vert0.
Qed.

Lemma touch_new base cur c u :
  lane_rep base cur c → matrix c !! u = None → spec_ok n (spec_use1 cur u) →
  lane_rep base (spec_use1 cur u)
    (put_vertex (new_vertex n c u).2 (next_ptr c)
       (CdgVertex u.1 u.2 false true 0 None 0 1 0 (replicate (n - 1) (None, 0)))).
Proof.
  intros H Eu Hok. pose proof H as []. destruct lr_le0 as [Hle1 Hle2].
  assert (Hz : use cur u = 0).
  { destruct (use cur u) eqn:E; [done|]. destruct (proj2 (lr_used0 u)) as [q Hq]; [lia|congruence]. }
  assert (Hf : ∀ w, fol cur u w = 0).
  { intros w. destruct (fol cur u w) eqn:E; [done|]. destruct lr_cur0 as [_ Hc].
    destruct (Hc u w) as [? _]; lia. }
  assert (Hlk : ∀ q v, verts (put_vertex (new_vertex n c u).2 (next_ptr c)
       (CdgVertex u.1 u.2 false true 0 None 0 1 0 (replicate (n - 1) (None, 0)))) !! q = Some v →
       q = next_ptr c ∧ v = CdgVertex u.1 u.2 false true 0 None 0 1 0 (replicate (n - 1) (None, 0))
       ∨ q ≠ next_ptr c ∧ verts c !! q = Some v).
  { intros q v. rewrite put_lookup. case_decide; [intros [= <-]; left; by subst|].
    simpl. rewrite lookup_insert_ne by done. by right. }
  assert (Hfr : ∀ w q, matrix c !! w = Some q → q < next_ptr c).
  { intros w q. by apply (rep_matrix_fresh base cur). }
  split; try done.
  - split; intros *; simpl; [specialize (Hle1 u0); lia|done].
  - intros q v [[-> _]|[_ Hq]]%Hlk; simpl; [lia|]. specialize (lr_fresh0 q v Hq). lia.
  - intros x. simpl. destruct (decide (u = x)) as [<-|Hne].
    + rewrite lookup_insert_eq. split; [lia|by eexists].
    + rewrite lookup_insert_ne by done. by rewrite lr_used0, Nat.add_0_r.
  - intros x q E. simpl in E. apply lookup_insert_Some in E as [[<- <-]|[Hne E]].
    + rewrite put_lookup, decide_True by done. eexists. split; [done|].
      split; simpl; rewrite ?length_replicate; try done; try lia.
      * by destruct u.
      * split; [|done]. intros _. specialize (Hle1 u). lia.
      * rewrite decide_True by done. lia.
      * apply NoDup_nil_2.
      * intros o []%elem_of_nil.
      * intros w Hw. specialize (Hle2 u w). rewrite Hf in Hle2. lia.
      * intros w. rewrite Hf. lia.
      * intros _ q []%elem_of_nil.
    + destruct (lr_cell0 x q E) as (v' & Ev' & Hv'). exists v'. specialize (Hfr x q E).
      rewrite put_lookup, decide_False by lia. simpl. rewrite lookup_insert_ne by lia.
      split; [done|]. apply (vertex_rep_grow base cur _ c); try done; simpl.
      * lia.
      * intros w q' Hw. rewrite lookup_insert_ne; [done|]. intros ->. congruence.
      * intros w q' [[<- <-]|[_ Hw]]%lookup_insert_Some; [lia|done].
      * rewrite decide_False by done. lia.
  - intros q v [[-> ->]|[Hne Hq]]%Hlk; simpl.
    + rewrite <- surjective_pairing. apply lookup_insert_eq.
    + rewrite lookup_insert_ne; [by apply lr_vert0|]. intros ->.
      specialize (lr_vert0 q v Hq). rewrite Eu in lr_vert0. done.
Qed.

Lemma touch_rep base cur c u :
  lane_rep base cur c → u.1 < n → u.2 < n → u.1 ≠ u.2 →
  ∃ p c', touch_vertex n c u = Some (p, c') ∧ lane_rep base (spec_use1 cur u) c'
    ∧ matrix c' !! u = Some p ∧ (∀ w q, matrix c !! w = Some q → matrix c' !! w = Some q)
    ∧ (unmarked c → unmarked c').
Proof.
  intros H H1 H2 H3. pose proof (spec_use1_ok cur u (lr_cur _ _ _ H) H1 H2 H3) as Hok.
  unfold touch_vertex. rewrite cell_in by done. cbn [mbind option_bind].
  destruct (matrix c !! u) as [p|] eqn:Eu.
  - destruct (lr_cell _ _ _ H u p Eu) as (v & Ev & Hv). rewrite Ev. cbn [mbind option_bind].
    eexists p, _. split; [done|]. split; [by apply (touch_old _ _ _ _ _ v)|]. split_and!; [done|done|].
    intros Hu q w. rewrite put_lookup. case_decide; [|apply Hu]. intros [= <-]. by apply (Hu p v).
  - cbn [new_vertex fst snd]. simpl (verts _). rewrite lookup_insert_eq. cbn [mbind option_bind].
    eexists (next_ptr c), _. split; [done|]. split; [by apply touch_new|]. split_and!.
    + apply lookup_insert_eq.
    + intros w q Hw. simpl. rewrite lookup_insert_ne; [done|]. intros ->. congruence.
    + intros Hu q w. rewrite put_lookup. case_decide; [by intros [= <-]|]. simpl.
      rewrite lookup_insert_ne by done. apply Hu.
Qed.

(** ** One more dependency *)

Definition spec_fol1 (s : spec) (u w : chan) : spec :=
  Spec (use s) (λ x y, fol s x y + if decide (u = x ∧ w = y) then 1 else 0).

(** The count of the dependencies on [p] goes up. *)
Definition count_dep (p : nat) (e : option nat * nat) : option nat * nat :=
  if decide (e.1 = Some p) then (e.1, S e.2) else e.

Lemma count_dep_fst p l : (map (count_dep p) l).*1 = l.*1.
Proof.
  rewrite <- list_fmap_compose. apply list_fmap_ext. intros i e _. unfold compose, count_dep.
  by case_decide.
Qed.

Lemma add_dep_counted v p :
  num_deps v ≤ length (deps v) → Some p ∈ succs v →
  add_dep v p = Some (v <| deps := map (count_dep p) (take (num_deps v) (deps v))
                                   ++ drop (num_deps v) (deps v) |>).
Proof.
  intros Hk Hp. unfold add_dep. apply Nat.leb_le in Hk. rewrite Hk. cbn [check mbind option_bind].
  by rewrite decide_True.
Qed.

Lemma add_dep_new v p v' :
  add_dep v p = Some v' → Some p ∉ succs v →
  ∃ e, deps v !! num_deps v = Some e
    ∧ v' = v <| deps := <[num_deps v := (Some p, S e.2)]> (deps v) |>
             <| num_deps := S (num_deps v) |>
             <| num_temp_depend := if temp v then num_temp_depend v else S (num_temp_depend v) |>.
Proof.
  intros H Hp. unfold add_dep in H. destruct (check _); [|done]. cbn [mbind option_bind] in H.
  rewrite decide_False in H by done. destruct (deps v !! num_deps v) as [e|]; [|done].
  exists e. split; [done|]. by injection H as <-.
Qed.

Lemma vertex_counted base cur c u w v p :
  vertex_rep base cur c u v → matrix c !! w = Some p → (∀ w', matrix c !! w' = Some p → w' = w) →
  Some p ∈ succs v →
  vertex_rep base (spec_fol1 cur u w) c u
    (v <| deps := map (count_dep p) (take (num_deps v) (deps v)) ++ drop (num_deps v) (deps v) |>).
Proof.
  intros Hv Hw Huniq Hp. set (v' := v <| deps := _ |>).
  assert (Hfst : ∀ k, (take k (deps v')).*1 = (take k (deps v)).*1).
  { intros k. rewrite !fmap_take. f_equal. unfold v'. simpl.
    rewrite fmap_app, count_dep_fst, <- fmap_app. by rewrite take_drop. }
  assert (Hs : succs v' = succs v) by apply Hfst.
  destruct Hv. split; rewrite ?Hs; try done.
  - unfold v'. simpl. rewrite length_app, length_map, length_take, length_drop. lia.
  - intros Hpos. destruct (vr_extra_pos0 Hpos) as (x & Hx). exists x. simpl. lia.
  - intros x Hx. rewrite Hfst. by apply vr_base0.
  - intros x Hx. simpl in Hx. case_decide as Hd; [|apply vr_cur0; lia].
    destruct Hd as [_ <-]. by exists p.
  - intros i q k x Hi Hk Hx. simpl. unfold v' in Hk. simpl in Hk, Hi.
    rewrite lookup_app_l, list_lookup_fmap, lookup_take_lt in Hk
      by (rewrite ?length_map, ?length_take; lia).
    destruct (deps v !! i) as [[o m]|] eqn:Ei; [|done]. simpl in Hk. unfold count_dep in Hk. simpl in Hk.
    case_decide as Ho; injection Hk as ->.
    + injection Ho as ->. specialize (vr_count0 i p m x Hi Ei Hx). case_decide; lia.
    + specialize (vr_count0 i q m x Hi Ei Hx). rewrite decide_False; [lia|].
      intros [_ <-]. rewrite Hw in Hx. congruence.
  - intros He q Hq. destruct (vr_exact0 He q Hq) as (x & Hx & Hf). exists x. simpl. split; [done|lia].
  - intros He Ht q. rewrite Hfst. by apply vr_exact_base0.
Qed.

Lemma vertex_dep_new base cur c u w v p v' :
  vertex_rep base cur c u v → spec_ok n base → spec_le base cur → matrix c !! w = Some p → p < next_ptr c →
  (∀ w', matrix c !! w' = Some p → w' = w) →
  Some p ∉ succs v → add_dep v p = Some v' →
  vertex_rep base (spec_fol1 cur u w) c u v'.
Proof.
  intros Hv Hb Hle Hw Hlt Huniq Hp H. destruct (add_dep_new v p v' H Hp) as ([o m] & Ee & ->).
  set (v' := (v <| deps := _ |> <| num_deps := _ |>) <| num_temp_depend := _ |>).
  assert (Hlen : num_deps v < length (deps v)) by (by apply lookup_lt_Some in Ee).
  assert (Hs : succs v' = succs v ++ [Some p]).
  { unfold succs, v'. simpl. rewrite (take_S_r _ _ (Some p, S m)).
    - rewrite fmap_app, take_insert_ge by lia. done.
    - by rewrite list_lookup_insert_eq. }
  assert (Hbase : temp v = false → (take (num_deps v' - num_temp_depend v') (deps v')).*1
                   = (take (num_deps v - num_temp_depend v) (deps v)).*1).
  { intros Ht. unfold v'. simpl. rewrite Ht, take_insert_ge; [f_equal; f_equal; lia|].
    destruct Hv. lia. }
  assert (Hz : fol cur u w = 0).
  { destruct (fol cur u w) eqn:E; [done|]. destruct (vr_cur _ _ _ _ _ Hv w) as (q & Hq & Hin); [lia|].
    rewrite Hw in Hq. injection Hq as <-. done. }
  destruct Hv. split; rewrite ?Hs; try done.
  - unfold v'. simpl. by rewrite length_insert.
  - unfold v'. simpl. lia.
  - unfold v'. simpl. destruct (temp v); lia.
  - intros _. exists w. simpl. rewrite decide_True by done. destruct Hle as [_ Hle].
    specialize (Hle u w). lia.
  - unfold v'. simpl. intros Ht. rewrite Ht. by apply vr_extra_temp0.
  - apply NoDup_app. split_and!; [done| |apply NoDup_singleton].
    intros x Hx Hx'%list_elem_of_singleton. by subst.
  - intros x [Hx|Hx%list_elem_of_singleton]%elem_of_app; [by apply vr_ptr0|]. subst. by exists p.
  - intros x Hx. assert (temp v = false) as Ht.
    { destruct (temp v) eqn:Et; [|done].
      pose proof (proj1 vr_temp0 eq_refl). destruct Hb as [_ Hb]. destruct (Hb u x Hx). lia. }
    rewrite Hbase by done. by apply vr_base0.
  - intros x Hx. simpl in Hx. case_decide as Hd.
    + destruct Hd as [_ <-]. exists p. split; [done|]. set_solver.
    + destruct (vr_cur0 x) as (q & ? & ?); [lia|]. exists q. split; [done|]. set_solver.
  - intros i q k x Hi Hk Hx. unfold v' in Hi, Hk. simpl in Hi, Hk. simpl.
    apply list_lookup_insert_Some in Hk as [(<- & Hk & _)|[Hne Hk]].
    + injection Hk as <- <-. rewrite (Huniq x Hx), Hz. case_decide; lia.
    + specialize (vr_count0 i q k x ltac:(lia) Hk Hx). rewrite decide_False; [lia|].
      intros [_ <-]. rewrite Hw in Hx. injection Hx as <-. apply Hp, elem_of_succs.
      exists i. split; [lia|]. by rewrite Hk.
  - intros He q [Hq|Hq%list_elem_of_singleton]%elem_of_app.
    + destruct (vr_exact0 He q Hq) as (x & Hx & Hf). exists x. simpl. split; [done|lia].
    + injection Hq as ->. exists w. simpl. rewrite decide_True by done. split; [done|lia].
  - intros He Ht q. rewrite Hbase by done. by apply vr_exact_base0.
Qed.

Lemma add_rep base cur c u w q p v v' :
  lane_rep base cur c → matrix c !! u = Some q → matrix c !! w = Some p → w.1 = u.2 →
  verts c !! q = Some v → add_dep v p = Some v' →
  lane_rep base (spec_fol1 cur u w) (put_vertex c q v').
Proof.
  intros H Eu Ew Hlink Ev Hadd. pose proof H as [].
  destruct (lr_cell0 u q Eu) as (v0 & Ev0 & Hv). rewrite Ev in Ev0. injection Ev0 as <-.
  assert (Huniq : ∀ w', matrix c !! w' = Some p → w' = w).
  { intros w' Hw'. by apply (rep_inj base cur c) with p. }
  assert (Hv' : vertex_rep base (spec_fol1 cur u w) c u v').
  { destruct (decide (Some p ∈ succs v)) as [Hin|Hin].
    - rewrite add_dep_counted in Hadd by (done || (destruct Hv; lia)). injection Hadd as <-.
      by apply vertex_counted.
    - apply (vertex_dep_new base cur c u w v p v'); try done.
      by apply (rep_matrix_fresh base cur c w). }
  split; try done.
  - destruct lr_cur0 as [Hc1 Hc2]. split; [done|]. intros x y Hxy. simpl in Hxy.
    case_decide as Hd; [|apply Hc2; lia]. destruct Hd as [<- <-]. split_and!; [|..|done];
      apply lr_used0; by eexists.
  - destruct lr_le0 as [Hl1 Hl2]. split; [done|]. intros x y. simpl. specialize (Hl2 x y). lia.
  - intros r vr. rewrite put_lookup. case_decide; [intros _; subst; by apply (lr_fresh0 r v)|apply lr_fresh0].
  - intros x r Ex. simpl in Ex. rewrite put_lookup. destruct (decide (q = r)) as [<-|Hne].
    + assert (x = u) as -> by (by apply (rep_inj base cur c) with q).
      exists v'. split; [done|]. by apply (vertex_rep_skeleton base _ c _ u v').
    + destruct (lr_cell0 x r Ex) as (vr & Evr & Hvr). exists vr. split; [done|].
      apply (vertex_rep_grow base cur _ c); try done.
      intros y. simpl. rewrite decide_False; [lia|]. intros [-> _]. congruence.
  - intros r vr. rewrite put_lookup. case_decide; [|apply lr_vert0]. intros [= <-]. subst.
    by rewrite (vr_ends _ _ _ _ _ Hv').
Qed.

(** The slots suffice where every dependency is live: they lead to different
    switches, and neither back nor to the switch of the new one. *)
Lemma add_dep_room base cur c u w q p v :
  exact → lane_rep base cur c → matrix c !! u = Some q → matrix c !! w = Some p → w.1 = u.2 →
  verts c !! q = Some v → is_Some (add_dep v p).
Proof.
  intros He H Eu Ew Hlink Ev. destruct (lr_cell _ _ _ H u q Eu) as (v0 & Ev0 & Hv).
  rewrite Ev in Ev0. injection Ev0 as <-.
  destruct (decide (Some p ∈ succs v)) as [Hin|Hin].
  { rewrite add_dep_counted by (done || (destruct Hv; lia)). by eexists. }
  unfold add_dep. pose proof (vr_slots _ _ _ _ _ Hv) as Hslots. pose proof (vr_deps _ _ _ _ _ Hv) as Hnd.
  assert (Hk : (num_deps v <=? length (deps v)) = true) by (apply Nat.leb_le; lia).
  rewrite Hk. cbn [check mbind option_bind]. rewrite decide_False by done.
  enough (num_deps v < n - 1) as Hlt.
  { destruct (lookup_lt_is_Some_2 (deps v) (num_deps v)) as [e ->]; [lia|]. by eexists. }
  set (f := λ o, from_option v_to 0 (q ← o; verts c !! q)).
  assert (Hf : ∀ o, o ∈ succs v → ∃ x q', o = Some q' ∧ matrix c !! x = Some q' ∧ f o = x.2
                  ∧ x.1 = u.2 ∧ x.2 < n ∧ x.1 ≠ x.2).
  { intros o Ho. destruct (vr_ptr _ _ _ _ _ Hv o Ho) as (q' & -> & _).
    destruct (vr_exact _ _ _ _ _ Hv He q' Ho) as (x & Hx & Hpos). exists x, q'.
    destruct (lr_cell _ _ _ H x q' Hx) as (vx & Evx & Hvx).
    destruct (lr_cur _ _ _ H) as [Hc1 Hc2]. destruct (Hc2 u x Hpos) as (_ & Hux & Hl).
    destruct (Hc1 x Hux) as (? & ? & ?). split_and!; try done.
    unfold f. cbn [mbind option_bind]. rewrite Evx. simpl.
    by rewrite <- (vr_ends _ _ _ _ _ Hvx). }
  assert (Huse : u.2 < n ∧ w.2 < n ∧ w.2 ≠ u.2).
  { destruct (lr_cur _ _ _ H) as [Hc1 _].
    destruct (Hc1 u) as (? & ? & ?); [by apply (lr_used _ _ _ H); eexists|].
    destruct (Hc1 w) as (? & ? & ?); [by apply (lr_used _ _ _ H); eexists|]. lia. }
  assert (Hnodup : NoDup (f <$> succs v)).
  { apply NoDup_fmap_2_strong; [|apply Hv]. intros o o' Ho Ho' Hff.
    destruct (Hf o Ho) as (x & q1 & -> & Hx & Ex & Lx & _).
    destruct (Hf o' Ho') as (y & q2 & -> & Hy & Ey & Ly & _).
    assert (x = y) as -> by (destruct x, y; simpl in *; congruence). congruence. }
  assert (Hall : NoDup (u.2 :: w.2 :: (f <$> succs v))).
  { apply NoDup_cons. split; [|apply NoDup_cons; split; [|done]].
    - intros [?|Hi]%elem_of_cons; [lia|]. apply list_elem_of_fmap in Hi as (o & Eo & Ho).
      destruct (Hf o Ho) as (x & q1 & _ & _ & Ex & Lx & _ & Hne). congruence.
    - intros Hi. apply list_elem_of_fmap in Hi as (o & Eo & Ho).
      destruct (Hf o Ho) as (x & q1 & -> & Hx & Ex & Lx & _ & Hne).
      assert (x = w) as -> by (destruct x, w; simpl in *; congruence).
      apply Hin. by replace p with q1 by congruence. }
  assert (Hsub : (u.2 :: w.2 :: (f <$> succs v)) ⊆+ seq 0 n).
  { apply NoDup_submseteq; [done|]. intros x Hx. apply elem_of_seq.
    apply elem_of_cons in Hx as [->|Hx]; [lia|]. apply elem_of_cons in Hx as [->|Hx]; [lia|].
    apply list_elem_of_fmap in Hx as (o & -> & Ho).
    destruct (Hf o Ho) as (x & q1 & _ & _ & -> & _ & ? & _). lia. }
  apply submseteq_length in Hsub. simpl in Hsub. rewrite length_fmap, length_seq in Hsub.
  unfold succs in Hsub. rewrite length_fmap, length_take in Hsub. lia.
Qed.

(** ** The walk of [generate_cdg_for_sp] *)

(** A route: no channel twice, each between two switches, one after the other. *)
Record path_ok (l : list chan) : Prop := {
  po_nodup : NoDup l;
  po_range : ∀ u, u ∈ l → u.1 < n ∧ u.2 < n ∧ u.1 ≠ u.2;
  po_link : ∀ u w, 0 < occ2 l u w → w.1 = u.2
}.

Lemma add_dep_marks v p v' :
  add_dep v p = Some v' → visiting_number v' = visiting_number v ∧ seen v' = seen v.
Proof.
  unfold add_dep. destruct (check _); [|done]. cbn [mbind option_bind].
  case_decide; [by intros [= <-]|]. destruct (deps v !! num_deps v); [|done]. by intros [= <-].
Qed.

Lemma unmarked_put c q v v' :
  verts c !! q = Some v → visiting_number v' = visiting_number v ∧ seen v' = seen v →
  unmarked c → unmarked (put_vertex c q v').
Proof.
  intros Ev [E1 E2] Hu r vr. rewrite put_lookup. case_decide; [|apply Hu].
  intros [= <-]. rewrite E1, E2. by apply (Hu q).
Qed.

Lemma spec_add_snoc s l x :
  spec_eq (spec_add s (l ++ [x]))
    (match last l with
     | Some u => spec_fol1 (spec_use1 (spec_add s l) x) u x
     | None => spec_use1 (spec_add s l) x
     end).
Proof.
  split; intros *.
  - destruct (last l); simpl; rewrite occ_snoc; lia.
  - destruct (last l) as [u0|] eqn:E; simpl; rewrite occ2_snoc, E; [|rewrite decide_False by naive_solver; lia].
    repeat case_decide; try lia; exfalso; naive_solver.
Qed.

Lemma generate_ok base cur c l :
  lane_rep base cur c → path_ok l →
  (exact → is_Some (foldM (generate_step n) l (c, None)))
  ∧ ∀ r, foldM (generate_step n) l (c, None) = Some r →
    lane_rep base (spec_add cur l) r.1 ∧ (unmarked c → unmarked r.1).
Proof.
  intros H Hl.
  destruct (foldM_rule_if exact (generate_step n)
    (λ done st, lane_rep base (spec_add cur done) st.1 ∧ (unmarked c → unmarked st.1)
       ∧ match last done with
         | None => st.2 = None
         | Some u => ∃ q, st.2 = Some q ∧ matrix st.1 !! u = Some q
         end) l (c, None)) as [Ht Hj].
  - split_and!; [|done|done]. by rewrite spec_add_nil.
  - intros l1 x l2 [c1 prev] El (H1 & Hu & Hprev). simpl in *.
    assert (Hx : x ∈ l) by (rewrite El; set_solver).
    destruct (po_range l Hl x Hx) as (R1 & R2 & R3).
    destruct (touch_rep base _ c1 x H1 R1 R2 R3) as (p & c2 & Et & H2 & Ex & Hkeep & Hu2).
    unfold generate_step. cbn [fst snd]. rewrite Et. cbn [mbind option_bind].
    rewrite last_snoc. pose proof (spec_add_snoc cur l1 x) as Hsnoc.
    destruct (last l1) as [u|] eqn:Elast.
    + destruct Hprev as (q & -> & Eu). apply Hkeep in Eu.
      assert (Hlink : x.1 = u.2).
      { apply (po_link l Hl). apply occ2_pos. apply last_Some in Elast as [l1' ->].
        exists l1', l2. by rewrite El, <- app_assoc. }
      destruct (lr_cell _ _ _ H2 u q Eu) as (vq & Evq & _). rewrite Evq. cbn [mbind option_bind].
      split.
      * intros He. destruct (add_dep_room _ _ _ _ _ _ _ _ He H2 Eu Ex Hlink Evq) as [v' ->]. by eexists.
      * intros [c3 prev3]. destruct (add_dep vq p) as [vq'|] eqn:Ea; [|done]. intros [= <- <-]. simpl.
        split_and!; [| |by exists p].
        -- rewrite Hsnoc. by apply (add_rep _ _ _ _ _ _ p vq).
        -- intros Huc. apply (unmarked_put _ _ vq); [done|by apply (add_dep_marks _ p)|auto].
    + subst prev. split; [by eexists|]. intros [c3 prev3] [= <- <-]. simpl.
      split_and!; [|auto|by exists p]. by rewrite Hsnoc.
  - split; [exact Ht|]. intros r Hr. destruct (Hj r Hr) as (? & ? & _). done.
Qed.

(** ** Changing the vertices of a route *)

Definition ends (v : cdg_vertex_t) : chan := (v_from v, v_to v).

(** [c'] is [c] with [g] applied to the vertices of the channels in [l]; where [g]
    gives nothing the vertex is freed. *)
Definition updated (l : list chan) (g : chan → cdg_vertex_t → option cdg_vertex_t) (c c' : cdg) : Prop :=
  next_ptr c' = next_ptr c
  ∧ (∀ u, matrix c' !! u = p ← matrix c !! u;
       if decide (u ∈ l) then (v ← verts c !! p; _ ← g u v; Some p) else Some p)
  ∧ ∀ p, verts c' !! p = v ← verts c !! p; if decide (ends v ∈ l) then g (ends v) v else Some v.

Lemma updated_nil g c : updated [] g c c.
Proof.
  split_and!; [done| |].
  - intros u. destruct (matrix c !! u); [|done]. cbn [mbind option_bind].
    by rewrite decide_False by apply not_elem_of_nil.
  - intros p. destruct (verts c !! p); [|done]. cbn [mbind option_bind].
    by rewrite decide_False by apply not_elem_of_nil.
Qed.

(** The channel is not changed yet. *)
Lemma updated_fresh base cur c c1 l g u p v :
  lane_rep base cur c → updated l g c c1 → u ∉ l → matrix c !! u = Some p → verts c !! p = Some v →
  matrix c1 !! u = Some p ∧ verts c1 !! p = Some v.
Proof.
  intros H (_ & Hm & Hv) Hu Ep Ev. destruct (lr_cell _ _ _ H u p Ep) as (v0 & Ev0 & Hr).
  rewrite Ev in Ev0. injection Ev0 as <-. rewrite Hm, Ep, Hv, Ev. cbn [mbind option_bind].
  unfold ends. rewrite (vr_ends _ _ _ _ _ Hr). by rewrite !decide_False.
Qed.

Lemma updated_snoc base cur c c1 l g u p v c2 :
  lane_rep base cur c → updated l g c c1 → u ∉ l → matrix c !! u = Some p → verts c !! p = Some v →
  c2 = (match g u v with
        | None => Cdg (delete p (verts c1)) (next_ptr c1) (delete u (matrix c1))
        | Some v => put_vertex c1 p v
        end) →
  updated (l ++ [u]) g c c2.
Proof.
  intros H Hupd Hu Ep Ev ->. destruct Hupd as (Hn & Hm & Hv).
  destruct (lr_cell _ _ _ H u p Ep) as (v0 & Ev0 & Hr). rewrite Ev in Ev0. injection Ev0 as <-.
  assert (Hends : ends v = u) by apply Hr.
  assert (Hin : ∀ x, x ≠ u → x ∈ l ++ [u] ↔ x ∈ l) by set_solver.
  assert (Hother : ∀ q vq, q ≠ p → verts c !! q = Some vq → ends vq ≠ u).
  { intros q vq Hne Eq E. specialize (lr_vert _ _ _ H q vq Eq). fold (ends vq). rewrite E, Ep. congruence. }
  split_and!.
  - by destruct (g u v).
  - intros x. destruct (decide (x = u)) as [->|Hx].
    + rewrite Ep. cbn [mbind option_bind]. rewrite decide_True by set_solver. rewrite Ev. cbn [mbind option_bind].
      destruct (g u v); simpl; [|apply lookup_delete_eq].
      rewrite Hm, Ep. cbn [mbind option_bind]. by rewrite decide_False.
    + transitivity (matrix c1 !! x); [destruct (g u v); [done|by apply lookup_delete_ne]|].
      rewrite Hm. destruct (matrix c !! x); [|done]. cbn [mbind option_bind].
      destruct (decide (x ∈ l)) as [Hl|Hl]; [rewrite decide_True by set_solver|rewrite decide_False by set_solver]; done.
  - intros q. destruct (decide (q = p)) as [->|Hq].
    + rewrite Ev. cbn [mbind option_bind]. rewrite Hends, decide_True by set_solver.
      destruct (g u v); [rewrite put_lookup; by rewrite decide_True|apply lookup_delete_eq].
    + transitivity (verts c1 !! q).
      { destruct (g u v); [rewrite put_lookup; by rewrite decide_False by done|by apply lookup_delete_ne]. }
      rewrite Hv. destruct (verts c !! q) as [vq|] eqn:Eq; [|done]. cbn [mbind option_bind].
      specialize (Hother q vq Hq Eq).
      destruct (decide (ends vq ∈ l)) as [Hl|Hl]; [rewrite decide_True by set_solver|rewrite decide_False by set_solver]; done.
Qed.

Lemma update_walk base cur c l f g :
  lane_rep base cur c → NoDup l → (∀ u, u ∈ l → 0 < use cur u) →
  (∀ l1 u l2 c1 p v, l = l1 ++ u :: l2 → updated l1 g c c1 →
     matrix c !! u = Some p → verts c !! p = Some v → f c1 u v = Some (g u v)) →
  ∃ c', foldM (λ c u, update_vertex n (f c u) c u) l c = Some c' ∧ updated l g c c'.
Proof.
  intros H Hn Hused Hf. apply (foldM_rule _ (λ done c', updated done g c c')); [apply updated_nil|].
  intros l1 u l2 c1 El Hupd.
  assert (Hu : u ∈ l) by (rewrite El; set_solver).
  assert (Hu1 : u ∉ l1).
  { rewrite El in Hn. apply NoDup_app in Hn as (_ & Hn & _). intros Hin. apply (Hn u Hin). left. }
  destruct (proj2 (lr_used _ _ _ H u) (Hused u Hu)) as [p Ep].
  destruct (lr_cell _ _ _ H u p Ep) as (v & Ev & Hr).
  destruct (updated_fresh _ _ _ _ _ _ _ _ _ H Hupd Hu1 Ep Ev) as [Ep1 Ev1].
  destruct (lr_cur _ _ _ H) as [Hc _]. destruct (Hc u (Hused u Hu)) as (R1 & R2 & _).
  unfold update_vertex. rewrite cell_in by done. cbn [mbind option_bind]. rewrite Ep1. cbn [mbind option_bind].
  rewrite Ev1. cbn [mbind option_bind]. rewrite (Hf l1 u l2 c1 p v El Hupd Ep Ev). cbn [mbind option_bind].
  eexists. split; [|by apply (updated_snoc base cur c c1 l1 g u p v _ H Hupd Hu1 Ep Ev)].
  by destruct (g u v).
Qed.

(** The representation after the change. *)
Lemma rep_updated base cur base' cur' c c' l g :
  lane_rep base cur c → updated l g c c' →
  spec_ok n base' → spec_ok n cur' → spec_le base' cur' →
  (∀ u, use cur' u ≤ use cur u) → (∀ u, u ∉ l → use cur' u = use cur u) →
  (∀ u p v, matrix c !! u = Some p → verts c !! p = Some v → vertex_rep base cur c u v →
     if decide (u ∈ l) then
       match g u v with
       | None => use cur' u = 0
       | Some v' => 0 < use cur' u ∧ vertex_rep base' cur' c' u v'
       end
     else vertex_rep base' cur' c' u v) →
  lane_rep base' cur' c'.
Proof.
  intros H (Hn & Hm & Hv) Hb' Hc' Hle' Hless Hout Hat. pose proof H as [].
  assert (Hcell : ∀ u p, matrix c' !! u = Some p → ∃ v v', matrix c !! u = Some p ∧ verts c !! p = Some v
            ∧ vertex_rep base cur c u v
            ∧ verts c' !! p = Some v' ∧ if decide (u ∈ l) then g u v = Some v' else v' = v).
  { intros u p E. rewrite Hm in E. destruct (matrix c !! u) as [q|] eqn:Eq; [|done].
    cbn [mbind option_bind] in E. destruct (lr_cell0 u q Eq) as (v & Ev & Hr).
    pose proof (vr_ends _ _ _ _ _ Hr) as Hends. fold (ends v) in Hends.
    destruct (decide (u ∈ l)) as [Hl|Hl].
    - rewrite Ev in E. cbn [mbind option_bind] in E. destruct (g u v) as [v'|] eqn:Eg; [|done].
      injection E as <-. exists v, v'. rewrite Hv, Ev. cbn [mbind option_bind].
      rewrite Hends, decide_True by done. done.
    - injection E as <-. exists v, v. rewrite Hv, Ev. cbn [mbind option_bind].
      rewrite Hends, decide_False by done. done. }
  split; try done.
  - intros p v'. rewrite Hv, Hn. destruct (verts c !! p) as [v|] eqn:Ev; [|done]. intros _.
    by apply (lr_fresh0 p v).
  - intros u. rewrite Hm. destruct (matrix c !! u) as [q|] eqn:Eq; cbn [mbind option_bind].
    + destruct (lr_cell0 u q Eq) as (v & Ev & Hr). specialize (Hat u q v Eq Ev Hr).
      destruct (decide (u ∈ l)) as [Hl|Hl].
      * rewrite Ev. cbn [mbind option_bind]. destruct (g u v); cbn [mbind option_bind].
        -- split; [intros _; apply Hat|by eexists].
        -- rewrite Hat. split; [by intros []|lia].
      * rewrite (Hout u Hl). split; [intros _|by eexists]. apply lr_used0. by eexists.
    + assert (¬ 0 < use cur u) as Hz by (rewrite <- lr_used0, Eq; by intros []).
      split; [by intros []|]. specialize (Hless u). lia.
  - intros u p E. destruct (Hcell u p E) as (v & v' & Ep & Ev & Hr & Ev' & Hg). exists v'.
    split; [done|]. specialize (Hat u p v Ep Ev Hr).
    case_decide; [rewrite Hg in Hat; apply Hat|by subst].
  - intros p v' E. rewrite Hv in E. destruct (verts c !! p) as [v|] eqn:Ev; [|done].
    cbn [mbind option_bind] in E. specialize (lr_vert0 p v Ev). fold (ends v) in lr_vert0.
    destruct (lr_cell0 _ p lr_vert0) as (v0 & Ev0 & Hr). rewrite Ev in Ev0. injection Ev0 as <-.
    specialize (Hat _ p v lr_vert0 Ev Hr).
    assert (Hends : ends v' = ends v).
    { case_decide; [|by injection E as <-]. rewrite E in Hat. apply Hat. }
    fold (ends v'). rewrite Hends, Hm, lr_vert0. cbn [mbind option_bind].
    case_decide; [|done]. rewrite Ev. cbn [mbind option_bind]. by rewrite E.
Qed.

(** The cells that stay. *)
Definition cells_kept (cur' : spec) (c c' : cdg) : Prop :=
  (∀ w q, matrix c' !! w = Some q → matrix c !! w = Some q)
  ∧ ∀ w q, matrix c !! w = Some q → 0 < use cur' w → matrix c' !! w = Some q.

Lemma updated_cells base cur cur' c c' l g :
  lane_rep base cur c → updated l g c c' →
  (∀ u p v, u ∈ l → matrix c !! u = Some p → verts c !! p = Some v → vertex_rep base cur c u v →
     g u v = None → use cur' u = 0) →
  cells_kept cur' c c'.
Proof.
  intros H (_ & Hm & _) Hg. split; intros w q E.
  - rewrite Hm in E. destruct (matrix c !! w) as [p|]; [|done]. cbn [mbind option_bind] in E.
    case_decide; [|done]. destruct (verts c !! p); [|done]. cbn [mbind option_bind] in E.
    by destruct (g w _).
  - intros Hu. rewrite Hm, E. cbn [mbind option_bind]. case_decide as Hl; [|done].
    destruct (lr_cell _ _ _ H w q E) as (v & Ev & Hr). rewrite Ev. cbn [mbind option_bind].
    destruct (g w v) eqn:Eg; [done|]. specialize (Hg w q v Hl E Ev Hr Eg). lia.
Qed.

(** A vertex whose channel is used as before. *)
Lemma vertex_rep_kept base cur base' cur' c c' u v :
  vertex_rep base cur c u v → next_ptr c' = next_ptr c → cells_kept cur' c c' →
  spec_ok n cur' → spec_le base' cur' →
  use base' u = use base u → use cur' u = use cur u →
  (∀ w, fol base' u w = fol base u w) → (∀ w, fol cur' u w = fol cur u w) →
  vertex_rep base' cur' c' u v.
Proof.
  intros [] Hn [Hback Hkeep] [_ Hok] [_ Hle] Ub Uc Fb Fc. split; try done.
  - by rewrite Ub.
  - by rewrite Uc.
  - intros Hp. destruct (vr_extra_pos0 Hp) as (w & Hw). exists w. by rewrite Fb, Fc.
  - by rewrite Hn.
  - intros w Hw. specialize (Hle u w). destruct (Hok u w) as (_ & Huse & _); [lia|].
    rewrite Fb in Hw. destruct (vr_base0 w Hw) as (q & ? & ?). eauto.
  - intros w Hw. destruct (Hok u w Hw) as (_ & Huse & _).
    rewrite Fc in Hw. destruct (vr_cur0 w Hw) as (q & ? & ?). eauto.
  - intros i q k w Hi Hk Hw. rewrite Fc. apply (vr_count0 i q k w Hi Hk). by apply Hback.
  - intros He q Hq. destruct (vr_exact0 He q Hq) as (w & Hw & Hf). rewrite <- Fc in Hf. exists w.
    destruct (Hok u w Hf) as (_ & Huse & _). auto.
  - intros He Ht q Hq. destruct (vr_exact_base0 He Ht q Hq) as (w & Hw & Hf). rewrite <- Fb in Hf.
    exists w. split; [|done]. apply Hkeep; [done|]. specialize (Hle u w).
    by destruct (Hok u w ltac:(lia)) as (_ & ? & _).
Qed.

(** ** Taking a temporary route back *)

Definition drop_temp (u : chan) (v : cdg_vertex_t) : option cdg_vertex_t :=
  if temp v then None
  else Some (v <| num_deps := num_deps v - num_temp_depend v |> <| num_temp_depend := 0 |>
               <| num_using_vertex := num_using_vertex v - 1 |>
               <| deps := take (num_deps v - num_temp_depend v) (deps v)
                          ++ map (λ e, (e.1, 0)) (drop (num_deps v - num_temp_depend v) (deps v)) |>).

Lemma remove_temp_eq base cur c u v :
  vertex_rep base cur c u v → remove_temp v = Some (drop_temp u v).
Proof.
  intros H. unfold remove_temp, drop_temp. destruct (temp v); [done|].
  pose proof (vr_extra _ _ _ _ _ H) as He. apply Nat.leb_le in He. by rewrite He.
Qed.

Lemma vertex_drop_temp base cur cur' c c' u v v' :
  vertex_rep base cur c u v → next_ptr c' = next_ptr c → cells_kept cur' c c' →
  spec_ok n cur' → spec_le cur' cur →
  use cur u = S (use base u) → use cur' u = use base u → (∀ w, fol cur' u w = fol base u w) →
  drop_temp u v = Some v' →
  vertex_rep base cur' c' u v'.
Proof.
  intros [] Hn [Hback Hkeep] [_ Hok] [_ Hle] Uc Ub Fb. unfold drop_temp.
  destruct (temp v) eqn:Et; [done|]. intros [= <-].
  set (k := num_deps v - num_temp_depend v). set (v' := _ <| deps := _ |>).
  assert (Hk : k ≤ length (deps v)) by (unfold k; lia).
  assert (Htake : take k (deps v') = take k (deps v)).
  { unfold v'. simpl. rewrite take_app_le by (rewrite length_take; lia). by rewrite take_take, Nat.min_id. }
  assert (Hs : succs v' = (take k (deps v)).*1).
  { unfold succs. change (num_deps v') with k. by rewrite Htake. }
  assert (Hsub : ∀ o, o ∈ (take k (deps v)).*1 → o ∈ succs v).
  { intros o (i & Hi)%list_elem_of_lookup. rewrite list_lookup_fmap in Hi. apply elem_of_succs.
    destruct (decide (i < k)) as [?|?]; [|by rewrite lookup_take_ge in Hi by lia].
    rewrite lookup_take_lt in Hi by done. exists i. split; [unfold k in *; lia|done]. }
  split; rewrite ?Hs; try done; unfold v'; simpl.
  - by rewrite Et.
  - rewrite vr_using0, Ub, Uc. lia.
  - rewrite length_app, length_take, length_map, length_drop. lia.
  - unfold k. lia.
  - lia.
  - lia.
  - unfold succs in vr_nodup0.
    rewrite <- (take_drop k (take (num_deps v) (deps v))), fmap_app, take_take in vr_nodup0.
    rewrite (Nat.min_l k (num_deps v)) in vr_nodup0 by (unfold k; lia).
    by apply NoDup_app in vr_nodup0 as [? _].
  - rewrite Hn. auto.
  - intros w Hw. rewrite <- Fb in Hw. destruct (Hok u w Hw) as (_ & Huse & _). rewrite Fb in Hw.
    destruct (vr_base0 w Hw) as (q & ? & ?). exists q. split; [auto|].
    change (take k (deps v) ++ _) with (deps v'). by rewrite Nat.sub_0_r, Htake.
  - intros w Hw. destruct (Hok u w Hw) as (_ & Huse & _). rewrite Fb in Hw.
    destruct (vr_base0 w Hw) as (q & ? & ?). eauto.
  - intros i q m w Hi Hm Hw. rewrite lookup_app_l, lookup_take_lt in Hm by (rewrite ?length_take; lia).
    etrans; [apply Hle|]. apply (vr_count0 i q m w); [unfold k in Hi; lia|done|by apply Hback].
  - intros He q Hq. destruct (vr_exact_base0 He eq_refl q Hq) as (w & Hw & Hf). rewrite <- Fb in Hf.
    exists w. destruct (Hok u w Hf) as (_ & Huse & _). auto.
  - intros He _ q. change (take k (deps v) ++ _) with (deps v'). rewrite Nat.sub_0_r, Htake. intros Hq.
    destruct (vr_exact_base0 He eq_refl q Hq) as (w & Hw & Hf). exists w. split; [|done].
    rewrite <- Fb in Hf. destruct (Hok u w Hf) as (_ & Huse & _). auto.
Qed.

(** [base]: what is permanent; [cur]: what is left with the route taken back. *)
Lemma remove_temp_rep base cur c l :
  lane_rep base (spec_add cur l) c → path_ok l → spec_ok n cur → spec_le base cur →
  (∀ u, u ∈ l → use cur u = use base u ∧ ∀ w, fol cur u w = fol base u w) →
  ∃ c', foldM (update_vertex n remove_temp) l c = Some c' ∧ lane_rep base cur c'
    ∧ (unmarked c → unmarked c').
Proof.
  intros H Hl Hok Hle Hat.
  assert (Huse : ∀ u, u ∈ l → use (spec_add cur l) u = S (use base u)).
  { intros u Hu. simpl. rewrite (occ_NoDup l u) by (done || apply Hl). destruct (Hat u Hu) as [-> _]. lia. }
  destruct (update_walk base _ c l (λ _ _, remove_temp) drop_temp H (po_nodup l Hl)) as (c' & E & Hupd).
  - intros u Hu. rewrite Huse by done. lia.
  - intros l1 u l2 c1 p v El Hupd Ep Ev. destruct (lr_cell _ _ _ H u p Ep) as (v0 & Ev0 & Hr).
    rewrite Ev in Ev0. injection Ev0 as <-. by apply (remove_temp_eq base (spec_add cur l) c).
  - exists c'. split; [exact E|]. split.
    + assert (Hcells : cells_kept cur c c').
      { apply (updated_cells base _ cur c c' l drop_temp H Hupd). intros u p v Hu _ _ Hr. unfold drop_temp.
        destruct (temp v) eqn:Et; [|done]. intros _. destruct (Hat u Hu) as [-> _].
        by apply (vr_temp _ _ _ _ _ Hr). }
      apply (rep_updated base (spec_add cur l) base cur c c' l drop_temp H Hupd); try done; try apply H.
      * intros u. simpl. lia.
      * intros u Hu. simpl. by rewrite (occ_zero l u Hu), Nat.add_0_r.
      * intros u p v Ep Ev Hr. destruct (decide (u ∈ l)) as [Hu|Hu].
        -- destruct (Hat u Hu) as [Hau Haf]. destruct (drop_temp u v) as [v'|] eqn:Eg.
           ++ split.
              ** unfold drop_temp in Eg. destruct (temp v) eqn:Et; [done|]. rewrite Hau.
                 destruct (use base u) eqn:Eb; [|lia]. apply (vr_temp _ _ _ _ _ Hr) in Eb. congruence.
              ** apply (vertex_drop_temp base (spec_add cur l) cur c c' u v v' Hr); try done; try apply Hupd.
                 --- split; intros *; simpl; lia.
                 --- by apply Huse.
           ++ rewrite Hau. apply (vr_temp _ _ _ _ _ Hr). unfold drop_temp in Eg. by destruct (temp v).
        -- apply (vertex_rep_kept base (spec_add cur l) base cur c c' u v Hr); try done; try apply Hupd;
             simpl; intros; rewrite ?(occ_zero l u Hu), ?(occ2_zero l u _ Hu); lia.
    + intros Hu p v'. destruct Hupd as (_ & _ & Hv). rewrite Hv.
      destruct (verts c !! p) as [v|] eqn:Ev; [|done]. cbn [mbind option_bind].
      case_decide; [|intros [= <-]; by apply (Hu p)]. unfold drop_temp. destruct (temp v); [done|].
      intros [= <-]. exact (Hu p v Ev).
Qed.

(** ** Making a temporary route permanent *)

Definition make_permanent (u : chan) (v : cdg_vertex_t) : option cdg_vertex_t :=
  Some (if temp v then v <| temp := false |> else v <| num_temp_depend := 0 |>).

Lemma vertex_permanent base base' cur c c' u v v' :
  vertex_rep base cur c u v → next_ptr c' = next_ptr c → cells_kept cur c c' →
  spec_ok n cur → 0 < use base' u → use cur u = use base' u → (∀ w, fol cur u w = fol base' u w) →
  make_permanent u v = Some v' →
  vertex_rep base' cur c' u v'.
Proof.
  intros [] Hn [Hback Hkeep] [_ Hok] Hpos Uc Fc [= <-].
  assert (Hz : num_temp_depend (if temp v then v <| temp := false |> else v <| num_temp_depend := 0 |>) = 0).
  { destruct (temp v) eqn:Et; [by apply vr_extra_temp0|done]. }
  set (v' := if temp v then _ else _) in *.
  assert (Hsame : v_from v' = v_from v ∧ v_to v' = v_to v ∧ num_using_vertex v' = num_using_vertex v
            ∧ num_deps v' = num_deps v ∧ deps v' = deps v ∧ temp v' = false).
  { unfold v'. destruct (temp v) eqn:Et; done. }
  destruct Hsame as (E1 & E2 & E3 & E4 & E5 & E6).
  unfold succs in *. split; unfold succs; rewrite ?E1, ?E2, ?E3, ?E4, ?E5, ?E6, ?Hz, ?Hn, ?Nat.sub_0_r;
    try done; try lia.
  - intros w Hw. rewrite <- Fc in Hw. destruct (Hok u w Hw) as (_ & ? & _).
    destruct (vr_cur0 w Hw) as (q & ? & ?). eauto.
  - intros w Hw. destruct (Hok u w Hw) as (_ & ? & _). destruct (vr_cur0 w Hw) as (q & ? & ?). eauto.
  - intros i q k w Hi Hk Hw. apply (vr_count0 i q k w Hi Hk). by apply Hback.
  - intros He q Hq. destruct (vr_exact0 He q Hq) as (w & Hw & Hf). exists w.
    destruct (Hok u w Hf) as (_ & ? & _). auto.
  - intros He _ q Hq. destruct (vr_exact0 He q Hq) as (w & Hw & Hf). exists w.
    destruct (Hok u w Hf) as (_ & ? & _). rewrite <- Fc. auto.
Qed.

Lemma set_permanent_rep base cur c l :
  lane_rep base cur c → path_ok l → spec_ok n (spec_add base l) → spec_le (spec_add base l) cur →
  (∀ u, u ∈ l → use cur u = use (spec_add base l) u ∧ ∀ w, fol cur u w = fol (spec_add base l) u w) →
  ∃ c', foldM (update_vertex n set_permanent) l c = Some c' ∧ lane_rep (spec_add base l) cur c'
    ∧ (unmarked c → unmarked c').
Proof.
  intros H Hl Hok Hle Hat.
  assert (Huse : ∀ u, u ∈ l → 0 < use (spec_add base l) u).
  { intros u Hu. simpl. apply occ_pos in Hu. lia. }
  destruct (update_walk base _ c l (λ _ _, set_permanent) make_permanent H (po_nodup l Hl)) as (c' & E & Hupd).
  - intros u Hu. destruct (Hat u Hu) as [-> _]. by apply Huse.
  - done.
  - exists c'. split; [exact E|]. split.
    + assert (Hcells : cells_kept cur c c').
      { by apply (updated_cells base cur cur c c' l make_permanent H Hupd). }
      apply (rep_updated base cur _ cur c c' l make_permanent H Hupd); try done; try apply H.
      intros u p v Ep Ev Hr. destruct (decide (u ∈ l)) as [Hu|Hu].
      * destruct (Hat u Hu) as [Hau Haf]. split; [rewrite Hau; by apply Huse|].
        apply (vertex_permanent base _ cur c c' u v _ Hr); try done; try apply Hupd; [apply H|by apply Huse].
      * apply (vertex_rep_kept base cur _ cur c c' u v Hr); try done; try apply Hupd; try apply H;
          simpl; intros; rewrite ?(occ_zero l u Hu), ?(occ2_zero l u _ Hu); lia.
    + intros Hu p v'. destruct Hupd as (_ & _ & Hv). rewrite Hv.
      destruct (verts c !! p) as [v|] eqn:Ev; [|done]. cbn [mbind option_bind].
      specialize (Hu p v Ev). case_decide; [|by intros [= <-]].
      intros [= <-]. by destruct (temp v).
Qed.

(** ** Taking a permanent route back *)

(** The entry that [drop_dep] finds. *)
Lemma depend_found v (q : option nat) d :
  NoDup (succs v) → d < num_deps v → fst <$> deps v !! d = Some q →
  foldl (λ depend i, if decide (fst <$> deps v !! i = Some q) then i else depend) 0 (seq 0 (num_deps v)) = d.
Proof.
  intros Hn Hd Hq.
  assert (Huniq : ∀ i, i < num_deps v → fst <$> deps v !! i = Some q → i = d).
  { intros i Hi Hiq. apply (NoDup_lookup (succs v) i d q Hn); unfold succs;
      rewrite list_lookup_fmap, lookup_take_lt by done; done. }
  assert (Hgen : ∀ k, k ≤ num_deps v →
    foldl (λ depend i, if decide (fst <$> deps v !! i = Some q) then i else depend) 0 (seq 0 k)
    = if decide (d < k) then d else 0).
  { induction k as [|k IH]; intros Hk; [by rewrite decide_False by lia|].
    rewrite seq_S, foldl_app, IH by lia. simpl. destruct (decide (k = d)) as [->|Hne].
    - rewrite Hq, !decide_True by (done || lia). done.
    - rewrite (decide_False (P:=fst <$> deps v !! k = Some q)); [|intros Hk'; apply Hne; by apply Huniq].
      destruct (decide (d < k)), (decide (d < S k)); lia. }
  rewrite Hgen by done. by rewrite decide_True.
Qed.

(** The dependencies of the vertex without one use of that on [q]. *)
Lemma drop_dep_ok v q d k :
  NoDup (succs v) → num_deps v ≤ length (deps v) → d < num_deps v → deps v !! d = Some (Some q, k) →
  ∃ v', drop_dep v (Some q) = Some v'
   ∧ (v_from v', v_to v', temp v', num_temp_depend v', num_using_vertex v')
     = (v_from v, v_to v, temp v, num_temp_depend v, num_using_vertex v)
   ∧ visiting_number v' = visiting_number v ∧ seen v' = seen v
   ∧ length (deps v') = length (deps v)
   ∧ (take (num_deps v') (deps v')
      = if k =? 1 then delete d (take (num_deps v) (deps v))
        else <[d := (Some q, k - 1)]> (take (num_deps v) (deps v)))
   ∧ num_deps v' ≤ num_deps v.
Proof.
  intros Hn Hlen Hd Hk. unfold drop_dep. apply Nat.leb_le in Hlen as Hl. rewrite Hl.
  cbn [check mbind option_bind].
  rewrite (depend_found v (Some q) d Hn Hd) by (by rewrite Hk). rewrite Hk. cbn [mbind option_bind fst snd].
  destruct (k =? 1).
  - eexists. split; [done|]. split_and!; [done|done|done| | |simpl; lia].
    + simpl. rewrite !length_app, !length_take, !length_drop. lia.
    + simpl. rewrite app_assoc. rewrite delete_take_drop.
      rewrite take_app_le by (rewrite length_app, !length_take, length_drop; lia).
      rewrite take_ge by (rewrite length_app, !length_take, length_drop; lia).
      rewrite take_take, Nat.min_l by lia. f_equal.
      rewrite skipn_firstn_comm. f_equal. lia.
  - eexists. split; [done|]. split_and!; [done|done|done| | |simpl; lia].
    + simpl. by rewrite length_insert.
    + simpl. by rewrite take_insert_lt.
Qed.

(** The vertex of a channel with one use less; [nxt]: the next channel of the route. *)
Definition drop_use (c : cdg) (nxt : option chan) (v : cdg_vertex_t) : option (option cdg_vertex_t) :=
  if num_using_vertex v =? 1 then Some None
  else
    let v := v <| num_using_vertex := num_using_vertex v - 1 |> in
    match nxt with
    | None => Some (Some v)
    | Some w => q ← cell n c w; v ← drop_dep v q; Some (Some v)
    end.

Lemma settled_no_extra s c u v : vertex_rep s s c u v → num_temp_depend v = 0.
Proof.
  intros H. destruct (num_temp_depend v) eqn:E; [done|].
  destruct (vr_extra_pos _ _ _ _ _ H) as (w & Hw); lia.
Qed.

Lemma fmap_delete {A B} (f : A → B) d (l : list A) : f <$> delete d l = delete d (f <$> l).
Proof. by rewrite !delete_take_drop, fmap_app, fmap_take, fmap_drop. Qed.

(** What is left after the deletion of entry [d] stood elsewhere before. *)
Lemma delete_lookup_Some {A} (l : list A) d i x :
  delete d l !! i = Some x → ∃ j, j ≠ d ∧ l !! j = Some x.
Proof.
  rewrite list_lookup_delete. case_decide; intros Hi; eexists; (split; [|exact Hi]); lia.
Qed.

Lemma elem_of_delete {A} (l : list A) d x y : l !! d = Some y → x ∈ l → x ≠ y → x ∈ delete d l.
Proof.
  intros Hd Hx Hne. rewrite <- (take_drop_middle l d y Hd) in Hx.
  rewrite delete_take_drop. set_solver.
Qed.

(** Dependencies that were there are there, unless they were the last use of [w]. *)
Lemma vertex_drop_rep s s' c c' u nxt v v' :
  ¬ exact → vertex_rep s s c u v → next_ptr c' = next_ptr c → cells_kept s' c c' →
  spec_ok n s' → use s u = S (use s' u) →
  (∀ w, fol s u w = fol s' u w + if decide (nxt = Some w) then 1 else 0) →
  (∀ w, nxt = Some w → w.1 < n ∧ w.2 < n) →
  (∀ w w' q, matrix c !! w = Some q → matrix c !! w' = Some q → w = w') →
  num_using_vertex v ≠ 1 → drop_use c nxt v = Some (Some v') →
  0 < use s' u ∧ vertex_rep s' s' c' u v'.
Proof.
  intros Hne Hv Hn [Hback Hkeep] [_ Hok] Huse Hfol Hrange Hinj H1 H.
  pose proof (settled_no_extra _ _ _ _ Hv) as Hz. pose proof Hv as [].
  assert (Hpos : 0 < use s' u) by lia. split; [done|].
  unfold drop_use in H. apply Nat.eqb_neq in H1. rewrite H1 in H.
  set (v1 := v <| num_using_vertex := num_using_vertex v - 1 |>) in *.
  assert (Ht : temp v = false).
  { destruct (temp v) eqn:E; [|done]. pose proof (proj1 vr_temp0 eq_refl). lia. }
  assert (Hkeepf : ∀ w, 0 < fol s' u w → ∃ q, matrix c !! w = Some q ∧ matrix c' !! w = Some q ∧ Some q ∈ succs v).
  { intros w Hw. destruct (Hok u w Hw) as (_ & Hw' & _).
    destruct (vr_cur0 w) as (q & Hq & Hin); [rewrite Hfol; lia|]. exists q. auto. }
  assert (Hgoal : ∀ v2, (v_from v2, v_to v2, temp v2, num_temp_depend v2, num_using_vertex v2)
       = (v_from v, v_to v, temp v, num_temp_depend v, num_using_vertex v - 1) →
     length (deps v2) = length (deps v) → num_deps v2 ≤ num_deps v → NoDup (succs v2) →
     (∀ o, o ∈ succs v2 → o ∈ succs v) →
     (∀ w q, 0 < fol s' u w → matrix c !! w = Some q → Some q ∈ succs v → Some q ∈ succs v2) →
     (∀ i q k w, i < num_deps v2 → deps v2 !! i = Some (Some q, k) → matrix c !! w = Some q → fol s' u w ≤ k) →
     vertex_rep s' s' c' u v2).
  { intros v2 Hsame Hl2 Hd2 Hnd2 Hsub Hsup Hcount. injection Hsame as E1 E2 E3 E4 E5.
    split; rewrite ?E1, ?E2, ?E3, ?E4, ?E5, ?Hz, ?Nat.sub_0_r; try done; try lia.
    - rewrite Ht. split; [done|lia].
    - intros o Ho. rewrite Hn. by apply vr_ptr0, Hsub.
    - intros w Hw. destruct (Hkeepf w Hw) as (q & ? & ? & ?). exists q. split; [done|].
      by apply (Hsup w q).
    - intros w Hw. destruct (Hkeepf w Hw) as (q & ? & ? & ?). exists q. split; [done|].
      by apply (Hsup w q).
    - intros i q k w Hi Hk Hw. apply (Hcount i q k w Hi Hk). by apply Hback. }
  destruct nxt as [w|].
  - destruct (Hrange w eq_refl) as [R1 R2]. rewrite cell_in in H by done. cbn [mbind option_bind] in H.
    destruct (vr_cur0 w) as (q & Hq & Hin); [rewrite Hfol, decide_True by done; lia|].
    rewrite Hq in H. apply elem_of_succs in Hin as (d & Hd & Hdq).
    destruct (deps v !! d) as [[o k]|] eqn:Ed; [|done]. injection Hdq as ->.
    destruct (drop_dep_ok v1 q d k) as (v2 & E2 & Hsame & _ & _ & Hl2 & Htake & Hd2);
      [done|change (deps v1) with (deps v); change (num_deps v1) with (num_deps v); lia|done|done|].
    rewrite E2 in H. injection H as <-.
    change (num_deps v1) with (num_deps v) in *. change (deps v1) with (deps v) in *.
    assert (Hfw : fol s u w ≤ k) by (by apply (vr_count0 d q k w)).
    rewrite Hfol, decide_True in Hfw by done.
    assert (Hdl : take (num_deps v) (deps v) !! d = Some (Some q, k)) by (by rewrite lookup_take_lt).
    assert (Hds : succs v !! d = Some (Some q)) by (unfold succs; by rewrite list_lookup_fmap, Hdl).
    assert (Hs2 : succs v2 = if k =? 1 then delete d (succs v) else succs v).
    { unfold succs. rewrite Htake. destruct (k =? 1); [apply fmap_delete|].
      rewrite list_fmap_insert. simpl. apply list_insert_id. exact Hds. }
    apply Hgoal; [exact Hsame|done|done|..]; try rewrite Hs2.
    + destruct (k =? 1); [|done]. eapply sublist_NoDup; [exact vr_nodup0|apply sublist_delete].
    + intros o Ho. destruct (k =? 1); [|done]. eapply elem_of_sublist; [exact Ho|apply sublist_delete].
    + intros w' q' Hf Hq' Hin. destruct (Nat.eqb_spec k 1) as [Hk1|]; [|done].
      apply (elem_of_delete _ d _ (Some q)); [done|done|]. intros [= ->].
      rewrite (Hinj w' w q Hq' Hq) in Hf. lia.
    + intros i q' k' w' Hi Hk' Hw'.
      assert (Hi2 : take (num_deps v2) (deps v2) !! i = Some (Some q', k')) by (by rewrite lookup_take_lt).
      rewrite Htake in Hi2.
      assert (Hold : ∀ j, j ≠ d → take (num_deps v) (deps v) !! j = Some (Some q', k') → fol s' u w' ≤ k').
      { intros j Hj Ej. pose proof (lookup_lt_Some _ _ _ Ej) as Hjl. rewrite length_take in Hjl.
        rewrite lookup_take_lt in Ej by lia. specialize (vr_count0 j q' k' w' ltac:(lia) Ej Hw').
        rewrite Hfol in vr_count0. lia. }
      destruct (k =? 1).
      * apply delete_lookup_Some in Hi2 as (j & Hj & Ej). by apply (Hold j).
      * apply list_lookup_insert_Some in Hi2 as [(<- & E & _)|[Hne' Ei]]; [|by apply (Hold i)].
        injection E as <- <-. rewrite (Hinj w' w q Hw' Hq). lia.
  - injection H as <-. apply Hgoal; try done.
    intros i q k w Hi Hk Hw. specialize (vr_count0 i q k w Hi Hk Hw). rewrite Hfol in vr_count0. lia.
Qed.

Lemma drop_use_total s c u nxt v :
  vertex_rep s s c u v → (∀ w, nxt = Some w → 0 < fol s u w ∧ w.1 < n ∧ w.2 < n) →
  ∃ r, drop_use c nxt v = Some r
    ∧ ∀ v', r = Some v' → visiting_number v' = visiting_number v ∧ seen v' = seen v.
Proof.
  intros Hv Hw. unfold drop_use. destruct (num_using_vertex v =? 1); [by exists None|].
  destruct nxt as [w|]; [|by eexists; split; [done|]; intros v' [= <-]].
  destruct (Hw w eq_refl) as (Hf & R1 & R2). rewrite cell_in by done. cbn [mbind option_bind].
  pose proof Hv as []. destruct (vr_cur0 w Hf) as (q & -> & Hin).
  apply elem_of_succs in Hin as (d & Hd & Hdq).
  destruct (deps v !! d) as [[o k]|] eqn:Ed; [|done]. injection Hdq as ->.
  destruct (drop_dep_ok (v <| num_using_vertex := num_using_vertex v - 1 |>) q d k)
    as (v2 & -> & _ & E1 & E2 & _); [done|simpl; lia|done|done|].
  eexists. split; [done|]. by intros v' [= <-].
Qed.

Fixpoint next_in (l : list chan) (u : chan) : option chan :=
  match l with
  | x :: l' => if decide (x = u) then head l' else next_in l' u
  | [] => None
  end.

Lemma next_in_split l1 u l2 : NoDup (l1 ++ u :: l2) → next_in (l1 ++ u :: l2) u = head l2.
Proof.
  induction l1 as [|x l1 IH]; simpl; intros Hn; [by rewrite decide_True|].
  apply NoDup_cons in Hn as [Hx Hn]. rewrite decide_False; [by apply IH|]. set_solver.
Qed.

Lemma remove_semi_rep s' c l f :
  ¬ exact → lane_rep (spec_add s' l) (spec_add s' l) c → path_ok l → spec_ok n s' →
  (∀ l1 u l2 c1 v, l = l1 ++ u :: l2 → f c1 u v = drop_use c1 (head l2) v) →
  ∃ c', foldM (λ c u, update_vertex n (f c u) c u) l c = Some c' ∧ lane_rep s' s' c'
    ∧ (unmarked c → unmarked c').
Proof.
  intros Hne H Hl Hok Hf. set (s := spec_add s' l) in *.
  set (g := λ u v, mjoin (drop_use c (next_in l u) v)).
  assert (Hsplit : ∀ u, u ∈ l → ∃ l1 l2, l = l1 ++ u :: l2 ∧ next_in l u = head l2
     ∧ (∀ w, head l2 = Some w → w ∉ l1 ∧ w ∈ l)
     ∧ ∀ w, occ2 l u w = if decide (head l2 = Some w) then 1 else 0).
  { intros u Hu. apply list_elem_of_split in Hu as (l1 & l2 & El). exists l1, l2.
    pose proof (po_nodup l Hl) as Hn. rewrite El in Hn |- *. split_and!; [done|by apply next_in_split| |].
    - intros w Hw. destruct l2 as [|y l2]; [done|]. injection Hw as ->. split; [|set_solver].
      apply NoDup_app in Hn as (_ & Hn & _). intros Hin. apply (Hn w Hin). set_solver.
    - intros w. by apply occ2_NoDup. }
  assert (Hnext : ∀ u w, u ∈ l → next_in l u = Some w → 0 < fol s u w ∧ w.1 < n ∧ w.2 < n).
  { intros u w Hu Hw. destruct (Hsplit u Hu) as (l1 & l2 & El & En & Hin & Hocc). rewrite En in Hw.
    split; [change (fol s u w) with (fol s' u w + occ2 l u w); rewrite Hocc, decide_True by done; lia|].
    destruct (po_range l Hl w) as (? & ? & _); [by apply (Hin w)|done]. }
  assert (Hg : ∀ u p v, u ∈ l → matrix c !! u = Some p → verts c !! p = Some v → vertex_rep s s c u v →
     drop_use c (next_in l u) v = Some (g u v)
     ∧ ∀ v', g u v = Some v' → visiting_number v' = visiting_number v ∧ seen v' = seen v).
  { intros u p v Hu Ep Ev Hr. destruct (drop_use_total s c u (next_in l u) v Hr) as (r & Er & Hm).
    - intros w Hw. by apply Hnext.
    - unfold g. rewrite Er. by split. }
  destruct (update_walk s s c l f g H (po_nodup l Hl)) as (c' & E & Hupd).
  - intros u Hu. simpl. apply occ_pos in Hu. lia.
  - intros l1 u l2 c1 p v El Hupd Ep Ev. rewrite (Hf l1 u l2 c1 v El).
    assert (Hu : u ∈ l) by (rewrite El; set_solver).
    destruct (lr_cell _ _ _ H u p Ep) as (v0 & Ev0 & Hr). rewrite Ev in Ev0. injection Ev0 as <-.
    destruct (Hg u p v Hu Ep Ev Hr) as [<- _]. pose proof (po_nodup l Hl) as Hn. rewrite El in Hn.
    replace (next_in l u) with (head l2) by (rewrite El; symmetry; by apply next_in_split).
    unfold drop_use. destruct (num_using_vertex v =? 1); [done|].
    destruct l2 as [|w l2]; [done|]. cbn [head]. unfold cell.
    assert (w ∉ l1) as Hw.
    { apply NoDup_app in Hn as (_ & Hn & _). intros Hin. apply (Hn w Hin). set_solver. }
    assert (matrix c1 !! w = matrix c !! w) as ->; [|done].
    destruct Hupd as (_ & Hm & _). rewrite Hm. destruct (matrix c !! w); [|done].
    cbn [mbind option_bind]. by rewrite decide_False.
  - exists c'. split; [exact E|].
    assert (Hocc : ∀ u, u ∈ l → use s u = S (use s' u)).
    { intros u Hu. simpl. rewrite (occ_NoDup l u) by (done || apply Hl). lia. }
    assert (Hone : ∀ u p v, u ∈ l → matrix c !! u = Some p → verts c !! p = Some v → vertex_rep s s c u v →
       g u v = None → use s' u = 0).
    { intros u p v Hu Ep Ev Hr Hgn. destruct (Hg u p v Hu Ep Ev Hr) as [Hd _]. rewrite Hgn in Hd.
      unfold drop_use in Hd. destruct (Nat.eqb_spec (num_using_vertex v) 1) as [E1|].
      - rewrite (vr_using _ _ _ _ _ Hr), Hocc in E1 by done. lia.
      - destruct (next_in l u); [|done]. destruct (cell n c _); [|done]. cbn [mbind option_bind] in Hd.
        by destruct (drop_dep _ _). }
    assert (Hcells : cells_kept s' c c').
    { apply (updated_cells s s s' c c' l g H Hupd). intros u p v Hu Ep Ev Hr. by apply (Hone u p v). }
    split.
    + apply (rep_updated s s s' s' c c' l g H Hupd); try done.
      * intros u. simpl. lia.
      * intros u Hu. simpl. by rewrite (occ_zero l u Hu), Nat.add_0_r.
      * intros u p v Ep Ev Hr. destruct (decide (u ∈ l)) as [Hu|Hu].
        -- destruct (g u v) as [v'|] eqn:Eg; [|by apply (Hone u p v)].
           destruct (Hg u p v Hu Ep Ev Hr) as [Hd _]. rewrite Eg in Hd.
           destruct (Hsplit u Hu) as (l1 & l2 & El & En & Hin & Hocc2).
           apply (vertex_drop_rep s s' c c' u (next_in l u) v v'); try done; try apply Hupd.
           ++ by apply Hocc.
           ++ intros w. simpl. by rewrite Hocc2, En.
           ++ intros w Hw. by apply (Hnext u w).
           ++ intros w w' q. apply (rep_inj s s c w w' q H).
           ++ intros E1. unfold drop_use in Hd. apply Nat.eqb_eq in E1. by rewrite E1 in Hd.
        -- apply (vertex_rep_kept s s s' s' c c' u v Hr); try done; try apply Hupd;
             simpl; intros; rewrite ?(occ_zero l u Hu), ?(occ2_zero l u _ Hu); lia.
    + intros Hu p v'. destruct Hupd as (_ & _ & Hv). rewrite Hv.
      destruct (verts c !! p) as [v|] eqn:Ev; [|done]. cbn [mbind option_bind].
      case_decide as Hin; [|intros [= <-]; exact (Hu p v Ev)]. intros Hgv.
      pose proof (lr_vert _ _ _ H p v Ev) as Ep. fold (ends v) in Ep.
      destruct (lr_cell _ _ _ H _ p Ep) as (v0 & Ev0 & Hr). rewrite Ev in Ev0. injection Ev0 as <-.
      destruct (Hg _ p v Hin Ep Ev Hr) as [_ Hm]. destruct (Hm v' Hgv) as [-> ->]. exact (Hu p v Ev).
Qed.
End Rep.
