(* ===== verification/LashPath.v ===== *)
(** * The routes of LASH as lists of channels

    A channel is a pair of neighbouring switches.  [path] lists the channels of the
    route between two switches; the walks of [Lash.v] over a route are runs over that
    list.  On shortest routes over a symmetric graph the routes of a pair in the two
    directions share no channel. *)

From S2P Require Import Prelude IbTypes Switch UcastMgr Lash LashCycle LashRoute LashCdg.
From stdpp Require Import relations.

Open Scope nat_scope.

Fixpoint route (fuel : nat) (sws : list switch_t) (a d : nat) : option (list chan) :=
  match fuel with
  | O => None
  | S fuel =>
      if a =? d then Some []
      else
        e ← out_link sws a d;
        t ← get_next_switch sws a e;
        l ← route fuel sws t d;
        Some ((a, t) :: l)
  end.

Lemma for_sp_route {S} (body : S → chan → option S) fuel sws a d l st :
  route fuel sws a d = Some l → for_sp sws body fuel a d st = foldM body l st.
Proof.
  revert a l st. induction fuel as [|fuel IH]; [done|]. intros a l st H. cbn [route for_sp] in *.
  destruct (a =? d); [by injection H as <-|].
  destruct (out_link sws a d) as [e|]; [|done]. cbn [mbind option_bind] in *.
  destruct (get_next_switch sws a e) as [t|]; [|done]. cbn [mbind option_bind] in *.
  destruct (route fuel sws t d) as [l'|] eqn:E; [|done]. injection H as <-. simpl.
  destruct (body st (a, t)) as [st'|]; [|done]. simpl. by apply IH.
Qed.

Definition path (sws : list switch_t) (a d : nat) : list chan :=
  default [] (route (S (length sws)) sws a d).

(** [l1] leads to the channel [u] and [l2] from it to [d]. *)
Record on_path (sws : list switch_t) (a d : nat) (l1 : list chan) (u : chan) (l2 : list chan) : Prop := {
  op_before : nsteps (adj sws) (length l1) a u.1;
  op_chan : adj sws u.1 u.2;
  op_from : dist sws (S (length l2)) u.1 d;
  op_to : dist sws (length l2) u.2 d;
  op_next : match l2 with
            | [] => u.2 = d
            | w :: _ => u.2 ≠ d ∧ w.1 = u.2
                ∧ ∃ e, out_link sws u.2 d = Some e ∧ get_next_switch sws u.2 e = Some w.2
            end
}.

Lemma get_next_adj sws a e t : get_next_switch sws a e = Some t → adj sws a t.
Proof.
  unfold get_next_switch. destruct (sws !! a) as [s|] eqn:Es; [|done]. cbn [mbind option_bind].
  destruct (links s !! Z.to_nat e) as [l|] eqn:El; [|done]. intros [= <-].
  exists s, l. split_and!; [done| |done]. by apply list_elem_of_lookup_2 in El.
Qed.

Lemma dist_zero sws a b : dist sws 0 a b → a = b.
Proof. intros [H _]. by inversion H. Qed.

Lemma dist_self sws k a : dist sws k a a → k = 0.
Proof. intros [_ H]. specialize (H 0). assert (nsteps (adj sws) 0 a a) by constructor. specialize (H H0). lia. Qed.

Lemma adj_lt sws a b : switches_ok sws → adj sws a b → a < length sws ∧ b < length sws.
Proof.
  intros Hok (s & l & Es & Hl & <-). split; [by apply lookup_lt_Some in Es|].
  by apply (Hok a s Es).
Qed.

Section Paths.
Variable sws : list switch_t.
Hypothesis Hsw : switches_ok sws.
Hypothesis Hroutes : routes_ok sws.
Notation n := (length sws).

Lemma route_total k : ∀ fuel a d,
  a < n → d < n → dist sws k a d → k < fuel →
  ∃ l, route fuel sws a d = Some l ∧ length l = k
    ∧ (match l with
       | [] => a = d
       | w :: _ => a ≠ d ∧ w.1 = a ∧ ∃ e, out_link sws a d = Some e ∧ get_next_switch sws a e = Some w.2
       end)
    ∧ ∀ l1 u l2, l = l1 ++ u :: l2 → on_path sws a d l1 u l2.
Proof.
  induction k as [|k IH]; intros fuel a d Ha Hd Hk Hf; (destruct fuel as [|fuel]; [lia|]); cbn [route].
  - apply dist_zero in Hk as ->. rewrite Nat.eqb_refl. exists []. split_and!; [done..|].
    intros l1 u l2 E. by destruct l1.
  - destruct (Nat.eqb_spec a d) as [->|Hne]; [by apply dist_self in Hk|].
    destruct (Hroutes a d Ha Hd) as [_ Hgood]. destruct (Hgood Hne) as (e & He & _ & t & k' & Ht & Hk1 & Hk2).
    assert (k' = k) as -> by (pose proof (dist_unique _ _ _ _ _ Hk Hk1); lia).
    rewrite He. cbn [mbind option_bind]. rewrite Ht. cbn [mbind option_bind].
    pose proof (get_next_adj _ _ _ _ Ht) as Hadj.
    destruct (adj_lt _ _ _ Hsw Hadj) as [_ Htn].
    destruct (IH fuel t d Htn Hd Hk2 ltac:(lia)) as (l & El & Hlen & Hhead & Hon).
    rewrite El. cbn [mbind option_bind]. exists ((a, t) :: l).
    split; [done|]. split; [simpl; lia|]. split; [by eauto|].
    intros l1 u l2 E. destruct l1 as [|x l1]; simplify_eq/=.
    + split; simpl; [apply nsteps_O|done|done|done|].
      destruct l2 as [|w l2]; [done|]. naive_solver.
    + destruct (Hon l1 u l2 eq_refl). split; try done. simpl. by apply nsteps_l with t.
Qed.

Lemma path_route a d :
  a < n → d < n → a ≠ d →
  ∃ w l, route (S n) sws a d = Some (w :: l) ∧ path sws a d = w :: l ∧ w.1 = a
    ∧ dist sws (length (path sws a d)) a d
    ∧ (∃ e, out_link sws a d = Some e ∧ get_next_switch sws a e = Some w.2)
    ∧ ∀ l1 u l2, path sws a d = l1 ++ u :: l2 → on_path sws a d l1 u l2.
Proof.
  intros Ha Hd Hne. destruct (Hroutes a d Ha Hd) as [(k & Hk & Hdist) _].
  destruct (route_total k (S n) a d Ha Hd Hdist ltac:(lia)) as (l & El & <- & Hhead & Hon).
  destruct l as [|w l]; [done|]. exists w, l. unfold path. rewrite El. simpl. naive_solver.
Qed.

Lemma path_ok_path a d : a < n → d < n → a ≠ d → path_ok n (path sws a d).
Proof.
  intros Ha Hd Hne. destruct (path_route a d Ha Hd Hne) as (w0 & l0 & _ & _ & _ & _ & _ & Hon).
  split.
  - apply NoDup_alt. intros i j u Hi Hj.
    pose proof (take_drop_middle _ _ _ Hi) as Ei. pose proof (take_drop_middle _ _ _ Hj) as Ej.
    pose proof (op_to _ _ _ _ _ _ (Hon _ _ _ (eq_sym Ei))) as Di.
    pose proof (op_to _ _ _ _ _ _ (Hon _ _ _ (eq_sym Ej))) as Dj.
    pose proof (dist_unique _ _ _ _ _ Di Dj) as E. rewrite !length_drop in E.
    apply lookup_lt_Some in Hi, Hj. lia.
  - intros u Hu. apply list_elem_of_split in Hu as (l1 & l2 & E).
    destruct (Hon l1 u l2 E). destruct (adj_lt _ _ _ Hsw op_chan0). split_and!; [done|done|].
    intros Heq. rewrite Heq in op_from0. pose proof (dist_unique _ _ _ _ _ op_from0 op_to0). lia.
  - intros u w (l1 & l2 & E)%occ2_pos. destruct (Hon l1 u (w :: l2) E). naive_solver.
Qed.

(** ** Both directions *)

Hypothesis Hsym : ∀ a b, adj sws a b → adj sws b a.

Lemma nsteps_sym k a b : nsteps (adj sws) k a b → nsteps (adj sws) k b a.
Proof.
  induction 1 as [|k a b c Hab _ IH]; [constructor|]. apply nsteps_r with b; [done|]. by apply Hsym.
Qed.

Lemma dist_sym k a b : dist sws k a b → dist sws k b a.
Proof. intros [H Hm]. split; [by apply nsteps_sym|]. intros m Hb. apply Hm. by apply nsteps_sym. Qed.

Lemma paths_disjoint a d u : a < n → d < n → a ≠ d → u ∈ path sws a d → u ∉ path sws d a.
Proof.
  intros Ha Hd Hne Hu Hu'.
  destruct (path_route a d Ha Hd Hne) as (_ & _ & _ & _ & _ & [_ Hmin] & _ & Hon).
  destruct (path_route d a Hd Ha (not_eq_sym Hne)) as (_ & _ & _ & _ & _ & _ & _ & Hon').
  apply list_elem_of_split in Hu as (l1 & l2 & E). apply list_elem_of_split in Hu' as (m1 & m2 & E').
  pose proof (Hon _ _ _ E) as O. pose proof (Hon' _ _ _ E') as O'.
  destruct (dist_sym _ _ _ (op_to _ _ _ _ _ _ O')) as [Hau _].
  destruct (op_to _ _ _ _ _ _ O) as [Hud _].
  specialize (Hmin _ (nsteps_trans _ _ _ _ _ Hau Hud)).
  destruct (dist_sym _ _ _ (op_from _ _ _ _ _ _ O')) as [_ Hmin'].
  specialize (Hmin' _ (op_before _ _ _ _ _ _ O)).
  rewrite E, length_app in Hmin. simpl in Hmin. lia.
Qed.
End Paths.
