(* ===== verification/LashLane.v ===== *)
(** * One lane of LASH: trying, keeping and removing pairs

    [spec_of] is the load of a lane that carries the routes of a list of pairs, and
    [acyclic] says that its channels never wait for each other in a circle.
    [try_lane] adds a pair in both directions and answers whether that makes a
    circle. *)

From S2P Require Import Prelude IbTypes Switch UcastMgr Lash LashCycle LashRoute LashCdg LashPath.
From stdpp Require Import relations.

Open Scope nat_scope.

Notation pair := (nat * nat)%type.

(** The same links and routes; the lanes may differ. *)
Definition routes_eq (sws sws' : list switch_t) : Prop :=
  length sws' = length sws ∧ (∀ a d, out_link sws' a d = out_link sws a d)
  ∧ ∀ a e, get_next_switch sws' a e = get_next_switch sws a e.

Lemma route_eq sws sws' fuel a d : routes_eq sws sws' → route fuel sws' a d = route fuel sws a d.
Proof.
  intros (_ & H1 & H2). revert a. induction fuel as [|fuel IH]; intros a; [done|]. cbn [route].
  destruct (a =? d); [done|]. rewrite H1. destruct (out_link sws a d) as [e|]; [|done].
  cbn [mbind option_bind]. rewrite H2. destruct (get_next_switch sws a e); [|done].
  cbn [mbind option_bind]. by rewrite IH.
Qed.

(** ** Circles of a relation that is the union of two *)

Section Union.
Context {A : Type} (R1 R2 R : relation A).
Hypothesis HR : ∀ x y, R x y → R1 x y ∨ R2 x y.

Lemma tc_union x y :
  tc R x y → tc R1 x y ∨ ∃ a b, rtc R x a ∧ R2 a b ∧ R a b ∧ rtc R b y.
Proof.
  induction 1 as [x y Hxy|x y z Hxy Hyz IH].
  - destruct (HR x y Hxy); [left; by apply tc_once|right; by exists x, y].
  - destruct (HR x y Hxy) as [H1|H2]; [|right; exists x, y; split_and!; [done..|by apply tc_rtc]].
    destruct IH as [Hyz'|(a & b & Ha & Hab & Hab' & Hb)]; [left; by eapply tc_l|].
    right. exists a, b. split_and!; [by apply rtc_l with y|done..].
Qed.
End Union.

Section Lane.
Variable sws : list switch_t.
Hypothesis Hsw : switches_ok sws.
Hypothesis Hroutes : routes_ok sws.
Hypothesis Hsym : ∀ a b, adj sws a b → adj sws b a.
Notation n := (length sws).
Notation path := (path sws).

Definition pair_in (p : pair) : Prop := p.1 < n ∧ p.2 < n ∧ p.1 ≠ p.2.

(** The load of a list of pairs. *)
Fixpoint spec_of (P : list pair) : spec :=
  match P with
  | [] => spec_empty
  | p :: P => spec_add (spec_of P) (path p.1 p.2)
  end.

Definition acyclic (P : list pair) : Prop := ∀ u, ¬ tc (λ u w, 0 < fol (spec_of P) u w) u u.

Lemma spec_of_perm P P' : P ≡ₚ P' → spec_eq (spec_of P) (spec_of P').
Proof.
  induction 1 as [|p P P' _ IH|p q P|P1 P2 P3 _ IH1 _ IH2]; simpl.
  - done.
  - by rewrite IH.
  - apply spec_add_comm.
  - by etrans.
Qed.

Lemma fol_spec_of P u w : 0 < fol (spec_of P) u w ↔ ∃ p, p ∈ P ∧ 0 < occ2 (path p.1 p.2) u w.
Proof.
  induction P as [|p P IH]; simpl.
  - split; [lia|]. intros (p & []%elem_of_nil & _).
  - split.
    + intros H. destruct (decide (0 < fol (spec_of P) u w)) as [Hp|Hp].
      * destruct (proj1 IH Hp) as (q & ? & ?). exists q. split; [by right|done].
      * exists p. split; [left|lia].
    + intros (q & [->|Hq]%elem_of_cons & Ho); [lia|].
      assert (0 < fol (spec_of P) u w) by (apply IH; by exists q). lia.
Qed.

Lemma acyclic_mono P P' : (∀ p, p ∈ P → p ∈ P') → acyclic P' → acyclic P.
Proof.
  intros H Hac u Htc. apply (Hac u). revert Htc. apply tc_congruence with (f := id).
  intros x y (p & Hp & Ho)%fol_spec_of. apply fol_spec_of. exists p. auto.
Qed.

Lemma acyclic_nil : acyclic [].
Proof. intros u Htc. inversion Htc as [? ? H|? ? ? H _]; simpl in H; lia. Qed.

Lemma spec_add_ok s l : spec_ok n s → path_ok n l → spec_ok n (spec_add s l).
Proof.
  intros [H1 H2] [_ Hr Hl]. split; simpl.
  - intros u Hu. destruct (decide (0 < use s u)) as [Hs|Hs]; [by apply H1|].
    apply Hr, occ_pos. lia.
  - intros u w Hf. destruct (decide (0 < fol s u w)) as [Hs|Hs].
    + destruct (H2 u w Hs) as (? & ? & ?). split_and!; [lia|lia|done].
    + assert (Ho : 0 < occ2 l u w) by lia. destruct (occ2_elem l u w Ho) as [Hu%occ_pos Hw%occ_pos].
      split_and!; [lia|lia|by apply Hl].
Qed.

Lemma spec_of_ok P : Forall pair_in P → spec_ok n (spec_of P).
Proof.
  induction 1 as [|p P (H1 & H2 & H3) _ IH]; simpl; [split; simpl; lia|].
  apply spec_add_ok; [done|]. by apply path_ok_path.
Qed.

Lemma spec_add_le s l : spec_le s (spec_add s l).
Proof. split; intros; simpl; lia. Qed.

(** The routes of a pair in both directions on top of a lane. *)
Definition with_pair (P : list pair) (i d : nat) : list pair := (d, i) :: (i, d) :: P.

Lemma with_pair_in P i d : Forall pair_in P → pair_in (i, d) → Forall pair_in (with_pair P i d).
Proof.
  intros HP (H1 & H2 & H3). unfold with_pair. repeat (apply Forall_cons; split); [|done|done].
  split_and!; [done|done|]. by apply not_eq_sym.
Qed.

(** ** The graph of the vertices and the load *)

Section Graph.
Variables (exact : Prop) (base : spec) (cur : spec) (c : cdg).
Hypothesis Hrep : lane_rep n exact base cur c.

Lemma fol_edge u w p :
  0 < fol cur u w → matrix c !! u = Some p → ∃ q, matrix c !! w = Some q ∧ edge c p q.
Proof.
  intros Hf Ep. destruct (lr_cell _ _ _ _ _ Hrep u p Ep) as (v & Ev & Hv).
  destruct (vr_cur _ _ _ _ _ _ _ Hv w Hf) as (q & Hq & Hin). exists q. split; [done|]. by exists v.
Qed.

Lemma fol_rtc_edge u w p :
  rtc (λ u w, 0 < fol cur u w) u w → matrix c !! u = Some p →
  ∃ q, matrix c !! w = Some q ∧ rtc (edge c) p q.
Proof.
  intros H. revert p. induction H as [u|u x w Hux _ IH]; intros p Ep; [by exists p|].
  destruct (fol_edge u x p Hux Ep) as (q & Eq & He). destruct (IH q Eq) as (r & Er & Hr).
  exists r. split; [done|]. by apply rtc_l with q.
Qed.

Lemma fol_tc_edge u w p :
  tc (λ u w, 0 < fol cur u w) u w → matrix c !! u = Some p →
  ∃ q, matrix c !! w = Some q ∧ tc (edge c) p q.
Proof.
  intros H. revert p. induction H as [u w Huw|u x w Hux _ IH]; intros p Ep.
  - destruct (fol_edge u w p Huw Ep) as (q & ? & ?). exists q. split; [done|]. by apply tc_once.
  - destruct (fol_edge u x p Hux Ep) as (q & Eq & He). destruct (IH q Eq) as (r & Er & Hr).
    exists r. split; [done|]. by apply tc_l with q.
Qed.

Lemma edge_fol p q : exact → edge c p q → ∃ u w, matrix c !! u = Some p ∧ matrix c !! w = Some q
  ∧ 0 < fol cur u w.
Proof.
  intros He (v & Ev & Hq). pose proof (lr_vert _ _ _ _ _ Hrep p v Ev) as Ep.
  destruct (lr_cell _ _ _ _ _ Hrep _ p Ep) as (v' & Ev' & Hv). rewrite Ev in Ev'. injection Ev' as <-.
  destruct (vr_exact _ _ _ _ _ _ _ Hv He q Hq) as (w & Hw & Hf). eauto.
Qed.

Lemma edge_tc_fol p q : exact → tc (edge c) p q → ∃ u w, matrix c !! u = Some p ∧ matrix c !! w = Some q
  ∧ tc (λ u w, 0 < fol cur u w) u w.
Proof.
  intros He H. induction H as [p q Hpq|p r q Hpr _ IH].
  - destruct (edge_fol p q He Hpq) as (u & w & ? & ? & ?). exists u, w. split_and!; [done|done|].
    by apply tc_once.
  - destruct (edge_fol p r He Hpr) as (u & x & Eu & Ex & Hux). destruct IH as (x' & w & Ex' & Ew & Hw).
    rewrite (rep_inj _ _ _ _ _ _ _ _ Hrep Ex Ex') in Hux. exists u, w. split_and!; [done|done|].
    by apply tc_l with x'.
Qed.

(** No vertex that is [safe] lies on a circle of the load. *)
Lemma safe_fol u w p :
  safe c p → matrix c !! u = Some p → rtc (λ u w, 0 < fol cur u w) u w →
  ¬ tc (λ u w, 0 < fol cur u w) w w.
Proof.
  intros Hs Ep Hrtc Htc. destruct (fol_rtc_edge u w p Hrtc Ep) as (q & Eq & Hq).
  destruct (fol_tc_edge w w q Htc Eq) as (q' & Eq' & Hqq). rewrite Eq in Eq'. injection Eq' as <-.
  apply (safe_no_cycle c q); [|done]. by apply (safe_rtc c p).
Qed.

Lemma rep_live : exact → live c.
Proof.
  intros He p v Ev i Hi. pose proof (lr_vert _ _ _ _ _ Hrep p v Ev) as Ep.
  destruct (lr_cell _ _ _ _ _ Hrep _ p Ep) as (v' & Ev' & Hv). rewrite Ev in Ev'. injection Ev' as <-.
  destruct (lookup_lt_is_Some_2 (deps v) i) as [[o k] Ei]; [destruct Hv; lia|].
  assert (Ho : o ∈ succs v) by (by apply (succs_lookup v i (o, k))).
  destruct (vr_ptr _ _ _ _ _ _ _ Hv o Ho) as (q & -> & _). exists q. rewrite Ei. split; [done|].
  destruct (vr_exact _ _ _ _ _ _ _ Hv He q Ho) as (w & Hw & _).
  destruct (lr_cell _ _ _ _ _ Hrep w q Hw) as (vq & -> & _). by eexists.
Qed.

Lemma rep_cells : ∀ p, is_Some (verts c !! p) → ∃ ch, ch.1 < n ∧ ch.2 < n ∧ matrix c !! ch = Some p.
Proof.
  intros p [v Ev]. pose proof (lr_vert _ _ _ _ _ Hrep p v Ev) as Ep. eexists. split_and!; [| |exact Ep];
    destruct (lr_cur _ _ _ _ _ Hrep) as [Hc _];
    apply (Hc (v_from v, v_to v)); apply (lr_used _ _ _ _ _ Hrep); by eexists.
Qed.
End Graph.

(** ** Trying a pair *)

Variable sws' : list switch_t.          (* the switches with their current lanes *)
Hypothesis Heq : routes_eq sws sws'.

Lemma for_sp_path {S} (body : S → chan → option S) a d st :
  pair_in (a, d) → for_sp sws' body (Datatypes.S n) a d st = foldM body (path a d) st.
Proof.
  intros (Ha & Hd & Hne). destruct (path_route sws Hsw Hroutes a d Ha Hd Hne) as (w & l & Er & Ep & _).
  rewrite Ep. apply for_sp_route. by rewrite (route_eq _ _ _ _ _ Heq).
Qed.

Lemma pair_path_ok a d : pair_in (a, d) → path_ok n (path a d).
Proof. intros (? & ? & ?). by apply path_ok_path. Qed.

Lemma pair_swap a d : pair_in (a, d) → pair_in (d, a).
Proof. intros (? & ? & ?). split_and!; [done..|by apply not_eq_sym]. Qed.

Lemma generate_pair exact base cur c a d :
  lane_rep n exact base cur c → pair_in (a, d) →
  (exact → is_Some (generate_cdg_for_sp n sws' c a d))
  ∧ ∀ c', generate_cdg_for_sp n sws' c a d = Some c' →
     lane_rep n exact base (spec_add cur (path a d)) c' ∧ (unmarked c → unmarked c').
Proof.
  intros H Hp. unfold generate_cdg_for_sp. rewrite for_sp_path by done.
  destruct (generate_ok n exact base cur c (path a d) H (pair_path_ok a d Hp)) as [Ht Hj].
  destruct (foldM _ _ _) as [[c1 o]|].
  - split; [by eexists|]. intros c' [= <-]. by apply (Hj (c1, o)).
  - split; [|done]. intros He. by destruct (Ht He).
Qed.

(** The first channel of a route. *)
Lemma first_chan a d :
  pair_in (a, d) → ∃ e w l, path a d = w :: l ∧ w.1 = a
    ∧ out_link sws' a d = Some e ∧ get_next_switch sws' a e = Some w.2.
Proof.
  intros (Ha & Hd & Hne). destruct (path_route sws Hsw Hroutes a d Ha Hd Hne)
    as (w & l & _ & Ep & Hw & _ & (e & He & Ht) & _).
  destruct Heq as (_ & E1 & E2). exists e, w, l. by rewrite E1, E2.
Qed.

(** Every channel of a route follows from its first one. *)
Lemma path_follows (R : relation chan) w l u :
  (∀ x y, 0 < occ2 (w :: l) x y → R x y) → u ∈ w :: l → rtc R w u.
Proof.
  revert w. induction l as [|x l IH]; intros w HR Hu.
  - by apply list_elem_of_singleton in Hu as ->.
  - apply elem_of_cons in Hu as [->|Hu]; [done|]. apply rtc_l with x.
    + apply HR, occ2_pos. by exists [], l.
    + apply IH; [|done]. intros y z Hyz. apply HR.
      change (0 < (if decide (w = y ∧ head (x :: l) = Some z) then 1 else 0) + occ2 (x :: l) y z). lia.
Qed.

Definition tried (P : list pair) (i d : nat) : spec := spec_of (with_pair P i d).

(** The searches find a circle exactly if the pair makes one (never miss one, where
    the lane is not exact). *)
Lemma new_circle exact P i d c u w l u' w' l' :
  lane_rep n exact (spec_of P) (tried P i d) c → acyclic P →
  path i d = w :: l → path d i = w' :: l' →
  matrix c !! w = Some u → matrix c !! w' = Some u' →
  safe c u → safe c u' → acyclic (with_pair P i d).
Proof.
  intros Hrep Hac El El' Ew Ew' Hs Hs' x Htc.
  set (R := λ u w, 0 < fol (tried P i d) u w).
  assert (Hsplit : ∀ x y, R x y → 0 < fol (spec_of P) x y
            ∨ (0 < occ2 (path i d) x y ∨ 0 < occ2 (path d i) x y)).
  { intros y z Hyz. unfold R in Hyz. simpl in Hyz. lia. }
  destruct (tc_union _ _ R Hsplit x x Htc) as [Hold|(a & b & Ha & Hnew & Hab & Hb)].
  { by apply (Hac x). }
  assert (Haa : tc R a a).
  { eapply tc_rtc_r; [by apply tc_once|]. by apply rtc_trans with x. }
  destruct Hnew as [Ho|Ho]; pose proof (proj1 (occ2_elem _ _ _ Ho)) as Hin.
  - rewrite El in Hin. apply (safe_fol exact (spec_of P) (tried P i d) c Hrep w a u Hs Ew); [|exact Haa].
    apply (path_follows R w l); [|done]. rewrite <- El. intros y z Hyz. unfold R. simpl. lia.
  - rewrite El' in Hin. apply (safe_fol exact (spec_of P) (tried P i d) c Hrep w' a u' Hs' Ew'); [|exact Haa].
    apply (path_follows R w' l'); [|done]. rewrite <- El'. intros y z Hyz. unfold R. simpl. lia.
Qed.

Lemma found_circle (exact : Prop) P i d c p :
  exact → lane_rep n exact (spec_of P) (tried P i d) c → cycle_from c p → ¬ acyclic (with_pair P i d).
Proof.
  intros He Hrep (x & _ & Hx) Hac.
  destruct (edge_tc_fol _ _ _ _ Hrep x x He Hx) as (u & w & Eu & Ew & Htc).
  rewrite (rep_inj _ _ _ _ _ _ _ _ Hrep Eu Ew) in Htc. by apply (Hac w).
Qed.

(** What [try_lane] answers. *)
Record try_ok (exact : Prop) (P : list pair) (i d : nat) (b : bool) (c' : cdg) : Prop := {
  to_rep : lane_rep n exact (spec_of P) (tried P i d) c';
  to_unmarked : unmarked c';
  to_free : b = false → acyclic P → acyclic (with_pair P i d);
  to_circle : exact → b = true → ¬ acyclic (with_pair P i d)
}.

Lemma first_cell exact P i d c x l a b :
  lane_rep n exact (spec_of P) (tried P i d) c → path a b = x :: l → (a, b) ∈ [(d, i); (i, d)] →
  x.1 < n ∧ x.2 < n ∧ ∃ p, matrix c !! x = Some p.
Proof.
  intros H E Hin.
  assert (Hpos : 0 < use (tried P i d) x).
  { assert (Ho : 0 < occ (path a b) x) by (rewrite E; apply occ_pos; left).
    apply elem_of_cons in Hin as [[= -> ->]|[= -> ->]%list_elem_of_singleton]; simpl; lia. }
  destruct (lr_cur _ _ _ _ _ H) as [Hc _]. destruct (Hc x Hpos) as (? & ? & _).
  split_and!; [done|done|]. by apply (lr_used _ _ _ _ _ H).
Qed.

Lemma search_same f p b c c' : unmarked c → cycle_exists f p None None 1 c = Some (b, c') → same_cdg c c'.
Proof.
  intros Hu H. destruct (unmarked_facts c Hu) as (Hok & Hg & _).
  apply (cycle_exists_ok _ _ _ _ _ _ _ _ H ltac:(lia) Hok (no_gray_stack _ _ _ Hg)). done.
Qed.

(** The searches of [try_lane] and the reset of the marks. *)
Lemma probe_ok (exact : Prop) P i d c w l w' l' p p' :
  lane_rep n exact (spec_of P) (tried P i d) c → unmarked c →
  path i d = w :: l → path d i = w' :: l' →
  matrix c !! w = Some p → matrix c !! w' = Some p' →
  (exact → ∃ b1 c1 b2 c2, cycle_exists (cycle_fuel c) p None None 1 c = Some (b1, c1) ∧ same_cdg c c1
     ∧ cycle_exists (cycle_fuel c1) p' None None 1 c1 = Some (b2, c2) ∧ same_cdg c c2
     ∧ is_Some (clear_marks n c2))
  ∧ ∀ b1 c1 b2 c2 c3,
      cycle_exists (cycle_fuel c) p None None 1 c = Some (b1, c1) →
      cycle_exists (cycle_fuel c1) p' None None 1 c1 = Some (b2, c2) →
      clear_marks n c2 = Some c3 → try_ok exact P i d (b1 || b2) c3.
Proof.
  intros H Hu El El' Ew Ew'.
  assert (Hcell : ∀ c' u q, same_cdg c c' → matrix c' !! u = Some q → is_Some (verts c' !! q)).
  { intros c' u q Hs Hq. pose proof Hs as [Hm _]. rewrite Hm in Hq.
    apply (same_cdg_dom c); [done|]. destruct (lr_cell _ _ _ _ _ H u q Hq) as (v & -> & _). by eexists. }
  split.
  - intros He. destruct (searches_total c p p' Hu (rep_live _ _ _ _ H He))
      as (b1 & c1 & b2 & c2 & E1 & S1 & E2); [by apply (Hcell c w)|by apply (Hcell c w')|].
    exists b1, c1, b2, c2. destruct (searches_ok _ _ _ _ _ _ _ _ _ Hu E1 E2) as [S2 _].
    split_and!; [done..|]. apply clear_marks_total. intros u q. by apply Hcell.
  - intros b1 c1 b2 c2 c3 E1 E2 E3. destruct (searches_ok _ _ _ _ _ _ _ _ _ Hu E1 E2) as [S2 Hans].
    destruct (clear_marks_ok _ _ _ E3) as [S3 U3]. pose proof (transitivity S2 S3) as S.
    split.
    + exact (lane_rep_same _ _ _ _ _ _ S H).
    + apply U3. intros q Hq. pose proof S2 as [Hm _]. rewrite Hm. apply (rep_cells _ _ _ _ H).
      apply (same_cdg_dom c2); [|done]. by symmetry.
    + intros Hb Hac. rewrite Hb in Hans. destruct Hans as [Hs Hs'].
      exact (new_circle _ _ _ _ _ _ _ _ _ _ _ H Hac El El' Ew Ew' Hs Hs').
    + intros He Hb. rewrite Hb in Hans. destruct Hans as [Hc|Hc]; exact (found_circle _ _ _ _ _ _ He H Hc).
Qed.

Lemma try_lane_ok (exact : Prop) P c i d :
  lane_rep n exact (spec_of P) (spec_of P) c → unmarked c → pair_in (i, d) →
  (exact → is_Some (try_lane n sws' c i d))
  ∧ ∀ b c', try_lane n sws' c i d = Some (b, c') → try_ok exact P i d b c'.
Proof.
  intros H Hu Hp. pose proof (pair_swap i d Hp) as Hp'. unfold try_lane.
  destruct (generate_pair _ _ _ _ i d H Hp) as [T1 J1].
  destruct (generate_cdg_for_sp n sws' c i d) as [c1|];
    [|split; [intros He; by destruct (T1 He)|done]]. cbn [mbind option_bind].
  destruct (J1 c1 eq_refl) as [R1 U1]. specialize (U1 Hu).
  destruct (generate_pair _ _ _ _ d i R1 Hp') as [T2 J2].
  destruct (generate_cdg_for_sp n sws' c1 d i) as [c2|];
    [|split; [intros He; by destruct (T2 He)|done]]. cbn [mbind option_bind].
  destruct (J2 c2 eq_refl) as [R2 U2]. specialize (U2 U1).
  change (spec_add (spec_add (spec_of P) (path i d)) (path d i)) with (tried P i d) in R2.
  destruct (first_chan i d Hp) as (e & w & l & El & Ew1 & Ee & Et).
  destruct (first_chan d i Hp') as (e' & w' & l' & El' & Ew1' & Ee' & Et').
  rewrite Ee. cbn [mbind option_bind]. rewrite Ee'. cbn [mbind option_bind].
  rewrite Et. cbn [mbind option_bind]. rewrite Et'. cbn [mbind option_bind].
  replace (i, w.2) with w by (rewrite <- Ew1; by destruct w).
  replace (d, w'.2) with w' by (rewrite <- Ew1'; by destruct w').
  destruct (first_cell exact P i d c2 w l i d R2 El) as (R & R' & p & Ep); [unfold with_pair; set_solver|].
  destruct (first_cell exact P i d c2 w' l' d i R2 El') as (Q & Q' & p' & Ep'); [unfold with_pair; set_solver|].
  rewrite cell_in by done. cbn [mbind option_bind]. rewrite Ep. cbn [mbind option_bind].
  destruct (probe_ok exact P i d c2 w l w' l' p p' R2 U2 El El' Ep Ep') as (Ht & Hj).
  split.
  - intros He. destruct (Ht He) as (b1 & c3 & b2 & c4 & E1 & S1 & E2 & S2 & Hc). rewrite E1. cbn [mbind option_bind].
    rewrite cell_in by done. cbn [mbind option_bind]. destruct S1 as [-> _]. rewrite Ep'.
    cbn [mbind option_bind]. rewrite E2. cbn [mbind option_bind]. destruct Hc as [c5 ->]. by eexists.
  - intros b c'. destruct (cycle_exists _ p _ _ _ _) as [[b1 c3]|] eqn:E1; [|done]. cbn [mbind option_bind].
    pose proof (search_same _ _ _ _ _ U2 E1) as S1.
    rewrite cell_in by done. cbn [mbind option_bind]. destruct S1 as [-> _]. rewrite Ep'. cbn [mbind option_bind].
    destruct (cycle_exists _ p' _ _ _ _) as [[b2 c4]|] eqn:E2; [|done]. cbn [mbind option_bind].
    destruct (clear_marks n c4) as [c5|] eqn:E3; [|done]. intros [= <- <-].
    by apply (Hj b1 c3 b2 c4).
Qed.

(** ** Keeping or removing a pair *)

Lemma path_apart i d u : pair_in (i, d) → u ∈ path i d → occ (path d i) u = 0 ∧ ∀ w, occ2 (path d i) u w = 0.
Proof.
  intros (Hi & Hd & Hne) Hu. simpl in *.
  pose proof (paths_disjoint sws Hsw Hroutes Hsym i d u Hi Hd Hne Hu) as Hn.
  split; [by apply occ_zero|]. intros w. by apply occ2_zero.
Qed.

Lemma one_way_ok P i d : Forall pair_in P → pair_in (i, d) → spec_ok n (spec_add (spec_of P) (path i d)).
Proof. intros HP Hp. apply spec_add_ok; [by apply spec_of_ok|by apply pair_path_ok]. Qed.

Lemma remove_pair_ok exact P i d c :
  lane_rep n exact (spec_of P) (tried P i d) c → Forall pair_in P → pair_in (i, d) →
  ∃ c', remove_pair n sws' c i d = Some c' ∧ lane_rep n exact (spec_of P) (spec_of P) c'
    ∧ (unmarked c → unmarked c').
Proof.
  intros H HP Hp. pose proof (pair_swap i d Hp) as Hp'.
  unfold remove_pair, remove_temp_depend_for_sp. rewrite for_sp_path by done.
  destruct (remove_temp_rep n exact (spec_of P) (spec_add (spec_of P) (path d i)) c (path i d))
    as (c1 & E1 & H1 & U1); [|by apply pair_path_ok|by apply one_way_ok|apply spec_add_le| |].
  - rewrite <- spec_add_comm in H || rewrite spec_add_comm. exact H.
  - intros u Hu. destruct (path_apart i d u Hp Hu) as [O1 O2]. simpl. split; [lia|]. intros w. rewrite O2. lia.
  - rewrite E1. cbn [mbind option_bind]. rewrite for_sp_path by done.
    destruct (remove_temp_rep n exact (spec_of P) (spec_of P) c1 (path d i) H1)
      as (c2 & E2 & H2 & U2); [by apply pair_path_ok|by apply spec_of_ok|split; lia|done|].
    exists c2. split_and!; [exact E2|done|auto].
Qed.

Lemma keep_pair_ok exact P i d c :
  lane_rep n exact (spec_of P) (tried P i d) c → Forall pair_in P → pair_in (i, d) →
  ∃ c', keep_pair n sws' c i d = Some c'
    ∧ lane_rep n exact (spec_of (with_pair P i d)) (spec_of (with_pair P i d)) c'
    ∧ (unmarked c → unmarked c').
Proof.
  intros H HP Hp. pose proof (pair_swap i d Hp) as Hp'.
  unfold keep_pair, set_temp_depend_to_permanent_for_sp. rewrite for_sp_path by done.
  destruct (set_permanent_rep n exact (spec_of P) (tried P i d) c (path i d) H)
    as (c1 & E1 & H1 & U1); [by apply pair_path_ok|by apply one_way_ok|apply spec_add_le| |].
  - intros u Hu. destruct (path_apart i d u Hp Hu) as [O1 O2]. simpl. split; [lia|]. intros w. rewrite O2. lia.
  - rewrite E1. cbn [mbind option_bind]. rewrite for_sp_path by done.
    destruct (set_permanent_rep n exact (spec_add (spec_of P) (path i d)) (tried P i d) c1 (path d i) H1)
      as (c2 & E2 & H2 & U2); [by apply pair_path_ok| |split; simpl; lia|done|].
    + apply spec_add_ok; [by apply one_way_ok|by apply pair_path_ok].
    + exists c2. split_and!; [exact E2|done|auto].
Qed.

(** The dependency that [remove_semipermanent] drops is the next one of the route. *)
Lemma remove_semi_eq a d l1 u l2 c v :
  pair_in (a, d) → path a d = l1 ++ u :: l2 →
  remove_semipermanent n sws' c d u v = drop_use n c (head l2) v.
Proof.
  intros (Ha & Hd & Hne) E. destruct (path_route sws Hsw Hroutes a d Ha Hd Hne) as (_ & _ & _ & _ & _ & _ & _ & Hon).
  pose proof (op_next _ _ _ _ _ _ (Hon _ _ _ E)) as Hnext.
  unfold remove_semipermanent, drop_use. destruct (num_using_vertex v =? 1); [done|].
  destruct Heq as (_ & E1 & E2). destruct l2 as [|w l2]; simpl.
  - apply Nat.eqb_eq in Hnext. by rewrite Hnext.
  - destruct Hnext as (Hne' & Hw & e & He & Ht). apply Nat.eqb_neq in Hne'. rewrite Hne'.
    rewrite E1, He. cbn [mbind option_bind]. rewrite E2, Ht. cbn [mbind option_bind].
    by rewrite <- Hw, <- surjective_pairing.
Qed.

Lemma remove_semi_one (exact : Prop) s a d c :
  ¬ exact → lane_rep n exact (spec_add s (path a d)) (spec_add s (path a d)) c → spec_ok n s → pair_in (a, d) →
  ∃ c', remove_semipermanent_depend_for_sp n sws' c a d = Some c' ∧ lane_rep n exact s s c'
    ∧ (unmarked c → unmarked c').
Proof.
  intros Hne H Hs Hp. unfold remove_semipermanent_depend_for_sp. rewrite for_sp_path by done.
  apply (remove_semi_rep n exact s c (path a d) (λ c u, remove_semipermanent n sws' c d u)); try done.
  - by apply pair_path_ok.
  - intros l1 u l2 c1 v E. by apply (remove_semi_eq a d l1).
Qed.

Lemma drop_pair_ok (exact : Prop) P P' i d c :
  ¬ exact → P ≡ₚ with_pair P' i d → lane_rep n exact (spec_of P) (spec_of P) c → Forall pair_in P →
  pair_in (i, d) →
  ∃ c', (c1 ← remove_semipermanent_depend_for_sp n sws' c i d;
         remove_semipermanent_depend_for_sp n sws' c1 d i) = Some c'
    ∧ lane_rep n exact (spec_of P') (spec_of P') c' ∧ (unmarked c → unmarked c').
Proof.
  intros Hne HPP H HP Hp. pose proof (pair_swap i d Hp) as Hp'.
  assert (HP' : Forall pair_in P').
  { rewrite HPP in HP. unfold with_pair in HP. by inversion HP as [|? ? _ HP1]; inversion HP1. }
  pose proof (spec_of_perm _ _ HPP) as Hspec.
  assert (H' : lane_rep n exact (spec_add (spec_add (spec_of P') (path d i)) (path i d))
                 (spec_add (spec_add (spec_of P') (path d i)) (path i d)) c).
  { pose proof (spec_add_comm (spec_of P') (path i d) (path d i)) as Hc.
    assert (Hall : spec_eq (spec_of P) (spec_add (spec_add (spec_of P') (path d i)) (path i d))) by (by etrans).
    by apply (lane_rep_proper n exact _ _ Hall _ _ Hall c c). }
  destruct (remove_semi_one exact _ i d c Hne H') as (c1 & -> & H1 & U1); [by apply one_way_ok|done|].
  cbn [mbind option_bind].
  destruct (remove_semi_one exact _ d i c1 Hne H1) as (c2 & -> & H2 & U2); [by apply spec_of_ok|done|].
  exists c2. split_and!; [done|done|auto].
Qed.

(** ** A pair alone on a lane *)

(** On a shortest route the distance to the end goes down. *)
Lemma path_step_dist a d u w :
  pair_in (a, d) → 0 < occ2 (path a d) u w →
  ∃ k, dist sws (S k) u.2 d ∧ dist sws k w.2 d.
Proof.
  intros (Ha & Hd & Hne) (l1 & l2 & E)%occ2_pos.
  destruct (path_route sws Hsw Hroutes a d Ha Hd Hne) as (_ & _ & _ & _ & _ & _ & _ & Hon).
  pose proof (op_to _ _ _ _ _ _ (Hon _ _ _ E)) as D1.
  change (u :: w :: l2) with ([u] ++ w :: l2) in E. rewrite app_assoc in E.
  pose proof (op_to _ _ _ _ _ _ (Hon _ _ _ E)) as D2. by exists (length l2).
Qed.

Lemma path_no_circle a d u w :
  pair_in (a, d) → tc (λ u w, 0 < occ2 (path a d) u w) u w → ∀ k k',
  dist sws k u.2 d → dist sws k' w.2 d → k' < k.
Proof.
  intros Hp. induction 1 as [u w Huw|u x w Hux _ IH]; intros k k' Hk Hk';
    destruct (path_step_dist a d _ _ Hp ltac:(eassumption)) as (j & D1 & D2).
  - rewrite (dist_unique _ _ _ _ _ Hk D1), (dist_unique _ _ _ _ _ Hk' D2). lia.
  - rewrite (dist_unique _ _ _ _ _ Hk D1). specialize (IH j k' D2 Hk'). lia.
Qed.

(** The two routes of a pair do not meet, so that the pair alone makes no circle. *)
Lemma acyclic_pair i d : pair_in (i, d) → acyclic (with_pair [] i d).
Proof.
  intros Hp u Htc. pose proof (pair_swap i d Hp) as Hp'.
  set (R := λ u w, 0 < fol (spec_of (with_pair [] i d)) u w) in Htc.
  set (R1 := λ u w, 0 < occ2 (path i d) u w). set (R2 := λ u w, 0 < occ2 (path d i) u w).
  assert (Hcase : ∀ x y, tc R x y → tc R1 x y ∨ tc R2 x y).
  { induction 1 as [x y Hxy|x y z Hxy _ IH].
    - assert (R1 x y ∨ R2 x y) as [?|?]; [|by left; apply tc_once|by right; apply tc_once].
      unfold R in Hxy. simpl in Hxy. unfold R1, R2. lia.
    - assert (R1 x y ∨ R2 x y) as [H1|H2]; [unfold R in Hxy; simpl in Hxy; unfold R1, R2; lia|..].
      + destruct IH as [?|H2]; [left; by eapply tc_l|]. exfalso.
        assert (∃ z', R2 y z') as [z' Hz] by (inversion H2; eauto).
        apply occ2_elem in H1 as [_ H1]. apply occ2_elem in Hz as [Hz _].
        destruct (path_apart i d y Hp H1) as [O _]. apply occ_pos in Hz. lia.
      + destruct IH as [H1|?]; [|right; by eapply tc_l]. exfalso.
        assert (∃ z', R1 y z') as [z' Hz] by (inversion H1; eauto).
        apply occ2_elem in H2 as [_ H2]. apply occ2_elem in Hz as [Hz _].
        destruct (path_apart i d y Hp Hz) as [O _]. apply occ_pos in H2. lia. }
  assert (Hend : ∀ a b, pair_in (a, b) → ¬ tc (λ u w, 0 < occ2 (path a b) u w) u u).
  { intros a b Hab Hc. assert (∃ w, 0 < occ2 (path a b) u w) as [w Hw] by (inversion Hc; eauto).
    destruct (path_step_dist a b u w Hab Hw) as (k & D1 & _).
    pose proof (path_no_circle a b u u Hab Hc _ _ D1 D1). lia. }
  destruct (Hcase u u Htc) as [Hc|Hc]; [by apply (Hend i d)|by apply (Hend d i)].
Qed.
End Lane.
