(* ===== verification/LashCore.v ===== *)
(** * The assignment of lanes: [lash_core] and its balancing

    Pairs of switches are assigned to lanes; [lane_pairs] lists the pairs of a lane,
    and the CDG of the lane holds the load of their routes.  The invariant of the
    loops over the pairs is that every lane is acyclic; a pair goes to the first lane
    where it makes no circle.  Balancing keeps the lanes acyclic as well, whatever
    [rand] gives. *)

From S2P Require Import Prelude IbTypes Switch UcastMgr Lash LashCycle LashRoute LashCdg LashPath LashLane.
From stdpp Require Import relations.

Open Scope nat_scope.

(** The lane of a pair in the tables. *)
Definition lane_at (sws : list switch_t) (a d : nat) : option Z :=
  s ← sws !! a; e ← routing_table s !! d; Some e.2.

Section Core.
Variable sws0 : list switch_t.
Hypothesis Hsw : switches_ok sws0.
Hypothesis Hroutes : routes_ok sws0.
Hypothesis Hsym : ∀ a b, adj sws0 a b → adj sws0 b a.
Variable start_vl : Z.
Notation n := (length sws0).
Notation acyclic := (acyclic sws0).
Notation pair_in := (pair_in sws0).

(** ** Pairs and lanes *)

Definition all_pairs : list pair := filter (λ p, p.1 ≠ p.2) (list_prod (seq 0 n) (seq 0 n)).

Lemma elem_all_pairs p : p ∈ all_pairs ↔ pair_in p.
Proof.
  unfold all_pairs, LashLane.pair_in. rewrite list_elem_of_filter. destruct p as [a d]. simpl.
  rewrite list_elem_of_In, in_prod_iff, !in_seq. lia.
Qed.

Definition lane_pairs (f : pair → option nat) (l : nat) : list pair := filter (λ p, f p = Some l) all_pairs.

Definition assigned (f : pair → option nat) (i d l : nat) (p : pair) : option nat :=
  if decide (p = (i, d) ∨ p = (d, i)) then Some l else f p.

Lemma elem_lane_pairs f l p : p ∈ lane_pairs f l ↔ pair_in p ∧ f p = Some l.
Proof. unfold lane_pairs. rewrite list_elem_of_filter, elem_all_pairs. tauto. Qed.

Lemma lane_pairs_in f l : Forall pair_in (lane_pairs f l).
Proof. apply Forall_forall. by intros p [? _]%elem_lane_pairs. Qed.

Lemma NoDup_list_prod {A B} (l : list A) (k : list B) : NoDup l → NoDup k → NoDup (list_prod l k).
Proof.
  intros Hl Hk. induction Hl as [|x l Hx _ IH]; simpl; [constructor|].
  apply NoDup_app. split_and!; [|intros p|done].
  - change (NoDup (Datatypes.pair x <$> k)). apply NoDup_fmap_2; [|done]. by intros y z [= ->].
  - change (p ∈ Datatypes.pair x <$> k → p ∉ list_prod l k).
    intros (y & -> & _)%list_elem_of_fmap Hin. apply Hx.
    apply list_elem_of_In, in_prod_iff in Hin as [Hin _]. by apply list_elem_of_In.
Qed.

Lemma lane_pairs_NoDup f l : NoDup (lane_pairs f l).
Proof. unfold lane_pairs, all_pairs. apply NoDup_filter, NoDup_filter, NoDup_list_prod; apply NoDup_seq. Qed.

Lemma lane_pairs_ext f f' l : (∀ p, pair_in p → f p = Some l ↔ f' p = Some l) → lane_pairs f l ≡ₚ lane_pairs f' l.
Proof.
  intros H. apply NoDup_Permutation; [apply lane_pairs_NoDup..|]. intros p. rewrite !elem_lane_pairs.
  specialize (H p). tauto.
Qed.

(** The pairs with and without one that is assigned to the lane. *)
Lemma lane_pairs_split f f' i d l :
  pair_in (i, d) → f (i, d) ≠ Some l → f (d, i) ≠ Some l → f' (i, d) = Some l → f' (d, i) = Some l →
  (∀ p, p ≠ (i, d) → p ≠ (d, i) → f p = Some l ↔ f' p = Some l) →
  lane_pairs f' l ≡ₚ with_pair (lane_pairs f l) i d.
Proof.
  intros Hp H1 H2 H3 H4 Hrest. pose proof Hp as (Hi & Hd & Hne).
  pose proof (pair_swap sws0 i d Hp) as Hp'.
  apply NoDup_Permutation; [apply lane_pairs_NoDup| |].
  - unfold with_pair. repeat (apply NoDup_cons; split); [| |apply lane_pairs_NoDup].
    + rewrite elem_of_cons, elem_lane_pairs. simpl in Hne. naive_solver.
    + rewrite elem_lane_pairs. naive_solver.
  - intros p. unfold with_pair. rewrite !elem_of_cons, !elem_lane_pairs.
    destruct (decide (p = (i, d))) as [->|N1]; [tauto|].
    destruct (decide (p = (d, i))) as [->|N2]; [tauto|]. specialize (Hrest p N1 N2). tauto.
Qed.

Lemma assigned_pair f i d l : assigned f i d l (i, d) = Some l ∧ assigned f i d l (d, i) = Some l.
Proof. unfold assigned. rewrite !decide_True by auto. done. Qed.

Lemma assigned_other f i d l p : p ≠ (i, d) → p ≠ (d, i) → assigned f i d l p = f p.
Proof. intros. unfold assigned. by rewrite decide_False by naive_solver. Qed.

Lemma lane_pairs_new f i d l :
  pair_in (i, d) → f (i, d) ≠ Some l → f (d, i) ≠ Some l →
  lane_pairs (assigned f i d l) l ≡ₚ with_pair (lane_pairs f l) i d.
Proof.
  intros Hp H1 H2. destruct (assigned_pair f i d l). apply lane_pairs_split; try done.
  intros p N1 N2. by rewrite assigned_other.
Qed.

Lemma lane_pairs_gone f i d l m :
  pair_in (i, d) → f (i, d) = Some m → f (d, i) = Some m → l ≠ m →
  lane_pairs f m ≡ₚ with_pair (lane_pairs (assigned f i d l) m) i d.
Proof.
  intros Hp H1 H2 Hne. destruct (assigned_pair f i d l) as [E1 E2].
  apply lane_pairs_split; try done; [congruence|congruence|].
  intros p N1 N2. by rewrite assigned_other.
Qed.

Lemma lane_pairs_other f i d l l' :
  l' ≠ l → f (i, d) ≠ Some l' → f (d, i) ≠ Some l' → lane_pairs f l' ≡ₚ lane_pairs (assigned f i d l) l'.
Proof.
  intros Hne H1 H2. apply lane_pairs_ext. intros p _. unfold assigned. case_decide as Hd; [|done].
  destruct Hd as [-> | ->]; naive_solver.
Qed.

(** ** A lane *)

Record lane_ok (exact : Prop) (P : list pair) (c : cdg) : Prop := {
  lo_pairs : Forall pair_in P;
  lo_rep : lane_rep n exact (spec_of sws0 P) (spec_of sws0 P) c;
  lo_unmarked : unmarked c;
  lo_acyclic : acyclic P
}.

Lemma lane_ok_perm exact P P' c : P ≡ₚ P' → lane_ok exact P c → lane_ok exact P' c.
Proof.
  intros HP [H1 H2 H3 H4]. pose proof (spec_of_perm sws0 _ _ HP) as Hs. split; [by rewrite <- HP| |done|].
  - exact (lane_rep_proper n exact _ _ Hs _ _ Hs c c eq_refl H2).
  - apply (acyclic_mono sws0 _ P); [|done]. intros p. by rewrite HP.
Qed.

Lemma lane_ok_weaken (exact exact' : Prop) P c : (exact' → exact) → lane_ok exact P c → lane_ok exact' P c.
Proof.
  intros He [H1 H2 H3 H4]. split; [done| |done|done].
  destruct H2 as [L1 L2 L3 L4 L5 L6 L7]. split; try done.
  intros u p E. destruct (L6 u p E) as (v & Ev & []). exists v. split; [done|]. split; naive_solver.
Qed.

Lemma lane_ok_empty exact : lane_ok exact [] cdg_empty.
Proof.
  split; [done|apply lane_rep_empty| |apply acyclic_nil]. intros p v. simpl. by rewrite lookup_empty.
Qed.

(** ** One pair on one lane *)

Section Pair.
Variable sws' : list switch_t.
Hypothesis Heq : routes_eq sws0 sws'.
Variables i d : nat.
Hypothesis Hp : pair_in (i, d).

(** [try_lane] and what follows its answer. *)
Lemma lane_try (exact : Prop) P c :
  lane_ok exact P c →
  (exact → is_Some (try_lane n sws' c i d))
  ∧ ∀ b c1, try_lane n sws' c i d = Some (b, c1) → ∃ c2,
      if b then remove_pair n sws' c1 i d = Some c2 ∧ lane_ok exact P c2
                ∧ (exact → ¬ acyclic (with_pair P i d))
      else keep_pair n sws' c1 i d = Some c2 ∧ lane_ok exact (with_pair P i d) c2.
Proof.
  intros [HP Hrep Hu Hac].
  destruct (try_lane_ok sws0 Hsw Hroutes Hsym sws' Heq exact P c i d Hrep Hu Hp) as [Ht Hj].
  split; [exact Ht|]. intros b c1 E. destruct (Hj b c1 E) as [R1 U1 Hfree Hcirc]. destruct b.
  - destruct (remove_pair_ok sws0 Hsw Hroutes Hsym sws' Heq exact P i d c1 R1 HP Hp) as (c2 & E2 & R2 & U2).
    exists c2. split_and!; [done| |auto]. split; auto.
  - destruct (keep_pair_ok sws0 Hsw Hroutes Hsym sws' Heq exact P i d c1 R1 HP Hp) as (c2 & E2 & R2 & U2).
    exists c2. split; [done|]. split; [by apply with_pair_in|done|auto|auto].
Qed.

(** The pair goes to a lane that carries nothing. *)
Lemma lane_open c :
  lane_ok True [] c →
  ∃ c', (c1 ← generate_cdg_for_sp n sws' c i d; c2 ← generate_cdg_for_sp n sws' c1 d i;
         keep_pair n sws' c2 i d) = Some c' ∧ lane_ok True (with_pair [] i d) c'.
Proof.
  intros [HP Hrep Hu _]. pose proof (pair_swap sws0 i d Hp) as Hp'.
  destruct (generate_pair sws0 Hsw Hroutes sws' Heq _ _ _ _ i d Hrep Hp) as [T1 J1].
  destruct (T1 I) as [c1 E1]. rewrite E1. cbn [mbind option_bind]. destruct (J1 c1 E1) as [R1 U1].
  destruct (generate_pair sws0 Hsw Hroutes sws' Heq _ _ _ _ d i R1 Hp') as [T2 J2].
  destruct (T2 I) as [c2 E2]. rewrite E2. cbn [mbind option_bind]. destruct (J2 c2 E2) as [R2 U2].
  destruct (keep_pair_ok sws0 Hsw Hroutes Hsym sws' Heq True [] i d c2 R2 HP Hp) as (c3 & E3 & R3 & U3).
  exists c3. split; [done|]. split; [by apply with_pair_in|done|auto|by apply acyclic_pair].
Qed.

Lemma lane_drop P P' c :
  P ≡ₚ with_pair P' i d → lane_ok False P c →
  ∃ c1 c2, remove_semipermanent_depend_for_sp n sws' c i d = Some c1
    ∧ remove_semipermanent_depend_for_sp n sws' c1 d i = Some c2 ∧ lane_ok False P' c2.
Proof.
  intros HPP [HP Hrep Hu Hac].
  destruct (drop_pair_ok sws0 Hsw Hroutes sws' Heq False P P' i d c ltac:(tauto) HPP Hrep HP Hp)
    as (c2 & E & R2 & U2).
  destruct (remove_semipermanent_depend_for_sp n sws' c i d) as [c1|]; [|done].
  exists c1, c2. split_and!; [done|done|]. split; [|done|auto|].
  - rewrite HPP in HP. unfold with_pair in HP. inversion HP as [|? ? _ HP1]. by inversion HP1.
  - apply (acyclic_mono sws0 _ P); [|done]. intros p Hin. rewrite HPP. by do 2 right.
Qed.
End Pair.

(** ** The engine *)

(** The lanes carry the pairs [f] assigns to them. *)
Record lanes_inv (exact : Prop) (f : pair → option nat) (p : lash_t) : Prop := {
  li_routes : routes_eq sws0 (switches p);
  li_slots : ∀ a s, switches p !! a = Some s → length (routing_table s) = n;
  li_links : links <$> switches p = links <$> sws0;
  li_vl : vl_min p < IB_MAX_NUM_VLS;
  li_cdgs : length (cdg_vertex_matrix p) = vl_min p;
  li_counts : length (num_mst_in_lane p) = IB_MAX_NUM_VLS;
  li_lane : ∀ l c, cdg_vertex_matrix p !! l = Some c → lane_ok exact (lane_pairs f l) c
}.

(** The tables and [virtual_location] tell the assignment. *)
Record table_inv (f : pair → option nat) (p : lash_t) : Prop := {
  ti_lane : ∀ a d l, f (a, d) = Some l → lane_at (switches p) a d = Some (Z.of_nat l + start_vl)%Z;
  ti_loc : ∀ a d l x, virtual_location p !! (a, d, l) = Some x → x ≠ 0%Z → f (a, d) = Some l;
  ti_sym : ∀ a d, f (a, d) = f (d, a);
  ti_pair : ∀ a d l, f (a, d) = Some l → pair_in (a, d) ∧ l < vl_min p
}.

(** What the lanes do not touch. *)
Definition same_tables (p p' : lash_t) : Prop :=
  switches p' = switches p ∧ vl_min p' = vl_min p ∧ virtual_location p' = virtual_location p.

#[local] Instance same_tables_trans : Transitive same_tables.
Proof. intros p1 p2 p3 (?&?&?) (?&?&?). split_and!; congruence. Qed.

Lemma table_inv_same f p p' : same_tables p p' → table_inv f p → table_inv f p'.
Proof. intros (E1 & E2 & E3) []. split; [by rewrite E1|by rewrite E3|done|by rewrite E2]. Qed.

Lemma lanes_inv_put exact f f' p l c :
  lanes_inv exact f p → lane_ok exact (lane_pairs f' l) c →
  (∀ l', l' ≠ l → lane_pairs f l' ≡ₚ lane_pairs f' l') →
  lanes_inv exact f' (put_cdg p l c).
Proof.
  intros [H1 H2 HK H3 H4 H5 H6] Hc Hrest. split; simpl; try done; [by rewrite length_insert|].
  intros l' c'. destruct (decide (l' = l)) as [->|Hne].
  - intros [(_ & <- & _)|[? _]]%list_lookup_insert_Some; done.
  - rewrite list_lookup_insert_ne by done. intros E. by apply (lane_ok_perm exact _ _ _ (Hrest l' Hne)), H6.
Qed.

Lemma lanes_inv_ext exact f f' p :
  (∀ l, lane_pairs f l ≡ₚ lane_pairs f' l) → lanes_inv exact f p → lanes_inv exact f' p.
Proof.
  intros H [H1 H2 HK H3 H4 H5 H6]. split; try done. intros l c E. by apply (lane_ok_perm exact _ _ _ (H l)), H6.
Qed.

Lemma count_lane_ok exact f p l k :
  lanes_inv exact f p → l < vl_min p →
  ∃ p', count_lane p l k = Some p' ∧ lanes_inv exact f p' ∧ same_tables p p'
    ∧ cdg_vertex_matrix p' = cdg_vertex_matrix p.
Proof.
  intros [H1 H2 HK H3 H4 H5 H6] Hl. unfold count_lane.
  destruct (lookup_lt_is_Some_2 (num_mst_in_lane p) l) as [m ->]; [lia|]. cbn [mbind option_bind].
  eexists. split; [done|]. split; [|done]. split; simpl; try done. by rewrite length_insert.
Qed.

(** *** The table entries of a pair *)

Lemma lookup_table (sws : list switch_t) sw s t a :
  sws !! sw = Some s → <[sw := s <| routing_table := t |>]> sws !! a
  = (λ x, if decide (a = sw) then x <| routing_table := t |> else x) <$> sws !! a.
Proof.
  intros Es. destruct (decide (a = sw)) as [->|Hne].
  - rewrite list_lookup_insert_eq by (by apply lookup_lt_Some in Es). by rewrite Es.
  - rewrite list_lookup_insert_ne by done. by destruct (sws !! a).
Qed.

Lemma set_lane_ok sws sw dest z :
  routes_eq sws0 sws → (∀ a s, sws !! a = Some s → length (routing_table s) = n) → sw < n → dest < n →
  ∃ sws', set_lane sws sw dest z = Some sws' ∧ routes_eq sws0 sws'
    ∧ (∀ a s, sws' !! a = Some s → length (routing_table s) = n) ∧ links <$> sws' = links <$> sws
    ∧ ∀ a d, lane_at sws' a d = if decide (a = sw ∧ d = dest) then Some z else lane_at sws a d.
Proof.
  intros (Hlen & Ho & Hg) Hslots H1 H2. unfold set_lane.
  destruct (lookup_lt_is_Some_2 sws sw) as [s Es]; [lia|]. rewrite Es. cbn [mbind option_bind].
  destruct (lookup_lt_is_Some_2 (routing_table s) dest) as [[e1 e2] Ee]; [by rewrite (Hslots sw s Es)|].
  rewrite Ee. cbn [mbind option_bind]. eexists. split; [done|].
  unfold routes_eq. split_and!.
  - by rewrite length_insert.
  - intros a d. rewrite <- Ho. unfold out_link. rewrite lookup_table by done.
    destruct (decide (a = sw)) as [->|Hne]; [|by destruct (sws !! a)].
    rewrite Es. simpl. destruct (decide (d = dest)) as [->|Hd].
    + rewrite list_lookup_insert_eq by (by apply lookup_lt_Some in Ee). by rewrite Ee.
    + by rewrite list_lookup_insert_ne.
  - intros a e. rewrite <- Hg. unfold get_next_switch. rewrite lookup_table by done.
    destruct (sws !! a) as [x|]; [|done]. simpl. by case_decide.
  - intros a x. rewrite lookup_table by done. destruct (sws !! a) as [y|] eqn:Ey; [|done].
    intros [= <-]. case_decide as Ha; [|by apply (Hslots a)]. simpl. rewrite length_insert.
    by apply (Hslots sw).
  - rewrite list_fmap_insert. apply list_insert_id. by rewrite list_lookup_fmap, Es.
  - intros a d. unfold lane_at. rewrite lookup_table by done. destruct (decide (a = sw)) as [->|Hne].
    + rewrite Es. simpl. destruct (decide (d = dest)) as [->|Hd].
      * rewrite decide_True by done. by rewrite list_lookup_insert_eq by (by apply lookup_lt_Some in Ee).
      * rewrite decide_False by naive_solver. by rewrite list_lookup_insert_ne.
    + rewrite decide_False by naive_solver. by destruct (sws !! a).
Qed.

Lemma set_lanes_ok exact f p i d z :
  lanes_inv exact f p → i < n → d < n →
  ∃ p', set_lanes p i d z = Some p' ∧ lanes_inv exact f p'
    ∧ vl_min p' = vl_min p ∧ virtual_location p' = virtual_location p
    ∧ cdg_vertex_matrix p' = cdg_vertex_matrix p
    ∧ ∀ a b, lane_at (switches p') a b
             = if decide ((a, b) = (i, d) ∨ (a, b) = (d, i)) then Some z else lane_at (switches p) a b.
Proof.
  intros [H1 H2 HK H3 H4 H5 H6] Hi Hd. unfold set_lanes.
  destruct (set_lane_ok (switches p) i d z H1 H2 Hi Hd) as (s1 & -> & R1 & L1 & K1 & T1). cbn [mbind option_bind].
  destruct (set_lane_ok s1 d i z R1 L1 Hd Hi) as (s2 & -> & R2 & L2 & K2 & T2). cbn [mbind option_bind].
  eexists. split; [done|]. split; [split; try done; simpl; congruence|]. split_and!; [done..|].
  intros a b. simpl. rewrite T2, T1. repeat case_decide; naive_solver.
Qed.

Lemma set_locations_ok p i d l x :
  i < n → d < n → l < vl_min p →
  set_locations n p i d l x
  = Some (p <| virtual_location := <[(d, i, l) := x]> (<[(i, d, l) := x]> (virtual_location p)) |>).
Proof.
  intros Hi%Nat.ltb_lt Hd%Nat.ltb_lt Hl%Nat.ltb_lt. unfold set_locations, set_location.
  rewrite Hi, Hd, Hl. cbn [andb check mbind option_bind]. simpl (vl_min _). by rewrite Hl.
Qed.

Lemma lanes_inv_locations exact f p vl :
  lanes_inv exact f p → lanes_inv exact f (p <| virtual_location := vl |>).
Proof. by intros []. Qed.

(** ** Assigning a pair *)

Section Assign.
Variables i d : nat.
Hypothesis Hp : pair_in (i, d).

(** The first lane where the pair makes no circle takes it. *)
Lemma lane_loop_ok f k : ∀ p v b0,
  lanes_inv True f p → f (i, d) = None → f (d, i) = None → v + k ≤ vl_min p →
  ∃ p' v' b, lane_loop n k p i d v b0 = Some (p', v', b) ∧ same_tables p p'
    ∧ v ≤ v' ∧ (∀ l, v ≤ l < v' → ¬ acyclic (with_pair (lane_pairs f l) i d))
    ∧ if b then v' = v + k ∧ lanes_inv True f p'
      else k = 0 ∨ v' < v + k ∧ lanes_inv True (assigned f i d v') p'.
Proof.
  induction k as [|k IH]; intros p v b0 H F1 F2 Hv.
  - exists p, v, b0. simpl. split_and!; [done..|lia|]. destruct b0; [by rewrite Nat.add_0_r|by left].
  - cbn [lane_loop]. pose proof H as []. destruct (lookup_lt_is_Some_2 (cdg_vertex_matrix p) v) as [c Ec]; [lia|].
    rewrite Ec. cbn [mbind option_bind].
    destruct (lane_try (switches p) li_routes0 i d Hp True _ c (li_lane0 v c Ec)) as [Ht Hj].
    destruct (Ht I) as [[b c1] E1]. rewrite E1. cbn [mbind option_bind].
    destruct (Hj b c1 E1) as [c2 Hc2]. destruct b.
    + destruct Hc2 as (-> & Hlane & Hcirc). cbn [mbind option_bind].
      destruct (IH (put_cdg p v c2) (S v) true) as (p' & v' & b & E & Hs & Hle & Hall & Hres);
        [by apply (lanes_inv_put True f)|done|done|simpl; lia|].
      exists p', v', b. split_and!; [done|by transitivity (put_cdg p v c2)|lia| |].
      * intros l Hl. destruct (decide (l = v)) as [->|Hne]; [auto|]. apply Hall. lia.
      * destruct b; [destruct Hres; split; [lia|done]|].
        destruct Hres as [->|[? ?]]; [|right; split; [lia|done]].
        exfalso. by injection E.
    + destruct Hc2 as (-> & Hlane). cbn [mbind option_bind].
      assert (H2 : lanes_inv True (assigned f i d v) (put_cdg p v c2)).
      { apply (lanes_inv_put True f); [done| |].
        - apply (lane_ok_perm True (with_pair (lane_pairs f v) i d)); [|done].
          symmetry. apply lane_pairs_new; [done|congruence|congruence].
        - intros l' Hne. apply lane_pairs_other; [done|congruence|congruence]. }
      destruct (count_lane_ok True _ _ v 2 H2) as (p' & -> & H' & Hs & _); [simpl; lia|].
      cbn [mbind option_bind]. exists p', v, false. split_and!; [done|by transitivity (put_cdg p v c2)|lia|lia|].
      right. split; [lia|done].
Qed.

(** The tables and [virtual_location] follow. *)
Lemma mark_ok f p p1 l :
  table_inv f p → f (i, d) = None → l < vl_min p1 → vl_min p1 = vl_min p →
  virtual_location p1 = virtual_location p →
  (∀ a b, lane_at (switches p1) a b
     = if decide ((a, b) = (i, d) ∨ (a, b) = (d, i)) then Some (Z.of_nat l + start_vl)%Z
       else lane_at (switches p) a b) →
  table_inv (assigned f i d l)
    (p1 <| virtual_location := <[(d, i, l) := 1%Z]> (<[(i, d, l) := 1%Z]> (virtual_location p1)) |>).
Proof.
  intros [T1 T2 T3 T4] Hnone Hl Evl Eloc Hat. destruct (assigned_pair f i d l) as [A1 A2].
  pose proof Hnone as Hnone'. rewrite T3 in Hnone'.
  split; simpl.
  - intros a b m. rewrite Hat. unfold assigned. case_decide; [by intros [= <-]|]. apply T1.
  - intros a b m x. rewrite Eloc.
    intros [[[= -> -> ->] <-]|[_ [[[= -> -> ->] <-]|[_ E]]%lookup_insert_Some]]%lookup_insert_Some Hx; [done..|].
    pose proof (T2 a b m x E Hx) as Hf. rewrite assigned_other; [done|congruence|congruence].
  - intros a b. unfold assigned. repeat case_decide; naive_solver.
  - intros a b m. unfold assigned. rewrite Evl in Hl |- *. case_decide as Hd; [|by apply T4].
    intros [= <-]. split; [|done]. destruct Hd as [-> | ->]; [done|by apply pair_swap].
Qed.
End Assign.

(** The invariant of the loops over the pairs. *)
Record core_inv (f : pair → option nat) (lanes_needed : nat) (bm : gset (nat * nat)) (p : lash_t) : Prop := {
  ci_lanes : lanes_inv True f p;
  ci_table : table_inv f p;
  ci_needed : 1 ≤ lanes_needed ≤ vl_min p;
  ci_below : ∀ x l, f x = Some l → l < lanes_needed;
  ci_bitmap : ∀ x, x ∈ bm ↔ is_Some (f x)
}.

(** The pair makes a circle on each of the first [k] lanes. *)
Definition no_room (f : pair → option nat) (i d k : nat) : Prop :=
  ∀ l, l < k → ¬ acyclic (with_pair (lane_pairs f l) i d).

Lemma core_inv_assigned f need need' bm p p' i d l :
  core_inv f need bm p → need ≤ need' ≤ vl_min p' → l < need' →
  lanes_inv True (assigned f i d l) p' → table_inv (assigned f i d l) p' →
  core_inv (assigned f i d l) need' ({[(i, d); (d, i)]} ∪ bm) p'.
Proof.
  intros [H1 H2 H3 H4 H5] Hn Hl HL HT. split; [done|done|lia| |].
  - intros x m. unfold assigned. case_decide; [intros [= <-]; lia|]. intros Hm%H4. lia.
  - intros x. rewrite !elem_of_union, !elem_of_singleton, H5. unfold assigned.
    case_decide as Hd; [|tauto]. split; [by eexists|]. intros _. by left.
Qed.

Definition assign_pair_ok_post (f : pair → option nat) (p : lash_t) (i d : nat) (r : lanes_result) : Prop :=
  match r with
  | LanesOk p' need' bm' => ∃ f', core_inv f' need' bm' p' ∧ vl_min p' = vl_min p
      ∧ (∀ x, is_Some (f x) → f' x = f x)
      ∧ (i ≠ d → ∃ l, f' (i, d) = Some l ∧ (f (i, d) = None → no_room f i d l))
  | NotEnoughLanes _ => i ≠ d ∧ f (i, d) = None ∧ no_room f i d (vl_min p)
  end.

Lemma assigned_kept f i d l x :
  f (i, d) = None → f (d, i) = None → is_Some (f x) → assigned f i d l x = f x.
Proof. intros H1 H2 [m Hm]. apply assigned_other; congruence. Qed.

Lemma assign_pair_ok f need bm p i d :
  core_inv f need bm p → i < n → d < n →
  ∃ r, assign_pair n start_vl p need bm i d = Some r ∧ assign_pair_ok_post f p i d r.
Proof.
  intros H Hi Hd. pose proof H as [HL HT Hneed Hbelow Hbm]. unfold assign_pair.
  destruct (bool_decide_reflect (d ≠ i)) as [Hne|Hne]; cbn [andb].
  2: { eexists. split; [done|]. exists f. split_and!; [done..|]. intros Hid. exfalso. apply Hne. by apply not_eq_sym. }
  destruct (bool_decide_reflect ((i, d) ∉ bm)) as [Hnew|Hold].
  2: { eexists. split; [done|]. exists f. split_and!; [done..|]. intros _.
       apply dec_stable in Hold. apply Hbm in Hold as [l Hl]. exists l. split; [done|congruence]. }
  assert (Hnone : f (i, d) = None) by (apply eq_None_not_Some; by rewrite <- Hbm).
  assert (Hnone' : f (d, i) = None) by (by rewrite (ti_sym _ _ HT)).
  assert (Hp : pair_in (i, d)) by (split_and!; [done|done|simpl; congruence]).
  destruct (lane_loop_ok i d Hp f need p 0 false HL Hnone Hnone' ltac:(lia))
    as (p1 & v & b & -> & (S1 & S2 & S3) & _ & Hroom & Hres). cbn [mbind option_bind].
  assert (Hroom' : no_room f i d v) by (intros l Hl; apply Hroom; lia).
  assert (Hlanes1 : ∃ f1, lanes_inv True f1 p1).
  { destruct b; [exists f; apply Hres|]. destruct Hres as [?|[_ ?]]; [lia|by eexists]. }
  destruct Hlanes1 as [f1 HL1].
  destruct (set_lanes_ok True f1 p1 i d (Z.of_nat v + start_vl)%Z HL1 Hi Hd) as (p2 & E2 & _ & V2 & Loc2 & C2 & T2).
  assert (HL2 : ∀ g, lanes_inv True g p1 → lanes_inv True g p2).
  { intros g Hg. destruct (set_lanes_ok True g p1 i d (Z.of_nat v + start_vl)%Z Hg Hi Hd) as (p2' & E2' & R & _).
    rewrite E2 in E2'. by injection E2' as <-. }
  rewrite E2. cbn [mbind option_bind]. rewrite S1 in T2.
  destruct b.
  - destruct Hres as [Ev HLb]. simpl in Ev. subst v. specialize (HL2 f HLb).
    destruct (Nat.ltb_spec (vl_min p2) (S need)) as [Hlt|Hge].
    { eexists. split; [done|]. simpl. split_and!; [congruence|done|].
      replace (vl_min p) with need by lia. done. }
    pose proof HL2 as []. destruct (lookup_lt_is_Some_2 (cdg_vertex_matrix p2) need) as [c Ec]; [lia|].
    rewrite Ec. cbn [mbind option_bind].
    assert (Hempty : lane_pairs f need = []).
    { apply elem_of_nil_inv. intros x (_ & Hx)%elem_lane_pairs. apply Hbelow in Hx. lia. }
    pose proof (li_lane0 need c Ec) as Hc. rewrite Hempty in Hc.
    destruct (lane_open (switches p2) li_routes0 i d Hp c Hc) as (c' & E3 & Hc').
    destruct (generate_cdg_for_sp n (switches p2) c i d) as [c1|]; [|done]. cbn [mbind option_bind] in E3 |- *.
    destruct (generate_cdg_for_sp n (switches p2) c1 d i) as [c2|]; [|done]. cbn [mbind option_bind] in E3 |- *.
    rewrite E3. cbn [mbind option_bind].
    assert (HL3 : lanes_inv True (assigned f i d need) (put_cdg p2 need c')).
    { apply (lanes_inv_put True f); [done| |].
      - apply (lane_ok_perm True (with_pair (lane_pairs f need) i d)); [|by rewrite Hempty].
        symmetry. apply lane_pairs_new; [done|congruence|congruence].
      - intros l' Hne'. apply lane_pairs_other; [done|congruence|congruence]. }
    destruct (count_lane_ok True _ _ need 2 HL3) as (p3 & -> & HL4 & (S4 & S5 & S6) & _); [simpl; lia|].
    cbn [mbind option_bind]. rewrite set_locations_ok by (simpl in *; lia). cbn [mbind option_bind].
    eexists. split; [done|]. exists (assigned f i d need). split_and!.
    + apply (core_inv_assigned f need (S need) bm p); [done|simpl in *; lia|lia|by apply lanes_inv_locations|].
      apply (mark_ok i d Hp f p p3 need); [done|done|simpl in *; lia|simpl in *; congruence|simpl in *; congruence|].
      intros a b. by rewrite S4, <- T2.
    + simpl in *. congruence.
    + intros x. by apply assigned_kept.
    + intros _. exists need. split; [apply assigned_pair|done].
  - destruct Hres as [?|[Hv HLb]]; [lia|]. specialize (HL2 _ HLb).
    rewrite set_locations_ok by lia. cbn [mbind option_bind].
    eexists. split; [done|]. exists (assigned f i d v). split_and!.
    + apply (core_inv_assigned f need need bm p); [done|simpl; lia|lia|by apply lanes_inv_locations|].
      apply (mark_ok i d Hp f p p2 v); [done|done|lia|congruence|congruence|done].
    + simpl. congruence.
    + intros x. by apply assigned_kept.
    + intros _. exists v. split; [apply assigned_pair|done].
Qed.

Lemma assign_pairs_ok l : ∀ f need bm p,
  core_inv f need bm p → Forall (λ x, x.1 < n ∧ x.2 < n) l →
  ∃ r, assign_pairs n start_vl l p need bm = Some r ∧
    match r with
    | LanesOk p' need' bm' => ∃ f', core_inv f' need' bm' p' ∧ vl_min p' = vl_min p
        ∧ (∀ x, is_Some (f x) → f' x = f x) ∧ ∀ i d, (i, d) ∈ l → i ≠ d → is_Some (f' (i, d))
    | NotEnoughLanes _ => ∃ f' need' bm' p' i d, core_inv f' need' bm' p' ∧ vl_min p' = vl_min p
        ∧ pair_in (i, d) ∧ f' (i, d) = None ∧ no_room f' i d (vl_min p)
    end.
Proof.
  induction l as [|[i d] l IH]; intros f need bm p H Hl; cbn [assign_pairs].
  { eexists. split; [done|]. exists f. split_and!; [done..|]. intros i d []%elem_of_nil. }
  apply Forall_cons in Hl as [[Hi Hd] Hl].
  destruct (assign_pair_ok f need bm p i d H Hi Hd) as (r & -> & Hr). cbn [mbind option_bind].
  destruct r as [p1 need1 bm1|p1]; simpl in Hr.
  - destruct Hr as (f1 & H1 & V1 & K1 & A1). destruct (IH f1 need1 bm1 p1 H1 Hl) as (r & -> & Hr).
    eexists. split; [done|]. rewrite V1 in Hr. destruct r as [p2 need2 bm2|p2]; [|done].
    destruct Hr as (f2 & H2 & V2 & K2 & A2). exists f2. split_and!; [done|congruence| |].
    + intros x Hx. rewrite K2; [by apply K1|]. by rewrite K1.
    + intros a b [[= -> ->]|Hin]%elem_of_cons Hne; [|by apply A2].
      destruct (A1 Hne) as (v & Hv & _). rewrite K2; by eexists.
  - eexists. split; [done|]. destruct Hr as (Hne & Hnone & Hroom).
    by exists f, need, bm, p, i, d.
Qed.

(** What [init_lash_structures] leaves. *)
Record untouched (p : lash_t) : Prop := {
  fr_vl : 1 ≤ vl_min p < IB_MAX_NUM_VLS;
  fr_cdgs : cdg_vertex_matrix p = replicate (vl_min p) cdg_empty;
  fr_counts : length (num_mst_in_lane p) = IB_MAX_NUM_VLS;
  fr_loc : virtual_location p = ∅
}.

Lemma lane_pairs_none l : lane_pairs (λ _, None) l = [].
Proof. apply elem_of_nil_inv. by intros x (_ & ?)%elem_lane_pairs. Qed.

Lemma core_inv_start p : untouched p → switches p = sws0 → core_inv (λ _, None) 1 ∅ p.
Proof.
  intros [[H1 H1'] H2 H3 H4] Hs. split; [| |lia|done|].
  - split; [by rewrite Hs| |by rewrite Hs|done|by rewrite H2, length_replicate|done|].
    + intros a s. rewrite Hs. intros E. by apply (Hsw a s E).
    + intros l c. rewrite H2. intros [-> _]%lookup_replicate_1. rewrite lane_pairs_none. apply lane_ok_empty.
  - split; [done| |done|done]. intros a d l x. by rewrite H4, lookup_empty.
  - intros x. split; [by intros ?%not_elem_of_empty|by intros []].
Qed.

Lemma core_inv_acyclic f need bm p l : core_inv f need bm p → acyclic (lane_pairs f l).
Proof.
  intros [[] HT _ _ _]. destruct (decide (l < vl_min p)) as [Hl|Hl].
  - destruct (lookup_lt_is_Some_2 (cdg_vertex_matrix p) l) as [c Ec]; [lia|]. by apply (li_lane0 l c).
  - apply (acyclic_mono sws0 _ []); [|apply acyclic_nil]. intros [a d] (_ & Hf)%elem_lane_pairs.
    destruct (ti_pair _ _ HT a d l Hf). lia.
Qed.

(** What [assign_lanes] answers. *)
Definition assignment (p : lash_t) (r : lanes_result) : Prop :=
  match r with
  | LanesOk p' lanes_needed bm => ∃ f, core_inv f lanes_needed bm p' ∧ vl_min p' = vl_min p
      ∧ ∀ x, pair_in x → is_Some (f x)
  | NotEnoughLanes _ => ∃ f i d, pair_in (i, d) ∧ f (i, d) = None
      ∧ (∀ l, acyclic (lane_pairs f l)) ∧ no_room f i d (vl_min p)
  end.

Lemma assign_lanes_ok p :
  untouched p → switches p = sws0 → ∃ r, assign_lanes n start_vl p = Some r ∧ assignment p r.
Proof.
  intros Hf Hs. destruct (assign_pairs_ok (list_prod (seq 0 n) (seq 0 n)) _ _ _ p (core_inv_start p Hf Hs))
    as (r & E & Hr).
  { apply Forall_forall. intros [a d] Hin. rewrite list_elem_of_In, in_prod_iff, !in_seq in Hin. simpl. lia. }
  exists r. split; [exact E|]. destruct r as [p' need bm|p']; simpl.
  - destruct Hr as (f & H & V & _ & A). exists f. split_and!; [done|done|]. intros [a d] (Ha & Hd & Hne).
    apply A; [|done]. rewrite list_elem_of_In, in_prod_iff, !in_seq. simpl in *. lia.
  - destruct Hr as (f & need & bm & p1 & i & d & H & _ & Hp & Hnone & Hroom). exists f, i, d.
    split_and!; [done|done| |done]. intros l. by apply (core_inv_acyclic f need bm p1).
Qed.
End Core.
