(* ===== verification/LashBalance.v ===== *)
(** * Balancing the lanes and the result of LASH

    [balance_virtual_lanes] moves pairs from the fullest lane to the emptiest one.
    Whatever [rand] gives, every lane stays acyclic and the tables name the lane that
    carries the pair.  For [lash_core] this means that the subnet is free of
    deadlocks: on no lane do the channels wait for each other in a circle. *)

From S2P Require Import Prelude IbTypes Switch UcastMgr Lash LashCycle LashRoute LashCdg LashPath LashLane LashCore.
From stdpp Require Import relations.

Open Scope nat_scope.

Section Balance.
Variable sws0 : list switch_t.
Hypothesis Hsw : switches_ok sws0.
Hypothesis Hroutes : routes_ok sws0.
Hypothesis Hsym : ∀ a b, adj sws0 a b → adj sws0 b a.
Variable start_vl : Z.
Variable rnd : nat → Z.
Notation n := (length sws0).
Notation lanes_inv := (lanes_inv sws0).
Notation table_inv := (table_inv sws0 start_vl).
Notation lane_pairs := (lane_pairs sws0).
Notation pair_in := (pair_in sws0).

(** Every pair has a lane among those in use. *)
Record balance_inv (lanes_needed vl : nat) (f : pair → option nat) (p : lash_t) : Prop := {
  bi_lanes : lanes_inv False f p;
  bi_table : table_inv f p;
  bi_vl : vl_min p = vl;
  bi_needed : 1 ≤ lanes_needed ≤ vl;
  bi_all : ∀ x, pair_in x → ∃ l, f x = Some l ∧ l < lanes_needed
}.

Lemma core_balance f need bm p :
  core_inv sws0 start_vl f need bm p → (∀ x, pair_in x → is_Some (f x)) →
  balance_inv need (vl_min p) f p.
Proof.
  intros [[H1 H2 HK H3 H4 H5 H6] HT Hn Hb _] Hall. split; try done.
  - split; try done. intros l c E. apply (lane_ok_weaken sws0 True); [done|]. by apply H6.
  - intros x Hx. destruct (Hall x Hx) as [l Hl]. exists l. split; [done|]. by apply (Hb x).
Qed.

(** The pair that the search settles on is marked for the lane. *)
Lemma scan_pair_loc fuel : ∀ p src dest lane a d,
  scan_pair n fuel p src dest lane = Some (a, d) →
  ∃ x, location n p a d lane = Some x ∧ x = 1%Z.
Proof.
  induction fuel as [|fuel IH]; [done|]. intros p src dest lane a d H. cbn [scan_pair] in H.
  destruct (location n p src dest lane) as [x|] eqn:E; [|done]. cbn [mbind option_bind] in H.
  destruct (Z.eqb_spec x 1) as [->|_]; [injection H as <- <-; by exists 1%Z|].
  destruct (scan_dest _ _ _ _ _ _ _) as [d'|]; [|done]. cbn [mbind option_bind] in H.
  destruct (location n p src d' lane); [|done]. cbn [mbind option_bind] in H. by apply IH in H.
Qed.

Lemma scan_pair_lane f p fuel src dest lane a d :
  table_inv f p → scan_pair n fuel p src dest lane = Some (a, d) →
  pair_in (a, d) ∧ f (a, d) = Some lane ∧ lane < vl_min p.
Proof.
  intros HT (x & Hx & ->)%scan_pair_loc. unfold location in Hx.
  destruct (_ && _); [|done]. injection Hx as Hx.
  destruct (virtual_location p !! (a, d, lane)) as [x|] eqn:E; [|done]. simpl in Hx. subst x.
  pose proof (ti_loc _ _ _ _ HT _ _ _ _ E ltac:(done)) as Hf.
  destruct (ti_pair _ _ _ _ HT _ _ _ Hf). done.
Qed.

Lemma table_inv_locations f p vl :
  table_inv f p → (∀ a d l x, vl !! (a, d, l) = Some x → x ≠ 0%Z → f (a, d) = Some l) →
  table_inv f (p <| virtual_location := vl |>).
Proof. by intros []. Qed.

(** ** One move *)

Section Move.
Variables (i d lmin lmax : nat) (f : pair → option nat).
Hypothesis Hp : pair_in (i, d).
Hypothesis Hf : f (i, d) = Some lmax.
Hypothesis Hf' : f (d, i) = Some lmax.
Notation f' := (assigned f i d lmin).

Lemma moved_stay : lmin = lmax → ∀ x, f' x = f x.
Proof. intros -> x. unfold assigned. by case_decide as Hd; [destruct Hd as [-> | ->]|]. Qed.

(** The lanes after the pair was added to the emptiest lane and taken from the fullest. *)
Lemma move_lanes p c :
  lanes_inv False f p → cdg_vertex_matrix p !! lmin = Some c → lmax < vl_min p →
  ∀ c', lane_ok sws0 False (with_pair (lane_pairs f lmin) i d) c' →
  ∃ cmax c1 c2, cdg_vertex_matrix (put_cdg p lmin c') !! lmax = Some cmax
    ∧ remove_semipermanent_depend_for_sp n (switches p) cmax i d = Some c1
    ∧ remove_semipermanent_depend_for_sp n (switches p) c1 d i = Some c2
    ∧ lanes_inv False f' (put_cdg (put_cdg p lmin c') lmax c2).
Proof.
  intros H Ec Hl c' Hc'. pose proof H as []. pose proof (lookup_lt_Some _ _ _ Ec) as Hlt.
  destruct (decide (lmin = lmax)) as [E|Hne].
  - destruct (lane_drop sws0 Hsw Hroutes (switches p) li_routes i d Hp _ (lane_pairs f lmax) c' ltac:(by rewrite E) Hc')
      as (c1 & c2 & E1 & E2 & Hc2).
    exists c', c1, c2. split_and!; [simpl; rewrite E; apply list_lookup_insert_eq; lia|done|done|].
    apply (lanes_inv_ext sws0 False f).
    { intros l. apply lane_pairs_ext. intros x _. by rewrite moved_stay. }
    assert (Hput : put_cdg (put_cdg p lmin c') lmax c2 = put_cdg p lmax c2).
    { subst lmin. unfold put_cdg. cbn. by rewrite list_insert_insert_eq. }
    rewrite Hput. by apply (lanes_inv_put sws0 False f).
  - destruct (lookup_lt_is_Some_2 (cdg_vertex_matrix p) lmax) as [cmax Emax]; [lia|].
    destruct (lane_drop sws0 Hsw Hroutes (switches p) li_routes i d Hp (lane_pairs f lmax) (lane_pairs f' lmax) cmax)
      as (c1 & c2 & E1 & E2 & Hc2); [by apply lane_pairs_gone|by apply li_lane|].
    exists cmax, c1, c2. split_and!; [simpl; by rewrite list_lookup_insert_ne|done|done|].
    split; simpl; try done; [by rewrite !length_insert|].
    intros l cl. destruct (decide (l = lmax)) as [->|N1].
    + intros [(_ & <- & _)|[? _]]%list_lookup_insert_Some; done.
    + rewrite list_lookup_insert_ne by done. destruct (decide (l = lmin)) as [->|N2].
      * intros [(_ & <- & _)|[? _]]%list_lookup_insert_Some; [|done].
        apply (lane_ok_perm sws0 False (with_pair (lane_pairs f lmin) i d)); [|done].
        symmetry. apply lane_pairs_new; [done|congruence|congruence].
      * rewrite list_lookup_insert_ne by done. intros El.
        apply (lane_ok_perm sws0 False (lane_pairs f l)); [|by apply li_lane].
        apply lane_pairs_other; [done|congruence|congruence].
Qed.

(** The marks and the tables after a move. *)
Lemma move_tables p p' :
  table_inv f p → lmin < vl_min p → vl_min p' = vl_min p →
  virtual_location p' = <[(d, i, lmin) := 1%Z]> (<[(i, d, lmin) := 1%Z]>
                        (<[(d, i, lmax) := 0%Z]> (<[(i, d, lmax) := 0%Z]> (virtual_location p)))) →
  (∀ a b, lane_at (switches p') a b
     = if decide ((a, b) = (i, d) ∨ (a, b) = (d, i)) then Some (Z.of_nat lmin + start_vl)%Z
       else lane_at (switches p) a b) →
  table_inv f' p'.
Proof.
  intros [T1 T2 T3 T4] Hl Evl Eloc Hat. destruct (assigned_pair f i d lmin) as [A1 A2]. split.
  - intros a b m. rewrite Hat. unfold assigned. case_decide; [by intros [= <-]|]. apply T1.
  - intros a b m x. rewrite Eloc. intros E Hx.
    apply lookup_insert_Some in E as [[[= -> -> ->] <-]|[_ E]]; [done|].
    apply lookup_insert_Some in E as [[[= -> -> ->] <-]|[_ E]]; [done|].
    apply lookup_insert_Some in E as [[_ <-]|[N1 E]]; [done|].
    apply lookup_insert_Some in E as [[_ <-]|[N2 E]]; [done|].
    pose proof (T2 a b m x E Hx) as Hm. rewrite assigned_other; [done| |].
    + intros [= -> ->]. congruence.
    + intros [= -> ->]. congruence.
  - intros a b. unfold assigned. repeat case_decide; naive_solver.
  - intros a b m. unfold assigned. rewrite Evl. case_decide as Hd; [|by apply T4].
    intros [= <-]. split; [|done]. destruct Hd as [-> | ->]; [done|by apply pair_swap].
Qed.
End Move.

(** ** The loop *)

Definition state_inv (need vl : nat) (b : balance_state) : Prop :=
  ∃ f, balance_inv need vl f (b_lash b) ∧ min_filled_lane b < need.

Lemma balance_move_ok need vl b src dest b' :
  state_inv need vl b → (∀ f, balance_inv need vl f (b_lash b) →
    pair_in (src, dest) ∧ f (src, dest) = Some (max_filled_lane b) ∧ max_filled_lane b < vl_min (b_lash b)) →
  balance_move n start_vl b src dest = Some b' →
  state_inv need vl b'.
Proof.
  intros (f & H & Hmin) Hpair Hmove. destruct (Hpair f H) as (Hp & Hf & Hmax).
  pose proof H as [HL HT Hvl Hneed Hall]. pose proof HL as [].
  assert (Hf' : f (dest, src) = Some (max_filled_lane b)) by (by rewrite (ti_sym _ _ _ _ HT)).
  pose proof Hp as (Hs & Hd & _). simpl in Hs, Hd.
  unfold balance_move in Hmove.
  destruct (cdg_vertex_matrix (b_lash b) !! min_filled_lane b) as [c|] eqn:Ec; [|done].
  cbn [mbind option_bind] in Hmove.
  destruct (lane_try sws0 Hsw Hroutes Hsym (switches (b_lash b)) li_routes src dest Hp False _ c (li_lane _ c Ec))
    as [_ Hj].
  destruct (try_lane n (switches (b_lash b)) c src dest) as [[cyc c1]|]; [|done]. cbn [mbind option_bind] in Hmove.
  destruct (Hj cyc c1 eq_refl) as [c2 Hc2]. destruct cyc.
  - destruct Hc2 as (E2 & Hc2 & _). rewrite E2 in Hmove. cbn [mbind option_bind] in Hmove.
    rewrite set_locations_ok in Hmove by (simpl; lia). cbn [mbind option_bind] in Hmove.
    injection Hmove as <-. exists f. split; [|done]. split; simpl; [| |done|done|done].
    + apply lanes_inv_locations. by apply (lanes_inv_put sws0 False f).
    + apply table_inv_locations; [by apply (table_inv_same _ _ f (b_lash b))|]. intros a d l x E Hx. simpl in E.
      apply lookup_insert_Some in E as [[[= <- <- <-] _]|[_ E]]; [done|].
      apply lookup_insert_Some in E as [[[= <- <- <-] _]|[_ E]]; [done|]. by apply (ti_loc _ _ _ _ HT _ _ _ x).
  - destruct Hc2 as (E2 & Hc2). rewrite E2 in Hmove. cbn [mbind option_bind] in Hmove.
    destruct (move_lanes src dest (min_filled_lane b) (max_filled_lane b) f Hp Hf Hf' (b_lash b) c HL Ec Hmax c2 Hc2)
      as (cmax & d1 & d2 & Emax & Er1 & Er2 & HL2).
    unfold count_lane in Hmove. simpl in Hmove.
    destruct (num_mst_in_lane (b_lash b) !! max_filled_lane b) as [m1|] eqn:Em1; [|done]. simpl in Hmove.
    destruct (<[max_filled_lane b:=(m1 + -2)%Z]> (num_mst_in_lane (b_lash b)) !! min_filled_lane b) as [m2|] eqn:Em2;
      [|done]. simpl in Hmove.
    simpl in Emax. rewrite Emax in Hmove. cbn [mbind option_bind] in Hmove.
    rewrite Er1 in Hmove. cbn [mbind option_bind] in Hmove.
    rewrite Er2 in Hmove. cbn [mbind option_bind] in Hmove.
    rewrite set_locations_ok in Hmove by (simpl; lia). cbn [mbind option_bind] in Hmove.
    rewrite set_locations_ok in Hmove by (simpl; lia). cbn [mbind option_bind] in Hmove.
    match type of Hmove with (set_lanes ?q _ _ _ ≫= _) = _ => set (p3 := q) in Hmove end.
    assert (HL3 : lanes_inv False (assigned f src dest (min_filled_lane b)) p3).
    { destruct HL2 as [A1 A2 AK A3 A4 A5 A6]. split; try done.
      unfold p3. simpl. by rewrite !length_insert. }
    destruct (set_lanes_ok sws0 False _ p3 src dest (Z.of_nat (min_filled_lane b) + start_vl)%Z HL3 Hs Hd)
      as (p4 & E4 & HL4 & V4 & Loc4 & _ & T4).
    rewrite E4 in Hmove. cbn [mbind option_bind] in Hmove. injection Hmove as <-.
    exists (assigned f src dest (min_filled_lane b)). split; [|done]. split; simpl.
    + done.
    + apply (move_tables src dest (min_filled_lane b) (max_filled_lane b) f Hp Hf Hf' (b_lash b)); try done; lia.
    + rewrite V4. done.
    + done.
    + intros x Hx. unfold assigned. case_decide; [by eexists|]. by apply Hall.
Qed.

(** The scans give lanes in use. *)
Lemma emptiest_lt m need old : old < need → emptiest m need old < need.
Proof.
  intros Hold. unfold emptiest.
  assert (Hgen : ∀ l x lane, lane < need → Forall (λ i, i < need) l →
    (foldl (λ '(x, lane) i, if (m !!! i <? x)%Z then (m !!! i, i) else (x, lane)) (x, lane) l).2 < need).
  { intros l. induction l as [|i l IH]; intros x lane Hlane Hl; [done|]. apply Forall_cons in Hl as [Hi Hl].
    simpl. destruct (_ <? _)%Z; by apply IH. }
  apply Hgen; [done|]. apply Forall_forall. intros i Hi%elem_of_seq. lia.
Qed.

(** Counts from [MAX_INT] on are not seen: the emptiest lane stays. *)
Lemma emptiest_stuck m need old : Forall (λ x, (MAX_INT ≤ x)%Z) m → need ≤ length m → emptiest m need old = old.
Proof.
  intros Hm Hn. unfold emptiest. induction need as [|need IH]; [done|].
  rewrite seq_S, foldl_app. simpl.
  assert (Hinv : ∀ l lane, Forall (λ i, i < length m) l →
    foldl (λ '(x, lane) i, if (m !!! i <? x)%Z then (m !!! i, i) else (x, lane)) (MAX_INT, lane) l = (MAX_INT, lane)).
  { induction l as [|i l IHl]; intros lane Hl; [done|]. apply Forall_cons in Hl as [Hi Hl]. simpl.
    destruct (lookup_lt_is_Some_2 m i Hi) as [x Ex]. rewrite (list_lookup_total_correct _ _ _ Ex).
    rewrite Forall_lookup in Hm. specialize (Hm i x Ex). simpl in Hm.
    destruct (Z.ltb_spec x MAX_INT); [lia|]. by apply IHl. }
  rewrite Hinv by (apply Forall_forall; intros i Hi%elem_of_seq; lia).
  destruct (lookup_lt_is_Some_2 m need ltac:(lia)) as [x Ex]. rewrite (list_lookup_total_correct _ _ _ Ex).
  rewrite Forall_lookup in Hm. specialize (Hm need x Ex). simpl in Hm.
  by destruct (Z.ltb_spec x MAX_INT); [lia|].
Qed.

Lemma untry_inv need vl f p l : balance_inv need vl f p → balance_inv need vl f (untry_lane p l).
Proof.
  intros [H1 H2 H3 H4 H5]. split; try done; [by apply lanes_inv_locations|].
  apply table_inv_locations; [done|]. intros a d l' x. rewrite map_lookup_imap.
  destruct (virtual_location p !! (a, d, l')) as [y|] eqn:E; [|done]. cbn [mbind option_bind].
  intros [= <-] Hx. apply (ti_loc _ _ _ _ H2 a d l' y E). case_decide as Hd; [|done].
  destruct Hd as [_ ->]. done.
Qed.

Lemma balance_lanes_ok need vl b : state_inv need vl b → state_inv need vl (balance_lanes need b).
Proof.
  intros (f & H & Hmin). exists f. unfold balance_lanes. split; [|by apply emptiest_lt].
  simpl. repeat (case_match; simpl; try done); repeat apply untry_inv; done.
Qed.

Lemma balance_step_ok need vl b b' :
  state_inv need vl b → balance_step n start_vl rnd need b = Some b' → state_inv need vl b'.
Proof.
  intros H Hstep. unfold balance_step in Hstep.
  destruct (scan_pair _ _ _ _ _ _) as [[src dest]|] eqn:Es; [|done]. cbn [mbind option_bind] in Hstep.
  match type of Hstep with (balance_move _ _ ?q _ _ ≫= _) = _ => set (b1 := q) in Hstep end.
  destruct (balance_move n start_vl b1 src dest) as [b2|] eqn:Em; [|done]. injection Hstep as <-.
  apply balance_lanes_ok, (balance_move_ok need vl b1 src dest); [exact H| |done].
  intros f Hf. apply (scan_pair_lane f _ _ _ _ _ _ _ (bi_table _ _ _ _ Hf) Es).
Qed.

Lemma balance_loop_ok need vl fuel : ∀ b b',
  state_inv need vl b → balance_loop n start_vl rnd fuel need b = Some b' → state_inv need vl b'.
Proof.
  induction fuel as [|fuel IH]; intros b b' H Hl; cbn [balance_loop] in Hl;
    (destruct (stop b); [by injection Hl as <-|]); [done|].
  destruct (balance_step n start_vl rnd need b) as [b1|] eqn:Es; [|done]. cbn [mbind option_bind] in Hl.
  apply (IH b1); [|done]. by apply (balance_step_ok need vl b).
Qed.

Lemma balance_ok need vl f p fuel p' :
  balance_inv need vl f p → balance_virtual_lanes n start_vl rnd fuel p need = Some p' →
  ∃ f', balance_inv need vl f' p'.
Proof.
  intros H Hb. unfold balance_virtual_lanes in Hb.
  destruct (num_mst_in_lane p !! 0) as [m|]; [|done]. cbn [mbind option_bind] in Hb.
  destruct (balance_loop _ _ _ _ _ _) as [b|] eqn:E; [|done]. injection Hb as <-.
  apply (balance_loop_ok need vl) in E as (f' & H' & _); [by exists f'|].
  exists f. split; [done|]. simpl. destruct H. lia.
Qed.

(** One lane is in balance. *)
Lemma balance_one p fuel : 0 < length (num_mst_in_lane p) →
  balance_virtual_lanes n start_vl rnd fuel p 1 = Some p.
Proof.
  intros Hl. unfold balance_virtual_lanes.
  destruct (lookup_lt_is_Some_2 (num_mst_in_lane p) 0 Hl) as [m ->]. by destruct fuel.
Qed.
End Balance.

(** ** Freedom from deadlocks *)

(** On the lane with number [z] the channel [u] waits for [w]: a pair that uses the
    lane has a route that takes [w] right after [u]. *)
Definition waits (sws : list switch_t) (z : Z) (u w : chan) : Prop :=
  ∃ a d l1 l2, lane_at sws a d = Some z ∧ route (S (length sws)) sws a d = Some (l1 ++ u :: w :: l2).

Definition deadlock_free (sws : list switch_t) : Prop := ∀ z u, ¬ tc (waits sws z) u u.

Lemma balance_inv_free sws0 start_vl need vl f p :
  balance_inv sws0 start_vl need vl f p → deadlock_free (switches p).
Proof.
  intros [[] HT _ _ Hall] z u Htc.
  set (l := Z.to_nat (z - start_vl)).
  assert (Hstep : ∀ x y, waits (switches p) z x y → 0 < fol (spec_of sws0 (lane_pairs sws0 f l)) x y).
  { intros x y (a & d & l1 & l2 & Hz & Hr). pose proof li_routes as (Hlen & _).
    rewrite Hlen, (route_eq _ _ _ _ _ li_routes) in Hr.
    assert (Hp : pair_in sws0 (a, d)).
    { unfold lane_at in Hz. destruct (switches p !! a) as [s|] eqn:Es; [|done]. simpl in Hz.
      destruct (routing_table s !! d) as [e|] eqn:Ee; [|done].
      pose proof (li_slots a s Es). apply lookup_lt_Some in Es, Ee.
      split_and!; simpl; [lia|lia|]. intros ->. cbn [route] in Hr. rewrite Nat.eqb_refl in Hr.
      by destruct l1. }
    destruct (Hall _ Hp) as (m & Hm & _).
    pose proof (ti_lane _ _ _ _ HT a d m Hm) as Hz'. rewrite Hz in Hz'. injection Hz' as ->.
    apply fol_spec_of. exists (a, d). split.
    - apply elem_lane_pairs. split; [done|]. unfold l. rewrite Hm. f_equal. lia.
    - apply occ2_pos. exists l1, l2. unfold path. cbn [fst snd]. by rewrite Hr. }
  assert (Hac : acyclic sws0 (lane_pairs sws0 f l)).
  { destruct (decide (l < vl_min p)) as [Hl|Hl].
    - destruct (lookup_lt_is_Some_2 (cdg_vertex_matrix p) l) as [c Ec]; [lia|]. by apply (li_lane l c).
    - apply (acyclic_mono sws0 _ []); [|apply acyclic_nil]. intros [a d] (_ & Hf)%elem_lane_pairs.
      destruct (ti_pair _ _ _ _ HT a d l Hf). lia. }
  apply (Hac u). revert Htc. apply tc_congruence with (f := id). exact Hstep.
Qed.

(** The graph is the same where the routes are. *)
Lemma routes_eq_adj sws sws' a b : routes_eq sws sws' → adj sws a b → adj sws' a b.
Proof.
  intros (_ & _ & Hg) (s & l & Es & Hl & <-). apply list_elem_of_lookup in Hl as [i Ei].
  apply (get_next_adj sws' a (Z.of_nat i)). rewrite Hg. unfold get_next_switch. rewrite Es. simpl.
  by rewrite Nat2Z.id, Ei.
Qed.

Lemma routes_eq_sym sws sws' : routes_eq sws sws' → routes_eq sws' sws.
Proof. intros (?&?&?). split_and!; congruence. Qed.

Lemma routes_eq_dist sws sws' k a d : routes_eq sws sws' → dist sws k a d → dist sws' k a d.
Proof.
  intros He [H Hmin]. pose proof (routes_eq_sym _ _ He) as He'. split.
  - revert H. apply nsteps_congruence with (f := id). intros x y. by apply routes_eq_adj.
  - intros m Hm. apply Hmin. revert Hm. apply nsteps_congruence with (f := id). intros x y. by apply routes_eq_adj.
Qed.

Lemma routes_eq_ok sws sws' : routes_eq sws sws' → routes_ok sws → routes_ok sws'.
Proof.
  intros He H a d. pose proof He as (Hlen & Ho & Hg). rewrite Hlen. intros Ha Hd.
  destruct (H a d Ha Hd) as [(k & Hk & Hdist) Hgood]. split.
  - exists k. split; [done|]. by apply (routes_eq_dist sws).
  - intros Hne. destruct (Hgood Hne) as (e & E & Hn & t & m & Ht & D1 & D2). exists e. rewrite Ho.
    split; [done|]. split; [done|]. exists t, m. rewrite Hg.
    split_and!; [done|by apply (routes_eq_dist sws)|by apply (routes_eq_dist sws)].
Qed.

(** ** [lash_core] *)

(** The switches as [process_switches] leaves them: no route is set, each link has
    another in the opposite direction, and every switch can reach every other. *)
Record network (sws : list switch_t) : Prop := {
  nw_ok : switches_ok sws;
  nw_rest : at_rest sws;
  nw_none : no_routes sws;
  nw_sym : ∀ a b, adj sws a b → adj sws b a;
  nw_conn : connected sws
}.

(** The routes found for a network, with the facts the other parts use. *)
Lemma network_routes sws :
  network sws → ∃ sws', lash_routes sws = Some sws' ∧ switches_ok sws' ∧ routes_ok sws'
    ∧ (∀ a b, adj sws' a b → adj sws' b a) ∧ shapes sws' = shapes sws.
Proof.
  intros [H1 H2 H3 H4 H5]. destruct (lash_routes_ok sws H1 H2 H3 H5) as (sws' & E & Hs & _ & Hr).
  exists sws'. split_and!; [done|by apply (switches_ok_shapes sws)|done| |done].
  intros a b Hab. apply (adj_shapes sws); [done|]. apply H4. by apply (adj_shapes sws').
Qed.

Lemma untouched_switches p sws : untouched p → untouched (p <| switches := sws |>).
Proof. by intros []. Qed.

(** The first part of [lash_core]: it always has an answer. *)
Lemma network_lanes start_vl p :
  network (switches p) → untouched p →
  ∃ sws r, lash_routes (switches p) = Some sws ∧ switches_ok sws ∧ routes_ok sws
    ∧ (∀ a b, adj sws a b → adj sws b a) ∧ shapes sws = shapes (switches p)
    ∧ assign_lanes (length (switches p)) start_vl (p <| switches := sws |>) = Some r
    ∧ assignment sws start_vl p r.
Proof.
  intros Hn Hf. destruct (network_routes _ Hn) as (sws & E & H1 & H2 & H3 & Hs). pose proof (shapes_length _ _ Hs) as Hlen.
  destruct (assign_lanes_ok sws H1 H2 H3 start_vl (p <| switches := sws |>) (untouched_switches p sws Hf) eq_refl)
    as (r & Er & Hr).
  exists sws, r. rewrite Hlen in Er. by split_and!.
Qed.

(** What [lash_core] leaves of [p]. *)
Record routed_engine (start_vl : Z) (p p' : lash_t) : Prop := {
  re_free : deadlock_free (switches p');
  re_routes : routes_ok (switches p');
  re_links : links <$> switches p' = links <$> switches p;
  re_slots : ∀ a s, switches p' !! a = Some s → length (routing_table s) = length (switches p');
  re_vl : vl_min p' = vl_min p;
  re_lane : ∀ a d, a < length (switches p) → d < length (switches p) → a ≠ d →
    ∃ l, l < vl_min p ∧ lane_at (switches p') a d = Some (Z.of_nat l + start_vl)%Z
}.

Lemma shapes_links sws sws' : shapes sws' = shapes sws → links <$> sws' = links <$> sws.
Proof.
  intros H. apply (f_equal (fmap (λ s : nat * nat * list link_t * nat, s.1.2))) in H.
  unfold shapes in H. by rewrite <- !list_fmap_compose in H.
Qed.

Lemma lash_core_ok start_vl rnd fuel p p' :
  network (switches p) → untouched p →
  lash_core (length (switches p)) start_vl rnd fuel p = Some (0%Z, p') → routed_engine start_vl p p'.
Proof.
  intros Hn Hf H. destruct (network_lanes start_vl p Hn Hf) as (sws & r & E & H1 & H2 & H3 & Hs & Er & Hr).
  pose proof (shapes_length _ _ Hs) as Hlen.
  unfold lash_core in H. rewrite E in H. cbn [mbind option_bind] in H. rewrite Er in H.
  cbn [mbind option_bind] in H. destruct r as [p1 need bm|p1]; [|done].
  destruct Hr as (f & Hc & Hvl & Hall).
  destruct (balance_virtual_lanes _ _ _ _ _ _) as [p2|] eqn:Eb; [|done]. injection H as <-.
  pose proof (core_balance sws start_vl f need bm p1 Hc Hall) as Hb. rewrite <- Hlen in Eb.
  destruct (balance_ok sws H1 H2 H3 start_vl rnd need (vl_min p1) f p1 fuel p2 Hb Eb) as (f' & Hb').
  pose proof Hb' as [HL HT Hv _ Hall']. split.
  - by eapply balance_inv_free.
  - apply (routes_eq_ok sws); [apply HL|done].
  - rewrite (li_links _ _ _ _ HL). by apply shapes_links.
  - destruct (li_routes _ _ _ _ HL) as (-> & _). apply (li_slots _ _ _ _ HL).
  - congruence.
  - intros a d Ha Hd Hne. destruct (Hall' (a, d)) as (l & Hl & _); [split_and!; simpl; lia|].
    exists l. split; [|by apply (ti_lane _ _ _ _ HT)].
    destruct (ti_pair _ _ _ _ HT a d l Hl). lia.
Qed.

(** C1. When the switches are connected, every link has its reverse and LASH returns
    success, each pair of switches has one of the [vl_min] lanes and a route that is a
    shortest path, and on no lane do the channels wait for each other in a circle: the
    fabric cannot deadlock.  This holds for whatever numbers [rand] gives to the
    balancing, and for any fuel; that the assignment before the balancing always ends is
    another theorem. *)
Theorem lash_core_deadlock_free start_vl rnd fuel p p' :
  network (switches p) → untouched p →
  lash_core (length (switches p)) start_vl rnd fuel p = Some (0%Z, p') →
  deadlock_free (switches p') ∧ routes_ok (switches p')
  ∧ ∀ a d, a < length (switches p) → d < length (switches p) → a ≠ d →
      ∃ l, l < vl_min p ∧ lane_at (switches p') a d = Some (Z.of_nat l + start_vl)%Z.
Proof. intros Hn Hf H. by destruct (lash_core_ok start_vl rnd fuel p p' Hn Hf H). Qed.

(** C17. The assignment of lanes has no undefined step and always ends.  It fails only when
    some pair makes a circle on each of the [vl_min] lanes, all of them free of circles
    so far; when one lane suffices, [lash_core] as a whole answers with success. *)
Theorem lash_core_answers start_vl rnd fuel p :
  network (switches p) → untouched p →
  ∃ sws r, lash_routes (switches p) = Some sws
    ∧ assign_lanes (length (switches p)) start_vl (p <| switches := sws |>) = Some r
    ∧ match r with
      | LanesOk p' lanes_needed _ =>
          1 ≤ lanes_needed ≤ vl_min p
          ∧ (lanes_needed = 1 →
             lash_core (length (switches p)) start_vl rnd fuel p = Some (0%Z, p'))
      | NotEnoughLanes p' =>
          lash_core (length (switches p)) start_vl rnd fuel p = Some ((-1)%Z, p')
          ∧ ∃ f i d, pair_in sws (i, d) ∧ f (i, d) = None
              ∧ (∀ l, acyclic sws (lane_pairs sws f l)) ∧ no_room sws f i d (vl_min p)
      end.
Proof.
  intros Hn Hf. destruct (network_lanes start_vl p Hn Hf) as (sws & r & E & _ & _ & _ & _ & Er & Hr).
  exists sws, r. split; [done|]. split; [done|]. unfold lash_core. rewrite E. cbn [mbind option_bind].
  rewrite Er. cbn [mbind option_bind]. destruct r as [p' need bm|p']; [|by split].
  destruct Hr as (f & [HL _ Hneed _ _] & Hvl & _). split; [lia|]. intros ->.
  rewrite balance_one; [done|]. rewrite (li_counts _ _ _ _ HL). unfold IB_MAX_NUM_VLS. lia.
Qed.
