(* ===== verification/LashProc.v ===== *)
(** * The LASH engine on a subnet

    [process_switches] gives every switch a link per cable to a switch, so that a
    subnet with cables in both directions is a [network].  [populate_fwd_tbls] turns
    the routes between switches into the entries of the forwarding tables; packets
    follow the routes to their port. *)

From S2P Require Import Prelude IbTypes Switch UcastMgr Lash LashCycle LashRoute LashCdg LashPath LashLane LashCore LashBalance.
From stdpp Require Import relations.

Open Scope nat_scope.

(** ** Connecting the switches *)

(** Links without [link_id], which nothing but the mesh analysis reads. *)
Definition bare_link (l : link_t) : link_t := l <| l_link_id := 0%Z |>.

Definition bare (s : switch_t) : switch_t := s <| links := bare_link <$> links s |>.

Definition add_links (ls : list link_t) (s : switch_t) : switch_t := s <| links := links s ++ ls |>.

(** Switch [a] has [ls] as new links. *)
Definition grown (a : nat) (ls : list link_t) (sws sws' : list switch_t) : Prop :=
  ∀ x, bare <$> sws' !! x = (λ s, if decide (x = a) then add_links ls (bare s) else bare s) <$> sws !! x.

Lemma grown_nil a sws : grown a [] sws sws.
Proof.
  intros x. destruct (sws !! x) as [s|]; [|done]. simpl. case_decide; [|done].
  destruct s. unfold add_links, bare. cbn. by rewrite app_nil_r.
Qed.

Lemma grown_app a l1 l2 sws1 sws2 sws3 :
  grown a l1 sws1 sws2 → grown a l2 sws2 sws3 → grown a (l1 ++ l2) sws1 sws3.
Proof.
  intros H1 H2 x. rewrite H2. specialize (H1 x). destruct (sws2 !! x) as [s2|], (sws1 !! x) as [s1|]; try done.
  simpl in *. apply (inj Some) in H1. f_equal. rewrite H1. case_decide; [|done].
  unfold add_links. cbn. by rewrite app_assoc.
Qed.

(** Writing the identity of a link. *)
Lemma put_link_id (sws : list switch_t) b s i l k :
  sws !! b = Some s → links s !! i = Some l → ∀ x,
  bare <$> <[b := s <| links := <[i := l <| l_link_id := k |>]> (links s) |>]> sws !! x = bare <$> sws !! x.
Proof.
  intros Es El x. destruct (decide (x = b)) as [->|Hne]; [|by rewrite list_lookup_insert_ne].
  rewrite list_lookup_insert_eq, Es by (by apply lookup_lt_Some in Es). simpl. f_equal.
  unfold bare. cbn. rewrite list_fmap_insert, list_insert_id; [done|].
  rewrite list_lookup_fmap, El. by destruct l.
Qed.

Lemma connect_grown sws a b i s :
  sws !! a = Some s → length (links s) < link_slots s → b < length sws →
  ∃ sws', connect_switches false sws a b i = Some sws' ∧ grown a [Link b 0 0 [i]] sws sws'.
Proof.
  intros Es Hlen Hb. unfold connect_switches. rewrite Es. cbn [mbind option_bind].
  apply Nat.ltb_lt in Hlen. rewrite Hlen. cbn [check mbind option_bind].
  set (sws1 := <[a := _]> sws).
  assert (H1 : grown a [Link b 0 0 [i]] sws sws1).
  { intros x. unfold sws1. destruct (decide (x = a)) as [->|Hne].
    - rewrite list_lookup_insert_eq, Es by (by apply lookup_lt_Some in Es). simpl. f_equal.
      unfold bare, add_links. cbn. by rewrite fmap_app.
    - rewrite list_lookup_insert_ne by done. by destruct (sws !! x). }
  assert (Es1 : ∃ s1, sws1 !! a = Some s1 ∧ links s1 = links s ++ [Link b (-1) 0 [i]]).
  { eexists. split; [apply list_lookup_insert_eq; by apply lookup_lt_Some in Es|done]. }
  destruct (lookup_lt_is_Some_2 sws b Hb) as [s2 Es2]. rewrite Es2. cbn [mbind option_bind].
  destruct (list_find _ (links s2)) as [[j l2]|] eqn:Ef; [|by eexists].
  apply list_find_Some in Ef as (Ej & _).
  assert (Es2' : ∃ s2', sws1 !! b = Some s2' ∧ links s2' !! j = Some l2).
  { destruct (decide (b = a)) as [->|Hne].
    - destruct Es1 as (s1 & E1 & L1). exists s1. split; [done|]. rewrite L1. rewrite Es in Es2. injection Es2 as <-.
      apply lookup_app_l_Some. done.
    - exists s2. split; [|done]. unfold sws1. by rewrite list_lookup_insert_ne. }
  destruct Es2' as (s2' & Es2' & Ej'). rewrite Es2'. cbn [mbind option_bind].
  pose proof (put_link_id sws1 b s2' j l2 (Z.of_nat (length (links s))) Es2' Ej') as H2.
  set (sws2 := <[b := _]> sws1) in *.
  destruct Es1 as (s1 & Es1 & L1).
  assert (Es3 : ∃ s3 l, sws2 !! a = Some s3 ∧ links s3 !! length (links s) = Some l).
  { pose proof (H2 a) as Ha. rewrite Es1 in Ha. destruct (sws2 !! a) as [s3|]; [|done].
    simpl in Ha. apply (inj Some) in Ha. apply (f_equal (λ s, length (links s))) in Ha. unfold bare in Ha. cbn in Ha.
    rewrite !length_fmap, L1, length_app in Ha. simpl in Ha.
    destruct (lookup_lt_is_Some_2 (links s3) (length (links s))) as [l El]; [lia|]. by exists s3, l. }
  destruct Es3 as (s3 & l & Es3 & El3). rewrite Es3. cbn [mbind option_bind]. rewrite El3. cbn [mbind option_bind].
  eexists. split; [done|]. intros x. rewrite (put_link_id sws2 a s3 _ l (Z.of_nat j) Es3 El3 x), (H2 x). apply H1.
Qed.

(** *** One switch and all switches *)

Section Fabric.
Context {BO : ByteOrder}.
Variable nodes : gmap Z osm_node.
Implicit Types sws : gmap Z osm_switch.

(** The switch behind a port and the link of the port. *)
Definition remote_id sws (g i : Z) : option nat :=
  '(r, _) ← physp_at nodes g i ≫= p_remote_physp; get_lash_id sws r.

Definition port_link sws (g i : Z) : list link_t :=
  match remote_id sws g i with Some b => [Link b 0 0 [i]] | None => [] end.

Definition port_links sws (g : Z) : list link_t :=
  i ← seqZ 1 (num_physp nodes g - 1); port_link sws g i.

Lemma get_lash_id_Some sws g a : get_lash_id sws g = Some a ↔ sw_keys sws !! a = Some g.
Proof.
  unfold get_lash_id, sw_keys. pose proof (qmap_items_NoDup sws) as Hn. split.
  - destruct (list_find _ _) as [[i k]|] eqn:E; [|done]. intros [= <-].
    by apply list_find_Some in E as (Hi & -> & _).
  - intros E. destruct (list_find (λ k, k = g) (qmap_items sws).*1) as [[i k]|] eqn:Ef.
    + apply list_find_Some in Ef as (Hi & -> & _). simpl. f_equal. by apply (NoDup_lookup _ i a g Hn).
    + apply list_find_None in Ef. rewrite Forall_forall in Ef. by destruct (Ef g (list_elem_of_lookup_2 _ _ _ E)).
Qed.

Lemma sw_keys_dom sws g : g ∈ sw_keys sws ↔ g ∈ dom sws.
Proof.
  unfold sw_keys. rewrite list_elem_of_fmap, elem_of_dom. split.
  - intros ([k v] & -> & H%elem_of_qmap_items). by eexists.
  - intros [v Hv]. exists (g, v). split; [done|]. by apply elem_of_qmap_items.
Qed.

Lemma get_lash_id_dom sws g : g ∈ dom sws ↔ ∃ a, get_lash_id sws g = Some a.
Proof.
  rewrite <- sw_keys_dom, list_elem_of_lookup. apply exist_proper. intros a. symmetry. apply get_lash_id_Some.
Qed.

Lemma grown_length a ls l l' : grown a ls l l' → length l' = length l.
Proof.
  intros H. assert (Hiff : ∀ x, is_Some (l' !! x) ↔ is_Some (l !! x)).
  { intros x. specialize (H x). destruct (l' !! x), (l !! x); try done; split; intros []; done. }
  destruct (lt_eq_lt_dec (length l') (length l)) as [[Hlt|He]|Hlt]; [|done|].
  - apply lookup_lt_is_Some_2, Hiff, lookup_lt_is_Some in Hlt. lia.
  - apply lookup_lt_is_Some_2, Hiff, lookup_lt_is_Some in Hlt. lia.
Qed.

(** The links of the ports of one switch. *)
Lemma process_switch_grown sws l g a s :
  get_lash_id sws g = Some a → l !! a = Some s → length l = length (sw_keys sws) →
  (length (links s) + Z.to_nat (num_physp nodes g - 1) ≤ link_slots s) →
  ∃ l', osm_lash_process_switch nodes false sws l g = Some l' ∧ grown a (port_links sws g) l l'.
Proof.
  intros Hg Es Hlen Hroom. unfold osm_lash_process_switch. rewrite Hg. cbn [mbind option_bind].
  unfold port_links.
  set (step := λ (l : list switch_t) (i : Z), _).
  assert (Hgen : ∀ ps l0 s0, length l0 = length (sw_keys sws) → l0 !! a = Some s0 →
    length (links s0) + length ps ≤ link_slots s0 →
    ∃ l', foldM step ps l0 = Some l' ∧ grown a (i ← ps; port_link sws g i) l0 l').
  - induction ps as [|i ps IH]; intros l0 s0 Hl0 E0 Hr.
    { exists l0. split; [done|]. apply grown_nil. }
    cbn [foldM]. simpl in Hr.
    assert (∃ l1, step l0 i = Some l1 ∧ grown a (port_link sws g i) l0 l1) as (l1 & E1 & G1).
    { unfold step, port_link, remote_id. destruct (physp_at nodes g i ≫= p_remote_physp) as [[r rp]|];
        [|exists l0; split; [done|apply grown_nil]].
      cbn [mbind option_bind]. destruct (get_lash_id sws r) as [b|] eqn:Eb;
        [|exists l0; split; [done|apply grown_nil]].
      apply get_lash_id_Some, lookup_lt_Some in Eb.
      apply (connect_grown l0 a b i s0 E0); lia. }
    rewrite E1. cbn [mbind option_bind].
    pose proof (G1 a) as Ga. rewrite E0 in Ga. destruct (l1 !! a) as [s1|] eqn:E1a; [|done].
    simpl in Ga. rewrite decide_True in Ga by done. apply (inj Some) in Ga.
    assert (Hs1 : length (links s1) ≤ S (length (links s0)) ∧ link_slots s1 = link_slots s0).
    { split; [|apply (f_equal link_slots) in Ga; exact Ga].
      apply (f_equal (λ s, length (links s))) in Ga. unfold bare, add_links in Ga. cbn in Ga.
      rewrite length_app, !length_fmap in Ga. rewrite Ga. unfold port_link. destruct (remote_id _ _ _); simpl; lia. }
    destruct (IH l1 s1) as (l' & E' & G'); [by rewrite (grown_length _ _ _ _ G1)|done|lia|].
    exists l'. split; [exact E'|]. simpl. by apply (grown_app a _ _ l0 l1).
  - apply (Hgen _ l s); [done|done|]. by rewrite length_seqZ.
Qed.

(** The switches as [discover_network_properties] creates them. *)
Definition created sws : list switch_t :=
  imap (λ id g, switch_create (length (sw_keys sws)) id (default (Switch 0 0 [] [] None [] []) (sws !! g)))
    (sw_keys sws).

Definition cabled sws (s r : Z) : Prop := ∃ pn rem, cable nodes (dom sws) s pn r rem.

(** Every cable has two ends, and every switch can be reached from every other. *)
Record fabric_ok sws : Prop := {
  fb_ports : ∀ s sw, sws !! s = Some sw → num_ports sw = num_physp nodes s;
  fb_cables : cables_ok nodes (dom sws);
  fb_conn : ∀ s t, s ∈ dom sws → t ∈ dom sws → rtc (cabled sws) s t
}.

Lemma key_switch sws a g : sw_keys sws !! a = Some g → ∃ sw, sws !! g = Some sw.
Proof. intros H%list_elem_of_lookup_2%sw_keys_dom. by apply elem_of_dom in H. Qed.

Lemma created_lookup sws a g sw :
  sw_keys sws !! a = Some g → sws !! g = Some sw →
  created sws !! a = Some (switch_create (length (sw_keys sws)) a sw).
Proof. intros E Es. unfold created. rewrite list_lookup_imap, E. simpl. rewrite Es. done. Qed.

Lemma created_length sws : length (created sws) = length (sw_keys sws).
Proof. unfold created. by rewrite length_imap. Qed.

(** [num_physp] is a byte. *)
Lemma num_physp_range g : (0 ≤ num_physp nodes g ≤ 255)%Z.
Proof.
  unfold num_physp. destruct (nodes !! g) as [o|]; simpl; [|lia]. unfold u8.
  pose proof (Z.mod_pos_bound (Z.of_nat (length (physp_table o))) (2 ^ 8)). lia.
Qed.

Lemma process_switches_links sws :
  fabric_ok sws → ∃ l, process_switches nodes false sws (created sws) = Some l
    ∧ length l = length (sw_keys sws)
    ∧ ∀ a g sw, sw_keys sws !! a = Some g → sws !! g = Some sw →
        bare <$> l !! a = Some (add_links (port_links sws g) (switch_create (length (sw_keys sws)) a sw)).
Proof.
  intros [Hports _ _].
  assert (Hnd : NoDup (sw_keys sws)) by apply qmap_items_NoDup.
  destruct (foldM_rule (osm_lash_process_switch nodes false sws)
    (λ (dn : list Z) l, length l = length (sw_keys sws)
       ∧ ∀ a g sw, sw_keys sws !! a = Some g → sws !! g = Some sw →
         bare <$> l !! a = Some (let s := switch_create (length (sw_keys sws)) a sw in
                                 if decide (g ∈ dn) then add_links (port_links sws g) s else s))
    (sw_keys sws) (created sws)) as (l & E & Hlen & Hl).
  - split; [apply created_length|]. intros a g sw E Es. rewrite (created_lookup _ _ _ _ E Es).
    by rewrite decide_False by apply not_elem_of_nil.
  - intros l1 g l2 l Ekeys [Hlen Hl].
    assert (Eg : sw_keys sws !! length l1 = Some g) by (rewrite Ekeys; by apply list_lookup_middle).
    destruct (key_switch _ _ _ Eg) as [sw Es].
    assert (Hnew : g ∉ l1) by (rewrite Ekeys in Hnd; apply NoDup_app in Hnd as (_ & Hnd & _);
      intros Hin; apply (Hnd g Hin); left).
    pose proof (Hl _ g sw Eg Es) as Ha. destruct (l !! length l1) as [s|] eqn:E1; [|done].
    simpl in Ha. apply (inj Some) in Ha. rewrite decide_False in Ha by done.
    assert (Hs : links s = [] ∧ link_slots s = Z.to_nat (num_ports sw)).
    { split; [|by apply (f_equal link_slots) in Ha]. apply (f_equal (λ s, length (links s))) in Ha.
      unfold bare in Ha. cbn in Ha. rewrite length_fmap in Ha. by destruct (links s). }
    destruct Hs as [Hs1 Hs2].
    destruct (process_switch_grown sws l g (length l1) s) as (l' & E' & G);
      [by apply get_lash_id_Some|done|done| |].
    { rewrite Hs1, Hs2, (Hports g sw Es). simpl. lia. }
    exists l'. split; [done|]. split; [by rewrite (grown_length _ _ _ _ G)|].
    intros x g' sw' Ex Es'. rewrite (G x). pose proof (Hl x g' sw' Ex Es') as Hx.
    destruct (l !! x) as [sx|]; [|done]. simpl in Hx |- *. apply (inj Some) in Hx. f_equal.
    destruct (decide (x = length l1)) as [->|Hne].
    + rewrite Eg in Ex. injection Ex as <-. rewrite Hx, decide_False by done.
      rewrite decide_True by set_solver. done.
    + assert (g' ≠ g) by (intros ->; apply Hne, (NoDup_lookup _ _ _ _ Hnd Ex Eg)).
      rewrite Hx. destruct (decide (g' ∈ l1)) as [Hin|Hin].
      * by rewrite decide_True by set_solver.
      * by rewrite decide_False by set_solver.
  - exists l. split; [exact E|]. split; [done|]. intros a g sw Eg Es. rewrite (Hl a g sw Eg Es).
    by rewrite decide_True by (by eapply list_elem_of_lookup_2).
Qed.

Lemma elem_port_links sws g k :
  k ∈ port_links sws g → ∃ i b, (1 ≤ i < num_physp nodes g)%Z ∧ remote_id sws g i = Some b ∧ k = Link b 0 0 [i].
Proof.
  unfold port_links. intros (i & Hk & Hi)%list_elem_of_bind. apply elem_of_seqZ in Hi.
  unfold port_link in Hk. destruct (remote_id sws g i) as [b|] eqn:E; [|by apply elem_of_nil in Hk].
  apply list_elem_of_singleton in Hk as ->. exists i, b. split_and!; [lia|lia|done|done].
Qed.

Lemma port_links_elem sws g i b :
  (1 ≤ i < num_physp nodes g)%Z → remote_id sws g i = Some b → Link b 0 0 [i] ∈ port_links sws g.
Proof.
  intros Hi Hb. unfold port_links. apply list_elem_of_bind. exists i. split; [|apply elem_of_seqZ; lia].
  unfold port_link. rewrite Hb. left.
Qed.

Lemma port_links_length sws g : length (port_links sws g) ≤ Z.to_nat (num_physp nodes g - 1).
Proof.
  unfold port_links. rewrite <- (length_seqZ 1 (num_physp nodes g - 1)).
  induction (seqZ 1 (num_physp nodes g - 1)) as [|i l IH]; [done|]. simpl. rewrite length_app.
  assert (H1 : length (port_link sws g i) ≤ 1) by (unfold port_link; destruct (remote_id sws g i); simpl; lia).
  exact (Nat.add_le_mono _ 1 _ _ H1 IH).
Qed.

Lemma remote_id_Some sws g i b :
  remote_id sws g i = Some b ↔ ∃ p r rp, physp_at nodes g i = Some p ∧ p_remote_physp p = Some (r, rp)
    ∧ get_lash_id sws r = Some b.
Proof.
  unfold remote_id. split.
  - destruct (physp_at nodes g i) as [p|]; [|done]. simpl. destruct (p_remote_physp p) as [[r rp]|] eqn:E; [|done].
    simpl. intros H. by exists p, r, rp.
  - intros (p & r & rp & -> & E & H). simpl. by rewrite E.
Qed.

(** What is known of the links of the switches. *)
Definition links_of sws (l : list switch_t) : Prop :=
  length l = length (sw_keys sws)
  ∧ ∀ a g, sw_keys sws !! a = Some g → ∃ s, l !! a = Some s ∧ bare_link <$> links s = port_links sws g.

Lemma links_of_adj sws l a b :
  links_of sws l → adj l a b ↔
  ∃ g r, sw_keys sws !! a = Some g ∧ sw_keys sws !! b = Some r ∧ cabled sws g r.
Proof.
  intros [Hlen H]. split.
  - intros (s & k & Es & Hk & <-). pose proof (lookup_lt_Some _ _ _ Es) as Ha. rewrite Hlen in Ha.
    destruct (lookup_lt_is_Some_2 _ _ Ha) as [g Eg]. destruct (H a g Eg) as (s' & Es' & Hl).
    rewrite Es in Es'. injection Es' as <-.
    assert (Hb : bare_link k ∈ port_links sws g) by (rewrite <- Hl; by apply list_elem_of_fmap_2).
    apply elem_port_links in Hb as (i & b & Hi & Hb & Ek).
    apply remote_id_Some in Hb as (p & r & rp & Hp & Hr & Hid).
    replace (l_switch_id k) with b by (by apply (f_equal l_switch_id) in Ek).
    exists g, r. split; [done|]. split; [by apply get_lash_id_Some|]. exists i, rp.
    split_and!; [by apply sw_keys_dom, (list_elem_of_lookup_2 _ a)|lia|lia| |by exists p].
    apply get_lash_id_dom. by exists b.
  - intros (g & r & Eg & Er & pn & rem & Hg & Hpn & Hr & p & Hp & Hpr).
    destruct (H a g Eg) as (s & Es & Hl).
    assert (Hin : Link b 0 0 [pn] ∈ port_links sws g).
    { apply port_links_elem; [done|]. apply remote_id_Some. exists p, r, rem.
      split_and!; [done|done|by apply get_lash_id_Some]. }
    rewrite <- Hl in Hin. apply list_elem_of_fmap in Hin as (k & Ek & Hk).
    exists s, k. split_and!; [done|done|by apply (f_equal l_switch_id) in Ek].
Qed.

Lemma links_of_conn sws l : fabric_ok sws → links_of sws l → connected l.
Proof.
  intros Hf Hl a b Ha Hb. destruct Hl as [Hlen Hl']. rewrite Hlen in Ha, Hb.
  destruct (lookup_lt_is_Some_2 _ _ Ha) as [g Eg], (lookup_lt_is_Some_2 _ _ Hb) as [r Er].
  pose proof (fb_conn _ Hf g r) as Hconn.
  specialize (Hconn ltac:(apply sw_keys_dom; by eapply list_elem_of_lookup_2)
                    ltac:(apply sw_keys_dom; by eapply list_elem_of_lookup_2)).
  revert a Ha Eg. induction Hconn as [g|g h r Hgh _ IH]; intros a Ha Eg.
  - assert (a = b) as -> by (apply (NoDup_lookup (sw_keys sws) a b g); [apply qmap_items_NoDup|done|done]).
    done.
  - assert (Hh : h ∈ dom sws) by (destruct Hgh as (pn & rem & _ & _ & Hh & _); done).
    apply get_lash_id_dom in Hh as [c Ec]. apply get_lash_id_Some in Ec.
    apply rtc_l with c; [|apply IH; [done|by apply lookup_lt_Some in Ec|done]].
    apply (links_of_adj sws l a c); [done|]. by exists g, h.
Qed.

(** The subnet as the engine sees it. *)
Lemma process_switches_network sws :
  fabric_ok sws → ∃ l, process_switches nodes false sws (created sws) = Some l
    ∧ length l = length (sw_keys sws) ∧ network l ∧ links_of sws l.
Proof.
  intros Hf. destruct (process_switches_links sws Hf) as (l & E & Hlen & Hl).
  assert (Hlo : links_of sws l).
  { split; [done|]. intros a g Eg. destruct (key_switch _ _ _ Eg) as [sw Es].
    specialize (Hl a g sw Eg Es). destruct (l !! a) as [s|]; [|done]. exists s. split; [done|].
    simpl in Hl. apply (inj Some), (f_equal links) in Hl. exact Hl. }
  assert (Hsw : ∀ a s, l !! a = Some s → ∃ g sw, sw_keys sws !! a = Some g ∧ sws !! g = Some sw
    ∧ bare s = add_links (port_links sws g) (switch_create (length (sw_keys sws)) a sw)).
  { intros a s Es. pose proof (lookup_lt_Some _ _ _ Es) as Ha. rewrite Hlen in Ha.
    destruct (lookup_lt_is_Some_2 _ _ Ha) as [g Eg]. destruct (key_switch _ _ _ Eg) as [sw Esw].
    exists g, sw. specialize (Hl a g sw Eg Esw). rewrite Es in Hl. simpl in Hl; by apply (inj Some) in Hl. }
  exists l. split; [done|]. split; [done|]. split; [|done]. split.
  - intros a s Es. destruct (Hsw a s Es) as (g & sw & Eg & Esw & Hb).
    assert (Hlinks : length (links s) ≤ Z.to_nat (num_physp nodes g - 1)).
    { pose proof (port_links_length sws g) as H. apply (f_equal (λ s, length (links s))) in Hb.
      unfold bare, add_links in Hb. cbn in Hb. rewrite length_fmap in Hb. lia. }
    pose proof (num_physp_range g). split_and!.
    + by apply (f_equal sw_id) in Hb.
    + apply (f_equal (λ s, length (routing_table s))) in Hb. unfold bare, add_links in Hb. cbn in Hb.
      rewrite Hb, Hlen. apply length_replicate.
    + apply (f_equal (λ s, length (dij_channels s))) in Hb. unfold bare, add_links in Hb. cbn in Hb.
      rewrite Hb, length_replicate, (fb_ports _ Hf g sw Esw). lia.
    + lia.
    + intros k Hk. destruct (proj1 (links_of_adj sws l a (l_switch_id k) Hlo)) as (_ & r & _ & Er & _);
        [by exists s, k|]. apply lookup_lt_Some in Er. lia.
  - intros a s Es. destruct (Hsw a s Es) as (g & sw & _ & _ & Hb).
    split; [by apply (f_equal q_st) in Hb|by apply (f_equal used_channels) in Hb].
  - intros a d e He. unfold out_link in He. destruct (l !! a) as [s|] eqn:Es; [|done].
    destruct (Hsw a s Es) as (g & sw & _ & _ & Hb). cbn [mbind option_bind] in He.
    apply (f_equal routing_table) in Hb. change (routing_table (bare s)) with (routing_table s) in Hb.
    rewrite Hb in He. unfold add_links, switch_create in He. cbn in He.
    destruct (replicate _ _ !! d) as [x|] eqn:Ex; [|done].
    apply lookup_replicate_1 in Ex as [-> _]. by injection He.
  - intros a b (g & r & Eg & Er & pn & rem & Hc)%(links_of_adj sws l a b Hlo).
    apply (links_of_adj sws l b a Hlo). exists r, g. split_and!; [done|done|]. exists rem, pn.
    by apply (fb_cables _ Hf).
  - by apply (links_of_conn sws).
Qed.

(** ** The forwarding tables *)

Variable port_lid_tbl : list (option osm_port).

(** The switch that a LID leads to, with the port there. *)
Definition lid_target sws (lid : Z) : option (Z * Z) :=
  osm_get_port_by_lid_ho port_lid_tbl lid ≫= get_osm_switch_from_port nodes sws.

(** Port [e] of switch [g] leads to the next switch on the route to [d]. *)
Definition next_port sws (l : list switch_t) (g : Z) (a d : nat) (e : Z) : Prop :=
  (1 ≤ e < num_physp nodes g)%Z ∧ ∃ b z, remote_id sws g e = Some b
    ∧ out_link l a d = Some z ∧ get_next_switch l a z = Some b.

(** What switch [g] must do with a LID. *)
Definition entry_ok sws (l : list switch_t) (g : Z) (a : nat) (lid e : Z) : Prop :=
  ∀ t egress, lid_target sws lid = Some (t, egress) →
  if decide (t = g) then e = egress
  else ∃ d, get_lash_id sws t = Some d ∧ next_port sws l g a d e.

Lemma get_next_port_ok sws g sw k x :
  bare_link <$> links sw = port_links sws g → links sw !! k = Some x →
  ∃ i, get_next_port sw k = Some (i, sw) ∧ (1 ≤ i < num_physp nodes g)%Z
    ∧ remote_id sws g i = Some (l_switch_id x).
Proof.
  intros Hl Ex. assert (Hb : bare_link x ∈ port_links sws g).
  { rewrite <- Hl. apply list_elem_of_fmap_2. by eapply list_elem_of_lookup_2. }
  apply elem_port_links in Hb as (i & b & Hi & Hb & E). exists i.
  assert (En : l_next_port x = 0) by (by apply (f_equal l_next_port) in E).
  assert (Ep : l_ports x = [i]) by (by apply (f_equal l_ports) in E).
  assert (Eb : l_switch_id x = b) by (by apply (f_equal l_switch_id) in E).
  rewrite Eb. split_and!; [|lia|lia|done].
  unfold get_next_port. rewrite Ex. cbn [mbind option_bind]. rewrite Ep, En. cbn. f_equal. f_equal.
  rewrite list_insert_id; [by destruct sw|]. rewrite Ex. destruct x. cbn in *. by subst.
Qed.

Lemma lid_target_dom sws lid t egress : lid_target sws lid = Some (t, egress) → t ∈ dom sws.
Proof.
  unfold lid_target. destruct (osm_get_port_by_lid_ho _ _) as [q|]; [|done]. cbn [mbind option_bind].
  unfold get_osm_switch_from_port. destruct (bool_decide_reflect (pt_node q ∈ dom sws)) as [Hq|_];
    [by intros [= <- _]|].
  destruct (pt_physp q) as [num|]; [|done]. cbn [mbind option_bind].
  destruct (nodes !! pt_node q) as [nd|]; [|done]. cbn [mbind option_bind].
  destruct (physp_table nd !! Z.to_nat num) as [p|]; [|done]. cbn [mbind option_bind].
  destruct (p_remote_physp p) as [[r rp]|]; [|done]. cbn [mbind option_bind].
  destruct (bool_decide_reflect (r ∈ dom sws)); [by intros [= <- _]|done].
Qed.

Section Populate.
Variable sws : gmap Z osm_switch.
Variable l : list switch_t.
Hypothesis Hl : links_of sws l.
Hypothesis Hr : routes_ok l.
Hypothesis Hslots : ∀ a s, l !! a = Some s → length (routing_table s) = length l.

(** One LID. *)
Lemma populate_lid_ok g a s tbl lid :
  get_lash_id sws g = Some a → l !! a = Some s → Z.to_nat lid < length tbl →
  ∃ tbl', populate_lid nodes port_lid_tbl sws g (tbl, s) lid = Some (tbl', s)
    ∧ length tbl' = length tbl ∧ (∀ j, j ≠ Z.to_nat lid → tbl' !!! j = tbl !!! j)
    ∧ entry_ok sws l g a lid (tbl' !!! Z.to_nat lid).
Proof.
  intros Hg Es Hlid. unfold populate_lid. fold (lid_target sws lid). unfold entry_ok.
  destruct (lid_target sws lid) as [[t egress]|] eqn:Et; [|by exists tbl].
  apply Nat.ltb_lt in Hlid as Hlt. rewrite Hlt. cbn [check mbind option_bind].
  destruct (Z.eqb_spec t g) as [->|Hne].
  - eexists. split; [done|]. split; [by rewrite length_insert|]. split.
    + intros j Hj. by rewrite list_lookup_total_insert_ne.
    + intros ? ? [= <- <-]. rewrite decide_True by done. by apply list_lookup_total_insert_eq.
  - pose proof (lid_target_dom _ _ _ _ Et) as Ht. apply get_lash_id_dom in Ht as [d Hd]. rewrite Hd.
    cbn [mbind option_bind].
    assert (Hrange : a < length l ∧ d < length l).
    { destruct Hl as [-> _]. apply get_lash_id_Some, lookup_lt_Some in Hd, Hg. done. }
    assert (Had : a ≠ d).
    { intros ->. apply get_lash_id_Some in Hd, Hg. rewrite Hg in Hd. by injection Hd. }
    destruct (Hr a d) as [_ Hgood]; [lia|lia|]. destruct (Hgood Had) as (z & Hz & Hzr & b & k & Hb & _ & _).
    unfold out_link in Hz. rewrite Es in Hz. cbn [mbind option_bind] in Hz.
    destruct (routing_table s !! d) as [e|] eqn:Ee; [|done]. injection Hz as Hz. cbn [mbind option_bind].
    rewrite u8_small by lia. rewrite Hz.
    unfold get_next_switch in Hb. rewrite Es in Hb. cbn [mbind option_bind] in Hb.
    destruct (links s !! Z.to_nat z) as [x|] eqn:Ex; [|done]. injection Hb as Hb.
    destruct Hl as [_ Hl']. pose proof Hg as Eg. apply get_lash_id_Some in Eg.
    destruct (Hl' a g Eg) as (s' & Es' & Hbare). rewrite Es in Es'. injection Es' as <-.
    destruct (get_next_port_ok sws g s (Z.to_nat z) x Hbare Ex) as (i & -> & Hi & Hib). cbn [mbind option_bind].
    eexists. split; [done|]. split; [by rewrite length_insert|]. split.
    + intros j Hj. by rewrite list_lookup_total_insert_ne.
    + intros ? ? [= <- <-]. rewrite decide_False by done. exists d. split; [done|].
      rewrite list_lookup_total_insert_eq by done. split; [done|]. exists b, z.
      rewrite <- Hb. split_and!; [done| |].
      * unfold out_link. rewrite Es. cbn [mbind option_bind]. rewrite Ee. cbn [mbind option_bind]. by rewrite Hz.
      * unfold get_next_switch. rewrite Es. cbn [mbind option_bind]. by rewrite Ex.
Qed.

(** All LIDs of a switch. *)
Lemma populate_table_ok g a s m tbl :
  get_lash_id sws g = Some a → l !! a = Some s → (m < Z.of_nat (length tbl))%Z →
  ∃ tbl', foldM (populate_lid nodes port_lid_tbl sws g) (seqZ 1 m) (tbl, s) = Some (tbl', s)
    ∧ length tbl' = length tbl
    ∧ ∀ lid, (1 ≤ lid ≤ m)%Z → entry_ok sws l g a lid (tbl' !!! Z.to_nat lid).
Proof.
  intros Hg Es Hm.
  destruct (foldM_rule (populate_lid nodes port_lid_tbl sws g)
    (λ (dn : list Z) st, st.2 = s ∧ length st.1 = length tbl
       ∧ ∀ lid, lid ∈ dn → entry_ok sws l g a lid (st.1 !!! Z.to_nat lid))
    (seqZ 1 m) (tbl, s)) as ([tbl' s'] & E & Hs & Hlen & Hok).
  - split_and!; [done|done|]. by intros lid ?%elem_of_nil.
  - intros l1 lid l2 [tbl1 s1] El (Hs1 & Hlen1 & Hok1). simpl in *. subst s1.
    assert (Hlid : lid ∈ seqZ 1 m) by (rewrite El; set_solver). apply elem_of_seqZ in Hlid.
    destruct (populate_lid_ok g a s tbl1 lid Hg Es) as (tbl2 & E2 & Hlen2 & Hrest & Hnew); [lia|].
    exists (tbl2, s). split; [done|]. split; [done|]. split; [simpl; lia|].
    intros lid' [Hin| ->%list_elem_of_singleton]%elem_of_app; [|done]. simpl.
    assert (Hnd : NoDup (seqZ 1 m)) by apply NoDup_seqZ. rewrite El in Hnd.
    assert (Hne : lid' ≠ lid).
    { intros ->. apply NoDup_app in Hnd as (_ & Hnd & _). apply (Hnd lid Hin). left. }
    assert (Hlid' : lid' ∈ seqZ 1 m) by (rewrite El; set_solver). apply elem_of_seqZ in Hlid'.
    rewrite Hrest by lia. by apply Hok1.
  - simpl in *. subst s'. exists tbl'. split_and!; [done|done|]. intros lid Hlid. apply Hok, elem_of_seqZ. lia.
Qed.

(** *** All switches *)

(** The routes of a switch are in its table. *)
Definition table_done (sws' : gmap Z osm_switch) (g : Z) : Prop :=
  ∃ sw sw', sws !! g = Some sw ∧ sws' !! g = Some sw' ∧ ∀ a lid, get_lash_id sws g = Some a →
    (1 ≤ lid ≤ max_lid_ho sw)%Z → entry_ok sws l g a lid (new_lft sw' !!! Z.to_nat lid).

Lemma populate_fwd_tbls_ok :
  (∀ g sw, sws !! g = Some sw → (max_lid_ho sw < Z.of_nat (length (lft sw)))%Z) →
  ∃ sws', populate_fwd_tbls nodes port_lid_tbl sws l = Some (l, sws') ∧ dom sws' = dom sws
    ∧ ∀ g, g ∈ dom sws → table_done sws' g.
Proof.
  intros Hlft. assert (Hnd : NoDup (sw_keys sws)) by apply qmap_items_NoDup.
  destruct (foldM_rule (populate_switch nodes port_lid_tbl sws)
    (λ (dn : list Z) st, st.1 = l ∧ dom st.2 = dom sws ∧ (∀ g, g ∈ dn → table_done st.2 g)
       ∧ ∀ g, g ∉ dn → st.2 !! g = sws !! g)
    (sw_keys sws) (l, sws)) as ([l' sws'] & E & Hl' & Hdom & Hdone & _).
  - split_and!; [done|done| |done]. by intros g ?%elem_of_nil.
  - intros l1 g l2 [l' sws1] Ek (Hl1 & Hd1 & Hdone1 & Hrest1). cbn [fst snd] in *. subst l'.
    assert (Eg : sw_keys sws !! length l1 = Some g) by (rewrite Ek; by apply list_lookup_middle).
    assert (Hg : g ∉ l1).
    { rewrite Ek in Hnd. apply NoDup_app in Hnd as (_ & Hnd & _). intros Hin. apply (Hnd g Hin). left. }
    destruct (key_switch _ _ _ Eg) as [sw Esw]. pose proof Hl as [_ Hl2].
    destruct (Hl2 _ g Eg) as (s & Es & _). apply get_lash_id_Some in Eg.
    unfold populate_switch. cbn [fst snd]. rewrite Hrest1, Esw by done. cbn [mbind option_bind]. rewrite Eg.
    cbn [mbind option_bind]. rewrite Es. cbn [mbind option_bind].
    destruct (populate_table_ok g (length l1) s (max_lid_ho sw) (replicate (length (lft sw)) OSM_NO_PATH) Eg Es)
      as (tbl & -> & _ & Hok); [rewrite length_replicate; by apply (Hlft g)|]. cbn [mbind option_bind].
    eexists. split; [done|]. cbn [fst snd]. split; [by apply list_insert_id|]. split; [|split].
    + rewrite dom_insert_L, Hd1. apply elem_of_dom_2 in Esw. set_solver.
    + intros g' [Hin| ->%list_elem_of_singleton]%elem_of_app.
      * assert (g' ≠ g) by (intros ->; done). destruct (Hdone1 g' Hin) as (x & x' & E1 & E2 & Hx).
        exists x, x'. split_and!; [done| |done]. by rewrite lookup_insert_ne.
      * eexists sw, _. split; [done|]. split; [by rewrite lookup_insert_eq|]. intros a lid Ha Hlid. simpl.
        rewrite Eg in Ha. injection Ha as <-. by apply Hok.
    + intros g' Hg'. rewrite lookup_insert_ne by set_solver. apply Hrest1. set_solver.
  - cbn [fst snd] in *. subst l'. exists sws'. split_and!; [exact E|done|].
    intros g Hg. by apply Hdone, sw_keys_dom.
Qed.

(** *** Following the tables *)

Lemma attached_lid q t lid :
  osm_get_port_by_lid_ho port_lid_tbl lid = Some q → attached nodes (dom sws) q t →
  ∃ egress, lid_target sws lid = Some (t, egress)
    ∧ ((pt_node q ∈ dom sws ∧ pt_node q = t ∧ egress = 0%Z)
       ∨ (pt_node q ∉ dom sws ∧ (1 ≤ egress < OSM_NO_PATH)%Z ∧ ∃ p' num, pt_physp q = Some num
            ∧ physp_at nodes t egress = Some p' ∧ p_remote_physp p' = Some (pt_node q, num))).
Proof.
  intros Hq [Ht [[Hn _]|(Hn & num & nd & p & rp & p' & E1 & E2 & E3 & E4 & Hrp & E5 & E6)]];
    unfold lid_target, get_osm_switch_from_port; rewrite Hq; cbn [mbind option_bind].
  - rewrite bool_decide_true by (by rewrite Hn). exists 0%Z. rewrite Hn. split; [done|]. left. by rewrite <- Hn in *.
  - rewrite bool_decide_false by done. rewrite E1. cbn [mbind option_bind]. rewrite E2. cbn [mbind option_bind].
    rewrite E3. cbn [mbind option_bind]. rewrite E4. cbn [mbind option_bind]. rewrite bool_decide_true by done.
    exists rp. split; [done|]. right. split_and!; [done|lia|lia|]. by exists p', num.
Qed.

Lemma forward_delivers sws' q t lid d :
  dom sws' = dom sws → (∀ g, g ∈ dom sws → table_done sws' g) →
  osm_get_port_by_lid_ho port_lid_tbl lid = Some q → attached nodes (dom sws) q t →
  (∀ g sw, sws !! g = Some sw → (1 ≤ lid ≤ max_lid_ho sw)%Z) → get_lash_id sws t = Some d →
  ∀ k fuel s a, get_lash_id sws s = Some a → dist l k a d → k < fuel →
  forward nodes sws' lid fuel s = destination (dom sws) q.
Proof.
  intros Hdom Hdone Hq Hat Hlid Hd. destruct (attached_lid q t lid Hq Hat) as (egress & Htgt & Heg).
  induction k as [|k IH]; intros fuel s a Ha Hdist Hf; (destruct fuel as [|fuel]; [lia|]);
    assert (Hs : s ∈ dom sws) by (apply get_lash_id_dom; by exists a);
    destruct (Hdone s Hs) as (sw & sw' & Esw & Esw' & Hent);
    specialize (Hent a lid Ha (Hlid s sw Esw) t egress Htgt); cbn [forward]; rewrite Esw'; cbv zeta.
  - apply dist_zero in Hdist as ->. apply get_lash_id_Some in Ha, Hd. rewrite Ha in Hd. injection Hd as ->.
    rewrite decide_True in Hent by done. rewrite Hent.
    destruct Heg as [(Hin & Hn & ->)|(Hn & Hrange & p' & num & Ep & E5 & E6)].
    + simpl. unfold destination. rewrite decide_True by done. by rewrite Hn.
    + destruct (Z.eqb_spec egress OSM_NO_PATH), (Z.eqb_spec egress 0); try lia.
      rewrite E5. cbn [mbind option_bind]. rewrite E6, Hdom, bool_decide_false by done.
      unfold destination. by rewrite decide_False, Ep by done.
  - assert (Hne : t ≠ s).
    { intros ->. rewrite Ha in Hd. injection Hd as ->. by apply dist_self in Hdist. }
    rewrite decide_False in Hent by done. destruct Hent as (d' & Hd' & He & b & z & Hb & Hz & Hzb).
    rewrite Hd in Hd'. injection Hd' as <-.
    pose proof (num_physp_range s). unfold OSM_NO_PATH in *.
    destruct (Z.eqb_spec (new_lft sw' !!! Z.to_nat lid) 255), (Z.eqb_spec (new_lft sw' !!! Z.to_nat lid) 0); try lia.
    apply remote_id_Some in Hb as (p & r & rp & Hp & Hpr & Hid).
    rewrite Hp. cbn [mbind option_bind]. rewrite Hpr, Hdom.
    rewrite bool_decide_true by (apply get_lash_id_dom; by exists b).
    apply (IH fuel r b Hid); [|lia].
    assert (Hla : a < length l ∧ d < length l).
    { destruct Hl as [-> _]. apply get_lash_id_Some, lookup_lt_Some in Hd, Ha. done. }
    destruct (Hr a d) as [_ Hgood]; [lia|lia|].
    destruct (Hgood ltac:(intros ->; by apply dist_self in Hdist)) as (z' & Hz' & _ & b' & m & Hb' & D1 & D2).
    rewrite Hz in Hz'. injection Hz' as <-. rewrite Hzb in Hb'. injection Hb' as <-.
    pose proof (dist_unique _ _ _ _ _ Hdist D1). by replace k with m by lia.
Qed.
End Populate.
End Fabric.

(** ** [lash_process] *)

Section Engine.
Context {BO : ByteOrder}.
Variable nodes : gmap Z osm_node.
Variable op_vls : Z → Z → Z.
Variable port_lid_tbl : list (option osm_port).
Variable start_vl : Z.
Variable rnd : nat → Z.
Implicit Types sws : gmap Z osm_switch.

Notation process := (lash_process nodes op_vls port_lid_tbl false start_vl rnd).

(** The lanes a subnet has room for. *)
Definition subnet_vls sws : Z :=
  let vl := u8 (Z.shiftl 1 (min_op_vls nodes op_vls sws - 1)) in if (15 <? vl)%Z then 15%Z else vl.

Lemma discover_eq sws p :
  discover_network_properties nodes op_vls start_vl sws p
  = (let p := p <| switches := created sws |> in
     if (subnet_vls sws <=? start_vl)%Z then ((-1)%Z, p)
     else (0%Z, p <| vl_min := Z.to_nat (subnet_vls sws - start_vl) |>)).
Proof. done. Qed.

Lemma subnet_vls_range sws : (0 ≤ subnet_vls sws ≤ 15)%Z.
Proof.
  unfold subnet_vls. assert (H : (0 ≤ u8 (Z.shiftl 1 (min_op_vls nodes op_vls sws - 1)))%Z).
  { unfold u8. apply Z.mod_pos_bound. lia. }
  cbv zeta. destruct (Z.ltb_spec 15 (u8 (Z.shiftl 1 (min_op_vls nodes op_vls sws - 1)))); lia.
Qed.

Lemma lash_exit_Some status p sws r :
  lash_exit status p sws = Some r →
  ∃ p', r = (status, p', sws) ∧ switches p' = switches p ∧ vl_min p' = vl_min p
    ∧ (vl_min p ≠ 0 → allocated p' = false).
Proof.
  unfold lash_exit. destruct (Nat.eqb_spec (vl_min p) 0) as [E|E].
  - intros [= <-]. by exists p.
  - unfold free_lash_structures. destruct (allocated p); [|done]. intros [= <-]. by eexists.
Qed.

(** What the engine leaves when it is done. *)
Record engine_ok sws (p' : lash_t) (sws' : gmap Z osm_switch) (l : list switch_t) : Prop := {
  eo_links : links_of nodes sws l;
  eo_routes : routes_ok l;
  eo_free : deadlock_free l;
  eo_switches : switches p' = l;
  eo_dom : dom sws' = dom sws;
  eo_tables : ∀ g, g ∈ dom sws → table_done nodes port_lid_tbl sws l sws' g;
  eo_lane : ∀ a d, a < length l → d < length l → a ≠ d →
    ∃ z, lane_at l a d = Some z ∧ (start_vl ≤ z < 16)%Z;
  eo_vl : vl_min p' ≠ 0;
  eo_freed : allocated p' = false
}.

Lemma links_of_shape sws l l' :
  links <$> l' = links <$> l → links_of nodes sws l → links_of nodes sws l'.
Proof.
  intros E [Hlen H]. split.
  - apply (f_equal length) in E. rewrite !length_fmap in E. congruence.
  - intros a g Eg. destruct (H a g Eg) as (s & Es & Hs). apply (f_equal (.!! a)) in E.
    rewrite !list_lookup_fmap, Es in E. destruct (l' !! a) as [s'|]; [|done]. exists s'. split; [done|].
    simpl in E. apply (inj Some) in E. by rewrite E.
Qed.

Lemma process_ok fuel sws p p' sws' :
  fabric_ok nodes sws → (0 ≤ start_vl)%Z →
  (∀ g sw, sws !! g = Some sw → (max_lid_ho sw < Z.of_nat (length (lft sw)))%Z) →
  process fuel sws p = Some (0%Z, p', sws') → ∃ l, engine_ok sws p' sws' l.
Proof.
  intros Hf Hstart Hlft H. unfold lash_process in H. rewrite discover_eq in H. cbv zeta in H.
  destruct (Z.leb_spec (subnet_vls sws) start_vl) as [Hle|Hlt]; [by apply lash_exit_Some in H as (? & [= ] & _)|].
  cbn [Z.eqb negb] in H.
  destruct (process_switches_network nodes sws Hf) as (l & El & Hlen & Hnet & Hlinks).
  change (switches (init_lash_structures _)) with (created sws) in H. rewrite El in H. cbn [mbind option_bind] in H.
  match type of H with (lash_core _ _ _ _ ?q ≫= _) = _ => set (p1 := q) in H end.
  assert (Hun : untouched p1).
  { pose proof (subnet_vls_range sws). split; try done. unfold p1. simpl. unfold IB_MAX_NUM_VLS. lia. }
  destruct (lash_core (length l) start_vl rnd fuel p1) as [[st p2]|] eqn:Ec; [|done]. cbn [mbind option_bind] in H.
  destruct (Z.eqb_spec st 0) as [->|Hst]; cbn [negb] in H; [|by apply lash_exit_Some in H as (? & [= ] & _)].
  pose proof (lash_core_ok start_vl rnd fuel p1 p2 Hnet Hun Ec) as [Hfree Hroutes Hlk Hslots Hvl Hlane].
  pose proof (links_of_shape sws l (switches p2) Hlk Hlinks) as Hlinks2.
  pose proof (f_equal length Hlk) as Hlen2. rewrite !length_fmap in Hlen2. change (switches p1) with l in *.
  destruct (populate_fwd_tbls_ok nodes port_lid_tbl sws (switches p2) Hlinks2 Hroutes Hslots Hlft)
    as (sws2 & Ep & Hdom & Hdone).
  rewrite Ep in H. cbn [mbind option_bind] in H.
  apply lash_exit_Some in H as (p3 & [= <- <-] & Es & Ev & Ha). simpl in Es, Ev, Ha.
  pose proof (subnet_vls_range sws) as Hrange.
  assert (Hv1 : vl_min p1 = Z.to_nat (subnet_vls sws - start_vl)) by done.
  exists (switches p2). split; try done.
  - intros a d Ha' Hd' Hne. destruct (Hlane a d) as (k & Hk & Hz); [lia|lia|done|]. eexists. split; [exact Hz|]. lia.
  - rewrite Ev, Hvl, Hv1. lia.
  - apply Ha. rewrite Hvl, Hv1. lia.
Qed.

(** The service level that the SA gives for a path between two switches. *)
Lemma get_lash_sl_lane sws p' sws' l slid dlid q1 q2 s t :
  (0 ≤ start_vl)%Z → engine_ok sws p' sws' l →
  osm_get_port_by_lid_ho port_lid_tbl (cl_ntoh16 slid) = Some q1 → attached nodes (dom sws) q1 s →
  osm_get_port_by_lid_ho port_lid_tbl (cl_ntoh16 dlid) = Some q2 → attached nodes (dom sws) q2 t →
  s ≠ t →
  ∃ a d z, get_lash_id sws s = Some a ∧ get_lash_id sws t = Some d ∧ lane_at l a d = Some z
    ∧ get_lash_sl nodes port_lid_tbl start_vl sws true p' slid dlid = z.
Proof.
  intros Hstart He H1 A1 H2 A2 Hne.
  destruct (attached_lid nodes port_lid_tbl sws q1 s _ H1 A1) as (e1 & T1 & _).
  destruct (attached_lid nodes port_lid_tbl sws q2 t _ H2 A2) as (e2 & T2 & _).
  unfold lid_target in T1, T2. rewrite H1 in T1. rewrite H2 in T2. cbn [mbind option_bind] in T1, T2.
  destruct A1 as [Hs _], A2 as [Ht _]. apply get_lash_id_dom in Hs as [a Ha], Ht as [d Hd].
  assert (Had : a ≠ d).
  { intros ->. apply get_lash_id_Some in Ha, Hd. rewrite Ha in Hd. by injection Hd. }
  assert (Hrange : a < length l ∧ d < length l).
  { destruct (eo_links _ _ _ _ He) as [-> _].
    apply get_lash_id_Some, lookup_lt_Some in Ha. by apply get_lash_id_Some, lookup_lt_Some in Hd. }
  destruct (eo_lane _ _ _ _ He a d) as (z & Hz & Hzr); [lia|lia|done|].
  exists a, d, z. split_and!; [done..|]. unfold get_lash_sl. rewrite H1, H2. cbn [mbind option_bind].
  rewrite T2. cbn [mbind option_bind]. rewrite Hd. cbn [mbind option_bind]. rewrite T1. cbn [mbind option_bind].
  rewrite Ha. cbn [mbind option_bind]. apply Nat.eqb_neq in Had. rewrite Had, (eo_switches _ _ _ _ He).
  unfold lane_at in Hz. destruct (l !! a) as [x|]; [|done]. cbn [mbind option_bind] in Hz |- *.
  destruct (routing_table x !! d) as [e|]; [|done]. cbn [mbind option_bind] in Hz. injection Hz as <-.
  cbn [from_option]. apply u8_small. lia.
Qed.
End Engine.

(** C2. When [lash_process] succeeds on a connected subnet, a packet for a LID reaches the
    port that has the LID from every switch, in at most one step per switch, and on no
    lane do the channels of the routes wait for each other in a circle.  At every switch
    on the way the table entry is the next channel of the route the lanes were assigned
    for, and the path has a lane of its own: the service level that
    [get_lash_sl] gives for it is that of the pair of switches. *)
Theorem lash_process_delivers {BO : ByteOrder} nodes op_vls port_lid_tbl start_vl rnd fuel sws p p' sws' :
  fabric_ok nodes sws → (0 ≤ start_vl)%Z →
  (∀ g sw, sws !! g = Some sw → (max_lid_ho sw < Z.of_nat (length (lft sw)))%Z) →
  lash_process nodes op_vls port_lid_tbl false start_vl rnd fuel sws p = Some (0%Z, p', sws') →
  deadlock_free (switches p')
  ∧ (∀ q t lid s, osm_get_port_by_lid_ho port_lid_tbl lid = Some q → attached nodes (dom sws) q t →
       (∀ g sw, sws !! g = Some sw → (1 ≤ lid ≤ max_lid_ho sw)%Z) → s ∈ dom sws →
       forward nodes sws' lid (S (length (sw_keys sws))) s = destination (dom sws) q
       ∧ (s ≠ t → ∃ a d sw', get_lash_id sws s = Some a ∧ get_lash_id sws t = Some d ∧ sws' !! s = Some sw'
            ∧ next_port nodes sws (switches p') s a d (new_lft sw' !!! Z.to_nat lid)))
  ∧ ∀ slid dlid q1 q2 s t,
      osm_get_port_by_lid_ho port_lid_tbl (cl_ntoh16 slid) = Some q1 → attached nodes (dom sws) q1 s →
      osm_get_port_by_lid_ho port_lid_tbl (cl_ntoh16 dlid) = Some q2 → attached nodes (dom sws) q2 t → s ≠ t →
      ∃ a d z, get_lash_id sws s = Some a ∧ get_lash_id sws t = Some d ∧ lane_at (switches p') a d = Some z
        ∧ get_lash_sl nodes port_lid_tbl start_vl sws true p' slid dlid = z.
Proof.
  intros Hf Hstart Hlft H. destruct (process_ok _ _ _ _ _ _ _ _ _ _ Hf Hstart Hlft H) as (l & He).
  pose proof (eo_switches _ _ _ _ _ _ _ He) as El. rewrite El. split; [apply He|]. split.
  - intros q t lid s Hq Hat Hlid Hs. pose proof (eo_links _ _ _ _ _ _ _ He) as Hl.
    pose proof (eo_routes _ _ _ _ _ _ _ He) as Hr.
    destruct (proj1 (get_lash_id_dom sws s) Hs) as [a Ha].
    destruct (proj1 (get_lash_id_dom sws t) (proj1 Hat)) as [d Hd].
    assert (Hrange : a < length l ∧ d < length l).
    { destruct Hl as [-> _]. apply get_lash_id_Some, lookup_lt_Some in Ha, Hd. done. }
    split.
    + destruct (Hr a d) as [(k & Hk & Hdist) _]; [lia|lia|].
      apply (forward_delivers nodes port_lid_tbl sws l Hl Hr sws' q t lid d) with (k := k) (a := a); try done.
      * apply He.
      * apply He.
      * destruct Hl as [<- _]. lia.
    + intros Hne. destruct (eo_tables _ _ _ _ _ _ _ He s Hs) as (sw & sw' & Esw & Esw' & Hent).
      exists a, d, sw'. split_and!; [done..|].
      destruct (attached_lid nodes port_lid_tbl sws q t lid Hq Hat) as (egress & Htgt & _).
      specialize (Hent a lid Ha (Hlid s sw Esw) t egress Htgt). rewrite decide_False in Hent by congruence.
      destruct Hent as (d' & Hd' & Hnext). congruence.
  - intros slid dlid q1 q2 s t. by apply (get_lash_sl_lane nodes port_lid_tbl start_vl sws p' sws' l).
Qed.

(** An engine that has routed once does not survive a run that fails early.  A run
    that got as far as its arrays frees them and keeps [vl_min]; when a later run ends in
    [discover_network_properties], because a link leaves no lane above [lash_start_vl],
    [lash_process] frees the arrays of the former run again. *)
Theorem lash_process_stale {BO : ByteOrder} nodes op_vls port_lid_tbl mesh start_vl rnd fuel sws p st p' sws' :
  lash_process nodes op_vls port_lid_tbl mesh start_vl rnd fuel sws p = Some (st, p', sws') →
  vl_min p' ≠ 0 →
  ∀ nodes2 op_vls2 port_lid_tbl2 mesh2 start_vl2 rnd2 fuel2 sws2,
    (subnet_vls nodes2 op_vls2 sws2 ≤ start_vl2)%Z →
    lash_process nodes2 op_vls2 port_lid_tbl2 mesh2 start_vl2 rnd2 fuel2 sws2 p' = None.
Proof.
  intros H Hv nodes2 op_vls2 port_lid_tbl2 mesh2 start_vl2 rnd2 fuel2 sws2 Hvl.
  assert (Hfreed : allocated p' = false).
  { assert (Hexit : ∃ st1 p1 sws1, lash_exit st1 p1 sws1 = Some (st, p', sws')).
    { unfold lash_process in H. destruct (discover_network_properties _ _ _ _ _) as [st0 p0].
      destruct (negb (st0 =? 0)%Z); [by eexists _, _, _|].
      destruct (process_switches _ _ _ _) as [l|]; [|done]. cbn [mbind option_bind] in H.
      destruct (lash_core _ _ _ _ _) as [[st2 p2]|]; [|done]. cbn [mbind option_bind] in H.
      destruct (negb (st2 =? 0)%Z); [by eexists _, _, _|].
      destruct (populate_fwd_tbls _ _ _ _) as [[l2 sws2']|]; [|done]. by eexists _, _, _. }
    destruct Hexit as (st1 & p1 & sws1 & (p2 & [= _ <- _] & _ & Ev & Ha)%lash_exit_Some).
    apply Ha. congruence. }
  unfold lash_process. rewrite discover_eq. cbv zeta. apply Z.leb_le in Hvl. rewrite Hvl.
  cbn [Z.eqb negb]. unfold lash_exit. apply Nat.eqb_neq in Hv.
  match goal with |- context [vl_min ?x =? 0] => change (vl_min x) with (vl_min p') end. rewrite Hv.
  unfold free_lash_structures. simpl (allocated _). by rewrite Hfreed.
Qed.
