(* ===== verification/LashEx.v ===== *)
(** * LASH on a ring

    Rings of switches with a channel adapter on each: subnets on which one lane is not
    enough, the witnesses of the theorems on LASH, and a ring of seven on which the
    balancing leaves a dependency on a vertex that is freed. *)

From S2P Require Import Prelude IbTypes CString Switch UcastMgr RouteEx UpdnEx.
From S2P Require Import Lash LashCycle LashRoute LashCdg LashPath LashLane LashCore LashBalance LashProc.
From stdpp Require Import relations.

Open Scope Z_scope.

#[local] Instance ex_lash_order : ByteOrder := false.

(** ** Rings *)

(** Switch [g] of a ring of [n], with an adapter on port 3. *)
Definition ring_switch (n g : Z) : osm_node :=
  Node g true g [ex_physp None; ex_physp (Some (g `mod` n + 1, 2)); ex_physp (Some ((g - 2) `mod` n + 1, 1));
                 ex_physp (Some (100 + g, 1))].

Definition ring_host (g : Z) : osm_node :=
  Node (100 + g) false 0 [Physp 0 true 1 false None; ex_physp (Some (g, 3))].

Definition ring_gs (n : Z) : list Z := seqZ 1 n.

Definition ring_nodes (n : Z) : gmap Z osm_node :=
  list_to_map (((λ g, (g, ring_switch n g)) <$> ring_gs n) ++ ((λ g, (100 + g, ring_host g)) <$> ring_gs n)).

Definition ring_sws (n : Z) : gmap Z osm_switch := table (ring_nodes n) (ring_gs n) (2 * n).

Definition ring_port (n g : Z) : osm_port := Port (100 + g) (Some 1) (n + g) 0 false None.

Definition ring_lids (n : Z) : list (option osm_port) :=
  None :: ((λ g, Some (Port g (Some 0) g 0 false None)) <$> ring_gs n) ++ ((λ g, Some (ring_port n g)) <$> ring_gs n).

(** A walk over all switches that comes back. *)
Definition walk_check (nodes : gmap Z osm_node) (gs : list Z) (w : list Z) : bool :=
  forallb (λ '(s, r), bool_decide (s ∈ gs) && bool_decide (r ∈ gs)
      && existsb (λ pn, bool_decide (fst <$> (p ← physp_at nodes s pn; p_remote_physp p) = Some r))
           (seqZ 1 (num_physp nodes s - 1)))
    (zip w (drop 1 w)).

Section Ring.
Variable nodes : gmap Z osm_node.
Variable gs : list Z.
Variable max_lid : Z.
Notation sws := (table nodes gs max_lid).

Lemma walk_check_cons s r w :
  walk_check nodes gs (s :: r :: w) = true → cabled nodes sws s r ∧ walk_check nodes gs (r :: w) = true.
Proof.
  unfold walk_check. simpl. rewrite drop_0, !andb_true_iff, !bool_decide_eq_true, existsb_exists.
  intros [[[Hs Hr] (pn & Hpn%list_elem_of_In%elem_of_seqZ & Hb)] Hw]. split; [|done].
  apply bool_decide_eq_true in Hb. destruct (physp_at nodes s pn) as [p|] eqn:Ep; [|done]. simpl in Hb.
  destruct (p_remote_physp p) as [[r' rem]|] eqn:Er; [|done]. injection Hb as ->. exists pn, rem.
  unfold cable. rewrite table_dom. split_and!; [by apply elem_of_guids|lia|lia|by apply elem_of_guids|by exists p].
Qed.

Lemma walk_check_rtc w s r x :
  walk_check nodes gs (s :: w) = true → last (s :: w) = Some r → x ∈ s :: w →
  rtc (cabled nodes sws) s x ∧ rtc (cabled nodes sws) x r.
Proof.
  revert s x. induction w as [|y w IH]; intros s x Hc Hl Hx.
  - injection Hl as ->. by apply list_elem_of_singleton in Hx as ->.
  - apply walk_check_cons in Hc as [Hsy Hc]. change (last (y :: w) = Some r) in Hl.
    apply elem_of_cons in Hx as [->|Hx].
    + split; [done|]. apply rtc_l with y; [done|]. apply (IH y y Hc Hl). left.
    + destruct (IH y x Hc Hl Hx). split; [by apply rtc_l with y|done].
Qed.

Lemma fabric_check s w :
  sizes_check nodes gs max_lid = true → cables_check nodes gs (back_check nodes) = true →
  walk_check nodes gs (s :: w) = true → last (s :: w) = Some s → forallb (λ g, bool_decide (g ∈ s :: w)) gs = true →
  fabric_ok nodes sws.
Proof.
  intros H1 H2 Hw Hl Hall. destruct (table_start nodes gs max_lid H1) as [[Hsh _] _]. split.
  - intros g sw Hg. by apply (sh_ports _ _ _ Hsh).
  - rewrite table_dom. by apply cables_ok_check.
  - rewrite forallb_forall in Hall. rewrite table_dom.
    assert (Hin : ∀ g, g ∈ guids gs → g ∈ s :: w).
    { intros g Hg%elem_of_guids%list_elem_of_In. specialize (Hall g Hg). by apply bool_decide_eq_true in Hall. }
    intros a b Ha%Hin Hb%Hin. destruct (walk_check_rtc w s s a Hw Hl Ha) as [_ Has].
    destruct (walk_check_rtc w s s b Hw Hl Hb) as [Hsb _]. by transitivity s.
Qed.
End Ring.

Lemma ring5_fabric : fabric_ok (ring_nodes 5) (ring_sws 5).
Proof. apply (fabric_check _ _ _ 1 [2; 3; 4; 5; 1]); vm_compute; reflexivity. Qed.

Lemma ring7_fabric : fabric_ok (ring_nodes 7) (ring_sws 7).
Proof. apply (fabric_check _ _ _ 1 [2; 3; 4; 5; 6; 7; 1]); vm_compute; reflexivity. Qed.

(** ** Runs *)

Definition ring_rnd (i : nat) : Z := Z.of_nat (7 * i + 3).

(** Five switches; the PortInfo of every port encodes [vls]. *)
Definition ring_run (vls : Z) : option (Z * lash_t * gmap Z osm_switch) :=
  lash_process (ring_nodes 5) (λ _ _, vls) (ring_lids 5) false 0 ring_rnd 100 (ring_sws 5) lash_create.

Definition ring_result (vls : Z) : Z * lash_t * gmap Z osm_switch := default (1, lash_create, ∅) (ring_run vls).

Lemma ring_run_ok : ring_run 3 = Some (0, (ring_result 3).1.2, (ring_result 3).2).
Proof.
  unfold ring_result. destruct (ring_run 3) as [[[st p] sws]|] eqn:E.
  - assert (Hst : (λ r, r.1.1) <$> ring_run 3 = Some 0) by (vm_compute; reflexivity).
    rewrite E in Hst. by injection Hst as ->.
  - assert (Hs : bool_decide (is_Some (ring_run 3)) = true) by (vm_compute; reflexivity).
    rewrite E in Hs. done.
Qed.

Lemma ring_lid_bounds g sw : ring_sws 5 !! g = Some sw → max_lid_ho sw = 10 ∧ length (lft sw) = 64%nat.
Proof.
  intros [_ ->]%table_lookup.
  assert (H : ∀ n, lft (prepared n 10) = replicate 64 OSM_NO_PATH ∧ max_lid_ho (prepared n 10) = 10) by done.
  change (2 * 5) with 10. by destruct (H (num_physp (ring_nodes 5) g)) as [-> ->].
Qed.

Lemma lash_process_delivers_witness :
  ∃ p sws, ring_run 3 = Some (0, p, sws) ∧ deadlock_free (switches p)
    ∧ forward (ring_nodes 5) sws 8 6 1 = ToPort 103 1.
Proof.
  eexists _, _. split; [exact ring_run_ok|].
  destruct (lash_process_delivers (ring_nodes 5) (λ _ _, 3) (ring_lids 5) 0 ring_rnd 100 (ring_sws 5) lash_create
    _ _ ring5_fabric ltac:(lia)
    ltac:(intros g sw H; destruct (ring_lid_bounds g sw H) as [-> ->]; lia) ring_run_ok) as (H1 & H2 & _).
  split; [exact H1|].
  destruct (H2 (ring_port 5 3) 3 8 1) as [H _]; [reflexivity| | | |].
  - split; [apply elem_of_dom; vm_compute; by eexists|]. right.
    split; [apply not_elem_of_dom; vm_compute; reflexivity|].
    eexists 1, _, _, 3, _. split_and!; vm_compute; reflexivity || done.
  - intros g sw Hg. destruct (ring_lid_bounds g sw Hg) as [-> _]. lia.
  - apply elem_of_dom. vm_compute. by eexists.
  - assert (E : destination (dom (ring_sws 5)) (ring_port 5 3) = ToPort 103 1) by (vm_compute; reflexivity).
    rewrite E in H. exact H.
Defined.

(** After a run on one lane the engine does not survive a subnet with no lane above
    [lash_start_vl]. *)
Lemma lash_process_stale_witness :
  lash_process (ring_nodes 5) (λ _ _, 1) (ring_lids 5) false 1 ring_rnd 100 (ring_sws 5) (ring_result 3).1.2 = None.
Proof.
  apply (lash_process_stale (ring_nodes 5) (λ _ _, 3) (ring_lids 5) false 0 ring_rnd 100 (ring_sws 5) lash_create
    0 _ _ ring_run_ok); vm_compute; discriminate.
Defined.

(** *** The ring of seven switches *)

Definition ring7_links : list switch_t :=
  default [] (process_switches (ring_nodes 7) false (ring_sws 7) (created (ring_sws 7))).

Definition ring7 (lanes : nat) : lash_t :=
  Lash lanes 6 ring7_links (replicate lanes cdg_empty) (replicate IB_MAX_NUM_VLS 0) ∅ true.

Lemma ring7_network lanes : network (switches (ring7 lanes)).
Proof.
  destruct (process_switches_network _ _ ring7_fabric) as (l & E & _ & H & _).
  unfold ring7, ring7_links. simpl. by rewrite E.
Qed.

Lemma ring7_untouched lanes : (1 ≤ lanes < IB_MAX_NUM_VLS)%nat → untouched (ring7 lanes).
Proof. intros H. by split. Qed.

Lemma lash_routes_shortest_witness : ∃ sws, lash_routes ring7_links = Some sws ∧ routes_ok sws.
Proof.
  destruct (ring7_network 1) as [H1 H2 H3 H4 H5].
  destruct (lash_routes_shortest ring7_links H1 H2 H3 H5) as (sws & E & _ & _ & H). exists sws. split; [exact E|exact H].
Defined.

(** One lane is not enough for the ring. *)
Lemma lash_core_answers_witness : ∃ p', lash_core 7 0 ring_rnd 0 (ring7 1) = Some (-1, p').
Proof.
  destruct (lash_core_answers 0 ring_rnd 0 (ring7 1) (ring7_network 1) ltac:(apply ring7_untouched; vm_compute; lia))
    as (sws & r & E1 & E2 & H). destruct r as [p' need bm|p'].
  - destruct H as [Hn H]. exfalso. assert (need = 1%nat) as -> by (simpl in Hn; lia). specialize (H eq_refl).
    assert (E : fst <$> lash_core 7 0 ring_rnd 0 (ring7 1) = Some (-1)) by (vm_compute; reflexivity).
    change (length (switches (ring7 1))) with 7%nat in H. rewrite H in E. discriminate.
  - destruct H as [H _]. exists p'. exact H.
Defined.

Definition ring7_rnd (i : nat) : Z := Z.of_nat (i * i) `mod` 1009.

Definition ring7_result : lash_t := default lash_create (snd <$> lash_core 7 0 ring7_rnd 300 (ring7 4)).

Definition ring7_lane : cdg := default cdg_empty (cdg_vertex_matrix ring7_result !! 0%nat).

Lemma ring7_run : lash_core 7 0 ring7_rnd 300 (ring7 4) = Some (0, ring7_result).
Proof.
  unfold ring7_result. destruct (lash_core 7 0 ring7_rnd 300 (ring7 4)) as [[st p]|] eqn:E.
  - assert (Hst : fst <$> lash_core 7 0 ring7_rnd 300 (ring7 4) = Some 0) by (vm_compute; reflexivity).
    rewrite E in Hst. by injection Hst as ->.
  - assert (Hs : bool_decide (is_Some (lash_core 7 0 ring7_rnd 300 (ring7 4))) = true) by (vm_compute; reflexivity).
    rewrite E in Hs. done.
Qed.

Lemma lash_core_deadlock_free_witness : deadlock_free (switches ring7_result).
Proof.
  apply (lash_core_deadlock_free 0 ring7_rnd 300 (ring7 4) ring7_result (ring7_network 4)).
  - apply ring7_untouched. vm_compute. lia.
  - exact ring7_run.
Defined.

(** A circle of two vertices. *)
Definition pair_cdg : cdg :=
  Cdg {[ 0%nat := CdgVertex 0 1 false false 0 None 0 1 1 [(Some 1%nat, 1%nat)];
         1%nat := CdgVertex 1 0 false false 0 None 0 1 1 [(Some 0%nat, 1%nat)] ]} 2
      {[ (0, 1)%nat := 0%nat; (1, 0)%nat := 1%nat ]}.

Lemma cycle_exists_exact_witness :
  ∃ c', cycle_exists (cycle_fuel pair_cdg) 0 None None 1 pair_cdg = Some (true, c') ∧ cycle_from pair_cdg 0.
Proof.
  assert (Hcase : ∀ p v, verts pair_cdg !! p = Some v →
    visiting_number v = 0%nat ∧ seen v = false ∧ num_deps v = 1%nat
    ∧ ∃ q, deps v = [(Some q, 1%nat)] ∧ is_Some (verts pair_cdg !! q)).
  { intros p v. unfold pair_cdg. simpl. rewrite lookup_insert_Some.
    intros [[<- <-]|[_ [<- <-]%lookup_singleton_Some]]; split_and!; try done; eexists; by (split; [done|]). }
  destruct (cycle_exists_exact pair_cdg 0) as (b & c' & E & _ & Hb).
  - intros p v H. by destruct (Hcase p v H) as (? & ? & _).
  - intros p v H i Hi. destruct (Hcase p v H) as (_ & _ & Hn & q & Hq & Hl). rewrite Hn in Hi.
    exists q. rewrite Hq. by destruct i; [|lia].
  - by eexists.
  - assert (Ht : fst <$> cycle_exists (cycle_fuel pair_cdg) 0 None None 1 pair_cdg = Some true) by (vm_compute; reflexivity).
    rewrite E in Ht. injection Ht as ->. exists c'. split; [exact E|]. by apply Hb.
Defined.

(** The balancing of [lash_core] leaves a dependency whose vertex it has freed.  On a
    ring of seven switches with four lanes the run succeeds, and in its first lane a
    vertex still depends on an address where no vertex is: taking back a pair that
    was only tried does not take back its uses of dependencies that were there before,
    so that the count of such a dependency does not fall to zero when its last route
    leaves the lane. *)
Lemma lash_leaves_dangling :
  ∃ p' c v q, lash_core 7 0 ring7_rnd 300 (ring7 4) = Some (0, p')
    ∧ cdg_vertex_matrix p' !! 0%nat = Some c ∧ matrix c !! (2, 3)%nat = Some v
    ∧ edge c v q ∧ verts c !! q = None.
Proof.
  exists ring7_result, ring7_lane, (default 0%nat (matrix ring7_lane !! (2, 3)%nat)), 12%nat.
  split; [exact ring7_run|]. split; [vm_compute; reflexivity|]. split; [vm_compute; reflexivity|].
  split; [|vm_compute; reflexivity].
  eexists. split; [vm_compute; reflexivity|]. vm_compute. repeat (apply list_elem_of_here || apply list_elem_of_further).
Qed.
